(* ===== verification/_CoqProject ===== *)
-Q . S2P
Prelude.v
PyFloat.v
PyText.v
Transforms.v
TransformsSpec.v
ConfigSpace.v
ConfigSpaceSpec.v
KnobSpec.v
Tuner.v
TunerSpec.v
Heapq.v
ModelTuner.v
AnnealSpec.v
ModelTunerSpec.v
Tracker.v
TrackerSpec.v
Proxy.v
ProxyInv.v
ProxySpec.v
Dispatcher.v
DispatcherSpec.v
AsDispatcher.v
AsDispatcherSpec.v
TaskScheduler.v
TaskSchedulerSpec.v
Corpus.v
CorpusSpec.v
Measure.v
MeasureSpec.v
Farm.v
FarmSpec.v
Records.v
RecordsSpec.v
Pbqp.v
PbqpEnergy.v
PbqpState.v
PbqpReduce.v
PbqpSpec.v
PbqpRun.v
GraphTraverse.v
GraphTraverseSpec.v
GraphBase.v
GraphBaseSpec.v
Dp.v
DpSpec.v
Campaign.v
CampaignSpec.v
MetaCorpus.v
MetaCorpusSpec.v
MetaMeasure.v
MetaMeasureSpec.v
MetaFarm.v
MetaFarmSpec.v
Driver.v
DriverSpec.v
MetaDriver.v
MetaDriverSpec.v
Codes.v
SpaceWitnesses.v
TunerWitnesses.v
ServiceWitnesses.v
PipelineWitnesses.v
RecordWitnesses.v
GraphWitnesses.v
GraphBaseWitnesses.v
DpWitnesses.v
MetaWitnesses.v
AsWitnesses.v
