(* ===== verification/Prelude.v ===== *)
(** * Verification of the TLM tuning stack

    The repository is a fork of TVM extended with TLM, a language model that writes tensor
    programs.  This development models the parts of its Python code that hold the tuning
    logic: the search spaces and the tuners of autotvm, the tracker that hands out devices
    and the proxy that connects them, the records of measurements, the dispatch of tuned
    configurations, the graph tuner, the task scheduler and the dispatcher of
    auto_scheduler, and the TLM data pipelines under src/gen and src/meta.

    ** How the parts interact

    A template describes its schedule space by knobs; the space enumerates
    entities, a tuner picks points of it, asks the tracker for devices to
    measure on, and the records of the measurements are looked up by the
    dispatcher when a model is compiled.  The task scheduler divides a budget of
    measurements over the tasks of a network.  The TLM pipeline replaces the
    search of a task by a language model: random programs are dumped and
    measured, measured records are linearised into a training corpus, the model
    generates programs for masked sketches, the programs are measured in parts
    and collected, and a driver repeats this, spending the later rounds on the
    tasks that still improve.

    ** Files

    - [Prelude]: the outcome type [py] of Python expressions ([Ret] or [Raise]),
      the state monad [ST] of methods on a mutable object, lists, integers,
      insertion-ordered dicts ([od_*]), JSON values, and the parameter class
      [Numpy] with its documented laws [NumpyOk].
    - [PyFloat]: binary64 floats ([spec_float]) with Python's comparisons, [min],
      [sum] and division.  [PyText]: paths, lines, [repr] and JSON navigation.
    - [Transforms], [TransformsSpec]: src/python/tvm/autotvm/task/space.py up to
      OtherOptionEntity (factors, splits, reorders, annotations).
    - [ConfigSpace], [ConfigSpaceSpec], [KnobSpec]: ConfigSpace, ConfigEntity and
      FallbackConfigEntity of the same file.
    - [Tuner], [TunerSpec]: src/python/tvm/autotvm/tuner/{tuner,index_based_tuner,
      ga_tuner,callback}.py; the class [TunerImpl] is the interface that
      [Tuner.tune] drives, its instances are the tuners.
    - [Heapq]: the binary heaps of the standard library, with their contract.
    - [ModelTuner], [AnnealSpec], [ModelTunerSpec]:
      src/python/tvm/autotvm/tuner/{sa_model_optimizer,model_based_tuner,metric}.py;
      the classes [CostModel] and [ModelOptimizer] are the interfaces of the source
      between tuner, cost model and optimizer, [ModelOptimizerOk] is what the tuner
      relies on, and simulated annealing is an instance of it.
    - [Tracker], [TrackerSpec]: src/python/tvm/rpc/{base,tracker,tornado_util}.py:
      framing, the handshake, the priority scheduler, the request handlers; the
      record [tracker] is the shared state of all connections.
    - [Proxy], [ProxyInv], [ProxySpec]: src/python/tvm/rpc/{proxy,tornado_util}.py, TCP
      connections without a tracker.  The record [proxy] is all connections, the two pools
      and the time-outs, [perform] one event of the event loop, [reachable] the states
      that enabled events lead to, and [inv] the invariant; [good], [fine], [reads] and
      [calm] say what an operation keeps.
    - [Dispatcher], [DispatcherSpec]: src/python/tvm/autotvm/task/dispatcher.py; the
      [world] holds the heap of context objects and the current context.
    - [AsDispatcher], [AsDispatcherSpec]: src/python/tvm/auto_scheduler/dispatcher.py,
      with the distance of workloads of utils.py; its [as_world] is the heap of contexts.
    - [Records], [RecordsSpec]: src/python/tvm/autotvm/{record,database}.py; the
      class [Codec] is json, pickle and Target, [CodecOk] that they read back what
      they write.
    - [Pbqp], [PbqpEnergy], [PbqpState], [PbqpReduce], [PbqpSpec], [PbqpRun]:
      src/python/tvm/autotvm/graph_tuner/pbqp_tuner.py.  The record [pbqp] is the
      tuner, its matrices are objects of a heap; [energy] is the cost of a choice
      in a graph given by functions; [wf] is the invariant of the tuner, [reduced]
      and [exact_reduction] what one reduction does, and [PbqpRun] leads from the
      input of the constructor to a state with [wf].
    - [GraphTraverse], [GraphTraverseSpec]: the node lists of
      src/python/tvm/autotvm/graph_tuner/utils: ancestors, input and output nodes.
      [nearest] says what an ancestor is, [selected], [reduced_from] and [gone_from]
      what the three stages of get_in_nodes do to the dictionary.
    - [GraphBase], [GraphBaseSpec]: src/python/tvm/autotvm/graph_tuner/base_graph_tuner.py:
      candidates, pairs of nodes, benchmark and matrices, which are the input of [Pbqp] and [Dp].
    - [Dp], [DpSpec]: src/python/tvm/autotvm/graph_tuner/dynamic_programming_{stage,tuner}.py.
      The class [NdOps] is the arrays of numpy, [NdOk] the laws a chain needs, [list_arrays]
      in [DpWitnesses] an instance; [stages_ok] is what holds after the forward pass.
    - [TaskScheduler], [TaskSchedulerSpec]:
      src/python/tvm/auto_scheduler/task_scheduler.py.
    - [Corpus], [CorpusSpec]: src/gen/make_dataset.py, make_dataset_utils.py.
    - [Measure], [MeasureSpec]: src/gen/{common,dump_programs,gen_state,
      measure_programs,run_measure,postprocess}.py.
    - [Farm], [FarmSpec]: the processes of src/gen/run_measure.py as a transition
      system: the record [farm] is the directories they share and where each
      process is, [step] one action of one of them.
    - [Campaign], [CampaignSpec]: src/gen/{utils,task_sheduler}.py.
    - [Driver], [DriverSpec]: src/gen/run.py.
    - [MetaCorpus], [MetaCorpusSpec]: src/meta/{meta_make_dataset,meta_common}.py.
    - [MetaMeasure], [MetaMeasureSpec]: src/meta/{meta_gen_state,measure_programs,
      meta_postprocess,meta_task_sheduler}.py; the windows and scores of the tasks
      are those of [Campaign].
    - [MetaFarm], [MetaFarmSpec]: the processes of src/meta/run_measure.py as a
      transition system on the shared directories; [tokens] is the account of all parts
      and [farm_ok] the invariant.
    - [MetaDriver], [MetaDriverSpec]: src/meta/{run,meta_utils}.py; the loop and the
      order of its rounds are shared with [Driver] and [DriverSpec].
    - [SpaceWitnesses], [TunerWitnesses], [ServiceWitnesses], [PipelineWitnesses],
      [RecordWitnesses], [GraphWitnesses], [GraphBaseWitnesses], [DpWitnesses],
      [MetaWitnesses], [AsWitnesses]: the theorems
      with hypotheses at concrete inputs.

    A file [X] holds definitions named as in the source, [XSpec] their
    properties; a definition that has no name in the source says in its comment
    which lines it is.

    ** What the theorems show

    - Spaces: [get_factors], [SplitSpace], [ReorderSpace] and [AnnotateSpace]
      enumerate exactly the documented entities; applying a split keeps the
      extents; [ConfigSpace.get] decodes an index in mixed radix, filters and
      caches agree with their definition, points and knobs are inverse, JSON
      forms can be read back, random walks and fallbacks stay in the space.
    - Tuners: the tuning loop ends, tries a prefix of what its tuner
      enumerates and keeps the best result; grid search tries every valid index
      once; the genetic tuner proposes valid indexes; simulated annealing
      returns the best of the points its chains start from and walk through, which
      the relation [chains] determines from the draws; the model based tuner
      tries nothing twice whatever its optimizer proposes, and with enough draws
      hands out what it is asked for; the diversity filter is greedy.
    - Tracker: messages survive any chunking of the stream, JSON survives the
      wire, no device waits together with a request for it in any reachable
      state, and the best request is served first.
    - Proxy: in every reachable state no key waits on both sides and links join a server
      and a client of the same key, both ways unless one is closed; a handshake that
      finds its partner is greeted with the key of the other; what a linked connection
      reads is appended to the stream of the other, all of it, once and in order; the pieces
      in which a handshake comes do not matter.
    - Records: a record is read back as it was written up to what the format
      cannot hold; a log is split and distilled as documented, up to which
      measurement of the best configuration is kept; the database returns what
      was saved.
    - Graph tuner: the input nodes of a graph are nearest tuned ancestors, and no tuned
      operator that depends on a graph input is lost; the candidates of a node are the best
      of their layouts; the first benchmark makes a full matrix for every pair of
      neighbours; with exact costs that are not negative, and no matrix recorded against
      an edge, the PBQP tuner
      ends, gives every node a record, and its choice takes the least estimated time
      whenever no record had to be fixed greedily, in particular on graphs of degree at most
      2; the dynamic programming tuner finds the best choice on
      chains, and lemmas show graphs with sums on which it does not.
    - Dispatcher and task scheduler: the loaded history answers with the best
      record, queries fall through the stack of contexts, a tuned task
      accounts for its trials and costs, and tuning ends within the budget.  The
      dispatcher of auto_scheduler keeps the fastest record of each item, answers with
      the nearest compatible workload, and its sampling comes to an answer.
    - TLM pipeline: linearisations agree up to brackets and hide split sizes;
      training and test files are a partition; the best program of each sketch
      is kept; programs are generated, measured and collected without
      duplicates or losses; the choice of tasks keeps the budget of each model; the
      driver takes rounds in order and puts a file away only after adding it.  As long as no worker of the measurement farm is
      overtaken and no process restarted, every record is in exactly one of the
      shared places; a reachable run with a restart loses records.
    - MetaSchedule pipeline: a prompt says exactly what a record and another one with
      the same sketch have in common, and with the label the record can be read
      back; the best record of a database is as fast as those with its prompt;
      no database of the test networks is trained on; what is generated is new and
      bounded, what is measured is committed in order, and the databases of all
      rounds are collected; the driver takes rounds in order and lists each of
      them once.  In its farm no part of a directory is ever in two places, what is
      merged is complete unless a process crashed, and no part is lost by a schedule
      that is [careful_run]; the schedules that are not do lose parts.
    - Lemmas named in the notes of a component show what the code does where
      that is not what it means to do: a split into one output, a frame of
      length 0, a context entered twice, caches that go stale, histories that
      are shared, a driver that waits for the wrong file, a diversity filter that
      runs out of candidates, a connection with a wrong magic that waits for a partner.

    ** Fuel and bounds

    Functions that recurse on data are structural.  The loops that are not take fuel and
    raise [RecursionError] when it runs out, and a theorem gives fuel that is enough:
    [dump_program_spec] for the [while] of dump_programs.py, [round_robin_tune_terminates]
    for [TaskScheduler.tune], [tune_spec] for [Tuner.tune], [scheduling_terminates] for the
    tracker, [close_ok] for a connection of the proxy that closes its partner,
    [init_loop_fuel] for its handshake (a round takes a byte; without fuel it stops),
    [random_walk_spec] for the random walk, [as_sample_returns] for the sampling of missing
    records,
    [sa_find_maximums_spec] for simulated annealing and [tune_rounds_spec] for the
    model based tuner under the given draws,
    [get_in_nodes_spec] for the loops over a graph (the length of the node list or of the
    dictionary), [pbqp_minimises] for the PBQP tuner (one round per node) and [dp_chain_optimal]
    for the queue of the dynamic programming tuner (one node per round).
    [remove_iter] has as much fuel as the list it shortens has elements.  Integers are
    unbounded as in Python; products that numpy computes wrap at 64 bits ([wrap64]).

    ** Parameters

    Code outside src/ is a parameter: numpy ([Numpy]), random draws (functions
    or streams), the JSON parser and printer, [repr] of floats, the measurer and
    the search policies (C++), the HuggingFace models, the shell.  Hypotheses on
    them are stated in the theorems.  Strings are ASCII; [math.sqrt] and [math.log2] of
    an int are exact here (they round from about 2^48 on).

    ** Not modelled

    Model training and tokenizing (library calls), the reports of speedup_eval.py,
    extraction of tasks from networks, the other scripts of src/meta, the XGBoost cost model,
    expr2graph (it works on relay expressions of the C++ core), the tracker mode and the
    WebSocket handlers
    of the proxy (tornado classes), RPC server and client (sockets and calls into the C++
    runtime), a kill of run_measure.py within the loops of its divider or merger, a crash of
    the measuring process of src/gen in the middle of a file, connections of the tracker
    that break after they were accepted, and the rest of src/python/tvm: importers and bindings whose semantics is in
    C++. *)

From stdpp Require Export base gmap list list_numbers sorting strings numbers pretty.
From Stdlib Require Export Ascii ZArith Lia SpecFloat.

#[global] Set Default Goal Selector "!".

(** ** Python exceptions and the two effect monads *)

(** The exception classes that the modelled functions raise. *)
Inductive exn :=
  | AssertionError
  | TypeError
  | ValueError
  | IndexError
  | KeyError
  | RuntimeError
  | AttributeError
  | ZeroDivisionError
  | NotImplementedError
  | OverflowError
  | NameError
  | IOError
  | StructError
  | JSONDecodeError
  | UnboundLocalError
  | RecursionError.

#[global] Instance exn_eq_dec : EqDecision exn.
Proof. solve_decision. Defined.

(** The outcome of a Python expression: a value or a raised exception. *)
Inductive py (A : Type) :=
  | Ret (a : A)
  | Raise (e : exn).
Arguments Ret {A} a.
Arguments Raise {A} e.

Definition pbind {A B} (m : py A) (k : A → py B) : py B :=
  match m with Ret a => k a | Raise e => Raise e end.

(** A method on a mutable object of type [S]; a raised exception keeps the
    updates made before it. *)
Definition ST (S A : Type) := S → py A * S.

Definition sret {S A} (a : A) : ST S A := λ s, (Ret a, s).

Definition sbind {S A B} (m : ST S A) (k : A → ST S B) : ST S B :=
  λ s, match m s with
       | (Ret a, s') => k a s'
       | (Raise e, s') => (Raise e, s')
       end.

Definition sraise {S A} (e : exn) : ST S A := λ s, (Raise e, s).

Definition sget {S} : ST S S := λ s, (Ret s, s).

Definition sput {S} (s : S) : ST S unit := λ _, (Ret tt, s).

(** An update of the state in place. *)
Definition smod {S} (f : S → S) : ST S unit := λ s, (Ret tt, f s).

Definition slift {S A} (m : py A) : ST S A := λ s, (m, s).

Declare Scope py_scope.
Delimit Scope py_scope with py.
Notation "'let?' x := m 'in' k" := (pbind m (λ x, k))
  (at level 10, x pattern, m at level 100, k at level 200) : py_scope.
Notation "'let!' x := m 'in' k" := (sbind m (λ x, k))
  (at level 10, x pattern, m at level 100, k at level 200) : py_scope.
Open Scope py_scope.

(** [assert b]. *)
Definition pyassert (b : bool) : py unit :=
  if b then Ret tt else Raise AssertionError.

Definition is_ret {A} (m : py A) : Prop := ∃ a, m = Ret a.

(** ** Python lists and integers *)

(** [len(l)]. *)
Definition zlen {A} (l : list A) : Z := Z.of_nat (length l).

(** [l[i]] with Python's negative indices and [IndexError]. *)
Definition pynth {A} (l : list A) (i : Z) : py A :=
  let j := if bool_decide (i < 0)%Z then (i + zlen l)%Z else i in
  if bool_decide (j < 0)%Z then Raise IndexError
  else match l !! Z.to_nat j with Some x => Ret x | None => Raise IndexError end.

(** [l[i] = x] for a list, with [IndexError] out of range. *)
Definition pyset {A} (l : list A) (i : Z) (x : A) : py (list A) :=
  let j := if bool_decide (i < 0)%Z then (i + zlen l)%Z else i in
  if bool_decide (0 ≤ j < zlen l)%Z then Ret (<[Z.to_nat j := x]> l)
  else Raise IndexError.

(** [a % b] and [a // b]: floor semantics, as [Z.modulo] and [Z.div]. *)
Definition pymod (a b : Z) : py Z :=
  if bool_decide (b = 0)%Z then Raise ZeroDivisionError else Ret (a `mod` b)%Z.
Definition pydiv (a b : Z) : py Z :=
  if bool_decide (b = 0)%Z then Raise ZeroDivisionError else Ret (a `div` b)%Z.

(** [range(start, stop, step)] for a positive step. *)
Definition range_step (start stop step : Z) : list Z :=
  (λ k, (start + step * k)%Z) <$> seqZ 0 ((stop - start + step - 1) `div` step)%Z.

Definition range (start stop : Z) : list Z := seqZ start (stop - start).

(** [functools.reduce] without an initial value. *)
Definition reduce {A} (f : A → A → A) (l : list A) : py A :=
  match l with [] => Raise TypeError | x :: l' => Ret (foldl f x l') end.

(** Wrap-around of the int64 arithmetic numpy uses for lists of ints. *)
Definition wrap64 (z : Z) : Z := ((z + 2 ^ 63) `mod` 2 ^ 64 - 2 ^ 63)%Z.

Definition zprod (l : list Z) : Z := foldr Z.mul 1%Z l.

(** The numpy operations the code calls.  numpy is not part of the sources: it
    is a parameter of the model, and [NumpyOk] states its documented behaviour. *)
Class Numpy := {
  np_prod : list Z → Z;                       (** [int(np.prod(l))] *)
  np_argmax : list Z → nat;                   (** [np.argmax(l)], [l] not empty *)
  np_mean : list spec_float → spec_float      (** [np.mean(l)] *)
}.

Class NumpyOk `{Numpy} : Prop := {
  (** the int64 product is modular, the empty product is 1 *)
  np_prod_wrap l : np_prod l = wrap64 (zprod l);
  (** the first position of a maximum *)
  np_argmax_spec l : l ≠ [] →
    ∃ m, l !! np_argmax l = Some m ∧ Forall (λ x, (x ≤ m)%Z) l ∧
         ∀ j x, l !! j = Some x → j < np_argmax l → (x < m)%Z
}.

(** [np.argmax(l)]: an empty argument is a [ValueError]. *)
Definition argmax `{Numpy} (l : list Z) : py nat :=
  match l with [] => Raise ValueError | _ => Ret (np_argmax l) end.

(** Evaluate a fallible function over a list, left to right. *)
Fixpoint pymap {A B} (f : A → py B) (l : list A) : py (list B) :=
  match l with
  | [] => Ret []
  | x :: l' => let? y := f x in let? ys := pymap f l' in Ret (y :: ys)
  end.

(** A [for] loop over a list that threads a state. *)
Fixpoint sfor {S A} (l : list A) (body : A → ST S unit) : ST S unit :=
  match l with
  | [] => sret tt
  | x :: l' => let! _ := body x in sfor l' body
  end.

(** A comprehension whose body threads a state. *)
Fixpoint smap {S A B} (f : A → ST S B) (l : list A) : ST S (list B) :=
  match l with
  | [] => sret []
  | x :: l' => let! y := f x in let! ys := smap f l' in sret (y :: ys)
  end.

(** [l[-k:]]: all of [l] for [k = 0]. *)
Definition last_k {A} (k : Z) (l : list A) : list A :=
  if bool_decide (k = 0)%Z then l else drop (Z.to_nat (zlen l - k)) l.

(** [l[a:b]]: negative bounds count from the end, bounds are clipped. *)
Definition slice_bound (n i : Z) : nat :=
  Z.to_nat (if bool_decide (i < 0)%Z then Z.max 0 (i + n) else Z.min i n).
Definition pyslice {A} (l : list A) (a b : Z) : list A :=
  let i := slice_bound (zlen l) a in
  take (slice_bound (zlen l) b - i) (drop i l).

(** ** Removing the first occurrence *)

(** The list after [l.remove(x)], for [x] in [l]. *)
Fixpoint remove1 {A} `{EqDecision A} (x : A) (l : list A) : list A :=
  match l with [] => [] | y :: l' => if decide (x = y) then l' else y :: remove1 x l' end.

(** [l.remove(x)]. *)
Definition pyremove {A} `{EqDecision A} (x : A) (l : list A) : py (list A) :=
  if bool_decide (x ∈ l) then Ret (remove1 x l) else Raise ValueError.

Lemma length_remove1 {A} `{EqDecision A} (x : A) l : x ∈ l → S (length (remove1 x l)) = length l.
Proof.
  induction l as [|y l IH]; simpl; [set_solver|]. intros Hin.
  case_decide; [done|]. simpl. rewrite IH; [done|set_solver].
Qed.

Lemma remove1_app {A} `{EqDecision A} (x : A) pre post :
  x ∉ pre → remove1 x (pre ++ x :: post) = pre ++ post.
Proof.
  induction pre as [|y pre IH]; simpl; [by rewrite decide_True|].
  intros Hn. rewrite decide_False by set_solver. f_equal. apply IH. set_solver.
Qed.

Lemma remove1_subseteq {A} `{EqDecision A} (x : A) l : remove1 x l ⊆ l.
Proof. induction l as [|y l IH]; simpl; [done|]. case_decide; set_solver. Qed.

Lemma remove1_perm {A} `{EqDecision A} (x : A) l : x ∈ l → l ≡ₚ x :: remove1 x l.
Proof.
  induction l as [|y l IH]; simpl; [set_solver|]. intros Hin. case_decide; [by subst|].
  rewrite IH at 1; [apply perm_swap|set_solver].
Qed.

Lemma StronglySorted_filter {A} (R : A → A → Prop) (P : A → Prop) `{∀ x, Decision (P x)} l :
  StronglySorted R l → StronglySorted R (filter P l).
Proof.
  induction 1 as [|x l Hl IH Hx]; [constructor|]. rewrite filter_cons. case_decide; [|done].
  constructor; [done|]. apply list.Forall_forall. intros y [_ Hy]%list_elem_of_filter.
  rewrite list.Forall_forall in Hx. by apply Hx.
Qed.

Lemma head_filter_Some {A} (P : A → Prop) `{∀ x, Decision (P x)} l x :
  head (filter P l) = Some x → P x ∧ x ∈ l.
Proof.
  intros Hh. assert (x ∈ filter P l) as Hin by (destruct (filter P l); [done|]; simplify_eq/=; left).
  by apply list_elem_of_filter in Hin.
Qed.

Lemma head_filter_None {A} (P : A → Prop) `{∀ x, Decision (P x)} l x :
  head (filter P l) = None → x ∈ l → ¬ P x.
Proof.
  intros Hh Hx HP. assert (x ∈ filter P l) as Hin by (by apply list_elem_of_filter).
  destruct (filter P l); [by apply not_elem_of_nil in Hin|done].
Qed.

Lemma filter_id {A} (P : A → Prop) `{∀ x, Decision (P x)} l : Forall P l → filter P l = l.
Proof. induction 1 as [|x l Hx Hl IH]; [done|]. rewrite filter_cons, decide_True by done. by rewrite IH. Qed.

(** ** Python dictionaries: insertion-ordered association lists *)

Section OrderedDict.
Context {K V : Type} `{EqDecision K}.

(** [d.get(k)]. *)
Fixpoint od_get (d : list (K * V)) (k : K) : option V :=
  match d with
  | [] => None
  | (k', v) :: d' => if decide (k = k') then Some v else od_get d' k
  end.

(** [d[k] = v]: an existing key keeps its position, a new one goes last. *)
Fixpoint od_set (d : list (K * V)) (k : K) (v : V) : list (K * V) :=
  match d with
  | [] => [(k, v)]
  | (k', v') :: d' =>
      if decide (k = k') then (k', v) :: d' else (k', v') :: od_set d' k v
  end.

(** [del d[k]] for a present key. *)
Fixpoint od_del (d : list (K * V)) (k : K) : list (K * V) :=
  match d with
  | [] => []
  | (k', v') :: d' => if decide (k = k') then d' else (k', v') :: od_del d' k
  end.

(** [k in d]. *)
Definition od_mem (d : list (K * V)) (k : K) : bool :=
  match od_get d k with Some _ => true | None => false end.

Definition od_keys (d : list (K * V)) : list K := d.*1.
Definition od_vals (d : list (K * V)) : list V := d.*2.

Lemma od_get_set_eq d k v : od_get (od_set d k v) k = Some v.
Proof.
  induction d as [|[k' v'] d IH]; simpl; [by case_decide|].
  case_decide; simpl; by case_decide.
Qed.

Lemma od_get_set_ne d k k' v : k ≠ k' → od_get (od_set d k v) k' = od_get d k'.
Proof.
  intros Hne. induction d as [|[k2 v2] d IH]; simpl.
  - by case_decide.
  - repeat (case_decide; simpl); congruence.
Qed.

Lemma od_get_set d k k' v :
  od_get (od_set d k v) k' = if decide (k = k') then Some v else od_get d k'.
Proof.
  case_decide; [subst; apply od_get_set_eq | by apply od_get_set_ne].
Qed.

Lemma od_keys_set d k v :
  od_keys (od_set d k v) = if od_mem d k then od_keys d else od_keys d ++ [k].
Proof.
  unfold od_mem, od_keys.
  induction d as [|[k' v'] d IH]; csimpl; [done|].
  case_decide; csimpl; [done|].
  rewrite IH. by destruct (od_get d k).
Qed.

Lemma od_get_Some_key d k v : od_get d k = Some v → k ∈ od_keys d.
Proof.
  unfold od_keys. induction d as [|[k' v'] d IH]; csimpl; [done|].
  case_decide; set_solver.
Qed.

Lemma od_get_elem d k v : od_get d k = Some v → (k, v) ∈ d.
Proof.
  induction d as [|[k' v'] d IH]; csimpl; [done|].
  case_decide; set_solver.
Qed.

Lemma od_get_None_key d k : od_get d k = None ↔ k ∉ od_keys d.
Proof.
  unfold od_keys. induction d as [|[k' v'] d IH]; csimpl; [set_solver|].
  case_decide; set_solver.
Qed.

Lemma od_elem_get d k v : NoDup (od_keys d) → (k, v) ∈ d → od_get d k = Some v.
Proof.
  unfold od_keys. induction d as [|[k' v'] d IH]; csimpl; [set_solver|].
  rewrite NoDup_cons. intros [Hk Hd] Hin.
  apply elem_of_cons in Hin as [[= -> ->]|Hin]; [by case_decide|].
  case_decide; [subst|by apply IH].
  exfalso. apply Hk. apply (list_elem_of_fmap_2 fst) in Hin; done.
Qed.

Lemma od_set_NoDup d k v : NoDup (od_keys d) → NoDup (od_keys (od_set d k v)).
Proof.
  intros Hd. rewrite od_keys_set. unfold od_mem.
  destruct (od_get d k) eqn:E; [done|].
  apply od_get_None_key in E. apply NoDup_app. set_solver by auto using NoDup_singleton.
Qed.

Lemma od_set_fresh d k v : od_get d k = None → od_set d k v = d ++ [(k, v)].
Proof. induction d as [|[k' v'] d IH]; simpl; [done|]. case_decide; [done|]. intros Hg. by rewrite IH. Qed.

Lemma od_key_iff d k : k ∈ od_keys d ↔ is_Some (od_get d k).
Proof.
  split.
  - intros Hk. destruct (od_get d k) eqn:E; [by eexists|]. by apply od_get_None_key in E.
  - intros [v Hv]. by eapply od_get_Some_key.
Qed.

Lemma od_del_perm d k v : od_get d k = Some v → d ≡ₚ (k, v) :: od_del d k.
Proof.
  induction d as [|[k' v'] d IH]; simpl; [done|]. case_decide; [subst; by intros [= ->]|].
  intros Hg. rewrite (IH Hg) at 1. apply perm_swap.
Qed.

Lemma od_del_sublist d k : od_del d k `sublist_of` d.
Proof.
  induction d as [|[k' v'] d IH]; simpl; [done|].
  case_decide; [by apply sublist_cons|by apply sublist_skip].
Qed.

Lemma od_del_subseteq d k : od_del d k ⊆ d.
Proof. apply sublist_subseteq, od_del_sublist. Qed.

Lemma od_del_NoDup d k : NoDup (od_keys d) → NoDup (od_keys (od_del d k)).
Proof. intros Hnd. eapply sublist_NoDup; [exact Hnd|]. apply fmap_sublist, od_del_sublist. Qed.

Lemma od_get_del_ne d k k' : k ≠ k' → od_get (od_del d k) k' = od_get d k'.
Proof.
  intros Hne. induction d as [|[k2 v2] d IH]; simpl; [done|].
  repeat (case_decide; simpl; subst); congruence.
Qed.

Lemma od_get_del d k k' :
  NoDup (od_keys d) → od_get (od_del d k) k' = if decide (k = k') then None else od_get d k'.
Proof.
  intros Hnd. case_decide as Hk; [subst k'|by apply od_get_del_ne].
  apply od_get_None_key. unfold od_keys in *. induction d as [|[k2 v2] d IH]; csimpl in *; [by intros ?%not_elem_of_nil|].
  apply NoDup_cons in Hnd as [Hn Hnd]. case_decide; [by subst|]. csimpl. rewrite not_elem_of_cons. auto.
Qed.

Lemma od_get_dels (ks : list K) : ∀ d k,
  NoDup (od_keys d) → od_get (foldl od_del d ks) k = if decide (k ∈ ks) then None else od_get d k.
Proof.
  induction ks as [|k0 ks IH]; intros d k Hnd; simpl; [by destruct (decide (k ∈ [])) as [?%not_elem_of_nil|]|].
  rewrite IH, od_get_del by auto using od_del_NoDup.
  destruct (decide (k ∈ ks)), (decide (k0 = k)), (decide (k ∈ k0 :: ks)); try done; set_solver.
Qed.

Lemma od_set_set d k v w : od_set (od_set d k v) k w = od_set d k w.
Proof.
  induction d as [|[k' v'] d IH]; simpl; [by rewrite decide_True|].
  case_decide; simpl; rewrite ?decide_True, ?decide_False by done; [done|by rewrite IH].
Qed.

Lemma od_set_id d k v : od_get d k = Some v → od_set d k v = d.
Proof.
  induction d as [|[k' v'] d IH]; simpl; [done|].
  case_decide; [by intros [= ->]|]. intros. by rewrite IH.
Qed.

Lemma od_mem_true d k : od_mem d k = true ↔ k ∈ od_keys d.
Proof.
  unfold od_mem. destruct (od_get d k) eqn:E.
  - split; [|done]. intros _. by eapply od_get_Some_key.
  - apply od_get_None_key in E. split; [done|set_solver].
Qed.

Lemma od_mem_get d k : od_mem d k = true ↔ ∃ v, od_get d k = Some v.
Proof. unfold od_mem. destruct (od_get d k); naive_solver. Qed.
End OrderedDict.

Create HintDb pydb.
Create Rewrite HintDb pydb.
#[export] Hint Rewrite @od_get_set_eq : pydb.
#[export] Hint Rewrite @od_get_set_ne using done : pydb.
#[export] Hint Resolve od_set_NoDup : pydb.

(** ** Python strings *)

(** [s[len(p):]] when [s.startswith(p)]. *)
Fixpoint strip_prefix (p s : string) : option string :=
  match p, s with
  | EmptyString, _ => Some s
  | String a p', String b s' => if decide (a = b) then strip_prefix p' s' else None
  | String _ _, EmptyString => None
  end.

Definition startswith (s p : string) : bool :=
  match strip_prefix p s with Some _ => true | None => false end.

(** [p in s]. *)
Fixpoint str_contains (p s : string) : bool :=
  startswith s p ||
  match s with EmptyString => false | String _ s' => str_contains p s' end.

Fixpoint str_replace_go (fuel : nat) (old new s : string) : string :=
  match fuel with
  | O => s
  | S f =>
      match strip_prefix old s with
      | Some rest => new +:+ str_replace_go f old new rest
      | None => match s with
                | EmptyString => EmptyString
                | String c s' => String c (str_replace_go f old new s')
                end
      end
  end.

(** [s.replace(old, new)] for a non-empty [old]; every step consumes a
    character, so the length bounds the recursion. *)
Definition str_replace (old new s : string) : string :=
  str_replace_go (S (String.length s)) old new s.

(** [s.split(c)] for a one-character separator. *)
Fixpoint str_split (c : Ascii.ascii) (s : string) : list string :=
  match s with
  | EmptyString => [EmptyString]
  | String a s' =>
      if decide (a = c) then EmptyString :: str_split c s'
      else match str_split c s' with
           | [] => [String a EmptyString]
           | w :: ws => String a w :: ws
           end
  end.

(** [sep.join(l)]. *)
Fixpoint str_join (sep : string) (l : list string) : string :=
  match l with
  | [] => EmptyString
  | [w] => w
  | w :: l' => w +:+ sep +:+ str_join sep l'
  end.

(** ** JSON values *)

(** What [json.loads] produces; objects keep the order of their keys. *)
Inductive json :=
  | JNull
  | JBool (b : bool)
  | JInt (z : Z)
  | JFloat (x : spec_float)
  | JStr (s : string)
  | JArr (l : list json)
  | JObj (l : list (string * json)).

Section JsonInd.
Context (P : json → Prop).
Hypothesis (Hnull : P JNull) (Hbool : ∀ b, P (JBool b)) (Hint : ∀ z, P (JInt z))
  (Hfloat : ∀ x, P (JFloat x)) (Hstr : ∀ s, P (JStr s))
  (Harr : ∀ l, Forall P l → P (JArr l)) (Hobj : ∀ l, Forall (λ kv, P kv.2) l → P (JObj l)).

Fixpoint json_ind' (j : json) : P j :=
  match j with
  | JNull => Hnull
  | JBool b => Hbool b
  | JInt z => Hint z
  | JFloat x => Hfloat x
  | JStr s => Hstr s
  | JArr l => Harr l ((fix go l := match l return Forall P l with
      | [] => Forall_nil_2 _
      | x :: l' => Forall_cons_2 _ _ _ (json_ind' x) (go l') end) l)
  | JObj l => Hobj l ((fix go l := match l return Forall (λ kv, P kv.2) l with
      | [] => Forall_nil_2 _
      | (k, x) :: l' => Forall_cons_2 _ (k, x) _ (json_ind' x) (go l') end) l)
  end.
End JsonInd.

#[global] Instance spec_float_eq_dec : EqDecision spec_float.
Proof. solve_decision. Defined.

Fixpoint json_eqb (a b : json) : bool :=
  match a, b with
  | JNull, JNull => true
  | JBool x, JBool y => bool_decide (x = y)
  | JInt x, JInt y => bool_decide (x = y)
  | JFloat x, JFloat y => bool_decide (x = y)
  | JStr x, JStr y => bool_decide (x = y)
  | JArr x, JArr y =>
      (fix go l k := match l, k with
        | [], [] => true
        | a :: l', b :: k' => json_eqb a b && go l' k'
        | _, _ => false end) x y
  | JObj x, JObj y =>
      (fix go l k := match l, k with
        | [], [] => true
        | (i, a) :: l', (j, b) :: k' => bool_decide (i = j) && json_eqb a b && go l' k'
        | _, _ => false end) x y
  | _, _ => false
  end.

Lemma json_eqb_eq a b : json_eqb a b = true ↔ a = b.
Proof.
  revert b. induction a as [| | | | |l IH|l IH] using json_ind'; intros [| | | | |k|k]; simpl;
    rewrite ?bool_decide_eq_true; try naive_solver.
  - transitivity (l = k); [|naive_solver]. revert k.
    induction IH as [|x l Hx _ IHl]; intros [|y k]; try naive_solver.
    rewrite andb_true_iff, Hx, IHl. naive_solver.
  - transitivity (l = k); [|naive_solver]. revert k.
    induction IH as [|[i x] l Hx _ IHl]; intros [|[j y] k]; try naive_solver.
    rewrite !andb_true_iff, bool_decide_eq_true, Hx, IHl. naive_solver.
Qed.

#[global] Instance json_eq_dec : EqDecision json.
Proof. intros a b. destruct (json_eqb a b) eqn:E; [left|right]; rewrite <-json_eqb_eq; congruence. Defined.

(** ** Automation for the error monad *)

Lemma pbind_Ret {A B} (m : py A) (k : A → py B) b :
  pbind m k = Ret b ↔ ∃ a, m = Ret a ∧ k a = Ret b.
Proof. destruct m; simpl; naive_solver. Qed.

Lemma sbind_Ret {S A B} (m : ST S A) (k : A → ST S B) s b s' :
  sbind m k s = (Ret b, s') ↔ ∃ a s1, m s = (Ret a, s1) ∧ k a s1 = (Ret b, s').
Proof. unfold sbind. destruct (m s) as [[a|e] s1]; naive_solver. Qed.

(** Split every successful bind in the context into its steps. *)
Ltac py_inv :=
  repeat match goal with
  | H : pbind _ _ = Ret _ |- _ =>
      apply pbind_Ret in H; destruct H as (? & ? & ?)
  | H : sbind _ _ _ = (Ret _, _) |- _ =>
      apply sbind_Ret in H; destruct H as (? & ? & ? & ?)
  | H : Ret _ = Ret _ |- _ => injection H as H; subst
  | H : (Ret _, _) = (Ret _, _) |- _ => injection H as H; subst
  | H : Raise _ = Ret _ |- _ => discriminate H
  | H : (Raise _, _) = (Ret _, _) |- _ => discriminate H
  | H : sret _ _ = _ |- _ => unfold sret in H
  | H : sget _ = _ |- _ => unfold sget in H
  | H : sput _ _ = _ |- _ => unfold sput in H
  | H : slift _ _ = _ |- _ => unfold slift in H
  end.

(** Decide every [bool_decide] in sight. *)
Ltac bdec :=
  repeat match goal with
  | |- context [bool_decide ?P] => destruct (bool_decide_reflect P)
  | H : context [bool_decide ?P] |- _ => destruct (bool_decide_reflect P)
  end.

Lemma pymap_Ret {A B} (f : A → py B) l r :
  pymap f l = Ret r ↔ Forall2 (λ x y, f x = Ret y) l r.
Proof.
  revert r. induction l as [|x l IH]; intros r; simpl.
  - split; [by intros [= <-]|]. by inversion 1.
  - rewrite pbind_Ret. split.
    + intros (y & Hy & Hk). apply pbind_Ret in Hk as (ys & Hys & [= <-]).
      constructor; [done|]. by apply IH.
    + inversion 1 as [|? y ? ys Hy Hys]; subst. exists y. split; [done|].
      apply pbind_Ret. exists ys. split; [by apply IH|done].
Qed.

Lemma pymap_total {A B} (f : A → py B) (g : A → B) l :
  (∀ x, x ∈ l → f x = Ret (g x)) → pymap f l = Ret (g <$> l).
Proof.
  intros H. apply pymap_Ret. induction l as [|x l IH]; simpl; constructor.
  - apply H. left.
  - apply IH. intros y Hy. apply H. by right.
Qed.

(** What a successful evaluation returns comes from the elements of the list. *)
Lemma pymap_elem {A B} (f : A → py B) l r y :
  pymap f l = Ret r → y ∈ r → ∃ x, x ∈ l ∧ f x = Ret y.
Proof.
  rewrite pymap_Ret. intros HF Hy. apply list_elem_of_lookup in Hy as [i Hi].
  destruct (Forall2_lookup_r _ _ _ _ _ HF Hi) as (x & Hx & Hf).
  exists x. split; [by eapply list_elem_of_lookup_2|done].
Qed.

Lemma pymap_elem_inv {A B} (f : A → py B) l r x :
  pymap f l = Ret r → x ∈ l → ∃ y, y ∈ r ∧ f x = Ret y.
Proof.
  rewrite pymap_Ret. intros HF Hx. apply list_elem_of_lookup in Hx as [i Hi].
  destruct (Forall2_lookup_l _ _ _ _ _ HF Hi) as (y & Hy & Hf).
  exists y. split; [by eapply list_elem_of_lookup_2|done].
Qed.

Lemma pymap_raises {A B} (f : A → py B) l e :
  pymap f l = Raise e → ∃ x, x ∈ l ∧ f x = Raise e.
Proof.
  induction l as [|x l IH]; simpl; [done|]. destruct (f x) eqn:E; simpl.
  - destruct (pymap f l); simpl; [done|]. intros [= ->]. set_solver.
  - intros [= ->]. set_solver.
Qed.

Lemma pymap_raises_inv {A B} (f : A → py B) l x e :
  x ∈ l → f x = Raise e → ∃ e', pymap f l = Raise e'.
Proof.
  intros Hx He. destruct (pymap f l) as [r|e'] eqn:E; [|eauto].
  destruct (pymap_elem_inv _ _ _ _ E Hx) as (y & _ & Hy). congruence.
Qed.

Lemma pymap_app_Ret {A B} (f : A → py B) l k r t :
  pymap f l = Ret r → pymap f k = Ret t → pymap f (l ++ k) = Ret (r ++ t).
Proof. rewrite !pymap_Ret. intros. by apply Forall2_app. Qed.

Lemma pymap_concat {A B} (f : A → py B) ls rs :
  pymap (pymap f) ls = Ret rs → pymap f (concat ls) = Ret (concat rs).
Proof.
  rewrite pymap_Ret. induction 1 as [|l r ls rs Hl _ IH]; simpl; [done|].
  by apply pymap_app_Ret.
Qed.

(** Evaluating a fallible function over a rearranged list rearranges the result. *)
Lemma pymap_perm {A B} (f : A → py B) l k r :
  l ≡ₚ k → pymap f k = Ret r → ∃ t, pymap f l = Ret t ∧ t ≡ₚ r.
Proof.
  intros Hp. symmetry in Hp. revert r. induction Hp as [|x l k Hp IH|x y l|l k j _ IH1 _ IH2];
    intros r Hr.
  - exists r. done.
  - apply pymap_Ret in Hr. inversion Hr as [|? b ? bs Hb Hbs]; subst.
    destruct (IH bs) as (t & Ht & Hpt); [by apply pymap_Ret|].
    exists (b :: t). split; [|by rewrite Hpt]. simpl. by rewrite Hb; simpl; rewrite Ht.
  - apply pymap_Ret in Hr. inversion Hr as [|? b ? bs Hb Hbs]; subst.
    inversion Hbs as [|? c ? cs Hc Hcs]; subst.
    exists (c :: b :: cs). split; [|apply Permutation_swap]. apply pymap_Ret.
    by repeat constructor.
  - destruct (IH1 _ Hr) as (t & Ht & Hpt). destruct (IH2 _ Ht) as (u & Hu & Hpu).
    exists u. split; [done|]. by rewrite Hpu.
Qed.

(** ** Lists, ranges and products *)

Lemma zlen_nonneg {A} (l : list A) : (0 ≤ zlen l)%Z.
Proof. unfold zlen. lia. Qed.

Lemma zlen_app {A} (l k : list A) : zlen (l ++ k) = (zlen l + zlen k)%Z.
Proof. unfold zlen. rewrite length_app. lia. Qed.

Lemma pynth_lookup {A} (l : list A) i :
  (0 ≤ i)%Z → pynth l i = match l !! Z.to_nat i with Some x => Ret x | None => Raise IndexError end.
Proof. intros Hi. unfold pynth. bdec; try lia; done. Qed.

Lemma pynth_Ret_inv {A} (l : list A) i x : pynth l i = Ret x → x ∈ l.
Proof.
  unfold pynth. bdec; try done;
    (destruct (l !! _) eqn:E; [|done]; intros [= <-]; by eapply list_elem_of_lookup_2).
Qed.

Lemma pynth_in_range {A} (l : list A) i :
  (0 ≤ i < zlen l)%Z → ∃ x, pynth l i = Ret x ∧ l !! Z.to_nat i = Some x.
Proof.
  intros Hi. rewrite pynth_lookup by lia.
  destruct (lookup_lt_is_Some_2 l (Z.to_nat i)) as [x Hx]; [unfold zlen in Hi; lia|].
  exists x. by rewrite Hx.
Qed.

Lemma pyset_in_range {A} (l : list A) i x :
  (0 ≤ i < zlen l)%Z → pyset l i x = Ret (<[Z.to_nat i := x]> l).
Proof.
  intros Hi. unfold pyset. rewrite (bool_decide_false (i < 0)%Z), bool_decide_true by lia. done.
Qed.

Lemma pymap_pynth {A} (xs : list A) (idxs : list Z) :
  (∀ i, i ∈ idxs → (0 ≤ i < zlen xs)%Z) →
  ∃ r, pymap (pynth xs) idxs = Ret r ∧ length r = length idxs ∧ ∀ x, x ∈ r → x ∈ xs.
Proof.
  induction idxs as [|i idxs IH]; intros Hin; simpl.
  - exists []. set_solver.
  - destruct (pynth_in_range xs i) as (x & Hx & Hl); [apply Hin; left|].
    destruct IH as (r & Hr & Hlen & Hsub); [intros j Hj; apply Hin; by right|].
    exists (x :: r). rewrite Hx. simpl. rewrite Hr. simpl. split; [done|]. split; [lia|].
    intros y Hy. apply elem_of_cons in Hy as [->|Hy]; [by eapply list_elem_of_lookup_2|auto].
Qed.

Lemma elem_of_last_k {A} k (l : list A) x : x ∈ last_k k l → x ∈ l.
Proof. unfold last_k. case_bool_decide; [done|]. apply subseteq_drop. Qed.

Lemma list_elem_of_concat {A} (x : A) (ls : list (list A)) :
  x ∈ concat ls ↔ ∃ l, x ∈ l ∧ l ∈ ls.
Proof.
  induction ls as [|l ls IH]; simpl; [set_solver|].
  rewrite elem_of_app, IH. set_solver.
Qed.

Lemma filter_none {A} (P : A → Prop) `{∀ x, Decision (P x)} l :
  (∀ x, x ∈ l → ¬ P x) → filter P l = [].
Proof.
  induction l as [|x l IH]; intros HP; [done|].
  rewrite filter_cons_False by (apply HP; left). apply IH. set_solver.
Qed.

Lemma filter_every {A} (P : A → Prop) `{∀ x, Decision (P x)} l :
  Forall P l → filter P l = l.
Proof.
  induction 1 as [|x l Hx _ IH]; [done|]. by rewrite filter_cons_True, IH.
Qed.

Lemma elem_of_range a b i : i ∈ range a b ↔ (a ≤ i < b)%Z.
Proof. unfold range. rewrite elem_of_seqZ. lia. Qed.

Lemma range_app a b c : (a ≤ b ≤ c)%Z → range a b ++ range b c = range a c.
Proof.
  intros H. unfold range. replace (c - a)%Z with ((b - a) + (c - b))%Z by lia.
  rewrite seqZ_app by lia. do 2 f_equal. lia.
Qed.

Lemma range_nil a b : (b ≤ a)%Z → range a b = [].
Proof. intros H. unfold range. apply seqZ_nil. lia. Qed.

Lemma range_cons a b : (a < b)%Z → range a b = a :: range (a + 1) b.
Proof.
  intros H. unfold range. rewrite seqZ_cons by lia.
  f_equal. f_equal; lia.
Qed.

Lemma length_range a b : (a ≤ b)%Z → Z.of_nat (length (range a b)) = (b - a)%Z.
Proof. intros H. unfold range. rewrite length_seqZ. lia. Qed.

(** Slicing a table indexed by a range. *)
Lemma slice_fmap_range {A} (f : Z → A) a b n :
  (0 ≤ a ≤ b ∧ b ≤ n)%Z →
  take (Z.to_nat (b - a)) (drop (Z.to_nat a) (f <$> range 0 n)) = f <$> range a b.
Proof.
  intros H. rewrite <-(range_app 0 a n), <-(range_app a b n) by lia.
  rewrite !fmap_app. rewrite drop_app_length'.
  - rewrite take_app_length'; [done|]. rewrite length_fmap. pose proof (length_range a b). lia.
  - rewrite length_fmap. pose proof (length_range 0 a). lia.
Qed.

Lemma pymap_pynth_range {A} (l : list A) : pymap (pynth l) (range 0 (zlen l)) = Ret l.
Proof.
  apply pymap_Ret. apply Forall2_same_length_lookup_2.
  - unfold range, zlen. rewrite length_seqZ. lia.
  - intros i j x Hj Hx. unfold range in Hj. apply lookup_seqZ in Hj as [-> Hlt].
    rewrite pynth_lookup by lia. rewrite Z.add_0_l, Nat2Z.id, Hx. done.
Qed.

Lemma elem_of_range_step a b s i :
  (0 < s)%Z → i ∈ range_step a b s ↔ (a ≤ i < b)%Z ∧ (s | i - a)%Z.
Proof.
  intros Hs. unfold range_step. rewrite list_elem_of_fmap.
  pose proof (Z.div_mod (b - a + s - 1) s ltac:(lia)) as Hdm.
  pose proof (Z.mod_pos_bound (b - a + s - 1) s Hs) as Hm.
  split.
  - intros (k & -> & Hk). apply elem_of_seqZ in Hk.
    split; [nia|]. exists k. lia.
  - intros [Hr [k Hk]]. exists k. split; [lia|]. apply elem_of_seqZ. nia.
Qed.

Lemma wrap64_mul_l a b : wrap64 (wrap64 a * b) = wrap64 (a * b).
Proof.
  unfold wrap64. f_equal.
  rewrite <-(Z.add_mod_idemp_l (_ * b)) by lia.
  rewrite <-(Z.add_mod_idemp_l (a * b)) by lia.
  f_equal. f_equal.
  rewrite <-Z.mul_mod_idemp_l, Zminus_mod, Zmod_mod, <-Zminus_mod by lia.
  rewrite Z.mul_mod_idemp_l by lia. f_equal. ring.
Qed.

Lemma wrap64_small z : (- 2 ^ 63 ≤ z < 2 ^ 63)%Z → wrap64 z = z.
Proof. intros H. unfold wrap64. rewrite Z.mod_small by lia. lia. Qed.

Lemma np_prod_small `{NumpyOk} l : (0 ≤ zprod l < 2 ^ 63)%Z → np_prod l = zprod l.
Proof. intros Hl. rewrite np_prod_wrap. apply wrap64_small. lia. Qed.

Lemma argmax_spec `{NumpyOk} l :
  l ≠ [] → ∃ i m, argmax l = Ret i ∧ l !! i = Some m ∧ Forall (λ x, (x ≤ m)%Z) l.
Proof.
  intros Hl. destruct (np_argmax_spec l Hl) as (m & Hm & Hall & _).
  exists (np_argmax l), m. by destruct l.
Qed.

Lemma zprod_app l k : zprod (l ++ k) = (zprod l * zprod k)%Z.
Proof. induction l as [|x l IH]; simpl; [by destruct (zprod k)|]. rewrite IH. ring. Qed.

Lemma zprod_pos l : Forall (λ x, (0 < x)%Z) l → (0 < zprod l)%Z.
Proof. induction 1; simpl; lia. Qed.

Lemma zprod_reverse l : zprod (reverse l) = zprod l.
Proof.
  induction l as [|x l IH]; [done|].
  rewrite reverse_cons, zprod_app, IH. simpl. ring.
Qed.

Lemma foldl_mul a l : foldl Z.mul a l = (a * zprod l)%Z.
Proof. revert a. induction l as [|x l IH]; intros a; simpl; [lia|]. rewrite IH. ring. Qed.

#[export] Hint Rewrite @zlen_app @zprod_app @zprod_reverse : pydb.
#[export] Hint Resolve @zlen_nonneg zprod_pos : pydb.

(** ** Loops *)

(** The invariant rule for [for] loops: an invariant over the elements already
    visited, kept by every iteration, holds of the whole list at the end. *)
Lemma sfor_inv {S A} (body : A → ST S unit) (P : list A → S → Prop) l s :
  P [] s →
  (∀ done x rest s, l = done ++ x :: rest → P done s →
     ∃ s', body x s = (Ret tt, s') ∧ P (done ++ [x]) s') →
  ∃ s', sfor l body s = (Ret tt, s') ∧ P l s'.
Proof.
  intros H0 Hstep.
  assert (∀ l1 l2 s, l = l1 ++ l2 → P l1 s →
    ∃ s', sfor l2 body s = (Ret tt, s') ∧ P l s') as H; [|by apply (H [])].
  intros l1 l2. revert l1. induction l2 as [|x l2 IH]; intros l1 s1 Hl HP; simpl.
  - exists s1. split; [done|]. by rewrite Hl, app_nil_r.
  - destruct (Hstep l1 x l2 s1) as (s2 & Hb & HP2); [done|done|].
    unfold sbind. rewrite Hb. apply (IH (l1 ++ [x])); [|done].
    by rewrite Hl, <-app_assoc.
Qed.

Lemma concat_fmap_snoc {A B} (f : A → list B) l x :
  concat (f <$> (l ++ [x])) = concat (f <$> l) ++ f x.
Proof. by rewrite fmap_app, concat_app; simpl; rewrite app_nil_r. Qed.

Lemma concat_fmap_concat {A B} (g : A → list B) (ls : list (list A)) :
  concat (g <$> concat ls) = concat ((λ l, concat (g <$> l)) <$> ls).
Proof.
  induction ls as [|l ls IH]; csimpl; [done|].
  by rewrite fmap_app, concat_app, IH.
Qed.

Lemma reduce_mul x l : reduce Z.mul (x :: l) = Ret (zprod (x :: l)).
Proof. simpl. by rewrite foldl_mul. Qed.

Lemma mapM_id_Some {A} (l : list A) : mapM (M := option) id (Some <$> l) = Some l.
Proof. by apply mapM_fmap_Some. Qed.

(** ** A concrete numpy, used by the executable examples *)

Fixpoint argmax_go (best : Z) (besti i : nat) (l : list Z) : nat :=
  match l with
  | [] => besti
  | x :: l' => if (best <? x)%Z then argmax_go x i (S i) l' else argmax_go best besti (S i) l'
  end.

Definition sf_sum (l : list spec_float) : spec_float :=
  foldl (SFadd 53 1024) (S754_zero false) l.

Definition sf_of_Z (z : Z) : spec_float := binary_normalize 53 1024 z 0 false.

Definition numpy_model : Numpy := {|
  np_prod := foldl (λ a x, wrap64 (a * x)) 1%Z;
  np_argmax l := match l with [] => 0 | x :: l' => argmax_go x 0 1 l' end;
  np_mean l := SFdiv 53 1024 (sf_sum l) (sf_of_Z (zlen l))
|}.

Lemma argmax_go_spec l : ∀ best besti i,
  besti < i →
  ∃ m, (best ≤ m)%Z ∧ Forall (λ x, (x ≤ m)%Z) l ∧
    let r := argmax_go best besti i l in
    ((r = besti ∧ m = best) ∨ (i ≤ r ∧ l !! (r - i) = Some m ∧ (best < m)%Z)) ∧
    (∀ j x, l !! j = Some x → j + i < r → (x < m)%Z).
Proof.
  induction l as [|x l IH]; intros best besti i Hi; simpl.
  - exists best. split; [lia|]. split; [done|]. split; [by left|done].
  - destruct (Z.ltb_spec best x).
    + destruct (IH x i (S i) ltac:(lia)) as (m & Hb & Hall & Hr & Hj). simpl in *.
      set (r := argmax_go x i (S i) l) in *. exists m. split; [lia|].
      split; [by constructor|]. split.
      * right. destruct Hr as [[-> ->]|(Hle & Hr & Hm)].
        { rewrite Nat.sub_diag. auto. }
        split; [lia|]. split; [|lia]. replace (r - i) with (S (r - S i)) by lia. done.
      * intros [|j] y Hy Hlt; simpl in Hy.
        { injection Hy as <-. destruct Hr as [[Hr ->]|(? & ? & ?)]; lia. }
        apply (Hj j); [done|lia].
    + destruct (IH best besti (S i) ltac:(lia)) as (m & Hb & Hall & Hr & Hj). simpl in *.
      set (r := argmax_go best besti (S i) l) in *. exists m. split; [lia|].
      split; [constructor; [lia|done]|]. split.
      * destruct Hr as [[Hr ->]|(Hle & Hr & Hm)]; [by left|].
        right. split; [lia|]. split; [|done]. replace (r - i) with (S (r - S i)) by lia. done.
      * intros [|j] y Hy Hlt; simpl in Hy.
        { injection Hy as <-. destruct Hr as [[Hr ->]|(? & ? & ?)]; lia. }
        apply (Hj j); [done|lia].
Qed.

Lemma foldl_wrap64 l : ∀ a, wrap64 a = a →
  foldl (λ a x, wrap64 (a * x)) a l = wrap64 (a * zprod l).
Proof.
  induction l as [|x l IH]; intros a Ha; simpl.
  - by rewrite Z.mul_1_r.
  - rewrite IH.
    + rewrite wrap64_mul_l. f_equal. ring.
    + pose proof (wrap64_mul_l (a * x) 1) as Hw. by rewrite !Z.mul_1_r in Hw.
Qed.

Lemma numpy_model_ok : @NumpyOk numpy_model.
Proof.
  split.
  - intros l. simpl. rewrite foldl_wrap64 by done. f_equal. lia.
  - intros [|x l] Hl; [done|]. simpl.
    destruct (argmax_go_spec l x 0 1 ltac:(lia)) as (m & Hb & Hall & Hr & Hj). simpl in *.
    set (r := argmax_go x 0 1 l) in *. exists m. split; [|split; [by constructor|]].
    + destruct Hr as [[-> ->]|(Hle & Hr & _)]; [done|].
      replace r with (S (r - 1)) by lia. done.
    + intros [|j] y Hy Hlt; simpl in Hy.
      * injection Hy as <-. destruct Hr as [[Hr ->]|(? & ? & ?)]; lia.
      * apply (Hj j); [done|lia].
Qed.
