(* ===== verification/PyFloat.v ===== *)
(** * Python floats

    A Python [float] is an IEEE 754 binary64 number: the model is the
    standard library's executable specification [spec_float] at precision 53
    and maximal exponent 1024.  The file fixes the operations the code uses
    and proves that, NaN apart, [<=] is a total preorder, which is all that
    best-record selection relies on. *)

From S2P Require Import Prelude.

Abbreviation flt := spec_float.

Definition fadd : flt → flt → flt := SFadd 53 1024.
Definition fsub : flt → flt → flt := SFsub 53 1024.
Definition fmul : flt → flt → flt := SFmul 53 1024.
Definition fdiv_raw : flt → flt → flt := SFdiv 53 1024.
Definition fltb : flt → flt → bool := SFltb.
Definition fleb : flt → flt → bool := SFleb.
Definition feqb : flt → flt → bool := SFeqb.

(** [float(n)]. *)
Definition f_of_Z (z : Z) : flt := binary_normalize 53 1024 z 0 false.

Definition f0 : flt := S754_zero false.
Definition f1 : flt := f_of_Z 1.

(** [a / b] on floats raises on a zero divisor. *)
Definition fdiv (a b : flt) : py flt :=
  match b with S754_zero _ => Raise ZeroDivisionError | _ => Ret (fdiv_raw a b) end.

(** [min(a, b)] and [max(a, b)]: the second argument only if strictly better. *)
Definition fmin (a b : flt) : flt := if fltb b a then b else a.
Definition fmax (a b : flt) : flt := if fltb a b then b else a.

(** [sum(l)], starting from the int 0. *)
Definition fsum (l : list flt) : flt := foldl fadd f0 l.

Definition is_nan (x : flt) : bool := match x with S754_nan => true | _ => false end.

Abbreviation fle x y := (fleb x y = true).
Abbreviation flt_ x y := (fltb x y = true).

(** Float constants; a decimal literal is the quotient rounded once. *)
Definition f_1e10 : flt := f_of_Z 10000000000.
Definition f_1e9 : flt := f_of_Z 1000000000.
Definition f_1e30 : flt := f_of_Z (10 ^ 30).
Definition f_1e_4 : flt := fdiv_raw f1 (f_of_Z 10000).
Definition f_1e_5 : flt := fdiv_raw f1 (f_of_Z 100000).
Definition f_1e_6 : flt := fdiv_raw f1 (f_of_Z 1000000).
Definition f_half : flt := fdiv_raw f1 (f_of_Z 2).

(** [int(x)]: truncation towards zero. *)
Definition f_trunc (x : flt) : py Z :=
  match x with
  | S754_zero _ => Ret 0%Z
  | S754_finite s m e =>
      let a := if (0 <=? e)%Z then (Z.pos m * 2 ^ e)%Z else (Z.pos m / 2 ^ (- e))%Z in
      Ret (if s then - a else a)%Z
  | S754_infinity _ => Raise OverflowError
  | S754_nan => Raise ValueError
  end.

(** ** Stable descending sort on a float key *)

(** [l.sort(key=lambda x: x["labels"], reverse=True)], which is stable. *)
Fixpoint insert_desc {A} (x : flt * A) (l : list (flt * A)) : list (flt * A) :=
  match l with [] => [x] | y :: l' => if fltb y.1 x.1 then x :: l else y :: insert_desc x l' end.

Definition sort_desc {A} (l : list (flt * A)) : list (flt * A) :=
  foldl (λ acc x, insert_desc x acc) [] l.

Definition desc {A} (x y : flt * A) : Prop := fle y.1 x.1.

(** ** Order *)

(** The position of a non-NaN float in the order, as a triple of integers:
    sign class, exponent, mantissa. *)
Definition frank (x : flt) : Z * Z * Z :=
  match x with
  | S754_nan => (0, 0, 0)%Z
  | S754_infinity true => (-2, 0, 0)%Z
  | S754_infinity false => (2, 0, 0)%Z
  | S754_zero _ => (0, 0, 0)%Z
  | S754_finite true m e => (-1, - e, - Z.pos m)%Z
  | S754_finite false m e => (1, e, Z.pos m)%Z
  end.

Definition lexlt (a b : Z * Z * Z) : Prop :=
  (a.1.1 < b.1.1 ∨ a.1.1 = b.1.1 ∧ (a.1.2 < b.1.2 ∨ a.1.2 = b.1.2 ∧ a.2 < b.2))%Z.

Lemma SFcompare_rank x y :
  is_nan x = false → is_nan y = false →
  match SFcompare x y with
  | Some Lt => lexlt (frank x) (frank y)
  | Some Eq => frank x = frank y
  | Some Gt => lexlt (frank y) (frank x)
  | None => False
  end.
Proof.
  intros Hx Hy. unfold lexlt.
  destruct x as [sx|sx| |sx mx ex], y as [sy|sy| |sy my ey]; try done; simpl;
    try (destruct sx; try destruct sy; simpl; lia);
    try (destruct sy; simpl; lia);
    try (destruct sx, sy; simpl; done || lia).
  destruct sx, sy; simpl; try lia.
  - change (Pos.compare_cont Eq mx my) with (mx ?= my)%positive.
    destruct (Z.compare_spec ex ey) as [->|?|?]; [|lia|lia].
    destruct (Pos.compare_spec mx my) as [->|?|?]; simpl; [done|lia|lia].
  - change (Pos.compare_cont Eq mx my) with (mx ?= my)%positive.
    destruct (Z.compare_spec ex ey) as [->|?|?]; [|lia|lia].
    destruct (Pos.compare_spec mx my) as [->|?|?]; simpl; [done|lia|lia].
Qed.

Lemma fle_not_nan x y : fle x y → is_nan x = false ∧ is_nan y = false.
Proof. unfold fleb, SFleb. by destruct x, y. Qed.

Lemma flt_not_nan x y : flt_ x y → is_nan x = false ∧ is_nan y = false.
Proof. unfold fltb, SFltb. by destruct x, y. Qed.

Lemma fltb_spec x y :
  is_nan x = false → is_nan y = false → fltb x y = true ↔ lexlt (frank x) (frank y).
Proof.
  intros Hx Hy. pose proof (SFcompare_rank x y Hx Hy) as Hc. unfold fltb, SFltb.
  destruct (SFcompare x y) as [[]|]; [|done| |done]; split; try done; intros Hl; exfalso.
  - rewrite Hc in Hl. unfold lexlt in Hl. lia.
  - unfold lexlt in *. lia.
Qed.

Lemma fleb_spec x y :
  is_nan x = false → is_nan y = false → fleb x y = true ↔ ¬ lexlt (frank y) (frank x).
Proof.
  intros Hx Hy. pose proof (SFcompare_rank x y Hx Hy) as Hc. unfold fleb, SFleb.
  destruct (SFcompare x y) as [[]|]; [| | |done].
  - split; [|done]. intros _ Hl. rewrite Hc in Hl. unfold lexlt in Hl. lia.
  - split; [|done]. intros _ Hl. unfold lexlt in *. lia.
  - split; [done|]. intros Hl. by destruct Hl.
Qed.

Lemma feqb_spec x y :
  is_nan x = false → is_nan y = false → feqb x y = true ↔ frank x = frank y.
Proof.
  intros Hx Hy. pose proof (SFcompare_rank x y Hx Hy) as Hc. unfold feqb, SFeqb.
  destruct (SFcompare x y) as [[]|]; [done| | |done]; split; try done; intros Hl; exfalso;
    rewrite Hl in Hc; unfold lexlt in Hc; lia.
Qed.

Lemma fle_refl x : is_nan x = false → fle x x.
Proof. intros Hx. apply fleb_spec; [done|done|]. unfold lexlt. lia. Qed.

Lemma fle_trans x y z : fle x y → fle y z → fle x z.
Proof.
  intros H1 H2. destruct (fle_not_nan _ _ H1) as [??], (fle_not_nan _ _ H2) as [??].
  apply fleb_spec in H1, H2; try done. apply fleb_spec; try done. unfold lexlt in *. lia.
Qed.

(** Totality: off NaN, not less means at least. *)
Lemma fltb_false_fle x y :
  is_nan x = false → is_nan y = false → fltb x y = false ↔ fle y x.
Proof.
  intros Hx Hy. rewrite fleb_spec by done. rewrite <-not_true_iff_false.
  by rewrite fltb_spec.
Qed.

Lemma flt_fle x y : flt_ x y → fle x y.
Proof.
  intros Hl. destruct (flt_not_nan _ _ Hl). apply fleb_spec; try done.
  apply fltb_spec in Hl; try done. unfold lexlt in *. lia.
Qed.

Lemma flt_le_trans x y z : flt_ x y → fle y z → flt_ x z.
Proof.
  intros H1 H2. destruct (flt_not_nan _ _ H1), (fle_not_nan _ _ H2).
  apply fltb_spec in H1; try done. apply fleb_spec in H2; try done.
  apply fltb_spec; try done. unfold lexlt in *. lia.
Qed.

Lemma fle_lt_trans x y z : fle x y → flt_ y z → flt_ x z.
Proof.
  intros H1 H2. destruct (fle_not_nan _ _ H1), (flt_not_nan _ _ H2).
  apply fltb_spec in H2; try done. apply fleb_spec in H1; try done.
  apply fltb_spec; try done. unfold lexlt in *. lia.
Qed.

Lemma flt_irrefl x : fltb x x = false.
Proof.
  apply not_true_iff_false. intros Hl. destruct (flt_not_nan _ _ Hl).
  apply fltb_spec in Hl; try done. unfold lexlt in Hl. lia.
Qed.

(** ** Minima *)

(** [min] never exceeds its first argument, whatever the second one is. *)
Lemma fmin_le_l a b : is_nan a = false → fle (fmin a b) a.
Proof.
  intros Ha. unfold fmin. destruct (fltb b a) eqn:E; [by apply flt_fle|by apply fle_refl].
Qed.

Lemma fmin_le_r a b : is_nan a = false → is_nan b = false → fle (fmin a b) b.
Proof.
  intros Ha Hb. unfold fmin. destruct (fltb b a) eqn:E; [by apply fle_refl|].
  by apply fltb_false_fle.
Qed.

Lemma fmin_not_nan a b : is_nan a = false → is_nan (fmin a b) = false.
Proof.
  intros Ha. unfold fmin. destruct (fltb b a) eqn:E; [|done].
  by apply flt_not_nan in E as [? _].
Qed.

Lemma fmin_either a b : fmin a b = a ∨ fmin a b = b.
Proof. unfold fmin. destruct (fltb b a); auto. Qed.

Lemma foldl_fmin_le l : ∀ a,
  is_nan a = false →
  fle (foldl fmin a l) a ∧ is_nan (foldl fmin a l) = false ∧
  (foldl fmin a l = a ∨ foldl fmin a l ∈ l) ∧
  ∀ x, x ∈ l → is_nan x = false → fle (foldl fmin a l) x.
Proof.
  induction l as [|y l IH]; intros a Ha; simpl.
  - split; [by apply fle_refl|]. split; [done|]. split; [by left|]. set_solver.
  - destruct (IH (fmin a y) (fmin_not_nan a y Ha)) as (H1 & H2 & H3 & H4).
    split; [eapply fle_trans; [exact H1|by apply fmin_le_l]|]. split; [done|]. split.
    + destruct H3 as [->|?]; [|right; by right].
      destruct (fmin_either a y) as [->| ->]; [by left|right; left].
    + intros x Hx Hnan. apply elem_of_cons in Hx as [->|Hx]; [|by apply H4].
      eapply fle_trans; [exact H1|by apply fmin_le_r].
Qed.

(** ** The sort *)

Lemma insert_desc_perm {A} (x : flt * A) l : insert_desc x l ≡ₚ x :: l.
Proof.
  induction l as [|y l IH]; simpl; [done|]. destruct (fltb _ _); [done|].
  rewrite IH. apply Permutation_swap.
Qed.

Lemma sort_desc_perm {A} (l : list (flt * A)) : sort_desc l ≡ₚ l.
Proof.
  unfold sort_desc. rewrite <-(app_nil_r l) at 2. generalize (@nil (flt * A)).
  induction l as [|x l IH]; intros acc; simpl; [done|].
  rewrite IH, insert_desc_perm. by rewrite Permutation_middle.
Qed.

Lemma insert_desc_sorted {A} (x : flt * A) l :
  is_nan x.1 = false → Forall (λ y, is_nan y.1 = false) l →
  StronglySorted desc l → StronglySorted desc (insert_desc x l).
Proof.
  intros Hx Hl Hs. induction Hs as [|y l Hs IH Hy]; simpl; [by repeat constructor|].
  apply Forall_cons in Hl as [Hny Hl]. destruct (fltb y.1 x.1) eqn:E.
  - constructor; [by constructor|]. constructor; [by apply flt_fle|].
    eapply Forall_impl; [done|]. intros z Hz. unfold desc in *.
    eapply fle_trans; [done|by apply flt_fle].
  - constructor; [by apply IH|]. rewrite insert_desc_perm. constructor; [|done].
    by apply fltb_false_fle.
Qed.

Lemma sort_desc_sorted {A} (l : list (flt * A)) :
  Forall (λ y, is_nan y.1 = false) l → StronglySorted desc (sort_desc l).
Proof.
  unfold sort_desc. assert (StronglySorted desc (@nil (flt * A))) as Hs by constructor.
  assert (Forall (λ y : flt * A, is_nan y.1 = false) []) as Hn by constructor.
  revert Hs Hn. generalize (@nil (flt * A)). induction l as [|x l IH]; intros acc Hs Hn Hl; simpl; [done|].
  apply Forall_cons in Hl as [Hx Hl]. apply IH; [by apply insert_desc_sorted| |done].
  rewrite insert_desc_perm. by constructor.
Qed.

Lemma insert_desc_fmap {A B} (f : A → B) x l :
  insert_desc (prod_map id f x) (prod_map id f <$> l) = prod_map id f <$> insert_desc x l.
Proof.
  induction l as [|y l IH]; [done|]. csimpl. destruct (fltb y.1 x.1); [done|]. by rewrite IH.
Qed.

Lemma sort_desc_fmap {A B} (f : A → B) l :
  sort_desc (prod_map id f <$> l) = prod_map id f <$> sort_desc l.
Proof.
  unfold sort_desc. change (@nil (flt * B)) with (prod_map (A' := flt) id f <$> []).
  generalize (@nil (flt * A)). induction l as [|x l IH]; intros acc; csimpl; [done|].
  by rewrite insert_desc_fmap, IH.
Qed.

#[export] Hint Resolve fle_refl flt_fle fmin_not_nan : pydb.
