(* ===== verification/PyText.v ===== *)
(** * Python text and JSON documents

    The string operations and the navigation in parsed JSON documents that the
    data pipeline and the tracker share.  Strings are ASCII. *)

From S2P Require Import Prelude PyFloat.

(** ** Splitting *)

Fixpoint str_mem (c : Ascii.ascii) (s : string) : bool :=
  match s with EmptyString => false | String a s' => bool_decide (a = c) || str_mem c s' end.

(** [s.rsplit(c, 1)]. *)
Fixpoint rsplit1 (c : Ascii.ascii) (s : string) : option (string * string) :=
  match s with
  | EmptyString => None
  | String a s' =>
      match rsplit1 c s' with
      | Some (p, r) => Some (String a p, r)
      | None => if decide (a = c) then Some (EmptyString, s') else None
      end
  end.

(** [os.path.basename]. *)
Definition basename (path : string) : string :=
  match rsplit1 "/" path with Some (_, f) => f | None => path end.

Fixpoint all_dots (s : string) : bool :=
  match s with EmptyString => true | String c s' => bool_decide (c = "."%char) && all_dots s' end.

(** [os.path.splitext(f)[0]] for a name without directories: the extension
    starts at the last dot, unless only dots precede it. *)
Definition splitext0 (f : string) : string :=
  match rsplit1 "." f with
  | Some (p, _) => if all_dots p then f else p
  | None => f
  end.

(** The characters [str.strip()] removes. *)
Definition is_space (c : Ascii.ascii) : bool :=
  let n := Ascii.nat_of_ascii c in (9 <=? n) && (n <=? 13) || (28 <=? n) && (n <=? 32).

Fixpoint lstrip (s : string) : string :=
  match s with
  | EmptyString => EmptyString
  | String c s' => if is_space c then lstrip s' else s
  end.

Fixpoint rstrip (s : string) : string :=
  match s with
  | EmptyString => EmptyString
  | String c s' =>
      match rstrip s' with
      | EmptyString => if is_space c then EmptyString else String c EmptyString
      | r => String c r
      end
  end.

Definition strip (s : string) : string := rstrip (lstrip s).

Definition newline : Ascii.ascii := Ascii.ascii_of_nat 10.

(** [f.read().strip().split('\n')]. *)
Definition read_lines (content : string) : list string := str_split newline (strip content).

(** [f.write(line); f.write('\n')] for each line. *)
Definition write_lines (lines : list string) : string :=
  foldr (λ l acc, l +:+ String newline acc) EmptyString lines.

(** ** [repr] and [str] *)

Definition squote : Ascii.ascii := Ascii.ascii_of_nat 39.
Definition dquote : Ascii.ascii := Ascii.ascii_of_nat 34.
Definition backslash : Ascii.ascii := Ascii.ascii_of_nat 92.

Definition hex_digit (n : nat) : Ascii.ascii :=
  Ascii.ascii_of_nat (if n <? 10 then 48 + n else 87 + n).

(** One character of a [repr] between quotes [q]. *)
Definition repr_char (q c : Ascii.ascii) : string :=
  let n := Ascii.nat_of_ascii c in
  if bool_decide (c = q ∨ c = backslash) then String backslash (String c EmptyString)
  else if n =? 9 then String backslash "t"
  else if n =? 10 then String backslash "n"
  else if n =? 13 then String backslash "r"
  else if (n <? 32) || (n =? 127) then
    String backslash (String "x" (String (hex_digit (n / 16)) (String (hex_digit (n mod 16)) EmptyString)))
  else String c EmptyString.

Fixpoint repr_chars (q : Ascii.ascii) (s : string) : string :=
  match s with EmptyString => EmptyString | String c s' => repr_char q c +:+ repr_chars q s' end.

(** [repr(s)] of a string: single quotes, unless that would need escapes and
    double quotes would not. *)
Definition repr_str (s : string) : string :=
  let q := if str_mem squote s && negb (str_mem dquote s) then dquote else squote in
  String q (repr_chars q s +:+ String q EmptyString).

Section Repr.
(** [repr] of a float. *)
Context (repr_float : flt → string).

Fixpoint py_repr (j : json) : string :=
  match j with
  | JNull => "None"
  | JBool b => if b then "True" else "False"
  | JInt z => pretty z
  | JFloat x => repr_float x
  | JStr s => repr_str s
  | JArr l => "[" +:+ str_join ", " (py_repr <$> l) +:+ "]"
  | JObj l => "{" +:+ str_join ", " ((λ '(k, v), repr_str k +:+ ": " +:+ py_repr v) <$> l) +:+ "}"
  end.

Definition py_str (j : json) : string := match j with JStr s => s | _ => py_repr j end.
End Repr.

(** ** Documents *)

(** [j[k]] and [j[i]]. *)
Definition jkey (k : string) (j : json) : py json :=
  match j with
  | JObj l => match od_get l k with Some v => Ret v | None => Raise KeyError end
  | _ => Raise TypeError
  end.

Definition jidx (i : Z) (j : json) : py json :=
  match j with
  | JArr l => pynth l i
  | JStr s =>
      let k := (if bool_decide (i < 0) then i + Z.of_nat (String.length s) else i)%Z in
      if bool_decide (k < 0)%Z then Raise IndexError
      else match String.get (Z.to_nat k) s with
           | Some c => Ret (JStr (String c EmptyString))
           | None => Raise IndexError
           end
  | JObj _ => Raise KeyError
  | _ => Raise TypeError
  end.

(** [j[k] = f(j[k])] and [j[i] = f(j[i])], in place. *)
Definition jupd_key (k : string) (f : json → py json) (j : json) : py json :=
  let? v := jkey k j in
  let? v' := f v in
  match j with JObj l => Ret (JObj (od_set l k v')) | _ => Raise TypeError end.

Definition jupd_idx (i : Z) (f : json → py json) (j : json) : py json :=
  let? v := jidx i j in
  let? v' := f v in
  match j with JArr l => let? l' := pyset l i v' in Ret (JArr l') | _ => Raise TypeError end.

(** A list of the record format; another value there is a [TypeError]. *)
Definition as_arr (j : json) : py (list json) :=
  match j with JArr l => Ret l | _ => Raise TypeError end.

Definition as_string (j : json) : py string :=
  match j with JStr s => Ret s | _ => Raise TypeError end.

(** A number as a float. *)
Definition as_float (j : json) : py flt :=
  match j with
  | JInt z => Ret (f_of_Z z)
  | JFloat x => Ret x
  | JBool b => Ret (if b then f1 else f0)
  | _ => Raise TypeError
  end.

(** [sum(l) / len(l)]. *)
Definition py_mean (l : list flt) : py flt := fdiv (fsum l) (f_of_Z (zlen l)).

(** ** Lemmas *)

Lemma rsplit1_none c s : str_mem c s = false → rsplit1 c s = None.
Proof.
  induction s as [|a s IH]; simpl; [done|]. rewrite orb_false_iff, bool_decide_eq_false.
  intros [Ha Hs]. rewrite IH by done. by rewrite decide_False.
Qed.

Lemma rsplit1_app c p r :
  str_mem c r = false → rsplit1 c (p +:+ String c r) = Some (p, r).
Proof.
  intros Hr. induction p as [|a p IH]; simpl.
  - rewrite rsplit1_none by done. by rewrite decide_True.
  - change (p ++ String c r)%string with (p +:+ String c r). by rewrite IH.
Qed.

Lemma str_mem_app c s t : str_mem c (s +:+ t) = str_mem c s || str_mem c t.
Proof. induction s as [|a s IH]; simpl; [done|]. change (s ++ t)%string with (s +:+ t). by rewrite IH, orb_assoc. Qed.

Lemma length_append s t : String.length (s +:+ t) = String.length s + String.length t.
Proof. induction s as [|a s IH]; [done|]. change (String a s +:+ t) with (String a (s +:+ t)). simpl. by rewrite IH. Qed.

Lemma append_assoc s t u : s +:+ (t +:+ u) = (s +:+ t) +:+ u.
Proof. induction s as [|a s IH]; [done|]. change (String a s +:+ (t +:+ u)) with (String a (s +:+ (t +:+ u))). by rewrite IH. Qed.

Lemma jkey_here k v l : jkey k (JObj ((k, v) :: l)) = Ret v.
Proof. unfold jkey. simpl. by rewrite decide_True. Qed.

Lemma jkey_there k k' v l : k ≠ k' → jkey k (JObj ((k', v) :: l)) = jkey k (JObj l).
Proof. intros Hk. unfold jkey. simpl. by rewrite decide_False by congruence. Qed.

(** Reads the keys of a document that is written out. *)
Ltac jkeys := repeat first [rewrite jkey_here | rewrite jkey_there by done].
