(* ===== verification/Transforms.v ===== *)
(** * Transform spaces of [autotvm.task.space]

    The knob spaces an AutoTVM template declares: factor enumeration, split,
    reorder, annotate and free-form option spaces, their entities and how an
    entity is applied to a schedule.
    Source: src/python/tvm/autotvm/task/space.py, lines 30-660. *)

From S2P Require Import Prelude.

(** ** Entities and spaces *)

(** A value of an annotation: a name, or an axis position ([locate_cache]). *)
Inductive annval :=
  | AnnStr (s : string)
  | AnnInt (i : Z).

#[global] Instance annval_eq_dec : EqDecision annval.
Proof. solve_decision. Defined.

(** The scalar values templates pass as [define_knob] candidates. *)
Inductive optval :=
  | VNone
  | VBool (b : bool)
  | VInt (z : Z)
  | VStr (s : string).

#[global] Instance optval_eq_dec : EqDecision optval.
Proof. solve_decision. Defined.

(** The four entity classes. *)
Inductive entity :=
  | SplitEntity (size : list Z)
  | ReorderEntity (perm : list Z)
  | AnnotateEntity (anns : list annval)
  | OtherOptionEntity (val : optval).

#[global] Instance entity_eq_dec : EqDecision entity.
Proof. solve_decision. Defined.

(** The class of a space; a split space remembers the product it splits. *)
Inductive space_kind :=
  | KSplit (product : Z)
  | KReorder
  | KAnnotate
  | KOther.

#[global] Instance space_kind_eq_dec : EqDecision space_kind.
Proof. solve_decision. Defined.

(** The fields of [TransformSpace] the rest of the code reads. *)
Record space := mkSpace {
  sp_kind : space_kind;
  sp_num_output : Z;
  sp_entities : list entity
}.

(** [TransformSpace.__len__]. *)
Definition space_len (s : space) : Z := zlen (sp_entities s).

(** [TransformSpace.__getitem__]. *)
Definition space_getitem (s : space) (index : Z) : py entity :=
  pynth (sp_entities s) index.

(** ** Virtual axes *)

Module VirtualAxis.

Record t := mk { name : string; length : Z }.

(** What [VirtualAxis.__init__] accepts: an int, an [IterVar] with its name
    and constant extent, another virtual axis, or anything else. *)
Inductive arg :=
  | AInt (n : Z)
  | AIterVar (vname : string) (dom : option Z)
  | AVirtual (v : t)
  | AOther.

(** [VirtualAxis.__init__]; the state is the class counter [name_ct]. *)
Definition init (var : arg) (nm : option string) : ST Z t := λ name_ct,
  let '(nm', ct) :=
    match nm with
    | Some n => (n, name_ct)
    | None => ("axis_" +:+ pretty name_ct, (name_ct + 1)%Z)
    end in
  match var with
  | AInt n => (Ret (mk nm' n), ct)
  | AIterVar vname None => (Ret (mk vname (-1)%Z), ct)
  | AIterVar vname (Some extent) => (Ret (mk vname extent), ct)
  | AVirtual v => (Ret (mk nm' (length v)), ct)
  | AOther => (Raise RuntimeError, ct)
  end.

End VirtualAxis.

(** ** Factors *)

(** The divisor pairs found by trial division up to [bound]. *)
Definition factor_pairs (n bound : Z) : list Z :=
  let step := if bool_decide (n `mod` 2 = 0)%Z then 1%Z else 2%Z in
  concat ((λ i, [i; (n `div` i)%Z]) <$>
          filter (λ i, (n `mod` i = 0)%Z) (range_step 1 (bound + 1) step)).

Definition get_factors_upto (n bound : Z) : py (list Z) :=
  match factor_pairs n bound with
  | [] => Raise TypeError
  | l => Ret (merge_sort Z.le (remove_dups l))
  end.

(** [get_factors]: [math.sqrt] raises on a negative number, and the reduction
    of an empty generator is a [TypeError].  The square root is exact here; the
    float of [math.sqrt], rounded down, can differ from it from 2^52 on. *)
Definition get_factors (n : Z) : py (list Z) :=
  if bool_decide (n < 0)%Z then Raise ValueError
  else get_factors_upto n (Z.sqrt n).

(** [get_pow2s]; [math.log2] raises on zero and negative numbers.  The logarithm is
    exact here; the float of [math.log2] can round up to the next integer just
    below large powers of two (from about 2^48 on). *)
Definition get_pow2s (n : Z) : py (list Z) :=
  if bool_decide (n ≤ 0)%Z then Raise ValueError
  else Ret ((λ x, 2 ^ x)%Z <$> range 0 (Z.log2 n + 1)).

(** ** Split spaces *)

(** The keyword arguments [SplitSpace.__init__] reads. *)
Record split_kwargs := mkSplitKwargs {
  kw_max_factor : option Z;
  kw_filter : option (entity → bool);
  kw_num_outputs : option Z;
  kw_no_tail : option bool;
  kw_candidate : option (list (list Z))
}.

(** The state of the DFS: the shared [tmp_stack] and [self.entities]. *)
Definition split_state : Type := list (option Z) * list entity.

(** The leaf of [SplitSpace._generate_space]. *)
Definition split_leaf (product : Z) (enforce_no_tail : bool) : ST split_state unit :=
  λ '(stk, ents),
    match mapM (M := option) id stk with
    | None => (Raise TypeError, (stk, ents))
    | Some fs =>
        match reduce Z.mul fs with
        | Raise e => (Raise e, (stk, ents))
        | Ret prod =>
            if (product <? prod)%Z then (Ret tt, (stk, ents)) else
            match pymod product prod with
            | Raise e => (Raise e, (stk, ents))
            | Ret r =>
                if ((r =? 0)%Z || (negb enforce_no_tail && (prod <? product)%Z))%bool
                then (Ret tt, (stk, ents ++ [SplitEntity ((-1)%Z :: reverse fs)]))
                else (Ret tt, (stk, ents))
            end
        end
    end.

(** [SplitSpace._generate_space]; [rem] is [num_output - 1 - now]. *)
Fixpoint split_generate_space (factors : list Z) (product : Z) (enforce_no_tail : bool)
    (rem now : nat) : ST split_state unit :=
  match rem with
  | O => split_leaf product enforce_no_tail
  | S rem' =>
      sfor factors (λ factor,
        let! (stk, ents) := sget in
        let! _ := sput (<[now := Some factor]> stk, ents) in
        split_generate_space factors product enforce_no_tail rem' (S now))
  end.

(** The candidate factors of a policy.  [set_order] is the order in which
    iterating a Python set of ints yields its elements. *)
Definition split_factors (set_order : list Z → list Z) (policy : string)
    (product max_factor : Z) : py (list Z) :=
  if decide (policy = "verbose") then
    let? divisibles := get_factors product in
    let? pow2s := get_pow2s product in
    Ret (filter (λ x, (x ≤ max_factor)%Z) (set_order (divisibles ++ pow2s)))
  else if decide (policy = "factors") then
    let? fs := get_factors product in
    Ret (filter (λ x, (x ≤ max_factor)%Z) fs)
  else if decide (policy = "power2") then
    let? fs := get_pow2s product in
    Ret (filter (λ x, (x ≤ max_factor)%Z) fs)
  else Raise RuntimeError.

(** [SplitSpace.__init__] on an axis of the given length. *)
Definition SplitSpace_init (set_order : list Z → list Z) (axis_length : Z)
    (policy : string) (kw : split_kwargs) : py space :=
  let max_factor := default (Z.shiftl 1 31) (kw_max_factor kw) in
  let fil := default (λ _, true) (kw_filter kw) in
  let num_output := default 0%Z (kw_num_outputs kw) in
  let? _ := pyassert (bool_decide (0 < num_output)%Z) in
  let? ents :=
    if decide (policy = "candidate") then
      match kw_candidate kw with
      | None => Raise KeyError
      | Some cand =>
          pymap (λ size,
            let? _ := pyassert (bool_decide (zlen size = num_output)) in
            Ret (SplitEntity size)) cand
      end
    else
      let? factors := split_factors set_order policy axis_length max_factor in
      let no_tail := default (bool_decide (policy = "factors")) (kw_no_tail kw) in
      let n := Z.to_nat (num_output - 1) in
      match split_generate_space factors axis_length no_tail n 0 (replicate n None, []) with
      | (Ret _, (_, ents)) => Ret ents
      | (Raise e, _) => Raise e
      end in
  Ret (mkSpace (KSplit axis_length) num_output (filter (λ e, fil e = true) ents)).

(** [SplitEntity.apply]; [split] is [sch[op].split], which returns the outer
    and the inner axis. *)
Section SplitApply.
Context `{Numpy} {Sch Ax : Type} (split : Sch → Ax → Z → (Ax * Ax) * Sch).

Fixpoint split_apply_tail (sch : Sch) (tail : list Z) (axis : Ax) : list Ax * Sch :=
  match tail with
  | [] => ([axis], sch)
  | _ :: rest =>
      let '((ax0, ax1), sch1) := split sch axis (np_prod tail) in
      let '(ret, sch2) := split_apply_tail sch1 rest ax1 in
      (ax0 :: ret, sch2)
  end.

Definition SplitEntity_apply (sch : Sch) (size : list Z) (axis : Ax) : list Ax * Sch :=
  split_apply_tail sch (tail size) axis.
End SplitApply.

(** ** Reorder spaces *)

(** [l.index(x)]. *)
Definition list_index {A} `{EqDecision A} (l : list A) (x : A) : py Z :=
  match list_find (x =.) l with
  | Some (i, _) => Ret (Z.of_nat i)
  | None => Raise ValueError
  end.

(** Every way of taking one element out of a list, in order. *)
Fixpoint selects {A} (l : list A) : list (A * list A) :=
  match l with
  | [] => []
  | x :: l' => (x, l') :: ((λ p, (p.1, x :: p.2)) <$> selects l')
  end.

Fixpoint permutations_go {A} (n : nat) (l : list A) : list (list A) :=
  match n with
  | O => [[]]
  | S n' => concat ((λ p, cons p.1 <$> permutations_go n' p.2) <$> selects l)
  end.

(** [itertools.permutations(l)], in its lexicographic order of positions. *)
Definition permutations {A} (l : list A) : list (list A) :=
  permutations_go (length l) l.

(** The lists [ReorderSpace._merge_dfs] mutates. *)
Record merge_state := mkMerge {
  tmp_pt : list nat;
  tmp_stack : list Z;
  merged : list (list Z)
}.

(** The lengths still to be merged, [len(chains[x]) - tmp_pt[x]]. *)
Definition remaining (chains : list (list Z)) (pt : list nat) : list Z :=
  zip_with (λ c p, (zlen c - Z.of_nat p)%Z) chains pt.

(** [ReorderSpace._merge_dfs]; the fuel is Python's recursion limit. *)
Fixpoint merge_dfs `{Numpy} (fuel : nat) (chains : list (list Z)) (size : nat) : ST merge_state unit :=
  match fuel with
  | O => sraise RecursionError
  | S fuel' =>
      let! st := sget in
      if decide (sum_list (tmp_pt st) = size) then
        sput (mkMerge (tmp_pt st) (tmp_stack st) (merged st ++ [tmp_stack st]))
      else
        sfor (seq 0 (length chains)) (λ i,
          let! st := sget in
          let p := default 0 (tmp_pt st !! i) in
          match chains !! i with
          | None => sraise IndexError
          | Some c =>
              if (p <? length c)%nat then
                let! best := slift (argmax (remaining chains (tmp_pt st))) in
                if decide (i = best) then
                  let! x := slift (pynth c (Z.of_nat p)) in
                  let! _ := sput (mkMerge (<[i := S p]> (tmp_pt st)) (tmp_stack st ++ [x]) (merged st)) in
                  let! _ := merge_dfs fuel' chains size in
                  let! st := sget in
                  sput (mkMerge (alter pred i (tmp_pt st)) (removelast (tmp_stack st)) (merged st))
                else sret tt
              else sret tt
          end)
  end.

(** [ReorderSpace._merge_chain]; the recursion is as deep as the total number
    of elements. *)
Definition merge_chain `{Numpy} (chains : list (list Z)) : py (list (list Z)) :=
  let size := sum_list (length <$> chains) in
  match merge_dfs (S size) chains size (mkMerge (replicate (length chains) 0) [] []) with
  | (Ret _, st) => Ret (merged st)
  | (Raise e, _) => Raise e
  end.

(** The keyword arguments [ReorderSpace.__init__] reads. *)
Record reorder_kwargs (A : Type) := mkReorderKwargs {
  kw_interval : option (Z * Z);
  kw_re_candidate : option (list (list A));
  kw_spatial : option (list (list A));
  kw_reduce : option (list (list A))
}.
Arguments kw_interval {A}.
Arguments kw_re_candidate {A}.
Arguments kw_spatial {A}.
Arguments kw_reduce {A}.
Arguments mkReorderKwargs {A}.

(** [kwargs[k]]. *)
Definition kwarg {A} (o : option A) : py A :=
  match o with Some a => Ret a | None => Raise KeyError end.

(** [x[:-1]], [x[-1:]] and [x[-1]]. *)
Definition but_last {A} (l : list A) : list A := take (length l - 1) l.
Definition last_slice {A} (l : list A) : list A := drop (length l - 1) l.

Section Reorder.
Context `{Numpy} {A : Type} `{EqDecision A}.

(** The entity list of [ReorderSpace.__init__] for each policy. *)
Definition reorder_entities (axes : list A) (policy : string) (kw : reorder_kwargs A) : py (list entity) :=
  let n := zlen axes in
  if decide (policy = "identity") then Ret [ReorderEntity (range 0 n)]
  else if decide (policy = "all") then
    Ret (ReorderEntity <$> permutations (range 0 n))
  else if decide (policy = "interval_all") then
    let? (b, e) := kwarg (kw_interval kw) in
    let sub_space := permutations (range b e) in
    Ret ((λ x, ReorderEntity (range 0 b ++ x ++ range e n)) <$> sub_space)
  else if decide (policy = "candidate") then
    let? cand := kwarg (kw_re_candidate kw) in
    pymap (λ can, let? perm := pymap (list_index axes) can in Ret (ReorderEntity perm)) cand
  else if decide (policy = "interleave") then
    let? spatial := kwarg (kw_spatial kw) in
    let? red := kwarg (kw_reduce kw) in
    let? spatial := pymap (pymap (list_index axes)) spatial in
    let? red := pymap (pymap (list_index axes)) red in
    let? outer_merged := merge_chain (but_last <$> spatial) in
    let? inner_merged := merge_chain ((last_slice <$> spatial) ++ red) in
    Ret (concat ((λ o, (λ i, ReorderEntity (o ++ i)) <$> inner_merged) <$> outer_merged))
  else if decide (policy = "interleave_cuda") then
    let? spatial := kwarg (kw_spatial kw) in
    let? red := kwarg (kw_reduce kw) in
    let? spatial := pymap (pymap (list_index axes)) spatial in
    let? red := pymap (pymap (list_index axes)) red in
    let? outer_merged := merge_chain (but_last <$> spatial) in
    let? reduce_merged := merge_chain red in
    let? inner_merged := pymap (λ x, pynth x (-1)%Z) spatial in
    Ret (concat ((λ o, (λ r, ReorderEntity (o ++ r ++ inner_merged)) <$> reduce_merged) <$> outer_merged))
  else Raise RuntimeError.

(** [ReorderSpace.__init__]. *)
Definition ReorderSpace_init (axes : list A) (policy : string) (kw : reorder_kwargs A) : py space :=
  let? ents := reorder_entities axes policy kw in
  Ret (mkSpace KReorder (zlen axes) ents).

(** [ReorderEntity.apply]: the new order handed to [sch[op].reorder]. *)
Definition ReorderEntity_apply (perm : list Z) (axes : list A) : py (list A) :=
  if bool_decide (zlen axes = zlen perm) then pymap (pynth axes) perm
  else pymap (pynth axes) (filter (λ i, (i < zlen axes)%Z) perm).
End Reorder.

(** ** Annotate spaces *)

Definition fuse_prefix (n : Z) (tail : list string) : list annval :=
  AnnStr <$> (replicate (Z.to_nat n) "fuse" ++ tail).

(** The annotations [bind_gpu] gives to [num_axis] axes. *)
Definition bind_gpu (num_axis : Z) : py (list annval) :=
  if (6 <=? num_axis)%Z then
    Ret (fuse_prefix (num_axis - 6) ["blockIdx.z"; "blockIdx.y"; "blockIdx.x";
                                     "threadIdx.z"; "threadIdx.y"; "threadIdx.x"])
  else if (4 <=? num_axis)%Z then
    Ret (fuse_prefix (num_axis - 4) ["blockIdx.y"; "blockIdx.x"; "threadIdx.y"; "threadIdx.x"])
  else if (2 <=? num_axis)%Z then
    Ret (fuse_prefix (num_axis - 2) ["blockIdx.x"; "threadIdx.x"])
  else Raise RuntimeError.

(** The annotations [bind_gpu_virtual] gives to [num_axis] axes. *)
Definition bind_gpu_virtual (num_axis : Z) : py (list annval) :=
  if (9 <=? num_axis)%Z then
    Ret (fuse_prefix (num_axis - 9) ["blockIdx.z"; "blockIdx.y"; "blockIdx.x";
                                     "vthread"; "vthread"; "vthread";
                                     "threadIdx.z"; "threadIdx.y"; "threadIdx.x"])
  else if (6 <=? num_axis)%Z then
    Ret (fuse_prefix (num_axis - 6) ["blockIdx.y"; "blockIdx.x"; "vthread"; "vthread";
                                     "threadIdx.y"; "threadIdx.x"])
  else if (3 <=? num_axis)%Z then
    Ret (fuse_prefix (num_axis - 3) ["blockIdx.x"; "vthread"; "threadIdx.x"])
  else Raise RuntimeError.

(** [itertools.combinations(l, k)], in lexicographic order of positions. *)
Fixpoint combinations {A} (k : nat) (l : list A) : list (list A) :=
  match k, l with
  | O, _ => [[]]
  | S _, [] => []
  | S k', x :: l' => (cons x <$> combinations k' l') ++ combinations k l'
  end.

Definition count_vec (l : list string) : nat :=
  length (filter (λ s, s = "vec") l).

(** [AnnotateSpace._generate_space]: [rem] is [num_axis - now], and the state
    is the shared [tmp_stack] with [self.entities]. *)
Fixpoint annotate_generate_space (anns : list string) (rem now : nat) :
    ST (list string * list entity) unit :=
  match rem with
  | O =>
      let! (stk, ents) := sget in
      if bool_decide (count_vec stk ≤ 1)
      then sput (stk, ents ++ [AnnotateEntity (AnnStr <$> stk)])
      else sret tt
  | S rem' =>
      sfor anns (λ ann,
        let! (stk, ents) := sget in
        let! _ := sput (<[now := ann]> stk, ents) in
        annotate_generate_space anns rem' (S now))
  end.

(** [policy.replace("try", "none").split("_")]. *)
Definition policy_anns (policy : string) : list string :=
  str_split "_"%char (str_replace "try" "none" policy).

(** [AnnotateSpace.__init__] on [num_axis] axes. *)
Definition annotate_entities (num_axis : Z) (policy : string) (num_anchor : option Z) : py (list entity) :=
  if decide (policy = "bind_gpu") then
    let? anns := bind_gpu num_axis in Ret [AnnotateEntity anns]
  else if decide (policy = "bind_gpu_virtual") then
    let? anns := bind_gpu_virtual num_axis in Ret [AnnotateEntity anns]
  else if decide (policy = "locate_cache") then
    let? k := kwarg num_anchor in
    if (k <? 0)%Z then Raise ValueError
    else Ret ((λ x, AnnotateEntity (AnnInt <$> x)) <$> combinations (Z.to_nat k) (range 0 num_axis))
  else
    let anns := policy_anns policy in
    if bool_decide (Forall (λ a, a ∈ ["none"; "unroll"; "vec"]) anns) then
      let n := Z.to_nat num_axis in
      match annotate_generate_space anns n 0 (replicate n "", []) with
      | (Ret _, (_, ents)) => Ret ents
      | (Raise e, _) => Raise e
      end
    else Raise RuntimeError.

Definition AnnotateSpace_init (num_axis : Z) (policy : string) (num_anchor : option Z) : py space :=
  let? ents := annotate_entities num_axis policy num_anchor in
  Ret (mkSpace KAnnotate num_axis ents).

(** The schedule primitives [AnnotateEntity.apply] issues. *)
Inductive sched_cmd (Ax T : Type) :=
  | CUnroll (a : Ax)
  | CVectorize (a : Ax)
  | CBind (a : Ax) (thread : string)
  | CFuse (a b : Ax)
  | CComputeAt (t : T) (a : Ax).
Arguments CUnroll {Ax T}.
Arguments CVectorize {Ax T}.
Arguments CBind {Ax T}.
Arguments CFuse {Ax T}.
Arguments CComputeAt {Ax T}.

Definition thread_anns : list string :=
  ["blockIdx.x"; "blockIdx.y"; "blockIdx.z"; "threadIdx.x"; "threadIdx.y"; "threadIdx.z"; "vthread"].

(** The schedule, the axes list and the errors of the config, which
    [AnnotateEntity.apply] updates in place. *)
Record apply_state (Ax T : Type) := mkApply {
  ap_trace : list (sched_cmd Ax T);
  ap_axes : list Ax;
  ap_errors : list string
}.
Arguments mkApply {Ax T}.
Arguments ap_trace {Ax T}.
Arguments ap_axes {Ax T}.
Arguments ap_errors {Ax T}.

Section AnnotateApply.
Context {Ax T : Type} (fuse : Ax → Ax → Ax).

Definition emit (c : sched_cmd Ax T) : ST (apply_state Ax T) unit := λ s,
  (Ret tt, mkApply (ap_trace s ++ [c]) (ap_axes s) (ap_errors s)).

(** [cfg.raise_error(msg)] on an optional config. *)
Definition record_error (has_cfg : bool) (msg : string) : ST (apply_state Ax T) unit := λ s,
  if has_cfg then (Ret tt, mkApply (ap_trace s) (ap_axes s) (ap_errors s ++ [msg]))
  else (Raise AttributeError, s).

Definition axis_len (axis_lens : option (list Z)) (i : nat) : py Z :=
  match axis_lens with None => Raise TypeError | Some l => pynth l (Z.of_nat i) end.

(** One iteration of the annotation loop of [AnnotateEntity.apply]. *)
Definition annotate_step (has_cfg : bool) (axis_lens : option (list Z)) (max_unroll : option Z)
    (vec_size : option (list Z)) (i : nat) (ann : annval) : ST (apply_state Ax T) unit :=
  match ann with
  | AnnInt _ => sraise TypeError
  | AnnStr ann =>
      if decide (ann = "none") then sret tt
      else if decide (ann = "unroll") then
        let! _ :=
          match max_unroll with
          | Some m =>
              if decide (m = 0)%Z then sret tt else
              let! len := slift (axis_len axis_lens i) in
              if (m <? len)%Z then record_error has_cfg "Too large factor for unrolling" else sret tt
          | None => sret tt
          end in
        let! s := sget in
        let! a := slift (pynth (ap_axes s) (Z.of_nat i)) in
        emit (CUnroll a)
      else if decide (ann = "vec") then
        let! _ :=
          match vec_size with
          | Some (v :: vs) =>
              let! len := slift (axis_len axis_lens i) in
              if bool_decide (len ∈ v :: vs) then sret tt
              else record_error has_cfg "Wrong size of lanes in vectorization"
          | _ => sret tt
          end in
        let! s := sget in
        let! a := slift (pynth (ap_axes s) (Z.of_nat i)) in
        emit (CVectorize a)
      else if bool_decide (ann ∈ thread_anns) then
        let! s := sget in
        let! a := slift (pynth (ap_axes s) (Z.of_nat i)) in
        emit (CBind a ann)
      else if decide (ann = "fuse") then
        let! s := sget in
        let! _ := slift (pyassert (bool_decide (Z.of_nat i < zlen (ap_axes s) - 1)%Z)) in
        let! a := slift (pynth (ap_axes s) (Z.of_nat i)) in
        let! b := slift (pynth (ap_axes s) (Z.of_nat (S i))) in
        let! _ := emit (CFuse a b) in
        let! s := sget in
        sput (mkApply (ap_trace s) (<[S i := fuse a b]> (ap_axes s)) (ap_errors s))
      else sraise RuntimeError
  end.

(** [AnnotateEntity.apply]. *)
Definition AnnotateEntity_apply (anns : list annval) (has_cfg : bool) (axis_lens : option (list Z))
    (max_unroll : option Z) (vec_size : option (list Z)) (source : option (list (list T))) :
    ST (apply_state Ax T) unit :=
  match source with
  | Some source =>
      sfor (zip source anns) (λ '(src, to),
        sfor src (λ t,
          match to with
          | AnnStr _ => sraise TypeError
          | AnnInt to =>
              let! s := sget in
              let! a := slift (pynth (ap_axes s) to) in
              emit (CComputeAt t a)
          end))
  | None =>
      sfor (zip (seq 0 (length anns)) anns) (λ '(i, ann),
        annotate_step has_cfg axis_lens max_unroll vec_size i ann)
  end.
End AnnotateApply.

(** ** Option spaces *)

(** [OtherOptionSpace.__init__]. *)
Definition OtherOptionSpace_init (candidate : list optval) : space :=
  mkSpace KOther 0 (OtherOptionEntity <$> candidate).
