(* ===== verification/TransformsSpec.v ===== *)
(** * Correctness of the transform spaces

    Factor enumeration, the split, reorder and annotate searches and the
    application of their entities, against set-level specifications. *)

From S2P Require Import Prelude Transforms.

(** ** Factors *)

Lemma factor_pairs_divides n b d :
  (1 ≤ n)%Z → d ∈ factor_pairs n b → (0 < d)%Z ∧ (d | n)%Z.
Proof.
  intros Hn. unfold factor_pairs. rewrite list_elem_of_concat.
  intros (p & Hd & Hp). apply list_elem_of_fmap in Hp as (i & -> & Hi).
  apply list_elem_of_filter in Hi as [Hmod Hi].
  apply elem_of_range_step in Hi as [Hr _]; [|bdec; lia].
  apply Z.mod_divide in Hmod as [k Hk]; [|lia].
  apply elem_of_cons in Hd as [->|Hd].
  - split; [lia|]. exists k. lia.
  - apply list_elem_of_singleton in Hd as ->.
    subst n. rewrite Z.div_mul by lia. split; [nia|]. exists i. lia.
Qed.

(** A divisor of an odd number is odd, so stepping by two misses none. *)
Lemma odd_divisor_step n i :
  (1 ≤ n)%Z → (0 < i)%Z → (i | n)%Z → (n `mod` 2 ≠ 0)%Z → (2 | i - 1)%Z.
Proof.
  intros Hn Hi [k Hk] Hodd.
  destruct (Z.Even_or_Odd i) as [[j Hj]|[j Hj]].
  - exfalso. apply Hodd. apply Z.mod_divide; [lia|]. exists (k * j)%Z. lia.
  - exists j. lia.
Qed.

Lemma small_divisor_in n b i :
  (1 ≤ n)%Z → (0 < i ≤ b)%Z → (i | n)%Z →
  i ∈ factor_pairs n b ∧ (n `div` i)%Z ∈ factor_pairs n b.
Proof.
  intros Hn Hi Hdiv. unfold factor_pairs.
  assert (i ∈ filter (λ i, (n `mod` i = 0)%Z)
    (range_step 1 (b + 1) (if bool_decide (n `mod` 2 = 0)%Z then 1 else 2))) as Hin.
  { apply list_elem_of_filter. split; [apply Z.mod_divide; [lia|done]|].
    apply elem_of_range_step; [bdec; lia|]. split; [lia|].
    case_bool_decide; [apply Z.divide_1_l|]. by apply (odd_divisor_step n); try lia. }
  split; apply list_elem_of_concat; exists [i; (n `div` i)%Z]; split; try set_solver;
    apply list_elem_of_fmap; eauto.
Qed.

Lemma factor_pairs_complete n b d :
  (1 ≤ n)%Z → (Z.sqrt n ≤ b)%Z → (0 < d)%Z → (d | n)%Z → d ∈ factor_pairs n b.
Proof.
  intros Hn Hb Hd [k Hk].
  assert (0 < k)%Z by nia.
  destruct (Z_le_gt_dec d b) as [Hle|Hgt].
  - apply small_divisor_in; [lia|lia|]. by exists k.
  - destruct (Z.sqrt_spec n ltac:(lia)) as [_ Hs].
    assert (k ≤ b)%Z.
    { destruct (Z_le_gt_dec k b) as [|Hk']; [done|].
      pose proof (Z.sqrt_nonneg n).
      assert (Z.succ (Z.sqrt n) * Z.succ (Z.sqrt n) ≤ k * d)%Z
        by (apply Z.mul_le_mono_nonneg; lia).
      lia. }
    replace d with (n `div` k)%Z by (subst n; rewrite Z.mul_comm; apply Z.div_mul; lia).
    apply small_divisor_in; [lia|lia|]. exists d. lia.
Qed.

Lemma merge_sort_Zle_strict (l : list Z) :
  NoDup l → StronglySorted Z.lt (merge_sort Z.le l).
Proof.
  intros Hnd.
  pose proof (StronglySorted_merge_sort Z.le l) as Hs.
  assert (NoDup (merge_sort Z.le l)) as Hnd'
    by (by rewrite merge_sort_Permutation).
  induction Hs as [|x s Hs IH Hall]; [constructor|].
  apply NoDup_cons in Hnd' as [Hx Hnd']. constructor; [by apply IH|].
  apply Forall_forall. intros y Hy. rewrite Forall_forall in Hall.
  specialize (Hall y Hy). destruct (decide (x = y)); [by subst|lia].
Qed.

(** The result of the search for any bound at least [isqrt n]: the divisors of
    [n] in increasing order.  Rounding [math.sqrt] up cannot change it. *)
Lemma get_factors_upto_spec n b :
  (1 ≤ n)%Z → (Z.sqrt n ≤ b)%Z →
  ∃ l, get_factors_upto n b = Ret l ∧ StronglySorted Z.lt l ∧
       ∀ d, d ∈ l ↔ (0 < d)%Z ∧ (d | n)%Z.
Proof.
  intros Hn Hb. unfold get_factors_upto.
  assert (1%Z ∈ factor_pairs n b) as H1.
  { apply factor_pairs_complete; [done|done|lia|apply Z.divide_1_l]. }
  destruct (factor_pairs n b) as [|x l] eqn:E; [set_solver|].
  eexists. split; [done|]. rewrite <-E. split.
  - apply merge_sort_Zle_strict, NoDup_remove_dups.
  - intros d. rewrite merge_sort_Permutation, elem_of_remove_dups. split.
    + by apply factor_pairs_divides.
    + intros [??]. by apply factor_pairs_complete.
Qed.

(** C3: [get_factors] returns exactly the positive divisors of its argument,
    strictly increasing and without repetition, although the trial division
    stops at the square root and skips even candidates for odd arguments. *)
Theorem get_factors_spec n :
  (1 ≤ n)%Z →
  ∃ l, get_factors n = Ret l ∧ StronglySorted Z.lt l ∧
       ∀ d, d ∈ l ↔ (0 < d)%Z ∧ (d | n)%Z.
Proof.
  intros Hn. unfold get_factors. rewrite bool_decide_false by lia.
  by apply get_factors_upto_spec.
Qed.

(** ** The split search *)

(** The reference enumeration: all tuples of candidate factors, in order. *)
Fixpoint tuples {A} (l : list A) (n : nat) : list (list A) :=
  match n with
  | O => [[]]
  | S n' => concat ((λ f, cons f <$> tuples l n') <$> l)
  end.

(** The acceptance test of the DFS leaf as a predicate on the product. *)
Definition split_ok (product : Z) (no_tail : bool) (prod : Z) : bool :=
  negb (product <? prod)%Z &&
  ((product `mod` prod =? 0)%Z || (negb no_tail && (prod <? product)%Z)).

Definition split_out (product : Z) (no_tail : bool) (fs : list Z) : list entity :=
  if split_ok product no_tail (zprod fs) then [SplitEntity ((-1)%Z :: reverse fs)] else [].

Lemma elem_of_tuples {A} (l : list A) n t :
  t ∈ tuples l n ↔ length t = n ∧ Forall (.∈ l) t.
Proof.
  revert t. induction n as [|n IH]; intros t; simpl.
  - rewrite list_elem_of_singleton. split; [by intros ->|]. by destruct t; intros [? _].
  - rewrite list_elem_of_concat. split.
    + intros (k & Ht & Hk). apply list_elem_of_fmap in Hk as (f & -> & Hf).
      apply list_elem_of_fmap in Ht as (u & -> & Hu). apply IH in Hu as [Hlen Hall].
      simpl. rewrite Hlen. auto.
    + intros [Hlen Hall]. destruct t as [|f u]; [done|].
      apply Forall_cons in Hall as [Hf Hall]. injection Hlen as Hlen.
      exists (cons f <$> tuples l n). split; apply list_elem_of_fmap; eauto.
      exists u. split; [done|]. by apply IH.
Qed.

Lemma split_leaf_spec product nt fs ents :
  fs ≠ [] → Forall (λ x, (0 < x)%Z) fs →
  split_leaf product nt (Some <$> fs, ents) =
  (Ret tt, (Some <$> fs, ents ++ split_out product nt fs)).
Proof.
  intros Hne Hpos. unfold split_leaf, split_out, split_ok. rewrite mapM_id_Some.
  destruct fs as [|f fs]; [done|]. rewrite reduce_mul.
  apply zprod_pos in Hpos. unfold pymod. rewrite bool_decide_false by lia.
  destruct (product <? _)%Z; simpl; [by rewrite app_nil_r|].
  destruct (_ || _); [done|]. by rewrite app_nil_r.
Qed.

Lemma split_generate_spec factors product nt rem : ∀ p rest ents,
  Forall (λ x, (0 < x)%Z) factors → Forall (λ x, (0 < x)%Z) p →
  length rest = rem → 0 < length p + rem →
  ∃ rest', length rest' = rem ∧
    split_generate_space factors product nt rem (length p) ((Some <$> p) ++ rest, ents) =
    (Ret tt, ((Some <$> p) ++ rest',
              ents ++ concat ((λ t, split_out product nt (p ++ t)) <$> tuples factors rem))).
Proof.
  induction rem as [|rem IH]; intros p rest ents Hf Hp Hlen Hne; simpl.
  - exists []. destruct rest; [|done]. split; [done|]. rewrite !app_nil_r.
    apply split_leaf_spec; [by destruct p; simpl in *; [lia|]|done].
  - set (out := λ f, concat ((λ t, split_out product nt (p ++ f :: t)) <$> tuples factors rem)).
    destruct (sfor_inv (λ factor : Z,
        let! (stk, ents) := sget in
        let! _ := sput (<[length p:=Some factor]> stk, ents) in
        split_generate_space factors product nt rem (S (length p)))
      (λ done st, ∃ rest', length rest' = S rem ∧
         st = ((Some <$> p) ++ rest', ents ++ concat (out <$> done)))
      factors ((Some <$> p) ++ rest, ents)) as (st & Hrun & rest' & Hr' & ->).
    + exists rest. split; [done|]. simpl. by rewrite app_nil_r.
    + intros done f rest0 st Hl (r & Hr & ->). cbn -[split_generate_space].
      destruct r as [|r0 r]; [done|]. injection Hr as Hr.
      replace (<[length p:=Some f]> ((Some <$> p) ++ r0 :: r))
        with ((Some <$> (p ++ [f])) ++ r); last first.
      { rewrite fmap_app, <-app_assoc. simpl.
        rewrite insert_app_r_alt by (rewrite length_fmap; lia).
        by rewrite length_fmap, Nat.sub_diag. }
      destruct (IH (p ++ [f]) r (ents ++ concat (out <$> done))) as (r' & Hr' & Hrun); auto.
      { apply Forall_app. split; [done|]. constructor; [|done].
        rewrite Forall_forall in Hf. apply Hf. rewrite Hl. set_solver. }
      { rewrite length_app; simpl; lia. }
      rewrite length_app in Hrun; simpl in Hrun; rewrite Nat.add_1_r in Hrun.
      eexists. split; [exact Hrun|]. exists (Some f :: r'). split; [simpl; lia|].
      rewrite fmap_app, <-!app_assoc. simpl. f_equal. f_equal.
      rewrite concat_fmap_snoc. f_equal. unfold out.
      f_equal. apply list_fmap_ext. intros ? t _. by rewrite <-app_assoc.
    + exists rest'. split; [done|]. rewrite Hrun. do 3 f_equal.
      rewrite concat_fmap_concat, <-list_fmap_compose. f_equal.
      apply list_fmap_ext. intros ? f _. unfold out; simpl.
      by rewrite <-list_fmap_compose.
Qed.

(** ** Split spaces *)

Lemma get_pow2s_spec n :
  (1 ≤ n)%Z →
  ∃ l, get_pow2s n = Ret l ∧ ∀ x, x ∈ l ↔ ∃ k, (0 ≤ k)%Z ∧ x = (2 ^ k)%Z ∧ (x ≤ n)%Z.
Proof.
  intros Hn. unfold get_pow2s. rewrite bool_decide_false by lia. eexists. split; [done|].
  intros x. rewrite list_elem_of_fmap. setoid_rewrite elem_of_range. split.
  - intros (k & -> & Hk). exists k. split; [lia|]. split; [done|].
    apply Z.log2_le_pow2; lia.
  - intros (k & Hk & -> & Hle). exists k. split; [done|].
    apply Z.log2_le_pow2 in Hle; lia.
Qed.

(** The factors a policy lets the search use. *)
Definition policy_factor (policy : string) (n f : Z) : Prop :=
  (policy ≠ "power2" ∧ (0 < f)%Z ∧ (f | n)%Z) ∨
  (policy ≠ "factors" ∧ ∃ k, (0 ≤ k)%Z ∧ f = (2 ^ k)%Z ∧ (f ≤ n)%Z).

Definition search_policies : list string := ["verbose"; "factors"; "power2"].

Lemma policy_factor_pos policy n f : policy_factor policy n f → (0 < f)%Z.
Proof.
  intros [(_ & ? & _)|(_ & k & Hk & -> & _)]; [done|]. by apply Z.pow_pos_nonneg.
Qed.

Section SplitSpaces.
Context (set_order : list Z → list Z).
Hypothesis set_order_elem : ∀ l x, x ∈ set_order l ↔ x ∈ l.

Lemma split_factors_spec policy n mf :
  (1 ≤ n)%Z → policy ∈ search_policies →
  ∃ l, split_factors set_order policy n mf = Ret l ∧
       ∀ f, f ∈ l ↔ policy_factor policy n f ∧ (f ≤ mf)%Z.
Proof.
  intros Hn Hpol.
  destruct (get_factors_upto_spec n (Z.sqrt n) Hn ltac:(lia)) as (ds & Hds & _ & Hd).
  assert (get_factors n = Ret ds) as Hgf
    by (unfold get_factors; rewrite bool_decide_false by lia; done).
  destruct (get_pow2s_spec n Hn) as (ps & Hps & Hp).
  unfold split_factors, policy_factor. rewrite Hgf, Hps. simpl.
  apply elem_of_cons in Hpol as [->|Hpol];
    [|apply elem_of_cons in Hpol as [->|Hpol];
      [|apply list_elem_of_singleton in Hpol as ->]]; simpl;
    (eexists; split; [done|]); intros f; rewrite list_elem_of_filter.
  - rewrite set_order_elem, elem_of_app, Hd, Hp. naive_solver.
  - rewrite Hd. naive_solver.
  - rewrite Hp. naive_solver.
Qed.

Lemma SplitSpace_search n policy kw m :
  (1 ≤ n)%Z → policy ∈ search_policies → (2 ≤ m)%Z → kw_num_outputs kw = Some m →
  ∃ factors,
    (∀ f, f ∈ factors ↔ policy_factor policy n f ∧
                        (f ≤ default (Z.shiftl 1 31) (kw_max_factor kw))%Z) ∧
    SplitSpace_init set_order n policy kw =
    Ret (mkSpace (KSplit n) m
      (filter (λ e, default (λ _, true) (kw_filter kw) e = true)
        (concat (split_out n (default (bool_decide (policy = "factors")) (kw_no_tail kw)) <$>
                 tuples factors (Z.to_nat (m - 1)))))).
Proof.
  intros Hn Hpol Hm Hout.
  destruct (split_factors_spec policy n (default (Z.shiftl 1 31) (kw_max_factor kw)) Hn Hpol)
    as (factors & Hfs & Hf).
  exists factors. split; [done|]. unfold SplitSpace_init. rewrite Hout, Hfs. simpl.
  rewrite bool_decide_true by lia. simpl.
  rewrite decide_False by (intros ->; set_solver). simpl.
  set (nt := default _ (kw_no_tail kw)).
  destruct (split_generate_spec factors n nt (Z.to_nat (m - 1)) [] (replicate (Z.to_nat (m - 1)) None) [])
    as (rest & _ & Hrun).
  - apply Forall_forall. intros f Hin. apply Hf in Hin as [Hin _]. by eapply policy_factor_pos.
  - constructor.
  - apply length_replicate.
  - simpl. lia.
  - simpl in Hrun. rewrite Hrun. done.
Qed.

(** C1: for the three enumerating policies the split space holds exactly the
    sizes [-1 :: fs] with [num_outputs - 1] factors allowed by the policy and
    by [max_factor], whose product divides the axis length (or, when tails are
    allowed, stays below it), and which pass the user's filter. *)
Theorem SplitSpace_spec n policy kw m :
  (1 ≤ n)%Z → policy ∈ search_policies → (2 ≤ m)%Z → kw_num_outputs kw = Some m →
  ∃ sp, SplitSpace_init set_order n policy kw = Ret sp ∧ sp_num_output sp = m ∧
  ∀ e, e ∈ sp_entities sp ↔
    default (λ _, true) (kw_filter kw) e = true ∧
    ∃ fs, e = SplitEntity ((-1)%Z :: fs) ∧ zlen fs = (m - 1)%Z ∧
      Forall (λ f, policy_factor policy n f ∧
                   (f ≤ default (Z.shiftl 1 31) (kw_max_factor kw))%Z) fs ∧
      ((zprod fs | n)%Z ∨
       (default (bool_decide (policy = "factors")) (kw_no_tail kw) = false ∧ (zprod fs < n)%Z)).
Proof.
  intros Hn Hpol Hm Hout.
  destruct (SplitSpace_search n policy kw m Hn Hpol Hm Hout) as (factors & Hf & Hinit).
  eexists. split; [exact Hinit|]. split; [done|]. intros e. simpl.
  rewrite list_elem_of_filter, list_elem_of_concat. apply and_iff_compat_l.
  set (nt := default _ (kw_no_tail kw)).
  assert (∀ t, Forall (.∈ factors) t →
    split_ok n nt (zprod t) = true ↔ (zprod t | n)%Z ∨ nt = false ∧ (zprod t < n)%Z) as Hok.
  { intros t Ht. assert (0 < zprod t)%Z as Hpos.
    { apply zprod_pos. eapply Forall_impl; [exact Ht|]. intros f Hin.
      apply Hf in Hin as [Hin _]. by eapply policy_factor_pos. }
    unfold split_ok. rewrite <-Z.mod_divide by lia.
    destruct (Z.ltb_spec n (zprod t)), (Z.eqb_spec (n `mod` zprod t) 0),
      (Z.ltb_spec (zprod t) n), nt; simpl; try (intuition (congruence || lia)).
    all: split; [done|]; intros [Hd|[? ?]]; try done; try lia.
    all: rewrite Z.mod_small in Hd by lia; lia. }
  split.
  - intros (l & He & Hl). apply list_elem_of_fmap in Hl as (t & -> & Ht).
    apply elem_of_tuples in Ht as [Hlen Ht]. unfold split_out in He.
    destruct (split_ok n nt (zprod t)) eqn:E; [|set_solver].
    apply list_elem_of_singleton in He as ->. exists (reverse t). split; [done|].
    rewrite zprod_reverse. split; [unfold zlen; rewrite length_reverse; lia|].
    split; [|by apply Hok].
    apply Forall_reverse. eapply Forall_impl; [exact Ht|]. intros f Hin. by apply Hf.
  - intros (fs & -> & Hlen & Hall & Hcond). exists (split_out n nt (reverse fs)).
    assert (Forall (.∈ factors) (reverse fs)) as Ht.
    { apply Forall_reverse. eapply Forall_impl; [exact Hall|]. intros f Hin. by apply Hf. }
    split.
    + unfold split_out. rewrite (proj2 (Hok _ Ht)) by (by rewrite zprod_reverse).
      rewrite reverse_involutive. set_solver.
    + apply list_elem_of_fmap. eexists. split; [done|]. apply elem_of_tuples.
      split; [|done]. rewrite length_reverse. unfold zlen in Hlen. lia.
Qed.

(** A split into a single output axis cannot be built with an enumerating
    policy: the leaf multiplies an empty stack and raises [TypeError]. *)
Theorem SplitSpace_single_output n policy kw :
  (1 ≤ n)%Z → policy ∈ search_policies → kw_num_outputs kw = Some 1%Z →
  SplitSpace_init set_order n policy kw = Raise TypeError.
Proof.
  intros Hn Hpol Hout.
  destruct (split_factors_spec policy n (default (Z.shiftl 1 31) (kw_max_factor kw)) Hn Hpol)
    as (factors & Hfs & _).
  unfold SplitSpace_init. rewrite Hout, Hfs. simpl.
  rewrite decide_False by (intros ->; set_solver). done.
Qed.
End SplitSpaces.

(** ** Applying a split *)

Definition cdiv (a b : Z) : Z := ((a + b - 1) `div` b)%Z.

Lemma cdiv_mul a b : (0 < b)%Z → cdiv (a * b) b = a.
Proof.
  intros Hb. unfold cdiv. replace (a * b + b - 1)%Z with (b - 1 + a * b)%Z by lia.
  rewrite Z.div_add by lia. rewrite Z.div_small; lia.
Qed.

Section SplitApplied.
Context `{NumpyOk} {Sch Ax : Type} (split : Sch → Ax → Z → (Ax * Ax) * Sch) (extent : Ax → Z).
(** The documented effect of [te.schedule.Stage.split(axis, factor)]: the inner
    axis has extent [factor], the outer one the rounded-up quotient. *)
Hypothesis split_outer : ∀ sch a f,
  (0 < f)%Z → extent (split sch a f).1.1 = cdiv (extent a) f.
Hypothesis split_inner : ∀ sch a f, (0 < f)%Z → extent (split sch a f).1.2 = f.

Lemma split_apply_tail_extents tail : ∀ sch a,
  Forall (λ x, (0 < x)%Z) tail → (zprod tail < 2 ^ 63)%Z →
  extent <$> (split_apply_tail split sch tail a).1 =
  match tail with [] => [extent a] | _ => cdiv (extent a) (zprod tail) :: tail end.
Proof.
  induction tail as [|t rest IH]; intros sch a Hpos Hlt; [done|].
  cbn [split_apply_tail].
  pose proof (zprod_pos _ Hpos) as Hp.
  apply Forall_cons in Hpos as [Ht Hrest].
  pose proof (zprod_pos _ Hrest) as Hpr.
  rewrite np_prod_small by lia.
  pose proof (split_outer sch a (zprod (t :: rest)) Hp) as Ho.
  pose proof (split_inner sch a (zprod (t :: rest)) Hp) as Hi.
  destruct (split sch a (zprod (t :: rest))) as [[ax0 ax1] sch1]. simpl in Ho, Hi.
  specialize (IH sch1 ax1 Hrest ltac:(simpl in Hlt; nia)).
  destruct (split_apply_tail split sch1 rest ax1) as [ret sch2]. csimpl in *.
  rewrite IH, Ho. f_equal. destruct rest as [|r rest].
  - rewrite Hi. simpl. f_equal. lia.
  - rewrite Hi. cbn [zprod foldr] in *. by rewrite cdiv_mul.
Qed.

(** Applying a split entity produces one axis per size; the inner axes have
    exactly the entity's extents and the outermost one covers the rest of the
    loop, so a divisible split multiplies back to the original extent. *)
Theorem SplitEntity_apply_extents sch s0 t ts a :
  Forall (λ x, (0 < x)%Z) (t :: ts) → (zprod (t :: ts) < 2 ^ 63)%Z →
  let out := extent <$> (SplitEntity_apply split sch (s0 :: t :: ts) a).1 in
  out = cdiv (extent a) (zprod (t :: ts)) :: t :: ts ∧
  ((zprod (t :: ts) | extent a)%Z → zprod out = extent a).
Proof.
  intros Hpos Hlt out. assert (out = cdiv (extent a) (zprod (t :: ts)) :: t :: ts) as ->.
  { unfold out, SplitEntity_apply. cbn [tail]. by apply (split_apply_tail_extents (t :: ts)). }
  split; [done|]. intros [k Hk]. rewrite Hk, cdiv_mul by auto with pydb. done.
Qed.
End SplitApplied.

(** ** Permutations *)

Lemma elem_of_selects {A} (l : list A) x r :
  (x, r) ∈ selects l → l ≡ₚ x :: r.
Proof.
  revert r. induction l as [|y l IH]; intros r; simpl; [set_solver|].
  rewrite elem_of_cons, list_elem_of_fmap. intros [[= -> ->]|([z r'] & [= -> ->] & Hin)]; [done|].
  apply IH in Hin. rewrite Hin. simpl. apply Permutation_swap.
Qed.

Lemma selects_elem_of {A} (l : list A) x : x ∈ l → ∃ r, (x, r) ∈ selects l.
Proof.
  induction l as [|y l IH]; simpl; [set_solver|].
  rewrite elem_of_cons. intros [->|Hin]; [eexists; left|].
  destruct (IH Hin) as [r Hr]. exists (y :: r). right. apply list_elem_of_fmap.
  by exists (x, r).
Qed.

Lemma elem_of_permutations_go {A} n (l : list A) p :
  length l = n → p ∈ permutations_go n l ↔ p ≡ₚ l.
Proof.
  revert l p. induction n as [|n IH]; intros l p Hlen; simpl.
  - apply length_zero_iff_nil in Hlen as ->. rewrite list_elem_of_singleton.
    split; [by intros ->|]. intros Hp. by apply Permutation_nil_r in Hp.
  - rewrite list_elem_of_concat. split.
    + intros (k & Hp & Hk). apply list_elem_of_fmap in Hk as ([x r] & -> & Hs).
      apply list_elem_of_fmap in Hp as (q & -> & Hq). apply elem_of_selects in Hs.
      simpl in *. apply IH in Hq; [by rewrite Hs, Hq|].
      apply Permutation_length in Hs. simpl in Hs. lia.
    + intros Hp. destruct p as [|x q]; [apply Permutation_length in Hp; simpl in Hp; lia|].
      destruct (selects_elem_of l x) as [r Hr]; [rewrite <-Hp; left|].
      pose proof (elem_of_selects _ _ _ Hr) as Hs.
      exists (cons x <$> permutations_go n r). split; apply list_elem_of_fmap.
      * exists q. split; [done|]. apply IH.
        { apply Permutation_length in Hs. simpl in Hs. lia. }
        apply (Permutation_cons_inv (a := x)). by rewrite Hp.
      * by exists (x, r).
Qed.

Lemma elem_of_permutations {A} (l p : list A) : p ∈ permutations l ↔ p ≡ₚ l.
Proof. by apply elem_of_permutations_go. Qed.

Lemma length_selects {A} (l : list A) : length (selects l) = length l.
Proof. induction l as [|x l IH]; simpl; [done|]. by rewrite length_fmap, IH. Qed.

Lemma length_concat_const {A B} (f : A → list B) n l :
  (∀ x, x ∈ l → length (f x) = n) → length (concat (f <$> l)) = length l * n.
Proof.
  induction l as [|x l IH]; intros Hf; csimpl; [done|].
  rewrite length_app, Hf, IH by set_solver. lia.
Qed.

Lemma length_permutations {A} (l : list A) : length (permutations l) = fact (length l).
Proof.
  unfold permutations. remember (length l) as n eqn:Hn. revert l Hn.
  induction n as [|n IH]; intros l Hn; [done|]. cbn [permutations_go].
  rewrite (length_concat_const _ (fact n)).
  - rewrite length_selects, <-Hn. simpl. lia.
  - intros [x r] Hs. rewrite length_fmap. apply IH.
    apply elem_of_selects, Permutation_length in Hs. simpl in *. lia.
Qed.

(** ** Merging chains *)

Section Merging.
Context `{NumpyOk}.

Lemma sum_list_length_pos (l : list (list Z)) :
  0 < sum_list (length <$> l) → ∃ c, c ∈ l ∧ 0 < length c.
Proof.
  induction l as [|c l IH]; csimpl; [lia|]. intros Hs.
  destruct (decide (0 < length c)) as [|]; [exists c; split; [left|done]|].
  destruct IH as (c' & ? & ?); [lia|]. exists c'. split; [by right|done].
Qed.

(** The longest remaining chain of a non-empty collection, as the code picks it. *)
Lemma pick_longest (sfx : list (list Z)) :
  0 < sum_list (length <$> sfx) →
  ∃ i x r, argmax (zlen <$> sfx) = Ret i ∧ sfx !! i = Some (x :: r).
Proof.
  intros Hs. destruct (sum_list_length_pos _ Hs) as (c & Hc & Hlen).
  destruct (argmax_spec (zlen <$> sfx)) as (i & m & Hi & Hm & Hall).
  { intros Hn. apply fmap_nil_inv in Hn. subst. set_solver. }
  rewrite list_lookup_fmap in Hm. apply fmap_Some in Hm as (s & Hs' & ->).
  rewrite Forall_forall in Hall. specialize (Hall (zlen c)).
  assert (zlen c ≤ zlen s)%Z by (apply Hall, list_elem_of_fmap_2; done).
  destruct s as [|x r]; [unfold zlen in *; simpl in *; lia|]. eauto.
Qed.

(** The reference: repeatedly take the head of the longest remaining chain. *)
Fixpoint greedy (n : nat) (sfx : list (list Z)) : list Z :=
  match n with
  | O => []
  | S n' =>
      match argmax (zlen <$> sfx) with
      | Ret i => match sfx !! i with
                 | Some (x :: r) => x :: greedy n' (<[i := r]> sfx)
                 | _ => []
                 end
      | Raise _ => []
      end
  end.

Lemma insert_concat_perm (sfx : list (list Z)) i x r :
  sfx !! i = Some (x :: r) → concat sfx ≡ₚ x :: concat (<[i := r]> sfx).
Proof.
  revert i. induction sfx as [|s sfx IH]; intros i Hi; [done|].
  destruct i as [|i]; simpl in *; [by simplify_eq|].
  rewrite (IH i Hi). by rewrite <-Permutation_middle.
Qed.

Lemma sum_insert (sfx : list (list Z)) i x r :
  sfx !! i = Some (x :: r) →
  sum_list (length <$> sfx) = S (sum_list (length <$> <[i := r]> sfx)).
Proof.
  revert i. induction sfx as [|s sfx IH]; intros i Hi; [done|].
  destruct i as [|i]; csimpl in *; [by simplify_eq|]. rewrite (IH i Hi). lia.
Qed.

Lemma greedy_spec n : ∀ sfx,
  sum_list (length <$> sfx) = n →
  greedy n sfx ≡ₚ concat sfx ∧ Forall (λ s, s `sublist_of` greedy n sfx) sfx.
Proof.
  induction n as [|n IH]; intros sfx Hs.
  - simpl. assert (Forall (λ s, s = []) sfx) as Hnil.
    { clear -Hs. induction sfx as [|s sfx IH]; csimpl in *; [done|].
      constructor; [apply length_zero_iff_nil; lia|apply IH; lia]. }
    split.
    + clear Hs. induction Hnil as [|s sfx -> _ IH]; [done|]. apply IH.
    + eapply Forall_impl; [exact Hnil|]. by intros s ->.
  - cbn [greedy]. destruct (pick_longest sfx ltac:(lia)) as (i & x & r & -> & Hi).
    rewrite Hi. pose proof (sum_insert _ _ _ _ Hi) as Hsum.
    destruct (IH (<[i := r]> sfx) ltac:(lia)) as [Hperm Hsub]. split.
    + by rewrite Hperm, <-insert_concat_perm.
    + apply Forall_lookup. intros j s Hj. rewrite Forall_lookup in Hsub.
      destruct (decide (i = j)) as [<-|Hne].
      * rewrite Hi in Hj. injection Hj as <-. apply sublist_skip.
        apply (Hsub i). apply list_lookup_insert_eq. by apply lookup_lt_Some in Hi.
      * apply sublist_cons. apply (Hsub j). by rewrite list_lookup_insert_ne.
Qed.

(** The unmerged suffixes of the chains. *)
Definition suffixes (chains : list (list Z)) (pt : list nat) : list (list Z) :=
  zip_with (λ c p, drop p c) chains pt.

Definition pt_ok (chains : list (list Z)) (pt : list nat) : Prop :=
  Forall2 (λ c p, p ≤ length c) chains pt.

Lemma remaining_suffixes chains pt :
  pt_ok chains pt → remaining chains pt = zlen <$> suffixes chains pt.
Proof.
  induction 1 as [|c p chains pt Hp _ IH]; [done|]. unfold remaining, suffixes in *. csimpl.
  rewrite IH. f_equal. unfold zlen. rewrite length_drop. lia.
Qed.

Lemma sum_suffixes chains pt :
  pt_ok chains pt →
  sum_list (length <$> chains) = sum_list pt + sum_list (length <$> suffixes chains pt).
Proof.
  induction 1 as [|c p chains pt Hp _ IH]; [done|]. unfold suffixes in *. csimpl.
  rewrite IH, length_drop. lia.
Qed.

Lemma suffixes_advance chains pt i x r :
  pt_ok chains pt → suffixes chains pt !! i = Some (x :: r) →
  ∃ c p, chains !! i = Some c ∧ pt !! i = Some p ∧ p < length c ∧ c !! p = Some x ∧
    pt_ok chains (<[i := S p]> pt) ∧
    suffixes chains (<[i := S p]> pt) = <[i := r]> (suffixes chains pt).
Proof.
  intros Hok. revert i. induction Hok as [|c p chains pt Hp Hok IH]; intros i Hi; [done|].
  destruct i as [|i]; simpl in Hi.
  - injection Hi as Hi. exists c, p.
    assert (c !! p = Some x) as Hx by (rewrite <-(Nat.add_0_r p), <-lookup_drop, Hi; done).
    apply lookup_lt_Some in Hx as Hlt. repeat (split; [done|]). split.
    + constructor; [lia|done].
    + unfold suffixes. simpl. f_equal. rewrite (drop_S c x p Hx) in Hi. congruence.
  - destruct (IH i Hi) as (c' & p' & ? & ? & ? & ? & Hok' & Heq).
    exists c', p'. repeat (split; [done|]). split; [by constructor|].
    unfold suffixes in *. simpl. by rewrite Heq.
Qed.

Lemma alter_pred_insert (pt : list nat) i p :
  pt !! i = Some p → alter pred i (<[i := S p]> pt) = pt.
Proof.
  intros Hi. apply lookup_lt_Some in Hi as Hlt. apply list_eq. intros j.
  destruct (decide (i = j)) as [<-|Hne].
  - rewrite list_lookup_alter_eq, list_lookup_insert_eq by done. by rewrite Hi.
  - by rewrite list_lookup_alter_ne, list_lookup_insert_ne.
Qed.

Lemma merge_dfs_spec chains n : ∀ fuel pt stk mg,
  n < fuel → pt_ok chains pt → sum_list (length <$> suffixes chains pt) = n →
  merge_dfs fuel chains (sum_list (length <$> chains)) (mkMerge pt stk mg) =
  (Ret tt, mkMerge pt stk (mg ++ [stk ++ greedy n (suffixes chains pt)])).
Proof.
  induction n as [|n IH]; intros [|fuel] pt stk mg Hfuel Hok Hn; try lia;
    pose proof (sum_suffixes _ _ Hok) as Hsum; cbn [merge_dfs]; unfold sbind at 1, sget at 1;
    cbn [tmp_pt tmp_stack merged].
  - rewrite decide_True by lia. unfold sput. by rewrite app_nil_r.
  - rewrite decide_False by lia.
    destruct (pick_longest (suffixes chains pt) ltac:(lia)) as (b & x & r & Hb & Hx).
    destruct (suffixes_advance _ _ _ _ _ Hok Hx) as (c & p & Hc & Hp & Hlt & Hcx & Hok' & Hsfx).
    set (out := stk ++ greedy (S n) (suffixes chains pt)).
    assert (out = (stk ++ [x]) ++ greedy n (suffixes chains (<[b := S p]> pt))) as Hout.
    { unfold out. cbn [greedy]. by rewrite Hb, Hx, Hsfx, <-app_assoc. }
    match goal with |- sfor ?l ?body ?s0 = _ =>
      destruct (sfor_inv body
        (λ done st, st = mkMerge pt stk (if decide (b ∈ done) then mg ++ [out] else mg)) l s0)
        as (st & Hrun & ->) end.
    + done.
    + intros done i rest st Hl ->.
      assert (i ∉ done) as Hi.
      { pose proof (NoDup_seq 0 (length chains)) as Hnd. rewrite Hl in Hnd.
        apply NoDup_app in Hnd as (_ & Hnd & _). intros Hin. apply (Hnd i Hin). left. }
      assert (i < length chains) as Hilen.
      { assert (i ∈ seq 0 (length chains)) as Hin by (rewrite Hl; set_solver).
        apply elem_of_seq in Hin. lia. }
      unfold sbind at 1, sget at 1. cbn [tmp_pt tmp_stack merged].
      destruct (lookup_lt_is_Some_2 chains i Hilen) as [ci Hci]. rewrite Hci.
      destruct (decide (i = b)) as [->|Hne].
      * rewrite Hc in Hci. injection Hci as <-. rewrite Hp. cbn [default from_option id].
        rewrite (proj2 (Nat.ltb_lt _ _) Hlt), (remaining_suffixes _ _ Hok), Hb.
        rewrite (decide_False (P := b ∈ done)) by done.
        rewrite pynth_lookup, Nat2Z.id, Hcx by lia.
        unfold sbind, slift, sput. rewrite decide_True by done.
        rewrite (IH fuel (<[b := S p]> pt) (stk ++ [x]) mg) by
          (try done; try lia; rewrite Hsfx; pose proof (sum_insert _ _ _ _ Hx); lia).
        cbn -[removelast]. eexists. split; [done|].
        rewrite decide_True by set_solver.
        rewrite <-Hout, alter_pred_insert, removelast_last by done. done.
      * assert ((if decide (b ∈ done ++ [i]) then mg ++ [out] else mg) =
                (if decide (b ∈ done) then mg ++ [out] else mg)) as ->.
        { destruct (decide (b ∈ done)), (decide (b ∈ done ++ [i])); set_solver. }
        eexists. split; [|done].
        destruct (_ <? _)%nat; [|done].
        rewrite (remaining_suffixes _ _ Hok), Hb. unfold sbind, slift.
        by rewrite decide_False.
    + rewrite Hrun. rewrite decide_True; [done|].
      apply elem_of_seq. apply lookup_lt_Some in Hc. lia.
Qed.

Lemma pt_ok_start chains : pt_ok chains (replicate (length chains) 0).
Proof. induction chains as [|c chains IH]; constructor; [lia|done]. Qed.

Lemma suffixes_start chains : suffixes chains (replicate (length chains) 0) = chains.
Proof.
  induction chains as [|c chains IH]; [done|]. unfold suffixes in *. simpl.
  by rewrite IH, drop_0.
Qed.

Lemma merge_chain_spec chains :
  ∃ m, merge_chain chains = Ret [m] ∧ m ≡ₚ concat chains ∧
       Forall (λ c, c `sublist_of` m) chains.
Proof.
  unfold merge_chain.
  pose proof (suffixes_start chains) as Hs.
  rewrite (merge_dfs_spec chains (sum_list (length <$> chains))).
  - rewrite Hs. simpl. eexists. split; [done|]. by apply greedy_spec.
  - lia.
  - apply pt_ok_start.
  - by rewrite Hs.
Qed.

(** [_merge_chain] always terminates with exactly one merged order, in
    which every chain appears in its own order and nothing else is added. *)
Theorem merge_chain_single chains :
  ∃ m, merge_chain chains = Ret [m] ∧ m ≡ₚ concat chains ∧
       Forall (λ c, c `sublist_of` m) chains.
Proof. apply merge_chain_spec. Qed.

End Merging.

(** ** Reorder spaces *)

Section ReorderSpaces.
Context `{NumpyOk} {A : Type} `{EqDecision A}.
Implicit Types (axes : list A) (kw : reorder_kwargs A).

(** A permutation of the positions reorders the axes without losing any. *)
Lemma ReorderEntity_apply_perm axes p :
  p ≡ₚ range 0 (zlen axes) →
  ∃ new, ReorderEntity_apply p axes = Ret new ∧ new ≡ₚ axes.
Proof.
  intros Hp. unfold ReorderEntity_apply. rewrite bool_decide_true.
  - apply (pymap_perm _ _ _ _ Hp), pymap_pynth_range.
  - apply Permutation_length in Hp. unfold zlen. rewrite Hp. unfold range.
    rewrite length_seqZ. unfold zlen. lia.
Qed.

(** With the policies [identity], [all] and [interval_all] (on an interval
    inside the axes) the space is built, every entity is a permutation of the
    axis positions and applying it yields a rearrangement of the axes; [all]
    contains each of the [n!] permutations. *)
Theorem ReorderSpace_permutes axes policy kw :
  policy ∈ ["identity"; "all"; "interval_all"] →
  (policy = "interval_all" →
     ∃ b e, kw_interval kw = Some (b, e) ∧ (0 ≤ b ≤ e ∧ e ≤ zlen axes)%Z) →
  ∃ sp, ReorderSpace_init axes policy kw = Ret sp ∧
    (∀ ent, ent ∈ sp_entities sp → ∃ p new, ent = ReorderEntity p ∧
       p ≡ₚ range 0 (zlen axes) ∧ ReorderEntity_apply p axes = Ret new ∧ new ≡ₚ axes) ∧
    (policy = "all" → space_len sp = Z.of_nat (fact (length axes)) ∧
       ∀ p, p ≡ₚ range 0 (zlen axes) → ReorderEntity p ∈ sp_entities sp).
Proof.
  intros Hpol Hint.
  assert (∀ p, p ≡ₚ range 0 (zlen axes) →
    ∃ p' new, ReorderEntity p = ReorderEntity p' ∧ p' ≡ₚ range 0 (zlen axes) ∧
      ReorderEntity_apply p' axes = Ret new ∧ new ≡ₚ axes) as Happ.
  { intros p Hp. destruct (ReorderEntity_apply_perm axes p Hp) as (new & ? & ?). by exists p, new. }
  unfold ReorderSpace_init, reorder_entities.
  apply elem_of_cons in Hpol as [->|Hpol];
    [|apply elem_of_cons in Hpol as [->|Hpol];
      [|apply list_elem_of_singleton in Hpol as ->]]; simpl.
  - eexists. split; [done|]. split; [|done]. intros ent He.
    apply list_elem_of_singleton in He as ->. by apply Happ.
  - eexists. split; [done|]. simpl. split.
    + intros ent He. apply list_elem_of_fmap in He as (p & -> & Hp).
      apply Happ. by apply elem_of_permutations.
    + intros _. split.
      * unfold space_len, zlen. simpl. rewrite length_fmap, length_permutations.
        unfold range. rewrite length_seqZ. do 2 f_equal. lia.
      * intros p Hp. apply list_elem_of_fmap_2. by apply elem_of_permutations.
  - destruct (Hint eq_refl) as (b & e & -> & Hb & He). simpl.
    eexists. split; [done|]. split; [|done]. intros ent Hent. simpl in Hent.
    apply list_elem_of_fmap in Hent as (p & -> & Hp). apply elem_of_permutations in Hp.
    apply Happ. rewrite Hp, (range_app b e), (range_app 0 b) by lia. done.
Qed.

Lemma list_index_NoDup axes i x :
  NoDup axes → axes !! i = Some x → list_index axes x = Ret (Z.of_nat i).
Proof.
  intros Hnd Hi. unfold list_index.
  destruct (list_find (x =.) axes) as [[j y]|] eqn:E.
  - apply list_find_Some in E as (Hj & <- & _).
    by rewrite (NoDup_lookup axes i j x Hnd Hi Hj).
  - apply list_find_None in E. rewrite Forall_forall in E.
    exfalso. apply (E x); [|done]. by eapply list_elem_of_lookup_2.
Qed.

Lemma pymap_list_index_all axes :
  NoDup axes → pymap (list_index axes) axes = Ret (range 0 (zlen axes)).
Proof.
  intros Hnd. apply pymap_Ret, Forall2_same_length_lookup_2.
  - unfold range, zlen. rewrite length_seqZ. lia.
  - intros i x j Hx Hj. unfold range in Hj. apply lookup_seqZ in Hj as [-> _].
    by rewrite (list_index_NoDup axes i x), Z.add_0_l by done.
Qed.

Lemma list_index_elem axes x : x ∈ axes → ∃ j, list_index axes x = Ret j.
Proof.
  intros Hx. unfold list_index. destruct (list_find (x =.) axes) as [[j y]|] eqn:E; [eauto|].
  apply list_find_None in E. rewrite Forall_forall in E. exfalso. by apply (E x).
Qed.

Lemma pymap_list_index axes (c : list A) :
  (∀ x, x ∈ c → x ∈ axes) → ∃ r, pymap (list_index axes) c = Ret r.
Proof.
  intros Hin. induction c as [|x c IH]; [by exists []|].
  destruct IH as [r Hr]; [set_solver|].
  destruct (list_index_elem axes x) as [j Hj]; [set_solver|].
  exists (j :: r). simpl. rewrite Hj. simpl. by rewrite Hr.
Qed.

Lemma pymap_list_index_nested axes (chains : list (list A)) :
  (∀ c x, c ∈ chains → x ∈ c → x ∈ axes) →
  ∃ idx, pymap (pymap (list_index axes)) chains = Ret idx.
Proof.
  intros Hin. induction chains as [|c chains IH]; [by exists []|].
  destruct IH as [idx Hidx]; [set_solver|].
  destruct (pymap_list_index axes c) as [r Hr]; [set_solver|].
  exists (r :: idx). simpl. rewrite Hr. simpl. by rewrite Hidx.
Qed.

Lemma but_last_slice {B} (l : list B) : but_last l ++ last_slice l = l.
Proof. apply take_drop. Qed.

Lemma concat_but_last {B} (ls : list (list B)) :
  concat (but_last <$> ls) ++ concat (last_slice <$> ls) ≡ₚ concat ls.
Proof.
  induction ls as [|l ls IH]; csimpl; [done|].
  rewrite <-IH. rewrite <-(but_last_slice l) at 3. solve_Permutation.
Qed.

(** With the policy [interleave], when the spatial and reduction chains
    partition distinct axes, the space has a single entity and it is a
    permutation of all axis positions. *)
Theorem ReorderSpace_interleave axes kw spatial red :
  NoDup axes → kw_spatial kw = Some spatial → kw_reduce kw = Some red →
  concat spatial ++ concat red ≡ₚ axes →
  ∃ p, ReorderSpace_init axes "interleave" kw =
         Ret (mkSpace KReorder (zlen axes) [ReorderEntity p]) ∧
       p ≡ₚ range 0 (zlen axes).
Proof.
  intros Hnd Hsp Hre Hpart.
  destruct (pymap_list_index_nested axes spatial) as [sidx Hs].
  { intros c x Hc Hx. rewrite <-Hpart. apply elem_of_app. left. apply list_elem_of_concat. eauto. }
  destruct (pymap_list_index_nested axes red) as [ridx Hr].
  { intros c x Hc Hx. rewrite <-Hpart. apply elem_of_app. right. apply list_elem_of_concat. eauto. }
  unfold ReorderSpace_init, reorder_entities. rewrite Hsp, Hre. simpl. rewrite Hs, Hr. simpl.
  destruct (merge_chain_spec (but_last <$> sidx)) as (o & -> & Ho & _).
  destruct (merge_chain_spec ((last_slice <$> sidx) ++ ridx)) as (i & -> & Hi & _).
  simpl. exists (o ++ i). split; [done|].
  rewrite Ho, Hi, concat_app, (assoc_L (++)), concat_but_last.
  destruct (pymap_perm (list_index axes) _ _ _ Hpart (pymap_list_index_all axes Hnd))
    as (t & Ht & Hperm).
  rewrite <-Hperm.
  rewrite (pymap_app_Ret _ _ _ _ _ (pymap_concat _ _ _ Hs) (pymap_concat _ _ _ Hr)) in Ht.
  by injection Ht as <-.
Qed.
End ReorderSpaces.

(** ** Annotate spaces *)

Definition ann_out (t : list string) : list entity :=
  if bool_decide (count_vec t ≤ 1) then [AnnotateEntity (AnnStr <$> t)] else [].

Lemma annotate_generate_spec anns rem : ∀ p rest ents,
  length rest = rem →
  ∃ rest', length rest' = rem ∧
    annotate_generate_space anns rem (length p) (p ++ rest, ents) =
    (Ret tt, (p ++ rest', ents ++ concat ((λ t, ann_out (p ++ t)) <$> tuples anns rem))).
Proof.
  induction rem as [|rem IH]; intros p rest ents Hlen.
  - exists []. destruct rest; [|done]. split; [done|]. simpl. rewrite !app_nil_r.
    unfold sbind, sget, ann_out. destruct (bool_decide _); [done|]. by rewrite app_nil_r.
  - set (out := λ f, concat ((λ t, ann_out (p ++ f :: t)) <$> tuples anns rem)).
    cbn [annotate_generate_space].
    match goal with |- context [sfor ?l ?body ?s0] =>
      destruct (sfor_inv body (λ done st, ∃ rest', length rest' = S rem ∧
         st = (p ++ rest', ents ++ concat (out <$> done))) l s0)
        as (st & Hrun & rest' & Hr' & ->) end.
    + exists rest. split; [done|]. simpl. by rewrite app_nil_r.
    + intros done f rest0 st Hl (r & Hr & ->).
      destruct r as [|r0 r]; [done|]. injection Hr as Hr.
      unfold sbind, sget, sput.
      replace (<[length p:=f]> (p ++ r0 :: r)) with ((p ++ [f]) ++ r); last first.
      { rewrite <-app_assoc, insert_app_r_alt, Nat.sub_diag by lia. done. }
      destruct (IH (p ++ [f]) r (ents ++ concat (out <$> done)) Hr) as (r' & Hr' & Hrun).
      rewrite length_app in Hrun; simpl in Hrun; rewrite Nat.add_1_r in Hrun.
      eexists. split; [exact Hrun|]. exists (f :: r'). split; [simpl; lia|].
      rewrite <-!app_assoc. simpl. do 2 f_equal.
      rewrite concat_fmap_snoc. f_equal. unfold out.
      f_equal. apply list_fmap_ext. intros ? t _. by rewrite <-app_assoc.
    + exists rest'. split; [done|]. rewrite Hrun. do 3 f_equal.
      cbn [tuples]. rewrite concat_fmap_concat, <-list_fmap_compose. f_equal.
      apply list_fmap_ext. intros ? f _. unfold out; simpl.
      by rewrite <-list_fmap_compose.
Qed.

Definition gpu_policies : list string := ["bind_gpu"; "bind_gpu_virtual"; "locate_cache"].

Lemma annotate_try_entities n policy anchor e :
  (0 ≤ n)%Z → policy ∉ gpu_policies →
  Forall (.∈ ["none"; "unroll"; "vec"]) (policy_anns policy) →
  ∃ ents, annotate_entities n policy anchor = Ret ents ∧
    (e ∈ ents ↔ ∃ t, e = AnnotateEntity (AnnStr <$> t) ∧ zlen t = n ∧
       Forall (.∈ policy_anns policy) t ∧ count_vec t ≤ 1).
Proof.
  intros Hn Hpol Hall. unfold annotate_entities.
  do 3 (rewrite decide_False by (intros ->; apply Hpol; set_solver)).
  rewrite bool_decide_true by done.
  destruct (annotate_generate_spec (policy_anns policy) (Z.to_nat n) []
    (replicate (Z.to_nat n) "") [] (length_replicate _ _)) as (rest & _ & Hrun).
  simpl in Hrun. rewrite Hrun. eexists. split; [done|].
  rewrite list_elem_of_concat. split.
  - intros (l & He & Hl). apply list_elem_of_fmap in Hl as (t & -> & Ht).
    apply elem_of_tuples in Ht as [Hlen Ht]. unfold ann_out in He.
    case_bool_decide; [|set_solver]. apply list_elem_of_singleton in He as ->.
    exists t. split; [done|]. split; [unfold zlen; lia|]. done.
  - intros (t & -> & Hlen & Ht & Hv). exists (ann_out t). split.
    + unfold ann_out. rewrite bool_decide_true by done. set_solver.
    + apply list_elem_of_fmap. exists t. split; [done|]. apply elem_of_tuples.
      split; [unfold zlen in Hlen; lia|done].
Qed.

(** For a policy made of [none], [unroll], [vec] and [try] the annotate
    space holds exactly the assignments of one allowed annotation to each axis
    with at most one vectorised axis. *)
Theorem AnnotateSpace_spec n policy anchor :
  (0 ≤ n)%Z → policy ∉ gpu_policies →
  Forall (.∈ ["none"; "unroll"; "vec"]) (policy_anns policy) →
  ∃ sp, AnnotateSpace_init n policy anchor = Ret sp ∧
    ∀ e, e ∈ sp_entities sp ↔ ∃ t, e = AnnotateEntity (AnnStr <$> t) ∧ zlen t = n ∧
       Forall (.∈ policy_anns policy) t ∧ count_vec t ≤ 1.
Proof.
  intros Hn Hpol Hall.
  assert (∃ ents, annotate_entities n policy anchor = Ret ents) as [ents Hents].
  { destruct (annotate_try_entities n policy anchor (OtherOptionEntity VNone) Hn Hpol Hall)
      as (ents & ? & _). eauto. }
  exists (mkSpace KAnnotate n ents). unfold AnnotateSpace_init. rewrite Hents. split; [done|].
  intros e. destruct (annotate_try_entities n policy anchor e Hn Hpol Hall) as (ents' & He & Hiff).
  rewrite Hents in He. injection He as <-. exact Hiff.
Qed.

(** What makes an annotation list safe to apply: known names, and [fuse] only
    where there is a next axis to fuse into. *)
Definition ann_safe (anns : list annval) : Prop :=
  ∀ i a, anns !! i = Some a → ∃ s, a = AnnStr s ∧
    (s ∈ ["none"; "unroll"; "vec"] ++ thread_anns ∨ (s = "fuse" ∧ S i < length anns)).

Section ApplySafe.
Context {Ax T : Type} (fuse : Ax → Ax → Ax).

Lemma annotate_step_safe axis_lens i s (st : apply_state Ax T) :
  s ∈ ["none"; "unroll"; "vec"] ++ thread_anns ∨ (s = "fuse" ∧ S i < length (ap_axes st)) →
  i < length (ap_axes st) →
  ∃ st', annotate_step fuse true axis_lens None None i (AnnStr s) st = (Ret tt, st') ∧
         length (ap_axes st') = length (ap_axes st).
Proof.
  intros Hs Hi. unfold annotate_step.
  destruct (pynth_in_range (ap_axes st) (Z.of_nat i)) as (a & Ha & _); [unfold zlen; lia|].
  case_decide; [by exists st|].
  case_decide; [eexists; unfold sbind, sget, slift, sret, emit; rewrite Ha; done|].
  case_decide; [eexists; unfold sbind, sget, slift, sret, emit; rewrite Ha; done|].
  case_bool_decide; [eexists; unfold sbind, sget, slift, sret, emit; rewrite Ha; done|].
  destruct Hs as [Hs|[-> Hlt]]; [exfalso; set_solver|].
  rewrite decide_True by done.
  destruct (pynth_in_range (ap_axes st) (Z.of_nat (S i))) as (b & Hb & _); [unfold zlen; lia|].
  unfold sbind, sget, slift, sput, emit, pyassert.
  rewrite bool_decide_true by (unfold zlen; lia). rewrite Ha, Hb.
  eexists. split; [done|]. simpl. by rewrite length_insert.
Qed.

Lemma AnnotateEntity_apply_safe anns axis_lens (st : apply_state Ax T) :
  ann_safe anns → length (ap_axes st) = length anns →
  ∃ st', AnnotateEntity_apply fuse anns true axis_lens None None None st = (Ret tt, st') ∧
         length (ap_axes st') = length anns.
Proof.
  intros Hsafe Hlen. unfold AnnotateEntity_apply.
  match goal with |- context [sfor ?l ?body ?s0] =>
    destruct (sfor_inv body (λ _ st, length (ap_axes st) = length anns) l s0)
      as (st' & Hrun & Hl) end; [done| |by exists st'].
  intros done [i a] rest st1 Heq Hst1.
  assert ((i, a) ∈ zip (seq 0 (length anns)) anns) as Hin by (rewrite Heq; set_solver).
  apply list_elem_of_lookup_1 in Hin as [j Hj].
  apply lookup_zip_Some in Hj as [Hj1 Hj2]. apply lookup_seq in Hj1 as [-> Hj1]. simpl.
  destruct (Hsafe j a Hj2) as (s & -> & Hs).
  destruct (annotate_step_safe axis_lens j s st1) as (st2 & Hrun & Hl2).
  - rewrite Hst1. done.
  - lia.
  - exists st2. split; [exact Hrun|]. by rewrite Hl2.
Qed.
End ApplySafe.

Lemma fuse_prefix_safe n tail :
  (0 ≤ n)%Z → tail ≠ [] → Forall (.∈ thread_anns) tail →
  ann_safe (fuse_prefix n tail) ∧ zlen (fuse_prefix n tail) = (n + zlen tail)%Z.
Proof.
  intros Hn Hne Hall.
  assert (length (fuse_prefix n tail) = Z.to_nat n + length tail) as Hlen.
  { unfold fuse_prefix. by rewrite length_fmap, length_app, length_replicate. }
  split; [|unfold zlen; lia].
  intros i a Hi. rewrite Hlen. unfold fuse_prefix in Hi. rewrite list_lookup_fmap in Hi.
  apply fmap_Some in Hi as (s & Hs & ->). exists s. split; [done|].
  apply lookup_app_Some in Hs as [Hs|[Hge Hs]].
  - apply lookup_replicate in Hs as [-> Hlt]. right. split; [done|].
    destruct tail; [done|]. simpl. lia.
  - left. apply elem_of_app. right. rewrite Forall_forall in Hall. apply Hall.
    by eapply list_elem_of_lookup_2.
Qed.

Lemma bind_gpu_safe n :
  (2 ≤ n)%Z → ∃ anns, bind_gpu n = Ret anns ∧ ann_safe anns ∧ zlen anns = n.
Proof.
  intros Hn. unfold bind_gpu.
  destruct (Z.leb_spec 6 n); [|destruct (Z.leb_spec 4 n); [|destruct (Z.leb_spec 2 n); [|lia]]];
    (eexists; split; [done|]);
    (match goal with |- context [fuse_prefix ?k ?tl] =>
       destruct (fuse_prefix_safe k tl) as [Hsafe Hlen];
         [lia|done|apply (bool_decide_unpack _); vm_compute; done|] end);
    (split; [exact Hsafe|rewrite Hlen; unfold zlen; simpl; lia]).
Qed.

(** [bind_gpu] needs at least two axes; with them it annotates every axis,
    and applying the annotation to that many axes never raises, so fusing and
    thread binding always find the axes they name. *)
Theorem bind_gpu_applies {Ax T} (fuse : Ax → Ax → Ax) n axis_lens (st : apply_state Ax T) :
  zlen (ap_axes st) = n →
  ((n < 2)%Z → bind_gpu n = Raise RuntimeError) ∧
  ((2 ≤ n)%Z → ∃ anns st', bind_gpu n = Ret anns ∧ zlen anns = n ∧
     AnnotateEntity_apply fuse anns true axis_lens None None None st = (Ret tt, st') ∧
     zlen (ap_axes st') = n).
Proof.
  intros Hlen. split.
  - intros Hn. unfold bind_gpu.
    destruct (Z.leb_spec 6 n), (Z.leb_spec 4 n), (Z.leb_spec 2 n); by try lia.
  - intros Hn. destruct (bind_gpu_safe n Hn) as (anns & Hb & Hsafe & Hl).
    destruct (AnnotateEntity_apply_safe fuse anns axis_lens st Hsafe) as (st' & Hrun & Hl').
    { unfold zlen in *. lia. }
    exists anns, st'. unfold zlen in *. repeat split; try done. lia.
Qed.
