(* ===== verification/ConfigSpace.v ===== *)
(** * Configuration spaces of [autotvm.task.space]

    [ConfigSpace] with its caches, index arithmetic, random access and knob
    declarations, [ConfigEntity] with its JSON form, and the in-place fallback
    of [FallbackConfigEntity].
    Source: src/python/tvm/autotvm/task/space.py, lines 659-1448. *)

From S2P Require Import Prelude PyFloat Transforms.

(** ** State *)

(** What [_entity_map] holds: the object [space[idx]] of a declared space,
    shared with that space's entity list, or an entity of its own. *)
Inductive entref :=
  | FromSpace (name : string) (idx : nat)
  | Own (e : entity).

Abbreviation entities := (list (string * entity)).

(** The fields of [ConfigSpace]. *)
Record ConfigSpace := mkCS {
  space_map : list (string * space);
  cs_collect : bool;
  cs_length : option Z;
  cs_range_length : option Z;
  cs_dims : option (list Z);
  cs_entity_map : list (string * entref);
  cs_errors : list string;
  cs_code_hash : option string;
  cs_flop : flt;
  cs_is_fallback : bool;
  cs_shared_filter : option (entities → bool);
  cs_filter_cache : option (list bool)
}.

(** [ConfigSpace.__init__]. *)
Definition ConfigSpace_init : ConfigSpace :=
  mkCS [] true None None None [] [] None f0 false None None.

(** [FallbackConfigEntity.__init__]. *)
Definition FallbackConfigEntity_init : ConfigSpace :=
  mkCS [] true None None None [] [] None f0 true None None.

Definition set_spaces (sm : list (string * space)) (em : list (string * entref)) (cs : ConfigSpace) :=
  mkCS sm (cs_collect cs) (cs_length cs) (cs_range_length cs) (cs_dims cs) em (cs_errors cs)
    (cs_code_hash cs) (cs_flop cs) (cs_is_fallback cs) (cs_shared_filter cs) (cs_filter_cache cs).

Definition set_caches (len rl : option Z) (dims : option (list Z)) (fc : option (list bool))
    (cs : ConfigSpace) :=
  mkCS (space_map cs) (cs_collect cs) len rl dims (cs_entity_map cs) (cs_errors cs)
    (cs_code_hash cs) (cs_flop cs) (cs_is_fallback cs) (cs_shared_filter cs) fc.

Definition set_filter (f : option (entities → bool)) (cs : ConfigSpace) :=
  mkCS (space_map cs) (cs_collect cs) (cs_length cs) (cs_range_length cs) (cs_dims cs)
    (cs_entity_map cs) (cs_errors cs) (cs_code_hash cs) (cs_flop cs) (cs_is_fallback cs) f
    (cs_filter_cache cs).

(** [add_flop], on a flop count already converted to [float]. *)
Definition add_flop (flop : flt) (cs : ConfigSpace) : ConfigSpace :=
  mkCS (space_map cs) (cs_collect cs) (cs_length cs) (cs_range_length cs) (cs_dims cs)
    (cs_entity_map cs) (cs_errors cs) (cs_code_hash cs) (fadd (cs_flop cs) flop)
    (cs_is_fallback cs) (cs_shared_filter cs) (cs_filter_cache cs).

(** [raise_error]. *)
Definition raise_error (msg : string) (cs : ConfigSpace) : ConfigSpace :=
  mkCS (space_map cs) (cs_collect cs) (cs_length cs) (cs_range_length cs) (cs_dims cs)
    (cs_entity_map cs) (cs_errors cs ++ [msg]) (cs_code_hash cs) (cs_flop cs)
    (cs_is_fallback cs) (cs_shared_filter cs) (cs_filter_cache cs).

(** [valid]. *)
Definition valid (cs : ConfigSpace) : bool :=
  match cs_errors cs with [] => true | _ => false end.

(** [clear_cache]. *)
Definition clear_cache (cs : ConfigSpace) : ConfigSpace := set_caches None None None None cs.

(** [multi_filter]. *)
Definition multi_filter (filter : entities → bool) (cs : ConfigSpace) : ConfigSpace :=
  if cs_collect cs then set_filter (Some filter) (clear_cache cs) else cs.

(** Python's [o or d] on an optional int. *)
Definition int_or (o : option Z) (d : Z) : Z :=
  match o with None => d | Some z => if decide (z = 0)%Z then d else z end.

(** ** Sizes and the filter cache *)

Section Ops.
Context `{Numpy}.

(** The lengths of the knob spaces, in declaration order. *)
Definition space_lens (cs : ConfigSpace) : list Z := space_len <$> od_vals (space_map cs).

(** The [range_length] property, which caches its value. *)
Definition range_length : ST ConfigSpace Z := λ cs,
  match cs_range_length cs with
  | Some r => (Ret r, cs)
  | None =>
      let r := np_prod (space_lens cs) in
      (Ret r, set_caches (cs_length cs) (Some r) (cs_dims cs) (cs_filter_cache cs) cs)
  end.

(** The [dims] property, which caches its value. *)
Definition dims : ST ConfigSpace (list Z) := λ cs,
  match cs_dims cs with
  | Some d => (Ret d, cs)
  | None =>
      let d := space_lens cs in
      (Ret d, set_caches (cs_length cs) (cs_range_length cs) (Some d) (cs_filter_cache cs) cs)
  end.

(** The mixed-radix decoding of an index into one entity per knob. *)
Fixpoint decode_entities (sm : list (string * space)) (t : Z) : py entities :=
  match sm with
  | [] => Ret []
  | (name, sp) :: sm' =>
      let? i := pymod t (space_len sp) in
      let? e := space_getitem sp i in
      let? t' := pydiv t (space_len sp) in
      let? es := decode_entities sm' t' in
      Ret ((name, e) :: es)
  end.

(** [_make_shared_filter_cache]. *)
Definition make_shared_filter_cache : ST ConfigSpace unit :=
  let! cs := sget in
  match cs_shared_filter cs with
  | None => sraise TypeError
  | Some f =>
      let! r := range_length in
      let! cache := slift (pymap (λ i, let? es := decode_entities (space_map cs) i in Ret (f es))
                                 (range 0 r)) in
      let! cs := sget in
      sput (set_caches (Some (Z.of_nat (length (filter (λ b, b = true) cache))))
                       (cs_range_length cs) (cs_dims cs) (Some cache) cs)
  end.

(** The cache, made on first use. *)
Definition ensure_filter_cache : ST ConfigSpace (list bool) :=
  let! cs := sget in
  let! _ := match cs_filter_cache cs with None => make_shared_filter_cache | Some _ => sret tt end in
  let! cs := sget in
  sret (default [] (cs_filter_cache cs)).

(** [is_index_valid]. *)
Definition is_index_valid (index : Z) : ST ConfigSpace bool :=
  let! r := range_length in
  let! _ := slift (pyassert (bool_decide (0 ≤ index < r)%Z)) in
  let! cs := sget in
  match cs_shared_filter cs with
  | None => sret true
  | Some _ => let! cache := ensure_filter_cache in slift (pynth cache index)
  end.

(** [subrange_length]. *)
Definition subrange_length (start stop : Z) : ST ConfigSpace Z :=
  let! r := range_length in
  let! _ := slift (pyassert (bool_decide (0 ≤ start ≤ stop ∧ stop ≤ r)%Z)) in
  let! cs := sget in
  match cs_shared_filter cs with
  | None => sret (stop - start)%Z
  | Some _ =>
      let! cache := ensure_filter_cache in
      sret (Z.of_nat (length (filter (λ b, b = true)
        (take (Z.to_nat (stop - start)) (drop (Z.to_nat start) cache)))))
  end.

(** [__len__]. *)
Definition cs_len : ST ConfigSpace Z :=
  let! cs := sget in
  match cs_shared_filter cs with
  | None => range_length
  | Some _ =>
      let! _ := match cs_filter_cache cs with
                | None => make_shared_filter_cache
                | Some _ => sret tt
                end in
      let! cs := sget in
      match cs_length cs with Some n => sret n | None => sraise TypeError end
  end.

(** ** Random and sequential access *)

(** [randrange(start, stop)] on a raw draw; an empty range is a [ValueError]. *)
Definition randrange (start stop draw : Z) : py Z :=
  if bool_decide (start < stop)%Z then Ret (start + draw `mod` (stop - start))%Z
  else Raise ValueError.

(** [get_rand_index] over a sequence of raw draws; [None] means that the loop
    is still running when the draws are used up. *)
Fixpoint rand_loop (start stop : Z) (to_exclude : list Z) (draws : list Z) :
    ST ConfigSpace (option Z) :=
  match draws with
  | [] => sret None
  | d :: draws' =>
      let! index := slift (randrange start stop d) in
      let! ok := is_index_valid index in
      if ok && negb (bool_decide (index ∈ to_exclude)) then sret (Some index)
      else rand_loop start stop to_exclude draws'
  end.

Definition get_rand_index (start stop : option Z) (to_exclude : list Z) (draws : list Z) :
    ST ConfigSpace (option Z) :=
  let! r := range_length in
  rand_loop (int_or start 0) (int_or stop r) to_exclude draws.

(** The loop of [get_next_index]; the index leaves [start, stop) after at most
    [stop - start] steps, which bounds the fuel. *)
Fixpoint next_loop (fuel : nat) (trend start stop : Z) (counter : nat) (index : Z) :
    ST ConfigSpace (option Z) :=
  match counter with
  | O => sret (Some index)
  | S counter' =>
      match fuel with
      | O => sraise RecursionError
      | S fuel' =>
          let index := (index + trend)%Z in
          if bool_decide (index < start ∨ stop ≤ index)%Z then sret None else
          let! ok := is_index_valid index in
          next_loop fuel' trend start stop (if ok then counter' else counter) index
      end
  end.

(** [get_next_index]. *)
Definition get_next_index (index n : Z) (start stop : option Z) : ST ConfigSpace (option Z) :=
  let! _ := slift (pyassert (negb (n =? 0)%Z)) in
  let! r := range_length in
  let start := int_or start 0 in
  let stop := int_or stop r in
  let! cs := sget in
  match cs_shared_filter cs with
  | None =>
      let index := (index + n)%Z in
      sret (if bool_decide (start ≤ index < stop)%Z then Some index else None)
  | Some _ =>
      next_loop (S (Z.to_nat (stop - start))) (if (0 <? n)%Z then 1 else -1)%Z start stop
        (Z.to_nat (Z.abs n)) index
  end.

(** ** Points and knobs *)

Fixpoint point2knob_go (ds : list Z) (point : Z) : py (list Z) :=
  match ds with
  | [] => Ret []
  | d :: ds' =>
      let? k := pymod point d in
      let? point' := pydiv point d in
      let? ks := point2knob_go ds' point' in
      Ret (k :: ks)
  end.

(** [point2knob]. *)
Definition point2knob (point : Z) : ST ConfigSpace (list Z) :=
  let! ds := dims in slift (point2knob_go ds point).

Definition knob2point_go (ds : list Z) (knob : list Z) : Z :=
  foldl (λ point '(j, k), (point + np_prod (take j ds) * k)%Z) 0%Z (zip (seq 0 (length knob)) knob).

(** [knob2point]. *)
Definition knob2point (knob : list Z) : ST ConfigSpace Z :=
  let! ds := dims in sret (knob2point_go ds knob).

(** [sample_ints] over raw draws: the set [vis] in insertion order. *)
Fixpoint sample_loop (m : Z) (vis draws : list Z) : ST ConfigSpace (option (list Z)) :=
  if bool_decide (zlen vis < m)%Z then
    match draws with
    | [] => sret None
    | d :: draws' =>
        let! r := range_length in
        let! new := slift (randrange 0 r d) in
        let! ok := is_index_valid new in
        sample_loop m (if ok && negb (bool_decide (new ∈ vis)) then vis ++ [new] else vis) draws'
    end
  else sret (Some vis).

Definition sample_ints (m : Z) (draws : list Z) : ST ConfigSpace (option (list Z)) :=
  let! n := cs_len in
  let! _ := slift (pyassert (bool_decide (m ≤ n)%Z)) in
  sample_loop m [] draws.

(** [random_walk]: each draw is a pair for the mutated position and its value. *)
Fixpoint walk_loop (ds old_knob new_knob : list Z) (draws : list (Z * Z)) :
    ST ConfigSpace (option Z) :=
  let new_point := knob2point_go ds new_knob in
  let! again :=
    if bool_decide (new_knob = old_knob) then sret true
    else let! ok := is_index_valid new_point in sret (negb ok) in
  if again then
    match draws with
    | [] => sret None
    | (d1, d2) :: draws' =>
        let! from_i := slift (randrange 0 (zlen old_knob) d1) in
        let! dim := slift (pynth ds from_i) in
        let! to_v := slift (randrange 0 dim d2) in
        let! new_knob' := slift (pyset new_knob from_i to_v) in
        walk_loop ds old_knob new_knob' draws'
    end
  else sret (Some new_point).

Definition random_walk (point : Z) (draws : list (Z * Z)) : ST ConfigSpace (option Z) :=
  let! old_knob := point2knob point in
  let! ds := dims in
  walk_loop ds old_knob old_knob draws.

(** ** Configurations *)

Record ConfigEntity := mkCE {
  ce_index : Z;
  ce_code_hash : option string;
  ce_entities : entities
}.

(** [get]. *)
Definition cs_get (index : Z) : ST ConfigSpace ConfigEntity :=
  let! r := range_length in
  if bool_decide (index < 0 ∨ r ≤ index)%Z then sraise IndexError else
  let! ok := is_index_valid index in
  if negb ok then sraise IndexError else
  let! cs := sget in
  let! es := slift (decode_entities (space_map cs) index) in
  sret (mkCE index (cs_code_hash cs) es).
End Ops.

(** ** Declaring knobs *)

(** The namedtuple [Axis(space, index)]; a declared space is named by its knob. *)
Record axis_ref := mkAxis { ax_space : option string; ax_index : Z }.

#[global] Instance axis_ref_eq_dec : EqDecision axis_ref.
Proof. solve_decision. Defined.

(** [_add_new_transform].  [mk] builds the space, [num_output] is the static
    [space_class.get_num_output]. *)
Definition add_new_transform (has_filter : bool) (name : string) (mk : py space)
    (num_output : py Z) : ST ConfigSpace (list axis_ref) :=
  let! cs := sget in
  let! _ := if has_filter then sput (clear_cache cs) else sret tt in
  let! cs := sget in
  if cs_collect cs && negb (cs_is_fallback cs && od_mem (cs_entity_map cs) name) then
    let! sp := slift mk in
    let! _ := sput (set_spaces (od_set (space_map cs) name sp) (cs_entity_map cs) cs) in
    let! _ := slift (space_getitem sp 0) in
    let! cs := sget in
    let! _ := sput (set_spaces (space_map cs)
                      (od_set (cs_entity_map cs) name (FromSpace name 0)) cs) in
    sret (mkAxis (Some name) <$> range 0 (sp_num_output sp))
  else
    let! n := slift num_output in
    sret (mkAxis None <$> range 0 n).

(** The length of the axis given to [define_split]: an [Axis] has none. *)
Definition split_axis_length (axis : VirtualAxis.arg + axis_ref) : py Z :=
  match axis with
  | inl (VirtualAxis.AVirtual v) => Ret (VirtualAxis.length v)
  | inl var => let? v := (VirtualAxis.init var None 0%Z).1 in Ret (VirtualAxis.length v)
  | inr _ => Raise AttributeError
  end.

(** [define_split]. *)
Definition define_split (set_order : list Z → list Z) (name : string)
    (axis : VirtualAxis.arg + axis_ref) (policy : string) (kw : split_kwargs) :
    ST ConfigSpace (list axis_ref) :=
  add_new_transform (match kw_filter kw with Some _ => true | None => false end) name
    (let? len := split_axis_length axis in SplitSpace_init set_order len policy kw)
    (kwarg (kw_num_outputs kw)).

(** [define_reorder]. *)
Definition define_reorder `{Numpy} (name : string) (axes : list axis_ref) (policy : string)
    (kw : reorder_kwargs axis_ref) : ST ConfigSpace (list axis_ref) :=
  add_new_transform false name (ReorderSpace_init axes policy kw) (Ret (zlen axes)).

(** [define_annotate]. *)
Definition define_annotate (name : string) (axes : list axis_ref) (policy : string)
    (num_anchor : option Z) : ST ConfigSpace (list axis_ref) :=
  add_new_transform false name (AnnotateSpace_init (zlen axes) policy num_anchor) (Ret (zlen axes)).

(** [define_knob]. *)
Definition define_knob (name : string) (candidate : list optval) : ST ConfigSpace (list axis_ref) :=
  add_new_transform false name (Ret (OtherOptionSpace_init candidate)) (Ret 0%Z).

(** Following a reference of [_entity_map]. *)
Definition deref (cs : ConfigSpace) (r : entref) : py entity :=
  match r with
  | Own e => Ret e
  | FromSpace name idx =>
      match od_get (space_map cs) name with
      | None => Raise KeyError
      | Some sp => space_getitem sp (Z.of_nat idx)
      end
  end.

(** [ConfigSpace.__getitem__]. *)
Definition cs_getitem (name : string) (cs : ConfigSpace) : py entity :=
  match od_get (cs_entity_map cs) name with None => Raise KeyError | Some r => deref cs r end.

(** [FallbackConfigEntity.__setitem__]. *)
Definition cs_setitem (name : string) (e : entity) (cs : ConfigSpace) : ConfigSpace :=
  set_spaces (space_map cs) (od_set (cs_entity_map cs) name (Own e)) cs.

(** ** The JSON form of a configuration *)

(** The third component of a serialised knob. *)
Inductive knob_args :=
  | ArgInts (l : list Z)
  | ArgAnns (l : list annval)
  | ArgVal (v : optval).

Record json_dict := mkJson {
  js_index : Z;
  js_code_hash : option string;
  js_entity : list (string * string * knob_args)
}.

Definition entity_to_json (k : string) (v : entity) : string * string * knob_args :=
  match v with
  | SplitEntity size => (k, "sp", ArgInts size)
  | ReorderEntity perm => (k, "re", ArgInts perm)
  | AnnotateEntity anns => (k, "an", ArgAnns anns)
  | OtherOptionEntity val => (k, "ot", ArgVal val)
  end.

(** [ConfigEntity.to_json_dict]. *)
Definition to_json_dict (c : ConfigEntity) : json_dict :=
  mkJson (ce_index c) (ce_code_hash c) ((λ '(k, v), entity_to_json k v) <$> ce_entities c).

(** The entity a knob row denotes.  A row whose arguments do not have the
    shape its type writes is rejected; Python would build an unusable entity. *)
Definition entity_of_json (knob_type : string) (args : knob_args) : py entity :=
  if decide (knob_type = "sp") then
    match args with ArgInts l => Ret (SplitEntity l) | _ => Raise TypeError end
  else if decide (knob_type = "re") then
    match args with ArgInts l => Ret (ReorderEntity l) | _ => Raise TypeError end
  else if decide (knob_type = "an") then
    match args with ArgAnns l => Ret (AnnotateEntity l) | _ => Raise TypeError end
  else if decide (knob_type = "ot") then
    match args with ArgVal v => Ret (OtherOptionEntity v) | _ => Raise TypeError end
  else Raise RuntimeError.

Fixpoint entities_of_json (rows : list (string * string * knob_args)) (acc : entities) : py entities :=
  match rows with
  | [] => Ret acc
  | (key, knob_type, args) :: rows' =>
      let? e := entity_of_json knob_type args in
      entities_of_json rows' (od_set acc key e)
  end.

(** [ConfigEntity.from_json_dict]. *)
Definition from_json_dict (j : json_dict) : py ConfigEntity :=
  let? es := entities_of_json (js_entity j) [] in
  Ret (mkCE (js_index j) (js_code_hash j) es).

(** [_ann_to_number]. *)
Definition ann_to_number : list (string * nat) :=
  [("none", 0); ("vec", 1); ("unroll", 2); ("blockIdx.x", 3); ("blockIdx.y", 4);
   ("blockIdx.z", 5); ("threadIdx.x", 6); ("threadIdx.y", 7); ("threadIdx.z", 8);
   ("vthread", 9); ("fuse", 10)].

(** An element of the feature vector before its conversion to float32. *)
Definition one_hot (ann : annval) : py (list optval) :=
  match ann with
  | AnnInt _ => Raise KeyError
  | AnnStr s =>
      match od_get ann_to_number s with
      | None => Raise KeyError
      | Some i => Ret (<[i := VInt 1]> (replicate (length ann_to_number) (VInt 0)))
      end
  end.

Definition entity_feature (v : entity) : py (list optval) :=
  match v with
  | SplitEntity size => Ret (VInt <$> size)
  | ReorderEntity perm => Ret (VInt <$> perm)
  | AnnotateEntity anns => let? fs := pymap one_hot anns in Ret (concat fs)
  | OtherOptionEntity val => Ret [val]
  end.

(** [ConfigEntity.get_flatten_feature]. *)
Definition get_flatten_feature (c : ConfigEntity) : py (list optval) :=
  let? fs := pymap entity_feature (od_vals (ce_entities c)) in Ret (concat fs).

(** [ConfigEntity.get_other_option]. *)
Definition get_other_option (c : ConfigEntity) : list (entity * optval) :=
  omap (λ v, match v with OtherOptionEntity val => Some (v, val) | _ => None end)
       (od_vals (ce_entities c)).

(** ** Fallback configurations *)

(** The position [find] computed by the inner loop of [fallback_split]. *)
Fixpoint find_factor (j last : Z) (factors : list Z) (constraint : Z) : Z :=
  match factors with
  | [] => last
  | f :: fs => if (constraint <? f)%Z then (j - 1)%Z else find_factor (j + 1) last fs constraint
  end.

(** [entity.size[i] = v] through the reference [r]: the object is the one the
    space lists, when it came from the space. *)
Definition write_size (name : string) (r : entref) (i v : Z) : ST ConfigSpace unit := λ cs,
  match deref cs r with
  | Raise e => (Raise e, cs)
  | Ret (SplitEntity size) =>
      match pyset size i v with
      | Raise e => (Raise e, cs)
      | Ret size' =>
          match r with
          | Own _ => (Ret tt, set_spaces (space_map cs)
                               (od_set (cs_entity_map cs) name (Own (SplitEntity size'))) cs)
          | FromSpace sname idx =>
              match od_get (space_map cs) sname with
              | None => (Raise KeyError, cs)
              | Some sp =>
                  (Ret tt, set_spaces
                    (od_set (space_map cs) sname
                      (mkSpace (sp_kind sp) (sp_num_output sp)
                               (<[idx := SplitEntity size']> (sp_entities sp))))
                    (cs_entity_map cs) cs)
              end
          end
      end
  | Ret _ => (Raise AttributeError, cs)
  end.

(** The loop of [fallback_split] over [reversed(range(num_output))]. *)
Fixpoint fallback_loop (name : string) (idxs : list Z) (constraints : list Z) (now : Z) :
    ST ConfigSpace unit :=
  match idxs with
  | [] => sret tt
  | i :: idxs' =>
      let! factors := slift (get_factors now) in
      let! c := slift (pynth constraints i) in
      let find := find_factor 0 (zlen factors - 1) factors c in
      if (0 <=? find)%Z then
        let! f := slift (pynth factors find) in
        let! cs := sget in
        let! r := slift (match od_get (cs_entity_map cs) name with
                         | Some r => Ret r | None => Raise KeyError end) in
        let! _ := write_size name r i f in
        let! now' := slift (pydiv now f) in
        fallback_loop name idxs' constraints now'
      else sraise RuntimeError
  end.

(** [fallback_split]; the constraint -1 becomes 1e10. *)
Definition fallback_split (name : string) (constraints : list Z) : ST ConfigSpace unit :=
  let! cs := sget in
  match od_get (space_map cs) name with
  | None => sraise KeyError
  | Some sp =>
      match sp_kind sp with
      | KSplit product =>
          let! _ := slift (pyassert (bool_decide (zlen constraints = sp_num_output sp))) in
          let constraints := (λ x, if (x =? -1)%Z then 10000000000%Z else x) <$> constraints in
          match od_get (cs_entity_map cs) name with
          | None => sraise KeyError
          | Some _ =>
              fallback_loop name (reverse (range 0 (sp_num_output sp))) constraints product
          end
      | _ => sraise AssertionError
      end
  end.

Definition is_split_space (sp : space) : bool :=
  match sp_kind sp with KSplit _ => true | _ => false end.

Definition config_size (config : entities) (knob : string) : py (list Z) :=
  match od_get config knob with
  | None => Raise KeyError
  | Some (SplitEntity size) => Ret size
  | Some _ => Raise AttributeError
  end.

Section Reference.
Context `{Numpy}.

(** One reference record: [match_score] over the split knobs, and the running
    best, which is updated inside the knob loop. *)
Fixpoint match_knobs (config : entities) (knobs : list (string * list Z)) (score : flt)
    (best : flt * option entities) : py (flt * option entities) :=
  match knobs with
  | [] => Ret best
  | (knob, factor_list) :: knobs' =>
      let? size := config_size config knob in
      let? factors := get_factors (np_prod size) in
      let common := zlen (filter (λ f, f ∈ factors) factor_list) in
      let? q := fdiv (f_of_Z common) (f_of_Z (zlen factor_list)) in
      let score := fadd score q in
      let best := if fltb best.1 score then (score, Some config) else best in
      match_knobs config knobs' score best
  end.

Fixpoint best_match (ref_log : list entities) (knobs : list (string * list Z))
    (best : flt * option entities) : py (flt * option entities) :=
  match ref_log with
  | [] => Ret best
  | config :: ref_log' =>
      let? best := match_knobs config knobs f0 best in
      best_match ref_log' knobs best
  end.

(** [fallback_with_reference_log], on the configs of the reference log. *)
Definition fallback_with_reference_log (ref_log : list entities) : ST ConfigSpace unit :=
  let! cs := sget in
  let split_knobs := filter (λ p, is_split_space p.2 = true) (space_map cs) in
  let! knobs := slift (pymap (λ '(knob, sp),
      match sp_kind sp with
      | KSplit product => let? fs := get_factors product in Ret (knob, fs)
      | _ => Raise AttributeError
      end) split_knobs) in
  let! best := slift (best_match ref_log knobs (f0, None)) in
  match best.2 with
  | None => sret tt
  | Some config =>
      let! _ := sfor (od_keys split_knobs) (λ knob,
        let! size := slift (config_size config knob) in
        let! constraint := slift (pyset size 0 (-1)%Z) in
        fallback_split knob constraint) in
      sfor (space_map cs) (λ '(knob, sp),
        if is_split_space sp then sret tt else
        let! e := slift (match od_get config knob with
                         | Some e => Ret e | None => Raise KeyError end) in
        let! cs := sget in
        sput (cs_setitem knob e cs))
  end.
End Reference.
