(* ===== verification/ConfigSpaceSpec.v ===== *)
(** * Correctness of configuration spaces

    The caches of [ConfigSpace] agree with the declared knobs (the invariant
    [cs_ok]); over it, every observer returns the value of a cache-free
    specification. *)

From S2P Require Import Prelude PyFloat Transforms ConfigSpace.

(** ** The cache-free specification *)

(** Number of index positions, entity chosen by an index, validity of an index. *)
Definition size_of (sm : list (string * space)) : Z := zprod (space_len <$> od_vals sm).

Fixpoint entities_at (sm : list (string * space)) (t : Z) : entities :=
  match sm with
  | [] => []
  | (name, sp) :: sm' =>
      let e := default (OtherOptionEntity VNone)
                 (sp_entities sp !! Z.to_nat (t `mod` space_len sp)) in
      (name, e) :: entities_at sm' (t `div` space_len sp)
  end.

Definition valid_at (cs : ConfigSpace) (i : Z) : bool :=
  match cs_shared_filter cs with
  | None => true
  | Some f => f (entities_at (space_map cs) i)
  end.

(** Every declared space has an entity, and the index range fits an int64. *)
Definition spaces_ok (sm : list (string * space)) : Prop :=
  NoDup (od_keys sm) ∧ Forall (λ p, (0 < space_len p.2)%Z) sm ∧ (size_of sm < 2 ^ 63)%Z.

Definition count_true (l : list bool) : Z := Z.of_nat (length (filter (λ b, b = true) l)).

Definition valid_table (cs : ConfigSpace) : list bool :=
  valid_at cs <$> range 0 (size_of (space_map cs)).

(** The invariant: a cached value is the value it caches. *)
Record cs_ok (cs : ConfigSpace) : Prop := {
  ok_spaces : spaces_ok (space_map cs);
  ok_range : ∀ r, cs_range_length cs = Some r → r = size_of (space_map cs);
  ok_dims : ∀ d, cs_dims cs = Some d → d = space_lens cs;
  ok_cache : ∀ c, cs_filter_cache cs = Some c →
    c = valid_table cs ∧ cs_length cs = Some (count_true c)
}.

(** [m] returns [a] on [cs], keeps the invariant and touches only caches. *)
Definition returns {A} (m : ST ConfigSpace A) (cs : ConfigSpace) (a : A) : Prop :=
  ∃ cs', m cs = (Ret a, cs') ∧ cs_ok cs' ∧ clear_cache cs' = clear_cache cs.

(** ** Decoding *)

Lemma size_of_cons name sp sm : size_of ((name, sp) :: sm) = (space_len sp * size_of sm)%Z.
Proof. done. Qed.

Lemma size_of_pos sm : Forall (λ p, (0 < space_len p.2)%Z) sm → (0 < size_of sm)%Z.
Proof.
  intros Hall. unfold size_of. apply zprod_pos.
  induction Hall as [|[n sp] sm Hp _ IH]; constructor; [done|exact IH].
Qed.

Lemma space_getitem_in sp i :
  (0 ≤ i < space_len sp)%Z →
  space_getitem sp i = Ret (default (OtherOptionEntity VNone) (sp_entities sp !! Z.to_nat i)).
Proof.
  intros Hi. unfold space_getitem.
  destruct (pynth_in_range (sp_entities sp) i Hi) as (x & -> & ->). done.
Qed.

Lemma decode_entities_at sm t :
  Forall (λ p, (0 < space_len p.2)%Z) sm →
  decode_entities sm t = Ret (entities_at sm t).
Proof.
  intros Hall. revert t. induction Hall as [|[name sp] sm Hp _ IH]; intros t; simpl; [done|].
  simpl in Hp. unfold pymod, pydiv. rewrite bool_decide_false by lia. simpl.
  rewrite space_getitem_in by (apply Z.mod_pos_bound; lia). simpl.
  by rewrite IH.
Qed.

Lemma same_core_fields cs cs' :
  clear_cache cs' = clear_cache cs →
  space_map cs' = space_map cs ∧ cs_shared_filter cs' = cs_shared_filter cs ∧
  cs_code_hash cs' = cs_code_hash cs ∧ cs_entity_map cs' = cs_entity_map cs.
Proof. intros Heq. by injection Heq. Qed.

Lemma valid_at_core cs cs' i :
  clear_cache cs' = clear_cache cs → valid_at cs' i = valid_at cs i.
Proof.
  intros Hc. apply same_core_fields in Hc as (H1 & H2 & _). unfold valid_at. by rewrite H1, H2.
Qed.

(** ** The rule for sequencing observers *)

Lemma returns_ret {A} cs (a : A) : cs_ok cs → returns (sret a) cs a.
Proof. intros Hok. by exists cs. Qed.

Lemma returns_lift {A} cs (a : A) m : cs_ok cs → m = Ret a → returns (slift m) cs a.
Proof. intros Hok ->. by exists cs. Qed.

Lemma returns_bind {A B} (m : ST ConfigSpace A) (k : A → ST ConfigSpace B) cs a b :
  returns m cs a →
  (∀ cs', cs_ok cs' → clear_cache cs' = clear_cache cs → returns (k a) cs' b) →
  returns (sbind m k) cs b.
Proof.
  intros (cs1 & Hm & Hok1 & Hc1) Hk. destruct (Hk cs1 Hok1 Hc1) as (cs2 & Hk2 & Hok2 & Hc2).
  exists cs2. unfold sbind. rewrite Hm. split; [done|]. split; [done|]. by rewrite Hc2.
Qed.

Lemma returns_get {B} (k : ConfigSpace → ST ConfigSpace B) cs b :
  returns (k cs) cs b → returns (sbind sget k) cs b.
Proof. by intros (cs' & ? & ? & ?); exists cs'. Qed.

Section Observers.
Context `{NumpyOk}.

Lemma np_prod_lens cs : cs_ok cs → np_prod (space_lens cs) = size_of (space_map cs).
Proof.
  intros Hok. destruct (ok_spaces cs Hok) as (_ & Hall & Hlt).
  unfold space_lens. pose proof (size_of_pos _ Hall). apply np_prod_small. unfold size_of in *. lia.
Qed.

Lemma range_length_returns cs : cs_ok cs → returns range_length cs (size_of (space_map cs)).
Proof.
  intros Hok. unfold returns, range_length.
  destruct (cs_range_length cs) as [r|] eqn:E.
  - exists cs. by rewrite <-(ok_range cs Hok r E).
  - eexists. rewrite (np_prod_lens cs Hok). split; [done|]. split; [|by destruct cs].
    destruct Hok as [H1 H2 H3 H4]. split; simpl; try done. by intros r [= <-].
Qed.

Lemma dims_returns cs : cs_ok cs → returns dims cs (space_lens cs).
Proof.
  intros Hok. unfold returns, dims. destruct (cs_dims cs) as [d|] eqn:E.
  - exists cs. by rewrite <-(ok_dims cs Hok d E).
  - eexists. split; [done|]. split; [|by destruct cs].
    destruct Hok as [H1 H2 H3 H4]. split; simpl; try done. by intros r [= <-].
Qed.

Lemma make_cache_returns cs f :
  cs_ok cs → cs_shared_filter cs = Some f →
  ∃ cs', make_shared_filter_cache cs = (Ret tt, cs') ∧ cs_ok cs' ∧
    clear_cache cs' = clear_cache cs ∧ cs_filter_cache cs' = Some (valid_table cs).
Proof.
  intros Hok Hf. unfold make_shared_filter_cache, sbind at 1, sget at 1. rewrite Hf.
  destruct (range_length_returns cs Hok) as (cs1 & Hr & Hok1 & Hc1).
  unfold sbind at 1. rewrite Hr.
  destruct (ok_spaces cs Hok) as (_ & Hall & _).
  rewrite (pymap_total _ (valid_at cs)); last first.
  { intros i _. rewrite decode_entities_at by done. simpl. unfold valid_at. by rewrite Hf. }
  unfold sbind, slift, sget, sput. eexists. split; [done|].
  destruct (same_core_fields _ _ Hc1) as (Hsm & Hf1 & _ & _).
  split; [|split; [by rewrite <-Hc1; destruct cs1|done]].
  destruct Hok1 as [H1 H2 H3 H4]. split; simpl; try done.
  intros c [= <-]. split; [|done]. unfold valid_table. simpl. rewrite Hsm.
  apply list_fmap_ext. intros _ i _. unfold valid_at. simpl. by rewrite Hf1, Hsm.
Qed.

Lemma ensure_cache_returns cs f :
  cs_ok cs → cs_shared_filter cs = Some f → returns ensure_filter_cache cs (valid_table cs).
Proof.
  intros Hok Hf. unfold ensure_filter_cache. apply returns_get.
  destruct (cs_filter_cache cs) as [c|] eqn:E.
  - exists cs. unfold sbind, sret, sget. rewrite E. simpl.
    by rewrite (proj1 (ok_cache cs Hok c E)).
  - destruct (make_cache_returns cs f Hok Hf) as (cs' & Hm & Hok' & Hc & Hcache).
    exists cs'. unfold sbind. rewrite Hm. unfold sget, sret. by rewrite Hcache.
Qed.

Lemma valid_table_lookup cs i :
  cs_ok cs → (0 ≤ i < size_of (space_map cs))%Z → pynth (valid_table cs) i = Ret (valid_at cs i).
Proof.
  intros Hok Hi. rewrite pynth_lookup by lia. unfold valid_table, range.
  rewrite list_lookup_fmap, lookup_seqZ_lt by lia. simpl. do 2 f_equal. lia.
Qed.

Lemma is_index_valid_returns cs i :
  cs_ok cs → (0 ≤ i < size_of (space_map cs))%Z → returns (is_index_valid i) cs (valid_at cs i).
Proof.
  intros Hok Hi. unfold is_index_valid.
  eapply returns_bind; [by apply range_length_returns|]. intros cs1 Hok1 Hc1.
  eapply returns_bind.
  { apply returns_lift; [done|]. unfold pyassert. by rewrite bool_decide_true. }
  intros cs2 Hok2 Hc2. apply returns_get. rewrite Hc1 in Hc2.
  destruct (same_core_fields _ _ Hc2) as (Hsm & Hf & _).
  rewrite <-(valid_at_core cs cs2) by done.
  destruct (cs_shared_filter cs2) as [f|] eqn:E.
  - eapply returns_bind; [by eapply ensure_cache_returns|]. intros cs3 Hok3 Hc3.
    apply returns_lift; [done|]. apply valid_table_lookup; [done|]. by rewrite Hsm.
  - unfold valid_at. rewrite E. by apply returns_ret.
Qed.

(** On a space whose caches are coherent, [is_index_valid] answers for
    every index of the range exactly whether the multi-filter accepts the
    entities that the index decodes to; it updates caches only and keeps them
    coherent. *)
Theorem is_index_valid_spec cs i :
  cs_ok cs → (0 ≤ i < size_of (space_map cs))%Z →
  ∃ cs', is_index_valid i cs = (Ret (valid_at cs i), cs') ∧ cs_ok cs' ∧
         clear_cache cs' = clear_cache cs.
Proof. apply is_index_valid_returns. Qed.

(** ** Counting valid indices *)

Definition count_valid (cs : ConfigSpace) (a b : Z) : Z :=
  count_true (valid_at cs <$> range a b).

Lemma count_true_all {A} (l : list A) : count_true ((λ _, true) <$> l) = zlen l.
Proof.
  unfold count_true, zlen. f_equal. induction l as [|x l IH]; [done|].
  rewrite fmap_cons, filter_cons_True by done. csimpl. by rewrite IH.
Qed.

Lemma count_valid_no_filter cs a b :
  cs_shared_filter cs = None → (a ≤ b)%Z → count_valid cs a b = (b - a)%Z.
Proof.
  intros Hf Hab. unfold count_valid, valid_at. rewrite Hf, count_true_all.
  unfold zlen. by apply length_range.
Qed.

Lemma count_valid_core cs cs' a b :
  clear_cache cs' = clear_cache cs → count_valid cs' a b = count_valid cs a b.
Proof.
  intros Hc. unfold count_valid. f_equal. apply list_fmap_ext. intros _ i _.
  by apply valid_at_core.
Qed.

Lemma subrange_length_returns cs a b :
  cs_ok cs → (0 ≤ a ≤ b ∧ b ≤ size_of (space_map cs))%Z →
  returns (subrange_length a b) cs (count_valid cs a b).
Proof.
  intros Hok Hab. unfold subrange_length.
  eapply returns_bind; [by apply range_length_returns|]. intros cs1 Hok1 Hc1.
  eapply returns_bind.
  { apply returns_lift; [done|]. unfold pyassert. by rewrite bool_decide_true. }
  intros cs2 Hok2 Hc2. apply returns_get. rewrite Hc1 in Hc2.
  destruct (same_core_fields _ _ Hc2) as (Hsm & Hf & _).
  rewrite <-(count_valid_core cs cs2) by done.
  destruct (cs_shared_filter cs2) as [f|] eqn:E.
  - eapply returns_bind; [by eapply ensure_cache_returns|]. intros cs3 Hok3 Hc3.
    unfold valid_table. rewrite slice_fmap_range by (rewrite Hsm; lia). by apply returns_ret.
  - rewrite <-(count_valid_no_filter cs2 a b) by (done || lia). by apply returns_ret.
Qed.

Lemma cs_len_returns cs :
  cs_ok cs → returns cs_len cs (count_valid cs 0 (size_of (space_map cs))).
Proof.
  intros Hok. unfold cs_len. apply returns_get.
  destruct (ok_spaces cs Hok) as (_ & Hall & _). pose proof (size_of_pos _ Hall).
  destruct (cs_shared_filter cs) as [f|] eqn:E.
  - destruct (cs_filter_cache cs) as [c|] eqn:Ec.
    + destruct (ok_cache cs Hok c Ec) as [-> Hlen].
      exists cs. unfold sbind, sret, sget. by rewrite Hlen.
    + destruct (make_cache_returns cs f Hok E) as (cs' & Hm & Hok' & Hc & Hcache).
      destruct (ok_cache cs' Hok' _ Hcache) as [_ Hlen].
      exists cs'. unfold sbind. rewrite Hm. unfold sget, sret. by rewrite Hlen.
  - rewrite count_valid_no_filter, Z.sub_0_r by (done || lia). by apply range_length_returns.
Qed.

(** [len(space)] is the number of indices of the range whose entities the
    multi-filter accepts, and [subrange_length(a, b)] is that number for the
    half-open range. *)
Theorem lengths_count_valid cs a b :
  cs_ok cs → (0 ≤ a ≤ b ∧ b ≤ size_of (space_map cs))%Z →
  (∃ cs', cs_len cs = (Ret (count_valid cs 0 (size_of (space_map cs))), cs') ∧ cs_ok cs') ∧
  (∃ cs', subrange_length a b cs = (Ret (count_valid cs a b), cs') ∧ cs_ok cs').
Proof.
  intros Hok Hab. split.
  - destruct (cs_len_returns cs Hok) as (cs' & ? & ? & _). eauto.
  - destruct (subrange_length_returns cs a b Hok Hab) as (cs' & ? & ? & _). eauto.
Qed.

(** ** Fetching a configuration *)

Lemma cs_get_returns cs i :
  cs_ok cs → (0 ≤ i < size_of (space_map cs))%Z → valid_at cs i = true →
  returns (cs_get i) cs (mkCE i (cs_code_hash cs) (entities_at (space_map cs) i)).
Proof.
  intros Hok Hi Hv. unfold cs_get.
  eapply returns_bind; [by apply range_length_returns|]. intros cs1 Hok1 Hc1.
  rewrite bool_decide_false by lia.
  destruct (same_core_fields _ _ Hc1) as (Hsm1 & _).
  eapply returns_bind.
  { apply is_index_valid_returns; [done|by rewrite Hsm1]. }
  intros cs2 Hok2 Hc2. rewrite (valid_at_core cs cs1), Hv by done. simpl.
  apply returns_get. rewrite Hc1 in Hc2.
  destruct (same_core_fields _ _ Hc2) as (Hsm & _ & Hh & _).
  destruct (ok_spaces cs2 Hok2) as (_ & Hall & _).
  eapply returns_bind.
  { apply returns_lift; [done|]. by apply decode_entities_at. }
  intros cs3 Hok3 Hc3. rewrite Hh, Hsm. by apply returns_ret.
Qed.

(** C2: [get(i)] returns the configuration whose entities the index decodes to
    when [i] is in range and accepted, and raises [IndexError] otherwise; it
    never fails in another way. *)
Theorem cs_get_spec cs i :
  cs_ok cs →
  ∃ cs', cs_ok cs' ∧ cs_get i cs =
    (if bool_decide (0 ≤ i < size_of (space_map cs))%Z && valid_at cs i
     then Ret (mkCE i (cs_code_hash cs) (entities_at (space_map cs) i))
     else Raise IndexError, cs').
Proof.
  intros Hok. case_bool_decide as Hi; simpl.
  - destruct (valid_at cs i) eqn:Hv.
    + destruct (cs_get_returns cs i Hok Hi Hv) as (cs' & ? & ? & _). eauto.
    + destruct (range_length_returns cs Hok) as (cs1 & Hr & Hok1 & Hc1).
      destruct (same_core_fields _ _ Hc1) as (Hsm1 & _).
      destruct (is_index_valid_returns cs1 i Hok1) as (cs2 & Hv2 & Hok2 & _); [by rewrite Hsm1|].
      exists cs2. split; [done|]. unfold cs_get, sbind. rewrite Hr.
      rewrite bool_decide_false by lia. by rewrite Hv2, (valid_at_core cs cs1), Hv.
  - destruct (range_length_returns cs Hok) as (cs1 & Hr & Hok1 & _).
    exists cs1. split; [done|]. unfold cs_get, sbind. rewrite Hr.
    by rewrite bool_decide_true by lia.
Qed.

(** ** Sequential access *)

Definition valid_in (cs : ConfigSpace) (a b : Z) : list Z :=
  filter (λ i, valid_at cs i = true) (range a b).

Lemma valid_in_core cs cs' a b :
  clear_cache cs' = clear_cache cs → valid_in cs' a b = valid_in cs a b.
Proof.
  intros Hc. unfold valid_in. apply list_filter_iff. intros i. by rewrite (valid_at_core cs cs').
Qed.

Lemma count_valid_length cs a b : count_valid cs a b = zlen (valid_in cs a b).
Proof.
  unfold count_valid, valid_in, count_true, zlen. f_equal.
  induction (range a b) as [|i l IH]; [done|]. rewrite fmap_cons, !filter_cons.
  destruct (decide (valid_at cs i = true)); csimpl; [by rewrite IH|done].
Qed.

Lemma valid_in_cons cs a b :
  (a < b)%Z →
  valid_in cs a b = if valid_at cs a then a :: valid_in cs (a + 1) b else valid_in cs (a + 1) b.
Proof.
  intros Hab. unfold valid_in. rewrite range_cons by done. rewrite filter_cons.
  destruct (valid_at cs a); [by rewrite decide_True|by rewrite decide_False].
Qed.

Lemma next_loop_forward fuel : ∀ cs start stop c i,
  cs_ok cs → (0 ≤ start ≤ i + 1)%Z → (stop ≤ size_of (space_map cs))%Z →
  (stop - i ≤ Z.of_nat fuel)%Z → 0 < fuel →
  returns (next_loop fuel 1 start stop (S c) i) cs (valid_in cs (i + 1) stop !! c).
Proof.
  induction fuel as [|fuel IH]; intros cs start stop c i Hok Hstart Hstop Hfuel Hpos; [lia|].
  cbn [next_loop]. case_bool_decide as Hout.
  { unfold valid_in. rewrite range_nil by lia. by apply returns_ret. }
  rewrite valid_in_cons by lia.
  eapply returns_bind; [apply is_index_valid_returns; [done|lia]|]. intros cs1 Hok1 Hc1.
  destruct (same_core_fields _ _ Hc1) as (Hsm & _).
  rewrite <-(valid_in_core cs cs1) by done.
  destruct (valid_at cs (i + 1)).
  - destruct c as [|c]; [destruct fuel; by apply returns_ret|].
    apply IH; rewrite ?Hsm; try lia; done.
  - apply IH; rewrite ?Hsm; try lia; done.
Qed.

Lemma range_lookup_nat a b n :
  range a b !! n = if bool_decide (a + Z.of_nat n < b)%Z then Some (a + Z.of_nat n)%Z else None.
Proof.
  unfold range. case_bool_decide.
  - apply lookup_seqZ. lia.
  - apply lookup_seqZ_ge. lia.
Qed.

Lemma valid_in_no_filter cs a b : cs_shared_filter cs = None → valid_in cs a b = range a b.
Proof.
  intros Hf. unfold valid_in, valid_at. rewrite Hf.
  induction (range a b) as [|i l IH]; [done|]. by rewrite filter_cons_True, IH.
Qed.

Lemma get_next_index_returns cs i n start stop :
  cs_ok cs → (0 < n)%Z →
  (0 ≤ int_or start 0 ≤ i + 1)%Z →
  (int_or stop (size_of (space_map cs)) ≤ size_of (space_map cs))%Z →
  returns (get_next_index i n start stop) cs
    (valid_in cs (i + 1) (int_or stop (size_of (space_map cs))) !! Z.to_nat (n - 1)).
Proof.
  intros Hok Hn Hstart Hstop. unfold get_next_index.
  eapply returns_bind.
  { apply returns_lift; [done|]. unfold pyassert. by destruct (Z.eqb_spec n 0); [lia|]. }
  intros cs1 Hok1 Hc1. destruct (same_core_fields _ _ Hc1) as (Hsm1 & _).
  eapply returns_bind; [by apply range_length_returns|]. intros cs2 Hok2 Hc2.
  rewrite Hc1 in Hc2. rewrite Hsm1. apply returns_get.
  destruct (same_core_fields _ _ Hc2) as (Hsm & _).
  rewrite <-(valid_in_core cs cs2) by done.
  destruct (cs_shared_filter cs2) as [f|] eqn:E.
  - destruct (Z.ltb_spec 0 n); [|lia].
    replace (Z.to_nat (Z.abs n)) with (S (Z.to_nat (n - 1))) by lia.
    apply next_loop_forward; rewrite ?Hsm; try done; lia.
  - rewrite valid_in_no_filter, range_lookup_nat by done.
    replace (i + 1 + Z.of_nat (Z.to_nat (n - 1)))%Z with (i + n)%Z by lia.
    destruct (bool_decide_reflect (int_or start 0 ≤ i + n < int_or stop (size_of (space_map cs)))%Z),
      (bool_decide_reflect (i + n < int_or stop (size_of (space_map cs)))%Z); try lia;
      by apply returns_ret.
Qed.

(** Moving forward, [get_next_index(i, n)] returns the [n]-th valid index
    after [i] below the end of the range, or [None] when there is none; the
    scan always terminates. *)
Theorem get_next_index_spec cs i n start stop :
  cs_ok cs → (0 < n)%Z →
  (0 ≤ int_or start 0 ≤ i + 1)%Z →
  (int_or stop (size_of (space_map cs)) ≤ size_of (space_map cs))%Z →
  ∃ cs', get_next_index i n start stop cs =
    (Ret (valid_in cs (i + 1) (int_or stop (size_of (space_map cs))) !! Z.to_nat (n - 1)), cs') ∧
    cs_ok cs'.
Proof.
  intros. destruct (get_next_index_returns cs i n start stop) as (cs' & ? & ? & _); eauto.
Qed.

(** ** Random access *)

(** The index a raw draw selects in [start, stop). *)
Definition draw_index (start stop d : Z) : Z := (start + d `mod` (stop - start))%Z.

Lemma draw_index_range start stop d :
  (start < stop)%Z → (start ≤ draw_index start stop d < stop)%Z.
Proof.
  intros Hlt. unfold draw_index.
  pose proof (Z.mod_pos_bound d (stop - start)). lia.
Qed.

Lemma randrange_draw start stop d :
  (start < stop)%Z → randrange start stop d = Ret (draw_index start stop d).
Proof. intros Hlt. unfold randrange. by rewrite bool_decide_true. Qed.

Definition acceptable (cs : ConfigSpace) (excl : list Z) (i : Z) : Prop :=
  valid_at cs i = true ∧ i ∉ excl.

#[global] Instance acceptable_dec cs excl i : Decision (acceptable cs excl i).
Proof. unfold acceptable. apply _. Defined.

Lemma acceptable_core cs cs' excl (l : list Z) :
  clear_cache cs' = clear_cache cs →
  filter (acceptable cs' excl) l = filter (acceptable cs excl) l.
Proof.
  intros Hc. apply list_filter_iff. intros i. unfold acceptable. by rewrite (valid_at_core cs cs').
Qed.

Lemma rand_loop_returns draws : ∀ cs start stop excl,
  cs_ok cs → (0 ≤ start < stop)%Z → (stop ≤ size_of (space_map cs))%Z →
  returns (rand_loop start stop excl draws) cs
    (head (filter (acceptable cs excl) (draw_index start stop <$> draws))).
Proof.
  induction draws as [|d draws IH]; intros cs start stop excl Hok Hss Hstop.
  { by apply returns_ret. }
  cbn [rand_loop]. pose proof (draw_index_range start stop d ltac:(lia)).
  eapply returns_bind.
  { apply returns_lift; [done|]. apply randrange_draw. lia. }
  intros cs1 Hok1 Hc1. destruct (same_core_fields _ _ Hc1) as (Hsm1 & _).
  eapply returns_bind; [apply is_index_valid_returns; [done|rewrite Hsm1; lia]|].
  intros cs2 Hok2 Hc2. rewrite Hc1 in Hc2. rewrite (valid_at_core cs cs1) by done.
  destruct (same_core_fields _ _ Hc2) as (Hsm2 & _).
  rewrite fmap_cons, filter_cons.
  destruct (decide (acceptable cs excl (draw_index start stop d))) as [[Hv Hx]|Hn].
  - rewrite Hv, bool_decide_false by done. by apply returns_ret.
  - replace (_ && _) with false; last first.
    { destruct (valid_at cs (draw_index start stop d)) eqn:Hv; [|done].
      case_bool_decide; [done|]. by destruct Hn. }
    rewrite <-(acceptable_core cs cs2) by done. apply IH; rewrite ?Hsm2; done.
Qed.

Lemma get_rand_index_returns cs start stop excl draws :
  cs_ok cs →
  (0 ≤ int_or start 0 < int_or stop (size_of (space_map cs)))%Z →
  (int_or stop (size_of (space_map cs)) ≤ size_of (space_map cs))%Z →
  returns (get_rand_index start stop excl draws) cs
    (head (filter (acceptable cs excl)
       (draw_index (int_or start 0) (int_or stop (size_of (space_map cs))) <$> draws))).
Proof.
  intros Hok Hss Hstop. unfold get_rand_index.
  eapply returns_bind; [by apply range_length_returns|]. intros cs1 Hok1 Hc1.
  destruct (same_core_fields _ _ Hc1) as (Hsm1 & _).
  rewrite <-(acceptable_core cs cs1) by done.
  apply rand_loop_returns; rewrite ?Hsm1; done.
Qed.

(** [get_rand_index] returns the first drawn index that is valid and not
    excluded; while no such index has been drawn it keeps looping, so
    excluding every valid index makes it loop for ever. *)
Theorem get_rand_index_spec cs start stop excl draws :
  cs_ok cs →
  (0 ≤ int_or start 0 < int_or stop (size_of (space_map cs)))%Z →
  (int_or stop (size_of (space_map cs)) ≤ size_of (space_map cs))%Z →
  (∃ cs', get_rand_index start stop excl draws cs =
    (Ret (head (filter (acceptable cs excl)
       (draw_index (int_or start 0) (int_or stop (size_of (space_map cs))) <$> draws))), cs')) ∧
  ((∀ i, (int_or start 0 ≤ i < int_or stop (size_of (space_map cs)))%Z →
         valid_at cs i = true → i ∈ excl) →
   ∃ cs', get_rand_index start stop excl draws cs = (Ret None, cs')).
Proof.
  intros Hok Hss Hstop.
  destruct (get_rand_index_returns cs start stop excl draws Hok Hss Hstop) as (cs' & Hrun & _).
  split; [eauto|]. intros Hall. exists cs'. rewrite Hrun.
  rewrite filter_none; [done|]. intros i Hi [Hv Hx].
  apply list_elem_of_fmap in Hi as (d & -> & _). apply Hx, Hall; [|done].
  apply draw_index_range. lia.
Qed.

(** ** Points and knobs *)

(** The mixed-radix reference. *)
Fixpoint digits (ds : list Z) (p : Z) : list Z :=
  match ds with [] => [] | d :: ds' => (p `mod` d)%Z :: digits ds' (p `div` d) end.

Fixpoint mixed (ds ks : list Z) : Z :=
  match ds, ks with d :: ds', k :: ks' => (k + d * mixed ds' ks')%Z | _, _ => 0%Z end.

Abbreviation all_pos := (Forall (λ x : Z, (0 < x)%Z)).

Lemma point2knob_go_digits ds : ∀ p, all_pos ds → point2knob_go ds p = Ret (digits ds p).
Proof.
  induction ds as [|d ds IH]; intros p Hpos; simpl; [done|].
  apply Forall_cons in Hpos as [Hd Hpos]. unfold pymod, pydiv.
  rewrite bool_decide_false by lia. simpl. by rewrite IH.
Qed.

Lemma mixed_bound ds ks :
  Forall2 (λ k d, (0 ≤ k < d)%Z) ks ds → (0 ≤ mixed ds ks < zprod ds)%Z.
Proof. induction 1 as [|k d ks ds Hk _ IH]; simpl; nia. Qed.

Lemma digits_bound ds : ∀ p, all_pos ds → Forall2 (λ k d, (0 ≤ k < d)%Z) (digits ds p) ds.
Proof.
  induction ds as [|d ds IH]; intros p Hpos; simpl; constructor.
  - apply Forall_cons in Hpos as [Hd _]. by apply Z.mod_pos_bound.
  - apply IH. by apply Forall_cons in Hpos as [_ ?].
Qed.

Lemma mixed_digits ds : ∀ p, all_pos ds → (0 ≤ p < zprod ds)%Z → mixed ds (digits ds p) = p.
Proof.
  induction ds as [|d ds IH]; intros p Hpos Hp; simpl in *; [lia|].
  apply Forall_cons in Hpos as [Hd Hpos]. rewrite IH; [|done|].
  - pose proof (Z.div_mod p d). lia.
  - split; [apply Z.div_pos; lia|]. apply Z.div_lt_upper_bound; lia.
Qed.

Lemma digits_mixed ds ks :
  Forall2 (λ k d, (0 ≤ k < d)%Z) ks ds → digits ds (mixed ds ks) = ks.
Proof.
  induction 1 as [|k d ks ds Hk Hall IH]; simpl; [done|].
  rewrite (Z.mul_comm d), Z.mod_add, Z.mod_small by lia.
  rewrite Z.div_add, Z.div_small by lia. by rewrite Z.add_0_l, IH.
Qed.

Lemma zprod_prefix pre ds :
  all_pos pre → all_pos ds → (zprod pre ≤ zprod (pre ++ ds))%Z.
Proof.
  intros Hp Hd. apply zprod_pos in Hp, Hd. rewrite zprod_app. nia.
Qed.

Lemma knob2point_fold ks : ∀ pre ds acc,
  all_pos pre → all_pos ds → (zprod (pre ++ ds) < 2 ^ 63)%Z → length ks ≤ length ds →
  foldl (λ point '(j, k), (point + np_prod (take j (pre ++ ds)) * k)%Z) acc
    (zip (seq (length pre) (length ks)) ks) = (acc + zprod pre * mixed ds ks)%Z.
Proof.
  induction ks as [|k ks IH]; intros pre ds acc Hpre Hds Hlt Hlen.
  { simpl. destruct ds; simpl; lia. }
  destruct ds as [|d ds]; simpl in Hlen; [lia|]. cbn [length seq zip zip_with foldl].
  rewrite take_app_length, np_prod_small; last first.
  { pose proof (zprod_prefix pre (d :: ds) Hpre Hds). apply zprod_pos in Hpre. lia. }
  apply Forall_cons in Hds as [Hd Hds].
  specialize (IH (pre ++ [d]) ds (acc + zprod pre * k)%Z).
  rewrite <-app_assoc, length_app, Nat.add_1_r in IH. simpl in IH. rewrite IH; try done.
  - rewrite zprod_app. simpl. ring.
  - apply Forall_app. auto.
  - lia.
Qed.

Lemma knob2point_go_mixed ds ks :
  all_pos ds → (zprod ds < 2 ^ 63)%Z → length ks ≤ length ds →
  knob2point_go ds ks = mixed ds ks.
Proof.
  intros Hpos Hlt Hlen. unfold knob2point_go.
  pose proof (knob2point_fold ks [] ds 0 ltac:(constructor) Hpos Hlt Hlen) as Hk.
  simpl in Hk. rewrite Hk. lia.
Qed.

Lemma space_lens_pos cs : cs_ok cs → all_pos (space_lens cs).
Proof.
  intros Hok. destruct (ok_spaces cs Hok) as (_ & Hall & _). unfold space_lens.
  induction Hall as [|[n sp] sm Hp _ IH]; constructor; [done|exact IH].
Qed.

Lemma space_lens_prod cs : cs_ok cs → (zprod (space_lens cs) < 2 ^ 63)%Z.
Proof. intros Hok. by destruct (ok_spaces cs Hok) as (_ & _ & ?). Qed.

Lemma point2knob_returns cs p : cs_ok cs → returns (point2knob p) cs (digits (space_lens cs) p).
Proof.
  intros Hok. unfold point2knob. eapply returns_bind; [by apply dims_returns|].
  intros cs1 Hok1 _. apply returns_lift; [done|].
  apply point2knob_go_digits. by apply space_lens_pos.
Qed.

Lemma points2knobs_returns l : ∀ cs,
  cs_ok cs → returns (smap point2knob l) cs (digits (space_lens cs) <$> l).
Proof.
  induction l as [|p l IH]; intros cs Hok; [by apply returns_ret|]. cbn [smap].
  eapply returns_bind; [by apply point2knob_returns|]. intros cs1 Hok1 Hc1.
  destruct (same_core_fields _ _ Hc1) as (Hsm & _).
  assert (space_lens cs1 = space_lens cs) as Hl by (unfold space_lens; by rewrite Hsm).
  eapply returns_bind; [by apply IH|]. intros. rewrite Hl. by apply returns_ret.
Qed.

Lemma knob2point_returns cs ks :
  cs_ok cs → length ks ≤ length (space_lens cs) →
  returns (knob2point ks) cs (mixed (space_lens cs) ks).
Proof.
  intros Hok Hlen. unfold knob2point. eapply returns_bind; [by apply dims_returns|].
  intros cs1 Hok1 _.
  rewrite knob2point_go_mixed by eauto using space_lens_pos, space_lens_prod.
  by apply returns_ret.
Qed.

Lemma length_digits ds : ∀ p, length (digits ds p) = length ds.
Proof. induction ds as [|d ds IH]; intros p; simpl; [done|]. by rewrite IH. Qed.

(** [point2knob] and [knob2point] are inverse bijections between the index
    range and the knob vectors bounded by the dimensions, as long as the range
    fits an int64. *)
Theorem point_knob_roundtrip cs p ks :
  cs_ok cs → (0 ≤ p < size_of (space_map cs))%Z →
  Forall2 (λ k d, (0 ≤ k < d)%Z) ks (space_lens cs) →
  (∃ k cs1 cs2, point2knob p cs = (Ret k, cs1) ∧
     Forall2 (λ k d, (0 ≤ k < d)%Z) k (space_lens cs) ∧ knob2point k cs1 = (Ret p, cs2)) ∧
  (∃ q cs1 cs2, knob2point ks cs = (Ret q, cs1) ∧
     (0 ≤ q < size_of (space_map cs))%Z ∧ point2knob q cs1 = (Ret ks, cs2)).
Proof.
  intros Hok Hp Hks. pose proof (space_lens_pos cs Hok) as Hpos. split.
  - destruct (point2knob_returns cs p Hok) as (cs1 & H1 & Hok1 & Hc1).
    destruct (same_core_fields _ _ Hc1) as (Hsm & _).
    assert (space_lens cs1 = space_lens cs) as Hl by (unfold space_lens; by rewrite Hsm).
    destruct (knob2point_returns cs1 (digits (space_lens cs) p) Hok1) as (cs2 & H2 & _).
    { by rewrite length_digits, Hl. }
    rewrite Hl, mixed_digits in H2 by done.
    exists (digits (space_lens cs) p), cs1, cs2. split; [done|]. split; [|done].
    by apply digits_bound.
  - pose proof (Forall2_length _ _ _ Hks) as Hlen.
    destruct (knob2point_returns cs ks Hok) as (cs1 & H1 & Hok1 & Hc1); [lia|].
    destruct (same_core_fields _ _ Hc1) as (Hsm & _).
    assert (space_lens cs1 = space_lens cs) as Hl by (unfold space_lens; by rewrite Hsm).
    destruct (point2knob_returns cs1 (mixed (space_lens cs) ks) Hok1) as (cs2 & H2 & _).
    rewrite Hl, digits_mixed in H2 by done.
    exists (mixed (space_lens cs) ks), cs1, cs2. split; [done|]. split; [|done].
    by apply mixed_bound.
Qed.

(** ** Sampling and walking *)

Lemma sample_loop_spec draws : ∀ cs m vis,
  cs_ok cs → NoDup vis → Forall (λ i, (0 ≤ i < size_of (space_map cs))%Z ∧ valid_at cs i = true) vis →
  (0 ≤ m)%Z → (zlen vis ≤ m)%Z →
  ∃ o, returns (sample_loop m vis draws) cs o ∧
    (∀ r, o = Some r → NoDup r ∧ zlen r = m ∧
       Forall (λ i, (0 ≤ i < size_of (space_map cs))%Z ∧ valid_at cs i = true) r) ∧
    (∀ good, NoDup good → (m ≤ zlen good)%Z → Forall (λ i, valid_at cs i = true) good →
       (∀ i, i ∈ good → i ∈ vis ∨ i ∈ draw_index 0 (size_of (space_map cs)) <$> draws) →
       ∃ r, o = Some r).
Proof.
  induction draws as [|d draws IH]; intros cs m vis Hok Hnd Hall Hm Hle; cbn [sample_loop];
    destruct (ok_spaces cs Hok) as (_ & Hsp & _); pose proof (size_of_pos _ Hsp) as Hpos;
    case_bool_decide as Hlt.
  - exists None. split; [by apply returns_ret|]. split; [done|].
    intros good Hgnd Hglen _ Hg. exfalso.
    assert (good ⊆+ vis) as Hsub by (apply NoDup_submseteq; [done|]; intros i Hi; destruct (Hg i Hi); set_solver).
    apply submseteq_length in Hsub. unfold zlen in *. lia.
  - exists (Some vis). split; [by apply returns_ret|]. split; [|eauto].
    intros r [= <-]. split; [done|]. split; [lia|done].
  - set (new := draw_index 0 (size_of (space_map cs)) d).
    assert (0 ≤ new < size_of (space_map cs))%Z as Hnew by (apply draw_index_range; lia).
    set (vis' := if valid_at cs new && negb (bool_decide (new ∈ vis)) then vis ++ [new] else vis).
    destruct (range_length_returns cs Hok) as (cs1 & Hr1 & Hok1 & Hc1).
    destruct (same_core_fields _ _ Hc1) as (Hsm1 & _).
    destruct (is_index_valid_returns cs1 new Hok1) as (cs2 & Hv2 & Hok2 & Hc2); [by rewrite Hsm1|].
    rewrite (valid_at_core cs cs1) in Hv2 by done. rewrite Hc1 in Hc2.
    destruct (same_core_fields _ _ Hc2) as (Hsm2 & _).
    assert (NoDup vis' ∧
      Forall (λ i, (0 ≤ i < size_of (space_map cs2))%Z ∧ valid_at cs2 i = true) vis' ∧
      (zlen vis' ≤ m)%Z ∧ (∀ i, i ∈ vis → i ∈ vis') ∧
      (valid_at cs new = true → new ∈ vis')) as (Hnd' & Hall' & Hle' & Hsub & Hin).
    { assert (Forall (λ i, (0 ≤ i < size_of (space_map cs2))%Z ∧ valid_at cs2 i = true) vis) as Hv.
      { eapply Forall_impl; [exact Hall|]. intros i. by rewrite Hsm2, (valid_at_core cs cs2). }
      unfold vis'. destruct (valid_at cs new) eqn:Hvn; simpl; [|done].
      case_bool_decide as Hni; simpl; [done|]. split.
      { apply NoDup_app. split; [done|]. split; [set_solver|apply NoDup_singleton]. }
      split; [apply Forall_app; split; [done|]; constructor; [|done];
              by rewrite Hsm2, (valid_at_core cs cs2)|].
      rewrite zlen_app. unfold zlen at 2. simpl. split; [lia|]. set_solver. }
    destruct (IH cs2 m vis' Hok2 Hnd' Hall' Hm Hle') as (o & Ho & Hr & Hlive).
    exists o. split; [|split].
    + destruct Ho as (cs3 & Ho & Hok3 & Hc3). exists cs3. rewrite Hc3, Hc2.
      split; [|done]. unfold sbind, slift. rewrite Hr1, randrange_draw by lia.
      fold new. rewrite Hv2. exact Ho.
    + intros r Hor. destruct (Hr r Hor) as (? & ? & Hf). split; [done|]. split; [done|].
      eapply Forall_impl; [exact Hf|]. intros i. by rewrite Hsm2, (valid_at_core cs cs2).
    + intros good Hgnd Hglen Hgv Hg. apply (Hlive good); try done.
      * eapply Forall_impl; [exact Hgv|]. intros i. by rewrite (valid_at_core cs cs2).
      * intros i Hi. rewrite Forall_forall in Hgv. rewrite Hsm2.
        destruct (Hg i Hi) as [?|Hd]; [left; auto|].
        rewrite fmap_cons in Hd. apply elem_of_cons in Hd as [->|?]; [|by right].
        left. apply Hin. by apply (Hgv _ Hi).
  - exists (Some vis). split; [by apply returns_ret|]. split; [|eauto].
    intros r [= <-]. split; [done|]. split; [lia|done].
Qed.

Lemma sample_ints_returns cs m draws :
  cs_ok cs → (0 ≤ m ≤ count_valid cs 0 (size_of (space_map cs)))%Z →
  ∃ o, returns (sample_ints m draws) cs o ∧
    (∀ r, o = Some r → NoDup r ∧ zlen r = m ∧
       Forall (λ i, (0 ≤ i < size_of (space_map cs))%Z ∧ valid_at cs i = true) r) ∧
    (∀ good, NoDup good → (m ≤ zlen good)%Z → Forall (λ i, valid_at cs i = true) good →
       (∀ i, i ∈ good → i ∈ draw_index 0 (size_of (space_map cs)) <$> draws) →
       ∃ r, o = Some r).
Proof.
  intros Hok Hm. destruct (cs_len_returns cs Hok) as (cs1 & Hl & Hok1 & Hc1).
  destruct (same_core_fields _ _ Hc1) as (Hsm1 & _).
  destruct (sample_loop_spec draws cs1 m [] Hok1) as (o & (cs2 & Ho & Hok2 & Hc2) & Hr & Hlive).
  - constructor.
  - constructor.
  - lia.
  - unfold zlen; simpl; lia.
  - exists o. split.
    + exists cs2. rewrite Hc2. split; [|done]. unfold sample_ints, sbind, slift, pyassert.
      rewrite Hl. by rewrite bool_decide_true by lia.
    + rewrite Hsm1 in *. split.
      * intros r Hor. destruct (Hr r Hor) as (? & ? & Hf). split; [done|]. split; [done|].
        eapply Forall_impl; [exact Hf|]. intros i; cbv beta; by rewrite (valid_at_core cs cs1).
      * intros good ? ? Hgv Hg. apply (Hlive good); try done.
        { eapply Forall_impl; [exact Hgv|]. intros i; cbv beta; by rewrite (valid_at_core cs cs1). }
        intros i Hi. right. by apply Hg.
Qed.

(** When [sample_ints(m)] returns, it returns [m] distinct indices of the
    range that all pass the filter; and it does return as soon as the draws
    have hit [m] distinct valid indices. *)
Theorem sample_ints_spec cs m draws :
  cs_ok cs → (0 ≤ m ≤ count_valid cs 0 (size_of (space_map cs)))%Z →
  ∃ o cs', sample_ints m draws cs = (Ret o, cs') ∧
    (∀ r, o = Some r → NoDup r ∧ zlen r = m ∧
       Forall (λ i, (0 ≤ i < size_of (space_map cs))%Z ∧ valid_at cs i = true) r) ∧
    (∀ good, NoDup good → (m ≤ zlen good)%Z → Forall (λ i, valid_at cs i = true) good →
       (∀ i, i ∈ good → i ∈ draw_index 0 (size_of (space_map cs)) <$> draws) →
       ∃ r, o = Some r).
Proof.
  intros Hok Hm.
  destruct (sample_ints_returns cs m draws Hok Hm) as (o & (cs' & Hr & _) & Hs & Hl). eauto.
Qed.
End Observers.
