(* ===== verification/KnobSpec.v ===== *)
(** * Correctness of knob declaration, serialisation and fallback

    Random walks, the life cycle of the caches when knobs are declared, the
    JSON round trip of configurations and the fallback split. *)

From S2P Require Import Prelude PyFloat Transforms TransformsSpec ConfigSpace ConfigSpaceSpec.

(** ** Random walks *)

Section Walk.
Context `{NumpyOk}.

Abbreviation bounded ks ds := (Forall2 (λ k d, (0 ≤ k < d)%Z) ks ds).

Lemma bounded_insert ks ds i d v :
  bounded ks ds → ds !! i = Some d → (0 ≤ v < d)%Z → bounded (<[i := v]> ks) ds.
Proof.
  intros Hb. revert i. induction Hb as [|k d' ks ds Hk Hb IH]; intros i Hi Hv; [done|].
  destruct i as [|i]; simpl in *; [simplify_eq; by constructor|]. constructor; [done|by apply IH].
Qed.

(** The walk as a function of the draws. *)
Fixpoint walk_ref (cs : ConfigSpace) (old new : list Z) (draws : list (Z * Z)) : option Z :=
  let q := mixed (space_lens cs) new in
  if negb (bool_decide (new = old)) && valid_at cs q then Some q else
  match draws with
  | [] => None
  | (d1, d2) :: draws' =>
      let i := draw_index 0 (zlen old) d1 in
      let v := draw_index 0 (default 1%Z (space_lens cs !! Z.to_nat i)) d2 in
      walk_ref cs old (<[Z.to_nat i := v]> new) draws'
  end.

Definition walk_from (cs : ConfigSpace) (p : Z) (draws : list (Z * Z)) : option Z :=
  walk_ref cs (digits (space_lens cs) p) (digits (space_lens cs) p) draws.

Lemma walk_ref_core cs cs' draws : clear_cache cs' = clear_cache cs → ∀ old new,
  walk_ref cs' old new draws = walk_ref cs old new draws.
Proof.
  intros Hc. destruct (same_core_fields _ _ Hc) as (Hsm & _).
  assert (space_lens cs' = space_lens cs) as Hl by (unfold space_lens; by rewrite Hsm).
  induction draws as [|[d1 d2] draws IH]; intros old new; simpl;
    rewrite Hl, (valid_at_core cs cs') by done; destruct (_ && _); [done..|apply IH].
Qed.

Lemma walk_ref_spec cs draws : ∀ old new,
  cs_ok cs → space_lens cs ≠ [] → bounded old (space_lens cs) → bounded new (space_lens cs) →
  ∀ q, walk_ref cs old new draws = Some q → ∃ k, bounded k (space_lens cs) ∧ k ≠ old ∧
      q = mixed (space_lens cs) k ∧ valid_at cs q = true.
Proof.
  induction draws as [|[d1 d2] draws IH]; intros old new Hok Hne Hold Hnew q; cbn [walk_ref];
    destruct (negb _ && _) eqn:E; try done.
  1,2: intros [= <-]; apply andb_true_iff in E as [E1 E2];
    apply negb_true_iff, bool_decide_eq_false in E1; by exists new.
  set (i := draw_index 0 (zlen old) d1). apply IH; try done.
  pose proof (Forall2_length _ _ _ Hold) as Hlo.
  assert (0 ≤ i < zlen old)%Z as Hi.
  { apply draw_index_range. unfold zlen. rewrite Hlo. destruct (space_lens cs); [done|simpl; lia]. }
  destruct (space_lens cs !! Z.to_nat i) as [dim|] eqn:Hdim.
  - eapply bounded_insert; [exact Hnew|exact Hdim|]. apply (draw_index_range 0 dim).
    pose proof (space_lens_pos cs Hok) as Hp. rewrite Forall_lookup in Hp.
    by apply (Hp _ _ Hdim).
  - apply lookup_ge_None in Hdim. unfold zlen in Hi. lia.
Qed.

Lemma walk_loop_returns draws : ∀ cs old new,
  cs_ok cs → space_lens cs ≠ [] → bounded old (space_lens cs) → bounded new (space_lens cs) →
  returns (walk_loop (space_lens cs) old new draws) cs (walk_ref cs old new draws).
Proof.
  induction draws as [|[d1 d2] draws IH]; intros cs old new Hok Hne Hold Hnew;
    cbn [walk_loop walk_ref];
    rewrite knob2point_go_mixed
      by (eauto using space_lens_pos, space_lens_prod; by rewrite (Forall2_length _ _ _ Hnew));
    set (q := mixed (space_lens cs) new);
    (assert (0 ≤ q < size_of (space_map cs))%Z as Hq by (by apply mixed_bound));
    (assert (returns (if bool_decide (new = old) then sret true
        else let! ok := is_index_valid q in sret (negb ok)) cs
        (negb (negb (bool_decide (new = old)) && valid_at cs q))) as Hb
      by (case_bool_decide as Heq; simpl; [by apply returns_ret|];
          eapply returns_bind; [by apply is_index_valid_returns|]; intros; by apply returns_ret));
    (eapply returns_bind; [exact Hb|]); destruct (negb _ && _); cbn [negb];
    try (intros; by apply returns_ret).
  intros cs1 Hok1 Hc1. destruct (same_core_fields _ _ Hc1) as (Hsm1 & _).
  assert (space_lens cs1 = space_lens cs) as Hl by (unfold space_lens; by rewrite Hsm1).
  pose proof (Forall2_length _ _ _ Hold) as Hlo.
  set (i := draw_index 0 (zlen old) d1).
  assert (0 < zlen old)%Z as Hz.
  { unfold zlen. rewrite Hlo. destruct (space_lens cs); [done|simpl; lia]. }
  assert (0 ≤ i < zlen old)%Z as Hi by (apply draw_index_range; lia).
  destruct (pynth_in_range (space_lens cs) i) as (dim & Hdim & Hdim').
  { unfold zlen in *. by rewrite <-Hlo. }
  assert (0 < dim)%Z as Hdpos.
  { pose proof (space_lens_pos cs Hok) as Hp. rewrite Forall_lookup in Hp. by eapply Hp. }
  fold i. rewrite Hdim'. cbn [default from_option id]. set (v := draw_index 0 dim d2).
  assert (0 ≤ v < dim)%Z as Hv by (apply draw_index_range; lia).
  pose proof (IH cs1 old (<[Z.to_nat i := v]> new) Hok1) as Hrun. rewrite Hl in Hrun.
  destruct Hrun as (cs2 & Hrun & Hok2 & Hc2); [done|done|by eapply bounded_insert|].
  exists cs2. rewrite Hc2. split; [|done]. unfold sbind, slift.
  rewrite randrange_draw by lia. fold i. rewrite Hdim, randrange_draw by lia. fold v.
  unfold pyset. rewrite (bool_decide_false (i < 0)%Z) by lia.
  rewrite bool_decide_true
    by (unfold zlen in *; rewrite (Forall2_length _ _ _ Hnew), <-Hlo; lia).
  rewrite Hrun. by rewrite (walk_ref_core cs cs1).
Qed.

Lemma random_walk_returns cs p draws :
  cs_ok cs → space_map cs ≠ [] → (0 ≤ p < size_of (space_map cs))%Z →
  returns (random_walk p draws) cs (walk_from cs p draws) ∧
  ∀ q, walk_from cs p draws = Some q →
    (0 ≤ q < size_of (space_map cs))%Z ∧ valid_at cs q = true ∧ q ≠ p.
Proof.
  intros Hok Hne Hp. pose proof (space_lens_pos cs Hok) as Hpos.
  assert (space_lens cs ≠ []) as Hln.
  { unfold space_lens, od_vals. by destruct (space_map cs). }
  pose proof (digits_bound (space_lens cs) p Hpos) as Hb. split.
  - eapply returns_bind; [by apply point2knob_returns|]. intros cs1 Hok1 Hc1.
    destruct (same_core_fields _ _ Hc1) as (Hsm1 & _).
    assert (space_lens cs1 = space_lens cs) as Hl1 by (unfold space_lens; by rewrite Hsm1).
    eapply returns_bind; [by apply dims_returns|]. intros cs2 Hok2 Hc2. rewrite Hc1 in Hc2.
    destruct (same_core_fields _ _ Hc2) as (Hsm2 & _).
    assert (space_lens cs2 = space_lens cs) as Hl2 by (unfold space_lens; by rewrite Hsm2).
    rewrite Hl1. unfold walk_from. rewrite <-(walk_ref_core cs cs2), <-Hl2 by done.
    apply walk_loop_returns; by rewrite ?Hl2.
  - intros q Hq. destruct (walk_ref_spec cs draws _ _ Hok Hln Hb Hb q Hq) as (k & Hkb & Hkne & -> & Hv).
    split; [by apply mixed_bound|]. split; [done|]. intros Heq. apply Hkne.
    by rewrite <-Heq, digits_mixed.
Qed.

(** A random walk never fails on a space with at least one knob, and the
    index it returns is in the range, passes the filter and differs from the
    starting point. *)
Theorem random_walk_spec cs p draws :
  cs_ok cs → space_map cs ≠ [] → (0 ≤ p < size_of (space_map cs))%Z →
  ∃ o cs', random_walk p draws cs = (Ret o, cs') ∧
    ∀ q, o = Some q → (0 ≤ q < size_of (space_map cs))%Z ∧ valid_at cs q = true ∧ q ≠ p.
Proof.
  intros Hok Hne Hp. destruct (random_walk_returns cs p draws Hok Hne Hp) as [(cs' & Hr & _) Hq].
  eauto.
Qed.
End Walk.

(** ** Declaring knobs and the caches *)

Definition no_cache (cs : ConfigSpace) : Prop :=
  cs_range_length cs = None ∧ cs_dims cs = None ∧ cs_filter_cache cs = None.

Lemma od_set_Forall {V} (P : V → Prop) (d : list (string * V)) k v :
  Forall (λ p, P p.2) d → P v → Forall (λ p, P p.2) (od_set d k v).
Proof.
  intros Hd Hv. induction Hd as [|[k' v'] d Hp Hd IH]; simpl; [by repeat constructor|].
  case_decide; by constructor.
Qed.

Lemma add_new_transform_returns (has_filter : bool) name sp num cs :
  spaces_ok (space_map cs) → cs_collect cs = true → cs_is_fallback cs = false →
  (0 < space_len sp)%Z →
  let cs1 := if has_filter then clear_cache cs else cs in
  add_new_transform has_filter name (Ret sp) num cs =
    (Ret (mkAxis (Some name) <$> range 0 (sp_num_output sp)),
     set_spaces (od_set (space_map cs) name sp)
       (od_set (cs_entity_map cs) name (FromSpace name 0)) cs1).
Proof.
  intros Hok Hcol Hfb Hlen cs1. unfold add_new_transform, sbind, sget, sput, slift, sret, cs1.
  destruct has_filter; simpl; rewrite Hcol, Hfb; simpl; rewrite space_getitem_in by lia; done.
Qed.

(** Declaring a knob on a space without cached values (always the case
    when a filter is given) records it, makes its first entity the current one,
    returns one axis per output and leaves the caches coherent. *)
Theorem add_new_transform_ok has_filter name sp num cs :
  cs_ok cs → cs_collect cs = true → cs_is_fallback cs = false →
  has_filter = true ∨ no_cache cs →
  (0 < space_len sp)%Z → (size_of (od_set (space_map cs) name sp) < 2 ^ 63)%Z →
  ∃ cs', add_new_transform has_filter name (Ret sp) num cs =
           (Ret (mkAxis (Some name) <$> range 0 (sp_num_output sp)), cs') ∧
         cs_ok cs' ∧ od_get (space_map cs') name = Some sp ∧
         cs_getitem name cs' = space_getitem sp 0.
Proof.
  intros Hok Hcol Hfb Hcache Hlen Hsize.
  pose proof (ok_spaces cs Hok) as Hsp. destruct Hsp as (Hnd & Hall & _).
  rewrite add_new_transform_returns by (done || apply ok_spaces, Hok).
  eexists. split; [done|]. split; [|split].
  - assert (no_cache (if has_filter then clear_cache cs else cs)) as (Hr & Hd & Hc).
    { destruct has_filter; [done|]. by destruct Hcache. }
    split; simpl; rewrite ?Hr, ?Hd, ?Hc; try done.
    split; [by apply od_set_NoDup|]. split; [|done].
    by apply (od_set_Forall (λ s, (0 < space_len s)%Z)).
  - apply od_get_set_eq.
  - unfold cs_getitem, deref. simpl. by rewrite !od_get_set_eq.
Qed.

(** ** The JSON form *)

Lemma entity_json_inv k v :
  ∃ t a, entity_to_json k v = (k, t, a) ∧ entity_of_json t a = Ret v.
Proof. destruct v; simpl; eauto. Qed.

Lemma entities_json_inv es : ∀ acc,
  NoDup (od_keys (acc ++ es)) →
  entities_of_json ((λ '(k, v), entity_to_json k v) <$> es) acc = Ret (acc ++ es).
Proof.
  induction es as [|[k v] es IH]; intros acc Hnd; [by rewrite app_nil_r|].
  rewrite fmap_cons. destruct (entity_json_inv k v) as (t & a & -> & Hv).
  cbn [entities_of_json]. rewrite Hv. cbn [pbind].
  assert (od_set acc k v = acc ++ [(k, v)]) as ->.
  { unfold od_keys in Hnd. clear IH. induction acc as [|[k' v'] acc IH]; [done|]. csimpl in *.
    apply NoDup_cons in Hnd as [Hk Hnd]. rewrite fmap_app in Hk. csimpl in *.
    rewrite decide_False by set_solver. by rewrite IH. }
  rewrite IH; rewrite <-app_assoc; done.
Qed.

(** A configuration written to its JSON form and read back is the same
    configuration: index, code hash and every knob with its kind. *)
Theorem config_json_roundtrip c :
  NoDup (od_keys (ce_entities c)) → from_json_dict (to_json_dict c) = Ret c.
Proof.
  intros Hnd. unfold from_json_dict, to_json_dict. simpl.
  rewrite entities_json_inv by done. by destruct c.
Qed.

(** ** Fallback splits *)

Lemma find_factor_spec fs c : ∀ j last,
  find_factor j last fs c = last ∧ Forall (λ f, (f ≤ c)%Z) fs ∨
  ∃ pre f post, fs = pre ++ f :: post ∧ Forall (λ f, (f ≤ c)%Z) pre ∧ (c < f)%Z ∧
    find_factor j last fs c = (j + zlen pre - 1)%Z.
Proof.
  induction fs as [|f fs IH]; intros j last; simpl; [by left|].
  destruct (Z.ltb_spec c f).
  - right. exists [], f, fs. unfold zlen. simpl. split; [done|]. split; [done|]. lia.
  - destruct (IH (j + 1)%Z last) as [[-> Hall]|(pre & g & post & -> & Hpre & Hg & ->)].
    + left. split; [done|]. by constructor.
    + right. exists (f :: pre), g, post. split; [done|]. split; [by constructor|].
      split; [done|]. unfold zlen. simpl. lia.
Qed.

(** Over the sorted divisors of [n], the loop picks the largest one within the
    constraint. *)
Lemma find_factor_largest n fs c :
  StronglySorted Z.lt fs → (∀ d, d ∈ fs ↔ (0 < d)%Z ∧ (d | n)%Z) → (1 ≤ c)%Z →
  ∃ f, pynth fs (find_factor 0 (zlen fs - 1) fs c) = Ret f ∧
    (0 <=? find_factor 0 (zlen fs - 1) fs c)%Z = true ∧
    f ∈ fs ∧ (f ≤ c)%Z ∧ (∀ d, d ∈ fs → (d ≤ c)%Z → (d ≤ f)%Z).
Proof.
  intros Hs Hd Hc.
  assert (1 ∈ fs)%Z as H1 by (apply Hd; split; [lia|apply Z.divide_1_l]).
  assert (∃ pre f post, fs = pre ++ f :: post ∧ (f ≤ c)%Z ∧ Forall (λ g, (c < g)%Z) post ∧
    find_factor 0 (zlen fs - 1) fs c = zlen pre) as (pre & f & post & Hfs & Hf & Hpost & ->).
  { destruct (find_factor_spec fs c 0 (zlen fs - 1)) as
      [[-> Hall]|(pre & g & post & Hfs & Hpre & Hg & ->)].
    - destruct fs as [|f fs _] using rev_ind; [set_solver|]. exists fs, f, [].
      apply Forall_app in Hall as [_ Hall]. apply Forall_cons in Hall as [Hf _].
      rewrite zlen_app. unfold zlen. simpl. repeat split; [done|constructor|lia].
    - subst fs. assert (Forall (λ h, (c < h)%Z) (g :: post)) as Hgt.
      { apply StronglySorted_app_1_r in Hs. inversion Hs as [|? ? _ Hlt]; subst.
        constructor; [done|]. eapply Forall_impl; [exact Hlt|]. simpl. lia. }
      destruct pre as [|f pre _] using rev_ind.
      { rewrite Forall_forall in Hgt. specialize (Hgt 1%Z H1). lia. }
      exists pre, f, (g :: post). apply Forall_app in Hpre as [_ Hpre].
      apply Forall_cons in Hpre as [Hf _]. rewrite <-app_assoc, zlen_app. unfold zlen. simpl.
      repeat split; [done|done|lia]. }
  exists f. rewrite pynth_lookup by apply zlen_nonneg. unfold zlen. rewrite Nat2Z.id, Hfs.
  rewrite lookup_app_r, Nat.sub_diag by done. split; [done|]. split; [apply Z.leb_le; lia|].
  split; [set_solver|]. split; [done|]. intros d Hin Hle. subst fs.
  apply elem_of_app in Hin as [Hin|Hin].
  - apply Z.lt_le_incl. eapply StronglySorted_app_1_elem_of; [exact Hs|done|left].
  - apply elem_of_cons in Hin as [->|Hin]; [done|].
    rewrite Forall_forall in Hpost. specialize (Hpost d Hin). lia.
Qed.

(** The space after its first entity has been overwritten in place. *)
Definition put_size (name : string) (sp : space) (size : list Z) (cs : ConfigSpace) : ConfigSpace :=
  set_spaces (od_set (space_map cs) name
    (mkSpace (sp_kind sp) (sp_num_output sp) (<[0 := SplitEntity size]> (sp_entities sp))))
    (cs_entity_map cs) cs.

Lemma put_size_id name sp size cs :
  od_get (space_map cs) name = Some sp → sp_entities sp !! 0 = Some (SplitEntity size) →
  put_size name sp size cs = cs.
Proof.
  intros Hsp Hs. unfold put_size. rewrite list_insert_id by done.
  rewrite od_set_id by (by destruct sp). by destruct cs.
Qed.

Lemma write_size_put name sp size i v cs :
  sp_entities sp ≠ [] → (0 ≤ i < zlen size)%Z →
  write_size name (FromSpace name 0) i v (put_size name sp size cs) =
    (Ret tt, put_size name sp (<[Z.to_nat i := v]> size) cs).
Proof.
  intros Hne Hi. unfold write_size, deref. cbn [put_size set_spaces space_map].
  rewrite od_get_set_eq. unfold space_getitem. rewrite pynth_lookup by lia. cbn [sp_entities].
  destruct (sp_entities sp) as [|e ents] eqn:E; [done|]. simpl.
  unfold pyset. rewrite (bool_decide_false (i < 0)%Z), bool_decide_true by lia.
  unfold put_size, set_spaces. simpl. by rewrite od_set_set, E.
Qed.

Lemma fallback_loop_spec name sp cs constraints c0 :
  od_get (cs_entity_map cs) name = Some (FromSpace name 0) → sp_entities sp ≠ [] →
  Forall (λ c, (1 ≤ c)%Z) constraints → constraints !! 0 = Some c0 →
  ∀ k size now, length size = length constraints → k ≤ length size → 0 < k →
  (1 ≤ now ≤ c0)%Z →
  ∃ size', fallback_loop name (reverse (range 0 (Z.of_nat k))) constraints now
             (put_size name sp size cs) = (Ret tt, put_size name sp size' cs) ∧
    length size' = length size ∧ drop k size' = drop k size ∧ zprod (take k size') = now ∧
    Forall2 (λ s c, (0 < s ≤ c)%Z) (take k size') (take k constraints).
Proof.
  intros Hem Hne Hall H0. induction k as [|k IH]; intros size now Hlen Hk Hpos Hnow; [lia|].
  assert (reverse (range 0 (Z.of_nat (S k))) = Z.of_nat k :: reverse (range 0 (Z.of_nat k))) as ->.
  { rewrite <-(range_app 0 (Z.of_nat k)), reverse_app by lia.
    rewrite (range_cons (Z.of_nat k)), (range_nil (_ + 1)) by lia. done. }
  destruct (get_factors_upto_spec now (Z.sqrt now)) as (fs & Hfs & Hs & Hd); [lia|lia|].
  destruct (lookup_lt_is_Some_2 constraints k) as [c Hc]; [lia|].
  assert (1 ≤ c)%Z as Hc1 by (rewrite Forall_lookup in Hall; by eapply Hall).
  destruct (find_factor_largest now fs c Hs Hd Hc1) as (f & Hnth & Hfind & Hin & Hfc & Hmax).
  destruct (proj1 (Hd f) Hin) as [Hf0 [q Hq]].
  assert (1 ≤ q)%Z as Hq1 by nia.
  assert (now `div` f = q)%Z as Hdiv by (subst now; by rewrite Z.div_mul by lia).
  cbn [fallback_loop]. unfold sbind, slift, get_factors, sget.
  rewrite bool_decide_false by lia. rewrite Hfs, pynth_lookup, Nat2Z.id, Hc by lia.
  rewrite Hfind, Hnth. cbn [put_size set_spaces cs_entity_map]. rewrite Hem.
  fold (put_size name sp size cs).
  rewrite write_size_put by (done || (unfold zlen; lia)). rewrite Nat2Z.id.
  unfold pydiv. rewrite bool_decide_false, Hdiv by lia.
  assert (∃ size', fallback_loop name (reverse (range 0 (Z.of_nat k))) constraints q
      (put_size name sp (<[k:=f]> size) cs) = (Ret tt, put_size name sp size' cs) ∧
      length size' = length size ∧ drop k size' = drop k (<[k:=f]> size) ∧
      (zprod (take k size') * f)%Z = now ∧
      Forall2 (λ s c, (0 < s ≤ c)%Z) (take k size') (take k constraints))
    as (size' & Hrun & Hlen' & Hdrop & Hprod & Hrange).
  { destruct k as [|k].
    - exists (<[0:=f]> size). simpl. rewrite length_insert. repeat split; try done.
      assert (c = c0) as -> by congruence.
      assert (now ≤ f)%Z as Hle; [|nia].
      apply Hmax; [|lia]. apply Hd. split; [lia|]. by exists 1%Z; lia.
    - destruct (IH (<[S k:=f]> size) q) as (size' & ? & Hl & ? & Hp & ?);
        rewrite ?length_insert in *; try lia; [nia|].
      exists size'. rewrite Hp. repeat split; done. }
  assert (size' !! k = Some f) as Hsk.
  { rewrite <-(Nat.add_0_r k), <-lookup_drop, Hdrop, lookup_drop, Nat.add_0_r.
    apply list_lookup_insert_eq. lia. }
  exists size'. split; [exact Hrun|]. split; [done|]. split; [|split].
  - replace (S k) with (k + 1) by lia.
    rewrite <-!drop_drop, Hdrop, !drop_drop. apply drop_insert_lt. lia.
  - erewrite take_S_r by done. rewrite zprod_app. simpl. lia.
  - erewrite !take_S_r by done. apply Forall2_app; [done|]. by repeat constructor.
Qed.

(** [fallback_split] on a declared split of an axis of length [n] always
    finds a feasible split: each size stays within its constraint ([-1] is no
    constraint), their product is exactly [n], and the sizes are written into
    the entity that the space itself lists first. *)
Theorem fallback_split_spec name sp n size rest cs :
  od_get (space_map cs) name = Some sp → sp_kind sp = KSplit n → (1 ≤ n ≤ 10 ^ 10)%Z →
  od_get (cs_entity_map cs) name = Some (FromSpace name 0) →
  sp_entities sp !! 0 = Some (SplitEntity size) → zlen size = sp_num_output sp →
  length rest + 1 = length size → Forall (λ c, (c = -1 ∨ 1 ≤ c)%Z) rest →
  ∃ size', fallback_split name ((-1)%Z :: rest) cs = (Ret tt, put_size name sp size' cs) ∧
    cs_getitem name (put_size name sp size' cs) = Ret (SplitEntity size') ∧
    zprod size' = n ∧
    Forall2 (λ s c, (0 < s)%Z ∧ (c = -1 ∨ s ≤ c)%Z) size' ((-1)%Z :: rest).
Proof.
  intros Hsp Hkind Hn Hem Hent Hlen Hrest Hall.
  set (g := λ x : Z, if (x =? -1)%Z then 10000000000%Z else x).
  destruct (fallback_loop_spec name sp cs (g <$> ((-1)%Z :: rest)) 10000000000%Z Hem)
    with (k := length size) (size := size) (now := n)
    as (size' & Hrun & Hl & _ & Hp & Hr).
  - intros Hnil. by rewrite Hnil in Hent.
  - rewrite fmap_cons. constructor; [unfold g; simpl; lia|]. apply Forall_fmap.
    eapply Forall_impl; [exact Hall|]. intros c Hc. unfold compose, g. simpl in *.
    destruct (Z.eqb_spec c (-1)); lia.
  - done.
  - rewrite length_fmap. simpl. lia.
  - done.
  - lia.
  - lia.
  - rewrite put_size_id in Hrun by done. rewrite !take_ge in * by (rewrite ?length_fmap; simpl; lia).
    exists size'. split; [|split; [|split; [done|]]].
    + unfold fallback_split, sbind, sget, slift. rewrite Hsp, Hkind. unfold pyassert.
      rewrite bool_decide_true by (unfold zlen in *; simpl; lia). rewrite Hem.
      rewrite <-Hlen. exact Hrun.
    + unfold cs_getitem, put_size, deref. simpl. rewrite Hem. simpl. rewrite od_get_set_eq.
      unfold space_getitem. simpl. by destruct (sp_entities sp).
    + apply Forall2_fmap_r in Hr. eapply Forall2_impl; [exact Hr|]. intros s c. unfold g. simpl.
      destruct (Z.eqb_spec c (-1)); lia.
Qed.

(** The two examples of the documentation of [fallback_split]. *)
Definition doc_space (n : Z) : ConfigSpace :=
  set_spaces [("tile_0", mkSpace (KSplit n) 3 [SplitEntity [-1; 1; 1]%Z])]
    [("tile_0", FromSpace "tile_0" 0)] FallbackConfigEntity_init.

Example fallback_doc_128 :
  cs_getitem "tile_0" (fallback_split "tile_0" [-1; 8; 4]%Z (doc_space 128)).2
  = Ret (SplitEntity [4; 8; 4]%Z).
Proof. vm_compute. done. Qed.

Example fallback_doc_49 :
  cs_getitem "tile_0" (fallback_split "tile_0" [-1; 8; 4]%Z (doc_space 49)).2
  = Ret (SplitEntity [7; 7; 1]%Z).
Proof. vm_compute. done. Qed.

(** ** Where the caches and the reference log go wrong *)

Section Defects.
Context `{NumpyOk}.

(** Reading [range_length] between two knob declarations freezes it: the
    second declaration, made without a filter, leaves the cached value, so the
    reported length is that of the first knob alone. *)
Theorem stale_range_length a b ca cb :
  a ≠ b → (0 < zlen ca)%Z → (0 < zlen cb)%Z → (zlen ca < 2 ^ 63)%Z →
  ∃ cs1 cs2 cs3 cs4, (define_knob a ca ConfigSpace_init) = (Ret [], cs1) ∧
    range_length cs1 = (Ret (zlen ca), cs2) ∧ define_knob b cb cs2 = (Ret [], cs3) ∧
    range_length cs3 = (Ret (zlen ca), cs4) ∧ size_of (space_map cs3) = (zlen ca * zlen cb)%Z.
Proof.
  intros Hab Ha Hb Hlt. unfold define_knob.
  assert (∀ c, space_len (OtherOptionSpace_init c) = zlen c) as Hl.
  { intros c. unfold space_len, zlen. simpl. by rewrite length_fmap. }
  rewrite add_new_transform_returns; [|by repeat constructor|done|done|by rewrite Hl].
  do 4 eexists. split; [done|]. split.
  { unfold range_length. simpl. unfold space_lens. simpl. rewrite np_prod_small; simpl;
      rewrite Hl, ?Z.mul_1_r; [done|]. lia. }
  rewrite add_new_transform_returns; [| |done|done|by rewrite Hl].
  - split; [done|]. simpl. rewrite decide_False by done. split; [done|].
    unfold size_of. simpl. rewrite !Hl. lia.
  - simpl. split; [apply NoDup_singleton|]. split; [constructor; [simpl; by rewrite Hl|done]|].
    unfold size_of. simpl. rewrite Hl. lia.
Qed.

(** A reference record in the form the search writes ([-1] first, positive
    factors after it) makes [fallback_with_reference_log] raise [ValueError]
    whenever a split knob exists: the product of its sizes is negative and has
    no factors. *)
Theorem reference_log_negative cs config log name n sp fs factors :
  (filter (λ p, is_split_space p.2 = true) (space_map cs)) = [(name, sp)] →
  sp_kind sp = KSplit n → get_factors n = Ret factors →
  od_get config name = Some (SplitEntity ((-1)%Z :: fs)) →
  Forall (λ f, (0 < f)%Z) fs → (zprod fs < 2 ^ 63)%Z →
  fallback_with_reference_log (config :: log) cs = (Raise ValueError, cs).
Proof.
  intros Hsp Hkind Hfac Hcfg Hpos Hlt. unfold fallback_with_reference_log, sbind, sget, slift.
  rewrite Hsp. simpl. rewrite Hkind, Hfac. simpl. unfold config_size. rewrite Hcfg. simpl.
  apply zprod_pos in Hpos. rewrite np_prod_wrap. cbn [zprod foldr].
  fold (zprod fs). rewrite wrap64_small by lia. unfold get_factors.
  by rewrite bool_decide_true by lia.
Qed.
End Defects.

(** Three knobs of 2^22 options have an index range of length 0: the int64
    product of the lengths wraps around. *)
Lemma range_length_overflow `{NumpyOk} cs :
  space_lens cs = [2 ^ 22; 2 ^ 22; 2 ^ 22]%Z → cs_range_length cs = None →
  (range_length cs).1 = Ret 0%Z.
Proof. intros Hl Hr. unfold range_length. rewrite Hr, Hl, np_prod_wrap. done. Qed.
