(* ===== verification/Tuner.v ===== *)
(** * The tuners of [autotvm.tuner]

    The tuning loop of the base class, over the interface that the concrete
    tuners implement, and the grid, random and genetic tuners.
    Sources: src/python/tvm/autotvm/tuner/{tuner,index_based_tuner,ga_tuner,
    callback,metric}.py. *)

From S2P Require Import Prelude PyFloat Transforms ConfigSpace.

(** ** Measurements *)

(** [MeasureResult.costs]: run times, or a traceback and an error. *)
Inductive costs_t :=
  | CostTimes (l : list flt)
  | CostError (tb error : string).

Record mresult := mkResult {
  error_no : Z;
  costs : costs_t;
  timestamp : flt
}.

(** ** The interface of a tuner and the tuning loop *)

(** What the loop asks of a concrete tuner with state [S]. *)
Class TunerImpl (S : Type) := {
  t_has_next : ST S bool;
  t_next_batch : Z → ST S (list ConfigEntity);
  t_update : list (ConfigEntity * mresult) → ST S unit
}.

(** The fields of [Tuner], and the two globals the loop sets: the debug level
    of the logger and [GLOBAL_SCOPE.in_tuning]. *)
Record Tuner (S : Type) := mkTuner {
  best_config : option ConfigEntity;
  best_flops : flt;
  best_measure_pair : option (ConfigEntity * mresult);
  best_iter : Z;
  error_ct_threshold : Z;
  ttl : option Z;
  n_trial : option Z;
  early_stopping : option Z;
  log_debug : bool;
  in_tuning : bool;
  impl : S
}.
Arguments mkTuner {S}.
Arguments best_config {S}.
Arguments best_flops {S}.
Arguments best_measure_pair {S}.
Arguments best_iter {S}.
Arguments error_ct_threshold {S}.
Arguments ttl {S}.
Arguments n_trial {S}.
Arguments early_stopping {S}.
Arguments log_debug {S}.
Arguments in_tuning {S}.
Arguments impl {S}.

(** [Tuner.__init__]. *)
Definition Tuner_init {S} (s : S) : Tuner S :=
  mkTuner None f0 None 0 150 None None None false false s.

(** [Tuner.reset]. *)
Definition reset {S} (t : Tuner S) : Tuner S :=
  mkTuner None f0 None (best_iter t) (error_ct_threshold t) (ttl t) (n_trial t)
    (early_stopping t) (log_debug t) (in_tuning t) (impl t).

(** [Tuner.set_error_threshold]. *)
Definition set_error_threshold {S} (threshold : Z) (t : Tuner S) : Tuner S :=
  mkTuner (best_config t) (best_flops t) (best_measure_pair t) (best_iter t) threshold (ttl t)
    (n_trial t) (early_stopping t) (log_debug t) (in_tuning t) (impl t).

Definition set_impl {S} (s : S) (t : Tuner S) : Tuner S :=
  mkTuner (best_config t) (best_flops t) (best_measure_pair t) (best_iter t)
    (error_ct_threshold t) (ttl t) (n_trial t) (early_stopping t) (log_debug t) (in_tuning t) s.

Definition set_best {S} (inp : ConfigEntity) (res : mresult) (flops : flt) (iter : Z)
    (t : Tuner S) : Tuner S :=
  mkTuner (Some inp) flops (Some (inp, res)) iter (error_ct_threshold t) (ttl t) (n_trial t)
    (early_stopping t) (log_debug t) (in_tuning t) (impl t).

Definition set_flags {S} (ttl' : option Z) (debug tuning : bool) (t : Tuner S) : Tuner S :=
  mkTuner (best_config t) (best_flops t) (best_measure_pair t) (best_iter t)
    (error_ct_threshold t) ttl' (n_trial t) (early_stopping t) debug tuning (impl t).

Definition set_limits {S} (n early : Z) (t : Tuner S) : Tuner S :=
  mkTuner (best_config t) (best_flops t) (best_measure_pair t) (best_iter t)
    (error_ct_threshold t) (ttl t) (Some n) (Some early) (log_debug t) true (impl t).

(** The tuner with the local variables of [tune]; [calls] is what the callbacks
    have been called with. *)
Record tune_state (S : Type) := mkTS {
  ts_tuner : Tuner S;
  ts_i : Z;
  ts_error_ct : Z;
  ts_errors : list string;
  ts_calls : list (list (ConfigEntity * mresult))
}.
Arguments mkTS {S}.
Arguments ts_tuner {S}.
Arguments ts_i {S}.
Arguments ts_error_ct {S}.
Arguments ts_errors {S}.
Arguments ts_calls {S}.

Section Tune.
Context `{Numpy} {S : Type} `{TunerImpl S}.
(** [task.flop], the hardware behind [measure_batch] and its parallelism. *)
Context (flop : flt) (measure_batch : Z → list ConfigEntity → list mresult) (n_parallel : Z).

(** The flops of a result and, for a failed one, its error message. *)
Definition result_flops (res : mresult) : py (flt * option string) :=
  if decide (error_no res = 0)%Z then
    match costs res with
    | CostTimes l => Ret (fdiv_raw flop (np_mean l), None)
    | CostError _ _ => Raise TypeError
    end
  else
    match costs res with
    | CostError tb error => Ret (f0, Some (tb +:+ String "010" EmptyString +:+ error))
    | CostTimes [_; _] => Raise TypeError
    | CostTimes _ => Raise ValueError
    end.

(** A step on the concrete tuner inside the loop. *)
Definition on_impl {A} (m : ST S A) : ST (tune_state S) A := λ s,
  let '(r, i') := m (impl (ts_tuner s)) in
  (r, mkTS (set_impl i' (ts_tuner s)) (ts_i s) (ts_error_ct s) (ts_errors s) (ts_calls s)).

(** The loop "keep best config" over [enumerate(zip(inputs, results))]. *)
Fixpoint keep_best (pairs : list (ConfigEntity * mresult)) (k : Z) : ST (tune_state S) unit :=
  match pairs with
  | [] => sret tt
  | (inp, res) :: pairs' =>
      let! (flops, err) := slift (result_flops res) in
      let! s := sget in
      let t := ts_tuner s in
      let error_ct := match err with None => 0 | Some _ => ts_error_ct s + 1 end%Z in
      let errors := match err with None => ts_errors s | Some e => ts_errors s ++ [e] end in
      let t := if fltb (best_flops t) flops then set_best inp res flops (ts_i s + k) t else t in
      let! _ := sput (mkTS t (ts_i s) error_ct errors (ts_calls s)) in
      keep_best pairs' (k + 1)
  end.

(** One iteration; the result tells whether the loop goes on. *)
Definition tune_iter (n_trial early : Z) : ST (tune_state S) bool :=
  let! more := on_impl t_has_next in
  if negb more then sret false else
  let! s := sget in
  let! configs := on_impl (t_next_batch (Z.min n_parallel (n_trial - ts_i s))) in
  let results := measure_batch (ts_i s) configs in
  let pairs := zip configs results in
  let! _ := keep_best pairs 0 in
  let! s := sget in
  let i := (ts_i s + zlen results)%Z in
  let t := ts_tuner s in
  let t := set_flags (Some (Z.min (early + best_iter t) n_trial - i)%Z)
             (log_debug t) (in_tuning t) t in
  let! _ := sput (mkTS t i (ts_error_ct s) (ts_errors s) (ts_calls s)) in
  let! _ := on_impl (t_update pairs) in
  let! s := sget in
  let t := ts_tuner s in
  let! _ := sput (mkTS t (ts_i s) (ts_error_ct s) (ts_errors s) (ts_calls s ++ [pairs])) in
  if bool_decide (best_iter t + early ≤ ts_i s)%Z then sret false else
  let t := set_flags (ttl t) (bool_decide (error_ct_threshold t < ts_error_ct s)%Z)
             (in_tuning t) t in
  let! _ := sput (mkTS t (ts_i s) (ts_error_ct s) (ts_errors s) (ts_calls s ++ [pairs])) in
  sret true.

(** [while i < n_trial], with the number of iterations allowed as fuel. *)
Fixpoint tune_loop (fuel : nat) (n_trial early : Z) : ST (tune_state S) unit :=
  let! s := sget in
  if bool_decide (ts_i s < n_trial)%Z then
    match fuel with
    | O => sraise RecursionError
    | Datatypes.S fuel' =>
        let! go := tune_iter n_trial early in
        if go then tune_loop fuel' n_trial early else sret tt
    end
  else sret tt.

(** [Tuner.tune]: the callbacks' arguments, and the errors written to the log
    file when no trial succeeded.  Every batch has a config, so [n_trial]
    iterations are enough. *)
Definition tune (n_trial : Z) (early : option Z) (t : Tuner S) :
    py (list (list (ConfigEntity * mresult)) * option (list string)) * Tuner S :=
  let early := int_or early 1000000000 in
  let s0 := mkTS (set_limits n_trial early t) 0 0 [] [] in
  match tune_loop (Z.to_nat n_trial) n_trial early s0 with
  | (Raise e, s) => (Raise e, ts_tuner s)
  | (Ret _, s) =>
      let report := if bool_decide (ts_error_ct s = ts_i s) then Some (ts_errors s) else None in
      (Ret (ts_calls s, report), set_flags (ttl (ts_tuner s)) (log_debug (ts_tuner s)) false (ts_tuner s))
  end.
End Tune.

(** ** Index based tuners *)

(** The fields of [IndexBaseTuner] and the cursor of [GridSearchTuner].  The
    grid tuner appends its cursor to [visited] even when it is [None]. *)
Record IndexTuner := mkIT {
  it_space : ConfigSpace;
  it_visited : list (option Z);
  it_begin : Z;
  it_end : Z;
  it_visited_max : Z;
  it_index : option Z
}.

Section Index.
Context `{Numpy}.

(** [IndexBaseTuner.__init__] on the space of the task. *)
Definition IndexBaseTuner_init (range_idx : option (Z * Z)) : ST ConfigSpace IndexTuner :=
  let! r := range_length in
  let '(begin_idx, end_idx) := default (0, r - 1)%Z range_idx in
  let! _ := slift (pyassert (bool_decide (0 ≤ begin_idx)%Z)) in
  let end_idx := (end_idx + 1)%Z in
  let! r := range_length in
  let! _ := slift (pyassert (bool_decide (end_idx ≤ r)%Z)) in
  let! _ := slift (pyassert (bool_decide (0 < end_idx - begin_idx)%Z)) in
  let! visited_max := subrange_length begin_idx end_idx in
  let! cs := sget in
  sret (mkIT cs [] begin_idx end_idx visited_max None).

(** [IndexBaseTuner.has_next]. *)
Definition it_has_next (t : IndexTuner) : bool :=
  bool_decide (zlen (it_visited t) < it_visited_max t)%Z.

(** A step on the space of the tuner. *)
Definition on_space {A} (m : ST ConfigSpace A) : ST IndexTuner A := λ t,
  let '(r, cs) := m (it_space t) in
  (r, mkIT cs (it_visited t) (it_begin t) (it_end t) (it_visited_max t) (it_index t)).

Definition set_cursor (index : option Z) (t : IndexTuner) : IndexTuner :=
  mkIT (it_space t) (it_visited t) (it_begin t) (it_end t) (it_visited_max t) index.

Definition visit (index : option Z) (t : IndexTuner) : IndexTuner :=
  mkIT (it_space t) (it_visited t ++ [index]) (it_begin t) (it_end t) (it_visited_max t) (it_index t).

(** [self.space.get_next_index(self.index, start=..., end=...)]; adding to a
    [None] index is a [TypeError]. *)
Definition next_cursor : ST IndexTuner unit :=
  let! t := sget in
  match it_index t with
  | None => sraise TypeError
  | Some i =>
      let! j := on_space (get_next_index i 1 (Some (it_begin t)) (Some (it_end t))) in
      let! t := sget in
      sput (set_cursor j t)
  end.

(** [GridSearchTuner.__init__]. *)
Definition GridSearchTuner_init (range_idx : option (Z * Z)) (cs : ConfigSpace) : py IndexTuner :=
  match IndexBaseTuner_init range_idx cs with
  | (Raise e, _) => Raise e
  | (Ret t, _) =>
      let init :=
        let! _ := sput (set_cursor (Some (it_begin t)) t) in
        let! ok := on_space (is_index_valid (it_begin t)) in
        if ok then sret tt else next_cursor in
      match init t with (Raise e, _) => Raise e | (Ret _, t) => Ret t end
  end.

(** [GridSearchTuner.next_batch]; every iteration adds a config to [ret]. *)
Fixpoint grid_next_batch (batch_size : nat) : ST IndexTuner (list ConfigEntity) :=
  match batch_size with
  | O => sret []
  | S n =>
      let! t := sget in
      if it_has_next t then
        let! _ := sput (visit (it_index t) t) in
        let! c := match it_index t with
                  | None => sraise TypeError
                  | Some i => on_space (cs_get i)
                  end in
        let! _ := next_cursor in
        let! ret := grid_next_batch n in
        sret (c :: ret)
      else sret []
  end.

(** [RandomTuner.next_batch]: one sequence of raw draws per call of
    [get_rand_index]; [None] means that the draws were used up. *)
Fixpoint random_next_batch (batch_size : nat) (draws : list (list Z)) :
    ST IndexTuner (option (list ConfigEntity)) :=
  match batch_size with
  | O => sret (Some [])
  | S n =>
      let! t := sget in
      if it_has_next t then
        match draws with
        | [] => sret None
        | ds :: draws' =>
            let! o := on_space (get_rand_index (Some (it_begin t)) (Some (it_end t))
                                  (omap id (it_visited t)) ds) in
            match o with
            | None => sret None
            | Some index =>
                let! t := sget in
                let! _ := sput (visit (Some index) t) in
                let! c := on_space (cs_get index) in
                let! ret := random_next_batch n draws' in
                sret (option_map (cons c) ret)
            end
        end
      else sret (Some [])
  end.
End Index.

(** The grid tuner behind the interface. *)
#[global] Instance grid_tuner `{Numpy} : TunerImpl IndexTuner := {|
  t_has_next := λ t, (Ret (it_has_next t), t);
  t_next_batch := λ n, grid_next_batch (Z.to_nat n);
  t_update := λ _, sret tt
|}.

(** ** The genetic tuner *)

(** A gene is a knob vector; [visited] is a set of indices, kept as a list
    without repetition. *)
Record GATuner := mkGA {
  ga_space : ConfigSpace;
  ga_pop_size : Z;
  ga_elite_num : Z;
  ga_mutation_prob : flt;
  ga_visited : list Z;
  ga_genes : list (list Z);
  ga_scores : list flt;
  ga_elites : list (list Z);
  ga_elite_scores : list flt;
  ga_trial_pt : Z
}.

(** One round of the crossover loop: the two parents drawn by
    [np.random.choice], the raw draw for the crossing point, and for every
    dimension the uniform variate and the raw draw of a mutation. *)
Record ga_draw := mkDraw {
  gd_p1 : Z;
  gd_p2 : Z;
  gd_point : Z;
  gd_mut : list (flt * Z)
}.

(** [s.add(x)]. *)
Definition set_add (x : Z) (s : list Z) : list Z := if bool_decide (x ∈ s) then s else s ++ [x].

Section Genetic.
Context `{Numpy}.
(** The iteration order of a set of ints, [np.argpartition] and [task.flop]. *)
Context (set_order : list Z → list Z) (np_argpartition : list flt → Z → list Z) (flop : flt).

(** [GATuner.__init__]; [None] means that sampling used up its draws. *)
Definition GATuner_init (pop_size elite_num : Z) (mutation_prob : flt) (draws : list Z) :
    ST ConfigSpace (option GATuner) :=
  let! _ := slift (pyassert (bool_decide (elite_num ≤ pop_size)%Z)) in
  let! n := cs_len in
  let pop_size := Z.min pop_size n in
  let elite_num := Z.min pop_size elite_num in
  let! o := sample_ints pop_size draws in
  match o with
  | None => sret None
  | Some visited =>
      let! genes := smap point2knob (set_order visited) in
      let! cs := sget in
      sret (Some (mkGA cs pop_size elite_num mutation_prob visited genes [] [] [] 0))
  end.

Definition ga_on_space {A} (m : ST ConfigSpace A) : ST GATuner A := λ t,
  let '(r, cs) := m (ga_space t) in
  (r, mkGA cs (ga_pop_size t) (ga_elite_num t) (ga_mutation_prob t) (ga_visited t) (ga_genes t)
        (ga_scores t) (ga_elites t) (ga_elite_scores t) (ga_trial_pt t)).

(** [GATuner.has_next]. *)
Definition ga_has_next : ST GATuner bool :=
  let! t := sget in
  let! n := ga_on_space cs_len in
  sret (bool_decide (zlen (ga_visited t) - (zlen (ga_genes t) - ga_trial_pt t) < n)%Z).

(** [GATuner.next_batch]. *)
Fixpoint ga_next_batch (batch_size : nat) : ST GATuner (list ConfigEntity) :=
  match batch_size with
  | O => sret []
  | S n =>
      let! more := ga_has_next in
      if more then
        let! t := sget in
        let! pt := slift (pymod (ga_trial_pt t) (ga_pop_size t)) in
        let! gene := slift (pynth (ga_genes t) pt) in
        let! _ := sput (mkGA (ga_space t) (ga_pop_size t) (ga_elite_num t) (ga_mutation_prob t)
                          (ga_visited t) (ga_genes t) (ga_scores t) (ga_elites t)
                          (ga_elite_scores t) (ga_trial_pt t + 1)) in
        let! p := ga_on_space (knob2point gene) in
        let! c := ga_on_space (cs_get p) in
        let! ret := ga_next_batch n in
        sret (c :: ret)
      else sret []
  end.

(** The score [update] records for a result. *)
Definition ga_score (res : mresult) : py flt :=
  if decide (error_no res = 0)%Z then
    match costs res with
    | CostTimes l => Ret (fdiv_raw flop (np_mean l))
    | CostError _ _ => Raise TypeError
    end
  else Ret f0.

(** The last generation: every valid index not visited yet. *)
Fixpoint unvisited_genes (idxs : list Z) (visited : list Z) (next : list (list Z)) :
    ST ConfigSpace (list Z * list (list Z)) :=
  match idxs with
  | [] => sret (visited, next)
  | idx :: idxs' =>
      let! ok := is_index_valid idx in
      if ok && negb (bool_decide (idx ∈ visited)) then
        let! g := point2knob idx in
        unvisited_genes idxs' (set_add idx visited) (next ++ [g])
      else unvisited_genes idxs' visited next
  end.

(** The mutation loop over [enumerate(self.space.dims)]. *)
Fixpoint mutate (mutation_prob : flt) (ds : list Z) (muts : list (flt * Z)) (j : Z)
    (gene : list Z) : py (list Z) :=
  match ds, muts with
  | dim :: ds', (r, d) :: muts' =>
      let? gene := if fltb r mutation_prob
                   then let? v := randrange 0 dim d in pyset gene j v
                   else Ret gene in
      mutate mutation_prob ds' muts' (j + 1) gene
  | _, _ => Ret gene
  end.

(** The crossover loop; [None] when the draws are used up.  [np.random.choice] raises
    for two of fewer than two genes. *)
Fixpoint crossover (pop_size : Z) (mutation_prob : flt) (genes : list (list Z))
    (draws : list ga_draw) (visited : list Z) (next : list (list Z)) :
    ST ConfigSpace (option (list Z * list (list Z))) :=
  if bool_decide (zlen next < pop_size)%Z then
    if bool_decide (zlen genes < 2)%Z then sraise ValueError else
    match draws with
    | [] => sret None
    | d :: draws' =>
        let! p1 := slift (pynth genes (gd_p1 d)) in
        let! p2 := slift (pynth genes (gd_p2 d)) in
        let! ds := dims in
        let! point := slift (randrange 0 (zlen ds) (gd_point d)) in
        let tmp := take (Z.to_nat point) p1 ++ drop (Z.to_nat point) p2 in
        let! tmp := slift (mutate mutation_prob ds (gd_mut d) 0 tmp) in
        let! p := knob2point tmp in
        let! ok := is_index_valid p in
        if ok then crossover pop_size mutation_prob genes draws' (set_add p visited) (next ++ [tmp])
        else crossover pop_size mutation_prob genes draws' visited next
    end
  else sret (Some (visited, next)).

(** The generation step of [update]; [false] means that the draws were used up. *)
Definition ga_generation (draws : list ga_draw) : ST GATuner bool :=
  let! n := ga_on_space cs_len in
  let! t := sget in
  if bool_decide (n - zlen (ga_visited t) ≤ ga_pop_size t)%Z then
    let! r := ga_on_space range_length in
    let! (visited, next) := ga_on_space (unvisited_genes (range 0 r) (ga_visited t) []) in
    let! t := sget in
    let! _ := sput (mkGA (ga_space t) (ga_pop_size t) (ga_elite_num t) (ga_mutation_prob t)
                      visited next [] (ga_elites t) (ga_elite_scores t) 0) in
    sret true
  else
    let genes := ga_genes t ++ ga_elites t in
    let scores := take (length (ga_genes t)) (ga_scores t) ++ ga_elite_scores t in
    let elite_indexes := last_k (ga_elite_num t) (np_argpartition scores (- ga_elite_num t)) in
    let! elites := slift (pymap (pynth genes) elite_indexes) in
    let! elite_scores := slift (pymap (pynth scores) elite_indexes) in
    let! _ := sput (mkGA (ga_space t) (ga_pop_size t) (ga_elite_num t) (ga_mutation_prob t)
                      (ga_visited t) (ga_genes t) (ga_scores t) elites elite_scores
                      (ga_trial_pt t)) in
    let! o := ga_on_space (crossover (ga_pop_size t) (ga_mutation_prob t) genes draws
                             (ga_visited t) []) in
    match o with
    | None => sret false
    | Some (visited, next) =>
        let! t := sget in
        let! _ := sput (mkGA (ga_space t) (ga_pop_size t) (ga_elite_num t) (ga_mutation_prob t)
                          visited next [] (ga_elites t) (ga_elite_scores t) 0) in
        sret true
    end.

(** [GATuner.update]. *)
Definition ga_update (draws : list ga_draw) (pairs : list (ConfigEntity * mresult)) : ST GATuner bool :=
  let! _ := sfor pairs (λ '(_, res),
    let! y := slift (ga_score res) in
    let! t := sget in
    sput (mkGA (ga_space t) (ga_pop_size t) (ga_elite_num t) (ga_mutation_prob t)
            (ga_visited t) (ga_genes t) (ga_scores t ++ [y]) (ga_elites t)
            (ga_elite_scores t) (ga_trial_pt t))) in
  let! t := sget in
  if bool_decide (zlen (ga_genes t) ≤ zlen (ga_scores t))%Z then
    let! n := ga_on_space cs_len in
    if bool_decide (zlen (ga_visited t) < n)%Z then ga_generation draws else sret true
  else sret true.
End Genetic.

(** ** Monitors *)

Record Monitor := mkMonitor { mon_scores : list flt; mon_timestamps : list flt }.

(** [Monitor.__init__] and [Monitor.reset]. *)
Definition Monitor_init : Monitor := mkMonitor [] [].
Definition Monitor_reset (m : Monitor) : Monitor := mkMonitor [] [].

(** [Monitor.__call__]. *)
Fixpoint Monitor_call `{Numpy} (flop : flt) (pairs : list (ConfigEntity * mresult)) : ST Monitor unit :=
  match pairs with
  | [] => sret tt
  | (_, res) :: pairs' =>
      let! y := slift (ga_score flop res) in
      let! m := sget in
      let! _ := sput (mkMonitor (mon_scores m ++ [y]) (mon_timestamps m ++ [timestamp res])) in
      Monitor_call flop pairs'
  end.
