(* ===== verification/TunerSpec.v ===== *)
(** * Correctness of the tuners

    The index based tuners enumerate the valid indices of their range, the
    genetic tuner only ever proposes valid configurations, and the tuning loop,
    proved against the interface [TunerImpl], keeps the best measurement. *)

From S2P Require Import Prelude PyFloat Transforms ConfigSpace ConfigSpaceSpec Tuner.

(** ** The grid tuner *)

(** The configuration an index stands for. *)
Definition config_at (cs : ConfigSpace) (i : Z) : ConfigEntity :=
  mkCE i (cs_code_hash cs) (entities_at (space_map cs) i).

Lemma config_at_core cs cs' i : clear_cache cs' = clear_cache cs → config_at cs' i = config_at cs i.
Proof. intros Hc. apply same_core_fields in Hc as (H1 & _ & H2 & _). unfold config_at. by rewrite H1, H2. Qed.

Section Grid.
Context `{NumpyOk}.

Lemma int_or_pos z d : (0 < z)%Z → int_or (Some z) d = z.
Proof. intros Hz. simpl. by rewrite decide_False by lia. Qed.

Lemma int_or_zero z : int_or (Some z) 0 = z.
Proof. simpl. by case_decide. Qed.

(** A range of indices of the space. *)
Definition index_range (cs : ConfigSpace) (b e : Z) : Prop :=
  (0 ≤ b < e)%Z ∧ (e ≤ size_of (space_map cs))%Z.

Lemma IndexBaseTuner_init_returns cs range_idx b e :
  cs_ok cs → default (0, size_of (space_map cs) - 1)%Z range_idx = (b, e) →
  index_range cs b (e + 1) →
  ∃ cs', IndexBaseTuner_init range_idx cs =
      (Ret (mkIT cs' [] b (e + 1) (count_valid cs b (e + 1)) None), cs') ∧
    cs_ok cs' ∧ clear_cache cs' = clear_cache cs.
Proof.
  intros Hok Hr [Hb He].
  destruct (range_length_returns cs Hok) as (cs1 & H1 & Hok1 & Hc1).
  destruct (same_core_fields _ _ Hc1) as (Hsm1 & _).
  destruct (range_length_returns cs1 Hok1) as (cs2 & H2 & Hok2 & Hc2). rewrite Hc1 in Hc2.
  destruct (same_core_fields _ _ Hc2) as (Hsm2 & _).
  destruct (subrange_length_returns cs2 b (e + 1) Hok2) as (cs3 & H3 & Hok3 & Hc3);
    [rewrite Hsm2; lia|].
  exists cs3. rewrite Hc3, Hc2. split; [|done].
  unfold IndexBaseTuner_init, sbind, slift, pyassert. rewrite H1, Hr.
  rewrite bool_decide_true by lia. rewrite H2, Hsm1, !bool_decide_true by lia.
  by rewrite H3, (count_valid_core cs cs2).
Qed.

(** The state of the grid tuner after [k] configurations of the range. *)
Record grid_inv (cs : ConfigSpace) (b e : Z) (k : nat) (t : IndexTuner) : Prop := {
  gi_ok : cs_ok (it_space t);
  gi_core : clear_cache (it_space t) = clear_cache cs;
  gi_begin : it_begin t = b;
  gi_end : it_end t = e;
  gi_visited : it_visited t = Some <$> take k (valid_in cs b e);
  gi_max : it_visited_max t = zlen (valid_in cs b e);
  gi_index : it_index t = valid_in cs b e !! k;
  gi_le : k ≤ length (valid_in cs b e)
}.

Lemma valid_in_after cs b e k i :
  valid_in cs b e !! k = Some i →
  (b ≤ i < e)%Z ∧ valid_at cs i = true ∧ valid_in cs (i + 1) e !! 0 = valid_in cs b e !! S k.
Proof.
  intros Hi. remember (Z.to_nat (e - b)) as n eqn:Hn. revert b k Hn Hi.
  induction n as [|n IH]; intros b k Hn Hi.
  { unfold valid_in in Hi. by rewrite range_nil in Hi by lia. }
  rewrite (valid_in_cons cs b) in * by lia. destruct (valid_at cs b) eqn:Hv.
  - destruct k as [|k]; [injection Hi as <-; split; [lia|]; by split|].
    destruct (IH (b + 1)%Z k) as (? & ? & Hn'); [lia|done|]. split; [lia|]. done.
  - destruct (IH (b + 1)%Z k) as (? & ? & Hn'); [lia|done|]. split; [lia|]. done.
Qed.

Lemma next_cursor_returns cs b e t i :
  cs_ok (it_space t) → clear_cache (it_space t) = clear_cache cs → index_range cs b e →
  it_begin t = b → it_end t = e → it_index t = Some i → (b ≤ i < e)%Z →
  ∃ cs', next_cursor t = (Ret tt, set_cursor (valid_in cs (i + 1) e !! 0)
           (mkIT cs' (it_visited t) b e (it_visited_max t) (Some i))) ∧
         cs_ok cs' ∧ clear_cache cs' = clear_cache cs.
Proof.
  intros Hok Hc [Hb He] Hbt Het Hit Hi.
  destruct (same_core_fields _ _ Hc) as (Hsm & _).
  destruct (get_next_index_returns (it_space t) i 1 (Some b) (Some e)) as (cs' & Hn & Hok' & Hc');
    rewrite ?int_or_zero, ?int_or_pos, ?Hsm by lia; try lia; [done|].
  exists cs'. rewrite Hc'. split; [|done]. rewrite int_or_pos in Hn by lia.
  unfold next_cursor, sbind, sget, on_space. rewrite Hit, Hbt, Het, Hn.
  by rewrite (valid_in_core cs (it_space t)).
Qed.

Lemma grid_init_inv cs range_idx b e :
  cs_ok cs → default (0, size_of (space_map cs) - 1)%Z range_idx = (b, e) →
  index_range cs b (e + 1) →
  ∃ t, GridSearchTuner_init range_idx cs = Ret t ∧ grid_inv cs b (e + 1) 0 t.
Proof.
  intros Hok Hr Hrange. unfold GridSearchTuner_init.
  destruct (IndexBaseTuner_init_returns cs range_idx b e Hok Hr Hrange) as (cs1 & -> & Hok1 & Hc1).
  pose proof Hrange as [Hb He].
  destruct (same_core_fields _ _ Hc1) as (Hsm1 & _).
  destruct (is_index_valid_returns cs1 b Hok1) as (cs2 & H2 & Hok2 & Hc2); [rewrite Hsm1; lia|].
  rewrite Hc1 in Hc2. rewrite (valid_at_core cs cs1) in H2 by done.
  unfold sbind at 1, sput at 1. cbn [it_begin]. unfold sbind, on_space. simpl. rewrite H2.
  destruct (valid_at cs b) eqn:Hv.
  - eexists. split; [done|]. split; simpl; try done; try lia.
    + by rewrite count_valid_length.
    + by rewrite valid_in_cons, Hv by lia.
  - destruct (next_cursor_returns cs b (e + 1)
      (mkIT cs2 [] b (e + 1) (count_valid cs b (e + 1)) (Some b)) b)
      as (cs3 & H3 & Hok3 & Hc3); try done; [lia|].
    rewrite H3. eexists. split; [done|]. split; simpl; try done; try lia.
    + by rewrite count_valid_length.
    + by rewrite (valid_in_cons cs b), Hv by lia.
Qed.

Lemma grid_next_batch_returns cs b e : index_range cs b e → ∀ n k t,
  grid_inv cs b e k t →
  ∃ t', grid_next_batch n t = (Ret (config_at cs <$> take n (drop k (valid_in cs b e))), t') ∧
        grid_inv cs b e (Nat.min (k + n) (length (valid_in cs b e))) t'.
Proof.
  intros Hrange. set (vs := valid_in cs b e).
  induction n as [|n IH]; intros k t Hinv.
  { exists t. simpl. split; [done|]. rewrite Nat.add_0_r, Nat.min_l; [done|]. apply (gi_le _ _ _ _ _ Hinv). }
  pose proof Hinv as [Hok Hc Hb He Hvis Hmax Hidx Hle]. fold vs in Hvis, Hmax, Hidx, Hle.
  cbn [grid_next_batch]. unfold sbind at 1, sget at 1. unfold it_has_next.
  assert (zlen (it_visited t) = Z.of_nat k) as Hk.
  { unfold zlen. by rewrite Hvis, length_fmap, length_take, Nat.min_l. }
  rewrite Hk, Hmax. case_bool_decide as Hlt; unfold zlen in Hlt; last first.
  { exists t. rewrite drop_ge by lia. rewrite take_nil.
    rewrite Nat.min_r by lia. replace (length vs) with k by lia. done. }
  destruct (lookup_lt_is_Some_2 vs k) as [i Hi]; [lia|].
  destruct (valid_in_after cs b e k i Hi) as (Hir & Hiv & Hnext).
  destruct (same_core_fields _ _ Hc) as (Hsm & _).
  destruct (cs_get_returns (it_space t) i) as (cs1 & H1 & Hok1 & Hc1);
    [done|destruct Hrange; rewrite Hsm; lia|by rewrite (valid_at_core cs)|].
  rewrite Hc in Hc1.
  destruct (next_cursor_returns cs b e
    (mkIT cs1 (it_visited t ++ [Some i]) b e (it_visited_max t) (Some i)) i)
    as (cs2 & H2 & Hok2 & Hc2); try done. cbn [it_visited it_visited_max] in H2.
  destruct (IH (S k) (set_cursor (valid_in cs (i + 1) e !! 0)
     (mkIT cs2 (it_visited t ++ [Some i]) b e (it_visited_max t) (Some i)))) as (t' & H3 & Hinv3).
  { split; simpl; try done; fold vs; [|lia].
    rewrite Hvis. erewrite take_S_r by done. by rewrite fmap_app. }
  exists t'. split; [|by rewrite <-Nat.add_succ_comm].
  unfold sbind, sput, on_space, visit. rewrite Hidx, Hi. simpl. rewrite H1, Hb, He, H2.
  cbv beta iota. fold vs in H3. rewrite H3. unfold sret. rewrite (drop_S vs i k Hi). simpl.
  do 3 f_equal. by rewrite <-(config_at_core cs (it_space t)).
Qed.

(** Batches requested one after the other. *)
Fixpoint grid_batches (ns : list nat) : ST IndexTuner (list ConfigEntity) :=
  match ns with
  | [] => sret []
  | n :: ns' => let! c := grid_next_batch n in let! cs := grid_batches ns' in sret (c ++ cs)
  end.

Lemma grid_batches_returns cs b e ns : index_range cs b e → ∀ k t,
  grid_inv cs b e k t →
  ∃ t', grid_batches ns t = (Ret (config_at cs <$> take (sum_list ns) (drop k (valid_in cs b e))), t') ∧
        grid_inv cs b e (Nat.min (k + sum_list ns) (length (valid_in cs b e))) t'.
Proof.
  intros Hrange. induction ns as [|n ns IH]; intros k t Hinv.
  { exists t. simpl. split; [done|]. rewrite Nat.add_0_r, Nat.min_l; [done|].
    apply (gi_le _ _ _ _ _ Hinv). }
  destruct (grid_next_batch_returns cs b e Hrange n k t Hinv) as (t1 & H1 & Hinv1).
  destruct (IH _ t1 Hinv1) as (t2 & H2 & Hinv2). exists t2.
  cbn [grid_batches]. unfold sbind. rewrite H1, H2. unfold sret. split.
  - do 2 f_equal. rewrite <-fmap_app. f_equal. simpl.
    destruct (decide (k + n ≤ length (valid_in cs b e))).
    + rewrite Nat.min_l, <-take_take_drop, drop_drop by lia. done.
    + rewrite Nat.min_r, (drop_ge _ (length _)), take_nil, app_nil_r by lia.
      rewrite !take_ge; rewrite ?length_drop; try lia. done.
  - by replace (Nat.min (k + sum_list (n :: ns)) (length (valid_in cs b e))) with
      (Nat.min (Nat.min (k + n) (length (valid_in cs b e)) + sum_list ns) (length (valid_in cs b e)))
      by (simpl; lia).
Qed.

(** Whatever the batch sizes, the grid tuner hands out the valid indices
    of its range in increasing order, each exactly once, never fails, and
    reports [has_next] exactly while some are left. *)
Theorem grid_enumerates cs range_idx b e ns :
  cs_ok cs → default (0, size_of (space_map cs) - 1)%Z range_idx = (b, e) →
  index_range cs b (e + 1) →
  ∃ t t', GridSearchTuner_init range_idx cs = Ret t ∧
    grid_batches ns t = (Ret (config_at cs <$> take (sum_list ns) (valid_in cs b (e + 1))), t') ∧
    it_has_next t' = bool_decide (sum_list ns < length (valid_in cs b (e + 1))).
Proof.
  intros Hok Hr Hrange. destruct (grid_init_inv cs range_idx b e Hok Hr Hrange) as (t & Ht & Hinv).
  destruct (grid_batches_returns cs b (e + 1) ns Hrange 0 t Hinv) as (t' & Hb & Hinv').
  exists t, t'. split; [done|]. split; [done|].
  destruct Hinv' as [_ _ _ _ Hvis Hmax _ _]. unfold it_has_next. rewrite Hvis, Hmax.
  unfold zlen. rewrite length_fmap, length_take. apply bool_decide_ext. lia.
Qed.
End Grid.

(** ** The random tuner *)

Section Random.
Context `{NumpyOk}.

Lemma elem_of_valid_in cs b e i : i ∈ valid_in cs b e ↔ (b ≤ i < e)%Z ∧ valid_at cs i = true.
Proof. unfold valid_in. rewrite list_elem_of_filter, elem_of_range. tauto. Qed.

Lemma NoDup_valid_in cs b e : NoDup (valid_in cs b e).
Proof. unfold valid_in, range. apply NoDup_filter, NoDup_seqZ. Qed.

Lemma omap_id_Some (l : list Z) : omap id (Some <$> l) = l.
Proof. induction l as [|x l IH]; [done|]. csimpl. by rewrite IH. Qed.

(** The state of the random tuner after visiting [vis]. *)
Record random_inv (cs : ConfigSpace) (b e : Z) (vis : list Z) (t : IndexTuner) : Prop := {
  ri_ok : cs_ok (it_space t);
  ri_core : clear_cache (it_space t) = clear_cache cs;
  ri_begin : it_begin t = b;
  ri_end : it_end t = e;
  ri_visited : it_visited t = Some <$> vis;
  ri_max : it_visited_max t = zlen (valid_in cs b e);
  ri_NoDup : NoDup vis;
  ri_valid : ∀ i, i ∈ vis → i ∈ valid_in cs b e
}.

(** While [has_next] holds some valid index has not been visited. *)
Lemma unvisited_exists cs b e vis t :
  random_inv cs b e vis t → it_has_next t = true →
  ∃ i, i ∈ valid_in cs b e ∧ i ∉ vis.
Proof.
  intros [_ _ _ _ Hvis Hmax Hnd Hval] Hn. unfold it_has_next in Hn.
  apply bool_decide_eq_true in Hn. rewrite Hvis, Hmax in Hn. unfold zlen in Hn.
  rewrite length_fmap in Hn.
  destruct (decide (Exists (λ i, i ∉ vis) (valid_in cs b e))) as [Hex|Hno].
  - apply Exists_exists in Hex as (i & ? & ?). eauto.
  - exfalso. assert (valid_in cs b e ⊆+ vis) as Hsub.
    { apply NoDup_submseteq; [apply NoDup_valid_in|]. intros i Hi.
      destruct (decide (i ∈ vis)); [done|]. destruct Hno. apply Exists_exists. eauto. }
    apply submseteq_length in Hsub. lia.
Qed.

Lemma random_step cs b e vis t ds i :
  index_range cs b e → random_inv cs b e vis t →
  head (filter (acceptable cs vis) (draw_index b e <$> ds)) = Some i →
  ∃ cs1 cs2, get_rand_index (Some b) (Some e) vis ds (it_space t) = (Ret (Some i), cs1) ∧
    cs_get i cs1 = (Ret (config_at cs i), cs2) ∧
    random_inv cs b e (vis ++ [i])
      (mkIT cs2 (it_visited t ++ [Some i]) b e (it_visited_max t) (it_index t)).
Proof.
  intros [Hb He] [Hok Hc Hbt Het Hvis Hmax Hnd Hval] Hi.
  destruct (same_core_fields _ _ Hc) as (Hsm & _).
  assert (i ∈ filter (acceptable cs vis) (draw_index b e <$> ds)) as Hin.
  { destruct (filter _ _); [done|]. simpl in Hi. simplify_eq. left. }
  apply list_elem_of_filter in Hin as [[Hv Hni] Hin].
  apply list_elem_of_fmap in Hin as (d & -> & _).
  pose proof (draw_index_range b e d ltac:(lia)) as Hr. set (i := draw_index b e d) in *.
  destruct (get_rand_index_returns (it_space t) (Some b) (Some e) vis ds) as (cs1 & H1 & Hok1 & Hc1);
    rewrite ?int_or_zero, ?int_or_pos, ?Hsm by lia; try lia; [done|].
  rewrite int_or_zero, int_or_pos, (acceptable_core cs (it_space t)), Hi in H1 by (done || lia).
  rewrite Hc in Hc1. destruct (same_core_fields _ _ Hc1) as (Hsm1 & _).
  destruct (cs_get_returns cs1 i) as (cs2 & H2 & Hok2 & Hc2);
    [done|rewrite Hsm1; lia|by rewrite (valid_at_core cs)|].
  exists cs1, cs2. split; [done|]. split.
  { rewrite H2. do 2 f_equal. by apply (config_at_core cs cs1). }
  split; simpl; try done.
  - by rewrite Hc2.
  - by rewrite Hvis, fmap_app.
  - apply NoDup_app. split; [done|]. split; [set_solver|apply NoDup_singleton].
  - intros j Hj. apply elem_of_app in Hj as [Hj|Hj]; [by apply Hval|].
    apply list_elem_of_singleton in Hj as ->. by apply elem_of_valid_in.
Qed.

Lemma random_next_batch_spec cs b e : index_range cs b e → ∀ n draws vis t,
  random_inv cs b e vis t →
  ∃ o t', random_next_batch n draws t = (Ret o, t') ∧
    (∀ cfgs, o = Some cfgs → ∃ new, cfgs = config_at cs <$> new ∧
       random_inv cs b e (vis ++ new) t' ∧
       length new = Nat.min n (length (valid_in cs b e) - length vis)) ∧
    (n ≤ length draws →
     Forall (λ ds, ∀ i, i ∈ valid_in cs b e → i ∈ draw_index b e <$> ds) draws → o ≠ None).
Proof.
  intros Hrange. induction n as [|n IH]; intros draws vis t Hinv.
  { exists (Some []), t. split; [done|]. split; [|done]. intros ? [= <-]. exists [].
    by rewrite app_nil_r. }
  cbn [random_next_batch]. unfold sbind at 1, sget at 1.
  pose proof Hinv as [Hok Hc Hbt Het Hvis Hmax Hnd Hval].
  destruct (it_has_next t) eqn:Hn; last first.
  { exists (Some []), t. split; [done|]. split; [|done]. intros ? [= <-]. exists [].
    split; [done|]. rewrite app_nil_r. split; [done|]. cbn [length]. unfold it_has_next in Hn.
    apply bool_decide_eq_false in Hn. rewrite Hvis, Hmax in Hn. unfold zlen in Hn.
    rewrite length_fmap in Hn. lia. }
  destruct draws as [|ds draws].
  { exists None, t. split; [done|]. split; [done|]. simpl. lia. }
  pose proof (omap_id_Some vis) as Hom.
  pose proof Hrange as [Hb He]. destruct (same_core_fields _ _ Hc) as (Hsm & _).
  destruct (head (filter (acceptable cs vis) (draw_index b e <$> ds))) as [i|] eqn:Hi.
  - destruct (random_step cs b e vis t ds i Hrange Hinv Hi) as (cs1 & cs2 & H1 & H2 & Hinv2).
    destruct (IH draws _ _ Hinv2) as (o & t' & H3 & Hsome & Hlive).
    exists (option_map (cons (config_at cs i)) o), t'. split; [|split].
    + unfold sbind, on_space. rewrite Hbt, Het, Hvis, Hom, H1. simpl. unfold sget, sput, visit. simpl.
      rewrite H2. rewrite Hvis in H3. by rewrite H3.
    + intros cfgs Hcfgs. destruct o as [cfgs'|]; [|done]. injection Hcfgs as <-.
      destruct (Hsome cfgs' eq_refl) as (new & -> & Hinv' & Hlen). exists (i :: new).
      split; [done|]. rewrite cons_middle, app_assoc. split; [done|].
      rewrite length_app in Hlen. cbn [length] in *.
      assert (length vis < length (valid_in cs b e)); [|lia].
      unfold it_has_next in Hn. apply bool_decide_eq_true in Hn. rewrite Hvis, Hmax in Hn.
      unfold zlen in Hn. rewrite length_fmap in Hn. lia.
    + intros Hle Hall. apply Forall_cons in Hall as [_ Hall]. simpl in Hle.
      destruct o; [done|]. destruct (Hlive ltac:(lia) Hall). done.
  - destruct (get_rand_index_returns (it_space t) (Some b) (Some e) vis ds) as (cs1 & H1 & _);
      rewrite ?int_or_zero, ?int_or_pos, ?Hsm by lia; try lia; [done|].
    rewrite int_or_zero, int_or_pos, (acceptable_core cs (it_space t)), Hi in H1 by (done || lia).
    eexists None, _. split; [|split; [done|]].
    + unfold sbind, on_space. rewrite Hbt, Het, Hvis, Hom, H1. done.
    + intros _ Hall. apply Forall_cons in Hall as [Hds _]. exfalso.
      destruct (unvisited_exists cs b e vis t Hinv Hn) as (j & Hj & Hnj).
      assert (j ∈ filter (acceptable cs vis) (draw_index b e <$> ds)) as Hin.
      { apply list_elem_of_filter. split; [|by apply Hds]. split; [|done].
        by apply elem_of_valid_in in Hj as [_ ?]. }
      destruct (filter _ _); [set_solver|done].
Qed.

(** A batch of the random tuner consists of valid configurations of its
    range that were never handed out before, as many as asked for or as are
    left; and it completes whenever every call's draws reach the whole range. *)
Theorem random_next_batch_distinct cs b e n draws vis t :
  index_range cs b e → random_inv cs b e vis t →
  ∃ o t', random_next_batch n draws t = (Ret o, t') ∧
    (∀ cfgs, o = Some cfgs → ∃ new, cfgs = config_at cs <$> new ∧ NoDup (vis ++ new) ∧
       (∀ i, i ∈ new → (b ≤ i < e)%Z ∧ valid_at cs i = true) ∧
       length new = Nat.min n (length (valid_in cs b e) - length vis)) ∧
    (n ≤ length draws →
     Forall (λ ds, ∀ i, i ∈ valid_in cs b e → i ∈ draw_index b e <$> ds) draws → o ≠ None).
Proof.
  intros Hrange Hinv.
  destruct (random_next_batch_spec cs b e Hrange n draws vis t Hinv) as (o & t' & Hrun & Hs & Hl).
  exists o, t'. split; [done|]. split; [|done]. intros cfgs Hc.
  destruct (Hs cfgs Hc) as (new & -> & Hinv' & Hlen). exists new. split; [done|].
  split; [apply (ri_NoDup _ _ _ _ _ Hinv')|]. split; [|done]. intros i Hi.
  apply elem_of_valid_in, (ri_valid _ _ _ _ _ Hinv'). set_solver.
Qed.
End Random.

(** ** The tuning loop *)

(** What the loop relies on: a tuner that hands out a fixed list of
    configurations in order, whatever the measurements. *)
Class EnumTuner (S : Type) `{TunerImpl S} (pending : S → list ConfigEntity → Prop) : Prop := {
  enum_has_next s l : pending s l →
    ∃ s', t_has_next s = (Ret (bool_decide (l ≠ [])), s') ∧ pending s' l;
  enum_next_batch s l n : pending s l → (0 ≤ n)%Z →
    ∃ s', t_next_batch n s = (Ret (take (Z.to_nat n) l), s') ∧ pending s' (drop (Z.to_nat n) l);
  enum_update s l pairs : pending s l →
    ∃ s', t_update pairs s = (Ret tt, s') ∧ pending s' l
}.

(** The grid tuner is one: its pending list is the rest of the valid indices. *)
Definition grid_pending (cs : ConfigSpace) (b e : Z) (t : IndexTuner) (l : list ConfigEntity) : Prop :=
  index_range cs b e ∧
  ∃ k, grid_inv cs b e k t ∧ l = config_at cs <$> drop k (valid_in cs b e).

#[global] Instance grid_enum `{NumpyOk} cs b e : EnumTuner IndexTuner (grid_pending cs b e).
Proof.
  split.
  - intros t l (Hr & k & Hinv & ->). exists t. split; [|by split; [|exists k]].
    simpl. do 2 f_equal. unfold it_has_next. apply bool_decide_ext.
    rewrite (gi_visited _ _ _ _ _ Hinv), (gi_max _ _ _ _ _ Hinv).
    pose proof (gi_le _ _ _ _ _ Hinv). unfold zlen. rewrite length_fmap, length_take.
    split; intros Hx.
    + intros Hnil. apply fmap_nil_inv, drop_nil_inv in Hnil. lia.
    + destruct (decide (k < length (valid_in cs b e))); [lia|]. rewrite drop_ge in Hx by lia. done.
  - intros t l n (Hr & k & Hinv & ->) Hn.
    destruct (grid_next_batch_returns cs b e Hr (Z.to_nat n) k t Hinv) as (t' & Hrun & Hinv').
    exists t'. split; [by rewrite <-fmap_take|]. split; [done|].
    eexists. split; [exact Hinv'|]. rewrite <-fmap_drop, drop_drop. f_equal.
    destruct (decide (k + Z.to_nat n ≤ length (valid_in cs b e))).
    + by rewrite Nat.min_l.
    + rewrite Nat.min_r, !drop_ge by lia. done.
  - intros t l pairs Hp. by exists t.
Qed.

Section Loop.
Context `{Numpy} {S : Type} `{EnumTuner S pending}.
Context (flop : flt) (measure_batch : Z → list ConfigEntity → list mresult) (n_parallel : Z).

(** The flops the loop attributes to a result. *)
Definition flops_of (r : mresult) : flt :=
  match result_flops flop r with Ret (f, _) => f | Raise _ => f0 end.

(** A result of the shape [MeasureResult] documents: times, or a pair of strings. *)
Definition wf_result (r : mresult) : Prop :=
  match costs r with CostTimes _ => error_no r = 0%Z | CostError _ _ => error_no r ≠ 0%Z end.

(** The tuner holds the best of the trials so far. *)
Definition best_of (hist : list (ConfigEntity * mresult)) (t : Tuner S) : Prop :=
  (best_measure_pair t = None ∧ best_config t = None ∧ best_flops t = f0 ∧ best_iter t = 0%Z ∧
   ∀ q, q ∈ hist → fltb f0 (flops_of q.2) = false) ∨
  (∃ j p, hist !! j = Some p ∧ best_measure_pair t = Some p ∧ best_config t = Some p.1 ∧
   best_iter t = Z.of_nat j ∧ best_flops t = flops_of p.2 ∧ fltb f0 (flops_of p.2) = true ∧
   ∀ q, q ∈ hist → fltb (flops_of p.2) (flops_of q.2) = false).

Lemma fltb_keep a x q : fltb a x = true → fltb a q = false → fltb x q = false.
Proof.
  intros Hax Haq. destruct (fltb x q) eqn:Hxq; [|done].
  pose proof (flt_le_trans a x q Hax (flt_fle _ _ Hxq)) as Ht. congruence.
Qed.

Lemma best_of_step hist t c r flops :
  best_of hist t → flops_of r = flops →
  best_of (hist ++ [(c, r)])
    (if fltb (best_flops t) flops then set_best c r flops (zlen hist) t else t).
Proof.
  intros Hb Hf. destruct (fltb (best_flops t) flops) eqn:Hlt.
  - right. exists (length hist), (c, r). simpl. rewrite Hf.
    split; [by apply lookup_app_r_singleton_l || by rewrite lookup_app_r, Nat.sub_diag|].
    repeat (split; [done|]).
    destruct Hb as [(_ & _ & Hbf & _ & Hall)|(j & p & _ & _ & _ & _ & Hbf & Hpos & Hall)];
      rewrite Hbf in Hlt.
    + split; [done|]. intros q Hq. apply elem_of_app in Hq as [Hq|Hq].
      * by eapply fltb_keep, Hall.
      * apply list_elem_of_singleton in Hq as ->. simpl. rewrite Hf. apply flt_irrefl.
    + split; [by eapply flt_le_trans, flt_fle|]. intros q Hq. apply elem_of_app in Hq as [Hq|Hq].
      * by eapply fltb_keep, Hall.
      * apply list_elem_of_singleton in Hq as ->. simpl. rewrite Hf. apply flt_irrefl.
  - destruct Hb as [(? & ? & Hbf & ? & Hall)|(j & p & Hj & ? & ? & ? & Hbf & ? & Hall)];
      rewrite Hbf in Hlt; [left|right].
    + repeat (split; [done|]). intros q Hq. apply elem_of_app in Hq as [Hq|Hq]; [by apply Hall|].
      apply list_elem_of_singleton in Hq as ->. simpl. by rewrite Hf.
    + exists j, p. split; [by apply lookup_app_l_Some|]. repeat (split; [done|]).
      intros q Hq. apply elem_of_app in Hq as [Hq|Hq]; [by apply Hall|].
      apply list_elem_of_singleton in Hq as ->. simpl. by rewrite Hf.
Qed.

(** The error counter equals the number of trials exactly when all failed. *)
Definition errors_of (hist : list (ConfigEntity * mresult)) (n : Z) : Prop :=
  (0 ≤ n ≤ zlen hist)%Z ∧ (n = zlen hist ↔ Forall (λ q, error_no q.2 ≠ 0%Z) hist).

Lemma errors_of_step hist n c r :
  errors_of hist n →
  errors_of (hist ++ [(c, r)]) (if decide (error_no r = 0)%Z then 0 else n + 1)%Z.
Proof.
  intros [Hn Hiff]. unfold errors_of. rewrite zlen_app, Forall_app, Forall_singleton.
  replace (zlen [(c, r)]) with 1%Z by done. cbn [snd]. pose proof (zlen_nonneg hist). case_decide; split; try lia.
  rewrite <-Hiff. split; [intros; split; [lia|done]|lia].
Qed.

Lemma keep_best_returns pairs : ∀ k s hist,
  Forall (λ q, wf_result q.2) pairs → zlen hist = (ts_i s + k)%Z →
  best_of hist (ts_tuner s) → errors_of hist (ts_error_ct s) →
  ∃ s', keep_best flop pairs k s = (Ret tt, s') ∧
    best_of (hist ++ pairs) (ts_tuner s') ∧ errors_of (hist ++ pairs) (ts_error_ct s') ∧
    ts_i s' = ts_i s ∧ ts_calls s' = ts_calls s ∧ impl (ts_tuner s') = impl (ts_tuner s) ∧
    in_tuning (ts_tuner s') = in_tuning (ts_tuner s).
Proof.
  induction pairs as [|[c r] pairs IH]; intros k s hist Hwf Hk Hb He.
  { exists s. by rewrite app_nil_r. }
  apply Forall_cons in Hwf as [Hr Hwf]. simpl in Hr.
  assert (∃ err, result_flops flop r = Ret (flops_of r, err) ∧
    (error_no r = 0%Z ↔ err = None)) as (err & Hres & Herr).
  { unfold flops_of, wf_result, result_flops in *. destruct (costs r); case_decide; try done;
      (eexists; split; [done|]; naive_solver). }
  cbn [keep_best]. unfold sbind at 1, slift. rewrite Hres. unfold sbind at 1, sget.
  unfold sbind at 1, sput at 1. rewrite <-Hk.
  match goal with |- context [keep_best flop pairs (k + 1) ?x] => set (s1 := x) end.
  destruct (IH (k + 1)%Z s1 (hist ++ [(c, r)])) as (s' & Hrun & Hb' & He' & E1 & E2 & E3 & E4);
    [done| |by apply best_of_step| |].
  - rewrite zlen_app. unfold zlen at 2, s1. simpl. lia.
  - unfold s1. simpl. pose proof (errors_of_step hist (ts_error_ct s) c r He) as Hstep.
    destruct err; case_decide; try naive_solver.
  - exists s'. rewrite cons_middle, app_assoc. split; [done|].
    split; [done|]. split; [done|]. rewrite E1, E2, E3, E4. unfold s1. simpl. by destruct (fltb _ _).
Qed.

(** The loop has tried exactly [hist], a prefix of the pending list. *)
Record loop_inv (l : list ConfigEntity) (hist : list (ConfigEntity * mresult))
    (s : tune_state S) : Prop := {
  li_pending : pending (impl (ts_tuner s)) (drop (length hist) l);
  li_prefix : hist.*1 = take (length hist) l;
  li_len : length hist ≤ length l;
  li_i : ts_i s = zlen hist;
  li_calls : concat (ts_calls s) = hist;
  li_best : best_of hist (ts_tuner s);
  li_errors : errors_of hist (ts_error_ct s);
  li_flag : in_tuning (ts_tuner s) = true
}.

Hypothesis measure_length : ∀ i cfgs, length (measure_batch i cfgs) = length cfgs.
Hypothesis measure_wf : ∀ i cfgs, Forall wf_result (measure_batch i cfgs).
Hypothesis parallel_pos : (0 < n_parallel)%Z.

Lemma best_of_impl hist t s' : best_of hist t → best_of hist (set_impl s' t).
Proof. done. Qed.

Lemma tune_iter_returns n early l hist s :
  loop_inv l hist s → (zlen hist < n)%Z →
  (length l = length hist ∧ ∃ s', tune_iter flop measure_batch n_parallel n early s = (Ret false, s') ∧
     loop_inv l hist s') ∨
  (∃ new go s', tune_iter flop measure_batch n_parallel n early s = (Ret go, s') ∧ new ≠ [] ∧
     loop_inv l (hist ++ new) s' ∧ (zlen (hist ++ new) ≤ n)%Z ∧
     (go = false → (best_iter (ts_tuner s') + early ≤ zlen (hist ++ new))%Z)).
Proof.
  intros [Hp Hpre Hlen Hi Hcalls Hbest Herr Hflag] Hn.
  destruct (enum_has_next _ _ Hp) as (i1 & Hh & Hp1).
  destruct (decide (length l = length hist)) as [Heq|Hne].
  { left. split; [done|]. rewrite drop_ge in Hh by lia. rewrite bool_decide_false in Hh by auto.
    eexists. unfold tune_iter, sbind at 1, on_impl at 1. rewrite Hh. split; [done|].
    by split. }
  right. rewrite bool_decide_true in Hh; last first.
  { intros Hnil. apply drop_nil_inv in Hnil. lia. }
  set (m := Z.min n_parallel (n - ts_i s)). assert (0 < m)%Z as Hm by lia.
  destruct (enum_next_batch _ _ m Hp1 ltac:(lia)) as (i2 & Hb & Hp2).
  set (cfgs := take (Z.to_nat m) (drop (length hist) l)) in *.
  set (new := zip cfgs (measure_batch (ts_i s) cfgs)).
  assert (new.*1 = cfgs) as Hn1 by (apply fst_zip; by rewrite measure_length).
  assert (length new = length cfgs) as Hnl by (by rewrite <-Hn1, length_fmap).
  assert (length cfgs = Nat.min (Z.to_nat m) (length l - length hist)) as Hcl
    by (unfold cfgs; by rewrite length_take, length_drop).
  set (s2 := mkTS (set_impl i2 (set_impl i1 (ts_tuner s))) (ts_i s) (ts_error_ct s)
               (ts_errors s) (ts_calls s)).
  destruct (keep_best_returns new 0 s2 hist) as (s3 & Hk & Hb3 & He3 & E1 & E2 & E3 & E4);
    [|by simpl; rewrite Hi, Z.add_0_r|done|done|].
  { apply Forall_forall. intros [c r] Hin. apply elem_of_zip_r in Hin.
    pose proof (measure_wf (ts_i s) cfgs) as Hwf. rewrite Forall_forall in Hwf. by apply Hwf. }
  simpl in E1, E2, E3, E4.
  destruct (enum_update (impl (ts_tuner s3)) (drop (Z.to_nat m) (drop (length hist) l)) new)
    as (i4 & Hu & Hp4); [by rewrite E3|].
  exists new.
  assert (loop_inv l (hist ++ new) (mkTS (set_impl i4 (ts_tuner s3)) (ts_i s + zlen new)
     (ts_error_ct s3) (ts_errors s3) (ts_calls s ++ [new]))) as Hinv.
  { split; simpl; try done.
    - rewrite length_app, Hnl, Hcl. rewrite drop_drop in Hp4.
      destruct (decide (Z.to_nat m ≤ length l - length hist)); [by rewrite Nat.min_l|].
      rewrite Nat.min_r by lia. rewrite !drop_ge in * by lia. done.
    - rewrite fmap_app, Hn1, Hpre, length_app, Hnl, <-take_take_drop. f_equal.
      unfold cfgs at 1. rewrite Hcl.
      destruct (decide (Z.to_nat m ≤ length l - length hist)); [by rewrite Nat.min_l|].
      rewrite Nat.min_r, !take_ge by (rewrite ?length_drop; lia). done.
    - rewrite length_app. lia.
    - by rewrite Hi, zlen_app.
    - by rewrite concat_app, Hcalls; simpl; rewrite app_nil_r.
    - by rewrite E4. }
  exists (negb (bool_decide (best_iter (ts_tuner s3) + early ≤ ts_i s + zlen new)%Z)).
  unfold tune_iter, sbind at 1, on_impl at 1. rewrite Hh. simpl. fold m.
  unfold sbind, sget, sput, on_impl at 1. simpl. fold m. rewrite Hb. fold cfgs new s2.
  rewrite Hk. simpl. unfold on_impl. simpl. rewrite Hu. simpl. rewrite E1, E2.
  replace (zlen (measure_batch (ts_i s) cfgs)) with (zlen new)
    by (unfold zlen; by rewrite measure_length, Hnl).
  case_bool_decide as Hstop; (eexists; split; [done|]; split; [|split; [|split; [|]]]).
  all: try (intros Hnil; rewrite Hnil in Hnl; simpl in Hnl; lia).
  all: try (rewrite zlen_app; unfold zlen at 2; rewrite Hnl, Hcl; lia).
  all: try (intros; simpl; rewrite zlen_app; lia || done).
  - by destruct Hinv; split.
  - by destruct Hinv; split.
Qed.

Lemma tune_loop_returns n early l fuel : ∀ hist s,
  loop_inv l hist s → (zlen hist ≤ n)%Z → (n - zlen hist ≤ Z.of_nat fuel)%Z →
  ∃ hist' s', tune_loop flop measure_batch n_parallel fuel n early s = (Ret tt, s') ∧
    loop_inv l hist' s' ∧ (zlen hist' ≤ n)%Z ∧
    (zlen hist' = Z.min n (zlen l) ∨ (best_iter (ts_tuner s') + early ≤ zlen hist')%Z).
Proof.
  induction fuel as [|fuel IH]; intros hist s Hinv Hle Hfuel; cbn [tune_loop];
    unfold sbind at 1, sget at 1; rewrite (li_i _ _ _ Hinv);
    pose proof (li_len _ _ _ Hinv) as Hlen; case_bool_decide as Hlt; try lia.
  - exists hist, s. split; [done|]. split; [done|]. unfold zlen in *. split; lia.
  - destruct (tune_iter_returns n early l hist s Hinv Hlt) as
      [(Heq & s' & Hrun & Hinv')|(new & go & s' & Hrun & Hnew & Hinv' & Hle' & Hstop)];
      unfold sbind; rewrite Hrun.
    + exists hist, s'. split; [done|]. split; [done|]. unfold zlen in *. split; lia.
    + destruct go.
      * destruct (IH (hist ++ new) s' Hinv' Hle') as (h & s2 & ? & ? & ? & ?).
        { rewrite zlen_app in *. destruct new; [done|]. unfold zlen in *. simpl in *. lia. }
        by exists h, s2.
      * exists (hist ++ new), s'. split; [done|]. split; [done|]. split; [done|]. right. by apply Hstop.
  - exists hist, s. split; [done|]. split; [done|]. unfold zlen in *. split; lia.
Qed.

Lemma tune_returns n early s l :
  pending s l → (0 ≤ n)%Z →
  ∃ hist calls report t',
    tune flop measure_batch n_parallel n early (Tuner_init s) = (Ret (calls, report), t') ∧
    concat calls = hist ∧ hist.*1 = take (length hist) l ∧ best_of hist t' ∧
    (zlen hist ≤ n)%Z ∧
    (zlen hist = Z.min n (zlen l) ∨ (best_iter t' + int_or early 1000000000 ≤ zlen hist)%Z) ∧
    (is_Some report ↔ Forall (λ q, error_no q.2 ≠ 0%Z) hist) ∧ in_tuning t' = false.
Proof.
  intros Hp Hn. unfold tune. set (e := int_or early 1000000000).
  destruct (tune_loop_returns n e l (Z.to_nat n) []
    (mkTS (set_limits n e (Tuner_init s)) 0 0 [] [])) as (hist & s' & Hrun & Hinv & Hle & Hstop).
  - split; try done; simpl; try lia; first [by left; set_solver | by split].
  - done.
  - unfold zlen. simpl. lia.
  - rewrite Hrun. destruct Hinv as [_ Hpre Hlen Hi Hcalls Hbest [Herr1 Herr2] Hflag].
    eexists hist, _, _, _. split; [done|]. repeat (split; [done|]). split; [|done].
    rewrite Hi. case_bool_decide as Hc; rewrite <-Herr2; [by split; [|eauto]|].
    split; [by intros []|done].
Qed.

(** C4: tuning with any tuner that enumerates a list terminates after at most
    [n_trial] trials; it tries a prefix of the list, all of it up to [n_trial]
    unless it stops early, and ends with the best measured configuration; the
    error report is written exactly when every trial failed. *)
Theorem tune_spec n early s l :
  pending s l → (0 ≤ n)%Z →
  ∃ hist calls report t',
    tune flop measure_batch n_parallel n early (Tuner_init s) = (Ret (calls, report), t') ∧
    concat calls = hist ∧ hist.*1 = take (length hist) l ∧ best_of hist t' ∧
    (zlen hist ≤ n)%Z ∧
    (zlen hist = Z.min n (zlen l) ∨ (best_iter t' + int_or early 1000000000 ≤ zlen hist)%Z) ∧
    (is_Some report ↔ Forall (λ q, error_no q.2 ≠ 0%Z) hist) ∧ in_tuning t' = false.
Proof. apply tune_returns. Qed.
End Loop.

(** C5: a grid search with enough trials and no early stopping measures every
    valid configuration of the space exactly once, in index order, and ends
    with the best of them. *)
Theorem grid_tune_exhaustive `{NumpyOk} flop measure_batch n_parallel cs n :
  cs_ok cs → (∀ i cfgs, length (measure_batch i cfgs) = length cfgs) →
  (∀ i cfgs, Forall wf_result (measure_batch i cfgs)) → (0 < n_parallel)%Z →
  (zlen (valid_in cs 0 (size_of (space_map cs))) ≤ n < 1000000000)%Z →
  ∃ t hist calls report t',
    GridSearchTuner_init None cs = Ret t ∧
    tune flop measure_batch n_parallel n None (Tuner_init t) = (Ret (calls, report), t') ∧
    concat calls = hist ∧ hist.*1 = config_at cs <$> valid_in cs 0 (size_of (space_map cs)) ∧
    best_of flop hist t'.
Proof.
  intros Hok Hml Hmw Hpar Hn. destruct (ok_spaces cs Hok) as (_ & Hall & _).
  pose proof (size_of_pos _ Hall) as Hpos. set (N := size_of (space_map cs)) in *.
  assert (index_range cs 0 (N - 1 + 1)) as Hr by (unfold index_range; fold N; lia).
  destruct (grid_init_inv cs None 0 (N - 1) Hok eq_refl Hr) as (t & Ht & Hinv).
  rewrite Z.sub_add in *.
  assert (grid_pending cs 0 N t (config_at cs <$> valid_in cs 0 N)) as Hp by (split; [done|by exists 0]).
  destruct (tune_returns flop measure_batch n_parallel Hml Hmw Hpar n None t _ Hp ltac:(unfold zlen in *; lia))
    as (hist & calls & report & t' & Hrun & Hc & Hpre & Hbest & Hle & Hstop & _).
  exists t, hist, calls, report, t'. repeat (split; [done|]). split; [|done].
  rewrite Hpre. destruct Hstop as [Hl|Hl].
  - apply take_ge. unfold zlen in *. rewrite length_fmap in *. lia.
  - exfalso. simpl in Hl.
    assert (0 ≤ best_iter t')%Z; [|lia].
    destruct Hbest as [(_ & _ & _ & -> & _)|(j & p & _ & _ & _ & -> & _)]; lia.
Qed.

(** ** The genetic tuner *)

Section Genetic.
Context `{NumpyOk}.
Variable cs : ConfigSpace.
Abbreviation lens := (space_lens cs).
Abbreviation all_valid := (valid_in cs 0 (size_of (space_map cs))).

(** A gene is the knob vector of an index. *)
Definition gene_of (idxs : list Z) (g : list Z) : Prop := ∃ i, i ∈ idxs ∧ g = digits lens i.

Record ga_inv (t : GATuner) : Prop := {
  gv_ok : cs_ok (ga_space t);
  gv_core : clear_cache (ga_space t) = clear_cache cs;
  gv_pop : (0 < ga_pop_size t)%Z;
  gv_NoDup : NoDup (ga_visited t);
  gv_valid : ∀ i, i ∈ ga_visited t → i ∈ all_valid;
  gv_genes : Forall (gene_of (ga_visited t)) (ga_genes t);
  gv_elites : Forall (gene_of (ga_visited t)) (ga_elites t);
  gv_elite_len : length (ga_elites t) = length (ga_elite_scores t);
  gv_len : (zlen (ga_genes t) ≤ ga_pop_size t)%Z ∧
    (zlen (ga_genes t) = ga_pop_size t ∨ zlen (ga_visited t) = zlen all_valid);
  gv_pt : (0 ≤ ga_trial_pt t)%Z
}.

Lemma ga_space_facts cs' : cs_ok cs' → clear_cache cs' = clear_cache cs →
  space_map cs' = space_map cs ∧ space_lens cs' = lens ∧ Forall (λ x, (0 < x)%Z) lens ∧
  (zprod lens < 2 ^ 63)%Z ∧ size_of (space_map cs) = zprod lens.
Proof.
  intros Hok Hc. destruct (same_core_fields _ _ Hc) as (Hsm & _).
  assert (space_lens cs' = lens) as Hl by (unfold space_lens; by rewrite Hsm).
  rewrite <-Hl. split; [done|]. split; [done|].
  split; [by apply space_lens_pos|]. split; [by apply space_lens_prod|]. by rewrite <-Hsm.
Qed.

Lemma ga_has_next_returns t : ga_inv t →
  ∃ t', ga_has_next t = (Ret (bool_decide (zlen (ga_visited t) - (zlen (ga_genes t) - ga_trial_pt t)
                                      < zlen all_valid)%Z), t') ∧ ga_inv t' ∧
    ∃ cs', t' = mkGA cs' (ga_pop_size t) (ga_elite_num t) (ga_mutation_prob t) (ga_visited t)
      (ga_genes t) (ga_scores t) (ga_elites t) (ga_elite_scores t) (ga_trial_pt t).
Proof.
  intros Hinv. pose proof Hinv as [Hok Hc ? ? ? ? ? ? ? ?].
  destruct (cs_len_returns _ Hok) as (cs' & Hl & Hok' & Hc').
  destruct (ga_space_facts _ Hok Hc) as (Hsm & _).
  rewrite (count_valid_core cs) in Hl by done. rewrite Hsm, count_valid_length in Hl.
  eexists. unfold ga_has_next, sbind, sget, ga_on_space. rewrite Hl. split; [done|].
  split; [|by eexists]. split; simpl; try done. by rewrite Hc'.
Qed.

Lemma gene_fetch cs1 idxs g :
  cs_ok cs1 → clear_cache cs1 = clear_cache cs → (∀ i, i ∈ idxs → i ∈ all_valid) → gene_of idxs g →
  ∃ i cs2 cs3, i ∈ idxs ∧ knob2point g cs1 = (Ret i, cs2) ∧ cs_get i cs2 = (Ret (config_at cs i), cs3) ∧
    cs_ok cs3 ∧ clear_cache cs3 = clear_cache cs.
Proof.
  intros Hok Hc Hval (i & Hi & ->). destruct (ga_space_facts _ Hok Hc) as (Hsm & Hl & Hpos & Hlt & Hsz).
  apply Hval in Hi as Hv. apply elem_of_valid_in in Hv as [Hr Hv].
  destruct (knob2point_returns cs1 (digits lens i) Hok) as (cs2 & H2 & Hok2 & Hc2).
  { by rewrite length_digits, Hl. }
  rewrite Hl, mixed_digits in H2 by (done || lia). rewrite Hc in Hc2.
  destruct (ga_space_facts _ Hok2 Hc2) as (Hsm2 & _).
  destruct (cs_get_returns cs2 i Hok2) as (cs3 & H3 & Hok3 & Hc3);
    [by rewrite Hsm2|by rewrite (valid_at_core cs)|].
  exists i, cs2, cs3. rewrite Hc3. repeat (split; [done|]). split; [|done].
  rewrite H3. do 2 f_equal. by apply (config_at_core cs cs2).
Qed.

Lemma ga_next_batch_returns n : ∀ t, ga_inv t →
  ∃ idxs t', ga_next_batch n t = (Ret (config_at cs <$> idxs), t') ∧ ga_inv t' ∧
    length idxs ≤ n ∧ (∀ i, i ∈ idxs → i ∈ ga_visited t) ∧ ga_visited t' = ga_visited t.
Proof.
  induction n as [|n IH]; intros t Hinv.
  { exists [], t. split; [done|]. split; [done|]. split; [done|]. split; [set_solver|done]. }
  cbn [ga_next_batch]. destruct (ga_has_next_returns t Hinv) as (t1 & Hh & Hinv1 & cs' & Ht1).
  unfold sbind at 1. rewrite Hh. case_bool_decide as Hlt; last first.
  { exists [], t1. split; [done|]. split; [done|]. split; [simpl; lia|].
    split; [set_solver|by rewrite Ht1]. }
  pose proof Hinv1 as [Hok Hc Hpop Hnd Hval Hgen Hel Hell Hlen Hpt].
  assert (∃ g, pynth (ga_genes t1) (ga_trial_pt t1 `mod` ga_pop_size t1) = Ret g ∧ g ∈ ga_genes t1)
    as (g & Hg & Hgin).
  { destruct (pynth_in_range (ga_genes t1) (ga_trial_pt t1 `mod` ga_pop_size t1)) as (g & Hg & Hgl).
    - pose proof (Z.mod_pos_bound (ga_trial_pt t1) (ga_pop_size t1) Hpop).
      rewrite Ht1 in *. simpl in *. destruct Hlen as [Hle [Heq|Hall]]; [lia|].
      rewrite Z.mod_small in * by lia. lia.
    - exists g. split; [done|]. by eapply list_elem_of_lookup_2. }
  rewrite Forall_forall in Hgen.
  destruct (gene_fetch (ga_space t1) (ga_visited t1) g Hok Hc Hval (Hgen g Hgin))
    as (i & cs2 & cs3 & Hi & Hk & Hget & Hok3 & Hc3).
  destruct (IH (mkGA cs3 (ga_pop_size t1) (ga_elite_num t1) (ga_mutation_prob t1) (ga_visited t1)
     (ga_genes t1) (ga_scores t1) (ga_elites t1) (ga_elite_scores t1) (ga_trial_pt t1 + 1)))
    as (idxs & t' & Hrun & Hinv' & Hl & Hin & Hv).
  { split; simpl; try done; [by rewrite Forall_forall|lia]. }
  exists (i :: idxs), t'. split; [|split; [done|]; split; [simpl; lia|]].
  - unfold sbind, sget, slift, sput, pymod. rewrite bool_decide_false by lia.
    rewrite Hg. unfold ga_on_space. simpl. rewrite Hk. simpl. rewrite Hget. by rewrite Hrun.
  - rewrite Ht1 in *. simpl in *. split; [set_solver|done].
Qed.

(** C39: every configuration the genetic tuner proposes is valid and belongs to
    the visited set; producing a batch never fails and keeps the tuner's
    invariant. *)
Theorem ga_next_batch_valid n t :
  ga_inv t →
  ∃ idxs t', ga_next_batch n t = (Ret (config_at cs <$> idxs), t') ∧ ga_inv t' ∧ length idxs ≤ n ∧
    ∀ i, i ∈ idxs → i ∈ ga_visited t ∧ (0 ≤ i < size_of (space_map cs))%Z ∧ valid_at cs i = true.
Proof.
  intros Hinv. destruct (ga_next_batch_returns n t Hinv) as (idxs & t' & Hrun & Hinv' & Hl & Hin & _).
  exists idxs, t'. repeat (split; [done|]). intros i Hi. split; [by apply Hin|].
  apply elem_of_valid_in, (gv_valid _ Hinv). by apply Hin.
Qed.

Abbreviation bounded g := (Forall2 (λ k d, (0 ≤ k < d)%Z) g lens).

Lemma gene_bounded idxs g : Forall (λ x, (0 < x)%Z) lens → gene_of idxs g → bounded g.
Proof. intros Hpos (i & _ & ->). by apply digits_bound. Qed.

Lemma gene_of_mono idxs idxs' g : (∀ i, i ∈ idxs → i ∈ idxs') → gene_of idxs g → gene_of idxs' g.
Proof. intros Hsub (i & Hi & ->). exists i. auto. Qed.

Lemma set_add_facts i vis :
  NoDup vis → (∀ j, j ∈ vis → j ∈ all_valid) → i ∈ all_valid →
  NoDup (set_add i vis) ∧ (∀ j, j ∈ set_add i vis ↔ j = i ∨ j ∈ vis) ∧
  (∀ j, j ∈ set_add i vis → j ∈ all_valid).
Proof.
  intros Hnd Hval Hi. unfold set_add. case_bool_decide as Hin; [naive_solver|].
  split; [apply NoDup_app; set_solver by auto using NoDup_singleton|].
  split; [set_solver|]. intros j Hj. apply elem_of_app in Hj as [?|Hj]; [auto|].
  by apply list_elem_of_singleton in Hj as ->.
Qed.

(** Collecting the unvisited indices completes the visited set. *)
Lemma unvisited_genes_returns idxs : ∀ cs1 vis next,
  cs_ok cs1 → clear_cache cs1 = clear_cache cs →
  (∀ i, i ∈ idxs → (0 ≤ i < size_of (space_map cs))%Z) →
  NoDup vis → (∀ i, i ∈ vis → i ∈ all_valid) → Forall (gene_of vis) next →
  ∃ vis' next' cs2, unvisited_genes idxs vis next cs1 = (Ret (vis', next'), cs2) ∧
    cs_ok cs2 ∧ clear_cache cs2 = clear_cache cs ∧ NoDup vis' ∧
    (∀ i, i ∈ vis' → i ∈ all_valid) ∧ (∀ i, i ∈ vis → i ∈ vis') ∧
    (∀ i, i ∈ idxs → valid_at cs i = true → i ∈ vis') ∧ Forall (gene_of vis') next' ∧
    (zlen next' - zlen next = zlen vis' - zlen vis)%Z.
Proof.
  induction idxs as [|i idxs IH]; intros cs1 vis next Hok Hc Hr Hnd Hval Hnext.
  { exists vis, next, cs1. repeat (split; [done || set_solver|]). lia. }
  destruct (ga_space_facts _ Hok Hc) as (Hsm & Hl & Hpos & Hlt & Hsz).
  destruct (is_index_valid_returns cs1 i Hok) as (cs2 & H2 & Hok2 & Hc2).
  { rewrite Hsm. apply Hr. left. }
  rewrite (valid_at_core cs) in H2 by done. rewrite Hc in Hc2.
  cbn [unvisited_genes]. unfold sbind at 1. rewrite H2.
  destruct (valid_at cs i) eqn:Hv; simpl; [case_bool_decide as Hin; simpl|].
  - destruct (IH cs2 vis next) as (vis' & next' & cs3 & H3 & ? & ? & ? & ? & Hs & Ha & ? & ?);
      try done; [set_solver|].
    exists vis', next', cs3. repeat (split; [done|]). split; [|done].
    intros j Hj Hvj. apply elem_of_cons in Hj as [->|Hj]; auto.
  - assert (i ∈ all_valid) as Hiv by (apply elem_of_valid_in; split; [apply Hr; left|done]).
    destruct (set_add_facts i vis Hnd Hval Hiv) as (Hnd' & Hadd & Hval').
    destruct (point2knob_returns cs2 i Hok2) as (cs3 & H3 & Hok3 & Hc3). rewrite Hc2 in Hc3.
    destruct (ga_space_facts _ Hok2 Hc2) as (_ & Hl2 & _). rewrite Hl2 in H3.
    destruct (IH cs3 (set_add i vis) (next ++ [digits lens i]))
      as (vis' & next' & cs4 & H4 & ? & ? & ? & ? & Hs & Ha & ? & Hz); try done; [set_solver| |].
    { apply Forall_app. split.
      - eapply Forall_impl; [exact Hnext|]. intros g. apply gene_of_mono. intros j Hj. apply Hadd. auto.
      - apply Forall_singleton. exists i. split; [apply Hadd; auto|done]. }
    exists vis', next', cs4. unfold sbind. rewrite H3. repeat (split; [done|]).
    split; [intros j Hj; apply Hs, Hadd; auto|]. split; [|split; [done|]].
    + intros j Hj Hvj. apply elem_of_cons in Hj as [->|Hj]; [apply Hs, Hadd|]; auto.
    + unfold set_add in Hz. rewrite bool_decide_false in Hz by done. rewrite !zlen_app in Hz.
      replace (zlen [digits lens i]) with 1%Z in Hz by done. replace (zlen [i]) with 1%Z in Hz by done. lia.
  - destruct (IH cs2 vis next) as (vis' & next' & cs3 & H3 & ? & ? & ? & ? & Hs & Ha & ? & ?);
      try done; [set_solver|].
    exists vis', next', cs3. repeat (split; [done|]). split; [|done].
    intros j Hj Hvj. apply elem_of_cons in Hj as [->|Hj]; [congruence|auto].
Qed.

Lemma mutate_bounded prob muts : ∀ ds pre gene,
  lens = pre ++ ds → Forall (λ x, (0 < x)%Z) lens → bounded gene →
  ∃ gene', mutate prob ds muts (zlen pre) gene = Ret gene' ∧ bounded gene'.
Proof.
  induction muts as [|[r d] muts IH]; intros ds pre gene Heq Hpos Hg.
  { exists gene. by destruct ds. }
  destruct ds as [|dim ds]; [by exists gene|]. cbn [mutate].
  assert (zlen pre + 1 = zlen (pre ++ [dim]))%Z as Hz by (by rewrite zlen_app).
  rewrite Hz. destruct (fltb r prob); last first.
  { apply IH; [by rewrite <-app_assoc|done|done]. }
  assert (lens !! length pre = Some dim) as Hlk by (by rewrite Heq, lookup_app_r, Nat.sub_diag).
  assert (0 < dim)%Z as Hdim by (rewrite Forall_lookup in Hpos; by eapply Hpos).
  rewrite randrange_draw by lia. cbn [pbind].
  pose proof (Forall2_length _ _ _ Hg) as Hlen.
  apply lookup_lt_Some in Hlk as Hlt. unfold pyset. pose proof (zlen_nonneg pre).
  rewrite (bool_decide_false (zlen pre < 0)%Z), bool_decide_true by (unfold zlen; lia). cbn [pbind].
  apply IH; [by rewrite <-app_assoc|done|]. unfold zlen. rewrite Nat2Z.id.
  rewrite <-(list_insert_id lens (length pre) dim) at 1 by done.
  apply Forall2_insert; [done|]. pose proof (draw_index_range 0 dim d). lia.
Qed.

Lemma crossover_gene pt p1 p2 :
  bounded p1 → bounded p2 → bounded (take pt p1 ++ drop pt p2).
Proof.
  intros H1 H2. rewrite <-(take_drop pt lens) at 1.
  apply Forall2_app; [by apply Forall2_take|by apply Forall2_drop].
Qed.

(** Parents are drawn among the genes. *)
Definition draw_ok (n : Z) (d : ga_draw) : Prop := (0 ≤ gd_p1 d < n)%Z ∧ (0 ≤ gd_p2 d < n)%Z.

Lemma crossover_returns pop prob genes draws : ∀ cs1 vis next,
  cs_ok cs1 → clear_cache cs1 = clear_cache cs → lens ≠ [] →
  Forall (λ g, bounded g) genes → Forall (draw_ok (zlen genes)) draws →
  NoDup vis → (∀ i, i ∈ vis → i ∈ all_valid) → Forall (gene_of vis) next → (zlen next ≤ pop)%Z →
  (2 ≤ zlen genes)%Z →
  ∃ o cs2, crossover pop prob genes draws vis next cs1 = (Ret o, cs2) ∧
    cs_ok cs2 ∧ clear_cache cs2 = clear_cache cs ∧
    ∀ vis' next', o = Some (vis', next') → NoDup vis' ∧ (∀ i, i ∈ vis → i ∈ vis') ∧
      (∀ i, i ∈ vis' → i ∈ all_valid) ∧ Forall (gene_of vis') next' ∧ zlen next' = pop.
Proof.
  induction draws as [|d draws IH]; intros cs1 vis next Hok Hc Hne Hgenes Hdraws Hnd Hval Hnext Hle Htwo;
    cbn [crossover]; (case_bool_decide as Hlt; [rewrite (bool_decide_false (zlen genes < 2)%Z) by lia|]).
  - exists None, cs1. done.
  - exists (Some (vis, next)), cs1. repeat (split; [done|]). intros ? ? [= <- <-]. split_and!; try done. lia.
  - apply Forall_cons in Hdraws as [[Hd1 Hd2] Hdraws].
    destruct (pynth_in_range genes _ Hd1) as (p1 & Hp1 & Hl1).
    destruct (pynth_in_range genes _ Hd2) as (p2 & Hp2 & Hl2).
    destruct (dims_returns cs1 Hok) as (cs2 & H2 & Hok2 & Hc2). rewrite Hc in Hc2.
    destruct (ga_space_facts _ Hok Hc) as (Hsm & Hl & Hpos & Hprod & Hsz).
    assert (0 < zlen lens)%Z as Hzl by (unfold zlen; destruct lens; [done|simpl; lia]).
    set (pt := Z.to_nat (draw_index 0 (zlen lens) (gd_point d))).
    rewrite Forall_lookup in Hgenes.
    destruct (mutate_bounded prob (gd_mut d) lens [] (take pt p1 ++ drop pt p2))
      as (tmp & Hmut & Htmp); [done|done|apply crossover_gene; eauto|].
    change (zlen (@nil Z)) with 0%Z in Hmut.
    pose proof (Forall2_length _ _ _ Htmp) as Hlen.
    destruct (ga_space_facts _ Hok2 Hc2) as (Hsm2 & Hls2 & _).
    destruct (knob2point_returns cs2 tmp Hok2) as (cs3 & H3 & Hok3 & Hc3); [by rewrite Hls2; lia|].
    rewrite Hls2 in H3. rewrite Hc2 in Hc3. destruct (ga_space_facts _ Hok3 Hc3) as (Hsm3 & _).
    pose proof (mixed_bound lens tmp Htmp) as Hmb. set (p := mixed lens tmp) in *.
    destruct (is_index_valid_returns cs3 p Hok3) as (cs4 & H4 & Hok4 & Hc4); [by rewrite Hsm3, Hsz|].
    rewrite (valid_at_core cs) in H4 by done. rewrite Hc3 in Hc4.
    assert (∀ k, (let! p1 := slift (pynth genes (gd_p1 d)) in
      let! p2 := slift (pynth genes (gd_p2 d)) in
      let! ds := dims in
      let! point := slift (randrange 0 (zlen ds) (gd_point d)) in
      let! tmp := slift (mutate prob ds (gd_mut d) 0
                          (take (Z.to_nat point) p1 ++ drop (Z.to_nat point) p2)) in
      let! p := knob2point tmp in let! ok := is_index_valid p in k tmp p ok) cs1 =
      (k tmp p (valid_at cs p) : ST ConfigSpace (option (list Z * list (list Z)))) cs4) as Hbody.
    { intros k. unfold sbind, slift. rewrite Hp1, Hp2, H2, Hl, randrange_draw by lia. fold pt.
      rewrite Hmut, H3. fold p. by rewrite H4. }
    rewrite Hbody. clear Hbody. rewrite <-Forall_lookup in Hgenes.
    destruct (valid_at cs p) eqn:Hvp; [|by apply IH].
    assert (p ∈ all_valid) as Hpv by (apply elem_of_valid_in; by rewrite Hsz).
    destruct (set_add_facts p vis Hnd Hval Hpv) as (Hnd' & Hadd & Hval').
    destruct (IH cs4 (set_add p vis) (next ++ [tmp])) as (o & cs5 & H5 & ? & ? & Hsome); try done.
    { apply Forall_app. split.
      - eapply Forall_impl; [exact Hnext|]. intros g. apply gene_of_mono. intros j Hj. apply Hadd. auto.
      - apply Forall_singleton. exists p. split; [apply Hadd; auto|]. unfold p. by rewrite digits_mixed. }
    { rewrite zlen_app. replace (zlen [tmp]) with 1%Z by done. lia. }
    exists o, cs5. repeat (split; [done|]). intros vis' next' Ho.
    destruct (Hsome vis' next' Ho) as (? & Hs & ? & ? & ?). split_and!; try done.
    intros j Hj. apply Hs, Hadd. auto.
  - exists (Some (vis, next)), cs1. repeat (split; [done|]). intros ? ? [= <- <-]. split_and!; try done. lia.
Qed.

(** [argpartition] returns positions of its argument. *)
Context (np_argpartition : list flt → Z → list Z) (flop : flt).
Hypothesis argpartition_range : ∀ l k i, i ∈ np_argpartition l k → (0 ≤ i < zlen l)%Z.

Lemma zlen_all_valid vis :
  NoDup vis → (∀ i, i ∈ vis ↔ i ∈ all_valid) → zlen vis = zlen all_valid.
Proof.
  intros Hnd Heq. unfold zlen. f_equal. apply Permutation_length.
  apply NoDup_Permutation; [done|apply NoDup_valid_in|done].
Qed.

Lemma ga_generation_returns draws t :
  ga_inv t → lens ≠ [] → (zlen (ga_genes t) ≤ zlen (ga_scores t))%Z →
  Forall (draw_ok (zlen (ga_genes t ++ ga_elites t))) draws → (2 ≤ zlen (ga_genes t ++ ga_elites t))%Z →
  ∃ go t', ga_generation np_argpartition draws t = (Ret go, t') ∧
    (go = true → ga_inv t' ∧ ∀ i, i ∈ ga_visited t → i ∈ ga_visited t').
Proof.
  intros [Hok Hc Hpop Hnd Hval Hgen Hel Hell Hlen Hpt] Hne Hsc Hdraws Htwo.
  destruct (ga_space_facts _ Hok Hc) as (Hsm & _).
  destruct (cs_len_returns _ Hok) as (cs1 & H1 & Hok1 & Hc1). rewrite Hc in Hc1.
  rewrite (count_valid_core cs), Hsm, count_valid_length in H1 by done.
  unfold ga_generation, sbind at 1, ga_on_space at 1. rewrite H1.
  unfold sbind at 1, sget at 1. cbn [ga_visited ga_pop_size].
  case_bool_decide as Hfew.
  - destruct (range_length_returns cs1 Hok1) as (cs2 & H2 & Hok2 & Hc2). rewrite Hc1 in Hc2.
    destruct (ga_space_facts _ Hok1 Hc1) as (Hsm1 & _). rewrite Hsm1 in H2.
    destruct (unvisited_genes_returns (range 0 (size_of (space_map cs))) cs2 (ga_visited t) [])
      as (vis' & next' & cs3 & H3 & Hok3 & Hc3 & Hnd' & Hval' & Hs & Hall & Hg & Hz);
      try done; [intros i; apply elem_of_range|].
    assert (zlen vis' = zlen all_valid) as Hfull.
    { apply zlen_all_valid; [done|]. intros i. split; [auto|]. intros Hi.
      apply elem_of_valid_in in Hi as [Hr Hv]. apply Hall; [by apply elem_of_range|done]. }
    eexists true, _. split.
    + unfold sbind at 1, ga_on_space at 1. simpl. rewrite H2.
      unfold sbind, ga_on_space. simpl. rewrite H3. simpl. done.
    + intros _. split; [|done]. split; simpl; try done.
      * eapply Forall_impl; [exact Hel|]. intros g. by apply gene_of_mono.
      * replace (zlen (@nil (list Z))) with 0%Z in Hz by done. split; [lia|by right].
  - set (genes := ga_genes t ++ ga_elites t) in *.
    set (scores := take (length (ga_genes t)) (ga_scores t) ++ ga_elite_scores t).
    assert (zlen scores = zlen genes) as Hzs.
    { unfold scores, genes, zlen in *. rewrite !length_app, length_take, Hell. lia. }
    set (ei := last_k (ga_elite_num t) (np_argpartition scores (- ga_elite_num t))).
    assert (∀ i, i ∈ ei → (0 ≤ i < zlen scores)%Z) as Hei.
    { intros i Hi. eapply argpartition_range, elem_of_last_k, Hi. }
    destruct (pymap_pynth genes ei) as (el & Hpel & Hlel & Hsel); [by rewrite <-Hzs|].
    destruct (pymap_pynth scores ei Hei) as (es & Hpes & Hles & _).
    assert (Forall (gene_of (ga_visited t)) genes) as Hgenes by (by apply Forall_app).
    destruct (ga_space_facts _ Hok1 Hc1) as (_ & _ & Hpos & _).
    destruct (crossover_returns (ga_pop_size t) (ga_mutation_prob t) genes draws cs1 (ga_visited t) [])
      as (o & cs2 & H2 & Hok2 & Hc2 & Hsome); try done.
    { eapply Forall_impl; [exact Hgenes|]. intros g. by apply gene_bounded. }
    { unfold zlen. simpl. lia. }
    unfold sbind, slift, sput, ga_on_space. simpl. fold genes scores ei. rewrite Hpel, Hpes, H2.
    destruct o as [[vis' next']|].
    + eexists true, _. split; [done|]. intros _.
      destruct (Hsome vis' next' eq_refl) as (? & Hs & ? & ? & Hz). split; [|done].
      split; simpl; try done; [|lia|split; [lia|by left]].
      apply Forall_forall. intros g Hg. eapply gene_of_mono; [exact Hs|].
      rewrite Forall_forall in Hgenes. apply Hgenes. by apply Hsel.
    + by eexists false, _.
Qed.

Lemma ga_scores_returns (pairs : list (ConfigEntity * mresult)) : ∀ t,
  Forall (λ q, wf_result q.2) pairs → ga_inv t →
  ∃ sc, sfor pairs (λ '(_, res),
      let! y := slift (ga_score flop res) in
      let! t := sget in
      sput (mkGA (ga_space t) (ga_pop_size t) (ga_elite_num t) (ga_mutation_prob t)
              (ga_visited t) (ga_genes t) (ga_scores t ++ [y]) (ga_elites t)
              (ga_elite_scores t) (ga_trial_pt t))) t =
    (Ret tt, mkGA (ga_space t) (ga_pop_size t) (ga_elite_num t) (ga_mutation_prob t)
       (ga_visited t) (ga_genes t) sc (ga_elites t) (ga_elite_scores t) (ga_trial_pt t)).
Proof.
  induction pairs as [|[c r] pairs IH]; intros t Hwf Hinv.
  { exists (ga_scores t). by destruct t. }
  apply Forall_cons in Hwf as [Hr Hwf]. simpl in Hr.
  assert (∃ y, ga_score flop r = Ret y) as [y Hy].
  { unfold ga_score, wf_result in *. destruct (costs r); case_decide; try done; eauto. }
  cbn [sfor]. unfold sbind at 1 2, slift. rewrite Hy. unfold sbind at 1, sget, sput.
  destruct (IH (mkGA (ga_space t) (ga_pop_size t) (ga_elite_num t) (ga_mutation_prob t)
    (ga_visited t) (ga_genes t) (ga_scores t ++ [y]) (ga_elites t)
    (ga_elite_scores t) (ga_trial_pt t))) as (sc & Hrun); [done|by destruct Hinv; split|].
  exists sc. exact Hrun.
Qed.

(** Recording a batch of results and, when a generation is complete,
    breeding the next one from at least two genes never fails and keeps the invariant: genes stay
    within the dimensions and valid, and visited configurations stay visited.
    The breeding loop may only wait for more random draws. *)
Theorem ga_update_keeps draws pairs t :
  ga_inv t → lens ≠ [] → Forall (λ q, wf_result q.2) pairs →
  Forall (draw_ok (zlen (ga_genes t ++ ga_elites t))) draws → (2 ≤ zlen (ga_genes t ++ ga_elites t))%Z →
  ∃ go t', ga_update np_argpartition flop draws pairs t = (Ret go, t') ∧
    (go = true → ga_inv t' ∧ ∀ i, i ∈ ga_visited t → i ∈ ga_visited t').
Proof.
  intros Hinv Hne Hwf Hdraws Htwo. destruct (ga_scores_returns pairs t Hwf Hinv) as (sc & Hrun).
  set (t1 := mkGA (ga_space t) (ga_pop_size t) (ga_elite_num t) (ga_mutation_prob t)
    (ga_visited t) (ga_genes t) sc (ga_elites t) (ga_elite_scores t) (ga_trial_pt t)) in *.
  assert (ga_inv t1) as Hinv1 by (by destruct Hinv; split).
  unfold ga_update, sbind at 1. rewrite Hrun. unfold sbind at 1, sget at 1.
  case_bool_decide as Hge; [|by exists true, t1].
  pose proof Hinv1 as [Hok Hc ? ? ? ? ? ? ? ?].
  destruct (ga_space_facts _ Hok Hc) as (Hsm & _).
  destruct (cs_len_returns _ Hok) as (cs2 & H2 & Hok2 & Hc2). rewrite Hc in Hc2.
  unfold sbind, ga_on_space. rewrite H2.
  set (t2 := mkGA cs2 (ga_pop_size t1) (ga_elite_num t1) (ga_mutation_prob t1) (ga_visited t1)
    (ga_genes t1) (ga_scores t1) (ga_elites t1) (ga_elite_scores t1) (ga_trial_pt t1)).
  assert (ga_inv t2) as Hinv2 by (by destruct Hinv1; split).
  case_bool_decide; [|by exists true, t2].
  destruct (ga_generation_returns draws t2 Hinv2) as (go & t' & Hg & Hkeep); try done. eauto.
Qed.

(** The initial population satisfies the invariant; a set iterates over its
    elements. *)
Lemma ga_init_inv (set_order : list Z → list Z) pop elite prob draws :
  (∀ l i, i ∈ set_order l ↔ i ∈ l) → (∀ l, NoDup l → length (set_order l) = length l) →
  cs_ok cs → (elite ≤ pop)%Z → (0 < pop)%Z → (0 < count_valid cs 0 (size_of (space_map cs)))%Z →
  ∃ o cs', GATuner_init set_order pop elite prob draws cs = (Ret o, cs') ∧
    ∀ t, o = Some t → ga_inv t.
Proof.
  intros set_order_elem set_order_length Hok Hel Hpop Hcount.
  destruct (cs_len_returns cs Hok) as (cs1 & H1 & Hok1 & Hc1).
  destruct (ga_space_facts _ Hok1 Hc1) as (Hsm1 & _).
  set (n := count_valid cs 0 (size_of (space_map cs))) in *.
  destruct (sample_ints_returns cs1 (Z.min pop n) draws Hok1) as (o & (cs3 & Hs & Hok3 & Hc3) & Hr & _).
  { rewrite (count_valid_core cs), Hsm1 by done. fold n. lia. }
  rewrite Hc1 in Hc3. rewrite Hsm1 in Hr.
  unfold GATuner_init, sbind at 1, slift at 1, pyassert. rewrite bool_decide_true by lia.
  unfold sbind at 1. rewrite H1. unfold sbind at 1. rewrite Hs.
  destruct o as [vis|]; [|by exists None, cs3].
  destruct (Hr vis eq_refl) as (Hnd & Hzl & Hall). rewrite Forall_forall in Hall.
  destruct (points2knobs_returns (set_order vis) cs3 Hok3) as (cs4 & H4 & Hok4 & Hc4).
  rewrite Hc3 in Hc4. destruct (ga_space_facts _ Hok3 Hc3) as (_ & Hl3 & _). rewrite Hl3 in H4.
  unfold sbind, sget. rewrite H4. eexists (Some _), cs4. split; [done|]. intros t [= <-].
  assert (zlen (digits lens <$> set_order vis) = Z.min pop n) as Hzg.
  { unfold zlen. rewrite length_fmap, set_order_length by done. unfold zlen in Hzl. lia. }
  split; simpl; try done; try lia.
  - intros i Hi. apply elem_of_valid_in. rewrite <-(valid_at_core cs cs1) by done. by apply Hall.
  - apply Forall_forall. intros g Hg. apply list_elem_of_fmap in Hg as (i & -> & Hi).
    exists i. split; [by apply set_order_elem|done].
Qed.
End Genetic.
