(* ===== verification/Heapq.v ===== *)
(** * Binary heaps

    The functions of the standard module [heapq] that the tuners use, as the
    array algorithms of the Python library, and their contract: the items are
    kept, the heap order is restored, the first item is a least one.
    Used by: src/python/tvm/autotvm/tuner/sa_model_optimizer.py. *)

From S2P Require Import Prelude.

(** ** The algorithms *)

Section Heapq.
Context {A : Type} (lt : A → A → bool).

(** The loop of [_siftdown]: the heap with the parents moved down and the final
    position of the new item. *)
Fixpoint siftdown_loop (fuel : nat) (newitem : A) (startpos pos : nat) (heap : list A) :
    list A * nat :=
  match fuel with
  | O => (heap, pos)
  | S fuel' =>
      if bool_decide (startpos < pos) then
        let parentpos := Nat.div2 (pos - 1) in
        match heap !! parentpos with
        | Some parent =>
            if lt newitem parent
            then siftdown_loop fuel' newitem startpos parentpos (<[pos := parent]> heap)
            else (heap, pos)
        | None => (heap, pos)
        end
      else (heap, pos)
  end.

Definition siftdown (heap : list A) (startpos pos : nat) : list A :=
  match heap !! pos with
  | Some newitem =>
      let '(h, p) := siftdown_loop pos newitem startpos pos heap in <[p := newitem]> h
  | None => heap
  end.

(** The smaller child of [pos], the right one when the two are equal. *)
Definition smaller_child (heap : list A) (pos : nat) : nat :=
  let childpos := 2 * pos + 1 in
  let rightpos := childpos + 1 in
  match heap !! childpos, heap !! rightpos with
  | Some l, Some r => if lt l r then childpos else rightpos
  | _, _ => childpos
  end.

(** The loop of [_siftup]: the smaller children move up until a leaf is hit. *)
Fixpoint siftup_loop (fuel pos : nat) (heap : list A) : list A * nat :=
  match fuel with
  | O => (heap, pos)
  | S fuel' =>
      match heap !! smaller_child heap pos with
      | Some c => siftup_loop fuel' (smaller_child heap pos) (<[pos := c]> heap)
      | None => (heap, pos)
      end
  end.

Definition siftup (heap : list A) (pos : nat) : list A :=
  match heap !! pos with
  | Some newitem =>
      let '(h, p) := siftup_loop (length heap) pos heap in
      siftdown (<[p := newitem]> h) pos p
  | None => heap
  end.

Definition heapify (x : list A) : list A :=
  foldl siftup x (reverse (seq 0 (length x / 2))).

(** The item that was first, and the heap with the new one instead. *)
Definition heapreplace (heap : list A) (item : A) : py (A * list A) :=
  match heap with
  | [] => Raise IndexError
  | returnitem :: rest => Ret (returnitem, siftup (item :: rest) 0)
  end.
End Heapq.

(** ** The contract *)

(** What [heapq] needs of [<]: on the items of interest it is asymmetric and
    its complement is transitive. *)
Class HeapOrder {A} (lt : A → A → bool) (good : A → Prop) : Prop := {
  ho_irrefl a : good a → lt a a = false;
  ho_asym a b : good a → good b → lt a b = true → lt b a = false;
  ho_trans a b c : good a → good b → good c → lt b a = false → lt c b = false → lt c a = false
}.

Definition child (p c : nat) : Prop := c = 2 * p + 1 ∨ c = 2 * p + 2.

Section Spec.
Context {A : Type} (lt : A → A → bool) (good : A → Prop) `{!HeapOrder lt good}.
Implicit Types (h : list A) (x y : A) (p c s pos : nat).

(** [a] may be above [b]. *)
Abbreviation le a b := (lt b a = false).

(** The heap order between positions from [s] on, but for the pairs in [ex]. *)
Definition heap_except (ex : nat → nat → Prop) s h : Prop :=
  ∀ p c a b, s ≤ p → child p c → ¬ ex p c → h !! p = Some a → h !! c = Some b → le a b.

Definition heap_from s h : Prop := heap_except (λ _ _, False) s h.
Definition is_heap h : Prop := heap_from 0 h.

(** [pos] is in the subtree of [s]. *)
Inductive below s : nat → Prop :=
  | below_here : below s s
  | below_child p c : below s p → child p c → below s c.

Lemma child_div2 p c : child p c → Nat.div2 (c - 1) = p.
Proof.
  intros [->| ->]; [replace (2 * p + 1 - 1) with (2 * p) by lia; apply Nat.div2_double|].
  replace (2 * p + 2 - 1) with (S (2 * p)) by lia. apply Nat.div2_succ_double.
Qed.

Lemma child_lt p c : child p c → p < c.
Proof. unfold child. lia. Qed.

Lemma below_ge s pos : below s pos → s ≤ pos.
Proof. induction 1; [done|]. apply child_lt in H0. lia. Qed.

Lemma below_parent s pos :
  below s pos → s < pos → child (Nat.div2 (pos - 1)) pos ∧ below s (Nat.div2 (pos - 1)).
Proof.
  intros Hb Hlt. destruct Hb as [|p c Hb Hc]; [lia|]. rewrite (child_div2 p c Hc). done.
Qed.

Lemma insert_perm h i x v : h !! i = Some v → x :: h ≡ₚ v :: <[i := x]> h.
Proof.
  revert i. induction h as [|y h IH]; intros [|i] Hi; simplify_eq/=; [apply perm_swap|].
  rewrite perm_swap, (IH i Hi). apply perm_swap.
Qed.

(** Moving [v] from [i] to the hole [j] and the hole to [i]. *)
Lemma hole_perm h i j x v w :
  h !! i = Some v → h !! j = Some w → i ≠ j →
  <[i := x]> (<[j := v]> h) ≡ₚ <[j := x]> h.
Proof.
  intros Hi Hj Hne. apply (Permutation_cons_inv (a := v)), (Permutation_cons_inv (a := w)).
  rewrite <-(insert_perm (<[j := v]> h) i x v) by (by rewrite list_lookup_insert_ne).
  rewrite (perm_swap x w), <-(insert_perm h j v w) by done.
  rewrite (perm_swap v w), <-(insert_perm h j x w) by done. apply perm_swap.
Qed.

Lemma good_lookup h i a : Forall good h → h !! i = Some a → good a.
Proof. intros Hh Hi. by eapply Forall_lookup_1. Qed.

Lemma siftdown_loop_spec fuel x s : ∀ pos h,
  pos ≤ fuel → below s pos → pos < length h → good x → Forall good h →
  heap_except (λ _ c, c = pos) s h →
  (∀ c b, child pos c → h !! c = Some b → le x b) →
  (∀ p c a b, s ≤ p → child p pos → child pos c → h !! p = Some a → h !! c = Some b → le a b) →
  let '(h', p') := siftdown_loop lt fuel x s pos h in
  heap_from s (<[p' := x]> h') ∧ <[p' := x]> h' ≡ₚ <[pos := x]> h.
Proof.
  assert (∀ pos h, heap_except (λ _ c, c = pos) s h → pos < length h →
    (∀ c b, child pos c → h !! c = Some b → le x b) →
    (∀ p a, s ≤ p → child p pos → h !! p = Some a → le a x) →
    heap_from s (<[pos := x]> h)) as Hfill.
  { intros pos h Hh Hlen Hlow Hup p c a b Hs Hc _ Ha Hb. pose proof (child_lt p c Hc).
    destruct (decide (c = pos)) as [->|Hcp]; [|destruct (decide (p = pos)) as [->|Hpp]].
    - rewrite list_lookup_insert_ne in Ha by lia. rewrite list_lookup_insert_eq in Hb by lia.
      simplify_eq. by eapply Hup.
    - rewrite list_lookup_insert_eq in Ha by lia. rewrite list_lookup_insert_ne in Hb by lia.
      simplify_eq. by eapply Hlow.
    - rewrite list_lookup_insert_ne in Ha, Hb by lia. by eapply Hh. }
  induction fuel as [|fuel IH]; intros pos h Hf Hb Hlen Hx Hg Hh Hlow Hgr; cbn [siftdown_loop].
  { split; [|done]. apply Hfill; try done. intros p a _ Hc _. apply child_lt in Hc. lia. }
  case_bool_decide as Hlt; last first.
  { split; [|done]. apply Hfill; try done. intros p a Hs Hc _. apply child_lt in Hc. lia. }
  destruct (below_parent s pos Hb Hlt) as [Hc Hb']. set (pp := Nat.div2 (pos - 1)) in *.
  pose proof (child_lt _ _ Hc) as Hpp. pose proof (below_ge _ _ Hb') as Hspp.
  destruct (lookup_lt_is_Some_2 h pp) as [v Hv]; [lia|].
  destruct (lookup_lt_is_Some_2 h pos) as [w Hw]; [lia|]. rewrite Hv.
  destruct (lt x v) eqn:Hxv; last first.
  { split; [|done]. apply Hfill; try done. intros p a Hs Hcp Ha.
    assert (p = pp) as -> by (by apply child_div2 in Hcp). by simplify_eq. }
  assert (good v) by (by eapply good_lookup).
  assert (le x v) as Hxv' by (by apply ho_asym).
  specialize (IH pp (<[pos := v]> h)). destruct (siftdown_loop _ _ _ _ _ _) as [h' p'].
  destruct IH as [IH1 IH2]; rewrite ?length_insert; try done; try lia.
  - by apply Forall_insert.
  - intros p c a b Hs Hcp Hex Ha Hb2. pose proof (child_lt p c Hcp).
    destruct (decide (c = pos)) as [->|Hcne].
    + rewrite list_lookup_insert_eq in Hb2 by lia. simplify_eq.
      assert (p = pp) as -> by (by apply child_div2 in Hcp).
      rewrite list_lookup_insert_ne in Ha by lia. simplify_eq. by apply ho_irrefl.
    + rewrite list_lookup_insert_ne in Hb2 by lia.
      destruct (decide (p = pos)) as [->|Hpne].
      * rewrite list_lookup_insert_eq in Ha by lia. simplify_eq. by eapply (Hgr pp c).
      * rewrite list_lookup_insert_ne in Ha by lia. by eapply Hh.
  - intros c b Hcp Hb2. destruct (decide (c = pos)) as [->|Hcne].
    + rewrite list_lookup_insert_eq in Hb2 by lia. by simplify_eq.
    + rewrite list_lookup_insert_ne in Hb2 by lia.
      apply (ho_trans x v b); try done; [by eapply good_lookup|]. by eapply (Hh pp c).
  - intros p c a b Hs Hp1 Hc1 Ha Hb2. pose proof (child_lt _ _ Hp1).
    rewrite list_lookup_insert_ne in Ha by lia.
    assert (le a v) as Hav.
    { eapply (Hh p pp); try done. lia. }
    destruct (decide (c = pos)) as [->|Hcne].
    + rewrite list_lookup_insert_eq in Hb2 by lia. by simplify_eq.
    + rewrite list_lookup_insert_ne in Hb2 by lia.
      apply (ho_trans a v b); try done; [by eapply good_lookup..|]. by eapply (Hh pp c).
  - split; [done|]. rewrite IH2. by eapply hole_perm; try lia.
Qed.

Lemma smaller_child_spec h pos :
  Forall good h →
  match h !! smaller_child lt h pos with
  | Some v => child pos (smaller_child lt h pos) ∧
      ∀ c b, child pos c → h !! c = Some b → le v b
  | None => length h ≤ 2 * pos + 1
  end.
Proof.
  intros Hg. unfold smaller_child.
  destruct (h !! (2 * pos + 1)) as [l|] eqn:Hl; [|rewrite Hl; by apply lookup_ge_None].
  destruct (h !! (2 * pos + 1 + 1)) as [r|] eqn:Hr.
  - assert (good l) by (by eapply good_lookup). assert (good r) by (by eapply good_lookup).
    assert (∀ c b, child pos c → h !! c = Some b → b = l ∨ b = r) as Hcb.
    { intros c b [->| ->] Hb; [left; congruence|right].
      rewrite (ltac:(lia) : 2 * pos + 2 = 2 * pos + 1 + 1) in Hb. congruence. }
    destruct (lt l r) eqn:E; rewrite ?Hl, ?Hr; (split; [unfold child; lia|]);
      intros c b Hc Hb; destruct (Hcb c b Hc Hb) as [->| ->];
      [by apply ho_irrefl|by apply ho_asym|done|by apply ho_irrefl].
  - assert (good l) by (by eapply good_lookup). rewrite Hl. split; [by left|].
    intros c b Hc Hb. apply lookup_ge_None in Hr. pose proof (lookup_lt_Some _ _ _ Hb).
    assert (c = 2 * pos + 1) as -> by (destruct Hc; lia). simplify_eq. by apply ho_irrefl.
Qed.

Lemma siftup_loop_spec fuel x s : ∀ pos h,
  length h ≤ fuel + pos → below s pos → pos < length h → Forall good h →
  heap_except (λ p _, p = pos) s h →
  (∀ p c a b, s ≤ p → child p pos → child pos c → h !! p = Some a → h !! c = Some b → le a b) →
  let '(h', p') := siftup_loop lt fuel pos h in
  <[p' := x]> h' ≡ₚ <[pos := x]> h ∧ below s p' ∧ p' < length h' ∧ length h' = length h ∧
  Forall good h' ∧ heap_except (λ p _, p = p') s h' ∧ length h ≤ 2 * p' + 1.
Proof.
  induction fuel as [|fuel IH]; intros pos h Hf Hb Hlen Hg Hh Hgr; cbn [siftup_loop]; [lia|].
  pose proof (smaller_child_spec h pos Hg) as Hsc.
  destruct (h !! smaller_child lt h pos) as [v|] eqn:Hv; [|done].
  set (cp := smaller_child lt h pos) in *. destruct Hsc as [Hc Hmin].
  pose proof (child_lt _ _ Hc) as Hlt. pose proof (below_ge _ _ Hb) as Hge.
  pose proof (lookup_lt_Some _ _ _ Hv) as Hcl.
  destruct (lookup_lt_is_Some_2 h pos) as [w Hw]; [lia|].
  specialize (IH cp (<[pos := v]> h)). destruct (siftup_loop _ _ _ _) as [h' p'].
  rewrite length_insert in IH. destruct IH as (H1 & H2 & H3 & H4 & H5 & H6 & H7); try done; try lia.
  - by eapply below_child.
  - apply Forall_insert; [done|]. by eapply good_lookup.
  - intros p c a b Hs Hcp Hex Ha Hb2. pose proof (child_lt _ _ Hcp).
    destruct (decide (p = pos)) as [->|Hpne].
    + rewrite list_lookup_insert_eq in Ha by lia. rewrite list_lookup_insert_ne in Hb2 by lia.
      simplify_eq. by eapply Hmin.
    + rewrite list_lookup_insert_ne in Ha by lia. destruct (decide (c = pos)) as [->|Hcne].
      * rewrite list_lookup_insert_eq in Hb2 by lia. simplify_eq. by eapply (Hgr p cp).
      * rewrite list_lookup_insert_ne in Hb2 by lia. by eapply Hh.
  - intros p c a b Hs Hp1 Hc1 Ha Hb2.
    assert (p = pos) as -> by (apply child_div2 in Hp1, Hc; congruence).
    pose proof (child_lt _ _ Hc1). rewrite list_lookup_insert_eq in Ha by lia.
    rewrite list_lookup_insert_ne in Hb2 by lia. simplify_eq. eapply (Hh cp c); try done; lia.
  - split_and!; try done. rewrite H1. by eapply hole_perm; try lia.
Qed.

Lemma siftup_spec h pos :
  Forall good h → heap_from (S pos) h → heap_from pos (siftup lt h pos) ∧ siftup lt h pos ≡ₚ h.
Proof.
  intros Hg Hh. unfold siftup. destruct (h !! pos) as [x|] eqn:Hx; last first.
  { split; [|done]. intros p c a b Hs Hc _ Ha. apply lookup_ge_None in Hx.
    apply lookup_lt_Some in Ha. lia. }
  pose proof (lookup_lt_Some _ _ _ Hx) as Hlt. assert (good x) by (by eapply good_lookup).
  pose proof (siftup_loop_spec (length h) x pos pos h) as Hup.
  destruct (siftup_loop _ _ _ _) as [h' p'].
  destruct Hup as (Hp & Hbe & Hlt' & Hlen & Hg' & Hh' & Hleaf); try done; try lia.
  - constructor.
  - intros p c a b Hs Hc Hne. cbn in Hne. apply Hh; [lia|done|by intros []].
  - intros p c a b Hs Hc. apply child_lt in Hc. lia.
  - rewrite (list_insert_id h pos x) in Hp by done.
    unfold siftdown. rewrite list_lookup_insert_eq by done.
    assert (∀ c b, child p' c → <[p' := x]> h' !! c = Some b → False) as Hno.
    { intros c b Hc Hb. apply lookup_lt_Some in Hb. rewrite length_insert in Hb.
      destruct Hc; lia. }
    pose proof (siftdown_loop_spec p' x pos p' (<[p' := x]> h')) as Hdown.
    destruct (siftdown_loop _ _ _ _ _ _) as [h2 p2].
    destruct Hdown as [H1 H2]; rewrite ?length_insert; try done.
    + by apply Forall_insert.
    + intros p c a b Hs Hc Hex Ha Hb. destruct (decide (p = p')) as [->|Hpne]; [by eapply Hno in Hb|].
      rewrite list_lookup_insert_ne in Ha, Hb by done. by eapply Hh'.
    + intros c b Hc Hb. by eapply Hno in Hb.
    + intros p c a b _ _ Hc _ Hb. by eapply Hno in Hb.
    + split; [done|]. rewrite H2. by rewrite list_insert_insert_eq.
Qed.

(** [heapify] makes a heap of the items of any list. *)
Lemma heapify_spec h : Forall good h → is_heap (heapify lt h) ∧ heapify lt h ≡ₚ h.
Proof.
  intros Hg. unfold heapify, is_heap.
  assert (heap_from (length h / 2) h) as Hh.
  { intros p c a b Hs Hc _ _ Hb. apply lookup_lt_Some in Hb.
    pose proof (Nat.div_mod_eq (length h) 2). pose proof (Nat.mod_upper_bound (length h) 2).
    destruct Hc; lia. }
  revert Hh. generalize (length h / 2) as k. intros k. revert h Hg.
  induction k as [|k IH]; intros h Hg Hh; [done|].
  rewrite seq_S, reverse_app. simpl.
  destruct (siftup_spec h k Hg Hh) as [H1 H2].
  destruct (IH (siftup lt h k)) as [H3 H4]; [by rewrite H2|done|].
  split; [done|by rewrite H4].
Qed.

(** [heapreplace] returns the first item and keeps a heap of the others and the
    new one. *)
Lemma heapreplace_spec h y rest x :
  h = y :: rest → Forall good h → good x → is_heap h →
  ∃ h', heapreplace lt h x = Ret (y, h') ∧ is_heap h' ∧ h' ≡ₚ x :: rest.
Proof.
  intros -> Hg Hx Hh. apply Forall_cons in Hg as [_ Hg].
  destruct (siftup_spec (x :: rest) 0) as [H1 H2]; [by constructor| |].
  - intros [|p] c a b Hs Hc _ Ha Hb; [lia|].
    destruct c as [|c]; [apply child_lt in Hc; lia|]. eapply (Hh (S p) (S c)); [lia|done|by intros []|done..].
  - eexists. split; [done|]. split; done.
Qed.

(** The first item of a heap is a least one. *)
Lemma is_heap_head h y rest x : h = y :: rest → Forall good h → is_heap h → x ∈ h → le y x.
Proof.
  intros -> Hg Hh [i Hi]%list_elem_of_lookup. revert x Hi.
  induction i as [i IH] using lt_wf_ind. intros x Hi. destruct i as [|i].
  { simplify_eq/=. apply ho_irrefl. by inversion Hg. }
  assert (child (Nat.div2 i) (S i)) as Hc.
  { unfold child. pose proof (Nat.div2_odd i). destruct (Nat.odd i); simpl in *; lia. }
  pose proof (child_lt _ _ Hc).
  destruct (lookup_lt_is_Some_2 (y :: rest) (Nat.div2 i)) as [v Hv];
    [apply lookup_lt_Some in Hi; lia|].
  apply (ho_trans y v x); [by inversion Hg|by eapply good_lookup|by eapply good_lookup|by eapply IH|].
  eapply (Hh (Nat.div2 i) (S i)); [apply Nat.le_0_l|done|by intros []|done..].
Qed.
End Spec.
