(* ===== verification/ModelTuner.v ===== *)
(** * Model based tuning

    The simulated annealing optimizer, the tuner that measures the points an
    optimizer finds on a cost model, the greedy diversity filter, and the curves
    that evaluate a tuning process.
    Sources: src/python/tvm/autotvm/tuner/{sa_model_optimizer,model_based_tuner,
    metric}.py. *)

From S2P Require Import Prelude PyFloat Transforms ConfigSpace Tuner Heapq.

(** ** Interfaces *)

(** [CostModel], over training records [R]. *)
Class CostModel (M R : Type) := {
  cm_predict : M → list Z → list flt;
  cm_fit : list Z → list flt → Z → ST M unit;
  cm_fit_log : list R → Z → Z → ST M bool;
  cm_load_basemodel : M → ST M unit;
  cm_spawn_base_model : M → M
}.

(** An argument that may be an int or a float. *)
Inductive num := NInt (z : Z) | NFloat (f : flt).

(** [range(n)]. *)
Definition range_num (n : num) : py (list Z) :=
  match n with NInt z => Ret (range 0 z) | NFloat _ => Raise TypeError end.

(** [ModelOptimizer.find_maximums], an operation on the optimizer and the space
    of its task; [None] means that the random draws were used up. *)
Class ModelOptimizer (M O : Type) := {
  find_maximums : M → num → list Z → ST (ConfigSpace * O) (option (list Z))
}.

(** ** Simulated annealing *)

(** The draws of a call of [find_maximums]: those of [sample_ints], and for every
    iteration those of the random walks and of [np.random.random]. *)
Record sa_draws := mkSADraws {
  sd_sample : list Z;
  sd_rounds : list (list (list (Z * Z)) * list flt)
}.

(** [sa_temp] is a constant or an array; [sa_log_interval] is 0 for [None]; [sa_rng]
    holds the draws of the calls to come. *)
Record SimulatedAnnealingOptimizer := mkSA {
  sa_n_iter : Z;
  sa_temp : flt + list flt;
  sa_persistent : bool;
  sa_parallel_size : Z;
  sa_early_stop : Z;
  sa_log_interval : Z;
  sa_points : option (list Z);
  sa_rng : list sa_draws
}.

Definition sa_set_points (ps : option (list Z)) (o : SimulatedAnnealingOptimizer) :
    SimulatedAnnealingOptimizer :=
  mkSA (sa_n_iter o) (sa_temp o) (sa_persistent o) (sa_parallel_size o) (sa_early_stop o)
    (sa_log_interval o) ps (sa_rng o).

Definition sa_set_rng (rng : list sa_draws) (o : SimulatedAnnealingOptimizer) :
    SimulatedAnnealingOptimizer :=
  mkSA (sa_n_iter o) (sa_temp o) (sa_persistent o) (sa_parallel_size o) (sa_early_stop o)
    (sa_log_interval o) (sa_points o) rng.

(** An item of the heap: a score and a point, compared as tuples. *)
Abbreviation item := (flt * Z)%type.

Definition item_ltb (a b : item) : bool :=
  if feqb a.1 b.1 then (a.2 <? b.2)%Z else fltb a.1 b.1.

(** The body of the loops over [zip(scores, points)]: the heap, the set of the
    points in it and the excluded ones, and whether the heap was changed. *)
Definition offer (s : flt) (p : Z) (st : list item * gset Z) : py (list item * gset Z * bool) :=
  let '(heap_items, in_heap) := st in
  let? least := pynth heap_items 0 in
  if fltb least.1 s && negb (bool_decide (p ∈ in_heap)) then
    let? (pop, heap_items) := heapreplace item_ltb heap_items (s, p) in
    if bool_decide (pop.2 ∈ in_heap)
    then Ret (heap_items, {[p]} ∪ (in_heap ∖ {[pop.2]}), true)
    else Raise KeyError
  else Ret (st, false).

Fixpoint offer_all (pairs : list item) (st : list item * gset Z) : py (list item * gset Z * bool) :=
  match pairs with
  | [] => Ret (st, false)
  | (s, p) :: pairs' =>
      let? (st, changed) := offer s p st in
      let? (st, changed') := offer_all pairs' st in
      Ret (st, changed || changed')
  end.

(** [np.minimum] on floats. *)
Definition np_minimum (a b : flt) : flt :=
  if is_nan a then a else if is_nan b then b else if fltb a b then a else b.

(** [points[ac_index] = new_points[ac_index]]. *)
Definition where_accepted {A} (mask : list bool) (new old : list A) : list A :=
  zip_with (λ (b : bool) '(x, y), if b then x else y) mask (zip new old).

(** The random walks of an iteration. *)
Fixpoint walk_all `{Numpy} (points : list Z) (walks : list (list (Z * Z))) :
    ST ConfigSpace (option (list Z)) :=
  match points, walks with
  | [], _ => sret (Some [])
  | _, [] => sret None
  | p :: points', d :: walks' =>
      let! o := random_walk p d in
      match o with
      | None => sret None
      | Some q => let! r := walk_all points' walks' in sret (option_map (cons q) r)
      end
  end.

(** The local variables of [find_maximums]. *)
Record sa_local := mkSL {
  sl_points : list Z;
  sl_scores : list flt;
  sl_heap : list item * gset Z;
  sl_k : Z;
  sl_last : Z;
  sl_t : flt
}.

(** A step on the space. *)
Definition on_fst {A B T} (m : ST A T) : ST (A * B) T := λ s,
  let '(r, a) := m s.1 in (r, (a, s.2)).

Section Annealing.
Context `{Numpy} {M R : Type} `{!CostModel M R}.
(** [np.exp] on floats. *)
Context (np_exp : flt → flt).
Abbreviation SAST := (ST (ConfigSpace * SimulatedAnnealingOptimizer)).

(** [SimulatedAnnealingOptimizer.__init__]. *)
Definition sa_init (n_iter : Z) (temp : flt + list flt) (persistent : bool) (parallel_size : Z)
    (early_stop : option Z) (log_interval : Z) (rng : list sa_draws) :
    ST ConfigSpace SimulatedAnnealingOptimizer :=
  let! n := cs_len in
  sret (mkSA n_iter temp persistent (Z.min parallel_size n) (int_or early_stop 1000000000)
          log_interval None rng).

(** Is the move from score [s] to [s'] accepted at temperature [t], for the
    uniform variate [u]? *)
Definition sa_accept (t s s' u : flt) : bool :=
  fltb u (np_exp (np_minimum (fdiv_raw (fsub s' s) (fadd t f_1e_5)) f1)).

(** The arguments of the log message of every [log_interval] iterations. *)
Definition sa_log (log_interval k : Z) (heap_items : list item) : py unit :=
  if (log_interval =? 0)%Z then Ret tt else
  let? r := pymod k log_interval in
  if (r =? 0)%Z then let? _ := pynth heap_items 0 in Ret tt else Ret tt.

(** The [while] loop.  [aliased]: the array [points] is the one that [self.points]
    refers to, so the moves are made in the optimizer. *)
Fixpoint sa_loop (model : M) (cool : flt) (aliased : bool)
    (rounds : list (list (list (Z * Z)) * list flt)) (l : sa_local) : SAST (option sa_local) :=
  let! s := sget in
  let o := s.2 in
  if bool_decide (sl_k l < sa_n_iter o ∧ sl_k l < sl_last l + sa_early_stop o)%Z then
    match rounds with
    | [] => sret None
    | (walks, us) :: rounds' =>
        let! new := on_fst (walk_all (sl_points l) walks) in
        match new with
        | None => sret None
        | Some new_points =>
            if negb (bool_decide (length us = length new_points)) then sret None else
            let new_scores := cm_predict model new_points in
            let mask := zip_with (λ '(s', s) u, sa_accept (sl_t l) s s' u)
                          (zip new_scores (sl_scores l)) us in
            let points := where_accepted mask new_points (sl_points l) in
            let scores := where_accepted mask new_scores (sl_scores l) in
            let! _ := smod (λ s, (s.1, if aliased then sa_set_points (Some points) s.2 else s.2)) in
            let! (st, changed) := slift (offer_all (zip new_scores new_points) (sl_heap l)) in
            let last := if changed then sl_k l else sl_last l in
            let k := (sl_k l + 1)%Z in
            let! _ := slift (sa_log (sa_log_interval o) k st.1) in
            sa_loop model cool aliased rounds' (mkSL points scores st k last (fsub (sl_t l) cool))
        end
    end
  else sret (Some l).

(** The initial temperature and its decrease per iteration. *)
Definition sa_cooling (o : SimulatedAnnealingOptimizer) : py (flt * flt) :=
  match sa_temp o with
  | inl t => Ret (t, f0)
  | inr temp =>
      let? t0 := pynth temp 0 in
      let? t1 := pynth temp 1 in
      let? cool := fdiv (fmul f1 (fsub t0 t1)) (f_of_Z (sa_n_iter o + 1)) in
      Ret (t0, cool)
  end.

(** The items with which the heap starts. *)
Definition sentinels (l : list Z) : list item := (λ i, (S754_infinity true, -1 - i)%Z) <$> l.

(** The points the chains start from. *)
Definition sa_start (draws : list Z) : SAST (option (list Z)) :=
  let! s := sget in
  match sa_points s.2 with
  | Some ps =>
      if sa_persistent s.2 then sret (Some ps)
      else on_fst (sample_ints (sa_parallel_size s.2) draws)
  | None => on_fst (sample_ints (sa_parallel_size s.2) draws)
  end.

(** The points of the heap by decreasing score, without the negative ones. *)
Definition sa_result (heap_items : list item) : list Z :=
  (filter (λ x, fleb f0 x.1 = true) (sort_desc heap_items)).*2.

(** [SimulatedAnnealingOptimizer.find_maximums]. *)
Definition sa_find_maximums (model : M) (n : num) (exclusive : list Z) : SAST (option (list Z)) :=
  let! s := sget in
  match sa_rng s.2 with
  | [] => sret None
  | d :: rng =>
      let! _ := smod (λ s, (s.1, sa_set_rng rng s.2)) in
      let aliased := sa_persistent s.2 && bool_decide (is_Some (sa_points s.2)) in
      let! start := sa_start (sd_sample d) in
      match start with
      | None => sret None
      | Some points =>
          let scores := cm_predict model points in
          let! r := slift (range_num n) in
          let heap_items := heapify item_ltb (sentinels r) in
          let in_heap := list_to_set (exclusive ++ heap_items.*2) in
          let! (st, _) := slift (offer_all (zip scores points) (heap_items, in_heap)) in
          let! (t, cool) := slift (sa_cooling s.2) in
          let! o := sa_loop model cool aliased (sd_rounds d) (mkSL points scores st 0 0 t) in
          match o with
          | None => sret None
          | Some l =>
              let! _ := smod (λ s, (s.1, if sa_persistent s.2
                                          then sa_set_points (Some (sl_points l)) s.2 else s.2)) in
              sret (Some (sa_result (sl_heap l).1))
          end
      end
  end.
End Annealing.

(** The optimizer behind the interface. *)
#[global] Instance sa_optimizer `{Numpy} {M R} `{!CostModel M R} (np_exp : flt → flt) :
    ModelOptimizer M SimulatedAnnealingOptimizer := {|
  find_maximums := sa_find_maximums np_exp
|}.

(** ** The diversity filter *)

(** The inner loop: [tmp_delta] of a point with knobs [knob]. *)
Fixpoint pick_delta (knob_weight : flt) (knob : list Z) (knobs_set : list (gset Z)) (tmp_delta : flt) :
    py flt :=
  match knobs_set, knob with
  | [], _ => Ret tmp_delta
  | _, [] => Raise IndexError
  | s :: knobs_set', v :: knob' =>
      pick_delta knob_weight knob' knobs_set'
        (if bool_decide (v ∈ s) then tmp_delta else fadd tmp_delta knob_weight)
  end.

(** The loop over [remain]: [max_delta] and [max_x]. *)
Fixpoint pick_max (scores : list flt) (knobs : list (list Z)) (knob_weight : flt)
    (knobs_set : list (gset Z)) (remain : list Z) (best : flt * Z) : py (flt * Z) :=
  match remain with
  | [] => Ret best
  | x :: remain' =>
      let? s := pynth scores x in
      let? knob := pynth knobs x in
      let? d := pick_delta knob_weight knob knobs_set s in
      pick_max scores knobs knob_weight knobs_set remain' (if fltb best.1 d then (d, x) else best)
  end.

(** [knobs_set[i].add(knobs[max_x][i])] for every [i]. *)
Definition add_knobs (knob : list Z) (knobs_set : list (gset Z)) : list (gset Z) :=
  zip_with (λ v s, {[v]} ∪ s) knob knobs_set.

Fixpoint pick_loop (scores : list flt) (knobs : list (list Z)) (knob_weight : flt)
    (n_pick : nat) (knobs_set : list (gset Z)) (remain : list Z) : py (list Z) :=
  match n_pick with
  | O => Ret []
  | S n =>
      let? (_, max_x) := pick_max scores knobs knob_weight knobs_set remain
                           (fsub f0 f_1e9, (-1)%Z) in
      let? remain := pyremove max_x remain in
      let? knob := pynth knobs max_x in
      let? ret := pick_loop scores knobs knob_weight n (add_knobs knob knobs_set) remain in
      Ret (max_x :: ret)
  end.

(** [submodular_pick]. *)
Definition submodular_pick (scores : list flt) (knobs : list (list Z)) (n_pick : Z)
    (knob_weight : flt) : py (list Z) :=
  let? _ := pyassert (bool_decide (length scores = length knobs)) in
  let? knob0 := pynth knobs 0 in
  pick_loop scores knobs knob_weight (Z.to_nat n_pick) (replicate (length knob0) ∅)
    (range 0 (zlen scores)).

(** ** The tuner *)

(** [self.trials] is a list, or a numpy array after the diversity filter. *)
Inductive trials_t := TList (l : list Z) | TArray (l : list Z).

Definition trial_list (t : trials_t) : list Z := match t with TList l | TArray l => l end.

(** [bool(self.trials)]. *)
Definition trials_truth (t : trials_t) : py bool :=
  match t with
  | TList l => Ret (bool_decide (l ≠ []))
  | TArray [] => Ret false
  | TArray [x] => Ret (negb (x =? 0)%Z)
  | TArray _ => Raise ValueError
  end.

(** [mt_in_tuning] is [GLOBAL_SCOPE.in_tuning]; [mt_visited] a set kept as a list
    without repetition. *)
Record ModelBasedTuner (M O : Type) := mkMT {
  mt_space : ConfigSpace;
  mt_plan_size : Z;
  mt_cost_model : M;
  mt_optimizer : O;
  mt_ratio : option num;
  mt_trials : trials_t;
  mt_trial_pt : Z;
  mt_visited : list Z;
  mt_xs : list Z;
  mt_ys : list flt;
  mt_flops_max : flt;
  mt_train_ct : Z;
  mt_in_tuning : bool
}.
Arguments mkMT {M O}.
Arguments mt_space {M O}.
Arguments mt_plan_size {M O}.
Arguments mt_cost_model {M O}.
Arguments mt_optimizer {M O}.
Arguments mt_ratio {M O}.
Arguments mt_trials {M O}.
Arguments mt_trial_pt {M O}.
Arguments mt_visited {M O}.
Arguments mt_xs {M O}.
Arguments mt_ys {M O}.
Arguments mt_flops_max {M O}.
Arguments mt_train_ct {M O}.
Arguments mt_in_tuning {M O}.

Section ModelTuner.
Context `{Numpy} {M R O : Type} `{!CostModel M R, !ModelOptimizer M O}.
(** [task.flop]. *)
Context (flop : flt).
Abbreviation MT := (ModelBasedTuner M O).

(** Assignments to the fields. *)
Definition mt_set_space (cs : ConfigSpace) (t : MT) : MT :=
  mkMT cs (mt_plan_size t) (mt_cost_model t) (mt_optimizer t) (mt_ratio t) (mt_trials t)
    (mt_trial_pt t) (mt_visited t) (mt_xs t) (mt_ys t) (mt_flops_max t) (mt_train_ct t) (mt_in_tuning t).
Definition mt_set_model (m : M) (t : MT) : MT :=
  mkMT (mt_space t) (mt_plan_size t) m (mt_optimizer t) (mt_ratio t) (mt_trials t)
    (mt_trial_pt t) (mt_visited t) (mt_xs t) (mt_ys t) (mt_flops_max t) (mt_train_ct t) (mt_in_tuning t).
Definition mt_set_optimizer (o : O) (t : MT) : MT :=
  mkMT (mt_space t) (mt_plan_size t) (mt_cost_model t) o (mt_ratio t) (mt_trials t)
    (mt_trial_pt t) (mt_visited t) (mt_xs t) (mt_ys t) (mt_flops_max t) (mt_train_ct t) (mt_in_tuning t).
Definition mt_set_plan (l : trials_t) (pt ct : Z) (t : MT) : MT :=
  mkMT (mt_space t) (mt_plan_size t) (mt_cost_model t) (mt_optimizer t) (mt_ratio t) l pt
    (mt_visited t) (mt_xs t) (mt_ys t) (mt_flops_max t) ct (mt_in_tuning t).
Definition mt_visit (index : Z) (t : MT) : MT :=
  mkMT (mt_space t) (mt_plan_size t) (mt_cost_model t) (mt_optimizer t) (mt_ratio t) (mt_trials t)
    (mt_trial_pt t) (set_add index (mt_visited t)) (mt_xs t) (mt_ys t) (mt_flops_max t) (mt_train_ct t)
    (mt_in_tuning t).
Definition mt_add_x (x : Z) (t : MT) : MT :=
  mkMT (mt_space t) (mt_plan_size t) (mt_cost_model t) (mt_optimizer t) (mt_ratio t) (mt_trials t)
    (mt_trial_pt t) (mt_visited t) (mt_xs t ++ [x]) (mt_ys t) (mt_flops_max t) (mt_train_ct t)
    (mt_in_tuning t).
Definition mt_add_y (y flops_max : flt) (t : MT) : MT :=
  mkMT (mt_space t) (mt_plan_size t) (mt_cost_model t) (mt_optimizer t) (mt_ratio t) (mt_trials t)
    (mt_trial_pt t) (mt_visited t) (mt_xs t) (mt_ys t ++ [y]) flops_max (mt_train_ct t)
    (mt_in_tuning t).
Definition mt_set_tuning (b : bool) (t : MT) : MT :=
  mkMT (mt_space t) (mt_plan_size t) (mt_cost_model t) (mt_optimizer t) (mt_ratio t) (mt_trials t)
    (mt_trial_pt t) (mt_visited t) (mt_xs t) (mt_ys t) (mt_flops_max t) (mt_train_ct t) b.

(** Steps on the space, the cost model, and the optimizer with its space. *)
Definition mt_on_space {A} (m : ST ConfigSpace A) : ST MT A := λ t,
  let '(r, cs) := m (mt_space t) in (r, mt_set_space cs t).
Definition mt_on_model {A} (m : ST M A) : ST MT A := λ t,
  let '(r, c) := m (mt_cost_model t) in (r, mt_set_model c t).
Definition mt_on_optimizer {A} (m : ST (ConfigSpace * O) A) : ST MT A := λ t,
  let '(r, (cs, o)) := m (mt_space t, mt_optimizer t) in (r, mt_set_optimizer o (mt_set_space cs t)).

(** [x] as a condition, and [x >= 1]. *)
Definition num_truth (n : num) : bool :=
  match n with NInt z => negb (z =? 0)%Z | NFloat f => negb (feqb f f0) end.
Definition num_ge1 (n : num) : bool :=
  match n with NInt z => (1 <=? z)%Z | NFloat f => fleb f1 f end.

(** [ModelBasedTuner.__init__]. *)
Definition mt_init (cs : ConfigSpace) (cost_model : M) (optimizer : O) (plan_size : Z)
    (ratio : option num) : py MT :=
  let? _ := match ratio with
            | Some n => if num_truth n then pyassert (num_ge1 n) else Ret tt
            | None => Ret tt
            end in
  Ret (mkMT cs plan_size cost_model optimizer ratio (TList []) 0 [] [] [] f0 0 false).

(** [has_next]. *)
Definition mt_has_next : ST MT bool :=
  let! t := sget in
  let! n := mt_on_space cs_len in
  sret (bool_decide (zlen (mt_visited t) < n)%Z).

(** The inner [while] of [next_batch], over the trials from [trial_pt] on: the
    local variable [index] after it. *)
Fixpoint seek_trial (rest : list Z) (index : option Z) : ST MT (option Z) :=
  match rest with
  | [] => sret index
  | i :: rest' =>
      let! t := sget in
      let! ok := if bool_decide (i ∈ mt_visited t) then sret false
                 else mt_on_space (is_index_valid i) in
      if ok then sret (Some i)
      else let! _ := smod (λ t, mt_set_plan (mt_trials t) (mt_trial_pt t + 1) (mt_train_ct t) t) in
           seek_trial rest' (Some i)
  end.

(** [int(0.05 * self.plan_size)]. *)
Definition f_0_05 : flt := fdiv_raw (f_of_Z 5) (f_of_Z 100).
Definition last_trials (plan_size : Z) : py Z := f_trunc (fmul f_0_05 (f_of_Z plan_size)).

(** The index to measure next, from the plan or at random; [None] means that
    the draws of [get_rand_index] were used up.  Also the draws left. *)
Definition pick_trial (index : option Z) (draws : list (list Z)) :
    ST MT (option Z * list (list Z)) :=
  let! t := sget in
  let! index := seek_trial (drop (Z.to_nat (mt_trial_pt t)) (trial_list (mt_trials t))) index in
  let! t := sget in
  let! k := slift (last_trials (mt_plan_size t)) in
  if bool_decide (zlen (trial_list (mt_trials t)) - k ≤ mt_trial_pt t)%Z then
    match draws with
    | [] => sret (None, [])
    | ds :: draws' =>
        let! o := mt_on_space (get_rand_index None None (mt_visited t) ds) in
        sret (o, draws')
    end
  else
    match index with
    | Some i => sret (Some i, draws)
    | None => sraise UnboundLocalError
    end.

(** [next_batch]: every iteration of the outer loop adds a config. *)
Fixpoint mt_next_batch (batch_size : nat) (index : option Z) (draws : list (list Z)) :
    ST MT (option (list ConfigEntity)) :=
  match batch_size with
  | 0 => sret (Some [])
  | S n =>
      let! more := mt_has_next in
      if more then
        let! (o, draws) := pick_trial index draws in
        match o with
        | None => sret None
        | Some i =>
            let! c := mt_on_space (cs_get i) in
            let! _ := smod (mt_visit i) in
            let! ret := mt_next_batch n (Some i) draws in
            sret (option_map (cons c) ret)
        end
      else sret (Some [])
  end.

(** The loop of [update] over [zip(inputs, results)]. *)
Definition mt_observe (pair : ConfigEntity * mresult) : ST MT unit :=
  let '(inp, res) := pair in
  let index := ce_index inp in
  let! _ := smod (mt_add_x index) in
  let! flops := slift (ga_score flop res) in
  let! _ := smod (λ t, mt_add_y flops (if decide (error_no res = 0)%Z then fmax (mt_flops_max t) flops
                                        else mt_flops_max t) t) in
  let! ok := mt_on_space (is_index_valid index) in
  let! _ := slift (pyassert ok) in
  smod (mt_visit index).

(** [plan_size * diversity_filter_ratio]. *)
Definition num_mul (plan_size : Z) (n : num) : num :=
  match n with
  | NInt z => NInt (plan_size * z)
  | NFloat f => NFloat (fmul (f_of_Z plan_size) f)
  end.

(** [np.array(candidate)[pick_trial]]. *)
Definition np_take (l : list Z) (idx : list Z) : py (list Z) := pymap (pynth l) idx.

(** The new plan; [None] means that the optimizer used up its draws. *)
Definition mt_plan : ST MT (option trials_t) :=
  let! t := sget in
  match mt_ratio t with
  | Some r =>
      if num_truth r then
        let! o := mt_on_optimizer (find_maximums (mt_cost_model t) (num_mul (mt_plan_size t) r)
                                     (mt_visited t)) in
        match o with
        | None => sret None
        | Some candidate =>
            let scores := cm_predict (mt_cost_model t) candidate in
            let! knobs := mt_on_space (smap point2knob candidate) in
            let! idx := slift (submodular_pick (fmul f0 <$> scores) knobs (mt_plan_size t) f1) in
            let! maximums := slift (np_take candidate idx) in
            sret (Some (TArray maximums))
        end
      else
        let! o := mt_on_optimizer (find_maximums (mt_cost_model t) (NInt (mt_plan_size t)) (mt_visited t)) in
        sret (option_map TList o)
  | None =>
      let! o := mt_on_optimizer (find_maximums (mt_cost_model t) (NInt (mt_plan_size t)) (mt_visited t)) in
      sret (option_map TList o)
  end.

(** [update]; the result is [false] when the draws were used up. *)
Definition mt_update (pairs : list (ConfigEntity * mresult)) : ST MT bool :=
  let! _ := sfor pairs mt_observe in
  let! t := sget in
  if bool_decide (mt_plan_size t * (mt_train_ct t + 1) ≤ zlen (mt_xs t))%Z && fltb f_1e_6 (mt_flops_max t) then
    let! _ := mt_on_model (cm_fit (mt_xs t) (mt_ys t) (mt_plan_size t)) in
    let! o := mt_plan in
    match o with
    | None => sret false
    | Some l => let! _ := smod (λ t, mt_set_plan l 0 (mt_train_ct t + 1) t) in sret true
    end
  else sret true.

(** [load_history]. *)
Definition mt_load_history (data_set : list R) (min_seed_records : Z) : ST MT bool :=
  let! _ := smod (mt_set_tuning true) in
  let! t := sget in
  let '(r, base_model) := cm_fit_log data_set (mt_plan_size t) min_seed_records
                            (cm_spawn_base_model (mt_cost_model t)) in
  let! success := slift r in
  if negb success then let! _ := smod (mt_set_tuning false) in sret true else
  let! has_plan := slift (trials_truth (mt_trials t)) in
  let! found :=
    if has_plan then sret true else
    let! o := mt_on_optimizer (find_maximums base_model (NInt (mt_plan_size t)) (mt_visited t)) in
    match o with
    | None => sret false
    | Some l => let! _ := smod (λ t, mt_set_plan (TList l) 0 (mt_train_ct t) t) in sret true
    end in
  if negb found then sret false else
  let! _ := mt_on_model (cm_load_basemodel base_model) in
  let! _ := smod (mt_set_tuning false) in
  sret true.
End ModelTuner.

(** ** Metrics *)

(** [max_curve]. *)
Fixpoint max_curve_loop (keep : flt) (trial_scores : list flt) : list flt :=
  match trial_scores with
  | [] => []
  | score :: l => let keep := fmax keep score in keep :: max_curve_loop keep l
  end.
Definition max_curve (trial_scores : list flt) : list flt :=
  max_curve_loop (fsub f0 f_1e9) trial_scores.

(** [mean_curve]. *)
Fixpoint mean_curve_loop (keep : flt) (i : Z) (trial_scores : list flt) : list flt :=
  match trial_scores with
  | [] => []
  | score :: l =>
      let keep := fadd keep score in
      fdiv_raw keep (f_of_Z (i + 1)) :: mean_curve_loop keep (i + 1) l
  end.
Definition mean_curve (trial_scores : list flt) : list flt := mean_curve_loop f0 0 trial_scores.

(** [np.sum(trial_ranks[:i] <= k)]. *)
Definition count_upto (trial_ranks : list Z) (i : nat) (k : Z) : Z :=
  zlen (filter (λ r, (r ≤ k)%Z) (take i trial_ranks)).

(** [recall_curve]. *)
Definition recall_curve (trial_ranks : list Z) (top : option Z) : list flt :=
  (λ i : nat,
     match top with
     | None => fdiv_raw (f_of_Z (count_upto trial_ranks i (Z.of_nat i))) (f_of_Z (Z.of_nat i + 1))
     | Some top => fdiv_raw (fmul f1 (f_of_Z (count_upto trial_ranks i (top - 1)))) (f_of_Z top)
     end) <$> seq 0 (length trial_ranks).

(** [while keep + 1 in cover: keep += 1]; a set of [n] ranks stops it after [n]
    steps. *)
Fixpoint cover_step (fuel : nat) (cover : list Z) (keep : Z) : Z :=
  match fuel with
  | 0 => keep
  | S fuel' => if bool_decide (keep + 1 ∈ cover)%Z then cover_step fuel' cover (keep + 1) else keep
  end.

(** The loop of [cover_curve]: the numerators. *)
Fixpoint cover_loop (cover : list Z) (keep : Z) (trial_ranks : list Z) : list Z :=
  match trial_ranks with
  | [] => []
  | rank :: l =>
      let cover := set_add rank cover in
      let keep := cover_step (length cover) cover keep in
      (keep + 1)%Z :: cover_loop cover keep l
  end.

(** [cover_curve]. *)
Definition cover_curve (trial_ranks : list Z) : list flt :=
  (λ n, fdiv_raw (f_of_Z n) (f_of_Z (zlen trial_ranks))) <$> cover_loop [] (-1) trial_ranks.
