(* ===== verification/AnnealSpec.v ===== *)
(** * Properties of simulated annealing

    The heap of [find_maximums] holds the best points offered so far; every
    call returns the best of the points it has seen, within the iterations it
    is given. *)

From S2P Require Import Prelude PyFloat Transforms ConfigSpace ConfigSpaceSpec KnobSpec.
From S2P Require Import Tuner TunerSpec Heapq ModelTuner.

(** ** Items *)

Definition good_item (a : item) : Prop := is_nan a.1 = false.

Lemma item_ltb_spec a b : good_item a → good_item b →
  item_ltb a b = true ↔
  lexlt (frank a.1) (frank b.1) ∨ frank a.1 = frank b.1 ∧ (a.2 < b.2)%Z.
Proof.
  unfold good_item, item_ltb. intros Ha Hb. destruct (feqb a.1 b.1) eqn:E.
  - apply feqb_spec in E; try done. rewrite Z.ltb_lt, E. split; [by right|].
    intros [Hl|[_ ?]]; [unfold lexlt in Hl; lia|done].
  - assert (frank a.1 ≠ frank b.1) as Hne by (intros Hf; apply feqb_spec in Hf; congruence).
    rewrite fltb_spec by done. split; [auto|]. intros [?|[? _]]; [done|]. done.
Qed.

Lemma frank_cases x y :
  lexlt (frank x) (frank y) ∨ frank x = frank y ∨ lexlt (frank y) (frank x).
Proof.
  destruct (frank x) as [[a b] c], (frank y) as [[a' b'] c']. unfold lexlt. simpl.
  destruct (Z.lt_total a a') as [?|[->|?]]; [lia| |lia].
  destruct (Z.lt_total b b') as [?|[->|?]]; [lia| |lia].
  destruct (Z.lt_total c c') as [?|[->|?]]; [lia|auto|lia].
Qed.

#[global] Instance item_order : HeapOrder item_ltb good_item.
Proof.
  split.
  - intros a Ha. apply not_true_iff_false. rewrite item_ltb_spec by done.
    intros [Hl|[_ Hl]]; [unfold lexlt in Hl|]; lia.
  - intros a b Ha Hb Hl. apply not_true_iff_false. rewrite item_ltb_spec by done.
    apply item_ltb_spec in Hl; try done. intros Hr.
    destruct Hl as [?|[E ?]], Hr as [?|[E' ?]]; unfold lexlt in *; try lia.
    + rewrite E' in *. lia.
    + rewrite E in *. lia.
  - intros a b c Ha Hb Hc. rewrite <-!not_true_iff_false, !item_ltb_spec by done.
    pose proof (frank_cases a.1 b.1) as Hxy. pose proof (frank_cases b.1 c.1) as Hyz. revert Hxy Hyz.
    generalize (frank a.1), (frank b.1), (frank c.1). intros x y z Hxy Hyz H1 H2 H3.
    assert (y = x → ¬ (b.2 < a.2)%Z) by tauto. assert (z = y → ¬ (c.2 < b.2)%Z) by tauto.
    destruct Hxy as [?|[?|?]], Hyz as [?|[?|?]]; try tauto;
      destruct H3 as [?|[? ?]]; subst; try tauto;
      repeat match goal with H : ?t = ?t → _ |- _ => specialize (H eq_refl) end;
      unfold lexlt in *; lia.
Qed.

Lemma item_le_fle a b : good_item a → good_item b → item_ltb b a = false → fle a.1 b.1.
Proof.
  intros Ha Hb. rewrite <-not_true_iff_false, item_ltb_spec by done. intros Hn.
  apply fleb_spec; try done. tauto.
Qed.

(** ** The heap of the best points *)

Section Best.
(** The score of a point, the excluded points and the size of the heap. *)
Context (score : Z → flt) (excl : list Z) (n : nat).
Implicit Types (st : list item * gset Z) (seen : list Z) (p : Z).

Definition sentinel (a : item) : Prop := a.1 = S754_infinity true ∧ (a.2 < 0)%Z.
Definition scored (seen : list Z) (a : item) : Prop :=
  a.1 = score a.2 ∧ (a.2 ∈ seen) ∧ (a.2 ∉ excl) ∧ is_nan a.1 = false.

(** The heap after the points [seen] have been offered. *)
Record heap_inv (seen : list Z) (st : list item * gset Z) : Prop := {
  hi_seen : Forall (λ p, (0 ≤ p)%Z) seen;
  hi_heap : is_heap item_ltb st.1;
  hi_len : length st.1 = n;
  hi_items : Forall (λ a, sentinel a ∨ scored seen a) st.1;
  hi_NoDup : NoDup st.1.*2;
  hi_in : ∀ p, p ∈ st.2 ↔ p ∈ excl ∨ p ∈ st.1.*2;
  hi_best : ∀ p, p ∈ seen → p ∉ excl → is_nan (score p) = false →
    p ∈ st.1.*2 ∨ Forall (λ a, fle (score p) a.1) st.1
}.

Lemma items_good seen l : Forall (λ a, sentinel a ∨ scored seen a) l → Forall good_item l.
Proof.
  intros Hl. eapply Forall_impl; [exact Hl|]. intros a [[E _]|(_ & _ & _ & ?)]; [|done].
  unfold good_item. by rewrite E.
Qed.

Lemma scored_mono seen p a : scored seen a → scored (seen ++ [p]) a.
Proof. intros (? & ? & ? & ?). split_and!; try done. set_solver. Qed.

(** An offer never fails, and keeps the best points of those offered. *)
Lemma heap_offer_spec seen st p :
  Forall (λ q, (0 ≤ q)%Z) excl → 0 < n → (0 ≤ p)%Z → heap_inv seen st →
  ∃ st' b, offer (score p) p st = Ret (st', b) ∧ heap_inv (seen ++ [p]) st'.
Proof.
  intros Hexcl Hn Hp0 [Hs0 Hh Hlen Hit Hnd Hin Hbest].
  assert (Forall (λ q, (0 ≤ q)%Z) (seen ++ [p])) as Hs0' by (apply Forall_app; auto). destruct st as [h s]. simpl in *.
  destruct h as [|y rest]; [simpl in Hlen; lia|].
  assert (pynth (y :: rest) 0 = Ret y) as Hy by done.
  unfold offer. rewrite Hy. cbn [pbind]. pose proof (items_good _ _ Hit) as Hg.
  assert (∀ a, a ∈ y :: rest → fle y.1 a.1) as Hleast.
  { intros a Ha. pose proof (is_heap_head item_ltb good_item _ _ _ a eq_refl Hg Hh Ha) as Hle.
    rewrite Forall_forall in Hg. apply item_le_fle; [apply Hg; left|by apply Hg|done]. }
  destruct (fltb y.1 (score p)) eqn:Hlt; cbn [andb]; [case_bool_decide as Hp; cbn [negb]|].
  - eexists _, _. split; [done|]. split; simpl; try done.
    + eapply Forall_impl; [exact Hit|]. intros a [?|?]; [by left|right; by apply scored_mono].
    + intros q [Hq|Hq]%elem_of_app Hne Hnan; [by apply Hbest|].
      apply list_elem_of_singleton in Hq as ->. apply Hin in Hp as [?|?]; [done|by left].
  - assert (good_item (score p, p)) as Hgp by (by apply flt_not_nan in Hlt as [_ ?]).
    destruct (heapreplace_spec item_ltb good_item _ y rest (score p, p) eq_refl Hg Hgp Hh)
      as (h' & -> & Hh' & Hperm).
    apply Forall_cons in Hit as [Hity Hit]. csimpl in *. apply NoDup_cons in Hnd as [Hny Hnd].
    rewrite Hin in Hp. rewrite bool_decide_true by (rewrite Hin; right; left).
    assert (y.2 ∉ excl) as Hye.
    { destruct Hity as [[_ Hneg]|(_ & _ & ? & _)]; [|done]. intros Hy2.
      rewrite Forall_forall in Hexcl. apply Hexcl in Hy2. lia. }
    assert (∀ q, q ∈ h'.*2 ↔ q = p ∨ q ∈ rest.*2) as Hids.
    { intros q. rewrite Hperm. csimpl. by rewrite elem_of_cons. }
    eexists _, _. split; [done|]. split; simpl; try done.
    + rewrite Hperm. done.
    + rewrite Hperm. constructor.
      * right. split_and!; [done|set_solver|tauto|done].
      * eapply Forall_impl; [exact Hit|]. intros a [?|?]; [by left|right; by apply scored_mono].
    + rewrite Hperm. csimpl. apply NoDup_cons. split; [|done]. intros ?. apply Hp. right. by right.
    + intros q. rewrite Hids, elem_of_union, elem_of_singleton, elem_of_difference,
        not_elem_of_singleton, Hin, elem_of_cons. split; [tauto|].
      intros [?|[->|?]]; [|by left|]; right; (split; [tauto|]); intros ->; done.
    + intros q Hq Hne Hnan. rewrite Hids.
      destruct (decide (q = p)) as [->|Hqp]; [left; by left|].
      apply elem_of_app in Hq as [Hq|Hq]; [|by apply list_elem_of_singleton in Hq].
      assert (fle y.1 (score p)) as Hyp by (by apply flt_fle).
      assert (∀ x, fle x y.1 → Forall (λ a : item, fle x a.1) h') as Hall.
      { intros x Hx. rewrite Hperm. constructor; [by eapply fle_trans|].
        apply Forall_forall. intros a Ha. eapply fle_trans; [exact Hx|]. apply Hleast. by right. }
      destruct (Hbest q Hq Hne Hnan) as [Hid|Hle].
      * apply elem_of_cons in Hid as [->|Hid]; [right|left; by right]. apply Hall.
        destruct Hity as [[_ Hneg]|(Hs & _ & _ & Hny')]; [|rewrite <-Hs; by apply fle_refl].
        rewrite Forall_forall in Hs0. apply Hs0 in Hq. lia.
      * right. apply Hall. by apply Forall_cons in Hle as [? _].
  - eexists _, _. split; [done|]. split; simpl; try done.
    + eapply Forall_impl; [exact Hit|]. intros a [?|?]; [by left|right; by apply scored_mono].
    + intros q [Hq|Hq]%elem_of_app Hne Hnan; [by apply Hbest|].
      apply list_elem_of_singleton in Hq as ->. right. apply Forall_forall. intros a Ha.
      eapply fle_trans; [|by apply Hleast]. apply Forall_cons in Hg as [Hgy _].
      by apply fltb_false_fle.
Qed.

Lemma offer_all_spec ps : ∀ seen st,
  Forall (λ q, (0 ≤ q)%Z) excl → 0 < n → Forall (λ p, (0 ≤ p)%Z) ps → heap_inv seen st →
  ∃ st' b, offer_all ((λ p, (score p, p)) <$> ps) st = Ret (st', b) ∧ heap_inv (seen ++ ps) st'.
Proof.
  induction ps as [|p ps IH]; intros seen st Hex Hn Hps Hi.
  { exists st, false. by rewrite app_nil_r. }
  apply Forall_cons in Hps as [Hp Hps].
  destruct (heap_offer_spec seen st p Hex Hn Hp Hi) as (st1 & b1 & H1 & Hi1).
  destruct (IH _ st1 Hex Hn Hps Hi1) as (st2 & b2 & H2 & Hi2).
  exists st2, (b1 || b2). rewrite cons_middle, app_assoc. split; [|done].
  rewrite fmap_cons. cbn [offer_all]. rewrite H1. cbn [pbind]. by rewrite H2.
Qed.

(** The heap before the first offer. *)
Lemma heap_init :
  let h := heapify item_ltb (sentinels (range 0 (Z.of_nat n))) in
  heap_inv [] (h, list_to_set (excl ++ h.*2)).
Proof.
  assert (Forall sentinel (sentinels (range 0 (Z.of_nat n)))) as Hs.
  { apply Forall_forall. intros a (i & -> & Hi%elem_of_range)%list_elem_of_fmap.
    split; simpl; [done|lia]. }
  assert (Forall good_item (sentinels (range 0 (Z.of_nat n)))) as Hg.
  { eapply Forall_impl; [exact Hs|]. intros a [E _]. unfold good_item. by rewrite E. }
  destruct (heapify_spec item_ltb good_item _ Hg) as [Hh Hp]. split; simpl; try done.
  - rewrite Hp. unfold sentinels, range. rewrite length_fmap, length_seqZ. lia.
  - rewrite Hp. eapply Forall_impl; [exact Hs|]. by left.
  - rewrite Hp. unfold sentinels, range. rewrite <-list_fmap_compose.
    apply NoDup_fmap_2_strong; [|apply NoDup_seqZ]. intros x y _ _. simpl. lia.
  - intros p. rewrite elem_of_list_to_set, elem_of_app. done.
  - intros p Hp'. by apply not_elem_of_nil in Hp'.
Qed.

(** [ids] are the best [n] of the points in [seen] that are not excluded and
    have no negative score, in decreasing order. *)
Record top_points (seen ids : list Z) : Prop := {
  tp_NoDup : NoDup ids;
  tp_len : length ids ≤ n;
  tp_sorted : StronglySorted (λ p q, fle (score q) (score p)) ids;
  tp_seen : Forall (λ p, (p ∈ seen) ∧ (p ∉ excl) ∧ fle f0 (score p)) ids;
  tp_best : ∀ p, p ∈ seen → p ∉ excl → fle f0 (score p) →
    p ∈ ids ∨ length ids = n ∧ Forall (λ q, fle (score p) (score q)) ids
}.

Lemma kept_items seen l :
  Forall (λ a, sentinel a ∨ scored seen a) l → NoDup l.*2 →
  let kept := filter (λ x, fleb f0 x.1 = true) (sort_desc l) in
  Forall (λ a, scored seen a ∧ fle f0 a.1) kept ∧ NoDup kept.*2 ∧ StronglySorted desc kept.
Proof.
  intros Hit Hnd kept.
  assert (Forall (λ a, sentinel a ∨ scored seen a) (sort_desc l)) as Hit'.
  { by rewrite sort_desc_perm. }
  split; [|split].
  - apply Forall_forall. intros a [Hle Ha]%list_elem_of_filter. rewrite Forall_forall in Hit'.
    split; [|done]. destruct (Hit' a Ha) as [[E _]|?]; [|done]. by rewrite E in Hle.
  - eapply sublist_NoDup; [|apply fmap_sublist, sublist_filter].
    by rewrite (sort_desc_perm l).
  - apply StronglySorted_filter, sort_desc_sorted. by apply items_good in Hit.
Qed.

Lemma sa_result_spec seen st : heap_inv seen st → top_points seen (sa_result st.1).
Proof.
  intros [Hs0 _ Hlen Hit Hnd _ Hbest]. pose proof (kept_items seen st.1 Hit Hnd) as Hk.
  unfold sa_result. set (kept := filter _ (sort_desc st.1)) in *.
  destruct Hk as (Hkf & Hknd & Hks).
  assert (∀ a, a ∈ st.1 → fle f0 a.1 → a ∈ kept) as Hin.
  { intros a Ha Hle. apply list_elem_of_filter. by rewrite sort_desc_perm. }
  assert (length kept ≤ n) as Hkl.
  { rewrite <-Hlen, <-(sort_desc_perm st.1). apply length_filter. }
  assert (∀ a, a ∈ kept → a.1 = score a.2) as Hsc.
  { intros a Ha. rewrite Forall_forall in Hkf. by destruct (Hkf a Ha) as [[? _] _]. }
  split; rewrite ?length_fmap; try done.
  - clear -Hks Hsc. induction Hks as [|a l Hl IH Ha]; csimpl; constructor.
    + apply IH. intros b Hb. apply Hsc. by right.
    + rewrite Forall_fmap. rewrite Forall_forall in Ha |- *. intros b Hb. unfold desc in Ha. simpl.
      rewrite <-!Hsc; [by apply Ha|left|by right].
  - rewrite Forall_fmap. eapply Forall_impl; [exact Hkf|].
    intros a [(E & ? & ? & ?) Hle]. simpl. by rewrite <-E.
  - intros p Hp Hne Hle. destruct (fle_not_nan _ _ Hle) as [_ Hnan].
    destruct (Hbest p Hp Hne Hnan) as [Hid|Hall].
    + apply list_elem_of_fmap in Hid as (a & -> & Ha). left. apply list_elem_of_fmap_2, Hin; [done|].
      rewrite Forall_forall in Hit. destruct (Hit a Ha) as [[_ Hneg]|(E & _)]; [|by rewrite E].
      rewrite Forall_forall in Hs0. apply Hs0 in Hp. lia.
    + right. rewrite Forall_forall in Hall. split.
      * apply (anti_symm (≤)); [done|]. rewrite <-Hlen. apply submseteq_length, NoDup_submseteq.
        { by eapply NoDup_fmap_1. }
        intros a Ha. apply Hin; [done|]. eapply fle_trans; [exact Hle|by apply Hall].
      * rewrite Forall_fmap. apply Forall_forall. intros a Ha. simpl. rewrite <-Hsc by done.
        apply Hall. apply list_elem_of_filter in Ha as [_ Ha]. by rewrite sort_desc_perm in Ha.
Qed.
End Best.

(** ** Walks and moves *)

(** A valid index of the space. *)
Definition good_pt (cs : ConfigSpace) (p : Z) : Prop :=
  (0 ≤ p < size_of (space_map cs))%Z ∧ valid_at cs p = true.

Lemma good_pt_core cs cs' p : clear_cache cs' = clear_cache cs → good_pt cs' p ↔ good_pt cs p.
Proof.
  intros Hc. destruct (same_core_fields _ _ Hc) as (Hsm & _). unfold good_pt.
  by rewrite Hsm, (valid_at_core cs cs').
Qed.

Fixpoint walks_ref (cs : ConfigSpace) (points : list Z) (walks : list (list (Z * Z))) :
    option (list Z) :=
  match points, walks with
  | [], _ => Some []
  | _, [] => None
  | p :: points', d :: walks' =>
      match walk_from cs p d with
      | None => None
      | Some q => option_map (cons q) (walks_ref cs points' walks')
      end
  end.

Section Annealing.
Context `{NumpyOk}.

Lemma walk_from_core cs cs' p d :
  clear_cache cs' = clear_cache cs → walk_from cs' p d = walk_from cs p d.
Proof.
  intros Hc. destruct (same_core_fields _ _ Hc) as (Hsm & _). unfold walk_from, space_lens.
  rewrite Hsm. by apply walk_ref_core.
Qed.

Lemma walks_ref_core cs cs' points : clear_cache cs' = clear_cache cs → ∀ walks,
  walks_ref cs' points walks = walks_ref cs points walks.
Proof.
  intros Hc. induction points as [|p points IH]; intros [|d walks]; simpl; try done.
  by rewrite (walk_from_core cs cs'), IH.
Qed.

Lemma walk_all_returns points : ∀ walks cs,
  cs_ok cs → space_map cs ≠ [] → Forall (good_pt cs) points →
  returns (walk_all points walks) cs (walks_ref cs points walks) ∧
  ∀ qs, walks_ref cs points walks = Some qs → length qs = length points ∧ Forall (good_pt cs) qs.
Proof.
  induction points as [|p points IH]; intros [|d walks] cs Hok Hne Hp; cbn [walk_all walks_ref];
    try (split; [by apply returns_ret|]; intros qs ?; simplify_eq; done).
  apply Forall_cons in Hp as [[Hp Hv] Hps].
  destruct (random_walk_returns cs p d Hok Hne Hp) as [Hrun Hq].
  destruct (IH walks cs Hok Hne Hps) as [_ Hlen]. split.
  - eapply returns_bind; [exact Hrun|]. intros cs1 Hok1 Hc1.
    destruct (same_core_fields _ _ Hc1) as (Hsm1 & _).
    destruct (walk_from cs p d) as [q|]; [|by apply returns_ret].
    destruct (IH walks cs1 Hok1) as [Hrun1 _]; [by rewrite Hsm1| |].
    { eapply Forall_impl; [exact Hps|]. intros x. by apply good_pt_core. }
    eapply returns_bind; [exact Hrun1|]. intros cs2 Hok2 Hc2.
    rewrite (walks_ref_core cs cs1) by done. by apply returns_ret.
  - intros qs Hqs. destruct (walk_from cs p d) as [q|]; [|done].
    destruct (walks_ref cs points walks) as [qs'|]; [|done]. injection Hqs as <-.
    destruct (Hlen qs' eq_refl) as [Hl Hf]. destruct (Hq q eq_refl) as (? & ? & _).
    split; [simpl; by rewrite Hl|]. by constructor.
Qed.

Lemma where_accepted_fmap {A B} (f : A → B) mask : ∀ new old,
  where_accepted mask (f <$> new) (f <$> old) = f <$> where_accepted mask new old.
Proof.
  unfold where_accepted. induction mask as [|b mask IH]; intros [|x new] [|y old]; csimpl; try done.
  rewrite IH. by destruct b.
Qed.

Lemma where_accepted_Forall {A} (P : A → Prop) mask : ∀ new old,
  Forall P new → Forall P old → Forall P (where_accepted mask new old).
Proof.
  unfold where_accepted. induction mask as [|b mask IH]; intros [|x new] [|y old] Hn Ho; csimpl; try done.
  apply Forall_cons in Hn as [? ?], Ho as [? ?]. constructor; [by destruct b|by apply IH].
Qed.

Lemma where_accepted_length {A} mask : ∀ new old : list A,
  length mask = length new → length old = length new → length (where_accepted mask new old) = length new.
Proof.
  unfold where_accepted. induction mask as [|b mask IH]; intros [|x new] [|y old] ? ?; simplify_eq/=; try done.
  by rewrite IH.
Qed.
End Annealing.

(** ** Simulated annealing *)

(** A cost model scores the points one by one. *)
Class CostModelOk (M R : Type) `{!CostModel M R} (score : M → Z → flt) : Prop :=
  cm_predict_score m xs : cm_predict m xs = score m <$> xs.

(** The two optimizers differ in their points and draws only. *)
Definition same_params (o o' : SimulatedAnnealingOptimizer) : Prop :=
  sa_set_points None (sa_set_rng [] o) = sa_set_points None (sa_set_rng [] o').

(** The points kept between calls are valid. *)
Definition points_ok (cs : ConfigSpace) (o : SimulatedAnnealingOptimizer) : Prop :=
  ∀ ps, sa_points o = Some ps → Forall (good_pt cs) ps.

(** The draws of an iteration are enough for [m] chains. *)
Definition round_ok (cs : ConfigSpace) (m : nat) (r : list (list (Z * Z)) * list flt) : Prop :=
  length r.2 = m ∧ m ≤ length r.1 ∧
  Forall (λ ds, ∀ p, good_pt cs p → is_Some (walk_from cs p ds)) r.1.

Section SA.
Context `{NumpyOk} {M R : Type} `{!CostModel M R} (score : M → Z → flt) `{!CostModelOk M R score}.
Context (np_exp : flt → flt) (cs : ConfigSpace) (Hne : space_map cs ≠ []).
Implicit Types (o : SimulatedAnnealingOptimizer) (l : sa_local).

Lemma good_pt_nonneg ps : Forall (good_pt cs) ps → Forall (λ p, (0 ≤ p)%Z) ps.
Proof. intros Hp. eapply Forall_impl; [exact Hp|]. intros p [? _]. lia. Qed.

(** The moves of an iteration at temperature [t]: the chain at [p] moves to [q]
    when the move from the score of [p] to that of [q] is accepted. *)
Definition moved (m : M) (t : flt) (ps qs : list Z) (us : list flt) : list Z :=
  where_accepted (zip_with (λ '(q, p) u, sa_accept np_exp t (score m p) (score m q) u) (zip qs ps) us)
    qs ps.

(** [chains m cool t ps rounds more ps']: the iterations with the draws [rounds],
    from the points [ps] and the temperature [t], walk through the points [more],
    in this order, and end at the points [ps'].  The heap has no part in it. *)
Inductive chains (m : M) (cool : flt) :
    flt → list Z → list (list (list (Z * Z)) * list flt) → list Z → list Z → Prop :=
  | chains_done t ps : chains m cool t ps [] [] ps
  | chains_iteration t ps walks us rounds qs more ps' :
      walks_ref cs ps walks = Some qs → length us = length qs →
      chains m cool (fsub t cool) (moved m t ps qs us) rounds more ps' →
      chains m cool t ps ((walks, us) :: rounds) (qs ++ more) ps'.

(** An iteration that changes nothing in the heap. *)
Lemma offer_unchanged s p st st' : offer s p st = Ret (st', false) → st' = st.
Proof.
  unfold offer. destruct st as [h b]. destruct (pynth h 0) as [a|]; [|done]. simpl.
  destruct (_ && _); [|by intros [= <-]].
  destruct (heapreplace _ _ _) as [[x h']|]; [|done]. simpl. by destruct (bool_decide _).
Qed.

Lemma offer_all_unchanged pairs : ∀ st st', offer_all pairs st = Ret (st', false) → st' = st.
Proof.
  induction pairs as [|[s p] pairs IH]; intros st st'; cbn [offer_all]; [by intros [= <-]|].
  destruct (offer s p st) as [[st1 b]|] eqn:H1; [|done]. cbn [pbind].
  destruct (offer_all pairs st1) as [[st2 b']|] eqn:H2; [|done]. cbn [pbind].
  intros [= <- Hb]. apply orb_false_iff in Hb as [-> ->].
  apply IH in H2 as ->. by eapply offer_unchanged.
Qed.

(** What the loop does from [l], after the points [seen], to [l']: [j]
    iterations, as many as [n_iter] asks for, or fewer when the last ones have
    left the heap as it was. *)
Record looped (n_iter early_stop : Z) (m : M) (excl : list Z) (n : nat) (cool : flt)
    (rounds : list (list (list (Z * Z)) * list flt)) (seen : list Z) (l l' : sa_local)
    (j : nat) (more : list Z) : Prop := {
  lo_rounds : j ≤ length rounds;
  lo_chains : chains m cool (sl_t l) (sl_points l) (take j rounds) more (sl_points l');
  lo_k : sl_k l' = (sl_k l + Z.of_nat j)%Z;
  lo_max : (sl_k l' ≤ Z.max (sl_k l) n_iter)%Z;
  lo_stop : ¬ (sl_k l' < n_iter ∧ sl_k l' < sl_last l' + early_stop)%Z;
  lo_last : sl_last l' = sl_last l ∧ sl_heap l' = sl_heap l ∨
    ∃ i early ps, i < j ∧ sl_last l' = (sl_k l + Z.of_nat i)%Z ∧
      chains m cool (sl_t l) (sl_points l) (take (S i) rounds) early ps ∧
      heap_inv (score m) excl n (seen ++ early) (sl_heap l')
}.

Lemma looped_none n_iter early_stop m excl n cool rounds seen l :
  ¬ (sl_k l < n_iter ∧ sl_k l < sl_last l + early_stop)%Z →
  looped n_iter early_stop m excl n cool rounds seen l l 0 [].
Proof. split; try done; [lia|constructor|lia|lia|by left]. Qed.

Lemma looped_step n_iter early_stop m excl n cool walks us rounds seen l qs points scores st (b : bool) l' j more :
  walks_ref cs (sl_points l) walks = Some qs → length us = length qs →
  points = moved m (sl_t l) (sl_points l) qs us → (sl_k l < n_iter)%Z →
  heap_inv (score m) excl n (seen ++ qs) st → (b = false → st = sl_heap l) →
  looped n_iter early_stop m excl n cool rounds (seen ++ qs)
    (mkSL points scores st (sl_k l + 1) (if b then sl_k l else sl_last l) (fsub (sl_t l) cool)) l' j more →
  looped n_iter early_stop m excl n cool ((walks, us) :: rounds) seen l l' (S j) (qs ++ more).
Proof.
  intros Hw Hus -> Hk Hst Hb [Hj Hch Hk' Hmax Hstop Hlast]. cbn [sl_k sl_t sl_points sl_heap sl_last] in *.
  split; [simpl; lia|by econstructor|lia|lia|done|].
  destruct Hlast as [[Hl Hh]|(i & early & ps & Hi & Hl & Hch' & Hh)].
  - destruct b; [right|left; by rewrite Hh, Hb].
    exists 0, (qs ++ []), (moved m (sl_t l) (sl_points l) qs us). rewrite Hh, app_nil_r.
    split; [lia|]. split; [lia|]. split; [|done]. rewrite <-(app_nil_r qs) at 1.
    simpl. rewrite take_0. econstructor; [done..|constructor].
  - right. exists (S i), (qs ++ early), ps. split; [lia|]. split; [lia|]. rewrite app_assoc.
    split; [|done]. by econstructor.
Qed.

Lemma accept_mask m t qs : ∀ ps us,
  zip_with (λ '(s', s) u, sa_accept np_exp t s s' u) (zip (score m <$> qs) (score m <$> ps)) us =
  zip_with (λ '(q, p) u, sa_accept np_exp t (score m p) (score m q) u) (zip qs ps) us.
Proof.
  induction qs as [|q qs IH]; intros [|p ps] [|u us]; csimpl; try done. by rewrite IH.
Qed.

(** The chains between two iterations. *)
Record chains_inv (m : M) (excl : list Z) (n : nat) (seen : list Z) (l : sa_local) : Prop := {
  ci_points : Forall (good_pt cs) (sl_points l);
  ci_scores : sl_scores l = score m <$> sl_points l;
  ci_seen : Forall (good_pt cs) seen;
  ci_heap : heap_inv (score m) excl n seen (sl_heap l)
}.

Lemma round_supplied cs1 points (r : list (list (Z * Z)) * list flt) :
  clear_cache cs1 = clear_cache cs → Forall (good_pt cs) points → round_ok cs (length points) r →
  is_Some (walks_ref cs1 points r.1).
Proof.
  destruct r as [walks us]. intros Hc Hp (_ & Hlen & Hw). simpl in *.
  rewrite (walks_ref_core cs) by done. revert walks Hlen Hw.
  induction Hp as [|p points Hp Hps IH]; intros [|d walks] Hlen Hw; simpl in *; try lia; [by eexists..|].
  apply Forall_cons in Hw as [Hd Hw]. destruct (Hd p Hp) as [q ->].
  destruct (IH walks ltac:(lia) Hw) as [qs ->]. by eexists.
Qed.

Lemma sa_log_ret li k (h : list item) : 0 < length h → sa_log li k h = Ret tt.
Proof.
  intros Hh. unfold sa_log. destruct (Z.eqb_spec li 0); [done|]. unfold pymod.
  rewrite bool_decide_false by done. cbn [pbind]. destruct (_ =? 0)%Z; [|done].
  destruct h; [simpl in Hh; lia|done].
Qed.

Lemma sa_loop_spec m excl n cool aliased rounds : ∀ l cs1 o seen,
  Forall (λ q, (0 ≤ q)%Z) excl → 0 < n →
  cs_ok cs1 → clear_cache cs1 = clear_cache cs → points_ok cs o → chains_inv m excl n seen l →
  ∃ r cs2 o2, sa_loop np_exp m cool aliased rounds l (cs1, o) = (Ret r, (cs2, o2)) ∧
    cs_ok cs2 ∧ clear_cache cs2 = clear_cache cs ∧ points_ok cs o2 ∧
    same_params o o2 ∧ sa_rng o2 = sa_rng o ∧
    (∀ l', r = Some l' → ∃ j more, chains_inv m excl n (seen ++ more) l' ∧
       looped (sa_n_iter o) (sa_early_stop o) m excl n cool rounds seen l l' j more) ∧
    (aliased = false → sa_points o2 = sa_points o) ∧
    ((sa_n_iter o - sl_k l ≤ zlen rounds)%Z →
     Forall (round_ok cs (length (sl_points l))) rounds → r ≠ None).
Proof.
  induction rounds as [|[walks us] rounds IH]; intros l cs1 o seen Hex Hn Hok Hc Hpo Hci;
    cbn [sa_loop]; unfold sbind at 1, sget; cbn [snd];
    (case_bool_decide as Hcond; [|exists (Some l), cs1, o; split_and!; try done;
      intros l' [= <-]; exists 0, []; rewrite app_nil_r; split; [done|by apply looped_none]]).
  { exists None, cs1, o. split_and!; try done. unfold zlen. simpl. lia. }
  destruct Hci as [Hps Hsc Hseen Hheap]. destruct (same_core_fields _ _ Hc) as (Hsm & _).
  destruct (walk_all_returns (sl_points l) walks cs1) as [(cs2 & Hw & Hok2 & Hc2) Hqs];
    [done|by rewrite Hsm| |].
  { eapply Forall_impl; [exact Hps|]. intros x. by apply good_pt_core. }
  rewrite Hc in Hc2. unfold sbind at 1, on_fst. cbn [fst snd]. rewrite Hw. cbn [fst snd].
  destruct (walks_ref cs1 (sl_points l) walks) as [qs|] eqn:Hqse; last first.
  { exists None, cs2, o. split_and!; try done. intros _ Hr. apply Forall_cons in Hr as [Hr _].
    destruct (round_supplied cs1 _ _ Hc Hps Hr) as [? ?]. simpl in *. congruence. }
  destruct (Hqs qs eq_refl) as [Hlen Hgq]. case_bool_decide as Hus; simpl negb; cbv iota; last first.
  { exists None, cs2, o. split_and!; try done. intros _ Hr. apply Forall_cons in Hr as [(Hr & _) _].
    simpl in Hr. congruence. }
  assert (Forall (good_pt cs) qs) as Hgq'.
  { eapply Forall_impl; [exact Hgq|]. intros x. by apply good_pt_core. }
  rewrite (cm_predict_score m qs), Hsc.
  set (mask := zip_with _ _ us). rewrite where_accepted_fmap.
  set (points := where_accepted mask qs (sl_points l)).
  assert (Forall (good_pt cs) points) as Hgp by (by apply where_accepted_Forall).
  assert (length points = length (sl_points l)) as Hlp.
  { unfold points. rewrite where_accepted_length; [done| |congruence]. unfold mask.
    rewrite length_zip_with, length_zip_with, !length_fmap. lia. }
  set (o1 := if aliased then sa_set_points (Some points) o else o).
  assert (points_ok cs o1 ∧ same_params o o1 ∧ sa_rng o1 = sa_rng o ∧ sa_n_iter o1 = sa_n_iter o ∧
    sa_early_stop o1 = sa_early_stop o ∧ sa_log_interval o1 = sa_log_interval o)
    as (Hpo1 & Hsp1 & Hrng1 & Hni1 & Hes1 & Hli1).
  { unfold o1. destruct aliased; split_and!; try done. intros ps [= <-]. done. }
  destruct (offer_all_spec (score m) excl n qs seen (sl_heap l)) as (st & b & Hoff & Hst);
    [done|done|by apply good_pt_nonneg|done|].
  assert (zip (score m <$> qs) qs = (λ p, (score m p, p)) <$> qs) as Hzip.
  { clear. induction qs as [|q qs IHq]; [done|]. csimpl. by rewrite IHq. }
  unfold sbind at 1, smod. cbn [fst snd]. fold o1.
  unfold sbind at 1, slift. rewrite Hzip, Hoff. cbn [fst].
  unfold sbind at 1. rewrite sa_log_ret by (rewrite (hi_len _ _ _ _ _ Hst); done).
  set (l1 := mkSL points _ st _ _ _).
  destruct (IH l1 cs2 o1 (seen ++ qs)) as (r & cs3 & o3 & Hrun & ? & ? & ? & Hsp & Hrng & Hres & Hpts & Hlive);
    try done.
  { split; try done. apply Forall_app. done. }
  exists r, cs3, o3. split; [exact Hrun|]. split_and!; try done.
  - unfold same_params in *. congruence.
  - congruence.
  - intros l' Hl'. destruct (Hres l' Hl') as (j & more & Hm & Hloop).
    exists (S j), (qs ++ more). rewrite app_assoc. split; [done|].
    assert (points = moved m (sl_t l) (sl_points l) qs us) as Hmv.
    { unfold points, moved, mask. f_equal. apply accept_mask. }
    rewrite Hni1, Hes1 in Hloop. rewrite (walks_ref_core cs) in Hqse by done.
    eapply looped_step; [exact Hqse|exact Hus|exact Hmv|apply Hcond|exact Hst| |exact Hloop].
    intros ->. by eapply offer_all_unchanged.
  - intros Ha. rewrite (Hpts Ha). unfold o1. by rewrite Ha.
  - intros Hbud Hr. apply Forall_cons in Hr as [_ Hr]. apply Hlive; simpl.
    + rewrite Hni1. unfold zlen in *. simpl in Hbud. lia.
    + by rewrite Hlp.
Qed.

(** What [find_maximums] needs of the optimizer: usable points, at most as many
    chains as there are valid indices, and a temperature. *)
Record sa_inv (o : SimulatedAnnealingOptimizer) : Prop := {
  si_points : points_ok cs o;
  si_parallel : (0 ≤ sa_parallel_size o ≤ count_valid cs 0 (size_of (space_map cs)))%Z;
  si_cooling : is_ret (sa_cooling o)
}.

(** Does the call start from the points of the one before? *)
Definition kept_points (o : SimulatedAnnealingOptimizer) : option (list Z) :=
  if sa_persistent o then sa_points o else None.

(** The number of chains. *)
Definition chain_count (o : SimulatedAnnealingOptimizer) : nat :=
  from_option length (Z.to_nat (sa_parallel_size o)) (kept_points o).

(** Enough draws for a call. *)
Definition draws_ok (o : SimulatedAnnealingOptimizer) (d : sa_draws) : Prop :=
  (∀ i, good_pt cs i → i ∈ draw_index 0 (size_of (space_map cs)) <$> sd_sample d) ∧
  (sa_n_iter o ≤ zlen (sd_rounds d))%Z ∧
  Forall (round_ok cs (chain_count o)) (sd_rounds d).

Lemma sa_inv_params o o2 : same_params o o2 → points_ok cs o2 → sa_inv o → sa_inv o2.
Proof.
  intros Hsp Hpo [_ Hpar Hcool]. injection Hsp as E1 E2 E3 E4 E5 E6.
  assert (sa_cooling o2 = sa_cooling o) as Hc by (unfold sa_cooling; by rewrite <-E1, <-E2).
  split; [done|by rewrite <-E4|by rewrite Hc].
Qed.

Lemma draws_ok_next o o2 d :
  same_params o o2 → chain_count o2 = chain_count o → draws_ok o d → draws_ok o2 d.
Proof.
  intros Hsp Hcc (H1 & H2 & H3). assert (sa_n_iter o2 = sa_n_iter o) as Hn by (by injection Hsp).
  split; [done|]. by rewrite Hn, Hcc.
Qed.

(** Enough draws for [k] calls. *)
Definition sa_enough (k : nat) (o : SimulatedAnnealingOptimizer) : Prop :=
  k ≤ length (sa_rng o) ∧ Forall (draws_ok o) (sa_rng o).

Lemma walks_ref_length ps : ∀ walks qs, walks_ref cs ps walks = Some qs → length qs = length ps.
Proof.
  induction ps as [|p ps IH]; intros [|d walks] qs; cbn [walks_ref]; try (by intros [= <-]); try done.
  destruct (walk_from cs p d) as [q|]; [|done]. destruct (walks_ref cs ps walks) as [qs'|] eqn:E; [|done].
  intros [= <-]. simpl. by rewrite (IH _ _ E).
Qed.

Lemma chains_length m cool t ps rounds more ps' :
  chains m cool t ps rounds more ps' → length ps' = length ps.
Proof.
  induction 1 as [|t ps walks us rounds qs more ps' Hw Hus _ IH]; [done|].
  apply walks_ref_length in Hw. rewrite IH. unfold moved. rewrite where_accepted_length; [done| |done].
  rewrite length_zip_with, length_zip. lia.
Qed.

Lemma sa_start_returns draws cs1 o :
  cs_ok cs1 → clear_cache cs1 = clear_cache cs → sa_inv o →
  ∃ r cs2, sa_start draws (cs1, o) = (Ret r, (cs2, o)) ∧
    cs_ok cs2 ∧ clear_cache cs2 = clear_cache cs ∧
    (∀ ps, r = Some ps → Forall (good_pt cs) ps ∧
       match kept_points o with
       | Some kept => ps = kept
       | None => NoDup ps ∧ zlen ps = sa_parallel_size o
       end) ∧
    ((∀ i, good_pt cs i → i ∈ draw_index 0 (size_of (space_map cs)) <$> draws) → r ≠ None).
Proof.
  intros Hok Hc [Hpo Hpar _]. destruct (same_core_fields _ _ Hc) as (Hsm & _).
  assert (∃ r cs2, on_fst (sample_ints (sa_parallel_size o) draws) (cs1, o) = (Ret r, (cs2, o)) ∧
    cs_ok cs2 ∧ clear_cache cs2 = clear_cache cs ∧
    (∀ ps, r = Some ps → Forall (good_pt cs) ps ∧ NoDup ps ∧ zlen ps = sa_parallel_size o) ∧
    ((∀ i, good_pt cs i → i ∈ draw_index 0 (size_of (space_map cs)) <$> draws) → r ≠ None))
    as (r & cs2 & Hrun & Hok2 & Hc2 & Hr & Hlive).
  { destruct (sample_ints_returns cs1 (sa_parallel_size o) draws Hok) as (r & (cs2 & Hrun & ? & Hc2) & Hr & Hl).
    { by rewrite Hsm, (count_valid_core cs cs1). }
    exists r, cs2. split; [unfold on_fst; simpl; by rewrite Hrun|]. rewrite Hc2. split_and!; try done.
    - intros ps Hps. destruct (Hr ps Hps) as (? & ? & Hf). split; [|done].
      eapply Forall_impl; [exact Hf|]. intros i Hi. by apply (good_pt_core cs cs1).
    - intros Hd. destruct (Hl (valid_in cs 0 (size_of (space_map cs)))) as [? ->]; try done.
      + apply NoDup_valid_in.
      + rewrite <-count_valid_length. lia.
      + apply Forall_forall. intros i [_ Hv]%elem_of_valid_in. by rewrite (valid_at_core cs cs1).
      + intros i Hi%elem_of_valid_in. rewrite Hsm. by apply Hd. }
  unfold sa_start, kept_points, sbind, sget. cbn [snd].
  destruct (sa_points o) as [kept|] eqn:Hk; [destruct (sa_persistent o)|].
  - exists (Some kept), cs1. split_and!; try done. intros ps [= <-]. split; [by apply Hpo|done].
  - by exists r, cs2.
  - exists r, cs2. by destruct (sa_persistent o).
Qed.

Lemma sa_find_maximums_returns m n excl cs1 o :
  cs_ok cs1 → clear_cache cs1 = clear_cache cs → sa_inv o →
  Forall (λ p, (0 ≤ p)%Z) excl → (0 < n)%Z →
  ∃ r cs2 o2, sa_find_maximums np_exp m (NInt n) excl (cs1, o) = (Ret r, (cs2, o2)) ∧
    cs_ok cs2 ∧ clear_cache cs2 = clear_cache cs ∧ sa_inv o2 ∧ same_params o o2 ∧
    sa_rng o2 = tail (sa_rng o) ∧
    (∀ ids, r = Some ids → ∃ d t cool points more k ps',
       head (sa_rng o) = Some d ∧ sa_cooling o = Ret (t, cool) ∧
       match kept_points o with
       | Some kept => points = kept
       | None => NoDup points ∧ zlen points = sa_parallel_size o
       end ∧
       chains m cool t points (take k (sd_rounds d)) more ps' ∧
       sa_points o2 = (if sa_persistent o then Some ps' else sa_points o) ∧
       k ≤ length (sd_rounds d) ∧ (Z.of_nat k ≤ Z.max 0 (sa_n_iter o))%Z ∧
       ((sa_n_iter o ≤ Z.of_nat k)%Z ∨
        ∃ i early ps, i ≤ k ∧ (Z.of_nat i + sa_early_stop o ≤ Z.of_nat k + 1)%Z ∧
          chains m cool t points (take i (sd_rounds d)) early ps ∧
          top_points (score m) excl (Z.to_nat n) (points ++ early) ids) ∧
       Forall (good_pt cs) (points ++ more) ∧
       top_points (score m) excl (Z.to_nat n) (points ++ more) ids) ∧
    (∀ d, head (sa_rng o) = Some d → draws_ok o d → r ≠ None).
Proof.
  intros Hok Hc Hi Hex Hn. unfold sa_find_maximums, sbind at 1, sget. cbn [snd].
  destruct (sa_rng o) as [|d rng] eqn:Hrng.
  { by exists None, cs1, o. }
  set (o1 := sa_set_rng rng o). assert (sa_inv o1) as Hi1 by (by destruct Hi).
  destruct (sa_start_returns (sd_sample d) cs1 o1 Hok Hc Hi1) as (r & cs2 & Hst & Hok2 & Hc2 & Hr & Hlive).
  unfold sbind at 1, smod. cbn [fst snd]. fold o1. unfold sbind at 1. rewrite Hst.
  destruct r as [points|]; last first.
  { exists None, cs2, o1. split_and!; try done. intros d' [= <-] (Hd & _). by apply Hlive in Hd. }
  destruct (Hr points eq_refl) as [Hgp Hkept]. cbn [range_num slift]. unfold sbind at 1, slift.
  rewrite (cm_predict_score m points).
  assert (zip (score m <$> points) points = (λ p, (score m p, p)) <$> points) as ->.
  { clear. induction points as [|q qs IHq]; [done|]. csimpl. by rewrite IHq. }
  destruct (offer_all_spec (score m) excl (Z.to_nat n) points []
    (heapify item_ltb (sentinels (range 0 n)), list_to_set (excl ++ (heapify item_ltb (sentinels (range 0 n))).*2)))
    as (st & b & -> & Hheap); [done|lia|by eapply good_pt_nonneg| |].
  { pose proof (heap_init (score m) excl (Z.to_nat n)) as Hinit. by rewrite Z2Nat.id in Hinit by lia. }
  destruct (si_cooling o Hi) as [[t cool] Hcool]. unfold sbind at 1. rewrite Hcool. cbn [slift].
  unfold sbind at 1. cbv beta iota. unfold sbind at 1.
  destruct (sa_loop_spec m excl (Z.to_nat n) cool
    (sa_persistent o && bool_decide (is_Some (sa_points o))) (sd_rounds d)
    (mkSL points (score m <$> points) st 0 0 t) cs2 o1 points)
    as (r & cs3 & o3 & -> & Hok3 & Hc3 & Hpo3 & Hsp3 & Hrng3 & Hres & Hali & Hlv);
    [done|lia|done|done|by destruct Hi1|by split|].
  assert (same_params o o3) as Hsp by exact Hsp3.
  destruct r as [l|]; last first.
  { exists None, cs3, o3. split_and!; try done; [by eapply sa_inv_params|].
    intros d' [= <-] (_ & Hd & Hround) _.
    apply Hlv; simpl; [change (sa_n_iter o1) with (sa_n_iter o); lia| |done].
    replace (length points) with (chain_count o); [done|]. unfold chain_count.
    change (kept_points o1) with (kept_points o) in Hkept. destruct (kept_points o); simpl; [by subst|].
    destruct Hkept as [_ Hz]. change (sa_parallel_size o1) with (sa_parallel_size o) in Hz.
    rewrite <-Hz. unfold zlen. lia. }
  unfold sbind, smod, sret. cbn [fst snd].
  destruct (Hres l eq_refl) as (k & more & [Hpts _ Hseen Hfin] & [Hj Hch Hk Hmax Hstop Hlast]).
  assert (sa_persistent o3 = sa_persistent o) as Hpers by (by injection Hsp).
  eexists (Some _), cs3, _. split; [done|]. split_and!; try done.
  - apply (sa_inv_params o); [|destruct (sa_persistent o3); [|done]|done].
    + destruct (sa_persistent o3); [|done]. unfold same_params in *. rewrite Hsp. done.
    + intros ps [= <-]. done.
  - destruct (sa_persistent o3); [|done]. unfold same_params in *. rewrite Hsp. done.
  - destruct (sa_persistent o3); done.
  - intros ids [= <-]. exists d, t, cool, points, more, k, (sl_points l). simpl in *.
    split; [done|]. split; [done|]. split; [done|]. split; [exact Hch|]. split.
    { rewrite Hpers. destruct (sa_persistent o); [done|]. by apply Hali. }
    split; [done|]. split; [lia|]. split; [|split; [done|by eapply sa_result_spec]].
    change (sa_early_stop o1) with (sa_early_stop o) in Hstop. change (sa_n_iter o1) with (sa_n_iter o) in Hstop.
    destruct (decide (sa_n_iter o ≤ sl_k l)%Z) as [?|?]; [left; lia|right].
    destruct Hlast as [[Hl Hh]|(i & early & ps & Hi' & Hl & Hch' & Hh)].
    + exists 0, [], points. rewrite app_nil_r. split; [lia|]. split; [lia|]. split; [constructor|].
      rewrite Hh. by eapply sa_result_spec.
    + exists (S i), early, ps. split; [lia|]. split; [lia|]. split; [done|]. by eapply sa_result_spec.
Qed.

(** C6: simulated annealing returns the best points of its chains.  On a
    coherent space with at least one knob, with a pointwise cost model and an
    optimizer as [sa_inv] has it (the points it has kept are valid, there are no
    more chains than valid indexes, the temperature is a number or a pair), a call
    for [n > 0] points that excludes indexes only never fails.  The chains start from the points of the call before, or from
    distinct random ones; the relation [chains], which knows nothing of the
    heap, says where they are after each iteration and which points they have
    walked through.  The call returns at most [n] distinct points, in
    decreasing order of score, none excluded, all valid and with a score that
    is not negative, and every such point among the starting points and those
    walked through in its [k] iterations is returned or no better than any of
    the [n] returned.  [k] is [n_iter], or less when the last [early_stop - 1]
    iterations changed nothing in the answer.  The end of the chains is kept
    for the next call when the optimizer is persistent; besides, only the caches
    of the space and the draws left change, and draws for [n_iter] iterations
    are enough. *)
Theorem sa_find_maximums_spec m n excl cs1 o :
  cs_ok cs1 → clear_cache cs1 = clear_cache cs → sa_inv o →
  Forall (λ p, (0 ≤ p)%Z) excl → (0 < n)%Z →
  ∃ r cs2 o2, sa_find_maximums np_exp m (NInt n) excl (cs1, o) = (Ret r, (cs2, o2)) ∧
    cs_ok cs2 ∧ clear_cache cs2 = clear_cache cs ∧ sa_inv o2 ∧ same_params o o2 ∧
    sa_rng o2 = tail (sa_rng o) ∧
    (∀ ids, r = Some ids → ∃ d t cool points more k ps',
       head (sa_rng o) = Some d ∧ sa_cooling o = Ret (t, cool) ∧
       match kept_points o with
       | Some kept => points = kept
       | None => NoDup points ∧ zlen points = sa_parallel_size o
       end ∧
       chains m cool t points (take k (sd_rounds d)) more ps' ∧
       sa_points o2 = (if sa_persistent o then Some ps' else sa_points o) ∧
       k ≤ length (sd_rounds d) ∧ (Z.of_nat k ≤ Z.max 0 (sa_n_iter o))%Z ∧
       ((sa_n_iter o ≤ Z.of_nat k)%Z ∨
        ∃ i early ps, i ≤ k ∧ (Z.of_nat i + sa_early_stop o ≤ Z.of_nat k + 1)%Z ∧
          chains m cool t points (take i (sd_rounds d)) early ps ∧
          top_points (score m) excl (Z.to_nat n) (points ++ early) ids) ∧
       Forall (good_pt cs) (points ++ more) ∧
       top_points (score m) excl (Z.to_nat n) (points ++ more) ids) ∧
    (∀ d, head (sa_rng o) = Some d → draws_ok o d → r ≠ None).
Proof. apply sa_find_maximums_returns. Qed.
End SA.
