(* ===== verification/ModelTunerSpec.v ===== *)
(** * Properties of model based tuning

    The diversity filter is greedy and fails on short lists of candidates; the
    tuner hands out every configuration at most once, whatever its optimizer
    proposes. *)

From S2P Require Import Prelude PyFloat Transforms ConfigSpace ConfigSpaceSpec KnobSpec.
From S2P Require Import Tuner TunerSpec Heapq ModelTuner AnnealSpec.

(** ** The diversity filter *)

(** Counts up to 1000 are exact as floats. *)
Lemma f_of_Z_succ c : (0 ≤ c < 1000)%Z →
  fadd (f_of_Z c) f1 = f_of_Z (c + 1) ∧ fltb (f_of_Z c) (f_of_Z (c + 1)) = true.
Proof.
  intros Hc.
  set (f := λ c, bool_decide (fadd (f_of_Z c) f1 = f_of_Z (c + 1)) && fltb (f_of_Z c) (f_of_Z (c + 1))).
  assert (forallb f (range 0 1000) = true) as Hall by (vm_compute; reflexivity).
  rewrite forallb_forall in Hall. specialize (Hall c). rewrite <-list_elem_of_In, elem_of_range in Hall.
  specialize (Hall ltac:(lia)). unfold f in Hall. apply andb_true_iff in Hall as [H1 H2].
  by apply bool_decide_eq_true in H1.
Qed.

Lemma f_of_Z_lt c d : (0 ≤ c)%Z → (c < d ≤ 1000)%Z → fltb (f_of_Z c) (f_of_Z d) = true.
Proof.
  intros Hc Hd. replace d with (c + 1 + Z.of_nat (Z.to_nat (d - c - 1)))%Z by lia.
  assert (c + 1 + Z.of_nat (Z.to_nat (d - c - 1)) ≤ 1000)%Z as Hle by lia. revert Hle.
  generalize (Z.to_nat (d - c - 1)). clear d Hd. induction n as [|n IH]; intros Hle.
  - rewrite Z.add_0_r. apply f_of_Z_succ. lia.
  - eapply flt_le_trans; [apply IH; lia|]. apply flt_fle.
    replace (c + 1 + Z.of_nat (S n))%Z with ((c + 1 + Z.of_nat n) + 1)%Z by lia.
    apply f_of_Z_succ. lia.
Qed.

(** A count as the loop computes it, from a zero of either sign. *)
Definition count_flt (b : bool) (c : nat) : flt :=
  match c with 0 => S754_zero b | _ => f_of_Z (Z.of_nat c) end.

Lemma count_flt_succ b c : c < 1000 → fadd (count_flt b c) f1 = count_flt b (S c).
Proof.
  intros Hc. destruct c as [|c]; [by destruct b|].
  destruct (f_of_Z_succ (Z.of_nat (S c)) ltac:(lia)) as [E _]. unfold count_flt. rewrite E. f_equal. lia.
Qed.

Lemma f_of_Z_pos c : (0 < c ≤ 1000)%Z → ∃ m e, f_of_Z c = S754_finite false m e.
Proof.
  intros Hc. pose proof (f_of_Z_lt 0 c ltac:(lia) ltac:(lia)) as Hl.
  assert (f_of_Z c ≠ S754_infinity false) as Hi.
  { intros E. destruct (decide (c = 1000)%Z) as [->|]; [by vm_compute in E|].
    pose proof (f_of_Z_lt c (c + 1) ltac:(lia) ltac:(lia)) as Hl2. rewrite E in Hl2.
    by destruct (f_of_Z (c + 1)) as [|[]| |[]]. }
  destruct (f_of_Z c) as [|[]| |[] m e]; try done. eauto.
Qed.

Lemma count_flt_ltb b b' c d : c ≤ 1000 → d ≤ 1000 →
  fltb (count_flt b c) (count_flt b' d) = bool_decide (c < d).
Proof.
  intros Hc Hd. case_bool_decide as Hlt.
  - destruct c as [|c].
    + destruct d as [|d]; [lia|]. simpl. destruct (f_of_Z_pos (Z.of_nat (S d))) as (m & e & E); [lia|].
      simpl in E. rewrite E. done.
    + destruct d as [|d]; [lia|]. apply (f_of_Z_lt (Z.of_nat (S c)) (Z.of_nat (S d))); lia.
  - apply not_true_iff_false. intros Hl. destruct d as [|d].
    { destruct c as [|c]; [done|]. simpl in Hl.
      destruct (f_of_Z_pos (Z.of_nat (S c))) as (m & e & E); [lia|]. simpl in E. by rewrite E in Hl. }
    destruct c as [|c]; [lia|]. simpl in Hl. destruct (decide (c = d)) as [->|Hne].
    { by rewrite flt_irrefl in Hl. }
    pose proof (f_of_Z_lt (Z.of_nat (S d)) (Z.of_nat (S c)) ltac:(lia) ltac:(lia)) as Hl2.
    pose proof (flt_le_trans _ _ _ Hl (flt_fle _ _ Hl2)) as Hl3. by rewrite flt_irrefl in Hl3.
Qed.

Lemma count_flt_above b c : c ≤ 1000 → fltb (fsub f0 f_1e9) (count_flt b c) = true.
Proof.
  intros Hc. destruct c as [|c]; [by destruct b|].
  destruct (f_of_Z_pos (Z.of_nat (S c))) as (m & e & E); [lia|]. unfold count_flt. by rewrite E.
Qed.

(** How many knob values of a point are not in the sets yet. *)
Definition new_knobs (sets : list (gset Z)) (knob : list Z) : nat :=
  length (filter (λ p, p.2 ∉ p.1) (zip sets knob)).

(** The sets after picking the points [picks]. *)
Definition picked_sets (knobs : list (list Z)) (w : nat) (picks : list Z) : list (gset Z) :=
  foldl (λ s x, add_knobs (default [] (knobs !! Z.to_nat x)) s) (replicate w ∅) picks.

Lemma new_knobs_le sets knob : new_knobs sets knob ≤ length sets.
Proof.
  unfold new_knobs. etransitivity; [apply length_filter|]. rewrite length_zip_with. lia.
Qed.

Lemma pick_delta_count b sets : ∀ knob c,
  length sets ≤ length knob → c + length sets ≤ 1000 →
  pick_delta f1 knob sets (count_flt b c) = Ret (count_flt b (c + new_knobs sets knob)).
Proof.
  unfold new_knobs. induction sets as [|s sets IH]; intros knob c Hlen Hc.
  { destruct knob; simpl; by rewrite Nat.add_0_r. }
  destruct knob as [|v knob]; [simpl in Hlen; lia|]. cbn [pick_delta]. simpl in Hlen, Hc.
  change (zip (s :: sets) (v :: knob)) with ((s, v) :: zip sets knob). rewrite filter_cons.
  case_bool_decide as Hv; simpl.
  - rewrite decide_False by (simpl; tauto). apply IH; lia.
  - rewrite decide_True by done. rewrite count_flt_succ by lia. rewrite IH by lia.
    cbn [length]. by rewrite Nat.add_succ_r.
Qed.

Section Pick.
Context (scores : list flt) (knobs : list (list Z)) (w : nat).
Hypothesis Hzero : Forall (λ s, ∃ b, s = S754_zero b) scores.
Hypothesis Hlen : length scores = length knobs.
Hypothesis Hw : Forall (λ k, length k = w) knobs.
Hypothesis Hbound : w ≤ 1000.

Definition gain (picks : list Z) (x : Z) : nat :=
  new_knobs (picked_sets knobs w picks) (default [] (knobs !! Z.to_nat x)).

Definition index_of (x : Z) : Prop := (0 ≤ x < zlen scores)%Z.

Lemma picked_sets_length picks :
  Forall index_of picks → length (picked_sets knobs w picks) = w.
Proof.
  unfold picked_sets. assert (length (replicate w (∅ : gset Z)) = w) as Hr by apply length_replicate.
  revert Hr. generalize (replicate w (∅ : gset Z)).
  induction picks as [|x picks IH]; intros s Hr Hp; simpl; [done|].
  apply Forall_cons in Hp as [Hx Hp]. apply IH; [|done]. unfold add_knobs.
  rewrite length_zip_with. destruct (knobs !! Z.to_nat x) as [k|] eqn:E; simpl.
  - rewrite Forall_lookup in Hw. rewrite (Hw _ _ E). lia.
  - apply lookup_ge_None in E. unfold index_of, zlen in Hx. lia.
Qed.

Lemma point_delta picks x :
  Forall index_of picks → index_of x →
  ∃ s k b, pynth scores x = Ret s ∧ pynth knobs x = Ret k ∧ knobs !! Z.to_nat x = Some k ∧
    pick_delta f1 k (picked_sets knobs w picks) s = Ret (count_flt b (gain picks x)) ∧
    gain picks x ≤ 1000.
Proof.
  intros Hp Hx. unfold index_of, zlen in Hx.
  destruct (lookup_lt_is_Some_2 scores (Z.to_nat x)) as [s Hs]; [lia|].
  destruct (lookup_lt_is_Some_2 knobs (Z.to_nat x)) as [k Hk]; [lia|].
  pose proof (Forall_lookup_1 _ _ _ _ Hw Hk) as Hkw. simpl in Hkw.
  rewrite Forall_lookup in Hzero. destruct (Hzero _ _ Hs) as [b ->].
  pose proof (picked_sets_length picks Hp) as Hsl.
  pose proof (new_knobs_le (picked_sets knobs w picks) k) as Hnl.
  exists (S754_zero b), k, b. unfold gain. rewrite Hk. cbn [default from_option id].
  rewrite Hsl in Hnl. split_and!; [| |done| |lia].
  - rewrite pynth_lookup by lia. by rewrite Hs.
  - rewrite pynth_lookup by lia. by rewrite Hk.
  - apply (pick_delta_count b _ k 0); rewrite Hsl; lia.
Qed.

Lemma pick_max_best picks remain : ∀ b c x,
  Forall index_of picks → Forall index_of remain → c ≤ 1000 →
  ∃ b' c' x', pick_max scores knobs f1 (picked_sets knobs w picks) remain (count_flt b c, x) =
      Ret (count_flt b' c', x') ∧
    c ≤ c' ∧ (x' = x ∧ c' = c ∨ x' ∈ remain ∧ c' = gain picks x') ∧
    Forall (λ y, gain picks y ≤ c') remain.
Proof.
  induction remain as [|y remain IH]; intros b c x Hp Hr Hc; cbn [pick_max].
  { exists b, c, x. split_and!; auto. }
  apply Forall_cons in Hr as [Hy Hr].
  destruct (point_delta picks y Hp Hy) as (s & k & b1 & -> & -> & _ & Hd & Hg). cbn [pbind].
  rewrite Hd. cbn [pbind fst]. rewrite count_flt_ltb by done. case_bool_decide as Hlt.
  - destruct (IH b1 (gain picks y) y Hp Hr Hg) as (b' & c' & x' & -> & Hle & Hx & Hall).
    exists b', c', x'. split_and!; [done|lia| |by constructor].
    right. destruct Hx as [[-> ->]|[? ->]]; (split; [set_solver|done]).
  - destruct (IH b c x Hp Hr Hc) as (b' & c' & x' & -> & Hle & Hx & Hall).
    exists b', c', x'. split_and!; [done|done| |constructor; [lia|done]].
    destruct Hx as [?|[? ->]]; [by left|right]. split; [set_solver|done].
Qed.

Lemma pick_max_first picks remain :
  Forall index_of picks → Forall index_of remain → remain ≠ [] →
  ∃ d x, pick_max scores knobs f1 (picked_sets knobs w picks) remain (fsub f0 f_1e9, (-1)%Z) = Ret (d, x) ∧
    x ∈ remain ∧ Forall (λ y, gain picks y ≤ gain picks x) remain.
Proof.
  intros Hp Hr Hne. destruct remain as [|y remain]; [done|]. cbn [pick_max].
  apply Forall_cons in Hr as [Hy Hr].
  destruct (point_delta picks y Hp Hy) as (s & k & b1 & -> & -> & _ & Hd & Hg). cbn [pbind].
  rewrite Hd. cbn [pbind fst]. rewrite count_flt_above by done.
  destruct (pick_max_best picks remain b1 _ y Hp Hr Hg) as (b' & c' & x' & -> & Hle & Hx & Hall).
  eexists _, x'. split; [done|]. destruct Hx as [[-> ->]|[? ->]].
  - split; [left|by constructor].
  - split; [by right|by constructor].
Qed.

(** Every pick adds as many new knob values as any point left would. *)
Definition greedy (picks : list Z) : Prop :=
  ∀ pre x post, picks = pre ++ x :: post →
    ∀ y, index_of y → y ∉ pre → gain pre y ≤ gain pre x.

Lemma picked_sets_snoc picks x :
  picked_sets knobs w (picks ++ [x]) =
  add_knobs (default [] (knobs !! Z.to_nat x)) (picked_sets knobs w picks).
Proof. unfold picked_sets. by rewrite foldl_app. Qed.

Lemma greedy_snoc picks x :
  greedy picks → (∀ y, index_of y → y ∉ picks → gain picks y ≤ gain picks x) → greedy (picks ++ [x]).
Proof.
  intros Hg Hx pre x' post Heq. destruct (decide (post = [])) as [->|Hne].
  - apply app_inj_tail in Heq as [-> ->]. done.
  - destruct (exists_last Hne) as (post' & z & ->).
    rewrite app_comm_cons, app_assoc in Heq. apply app_inj_tail in Heq as [-> _].
    by apply (Hg pre x' post').
Qed.

Lemma pick_loop_spec n : ∀ picks remain,
  Forall index_of picks → greedy picks →
  NoDup (picks ++ remain) → (∀ y, index_of y ↔ y ∈ picks ++ remain) →
  if decide (n ≤ length remain) then
    ∃ more, pick_loop scores knobs f1 n (picked_sets knobs w picks) remain = Ret more ∧
      length more = n ∧ NoDup (picks ++ more) ∧ Forall index_of (picks ++ more) ∧ greedy (picks ++ more)
  else pick_loop scores knobs f1 n (picked_sets knobs w picks) remain = Raise ValueError.
Proof.
  induction n as [|n IH]; intros picks remain Hp Hg Hnd Hall.
  { rewrite decide_True by lia. exists []. rewrite app_nil_r. apply NoDup_app in Hnd as (? & _).
    done. }
  cbn [pick_loop]. destruct (decide (remain = [])) as [->|Hne].
  { rewrite decide_False by (simpl; lia). done. }
  assert (Forall index_of remain) as Hr.
  { apply Forall_forall. intros y Hy. apply Hall, elem_of_app. by right. }
  destruct (pick_max_first picks remain Hp Hr Hne) as (d & x & -> & Hx & Hmax). cbn [pbind].
  unfold pyremove. rewrite bool_decide_true by done. cbn [pbind].
  assert (index_of x) as Hix by (rewrite Forall_forall in Hr; auto).
  destruct (point_delta picks x Hp Hix) as (s & k & b & _ & -> & Hk & _ & _). cbn [pbind].
  pose proof (remove1_perm x remain Hx) as Hperm. pose proof (length_remove1 x remain Hx) as Hl.
  specialize (IH (picks ++ [x]) (remove1 x remain)).
  rewrite picked_sets_snoc, Hk, <-app_assoc in IH. simpl in IH.
  assert (Forall index_of (picks ++ [x])) as Hp' by (apply Forall_app; auto).
  assert (greedy (picks ++ [x])) as Hg'.
  { apply greedy_snoc; [done|]. intros y Hy Hny. apply Hall, elem_of_app in Hy as [?|Hy]; [done|].
    rewrite Forall_forall in Hmax. auto. }
  specialize (IH Hp' Hg' ltac:(by rewrite <-Hperm) ltac:(intros y; rewrite <-Hperm; apply Hall)).
  destruct (decide (n ≤ _)) as [Hn|Hn].
  - rewrite decide_True by lia. destruct IH as (more & -> & Hlm & Hndm & Hfm & Hgm).
    exists (x :: more). split; [done|]. split; [simpl; lia|]. rewrite <-app_assoc in *. done.
  - rewrite decide_False by lia. by rewrite IH.
Qed.
End Pick.

Lemma submodular_pick_returns scores knobs w n_pick :
  Forall (λ s, ∃ b, s = S754_zero b) scores → length scores = length knobs →
  Forall (λ k, length k = w) knobs → w ≤ 1000 →
  match knobs with
  | [] => submodular_pick scores knobs n_pick f1 = Raise IndexError
  | _ =>
      if bool_decide (n_pick ≤ zlen knobs)%Z then
        ∃ picks, submodular_pick scores knobs n_pick f1 = Ret picks ∧
          length picks = Z.to_nat n_pick ∧ NoDup picks ∧ Forall (index_of scores) picks ∧
          greedy scores knobs w picks
      else submodular_pick scores knobs n_pick f1 = Raise ValueError
  end.
Proof.
  intros Hz Hlen Hw Hb. unfold submodular_pick, pyassert. rewrite bool_decide_true by done. cbn [pbind].
  destruct knobs as [|k0 knobs]; [done|]. pose proof Hw as [Hk0 _]%Forall_cons.
  change (pynth (k0 :: knobs) 0) with (Ret k0). cbn [pbind]. rewrite Hk0.
  pose proof (pick_loop_spec scores (k0 :: knobs) w Hz Hlen Hw Hb (Z.to_nat n_pick) []
    (range 0 (zlen scores))) as Hp. cbn [app] in Hp.
  assert (length (range 0 (zlen scores)) = length (k0 :: knobs)) as Hrl.
  { unfold range. rewrite length_seqZ, <-Hlen. unfold zlen. lia. }
  rewrite Hrl in Hp. unfold zlen.
  specialize (Hp (Forall_nil_2 _)). specialize (Hp ltac:(intros [|??] ? ? ?; done)).
  specialize (Hp (NoDup_seqZ _ _) ltac:(intros y; rewrite elem_of_range; done)).
  case_bool_decide; [rewrite decide_True in Hp by lia|by rewrite decide_False in Hp by lia].
  exact Hp.
Qed.

(** C8: the diversity filter picks greedily.  On points without scores of
    their own (the tuner passes [0 * scores]) with at most 1000 knobs each, it
    returns the number of distinct points it was asked for, each of which adds
    at least as many new knob values to the ones before it as any point left
    would; with fewer points it raises [ValueError], with none [IndexError]. *)
Theorem submodular_pick_spec scores knobs w n_pick :
  Forall (λ s, ∃ b, s = S754_zero b) scores → length scores = length knobs →
  Forall (λ k, length k = w) knobs → w ≤ 1000 →
  match knobs with
  | [] => submodular_pick scores knobs n_pick f1 = Raise IndexError
  | _ =>
      if bool_decide (n_pick ≤ zlen knobs)%Z then
        ∃ picks, submodular_pick scores knobs n_pick f1 = Ret picks ∧
          length picks = Z.to_nat n_pick ∧ NoDup picks ∧ Forall (index_of scores) picks ∧
          greedy scores knobs w picks
      else submodular_pick scores knobs n_pick f1 = Raise ValueError
  end.
Proof. apply submodular_pick_returns. Qed.

(** [np.array(l)[idx]] for positions of [l]. *)
Lemma np_take_spec (l idx : list Z) :
  NoDup l → Forall (λ x, (0 ≤ x < zlen l)%Z) idx → NoDup idx →
  ∃ r, np_take l idx = Ret r ∧ NoDup r ∧ length r = length idx ∧ Forall (λ p, p ∈ l) r.
Proof.
  intros Hl Hi Hnd. unfold np_take.
  assert (∃ r, pymap (pynth l) idx = Ret r ∧ Forall2 (λ i p, l !! Z.to_nat i = Some p) idx r)
    as (r & Hr & Hf).
  { clear Hnd. induction Hi as [|i idx Hi Hidx IH]; [by exists []|].
    destruct IH as (r & Hr & Hf). unfold zlen in Hi.
    destruct (lookup_lt_is_Some_2 l (Z.to_nat i)) as [p Hp]; [lia|].
    exists (p :: r). split; [|by constructor]. cbn [pymap]. rewrite pynth_lookup, Hp, Hr by lia. done. }
  exists r. split; [done|]. split; [|split; [by symmetry; eapply Forall2_length|]].
  - clear Hr. revert Hi Hnd. induction Hf as [|i p idx r Hp Hf IH]; intros Hi Hnd; [constructor|].
    apply Forall_cons in Hi as [Hi Hidx]. apply NoDup_cons in Hnd as [Hni Hnd].
    constructor; [|by apply IH]. intros Hin. apply Hni.
    apply list_elem_of_lookup in Hin as [k Hk]. destruct (Forall2_lookup_r _ _ _ _ _ Hf Hk) as (i' & Hi' & Hp').
    pose proof (NoDup_lookup l _ _ _ Hl Hp Hp') as Heq. rewrite Forall_forall in Hidx.
    pose proof (Hidx i' (list_elem_of_lookup_2 _ _ _ Hi')). assert (i = i') as -> by lia.
    by eapply list_elem_of_lookup_2.
  - clear Hr Hi Hnd. induction Hf as [|i p idx r Hp Hf IH]; constructor; [|done].
    by eapply list_elem_of_lookup_2.
Qed.

(** ** Handing out configurations *)

(** What the tuner relies on: an optimizer that answers with valid points that
    are not excluded, at most as many as asked for, and touches only the
    caches of the space.  [enough k o] says that [o] has the draws for [k] more
    calls: it then answers. *)
Class ModelOptimizerOk `{Numpy} (M O : Type) `{!ModelOptimizer M O} (cs : ConfigSpace)
    (inv : O → Prop) (enough : nat → O → Prop) : Prop := {
  enough_less k o : enough (S k) o → enough k o;
  find_maximums_ok m n excl cs1 o :
    cs_ok cs1 → clear_cache cs1 = clear_cache cs → inv o → Forall (good_pt cs) excl → (0 < n)%Z →
    ∃ r cs2 o2, find_maximums m (NInt n) excl (cs1, o) = (Ret r, (cs2, o2)) ∧
      cs_ok cs2 ∧ clear_cache cs2 = clear_cache cs ∧ inv o2 ∧
      (∀ l, r = Some l → NoDup l ∧ (zlen l ≤ n)%Z ∧ Forall (λ p, good_pt cs p ∧ p ∉ excl) l) ∧
      (∀ k, enough (S k) o → r ≠ None ∧ enough k o2)
}.

(** Simulated annealing is one, with a list of draws that are enough. *)
#[global] Instance sa_optimizer_ok `{NumpyOk} (M R : Type) `{!CostModel M R} score
    `{!CostModelOk M R score} np_exp cs (Hne : space_map cs ≠ []) :
  ModelOptimizerOk (ModelOptimizer0 := sa_optimizer np_exp) M SimulatedAnnealingOptimizer cs (sa_inv cs)
    (sa_enough cs).
Proof.
  split; [intros k o [? ?]; split; [lia|done]|].
  intros m n excl cs1 o Hok Hc Hi Hex Hn.
  destruct (sa_find_maximums_returns score np_exp cs Hne m n excl cs1 o Hok Hc Hi
    (good_pt_nonneg cs excl Hex) Hn) as (r & cs2 & o2 & Hrun & ? & ? & ? & Hsp & Hrng & Hres & Hlive).
  exists r, cs2, o2. split_and!; try done.
  - intros l Hl. destruct (Hres l Hl) as (d & t & cool & points & more & k & ps' & _ & _ & _ & _ & _ & _ & _ & _
      & Hgood & [? Hlen _ Hseen _]).
    split; [done|]. split; [unfold zlen; lia|]. eapply Forall_impl; [exact Hseen|].
    intros p (Hp & ? & _). split; [|done]. rewrite Forall_forall in Hgood. by apply Hgood.
  - intros k [Hk Hds]. destruct (sa_rng o) as [|d rng]; [simpl in Hk; lia|].
    apply Forall_cons in Hds as [Hd Hds]. assert (r ≠ None) as Hr by (by eapply Hlive).
    split; [done|]. destruct r as [l|]; [|done].
    destruct (Hres l eq_refl) as (d' & t & cool & points & more & k' & ps' & _ & _ & Hkept & Hch & Hpts & _).
    split; rewrite Hrng; simpl in *; [lia|]. eapply Forall_impl; [exact Hds|].
    intros d1. apply draws_ok_next; [done|]. unfold chain_count, kept_points. rewrite Hpts.
    assert (sa_persistent o2 = sa_persistent o ∧ sa_parallel_size o2 = sa_parallel_size o) as [-> ->]
      by (by injection Hsp).
    apply chains_length in Hch. unfold kept_points in Hkept. destruct (sa_persistent o); simpl; [|done].
    rewrite Hch. destruct (sa_points o) as [kept|]; simpl; [by rewrite Hkept|].
    destruct Hkept as [_ Hz]. unfold zlen in Hz. lia.
Qed.

(** [int(0.05 * plan_size)] is a number of trials. *)
Definition plan_ok (plan_size : Z) : Prop :=
  (0 < plan_size)%Z ∧ ∃ k, last_trials plan_size = Ret k ∧ (0 ≤ k)%Z.

Lemma plan_ok_small plan_size : (0 < plan_size ≤ 1000)%Z → plan_ok plan_size.
Proof.
  intros Hp. split; [lia|].
  set (f := λ p, match last_trials p with Ret k => (0 <=? k)%Z | Raise _ => false end).
  assert (forallb f (range 1 1001) = true) as Hall by (vm_compute; reflexivity).
  rewrite forallb_forall in Hall. specialize (Hall plan_size).
  rewrite <-list_elem_of_In, elem_of_range in Hall. specialize (Hall ltac:(lia)). unfold f in Hall.
  destruct (last_trials plan_size) as [k|]; [|done]. exists k. split; [done|lia].
Qed.

Lemma set_add_NoDup x l : NoDup l → NoDup (set_add x l).
Proof.
  intros Hl. unfold set_add. case_bool_decide; [done|].
  apply NoDup_app. split; [done|]. split; [set_solver|apply NoDup_singleton].
Qed.

Lemma elem_of_set_add x y l : y ∈ set_add x l ↔ y = x ∨ y ∈ l.
Proof. unfold set_add. case_bool_decide; set_solver. Qed.

Section MT.
Context `{NumpyOk} {M R O : Type} `{!CostModel M R, !ModelOptimizer M O}.
Context (flop : flt) (cs : ConfigSpace).
Abbreviation MT := (ModelBasedTuner M O).
Implicit Types (t : MT) (vis : list Z).

(** The tuner without its space, its set of visited indices and its position
    in the plan. *)
Definition mt_rest t : MT :=
  mkMT ConfigSpace_init (mt_plan_size t) (mt_cost_model t) (mt_optimizer t) (mt_ratio t) (mt_trials t)
    0 [] (mt_xs t) (mt_ys t) (mt_flops_max t) (mt_train_ct t) (mt_in_tuning t).

(** The tuner after visiting [vis]. *)
Record mt_inv vis t : Prop := {
  mi_ok : cs_ok (mt_space t);
  mi_core : clear_cache (mt_space t) = clear_cache cs;
  mi_visited : mt_visited t = vis;
  mi_NoDup : NoDup vis;
  mi_valid : Forall (good_pt cs) vis;
  mi_trials : Forall (good_pt cs) (trial_list (mt_trials t));
  mi_pt : (0 ≤ mt_trial_pt t)%Z;
  mi_plan : plan_ok (mt_plan_size t)
}.

Lemma mt_on_space_returns {A} (m : ST ConfigSpace A) vis t a :
  mt_inv vis t → returns m (mt_space t) a →
  ∃ cs', mt_on_space m t = (Ret a, mt_set_space cs' t) ∧ mt_inv vis (mt_set_space cs' t).
Proof.
  intros [] (cs' & Hm & Hok & Hc). exists cs'. unfold mt_on_space. rewrite Hm.
  split; [done|]. split; try done. simpl. congruence.
Qed.

Lemma seek_trial_returns rest : ∀ index vis t,
  mt_inv vis t → Forall (good_pt cs) rest →
  ∃ o t' j, seek_trial rest index t = (Ret o, t') ∧ mt_inv vis t' ∧ mt_rest t' = mt_rest t ∧
    mt_trial_pt t' = (mt_trial_pt t + Z.of_nat j)%Z ∧ j ≤ length rest ∧
    (j < length rest → o = head (filter (λ i, i ∉ vis) rest) ∧ is_Some o).
Proof.
  induction rest as [|i rest IH]; intros index vis t Hi Hg; cbn [seek_trial].
  { exists index, t, 0. split_and!; try done; simpl; lia. }
  apply Forall_cons in Hg as [Hgi Hg]. unfold sbind at 1, sget. rewrite (mi_visited _ _ Hi).
  pose proof Hi as [Hok Hc ? ? ? ? ? ?]. destruct (same_core_fields _ _ Hc) as (Hsm & _).
  rewrite filter_cons. case_bool_decide as Hin.
  - rewrite (decide_False (P := i ∉ vis)) by tauto. unfold sbind, sret, smod.
    set (t1 := mt_set_plan (mt_trials t) (mt_trial_pt t + 1) (mt_train_ct t) t).
    destruct (IH (Some i) vis t1) as (o & t' & j & Hrun & ? & ? & Hpt & ? & Ho);
      [by split; try done; simpl; lia|done|].
    exists o, t', (S j). split; [exact Hrun|]. split_and!; try done; simpl in *; try lia.
    intros ?. apply Ho. lia.
  - rewrite decide_True by done.
    destruct (mt_on_space_returns (is_index_valid i) vis t true Hi) as (cs' & Hrun & Hi').
    { destruct Hgi as [Hr Hv]. rewrite <-Hv, <-(valid_at_core cs (mt_space t)) by done.
      apply is_index_valid_returns; [done|]. by rewrite Hsm. }
    unfold sbind at 1. rewrite Hrun. exists (Some i), (mt_set_space cs' t), 0.
    split_and!; try done; simpl; lia.
Qed.

Lemma pick_trial_returns index draws vis t :
  mt_inv vis t →
  ∃ o draws' t', pick_trial index draws t = (Ret (o, draws'), t') ∧ mt_inv vis t' ∧
    mt_rest t' = mt_rest t ∧
    (∀ i, o = Some i → good_pt cs i ∧ i ∉ vis) ∧
    (draws' = draws ∧
       o = head (filter (λ i, i ∉ vis) (drop (Z.to_nat (mt_trial_pt t)) (trial_list (mt_trials t)))) ∧
       is_Some o ∨
     draws = [] ∧ o = None ∨
     ∃ ds, draws = ds :: draws' ∧
       o = head (filter (acceptable cs vis) (draw_index 0 (size_of (space_map cs)) <$> ds))).
Proof.
  intros Hi. unfold pick_trial, sbind at 1, sget.
  set (rest := drop (Z.to_nat (mt_trial_pt t)) (trial_list (mt_trials t))).
  assert (Forall (good_pt cs) rest) as Hg by (apply Forall_drop, (mi_trials _ _ Hi)).
  destruct (seek_trial_returns rest index vis t Hi Hg) as (o & t1 & j & Hrun & Hi1 & Hr & Hpt & Hj & Ho).
  unfold sbind at 1. rewrite Hrun. unfold sbind at 1.
  destruct (mi_plan _ _ Hi1) as (_ & k & Hk & Hk0). unfold sbind at 1, slift. rewrite Hk.
  assert (mt_trials t1 = mt_trials t) as Htr by (unfold mt_rest in Hr; by injection Hr).
  rewrite Htr, Hpt. case_bool_decide as Hlast.
  - destruct draws as [|ds draws].
    { exists None, [], t1. split; [done|]. split; [exact Hi1|]. split; [exact Hr|]. split; [done|].
      right. by left. }
    pose proof Hi1 as [Hok1 Hc1 Hv1 _ _ _ _ _]. destruct (same_core_fields _ _ Hc1) as (Hsm & _).
    destruct (ok_spaces _ Hok1) as (_ & Hpos & _). pose proof (size_of_pos _ Hpos) as Hsz.
    rewrite Hsm in Hsz.
    destruct (mt_on_space_returns (get_rand_index None None (mt_visited t1) ds) vis t1
      (head (filter (acceptable cs vis) (draw_index 0 (size_of (space_map cs)) <$> ds)))) as (cs' & Hr1 & Hi2);
      [done| |].
    { rewrite Hv1, <-(acceptable_core cs (mt_space t1)), <-Hsm by done.
      apply (get_rand_index_returns (mt_space t1) None None vis ds); simpl; rewrite ?Hsm; [done|lia|lia]. }
    unfold sbind. rewrite Hr1. eexists _, draws, _. split; [done|].
    split; [exact Hi2|]. split; [exact Hr|]. split.
    + intros i Hhd. apply head_filter_Some in Hhd as [Hacc Hin]. destruct Hacc as [Hv Hx].
      apply list_elem_of_fmap in Hin as (d & -> & _). split; [|done]. split; [|done].
      apply draw_index_range. lia.
    + right. right. by exists ds.
  - assert (j < length rest) as Hjl.
    { unfold rest. rewrite length_drop. unfold zlen in Hlast. pose proof (mi_pt _ _ Hi). lia. }
    destruct (Ho Hjl) as [Hh [i Hi']]. rewrite Hi'. exists (Some i), draws, t1.
    split; [done|]. split; [exact Hi1|]. split; [exact Hr|]. rewrite Hi' in Hh. split.
    + intros i2 [= <-]. symmetry in Hh. apply head_filter_Some in Hh as [? Hin].
      rewrite Forall_forall in Hg. auto.
    + left. split; [done|]. split; [exact Hh|by eexists].
Qed.

Lemma mt_has_next_returns vis t :
  mt_inv vis t →
  ∃ cs', mt_has_next t =
      (Ret (bool_decide (zlen vis < zlen (valid_in cs 0 (size_of (space_map cs))))%Z), mt_set_space cs' t) ∧
    mt_inv vis (mt_set_space cs' t).
Proof.
  intros Hi. pose proof Hi as [Hok Hc Hv _ _ _ _ _]. destruct (same_core_fields _ _ Hc) as (Hsm & _).
  destruct (mt_on_space_returns cs_len vis t _ Hi (cs_len_returns _ Hok)) as (cs' & Hrun & Hi').
  exists cs'. split; [|done]. unfold mt_has_next, sbind, sget. rewrite Hrun, Hv.
  by rewrite (count_valid_core cs), Hsm, count_valid_length.
Qed.

Lemma mt_visit_inv vis t i :
  mt_inv vis t → good_pt cs i → mt_inv (set_add i vis) (mt_visit i t).
Proof.
  intros [Hok Hc Hv Hnd Hval Htr Hpt Hpl] Hg. split; simpl; try assumption.
  - by rewrite Hv.
  - by apply set_add_NoDup.
  - apply Forall_forall. intros j [->|Hj]%elem_of_set_add; [exact Hg|].
    rewrite Forall_forall in Hval. by apply Hval.
Qed.

(** The draws of a call of [get_rand_index] hit every valid index. *)
Definition covers (ds : list Z) : Prop :=
  ∀ i, good_pt cs i → i ∈ draw_index 0 (size_of (space_map cs)) <$> ds.

Lemma unvisited_valid vis :
  NoDup vis → (zlen vis < zlen (valid_in cs 0 (size_of (space_map cs))))%Z →
  ∃ i, good_pt cs i ∧ i ∉ vis.
Proof.
  intros Hnd Hlt.
  destruct (decide (Exists (λ i, i ∉ vis) (valid_in cs 0 (size_of (space_map cs))))) as [Hex|Hno].
  - apply Exists_exists in Hex as (i & Hi%elem_of_valid_in & ?). by exists i.
  - exfalso. assert (valid_in cs 0 (size_of (space_map cs)) ⊆+ vis) as Hsub.
    { apply NoDup_submseteq; [apply NoDup_valid_in|]. intros i Hi.
      destruct (decide (i ∈ vis)); [done|]. destruct Hno. apply Exists_exists. eauto. }
    apply submseteq_length in Hsub. unfold zlen in Hlt. lia.
Qed.

Lemma mt_next_batch_returns n : ∀ index draws vis t,
  mt_inv vis t →
  ∃ o t', mt_next_batch n index draws t = (Ret o, t') ∧ mt_rest t' = mt_rest t ∧
    (∀ cfgs, o = Some cfgs → ∃ new, cfgs = config_at cs <$> new ∧ mt_inv (vis ++ new) t' ∧
       length new = Nat.min n (length (valid_in cs 0 (size_of (space_map cs))) - length vis)) ∧
    (n ≤ length draws → Forall covers draws → o ≠ None).
Proof.
  induction n as [|n IH]; intros index draws vis t Hi.
  { exists (Some []), t. split_and!; try done. intros ? [= <-]. exists []. by rewrite app_nil_r. }
  cbn [mt_next_batch]. destruct (mt_has_next_returns vis t Hi) as (cs1 & Hn & Hi1).
  unfold sbind at 1. rewrite Hn. case_bool_decide as Hmore; last first.
  { exists (Some []), (mt_set_space cs1 t). split_and!; try done. intros ? [= <-]. exists [].
    rewrite app_nil_r. split_and!; try done. unfold zlen in Hmore. cbn [length]. lia. }
  destruct (pick_trial_returns index draws vis _ Hi1) as (o & draws' & t2 & Hp & Hi2 & Hr2 & Hval & Hsrc).
  unfold sbind at 1. rewrite Hp. destruct o as [i|]; last first.
  { exists None, t2. split_and!; try done. intros Hlen Hcov.
    destruct (unvisited_valid vis (mi_NoDup _ _ Hi) Hmore) as (i & Hgi & Hni).
    destruct Hsrc as [(_ & _ & Hs)|[[-> _]|(ds & -> & Hs)]]; [by destruct Hs|simpl in Hlen; lia|].
    apply Forall_cons in Hcov as [Hds _]. destruct Hgi as [Hrg Hv].
    intros _. eapply (head_filter_None (acceptable cs vis)); [symmetry; exact Hs|apply (Hds i); by split|by split]. }
  destruct (Hval i eq_refl) as [Hgi Hni]. pose proof Hi2 as [Hok2 Hc2 _ _ _ _ _ _].
  destruct (same_core_fields _ _ Hc2) as (Hsm2 & _).
  destruct (mt_on_space_returns (cs_get i) vis t2 (config_at cs i) Hi2) as (cs3 & Hg & Hi3).
  { rewrite <-(config_at_core cs (mt_space t2)) by done. destruct Hgi as [? ?].
    apply cs_get_returns; [done|by rewrite Hsm2|by rewrite (valid_at_core cs)]. }
  unfold sbind at 1. rewrite Hg. unfold sbind at 1, smod.
  pose proof (mt_visit_inv vis _ i Hi3 Hgi) as Hi4. unfold set_add in Hi4.
  rewrite bool_decide_false in Hi4 by done.
  destruct (IH (Some i) draws' _ _ Hi4) as (o & t' & Hrun & Hr' & Hsome & Hlive).
  exists (option_map (cons (config_at cs i)) o), t'. split_and!.
  - unfold sbind. by rewrite Hrun.
  - rewrite Hr'. exact Hr2.
  - intros cfgs Hcf. destruct o as [cfgs'|]; [|done]. injection Hcf as <-.
    destruct (Hsome cfgs' eq_refl) as (new & -> & Hi' & Hlen). exists (i :: new). split; [done|].
    rewrite cons_middle, app_assoc. split; [done|]. rewrite length_app in Hlen.
    cbn [length] in *. unfold zlen in Hmore. lia.
  - intros Hlen Hcov. assert (n ≤ length draws' ∧ Forall covers draws') as [Hl Hf].
    { destruct Hsrc as [(-> & _)|[[-> _]|(ds & -> & _)]]; simpl in *; [split; [lia|done]|lia|].
      split; [lia|]. by apply Forall_cons in Hcov as [_ ?]. }
    destruct o; [done|]. by destruct (Hlive Hl Hf).
Qed.

(** ** Learning from measurements *)

(** The score that [update] and the monitors give to a result. *)
Definition mt_score (r : mresult) : flt :=
  match ga_score flop r with Ret y => y | Raise _ => f0 end.

(** [flops_max] after a batch of results. *)
Definition max_flops (results : list mresult) (m : flt) : flt :=
  foldl (λ m r, if decide (error_no r = 0)%Z then fmax m (mt_score r) else m) m results.

(** The indices visited after an update. *)
Definition visit_all (pairs : list (ConfigEntity * mresult)) (vis : list Z) : list Z :=
  foldl (λ v p, set_add (ce_index p.1) v) vis pairs.

(** The fields that the observations do not touch. *)
Definition mt_fixed t : Z * M * O * option num * trials_t * Z * Z * bool :=
  (mt_plan_size t, mt_cost_model t, mt_optimizer t, mt_ratio t, mt_trials t, mt_trial_pt t,
   mt_train_ct t, mt_in_tuning t).

Definition wf_pair (p : ConfigEntity * mresult) : Prop :=
  wf_result p.2 ∧ good_pt cs (ce_index p.1).

Lemma wf_score r : wf_result r → ga_score flop r = Ret (mt_score r).
Proof.
  unfold mt_score, ga_score, wf_result. destruct (costs r); case_decide; done.
Qed.

Lemma mt_observe_returns p vis t :
  mt_inv vis t → wf_pair p →
  ∃ t', mt_observe flop p t = (Ret tt, t') ∧ mt_inv (set_add (ce_index p.1) vis) t' ∧
    mt_fixed t' = mt_fixed t ∧ mt_xs t' = mt_xs t ++ [ce_index p.1] ∧
    mt_ys t' = mt_ys t ++ [mt_score p.2] ∧ mt_flops_max t' = max_flops [p.2] (mt_flops_max t).
Proof.
  destruct p as [inp res]. intros Hi [Hwf Hg]. simpl in *. unfold mt_observe, sbind at 1, smod.
  unfold sbind at 1, slift. rewrite (wf_score res Hwf). unfold sbind at 1.
  set (t1 := mt_add_y _ _ _). assert (mt_inv vis t1) as Hi1 by (by destruct Hi).
  pose proof Hi1 as [Hok Hc _ _ _ _ _ _]. destruct (same_core_fields _ _ Hc) as (Hsm & _).
  destruct (mt_on_space_returns (is_index_valid (ce_index inp)) vis t1 true Hi1) as (cs1 & Hr & Hi2).
  { destruct Hg as [Hrg Hv]. rewrite <-Hv, <-(valid_at_core cs (mt_space t1)) by done.
    apply is_index_valid_returns; [done|by rewrite Hsm]. }
  unfold sbind at 1. rewrite Hr. unfold sbind, pyassert.
  eexists. split; [done|]. split; [by apply mt_visit_inv|]. done.
Qed.

Lemma mt_observe_all pairs : ∀ vis t,
  mt_inv vis t → Forall wf_pair pairs →
  ∃ t', sfor pairs (mt_observe flop) t = (Ret tt, t') ∧ mt_inv (visit_all pairs vis) t' ∧
    mt_fixed t' = mt_fixed t ∧ mt_xs t' = mt_xs t ++ (ce_index <$> pairs.*1) ∧
    mt_ys t' = mt_ys t ++ (mt_score <$> pairs.*2) ∧
    mt_flops_max t' = max_flops pairs.*2 (mt_flops_max t).
Proof.
  induction pairs as [|p pairs IH]; intros vis t Hi Hp; cbn [sfor].
  { exists t. rewrite !app_nil_r. done. }
  apply Forall_cons in Hp as [Hp Hps].
  destruct (mt_observe_returns p vis t Hi Hp) as (t1 & Hr1 & Hi1 & Hf1 & Hx1 & Hy1 & Hm1).
  destruct (IH _ t1 Hi1 Hps) as (t2 & Hr2 & Hi2 & Hf2 & Hx2 & Hy2 & Hm2).
  exists t2. unfold sbind. rewrite Hr1, Hr2. split; [done|]. split; [exact Hi2|].
  rewrite Hf2, Hx2, Hx1, Hy2, Hy1, Hm2, Hm1, <-!app_assoc. done.
Qed.

Lemma mt_on_optimizer_returns m n vis t inv enough `{!ModelOptimizerOk M O cs inv enough} :
  mt_inv vis t → inv (mt_optimizer t) → (0 < n)%Z →
  ∃ r t', mt_on_optimizer (find_maximums m (NInt n) vis) t = (Ret r, t') ∧
    mt_inv vis t' ∧ inv (mt_optimizer t') ∧
    (∃ cs' o', t' = mt_set_optimizer o' (mt_set_space cs' t)) ∧
    (∀ l, r = Some l → NoDup l ∧ (zlen l ≤ n)%Z ∧ Forall (λ p, good_pt cs p ∧ p ∉ vis) l) ∧
    (∀ k, enough (S k) (mt_optimizer t) → r ≠ None ∧ enough k (mt_optimizer t')).
Proof.
  intros [Hok Hc Hv Hnd Hval Htr Hpt Hpl] Hinv Hn.
  destruct (find_maximums_ok m n vis (mt_space t) (mt_optimizer t) Hok Hc Hinv Hval Hn)
    as (r & cs2 & o2 & Hrun & Hok2 & Hc2 & Hinv2 & Hl & Hen).
  exists r, (mt_set_optimizer o2 (mt_set_space cs2 t)). unfold mt_on_optimizer. rewrite Hrun.
  split; [done|]. split; [by split|]. split; [done|]. split; [eauto|]. split; [exact Hl|exact Hen].
Qed.

(** No diversity filter: the ratio is [None] or zero. *)
Definition no_filter t : Prop := match mt_ratio t with Some r => num_truth r = false | None => True end.

(** Is a new plan due after [xs] observations, the best of which is [m]? *)
Definition plan_due t (xs : list Z) (m : flt) : bool :=
  bool_decide (mt_plan_size t * (mt_train_ct t + 1) ≤ zlen xs)%Z && fltb f_1e_6 m.

(** The model can be fitted. *)
Definition fits : Prop := ∀ xs ys p m, ∃ m', cm_fit (R := R) xs ys p m = (Ret tt, m' : M).

Lemma mt_plan_returns vis t inv enough `{!ModelOptimizerOk M O cs inv enough} :
  mt_inv vis t → inv (mt_optimizer t) → no_filter t →
  ∃ r t', mt_plan (R := R) t = (Ret (option_map TList r), t') ∧
    mt_inv vis t' ∧ inv (mt_optimizer t') ∧
    (∃ cs' o', t' = mt_set_optimizer o' (mt_set_space cs' t)) ∧
    (∀ l, r = Some l → NoDup l ∧ (zlen l ≤ mt_plan_size t)%Z ∧ Forall (λ p, good_pt cs p ∧ p ∉ vis) l) ∧
    (∀ k, enough (S k) (mt_optimizer t) → r ≠ None ∧ enough k (mt_optimizer t')).
Proof.
  intros Hi Hinv Hnf. destruct (mi_plan _ _ Hi) as [Hn _].
  destruct (mt_on_optimizer_returns (mt_cost_model t) (mt_plan_size t) vis t inv enough Hi Hinv Hn)
    as (r & t' & Hrun & Hi' & Hinv' & Hf & Hl).
  exists r, t'. split; [|done].
  unfold mt_plan, sbind at 1, sget. unfold no_filter in Hnf.
  destruct (mt_ratio t) as [q|]; [rewrite Hnf|]; unfold sbind; rewrite (mi_visited _ _ Hi), Hrun; done.
Qed.

Lemma mt_update_returns pairs vis t inv enough `{!ModelOptimizerOk M O cs inv enough} :
  fits → mt_inv vis t → inv (mt_optimizer t) → no_filter t → Forall wf_pair pairs →
  let xs := mt_xs t ++ (ce_index <$> pairs.*1) in
  let m := max_flops pairs.*2 (mt_flops_max t) in
  let vis' := visit_all pairs vis in
  ∃ b t', mt_update (R := R) flop pairs t = (Ret b, t') ∧ mt_inv vis' t' ∧ inv (mt_optimizer t') ∧
    mt_ratio t' = mt_ratio t ∧
    mt_xs t' = xs ∧ mt_ys t' = mt_ys t ++ (mt_score <$> pairs.*2) ∧ mt_flops_max t' = m ∧
    (∀ k, enough (S k) (mt_optimizer t) → b = true ∧ enough k (mt_optimizer t')) ∧
    if plan_due t xs m then
      b = true → ∃ l, mt_trials t' = TList l ∧ mt_trial_pt t' = 0%Z ∧ mt_train_ct t' = (mt_train_ct t + 1)%Z ∧
        NoDup l ∧ (zlen l ≤ mt_plan_size t)%Z ∧ Forall (λ p, good_pt cs p ∧ p ∉ vis') l
    else b = true ∧ mt_fixed t' = mt_fixed t.
Proof.
  intros Hfit Hi Hinv Hnf Hp xs m vis'.
  destruct (mt_observe_all pairs vis t Hi Hp) as (t1 & Hr1 & Hi1 & Hf1 & Hx1 & Hy1 & Hm1).
  pose proof Hf1 as [= Hpl Hcm Hop Hra Htr Hpt Hct Hit].
  unfold mt_update, sbind at 1. rewrite Hr1. unfold sbind at 1, sget.
  rewrite Hpl, Hct, Hx1, Hm1. fold xs m. unfold plan_due.
  destruct (bool_decide _ && _); last first.
  { exists true, t1. split_and!; try done; [by rewrite Hop|]. intros k Hk. split; [done|].
    rewrite Hop. by apply enough_less. }
  destruct (Hfit xs (mt_ys t1) (mt_plan_size t) (mt_cost_model t1)) as [cm Hcm'].
  unfold sbind at 1, mt_on_model. rewrite Hcm'. set (t2 := mt_set_model cm t1).
  assert (mt_inv vis' t2) as Hi2 by (by destruct Hi1).
  destruct (mt_plan_returns vis' t2 inv enough Hi2) as (r & t3 & Hr3 & Hi3 & Hinv3 & (cs' & o' & Ht3) & Hl & Hen);
    [simpl; by rewrite Hop|unfold no_filter; simpl; by rewrite Hra|].
  unfold sbind at 1. rewrite Hr3. destruct r as [l|]; simpl option_map; cbv iota.
  - destruct (Hl l eq_refl) as (Hnd & Hlen & Hall).
    eexists true, _. split; [done|]. split.
    { destruct Hi3. split; try done. simpl. eapply Forall_impl; [exact Hall|]. by intros ? [? _]. }
    rewrite Ht3 in *. split_and!; try done; simpl; try congruence.
    { intros k Hk. split; [done|]. apply Hen. simpl. by rewrite Hop. }
    intros _. exists l. split_and!; try done; simpl; [congruence|]. by rewrite <-Hpl.
  - exists false, t3. split; [done|]. split; [exact Hi3|]. rewrite Ht3 in *.
    split_and!; try done; simpl; try congruence.
    intros k Hk. exfalso. destruct (Hen k) as [? _]; [simpl; by rewrite Hop|done].
Qed.

(** Batches of the given sizes, each measured and learned from. *)
Fixpoint tune_rounds (measure : ConfigEntity → mresult) (rounds : list (nat * list (list Z))) :
    ST MT (option (list ConfigEntity)) :=
  match rounds with
  | [] => sret (Some [])
  | (n, draws) :: rounds' =>
      let! o := mt_next_batch n None draws in
      match o with
      | None => sret None
      | Some cfgs =>
          let! b := mt_update (R := R) flop ((λ c, (c, measure c)) <$> cfgs) in
          if b then let! r := tune_rounds measure rounds' in sret (option_map (app cfgs) r)
          else sret None
      end
  end.

Lemma visit_all_id (new : list Z) (measure : ConfigEntity → mresult) vis :
  Forall (λ i, i ∈ vis) new →
  visit_all ((λ c, (c, measure c)) <$> (config_at cs <$> new)) vis = vis.
Proof.
  unfold visit_all. induction 1 as [|i new Hi Hnew IH]; [done|]. csimpl. unfold set_add at 2. simpl.
  by rewrite bool_decide_true by done.
Qed.

Lemma mt_fixed_rest t t' : mt_rest t' = mt_rest t →
  mt_optimizer t' = mt_optimizer t ∧ mt_ratio t' = mt_ratio t.
Proof. unfold mt_rest. by intros [= _ _ -> -> _ _ _ _ _ _]. Qed.

(** C7: a model based tuner without diversity filter tries no configuration
    twice and no invalid one, whatever plans its optimizer makes within its
    contract ([ModelOptimizerOk]) and whatever is measured, as long as the cost model
    can be fitted and a result has times exactly when it has no error: batches of sizes [n1, n2, ...], each followed by an update,
    never fail and hand out [n1 + n2 + ...] new configurations, or all that are
    left when there are fewer.  They do hand them out, and do not stop for want
    of draws, when every batch has a list of draws per configuration that hits
    every valid index and the optimizer has the draws for a call per batch. *)
Theorem tune_rounds_spec measure vis t inv enough (rounds : list (nat * list (list Z)))
    `{!ModelOptimizerOk M O cs inv enough} :
  fits → (∀ c, wf_result (measure c)) → mt_inv vis t → inv (mt_optimizer t) → no_filter t →
  ∃ o t', tune_rounds measure rounds t = (Ret o, t') ∧
    (∀ cfgs, o = Some cfgs → ∃ new, cfgs = config_at cs <$> new ∧
      NoDup new ∧ Forall (λ i, good_pt cs i ∧ i ∉ vis) new ∧
      length new = Nat.min (sum_list rounds.*1)
                     (length (valid_in cs 0 (size_of (space_map cs))) - length vis) ∧
      mt_inv (vis ++ new) t') ∧
    (enough (length rounds) (mt_optimizer t) →
     Forall (λ r, r.1 ≤ length r.2 ∧ Forall covers r.2) rounds → is_Some o).
Proof.
  intros Hfit Hme. revert vis t. induction rounds as [|[n draws] rounds IH]; intros vis t Hi Hinv Hnf.
  { exists (Some []), t. split; [done|]. split; [|by eexists]. intros ? [= <-]. exists []. rewrite app_nil_r.
    split_and!; try done. constructor. }
  cbn [tune_rounds].
  destruct (mt_next_batch_returns n None draws vis t Hi) as (o & t1 & Hr1 & Hf1 & Hs1 & Hl1).
  unfold sbind at 1. rewrite Hr1. destruct o as [cfgs|]; last first.
  { exists None, t1. split; [done|]. split; [done|]. intros _ [[Hn Hcov] _]%Forall_cons.
    by destruct (Hl1 Hn Hcov). }
  destruct (Hs1 cfgs eq_refl) as (new & -> & Hi1 & Hlen1).
  destruct (mt_fixed_rest t t1 Hf1) as [Hop1 Hra1].
  destruct (mt_update_returns ((λ c, (c, measure c)) <$> (config_at cs <$> new)) (vis ++ new) t1 inv enough)
    as (b & t2 & Hr2 & Hi2 & Hinv2 & Hra2 & _ & _ & _ & Hen & _);
    [done|done|by rewrite Hop1|unfold no_filter; by rewrite Hra1| |].
  { rewrite Forall_fmap, Forall_fmap. apply Forall_forall. intros i Hin. split; [apply Hme|].
    simpl. pose proof (mi_valid _ _ Hi1) as Hv. rewrite Forall_forall in Hv. set_solver. }
  rewrite visit_all_id in Hi2 by (apply Forall_forall; set_solver).
  rewrite Hop1 in Hen. unfold sbind at 1. rewrite Hr2. destruct b; last first.
  { exists None, t2. split; [done|]. split; [done|]. intros Hk. by destruct (Hen _ Hk). }
  destruct (IH (vis ++ new) t2 Hi2 Hinv2) as (o & t3 & Hr3 & Hs3 & Hl3).
  { unfold no_filter. by rewrite Hra2, Hra1. }
  exists (option_map (app (config_at cs <$> new)) o), t3. unfold sbind. rewrite Hr3. split; [done|]. split; last first.
  { intros Hk [_ Hrs]%Forall_cons. destruct (Hen _ Hk) as [_ Hk2].
    destruct (Hl3 Hk2 Hrs) as [x ->]. by eexists. }
  intros cfgs Hcf. destruct o as [cfgs'|]; [|done]. injection Hcf as <-.
  destruct (Hs3 cfgs' eq_refl) as (new' & -> & Hnd' & Hnew' & Hlen' & Hi3).
  exists (new ++ new'). rewrite fmap_app, app_assoc. split; [done|].
  pose proof (mi_NoDup _ _ Hi1) as Hnd. apply NoDup_app in Hnd as (_ & Hdis & Hndn).
  pose proof (mi_valid _ _ Hi1) as Hval. apply Forall_app in Hval as [_ Hval].
  rewrite Forall_forall in Hval, Hnew'. split_and!.
  - apply NoDup_app. split; [done|]. split; [|done]. intros x Hx Hx'. destruct (Hnew' x Hx'). set_solver.
  - apply Forall_app. split; apply Forall_forall; intros x Hx.
    + split; [by apply Hval|]. intros Hv. by apply (Hdis x).
    + destruct (Hnew' x Hx). set_solver.
  - rewrite length_app, Hlen', length_app, Hlen1. cbn. lia.
  - done.
Qed.

(** ** The filtered plan *)

(** Is [0 * x] a zero? *)
Definition finite (x : flt) : Prop := ∃ b, fmul f0 x = S754_zero b.

(** With a diversity filter the new plan is a choice of [plan_size] of the
    candidates that the optimizer found among the indices not visited, made
    by the number of new knob values; but when the optimizer finds fewer
    candidates than [plan_size], which its contract allows, [update] fails with
    [ValueError], and with none at all with [IndexError]. *)
Theorem diversity_plan_spec vis t z inv enough (score : M → Z → flt)
    `{!ModelOptimizerOk M O cs inv enough, !CostModelOk M R score} :
  mt_inv vis t → inv (mt_optimizer t) → mt_ratio t = Some (NInt z) → (1 ≤ z)%Z →
  (∀ m p, finite (score m p)) → length (space_lens cs) ≤ 1000 →
  ∃ o t' r t2, mt_on_optimizer (find_maximums (mt_cost_model t) (NInt (mt_plan_size t * z)) vis) t = (Ret o, t') ∧
    mt_plan (R := R) t = (r, t2) ∧
    match o with
    | None => r = Ret None
    | Some candidate =>
        (zlen candidate ≤ mt_plan_size t * z)%Z ∧ Forall (λ p, good_pt cs p ∧ p ∉ vis) candidate ∧
        if bool_decide (candidate = []) then r = Raise IndexError
        else if bool_decide (mt_plan_size t ≤ zlen candidate)%Z then
          ∃ plan, r = Ret (Some (TArray plan)) ∧ NoDup plan ∧ zlen plan = mt_plan_size t ∧
            Forall (λ p, p ∈ candidate) plan
        else r = Raise ValueError
    end.
Proof.
  intros Hi Hinv Hra Hz Hfin Hdim. destruct (mi_plan _ _ Hi) as [Hpl _].
  destruct (mt_on_optimizer_returns (mt_cost_model t) (mt_plan_size t * z) vis t inv enough Hi Hinv ltac:(nia))
    as (o & t' & Hrun & Hi' & _ & _ & Hl & _).
  exists o, t'. unfold mt_plan, sbind at 1, sget. rewrite Hra.
  replace (num_truth (NInt z)) with true by (simpl; destruct (Z.eqb_spec z 0); [lia|done]).
  simpl num_mul. rewrite (mi_visited _ _ Hi). unfold sbind at 1. rewrite Hrun.
  destruct o as [cand|]; [|by exists (Ret None), t'].
  destruct (Hl cand eq_refl) as (Hnd & Hlen & Hall).
  pose proof Hi' as [Hok' Hc' _ _ _ _ _ _]. destruct (same_core_fields _ _ Hc') as (Hsm' & _).
  assert (space_lens (mt_space t') = space_lens cs) as Hsl by (unfold space_lens; by rewrite Hsm').
  pose proof (points2knobs_returns cand _ Hok') as Hkn. rewrite Hsl in Hkn.
  destruct (mt_on_space_returns _ vis t' _ Hi' Hkn) as (cs2 & Hr2 & _).
  unfold sbind at 1. rewrite Hr2, (cm_predict_score _ cand).
  set (scores := fmul f0 <$> (score (mt_cost_model t) <$> cand)).
  set (knobs := digits (space_lens cs) <$> cand).
  assert (length scores = length knobs) as Hsk by (unfold scores, knobs; by rewrite !length_fmap).
  assert (Forall (λ s, ∃ b, s = S754_zero b) scores) as Hzero.
  { unfold scores. rewrite !Forall_fmap. apply Forall_true. intros p. apply Hfin. }
  assert (Forall (λ k, length k = length (space_lens cs)) knobs) as Hwk.
  { unfold knobs. rewrite Forall_fmap. apply Forall_true. intros p. apply length_digits. }
  pose proof (submodular_pick_returns scores knobs _ (mt_plan_size t) Hzero Hsk Hwk Hdim) as Hpick.
  unfold sbind at 1, slift. destruct cand as [|c0 cand].
  { rewrite (Hpick : submodular_pick scores knobs (mt_plan_size t) f1 = Raise IndexError).
    eexists _, _. split; [done|]. split; [done|]. split_and!; done. }
  set (l := c0 :: cand) in *. rewrite (bool_decide_false (l = [])) by done.
  change (match knobs with [] => ?a | _ => ?b end) with b in Hpick.
  assert (zlen knobs = zlen l) as Hzk by (unfold knobs, zlen; by rewrite length_fmap).
  rewrite Hzk in Hpick. case_bool_decide as Hle.
  - destruct Hpick as (picks & -> & Hpl' & Hpnd & Hpf & _). unfold sbind, slift.
    destruct (np_take_spec l picks Hnd) as (plan & -> & Hpd & Hplen & Hpin).
    { eapply Forall_impl; [exact Hpf|]. intros x. unfold index_of, scores, zlen. by rewrite !length_fmap. }
    { done. }
    eexists _, _. split; [done|]. split; [done|]. split_and!; [done|done|].
    exists plan. split_and!; [done|done| |done]. unfold zlen. rewrite Hplen, Hpl'. lia.
  - rewrite Hpick. eexists _, _. split; [done|]. split; [done|]. by split_and!.
Qed.
End MT.

(** ** Metrics *)

(** [max_curve] is the running maximum, from -1e9. *)
Lemma max_curve_lookup l i :
  i < length l → max_curve l !! i = Some (foldl fmax (fsub f0 f_1e9) (take (S i) l)).
Proof.
  unfold max_curve. generalize (fsub f0 f_1e9). revert i.
  induction l as [|x l IH]; intros i a Hi; simpl in Hi; [lia|].
  destruct i as [|i]; [done|]. simpl. apply IH. lia.
Qed.

(** [k] is the number of ranks covered without a gap: 0 to [k - 1] are in the
    list and [k] is not. *)
Definition covered (ranks : list Z) (k : Z) : Prop :=
  (0 ≤ k)%Z ∧ (∀ r, (0 ≤ r < k)%Z → r ∈ ranks) ∧ k ∉ ranks.

Lemma cover_step_spec cover fuel : ∀ keep,
  (-1 ≤ keep)%Z → (∀ r, (0 ≤ r ≤ keep)%Z → r ∈ cover) → NoDup cover →
  (zlen cover ≤ keep + 1 + Z.of_nat fuel)%Z →
  covered cover (cover_step fuel cover keep + 1).
Proof.
  assert (∀ keep, (-1 ≤ keep)%Z → (∀ r, (0 ≤ r ≤ keep)%Z → r ∈ cover) → NoDup cover →
    (keep + 1)%Z ∈ cover → (keep + 1 < zlen cover)%Z) as Hmore.
  { intros keep Hk Hall Hnd Hin. assert (range 0 (keep + 2) ⊆+ cover) as Hsub.
    { apply NoDup_submseteq; [apply NoDup_seqZ|]. intros r Hr%elem_of_range.
      destruct (decide (r = keep + 1)%Z) as [->|]; [done|]. apply Hall. lia. }
    apply submseteq_length in Hsub. unfold range in Hsub. rewrite length_seqZ in Hsub.
    unfold zlen. lia. }
  induction fuel as [|fuel IH]; intros keep Hk Hall Hnd Hlen; cbn [cover_step].
  - split; [lia|]. split; [intros r Hr; apply Hall; lia|]. intros Hin.
    pose proof (Hmore keep Hk Hall Hnd Hin). lia.
  - case_bool_decide as Hin.
    + apply IH; [lia| |done|lia]. intros r Hr.
      destruct (decide (r = keep + 1)%Z) as [->|]; [done|]. apply Hall. lia.
    + split; [lia|]. split; [intros r Hr; apply Hall; lia|done].
Qed.

(** The numerators of [cover_curve]: after each trial, how many of the best
    ranks have been tried. *)
Lemma cover_loop_lookup l : ∀ cover keep i,
  (-1 ≤ keep)%Z → (∀ r, (0 ≤ r ≤ keep)%Z → r ∈ cover) → NoDup cover → i < length l →
  ∃ k, cover_loop cover keep l !! i = Some k ∧ covered (cover ++ take (S i) l) k.
Proof.
  induction l as [|x l IH]; intros cover keep i Hk Hall Hnd Hi; simpl in Hi; [lia|].
  cbn [cover_loop]. set (cover' := set_add x cover).
  assert (∀ r, r ∈ cover' ↔ r ∈ cover ++ [x]) as Hc'.
  { intros r. unfold cover'. rewrite elem_of_set_add. set_solver. }
  pose proof (cover_step_spec cover' (length cover') keep Hk) as Hc.
  destruct Hc as (H0 & H1 & H2).
  { intros r Hr. apply Hc', elem_of_app. left. by apply Hall. }
  { by apply set_add_NoDup. }
  { unfold zlen. lia. }
  destruct i as [|i].
  - eexists. split; [done|]. split; [done|]. simpl. split.
    + intros r Hr. rewrite take_0, <-Hc'. by apply H1.
    + by rewrite take_0, <-Hc'.
  - destruct (IH cover' (cover_step (length cover') cover' keep) i) as (k & Hk' & H3 & H4 & H5);
      [lia|intros r Hr; apply H1; lia|by apply set_add_NoDup|lia|].
    exists k. split; [done|]. split; [done|]. split.
    + intros r Hr. specialize (H4 r Hr). apply elem_of_app in H4 as [Hr'|Hr'];
        [apply Hc', elem_of_app in Hr' as [?|?]|]; simpl; set_solver.
    + intros Hin. apply H5. simpl in Hin. rewrite elem_of_app, Hc'. set_solver.
Qed.

(** [recall_curve] counts the ranks before trial [i] only, and divides by
    [i + 1]: for a perfect ranking it is [i / (i + 1)], where the comment of the
    function gives 1. *)
Lemma recall_perfect n i :
  (i < n)%nat →
  recall_curve (range 0 (Z.of_nat n)) None !! i =
    Some (fdiv_raw (f_of_Z (Z.of_nat i)) (f_of_Z (Z.of_nat i + 1))).
Proof.
  intros Hi. unfold recall_curve. rewrite list_lookup_fmap.
  assert (length (range 0 (Z.of_nat n)) = n) as Hn by (unfold range; rewrite length_seqZ; lia).
  rewrite Hn, lookup_seq_lt by done. simpl. do 3 f_equal. unfold count_upto.
  assert (filter (λ r, (r ≤ Z.of_nat i)%Z) (take i (range 0 (Z.of_nat n))) = take i (range 0 (Z.of_nat n))) as ->.
  { apply filter_id. apply Forall_lookup. intros k r Hr. apply lookup_take_Some in Hr as [Hr Hk].
    unfold range in Hr. apply lookup_seqZ in Hr as [-> _]. lia. }
  unfold zlen. rewrite length_take, Hn. lia.
Qed.
