(* ===== verification/Tracker.v ===== *)
(** * The RPC tracker

    Wire format and keys (rpc/base.py), the priority scheduler, the connection
    handlers and the tracker that routes requests to schedulers
    (rpc/tracker.py, rpc/tornado_util.py).
    Sources: src/python/tvm/rpc/{base,tracker,tornado_util}.py. *)

From S2P Require Import Prelude PyFloat PyText.

(** ** Wire format *)

Abbreviation bytes := (list Z).

(** [struct.pack("<i", z)]. *)
Definition pack_i32 (z : Z) : py bytes :=
  if bool_decide (- 2 ^ 31 ≤ z < 2 ^ 31)%Z then
    let u := (z `mod` 2 ^ 32)%Z in
    Ret [u `mod` 256; (u `div` 256) `mod` 256; (u `div` 65536) `mod` 256; u `div` 16777216]%Z
  else Raise StructError.

(** [struct.unpack("<i", b)[0]]. *)
Definition unpack_i32 (b : bytes) : py Z :=
  match b with
  | [b0; b1; b2; b3] =>
      let u := (b0 + 256 * b1 + 65536 * b2 + 16777216 * b3)%Z in
      Ret (if bool_decide (u < 2 ^ 31)%Z then u else u - 2 ^ 32)%Z
  | _ => Raise StructError
  end.

Definition RPC_MAGIC : Z := 1045105.
Definition RPC_TRACKER_MAGIC : Z := 193137.

(** A blocking socket: the segments still to be received. *)
Definition sock := list bytes.

(** [sock.recv(n)]: at most [n] bytes of the next segment; no bytes when the
    peer has closed. *)
Definition recv (n : nat) : ST sock bytes := λ s,
  match s with
  | [] => (Ret [], [])
  | seg :: s' =>
      (Ret (take n seg), match drop n seg with [] => s' | rest => rest :: s' end)
  end.

(** [recvall]: every chunk has a byte, so [nbytes] iterations are enough. *)
Fixpoint recvall_loop (fuel : nat) (nbytes nread : nat) (res : list bytes) : ST sock bytes :=
  if bool_decide (nread < nbytes) then
    match fuel with
    | O => sraise RecursionError
    | S fuel' =>
        let! chunk := recv (Nat.min (nbytes - nread) 1024) in
        match chunk with
        | [] => sraise IOError
        | _ => recvall_loop fuel' nbytes (nread + length chunk) (res ++ [chunk])
        end
    end
  else sret (concat res).

Definition recvall (nbytes : nat) : ST sock bytes := recvall_loop nbytes nbytes 0 [].

Section Codec.
(** [json.dumps] followed by the (ASCII) encoding, and [json.loads] of [py_str]. *)
Context {A : Type} (dumps : A → bytes) (loads : bytes → option A).

(** [sendjson]: the bytes put on the wire. *)
Definition sendjson (data : A) : py bytes :=
  let? h := pack_i32 (zlen (dumps data)) in Ret (h ++ dumps data).

(** [recvjson]. *)
Definition recvjson : ST sock A :=
  let! h := recvall 4 in
  let! size := slift (unpack_i32 h) in
  let! d := recvall (Z.to_nat size) in
  match loads d with Some a => sret a | None => sraise JSONDecodeError end.
End Codec.

(** ** Keys *)

(** [random_key]: the first drawn key that is not in the conflict map. *)
Fixpoint random_key (prefix delimiter : string) (cmap : list string) (draws : list string) :
    option string :=
  match draws with
  | [] => None
  | d :: draws' =>
      let key := prefix +:+ delimiter +:+ d in
      if bool_decide (key ∈ cmap) then random_key prefix delimiter cmap draws' else Some key
  end.

(** [split_random_key]; unpacking the single part of a key without the
    delimiter is a [ValueError]. *)
Definition split_random_key (key : string) : py (string * string) :=
  match rsplit1 ":" key with Some pr => Ret pr | None => Raise ValueError end.

(** ** State *)

(** A resource [(conn, addr, port, matchkey)]; connections are named by ids. *)
Record value := mkValue { v_conn : nat; v_addr : json; v_port : json; v_key : string }.

(** A queued request [(-priority, count, callback)]; the callback closes over
    the requesting connection only. *)
Record req := mkReq { r_neg : Z; r_cnt : Z; r_conn : nat }.

Record sched := mkSched { s_cnt : Z; s_values : list value; s_requests : list req }.

(** What is written back to a client. *)
Inductive reply :=
  | RMagic
  | RCode (code : Z)
  | RResource (addr port : json) (matchkey : string)
  | RKeys (keys : list string)
  | RSummary (queue : list (string * (Z * Z))) (servers : list (list (string * json))).

(** A connection: the socket ([c_sock] while it is open, [c_broken] when sending
    on it fails), the receive buffer, and what it registered. *)
Record conn := mkConn {
  c_sock : bool;
  c_broken : bool;
  c_addr : json;
  c_init : Z;
  c_data : bytes;
  c_msg_size : Z;
  c_info : list (string * json);
  c_pending : list string;
  c_put : list value;
  c_out : list reply
}.

Record tracker := mkTracker {
  t_conns : gmap nat conn;
  t_connections : list nat;
  t_scheds : list (string * sched);
  t_stop_key : json;
  t_running : bool
}.

(** [TCPEventHandler.__init__]. *)
Definition TCPEventHandler_init (broken : bool) (addr : json) : conn :=
  mkConn true broken addr 4 [] 0 [] [] [] [].

(** Accepting a connection in [TrackerServerHandler._on_event].  Writes to a [broken]
    connection fail, from the start; one that breaks later is not modelled. *)
Definition accept (id : nat) (broken : bool) (addr : json) (w : tracker) : tracker :=
  mkTracker (<[id := TCPEventHandler_init broken addr]> (t_conns w))
    (t_connections w ++ [id]) (t_scheds w) (t_stop_key w) (t_running w).

(** Field updates. *)
Definition upd_conn (id : nat) (f : conn → conn) : ST tracker unit := λ w,
  match t_conns w !! id with
  | None => (Raise KeyError, w)
  | Some c => (Ret tt, mkTracker (<[id := f c]> (t_conns w)) (t_connections w) (t_scheds w)
                         (t_stop_key w) (t_running w))
  end.

Definition get_conn (id : nat) : ST tracker conn := λ w,
  match t_conns w !! id with None => (Raise KeyError, w) | Some c => (Ret c, w) end.

Definition set_conns (l : list nat) (w : tracker) : tracker :=
  mkTracker (t_conns w) l (t_scheds w) (t_stop_key w) (t_running w).

Definition set_sched (key : string) (s : sched) (w : tracker) : tracker :=
  mkTracker (t_conns w) (t_connections w) (od_set (t_scheds w) key s) (t_stop_key w) (t_running w).

Definition get_sched (key : string) : ST tracker sched := λ w,
  match od_get (t_scheds w) key with None => (Raise KeyError, w) | Some s => (Ret s, w) end.

Definition c_set_sock (b : bool) (c : conn) : conn :=
  mkConn b (c_broken c) (c_addr c) (c_init c) (c_data c) (c_msg_size c) (c_info c)
    (c_pending c) (c_put c) (c_out c).
Definition c_set_buf (init : Z) (data : bytes) (size : Z) (c : conn) : conn :=
  mkConn (c_sock c) (c_broken c) (c_addr c) init data size (c_info c) (c_pending c) (c_put c) (c_out c).
Definition c_set_info (info : list (string * json)) (c : conn) : conn :=
  mkConn (c_sock c) (c_broken c) (c_addr c) (c_init c) (c_data c) (c_msg_size c) info
    (c_pending c) (c_put c) (c_out c).
Definition c_set_reg (pending : list string) (put : list value) (c : conn) : conn :=
  mkConn (c_sock c) (c_broken c) (c_addr c) (c_init c) (c_data c) (c_msg_size c) (c_info c)
    pending put (c_out c).
Definition c_send (r : reply) (c : conn) : conn :=
  mkConn (c_sock c) (c_broken c) (c_addr c) (c_init c) (c_data c) (c_msg_size c) (c_info c)
    (c_pending c) (c_put c) (c_out c ++ [r]).

#[global] Instance req_eq_dec : EqDecision req.
Proof. solve_decision. Defined.

(** ** The request heap *)

(** Tuple order on [(-priority, count, _)]; counts are distinct. *)
Definition req_ltb (a b : req) : bool :=
  (r_neg a <? r_neg b)%Z || ((r_neg a =? r_neg b)%Z && (r_cnt a <? r_cnt b)%Z).

Fixpoint heap_min (r : req) (l : list req) : req :=
  match l with [] => r | x :: l' => heap_min (if req_ltb x r then x else r) l' end.

(** [heapq.heappop]: the least item. *)
Definition heappop (l : list req) : option (req * list req) :=
  match l with
  | [] => None
  | x :: l' => let m := heap_min x l' in Some (m, remove1 m l)
  end.

#[global] Instance value_eq_dec : EqDecision value.
Proof. solve_decision. Defined.

(** ** Scheduling and closing *)

(** [PriorityScheduler.__init__]. *)
Definition PriorityScheduler_init : sched := mkSched 0 [] [].

(** [PriorityScheduler.summary]. *)
Definition sched_summary (s : sched) : Z * Z := (zlen (s_values s), zlen (s_requests s)).

Section Close.
(** The scheduling loop, called back when a removed resource leaves the queue. *)
Context (schedule : string → ST tracker unit).

(** [PriorityScheduler.remove]. *)
Definition sched_remove (key : string) (v : value) : ST tracker unit :=
  let! s := get_sched key in
  if bool_decide (v ∈ s_values s) then
    let! _ := smod (set_sched key (mkSched (s_cnt s) (remove1 v (s_values s)) (s_requests s))) in
    schedule key
  else sret tt.

(** [TrackerServerHandler.close]. *)
Definition tracker_close (id : nat) : ST tracker unit :=
  let! w := sget in
  if bool_decide (id ∈ t_connections w) then
    let! _ := smod (λ w, set_conns (remove1 id (t_connections w)) w) in
    let! c := get_conn id in
    if od_mem (c_info c) "key" then
      sfor (c_put c) (λ v,
        let! (rpc_key, _) := slift (split_random_key (v_key v)) in
        sched_remove rpc_key v)
    else sret tt
  else sraise KeyError.

(** [TCPHandler.close]. *)
Definition conn_close (id : nat) : ST tracker unit :=
  let! c := get_conn id in
  if c_sock c then
    let! _ := upd_conn id (c_set_sock false) in
    tracker_close id
  else sret tt.

(** [ret_value]: two [write_message] calls.  Sending on a broken socket closes
    the connection through [on_error], after which the second call raises. *)
Definition ret_value (id : nat) (r : reply) : ST tracker unit :=
  let! c := get_conn id in
  if negb (c_sock c) then sraise IOError else
  if c_broken c then
    let! _ := conn_close id in sraise IOError
  else upd_conn id (c_send r).

(** The callback [_cb] of a request. *)
Definition request_cb (id : nat) (v : value) : ST tracker bool := λ w,
  match t_conns w !! id with
  | None => (Raise KeyError, w)
  | Some c =>
      if negb (c_sock c) then (Ret false, w) else
      match ret_value id (RResource (v_addr v) (v_port v) (v_key v)) w with
      | (Ret _, w') => (Ret true, w')
      | (Raise IOError, w') => (Ret false, w')
      | (Raise e, w') => (Raise e, w')
      end
  end.

(** One iteration of [PriorityScheduler._schedule]; [false] ends the loop. *)
Definition schedule_step (key : string) : ST tracker bool :=
  let! s := get_sched key in
  match s_values s, heappop (s_requests s) with
  | v :: vs, Some (item, rest) =>
      let! _ := smod (set_sched key (mkSched (s_cnt s) vs rest)) in
      let! ok := request_cb (r_conn item) v in
      let! _ :=
        if (ok : bool) then
          let! owner := get_conn (v_conn v) in
          if bool_decide (v_key v ∈ c_pending owner)
          then upd_conn (v_conn v) (λ c, c_set_reg (remove1 (v_key v) (c_pending c)) (c_put c) c)
          else sraise KeyError
        else
          let! s := get_sched key in
          smod (set_sched key (mkSched (s_cnt s) (s_values s ++ [v]) (s_requests s))) in
      sret true
  | _, _ => sret false
  end.
End Close.

(** [PriorityScheduler._schedule].  Every iteration, nested ones included, pops
    a request, so the number of queued requests bounds the recursion. *)
Fixpoint schedule (fuel : nat) (key : string) : ST tracker unit :=
  match fuel with
  | O => sraise RecursionError
  | S fuel' =>
      let! more := schedule_step (schedule fuel') key in
      if more then schedule fuel' key else sret tt
  end.

(** The number of queued requests, over all schedulers. *)
Definition pending_requests (w : tracker) : nat :=
  sum_list (length ∘ s_requests <$> od_vals (t_scheds w)).

Definition run_schedule (key : string) : ST tracker unit := λ w,
  schedule (S (pending_requests w)) key w.

(** [PriorityScheduler.put] through [TrackerServerHandler.put]. *)
Definition tracker_put (key : string) (v : value) : ST tracker unit :=
  let! w := sget in
  let s := default PriorityScheduler_init (od_get (t_scheds w) key) in
  let! _ := smod (set_sched key (mkSched (s_cnt s) (s_values s ++ [v]) (s_requests s))) in
  run_schedule key.

(** [PriorityScheduler.request] through [TrackerServerHandler.request]. *)
Definition tracker_request (key : string) (priority : Z) (id : nat) : ST tracker unit :=
  let! w := sget in
  let s := default PriorityScheduler_init (od_get (t_scheds w) key) in
  let! _ := smod (set_sched key (mkSched (s_cnt s + 1) (s_values s)
                     (s_requests s ++ [mkReq (- priority) (s_cnt s) id]))) in
  run_schedule key.

(** Closing a connection at the top level. *)
Definition close_conn (id : nat) : ST tracker unit := conn_close run_schedule id.

Definition info_is_server (info : list (string * json)) : bool :=
  match od_get info "key" with Some (JStr k) => startswith k "server" | _ => false end.

(** [TrackerServerHandler.summary]. *)
Definition tracker_summary (w : tracker) : reply :=
  RSummary ((λ '(k, s), (k, sched_summary s)) <$> t_scheds w)
    (filter (λ info, info_is_server info = true)
       (omap (λ id, c_info <$> t_conns w !! id) (t_connections w))).

(** [TrackerServerHandler.stop]. *)
Definition tracker_stop : ST tracker unit :=
  let! w := sget in
  let! _ := sfor (t_connections w) close_conn in
  smod (λ w, mkTracker (t_conns w) (t_connections w) (t_scheds w) (t_stop_key w) false).

(** ** Framing *)

Section Framing.
(** [json.loads(py_str(...))] and the event handler. *)
Context {W : Type} (loads : bytes → py json) (handler : json → ST W unit).

(** The second half of an iteration of [on_message]: with the size known, take
    the frame if it is complete, handle it and go round [again]. *)
Definition msg_scan (again : ST (bytes * Z * W) unit) (data : bytes) (size : Z) (w : W) :
    py unit * (bytes * Z * W) :=
  if negb (size =? 0)%Z && (size + 4 <=? zlen data)%Z then
    let msg := pyslice data 4 (4 + size) in
    let data' := drop (slice_bound (zlen data) (4 + size)) data in
    match loads msg with
    | Raise e => (Raise e, (data', 0%Z, w))
    | Ret j =>
        match handler j w with
        | (Raise e, w') => (Raise e, (data', 0%Z, w'))
        | (Ret _, w') => again (data', 0%Z, w')
        end
    end
  else (Ret tt, (data, size, w)).

(** The loop of [on_message] on [(self._data, self._msg_size)]; a frame that is
    handled consumes at least one byte of the buffer. *)
Fixpoint msg_loop (fuel : nat) : ST (bytes * Z * W) unit := λ '(data, size, w),
  match fuel with
  | O => (Raise RecursionError, (data, size, w))
  | S fuel' =>
      if (size =? 0)%Z then
        if (4 <=? zlen data)%Z then
          match unpack_i32 (take 4 data) with
          | Raise e => (Raise e, (data, size, w))
          | Ret n => msg_scan (msg_loop fuel') data n w
          end
        else (Ret tt, (data, size, w))
      else msg_scan (msg_loop fuel') data size w
  end.

(** Appending a received chunk and running the loop. *)
Definition feed (chunk : bytes) : ST (bytes * Z * W) unit := λ '(data, size, w),
  msg_loop (S (length (data ++ chunk))) (data ++ chunk, size, w).
End Framing.

(** ** Handlers *)

(** [TrackerCode]. *)
Definition FAIL : Z := -1.
Definition SUCCESS : Z := 0.
Definition PING : Z := 1.
Definition STOP : Z := 2.
Definition PUT : Z := 3.
Definition REQUEST : Z := 4.
Definition UPDATE_INFO : Z := 5.
Definition SUMMARY : Z := 6.
Definition GET_PENDING_MATCHKEYS : Z := 7.

(** Keys are JSON strings in the protocol; other values are rejected here. *)
Definition as_str (j : json) : py string := match j with JStr s => Ret s | _ => Raise TypeError end.
Definition as_int (j : json) : py Z := match j with JInt z => Ret z | _ => Raise TypeError end.

Definition reply_to (id : nat) (r : reply) : ST tracker unit := ret_value run_schedule id r.

(** [call_handler]. *)
Definition call_handler (id : nat) (args : list json) : ST tracker unit :=
  let! code := slift (pynth args 0) in
  if decide (code = JInt PUT) then
    let! key := slift (let? k := pynth args 1 in as_str k) in
    let! (port, matchkey) := slift (let? a := pynth args 2 in
      match a with JArr [p; k] => let? k := as_str k in Ret (p, k) | _ => Raise ValueError end) in
    let! _ := upd_conn id (λ c,
      c_set_reg (if bool_decide (matchkey ∈ c_pending c) then c_pending c
                 else c_pending c ++ [matchkey]) (c_put c) c) in
    let! c := get_conn id in
    let v := match args !! 3 with
             | Some JNull | None => mkValue id (c_addr c) port matchkey
             | Some a => mkValue id a port matchkey
             end in
    let! _ := tracker_put key v in
    let! _ := upd_conn id (λ c, c_set_reg (c_pending c) (c_put c ++ [v]) c) in
    reply_to id (RCode SUCCESS)
  else if decide (code = JInt REQUEST) then
    let! key := slift (let? k := pynth args 1 in as_str k) in
    let! _ := slift (pynth args 2) in
    let! priority := slift (let? p := pynth args 3 in as_int p) in
    tracker_request key priority id
  else if decide (code = JInt PING) then reply_to id (RCode SUCCESS)
  else if decide (code = JInt GET_PENDING_MATCHKEYS) then
    let! c := get_conn id in reply_to id (RKeys (c_pending c))
  else if decide (code = JInt STOP) then
    let! w := sget in
    let! key := slift (pynth args 1) in
    if bool_decide (t_stop_key w = key) then
      let! _ := reply_to id (RCode SUCCESS) in tracker_stop
    else reply_to id (RCode FAIL)
  else if decide (code = JInt UPDATE_INFO) then
    let! info := slift (let? a := pynth args 1 in
      match a with JObj info => Ret info | _ => Raise AssertionError end) in
    let! addr := slift (match od_get info "addr" with
      | None => Raise KeyError
      | Some (JArr (a :: l)) => Ret (a, l)
      | Some (JArr []) => Raise IndexError
      | Some _ => Raise TypeError end) in
    let! _ := upd_conn id (λ c,
      let info := if decide (addr.1 = JNull) then od_set info "addr" (JArr (c_addr c :: addr.2))
                  else info in
      c_set_info (foldl (λ d '(k, v), od_set d k v) (c_info c) info) c) in
    reply_to id (RCode SUCCESS)
  else if decide (code = JInt SUMMARY) then
    let! w := sget in reply_to id (tracker_summary w)
  else close_conn id.

(** [_init_conn]: the first read must be the four magic bytes.  The connection
    is closed on a bad length or magic, and what follows then raises. *)
Definition init_conn (id : nat) (message : bytes) : ST tracker unit :=
  let! _ := if bool_decide (length message = 4) then sret tt else close_conn id in
  let! magic := slift (unpack_i32 message) in
  let! _ := if (magic =? RPC_TRACKER_MAGIC)%Z then sret tt else close_conn id in
  let! c := get_conn id in
  let! _ := if negb (c_sock c) then sraise IOError
            else if c_broken c then close_conn id
            else upd_conn id (c_send RMagic) in
  upd_conn id (λ c, c_set_buf 0 (c_data c) (c_msg_size c) c).

(** [on_message]. *)
Definition on_message (loads : bytes → py json) (id : nat) (message : bytes) : ST tracker unit := λ w,
  match t_conns w !! id with
  | None => (Raise KeyError, w)
  | Some c =>
      if negb (c_init c =? 0)%Z then init_conn id message w else
      let handle (j : json) := match j with JArr args => call_handler id args | _ => sraise TypeError end in
      let '(r, (data, size, w')) := feed loads handle message (c_data c, c_msg_size c, w) in
      match upd_conn id (c_set_buf 0 data size) w' with
      | (Ret _, w'') => (r, w'')
      | (Raise e, w'') => (Raise e, w'')
      end
  end.

(** [_update_read] on received bytes, with the error handling around
    [on_message]: an [IOError] closes the connection, an empty read too. *)
Definition update_read (loads : bytes → py json) (id : nat) (msg : bytes) : ST tracker unit := λ w,
  match msg with
  | [] => close_conn id w
  | _ =>
      match on_message loads id msg w with
      | (Raise IOError, w') => close_conn id w'
      | r => r
      end
  end.
