(* ===== verification/TrackerSpec.v ===== *)
(** * Correctness of the RPC tracker

    Wire round trips, reassembly of frames from arbitrary chunks, termination
    and quiescence of the scheduler, and the order in which requests are served. *)

From S2P Require Import Prelude PyFloat PyText Tracker.

(** ** Integers and receiving *)

Lemma pack_unpack z b : pack_i32 z = Ret b → unpack_i32 b = Ret z ∧ length b = 4.
Proof.
  unfold pack_i32. case_bool_decide as Hz; [|done]. intros [= <-]. split; [|done].
  set (u := (z `mod` 2 ^ 32)%Z). unfold unpack_i32.
  assert (u `mod` 256 + 256 * ((u `div` 256) `mod` 256) + 65536 * ((u `div` 65536) `mod` 256)
    + 16777216 * (u `div` 16777216) = u)%Z as ->.
  { assert ((u `div` 256) `div` 256 = u `div` 65536)%Z as E1 by (by rewrite Z.div_div).
    assert ((u `div` 65536) `div` 256 = u `div` 16777216)%Z as E2 by (by rewrite Z.div_div).
    pose proof (Z.div_mod u 256). pose proof (Z.div_mod (u `div` 256) 256).
    pose proof (Z.div_mod (u `div` 65536) 256). lia. }
  f_equal. unfold u. pose proof (Z.mod_pos_bound z (2 ^ 32)). case_bool_decide as Hu.
  - destruct (decide (0 ≤ z)%Z); [apply Z.mod_small; lia|].
    rewrite <-(Z.mod_add z 1), Z.mod_small in Hu by lia. lia.
  - destruct (decide (0 ≤ z)%Z); [rewrite Z.mod_small in Hu by lia; lia|].
    rewrite <-(Z.mod_add z 1), Z.mod_small by lia. lia.
Qed.

Abbreviation segments s := (Forall (λ seg : bytes, seg ≠ []) s).

Lemma recv_spec n s :
  segments s → s ≠ [] → 0 < n →
  ∃ chunk s', recv n s = (Ret chunk, s') ∧ chunk ≠ [] ∧ length chunk ≤ n ∧
    chunk ++ concat s' = concat s ∧ segments s'.
Proof.
  intros Hseg Hne Hn. destruct s as [|seg s]; [done|]. apply Forall_cons in Hseg as [Hs Hseg].
  exists (take n seg), (match drop n seg with [] => s | rest => rest :: s end).
  split; [done|]. split; [destruct seg, n; try done; lia|].
  split; [rewrite length_take; lia|].
  pose proof (take_drop n seg) as Htd. destruct (drop n seg) eqn:E; simpl.
  - rewrite app_nil_r in Htd. by rewrite Htd.
  - split; [|by constructor]. by rewrite <-Htd at 2; rewrite <-app_assoc.
Qed.

Lemma recvall_loop_spec fuel : ∀ n nread res s,
  segments s → nread ≤ n → n - nread ≤ fuel →
  if bool_decide (n - nread ≤ length (concat s)) then
    ∃ s', recvall_loop fuel n nread res s = (Ret (concat res ++ take (n - nread) (concat s)), s') ∧
      concat s' = drop (n - nread) (concat s) ∧ segments s'
  else ∃ s', recvall_loop fuel n nread res s = (Raise IOError, s').
Proof.
  induction fuel as [|fuel IH]; intros n nread res s Hseg Hle Hfuel.
  - assert (n - nread = 0) as -> by lia. rewrite bool_decide_true by lia. exists s.
    cbn [recvall_loop]. rewrite bool_decide_false by lia. simpl. by rewrite app_nil_r.
  - cbn [recvall_loop]. destruct (bool_decide_reflect (nread < n)) as [Hlt|Hge]; last first.
    { replace (n - nread) with 0 by lia. rewrite bool_decide_true by lia. exists s.
      simpl. by rewrite app_nil_r. }
    destruct (decide (s = [])) as [->|Hne].
    { simpl. rewrite bool_decide_false by lia. by exists []. }
    destruct (recv_spec (Nat.min (n - nread) 1024) s Hseg Hne ltac:(lia))
      as (chunk & s1 & Hr & Hcne & Hcl & Hcat & Hseg1).
    unfold sbind. rewrite Hr. destruct chunk as [|x chunk']; [done|].
    set (chunk := x :: chunk') in *. assert (0 < length chunk) by (simpl; lia).
    specialize (IH n (nread + length chunk) (res ++ [chunk]) s1 Hseg1 ltac:(lia) ltac:(lia)).
    rewrite <-Hcat, length_app in *.
    replace (bool_decide (n - nread ≤ length chunk + length (concat s1)))
      with (bool_decide (n - (nread + length chunk) ≤ length (concat s1)))
      by (apply bool_decide_ext; lia).
    case_bool_decide; [|done]. destruct IH as (s' & -> & Hs' & ?). exists s'.
    rewrite concat_app. cbn [concat]. rewrite app_nil_r, <-app_assoc.
    rewrite (take_app_ge chunk), (drop_app_ge chunk) by lia.
    replace (n - nread - length chunk) with (n - (nread + length chunk)) by lia. done.
Qed.

Lemma recvall_returns n s :
  segments s → n ≤ length (concat s) →
  ∃ s', recvall n s = (Ret (take n (concat s)), s') ∧ concat s' = drop n (concat s) ∧ segments s'.
Proof.
  intros Hseg Hn. pose proof (recvall_loop_spec n n 0 [] s Hseg ltac:(lia) ltac:(lia)) as Hr.
  rewrite Nat.sub_0_r, bool_decide_true in Hr by done. exact Hr.
Qed.

(** C20: [recvjson] reads back exactly the value [sendjson] wrote and leaves
    the bytes that follow, however the stream is cut into segments. *)
Theorem json_wire_roundtrip {A} (dumps : A → bytes) (loads : bytes → option A) data msg rest s :
  loads (dumps data) = Some data → sendjson dumps data = Ret msg →
  segments s → concat s = msg ++ rest →
  ∃ s', recvjson loads s = (Ret data, s') ∧ concat s' = rest.
Proof.
  intros Hinv Hsend Hseg Hcat. unfold sendjson in Hsend.
  apply pbind_Ret in Hsend as (h & Hh & [= <-]). destruct (pack_unpack _ _ Hh) as [Hu Hl].
  destruct (recvall_returns 4 s Hseg) as (s1 & H1 & Hc1 & Hseg1); [rewrite Hcat, !length_app; lia|].
  rewrite Hcat, <-app_assoc in *. rewrite take_app_length' in H1 by done.
  rewrite drop_app_length' in Hc1 by done.
  unfold recvjson, sbind. rewrite H1. unfold slift. rewrite Hu.
  assert (Z.to_nat (zlen (dumps data)) = length (dumps data)) as -> by (unfold zlen; lia).
  destruct (recvall_returns (length (dumps data)) s1 Hseg1) as (s2 & H2 & Hc2 & _);
    [rewrite Hc1, length_app; lia|].
  rewrite Hc1, take_app_length in H2. rewrite Hc1, drop_app_length in Hc2.
  rewrite H2, Hinv. by exists s2.
Qed.

(** ** Keys *)

(** A generated key splits back into its prefix, even when that has colons. *)
Lemma split_random_key_inv prefix cmap draws key :
  Forall (λ d, str_mem ":" d = false) draws →
  random_key prefix ":" cmap draws = Some key →
  ∃ d, split_random_key key = Ret (prefix, d) ∧ key ∉ cmap.
Proof.
  induction 1 as [|d draws Hd _ IH]; simpl; [done|]. case_bool_decide as Hin; [done|].
  intros [= <-]. exists d. split; [|done]. unfold split_random_key.
  change (prefix +:+ ":" +:+ d) with (prefix +:+ String ":" d). by rewrite rsplit1_app.
Qed.

(** ** Frames *)

Section Frames.
Context {W : Type} (loads : bytes → py json) (handler : json → ST W unit).

(** Chunks received one after the other. *)
Fixpoint feed_all (chunks : list bytes) : ST (bytes * Z * W) unit :=
  match chunks with
  | [] => sret tt
  | c :: chunks' => let! _ := feed loads handler c in feed_all chunks'
  end.

(** A message as it travels: its length, not zero, then its bytes. *)
Definition framed (m : bytes) (fr : bytes) : Prop :=
  m ≠ [] ∧ ∃ h, pack_i32 (zlen m) = Ret h ∧ fr = h ++ m.

(** Handling the messages in order. *)
Definition handle_all (ms : list bytes) : ST W unit :=
  sfor ms (λ m, let! j := slift (loads m) in handler j).

(** The buffer holds a strict prefix of the frames still to come; the cached
    size is that of the first of them, once its header has arrived. *)
Definition partial (data : bytes) (size : Z) (ms : list bytes) : Prop :=
  (size = 0%Z ∧ length data < 4) ∨
  (∃ m ms', ms = m :: ms' ∧ size = zlen m ∧ 4 ≤ length data ∧ (zlen data < size + 4)%Z).

Lemma pyslice_mid {A} (h m r : list A) :
  pyslice (h ++ m ++ r) (zlen h) (zlen h + zlen m) = m.
Proof.
  unfold pyslice, slice_bound. pose proof (zlen_nonneg h). pose proof (zlen_nonneg m).
  pose proof (zlen_nonneg r). rewrite !zlen_app. rewrite !bool_decide_false by lia.
  rewrite !Z.min_l by lia. unfold zlen. rewrite Nat2Z.id, drop_app_length.
  replace (Z.to_nat _ - length h) with (length m) by lia. by rewrite take_app_length.
Qed.

Lemma drop_slice_bound {A} (h m r : list A) :
  drop (slice_bound (zlen (h ++ m ++ r)) (zlen h + zlen m)) (h ++ m ++ r) = r.
Proof.
  unfold slice_bound. pose proof (zlen_nonneg h). pose proof (zlen_nonneg m).
  pose proof (zlen_nonneg r). rewrite !zlen_app, bool_decide_false by lia.
  rewrite Z.min_l by lia. rewrite app_assoc. apply drop_app_length'.
  rewrite length_app. unfold zlen. lia.
Qed.

(** What a run of the loop on the buffer achieves: a prefix [ms1] of the
    messages is handled and the rest is still to come. *)
Definition consumes (run : ST (bytes * Z * W) unit) (data : bytes) (size : Z) (tail : bytes)
    (ms : list bytes) (w w' : W) : Prop :=
  ∃ ms1 ms2 frs2 data' size' w1, ms = ms1 ++ ms2 ∧ Forall2 framed ms2 frs2 ∧
    data' ++ tail = concat frs2 ∧ handle_all ms1 w = (Ret tt, w1) ∧
    handle_all ms2 w1 = (Ret tt, w') ∧ partial data' size' ms2 ∧
    run (data, size, w) = (Ret tt, (data', size', w1)).

Lemma prefix_split {A} (a b c d : list A) :
  a ++ b = c ++ d → length c ≤ length a → ∃ e, a = c ++ e ∧ e ++ b = d.
Proof.
  intros Heq Hle. exists (drop (length c) a).
  assert (take (length c) a = c) as Ht.
  { rewrite <-(take_app_le a b), Heq by lia. by rewrite take_app_length. }
  split; [by rewrite <-Ht at 1; rewrite take_drop|].
  rewrite <-drop_app_le, Heq by lia. by rewrite drop_app_length.
Qed.

Lemma msg_scan_frames again h m d tail ms frs w w' :
  framed m (h ++ m) → pack_i32 (zlen m) = Ret h → Forall2 framed ms frs →
  d ++ tail = m ++ concat frs → handle_all (m :: ms) w = (Ret tt, w') →
  (∀ r w2, length r < length (h ++ d) → r ++ tail = concat frs →
     handle_all ms w2 = (Ret tt, w') → consumes again r 0 tail ms w2 w') →
  consumes (λ '(data, size, w), msg_scan loads handler again data size w)
    (h ++ d) (zlen m) tail (m :: ms) w w'.
Proof.
  intros Hfr Hh Hfrs Hd Hrun Hagain. destruct (pack_unpack _ _ Hh) as [_ Hhl].
  assert (0 < zlen m)%Z as Hmpos by (destruct Hfr as [Hm _]; destruct m; [done|unfold zlen; simpl; lia]).
  assert (zlen h = 4)%Z as Hzh by (unfold zlen; lia).
  unfold consumes, msg_scan. rewrite (proj2 (Z.eqb_neq (zlen m) 0)) by lia. cbn [negb andb].
  destruct (Z.leb_spec (zlen m + 4) (zlen (h ++ d))) as [Hge|Hlt].
  - rewrite zlen_app in Hge.
    destruct (prefix_split d tail m (concat frs) Hd) as (r & -> & Hr); [unfold zlen in *; lia|].
    rewrite <-Hzh, pyslice_mid, drop_slice_bound.
    unfold handle_all in Hrun. cbn [sfor] in Hrun.
    unfold sbind at 1 2, slift in Hrun. destruct (loads m) as [j|e] eqn:Hj; [|done].
    destruct (handler j w) as [[[]|e] w2] eqn:Hh2; [|done].
    destruct (Hagain r w2) as (ms1 & ms2 & frs2 & data' & size' & w1 & -> & ? & ? & Hr1 & ? & ? & ?);
      [rewrite !length_app; lia|done|done|].
    exists (m :: ms1), ms2, frs2, data', size', w1. repeat (split; [done|]). split; [|done].
    unfold handle_all. cbn [sfor]. unfold sbind at 1 2, slift. by rewrite Hj, Hh2.
  - exists [], (m :: ms), ((h ++ m) :: frs), (h ++ d), (zlen m), w.
    split; [done|]. split; [by constructor|].
    split; [by simpl; rewrite <-!app_assoc, Hd|].
    split; [done|]. split; [done|]. split; [|done].
    right. exists m, ms. split; [done|]. split; [done|]. rewrite length_app. split; lia.
Qed.

(** Running the loop on a prefix [data] of a sequence of frames. *)
Lemma msg_loop_frames fuel : ∀ data size tail frs ms w w',
  Forall2 framed ms frs → data ++ tail = concat frs →
  size = 0%Z ∨ (∃ m ms', ms = m :: ms' ∧ size = zlen m ∧ 4 ≤ length data) →
  length data < fuel → handle_all ms w = (Ret tt, w') →
  consumes (msg_loop loads handler fuel) data size tail ms w w'.
Proof.
  induction fuel as [|fuel IH]; intros data size tail frs ms w w' Hfr Hcat Hsize Hfuel Hrun; [lia|].
  destruct (decide (length data < 4)) as [Hshort|Hlong].
  { destruct Hsize as [->|(m & ms' & _ & _ & ?)]; [|lia].
    exists [], ms, frs, data, 0%Z, w. repeat (split; [done|]). split; [by left|].
    simpl. destruct (Z.leb_spec 4 (zlen data)) as [Hz|]; [unfold zlen in Hz; lia|done]. }
  destruct Hfr as [|m fr ms frs Hfm Hfr].
  { simpl in Hcat. apply app_eq_nil in Hcat as [-> _]. simpl in Hlong. lia. }
  destruct Hfm as [Hm (h & Hh & ->)]. destruct (pack_unpack _ _ Hh) as [Hu Hhl].
  cbn [concat] in Hcat. rewrite <-app_assoc in Hcat.
  destruct (prefix_split data tail h _ Hcat) as (d & -> & Hd); [lia|].
  pose proof (msg_scan_frames (msg_loop loads handler fuel) h m d tail ms frs w w') as Hscan.
  destruct Hscan as (ms1 & ms2 & frs2 & data' & size' & w1 & ? & ? & ? & ? & ? & ? & Hs);
    [by split; eauto|done|done|done|done| |].
  { intros r w2 Hlen Hr Hrun2. apply (IH r 0%Z tail frs); try done; [by left|lia]. }
  exists ms1, ms2, frs2, data', size', w1. repeat (split; [done|]). rewrite <-Hs. cbn [msg_loop].
  destruct Hsize as [->|(m' & ms' & [= <- <-] & -> & _)].
  - simpl. destruct (Z.leb_spec 4 (zlen (h ++ d))) as [_|Hz];
      [|rewrite zlen_app in Hz; unfold zlen in Hz; lia].
    rewrite take_app_length' by done. by rewrite Hu.
  - rewrite (proj2 (Z.eqb_neq (zlen m) 0)); [done|]. destruct m; [done|unfold zlen; simpl; lia].
Qed.

Lemma feed_all_frames chunks : ∀ data size ms frs w w',
  Forall2 framed ms frs → data ++ concat chunks = concat frs → partial data size ms →
  handle_all ms w = (Ret tt, w') →
  feed_all chunks (data, size, w) = (Ret tt, ([], 0%Z, w')).
Proof.
  induction chunks as [|c chunks IH]; intros data size ms frs w w' Hfr Hcat Hpart Hrun; cbn [feed_all].
  - rewrite app_nil_r in Hcat. subst data. destruct Hpart as [[-> Hlt]|(m & ms' & -> & -> & _ & Hlt)].
    + destruct Hfr as [|m fr ms frs [Hm (h & Hh & ->)] _]; [by injection Hrun as <-|].
      exfalso. destruct (pack_unpack _ _ Hh) as [_ Hl]. simpl in Hlt. rewrite !length_app in Hlt. lia.
    + exfalso. apply Forall2_cons_inv_l in Hfr as (fr & frs' & [_ (h & Hh & ->)] & _ & ->).
      destruct (pack_unpack _ _ Hh) as [_ Hl]. simpl in Hlt. rewrite !zlen_app in Hlt.
      pose proof (zlen_nonneg (concat frs')). unfold zlen at 1 in Hlt. lia.
  - cbn [concat] in Hcat. rewrite app_assoc in Hcat.
    destruct (msg_loop_frames (S (length (data ++ c))) (data ++ c) size (concat chunks) frs ms w w')
      as (ms1 & ms2 & frs2 & data' & size' & w1 & -> & Hfr2 & Hcat2 & _ & Hrun2 & Hpart2 & Hloop);
      try done; [|lia|].
    { destruct Hpart as [[-> _]|(m & ms' & -> & -> & Hl & _)]; [by left|right].
      exists m, ms'. rewrite length_app. split; [done|]. split; [done|lia]. }
    unfold sbind, feed. rewrite Hloop. by eapply IH.
Qed.
End Frames.

(** C19: messages sent as length-prefixed frames are handled once each and in
    order, whatever the chunks in which the bytes arrive, and the buffer is
    empty at the end. *)
Theorem framing_chunk_invariant {W} (loads : bytes → py json) (handler : json → ST W unit)
    chunks ms frs w w' :
  Forall2 framed ms frs → concat chunks = concat frs →
  handle_all loads handler ms w = (Ret tt, w') →
  feed_all loads handler chunks ([], 0%Z, w) = (Ret tt, ([], 0%Z, w')).
Proof.
  intros Hfr Hcat Hrun. eapply feed_all_frames; [exact Hfr|done| |done]. left. split; [done|simpl; lia].
Qed.

(** A frame of length zero blocks its connection: whatever arrives after
    it is stored and never handled. *)
Theorem zero_frame_blocks {W} (loads : bytes → py json) (handler : json → ST W unit) data chunks w :
  feed_all loads handler chunks ([0; 0; 0; 0]%Z ++ data, 0%Z, w) =
    (Ret tt, ([0; 0; 0; 0]%Z ++ data ++ concat chunks, 0%Z, w)).
Proof.
  revert data. induction chunks as [|c chunks IH]; intros data; cbn [feed_all].
  - by rewrite app_nil_r.
  - unfold sbind, feed. cbn [concat]. rewrite <-app_assoc.
    cbn [msg_loop]. change (0 =? 0)%Z with true. cbn iota.
    destruct (Z.leb_spec 4 (zlen ([0; 0; 0; 0]%Z ++ data ++ c))) as [_|Hz];
      [|rewrite zlen_app in Hz; pose proof (zlen_nonneg (data ++ c)); unfold zlen at 1 in Hz; simpl in Hz; lia].
    simpl take. unfold unpack_i32, msg_scan. rewrite bool_decide_true by lia. simpl.
    specialize (IH (data ++ c)). simpl in IH.
    change (0 + 256 * 0 + 65536 * 0 + 16777216 * 0)%Z with 0%Z. by rewrite IH, <-!app_assoc.
Qed.

(** ** Termination of the scheduler *)

Lemma heap_min_elem r l : heap_min r l ∈ r :: l.
Proof.
  revert r. induction l as [|x l IH]; intros r; simpl; [left|].
  destruct (req_ltb x r); [specialize (IH x)|specialize (IH r)]; set_solver.
Qed.

Lemma heappop_length l item rest : heappop l = Some (item, rest) → S (length rest) = length l ∧ item ∈ l.
Proof.
  destruct l as [|x l]; [done|]. unfold heappop. intros [= <- <-]. pose proof (heap_min_elem x l).
  split; [|done]. rewrite <-(length_remove1 (heap_min x l) (x :: l)) by done. done.
Qed.

Lemma pending_set_sched key s0 s w :
  od_get (t_scheds w) key = Some s0 →
  pending_requests (set_sched key s w) + length (s_requests s0) =
    pending_requests w + length (s_requests s).
Proof.
  unfold pending_requests, set_sched, od_vals. simpl.
  induction (t_scheds w) as [|[k s'] d IH]; simpl; [done|]. case_decide; csimpl.
  - intros [= ->]. lia.
  - intros Hd. specialize (IH Hd). simpl in *. lia.
Qed.

(** [m] neither runs out of fuel nor queues requests, below [n] of them. *)
Definition fine {A} (n : nat) (m : ST tracker A) : Prop :=
  ∀ w r w', pending_requests w < n → m w = (r, w') →
    r ≠ Raise RecursionError ∧ pending_requests w' ≤ pending_requests w.

Lemma fine_bind {A B} n (m : ST tracker A) (k : A → ST tracker B) :
  fine n m → (∀ a, fine n (k a)) → fine n (sbind m k).
Proof.
  intros Hm Hk w r w' Hw. unfold sbind. destruct (m w) as [[a|e] w1] eqn:E.
  - destruct (Hm w _ _ Hw E) as [_ Hle]. intros Hr.
    destruct (Hk a w1 r w' ltac:(lia) Hr) as [? ?]. split; [done|lia].
  - intros [= <- <-]. destruct (Hm w _ _ Hw E) as [Hne Hle]. split; [congruence|lia].
Qed.

Lemma fine_pure {A} n (m : ST tracker A) :
  (∀ w, (m w).1 ≠ Raise RecursionError ∧ t_scheds (m w).2 = t_scheds w) → fine n m.
Proof.
  intros H w r w' _ Hr. specialize (H w). rewrite Hr in H. destruct H as [? Hs].
  split; [done|]. unfold pending_requests. simpl in Hs. by rewrite Hs.
Qed.

Lemma fine_sfor {A} n (body : A → ST tracker unit) l :
  (∀ x, fine n (body x)) → fine n (sfor l body).
Proof.
  intros Hb. induction l as [|x l IH]; [by apply fine_pure|]. by apply fine_bind.
Qed.

(** Steps that leave the schedulers alone. *)
Ltac fine_atom :=
  apply fine_pure; intros ?; unfold sret, sraise, sget, smod, slift, get_conn, upd_conn, get_sched;
  repeat case_match; simpl; done.

Section FineClose.
Context (n : nat) (sch : string → ST tracker unit) (Hsch : ∀ key, fine n (sch key)).

Lemma fine_sched_remove key v : fine n (sched_remove sch key v).
Proof.
  intros w r w' Hw. unfold sched_remove, sbind, get_sched.
  destruct (od_get (t_scheds w) key) as [s|] eqn:Es; [|intros [= <- <-]; split; [done|lia]].
  case_bool_decide; [|intros [= <- <-]; split; [done|lia]]. unfold smod. intros Hr.
  pose proof (pending_set_sched key s (mkSched (s_cnt s) (remove1 v (s_values s)) (s_requests s)) w Es)
    as Hp. simpl in Hp.
  apply (Hsch key) in Hr; [|lia]. destruct Hr as [? ?]. split; [done|lia].
Qed.

Lemma fine_conn_close id : fine n (conn_close sch id).
Proof.
  unfold conn_close. apply fine_bind; [fine_atom|]. intros c. destruct (c_sock c); [|fine_atom].
  apply fine_bind; [fine_atom|]. intros _. unfold tracker_close.
  apply fine_bind; [fine_atom|]. intros w. case_bool_decide; [|fine_atom].
  apply fine_bind; [fine_atom|].
  intros _. apply fine_bind; [fine_atom|]. intros c'. destruct (od_mem _ _); [|fine_atom].
  apply fine_sfor. intros v. apply fine_bind.
  { apply fine_pure. intros w1. unfold slift, split_random_key. by case_match. }
  intros [k ?]. apply fine_sched_remove.
Qed.

Lemma fine_ret_value id r : fine n (ret_value sch id r).
Proof.
  unfold ret_value. apply fine_bind; [fine_atom|]. intros c. destruct (c_sock c); [|fine_atom]. simpl.
  destruct (c_broken c); [|fine_atom].
  apply fine_bind; [apply fine_conn_close|]. intros _. fine_atom.
Qed.

Lemma fine_request_cb id v : fine n (request_cb sch id v).
Proof.
  intros w r w' Hw. unfold request_cb. destruct (t_conns w !! id) as [c|]; last first.
  { intros [= <- <-]. split; [done|lia]. }
  destruct (c_sock c); simpl; [|intros [= <- <-]; split; [done|lia]].
  destruct (ret_value _ _ _ w) as [res w1] eqn:E.
  destruct (fine_ret_value _ _ w _ _ Hw E) as [Hne Hle].
  destruct res as [?|[]]; intros [= <- <-]; split; done || congruence.
Qed.

(** An iteration pops a request before anything else. *)
Lemma fine_step key w r w' :
  pending_requests w < S n → schedule_step sch key w = (r, w') →
  r ≠ Raise RecursionError ∧ pending_requests w' ≤ pending_requests w ∧
  (r = Ret true → pending_requests w' < n).
Proof.
  intros Hw. unfold schedule_step, sbind at 1, get_sched at 1.
  destruct (od_get (t_scheds w) key) as [s|] eqn:Es; [|intros [= <- <-]; split; [done|]; split; [lia|done]].
  destruct (s_values s) as [|v vs]; [intros [= <- <-]; split; [done|]; split; [lia|done]|].
  destruct (heappop (s_requests s)) as [[item rest]|] eqn:Eh;
    [|intros [= <- <-]; split; [done|]; split; [lia|done]].
  unfold sbind at 1, smod at 1. intros Hr.
  pose proof (pending_set_sched key s (mkSched (s_cnt s) vs rest) w Es) as Hp.
  destruct (heappop_length _ _ _ Eh) as [Hl _]. simpl in Hp.
  assert (fine n (let! ok := request_cb sch (r_conn item) v in
    let! _ := if (ok : bool) then
        let! owner := get_conn (v_conn v) in
        if bool_decide (v_key v ∈ c_pending owner)
        then upd_conn (v_conn v) (λ c, c_set_reg (remove1 (v_key v) (c_pending c)) (c_put c) c)
        else sraise KeyError
      else
        let! s := get_sched key in
        smod (set_sched key (mkSched (s_cnt s) (s_values s ++ [v]) (s_requests s))) in
    sret true)) as Hfine.
  { apply fine_bind; [apply fine_request_cb|]. intros ok. apply fine_bind; [|intros _; fine_atom].
    destruct ok.
    - apply fine_bind; [fine_atom|]. intros owner. case_bool_decide; fine_atom.
    - intros w1 r1 w2 Hw1. unfold sbind, get_sched.
      destruct (od_get (t_scheds w1) key) as [s1|] eqn:Es1; [|intros [= <- <-]; split; [done|lia]].
      intros [= <- <-]. split; [done|].
      pose proof (pending_set_sched key s1 (mkSched (s_cnt s1) (s_values s1 ++ [v]) (s_requests s1)) w1 Es1)
        as Hp1. simpl in Hp1. lia. }
  apply Hfine in Hr; [|lia]. destruct Hr as [? ?]. split; [done|]. split; [lia|intros; lia].
Qed.
End FineClose.

Lemma fine_schedule fuel : ∀ key, fine fuel (schedule fuel key).
Proof.
  induction fuel as [|fuel IH]; intros key w r w' Hw; [lia|]. cbn [schedule].
  unfold sbind. destruct (schedule_step _ key w) as [res w1] eqn:E.
  destruct (fine_step fuel (schedule fuel) IH key w _ _ Hw E) as (Hne & Hle & Hgo).
  destruct res as [[]|e].
  - intros Hr. destruct (IH key w1 r w' ltac:(auto) Hr) as [? ?]. split; [done|lia].
  - intros [= <- <-]. split; [done|lia].
  - intros [= <- <-]. split; [congruence|lia].
Qed.

Lemma fine_run_schedule n key : fine n (run_schedule key).
Proof. intros w r w' _ Hr. apply (fine_schedule (S (pending_requests w)) key w r w'); [lia|done]. Qed.

(** Scheduling terminates: putting a resource, requesting one and closing a
    connection never exhaust the bound given by the number of queued requests,
    although a failed delivery closes a connection and re-enters the scheduler. *)
Theorem scheduling_terminates w key v priority id :
  (tracker_put key v w).1 ≠ Raise RecursionError ∧
  (tracker_request key priority id w).1 ≠ Raise RecursionError ∧
  (close_conn id w).1 ≠ Raise RecursionError.
Proof.
  split_and!.
  - unfold tracker_put, sbind, sget, smod. match goal with |- (run_schedule _ ?x).1 ≠ _ => set (w1 := x) end.
    destruct (run_schedule key w1) as [r w2] eqn:E.
    by destruct (fine_run_schedule (S (pending_requests w1)) key w1 r w2 ltac:(lia) E).
  - unfold tracker_request, sbind, sget, smod.
    match goal with |- (run_schedule _ ?x).1 ≠ _ => set (w1 := x) end.
    destruct (run_schedule key w1) as [r w2] eqn:E.
    by destruct (fine_run_schedule (S (pending_requests w1)) key w1 r w2 ltac:(lia) E).
  - destruct (close_conn id w) as [r w2] eqn:E.
    by destruct (fine_conn_close (S (pending_requests w)) run_schedule (fine_run_schedule _) id w r w2
      ltac:(lia) E).
Qed.

(** ** Quiescence *)

(** No scheduler other than [k0]'s has both a free resource and a request. *)
Definition idle_but (k0 : string) (w : tracker) : Prop :=
  ∀ key s, key ≠ k0 → od_get (t_scheds w) key = Some s → s_values s = [] ∨ s_requests s = [].

Definition idle (w : tracker) : Prop :=
  ∀ key s, od_get (t_scheds w) key = Some s → s_values s = [] ∨ s_requests s = [].

Lemma idle_all w : idle w ↔ ∀ k0, idle_but k0 w.
Proof.
  split; [by intros Hw k0 key s _; apply Hw|]. intros Hw key s Hs.
  destruct (decide (key = "")) as [->|Hne]; [by apply (Hw "a" "" s)|by apply (Hw "" key s)].
Qed.

Lemma idle_but_set k0 key s w :
  idle_but k0 w → (key ≠ k0 → s_values s = [] ∨ s_requests s = []) →
  idle_but k0 (set_sched key s w).
Proof.
  intros Hw Hs key' s' Hne. unfold set_sched. simpl. rewrite od_get_set. case_decide.
  - subst. intros [= <-]. by apply Hs.
  - by apply Hw.
Qed.

(** [m] keeps every scheduler but [k0]'s idle, even when it raises. *)
Definition keeps {A} (k0 : string) (m : ST tracker A) : Prop :=
  ∀ w r w', idle_but k0 w → m w = (r, w') → idle_but k0 w'.

Lemma keeps_bind {A B} k0 (m : ST tracker A) (k : A → ST tracker B) :
  keeps k0 m → (∀ a, keeps k0 (k a)) → keeps k0 (sbind m k).
Proof.
  intros Hm Hk w r w' Hw. unfold sbind. destruct (m w) as [[a|e] w1] eqn:E.
  - intros Hr. by eapply Hk, Hr; eapply Hm.
  - intros [= <- <-]. by eapply Hm.
Qed.

Lemma keeps_pure {A} k0 (m : ST tracker A) : (∀ w, t_scheds (m w).2 = t_scheds w) → keeps k0 m.
Proof.
  intros H w r w' Hw Hr key s. specialize (H w). rewrite Hr in H. simpl in H. rewrite H. apply Hw.
Qed.

Lemma keeps_sfor {A} k0 (body : A → ST tracker unit) l :
  (∀ x, keeps k0 (body x)) → keeps k0 (sfor l body).
Proof. intros Hb. induction l as [|x l IH]; [by apply keeps_pure|]. by apply keeps_bind. Qed.

Ltac keeps_atom :=
  apply keeps_pure; intros ?; unfold sret, sraise, sget, smod, slift, get_conn, upd_conn, get_sched;
  repeat case_match; simpl; done.

Section KeepClose.
Context (k0 : string) (sch : string → ST tracker unit) (Hsch : ∀ key, keeps k0 (sch key)).

Lemma keeps_sched_remove key v : keeps k0 (sched_remove sch key v).
Proof.
  intros w r w' Hw. unfold sched_remove, sbind, get_sched.
  destruct (od_get (t_scheds w) key) as [s|] eqn:Es; [|by intros [= <- <-]].
  case_bool_decide as Hin; [|by intros [= <- <-]]. unfold smod. intros Hr.
  eapply Hsch; [|exact Hr]. apply idle_but_set; [done|]. intros Hne. right. simpl.
  destruct (Hw key s Hne Es) as [Hnil|?]; [|done]. rewrite Hnil in Hin. set_solver.
Qed.

Lemma keeps_conn_close id : keeps k0 (conn_close sch id).
Proof.
  unfold conn_close. apply keeps_bind; [keeps_atom|]. intros c. destruct (c_sock c); [|keeps_atom].
  apply keeps_bind; [keeps_atom|]. intros _. unfold tracker_close.
  apply keeps_bind; [keeps_atom|]. intros w. case_bool_decide; [|keeps_atom].
  apply keeps_bind; [keeps_atom|].
  intros _. apply keeps_bind; [keeps_atom|]. intros c'. destruct (od_mem _ _); [|keeps_atom].
  apply keeps_sfor. intros v. apply keeps_bind; [keeps_atom|].
  intros [k ?]. apply keeps_sched_remove.
Qed.

Lemma keeps_ret_value id r : keeps k0 (ret_value sch id r).
Proof.
  unfold ret_value. apply keeps_bind; [keeps_atom|]. intros c. destruct (c_sock c); [|keeps_atom]. simpl.
  destruct (c_broken c); [|keeps_atom].
  apply keeps_bind; [apply keeps_conn_close|]. intros _. keeps_atom.
Qed.

Lemma keeps_request_cb id v : keeps k0 (request_cb sch id v).
Proof.
  intros w r w' Hw. unfold request_cb. destruct (t_conns w !! id) as [c|]; [|by intros [= <- <-]].
  destruct (c_sock c); simpl; [|by intros [= <- <-]].
  destruct (ret_value _ _ _ w) as [res w1] eqn:E. pose proof (keeps_ret_value _ _ w _ _ Hw E) as Hk.
  by destruct res as [?|[]]; intros [= <- <-].
Qed.
End KeepClose.

(** An iteration for [key] only disturbs that scheduler; it stops only when
    that scheduler is idle too, and does nothing on an idle one. *)
Lemma step_keeps sch key k0 w r w' :
  (∀ k, keeps k0 (sch k)) → idle_but k0 w → schedule_step sch key w = (r, w') →
  idle_but k0 w' ∧ (r = Ret false → idle_but key w' → idle w') ∧
  (key ≠ k0 → w' = w ∧ r ≠ Ret true).
Proof.
  intros Hsch Hw. unfold schedule_step, sbind at 1, get_sched at 1.
  destruct (od_get (t_scheds w) key) as [s|] eqn:Es; [|by intros [= <- <-]].
  assert (∀ (b : bool), (s_values s = [] ∨ s_requests s = []) → idle_but key w → idle w) as Hidle.
  { intros _ Hs Hb key' s' Hs'. destruct (decide (key' = key)) as [->|]; [by simplify_eq|by eapply Hb]. }
  destruct (s_values s) as [|v vs] eqn:Ev.
  { intros [= <- <-]. split; [done|]. split; [|done]. intros _. apply (Hidle true). by left. }
  destruct (heappop (s_requests s)) as [[item rest]|] eqn:Eh; last first.
  { intros [= <- <-]. split; [done|]. split; [|done]. intros _. apply (Hidle true). right.
    by destruct (s_requests s). }
  destruct (decide (key = k0)) as [->|Hne]; last first.
  { destruct (Hw key s Hne Es) as [?|Hr]; [congruence|]. by rewrite Hr in Eh. }
  unfold sbind at 1, smod at 1. intros Hr. split; [|split; [|done]].
  - eapply (keeps_bind k0); [| | |exact Hr]; [by apply keeps_request_cb| |by apply idle_but_set].
    intros ok. apply keeps_bind; [|intros _; keeps_atom]. destruct ok.
    + apply keeps_bind; [keeps_atom|]. intros owner. case_bool_decide; keeps_atom.
    + apply keeps_bind; [keeps_atom|]. intros s1 w1 r1 w2 Hw1 [= <- <-]. by apply idle_but_set.
  - intros ->. exfalso. unfold sbind in Hr.
    repeat case_match; simplify_eq.
Qed.

Lemma schedule_keeps fuel : ∀ key k0 w r w',
  idle_but k0 w → schedule fuel key w = (r, w') →
  idle_but k0 w' ∧ (r = Ret tt → k0 = key → idle w').
Proof.
  induction fuel as [|fuel IH]; intros key k0 w r w' Hw; cbn [schedule]; [by intros [= <- <-]|].
  unfold sbind. destruct (schedule_step _ key w) as [res w1] eqn:E.
  assert (∀ k, keeps k0 (schedule fuel k)) as Hk.
  { intros k w2 r2 w3 Hw2 Hr2. by destruct (IH k k0 w2 r2 w3 Hw2 Hr2). }
  destruct (step_keeps (schedule fuel) key k0 w res w1 Hk Hw E) as (Hb & Hstop & _).
  destruct res as [[]|e].
  - intros Hr. by apply (IH key k0 w1).
  - intros [= <- <-]. split; [done|]. intros _ ->. by apply Hstop.
  - by intros [= <- <-].
Qed.

Lemma run_schedule_keeps k0 key : keeps k0 (run_schedule key).
Proof. intros w r w' Hw Hr. by destruct (schedule_keeps _ key k0 w r w' Hw Hr). Qed.

(** [m] leaves the tracker idle when it returns. *)
Definition quiet {A} (m : ST tracker A) : Prop :=
  ∀ w a w', idle w → m w = (Ret a, w') → idle w'.

Lemma quiet_bind {A B} (m : ST tracker A) (k : A → ST tracker B) :
  quiet m → (∀ a, quiet (k a)) → quiet (sbind m k).
Proof.
  intros Hm Hk w b w' Hw Hr. apply sbind_Ret in Hr as (a & w1 & H1 & H2). by eapply Hk, H2; eapply Hm.
Qed.

Lemma quiet_keeps {A} (m : ST tracker A) : (∀ k0, keeps k0 m) → quiet m.
Proof. intros Hm w a w' Hw Hr. apply idle_all. intros k0. eapply Hm; [|exact Hr]. by apply idle_all. Qed.

Ltac quiet_atom := apply quiet_keeps; intros ?; keeps_atom.

Lemma quiet_close id : quiet (close_conn id).
Proof. apply quiet_keeps. intros k0. apply keeps_conn_close. intros. apply run_schedule_keeps. Qed.

Lemma quiet_reply id r : quiet (reply_to id r).
Proof. apply quiet_keeps. intros k0. apply keeps_ret_value. intros. apply run_schedule_keeps. Qed.

Lemma run_schedule_quiet key w r w' :
  idle_but key w → run_schedule key w = (Ret r, w') → idle w'.
Proof. intros Hw Hr. destruct r. by destruct (schedule_keeps _ key key w _ w' Hw Hr) as [_ ?]; auto. Qed.

Lemma quiet_put key v : quiet (tracker_put key v).
Proof.
  intros w a w' Hw Hr. unfold tracker_put, sbind, sget, smod in Hr.
  eapply run_schedule_quiet; [|exact Hr]. apply idle_but_set; [by apply idle_all|done].
Qed.

Lemma quiet_request key p id : quiet (tracker_request key p id).
Proof.
  intros w a w' Hw Hr. unfold tracker_request, sbind, sget, smod in Hr.
  eapply run_schedule_quiet; [|exact Hr]. apply idle_but_set; [by apply idle_all|done].
Qed.

Lemma quiet_sfor {A} (body : A → ST tracker unit) l : (∀ x, quiet (body x)) → quiet (sfor l body).
Proof. intros Hb. induction l as [|x l IH]; [quiet_atom|]. by apply quiet_bind. Qed.

#[local] Hint Resolve quiet_close quiet_reply quiet_put quiet_request : core.

Ltac quiet_auto :=
  repeat first
    [ progress auto
    | apply quiet_bind; [|intros ?]
    | case_match
    | quiet_atom ].

Lemma quiet_call_handler id args : quiet (call_handler id args).
Proof.
  unfold call_handler. apply quiet_bind; [quiet_atom|]. intros code.
  repeat case_decide; unfold tracker_stop; try (quiet_auto; fail).
  apply quiet_bind; [quiet_atom|]. intros w. apply quiet_bind; [quiet_atom|]. intros key.
  case_bool_decide; [|auto]. apply quiet_bind; [auto|]. intros _. apply quiet_bind; [quiet_atom|].
  intros w2. apply quiet_bind; [by apply quiet_sfor|]. intros _. quiet_atom.
Qed.

Lemma quiet_init_conn id m : quiet (init_conn id m).
Proof. unfold init_conn. quiet_auto. Qed.

Lemma msg_loop_quiet loads handler : (∀ j, quiet (handler j)) → ∀ fuel data size w a data' size' w',
  idle w → msg_loop loads handler fuel (data, size, w) = (Ret a, (data', size', w')) → idle w'.
Proof.
  intros Hh. induction fuel as [|fuel IH]; intros data size w a data' size' w' Hw; [done|].
  assert (∀ n, msg_scan loads handler (msg_loop loads handler fuel) data n w =
    (Ret a, (data', size', w')) → idle w') as Hscan.
  { intros n. unfold msg_scan. destruct (_ && _); [|by intros [= _ _ _ <-]].
    destruct (loads _) as [j|]; [|done]. destruct (handler j w) as [[u|] w1] eqn:E; [|done].
    apply IH. by eapply Hh. }
  cbn [msg_loop]. destruct (size =? 0)%Z; [|apply Hscan].
  destruct (4 <=? zlen data)%Z; [|by intros [= _ _ _ <-]].
  destruct (unpack_i32 _); [apply Hscan|done].
Qed.

Lemma quiet_on_message loads id m : quiet (on_message loads id m).
Proof.
  intros w a w' Hw. unfold on_message. destruct (t_conns w !! id) as [c|]; [|done].
  destruct (c_init c =? 0)%Z; cbn [negb]; cbv zeta; [|by apply quiet_init_conn].
  match goal with |- context [feed loads ?h m] => set (handler := h) end.
  destruct (feed loads handler m (c_data c, c_msg_size c, w)) as [r [[data size] w1]] eqn:E.
  unfold upd_conn. destruct (t_conns w1 !! id); [|done]. intros [= -> <-].
  unfold feed in E. apply (msg_loop_quiet loads handler) in E; [exact E| |done].
  intros j. unfold handler. destruct j; try quiet_atom. apply quiet_call_handler.
Qed.

(** The events that drive the tracker, when they complete without an error. *)
Inductive tracker_step (loads : bytes → py json) : tracker → tracker → Prop :=
  | step_accept id broken addr w : tracker_step loads w (accept id broken addr w)
  | step_message id m w w' : on_message loads id m w = (Ret tt, w') → tracker_step loads w w'
  | step_close id w w' : close_conn id w = (Ret tt, w') → tracker_step loads w w'.

(** The tracker at start. *)
Definition tracker_init (stop_key : json) : tracker := mkTracker ∅ [] [] stop_key true.

(** C18: in every state reachable through connections, messages and closures
    that complete, no free resource waits together with a request for its key:
    whatever is available has been handed out. *)
Theorem tracker_quiescent loads stop_key w key s :
  rtc (tracker_step loads) (tracker_init stop_key) w → od_get (t_scheds w) key = Some s →
  s_values s = [] ∨ s_requests s = [].
Proof.
  intros Hreach. assert (idle w) as Hw; [|apply Hw].
  assert (idle (tracker_init stop_key)) as H0 by done.
  induction Hreach as [w|w w1 w2 Hstep _ IH]; [done|]. apply IH.
  destruct Hstep as [id broken addr w|id m w w' Hr|id w w' Hr].
  - done.
  - by eapply quiet_on_message.
  - by eapply quiet_close.
Qed.

(** ** Serving order *)

(** The order of the heap: higher priority first, then earlier request. *)
Definition req_before (a b : req) : Prop := req_ltb b a = false.

Lemma req_before_refl a : req_before a a.
Proof. unfold req_before, req_ltb. rewrite Z.eqb_refl, !Z.ltb_irrefl. done. Qed.

Lemma req_before_trans a b c : req_before a b → req_before b c → req_before a c.
Proof.
  unfold req_before, req_ltb.
  destruct (Z.ltb_spec (r_neg b) (r_neg a)), (Z.eqb_spec (r_neg b) (r_neg a)),
    (Z.ltb_spec (r_cnt b) (r_cnt a)), (Z.ltb_spec (r_neg c) (r_neg b)),
    (Z.eqb_spec (r_neg c) (r_neg b)), (Z.ltb_spec (r_cnt c) (r_cnt b)),
    (Z.ltb_spec (r_neg c) (r_neg a)), (Z.eqb_spec (r_neg c) (r_neg a)),
    (Z.ltb_spec (r_cnt c) (r_cnt a)); simpl; try done; lia.
Qed.

Lemma heap_min_before l : ∀ r x, x ∈ r :: l → req_before (heap_min r l) x.
Proof.
  induction l as [|y l IH]; intros r x Hx; simpl.
  - apply list_elem_of_singleton in Hx as ->. apply req_before_refl.
  - destruct (req_ltb y r) eqn:E.
    + apply elem_of_cons in Hx as [->|Hx]; [|by apply IH].
      eapply req_before_trans; [apply IH; left|]. unfold req_before, req_ltb in *.
      destruct (Z.ltb_spec (r_neg y) (r_neg r)), (Z.eqb_spec (r_neg y) (r_neg r)),
        (Z.ltb_spec (r_cnt y) (r_cnt r)), (Z.ltb_spec (r_neg r) (r_neg y)),
        (Z.eqb_spec (r_neg r) (r_neg y)), (Z.ltb_spec (r_cnt r) (r_cnt y)); simpl in *; try done; lia.
    + apply elem_of_cons in Hx as [->|Hx]; [apply IH; left|].
      apply elem_of_cons in Hx as [->|Hx]; [|apply IH; by right].
      eapply req_before_trans; [apply IH; left|exact E].
Qed.

Lemma schedule_S n key :
  schedule (S n) key =
    let! more := schedule_step (schedule n) key in if more then schedule n key else sret tt.
Proof. done. Qed.

(** A resource put while requests are queued goes to the request of the
    highest priority, the earliest among equals, when that client can be
    reached: the client is sent the resource, the request leaves the queue, and
    the match key is no longer pending. *)
Theorem put_serves_best key v s r rs w c owner :
  od_get (t_scheds w) key = Some s → s_values s = [] → s_requests s = r :: rs →
  let m := heap_min r rs in
  t_conns w !! r_conn m = Some c → c_sock c = true → c_broken c = false →
  r_conn m ≠ v_conn v → t_conns w !! v_conn v = Some owner → v_key v ∈ c_pending owner →
  (∀ x, x ∈ s_requests s → req_before m x) ∧
  tracker_put key v w = (Ret tt,
    mkTracker
      (<[v_conn v := c_set_reg (remove1 (v_key v) (c_pending owner)) (c_put owner) owner]>
        (<[r_conn m := c_send (RResource (v_addr v) (v_port v) (v_key v)) c]> (t_conns w)))
      (t_connections w)
      (od_set (t_scheds w) key (mkSched (s_cnt s) [] (remove1 m (r :: rs))))
      (t_stop_key w) (t_running w)).
Proof.
  intros Hs Hv Hrs m Hc Hsock Hbroken Hne Howner Hpend.
  split; [intros x; rewrite Hrs; apply heap_min_before|].
  unfold tracker_put, sbind at 1, sget at 1. rewrite Hs. cbn [from_option id]. rewrite Hv, Hrs.
  unfold sbind at 1, smod at 1, run_schedule.
  set (w1 := set_sched key _ w).
  assert (pending_requests w1 = S (pending_requests w1 - 1)) as ->.
  { pose proof (pending_set_sched key s (mkSched (s_cnt s) ([] ++ [v]) (r :: rs)) w Hs) as Hp.
    fold w1 in Hp. rewrite Hrs in Hp. simpl in Hp.
    assert (0 < pending_requests w1); [|lia]. unfold w1, pending_requests, set_sched, od_vals. simpl.
    clear -Hs. induction (t_scheds w) as [|[k x] d IH]; simpl in *; [done|].
    case_decide; csimpl; [lia|]. specialize (IH Hs). lia. }
  set (f := pending_requests w1 - 1).
  assert (schedule_step (schedule (S f)) key w1 = (Ret true, mkTracker
      (<[v_conn v := c_set_reg (remove1 (v_key v) (c_pending owner)) (c_put owner) owner]>
        (<[r_conn m := c_send (RResource (v_addr v) (v_port v) (v_key v)) c]> (t_conns w)))
      (t_connections w)
      (od_set (t_scheds w) key (mkSched (s_cnt s) [] (remove1 m (r :: rs))))
      (t_stop_key w) (t_running w))) as Hstep.
  { unfold schedule_step, sbind, get_sched, smod, request_cb, ret_value, get_conn, upd_conn.
    unfold w1, set_sched. cbn [t_scheds t_conns]. rewrite od_get_set_eq. cbn [s_values s_requests app].
    unfold heappop. fold m. simpl t_conns. rewrite Hc, Hsock. simpl. unfold sbind. simpl.
    rewrite Hc, Hsock, Hbroken. simpl. rewrite Hc. simpl.
    rewrite lookup_insert_ne by done. rewrite Howner.
    rewrite bool_decide_true by done. simpl. rewrite lookup_insert_ne, Howner by done. simpl.
    by rewrite od_set_set. }
  rewrite schedule_S. unfold sbind. rewrite Hstep, schedule_S.
  unfold schedule_step, sbind, get_sched. simpl. rewrite od_get_set_eq. done.
Qed.

(** The same match key registered twice: the first delivery removes it from the
    pending set, the second one then fails with [KeyError] although the client
    has already been sent the resource. *)
Definition dup_tracker : tracker :=
  let c (id : nat) := TCPEventHandler_init false (JStr "host") in
  mkTracker {[0 := c 0; 1 := c 1]} [0; 1] [] JNull true.

Definition dup_run : ST tracker unit :=
  let! _ := call_handler 0 [JInt PUT; JStr "dev"; JArr [JInt 9000; JStr "dev:0.5"]] in
  let! _ := call_handler 0 [JInt PUT; JStr "dev"; JArr [JInt 9001; JStr "dev:0.5"]] in
  let! _ := call_handler 1 [JInt REQUEST; JStr "dev"; JStr ""; JInt 1] in
  call_handler 1 [JInt REQUEST; JStr "dev"; JStr ""; JInt 1].

Example duplicate_matchkey_fails : (dup_run dup_tracker).1 = Raise KeyError.
Proof. vm_compute. done. Qed.
