(* ===== verification/Proxy.v ===== *)
(** * The RPC proxy

    Connections of servers and clients that know a key are paired up, and the bytes of
    one side are forwarded to the other.
    Sources: src/python/tvm/rpc/{proxy,tornado_util,base}.py, for TCP connections
    and without a tracker. *)

From S2P Require Import Prelude PyText Tracker.

Definition RPC_CODE_SUCCESS : Z := RPC_MAGIC.
Definition RPC_CODE_DUPLICATE : Z := RPC_MAGIC + 1.
Definition RPC_CODE_MISMATCH : Z := RPC_MAGIC + 2.

(** ** Text *)

(** [py_str(b)] and [s.encode("utf-8")]; what is not ASCII is left out. *)
Fixpoint ascii_decode (b : bytes) : string :=
  match b with [] => "" | x :: b' => String (Ascii.ascii_of_N (Z.to_N x)) (ascii_decode b') end.

Definition py_str (b : bytes) : py string :=
  if forallb (λ x, (0 <=? x)%Z && (x <? 128)%Z) b then Ret (ascii_decode b) else Raise ValueError.

Fixpoint encode (s : string) : bytes :=
  match s with "" => [] | String c s' => Z.of_N (Ascii.N_of_ascii c) :: encode s' end.

(** [s[7:]]. *)
Fixpoint str_drop (n : nat) (s : string) : string :=
  match n, s with S n, String _ s' => str_drop n s' | _, _ => s end.

(** White space of [str.split()]. *)
Definition is_space (c : Ascii.ascii) : bool :=
  let n := Ascii.nat_of_ascii c in (n =? 32) || ((9 <=? n) && (n <=? 13)) || ((28 <=? n) && (n <=? 31)).

(** [s.split()[0]]. *)
Fixpoint take_word (s : string) : string :=
  match s with "" => "" | String c s' => if is_space c then "" else String c (take_word s') end.
Fixpoint first_word (s : string) : py string :=
  match s with
  | "" => Raise IndexError
  | String c s' => if is_space c then first_word s' else Ret (take_word s)
  end.

(** ** Connections *)

(** The socket of a [tornado_util.TCPHandler]: whether it is open, whether sending on it fails, the
    bytes that it takes at the moment, the messages to be written, [_signal_close], and what was sent. *)
Record psock := mkSock {
  k_open : bool;
  k_broken : bool;
  k_room : nat;
  k_pending : list bytes;
  k_signal : bool;
  k_sent : bytes
}.

(** The fields of a [ForwardHandler] that read the handshake. *)
Record parser := mkParser {
  i_message : bytes;
  i_req : Z;
  i_magic : option Z;
  i_length : option Z;
  i_key : option string
}.

Record handler := mkHandler {
  h_socket : psock;
  h_parser : parser;
  h_match : option string;
  h_forward : option nat;
  h_done : bool
}.

(** [__init__] and [_init_handler]. *)
Definition handler_init : handler :=
  mkHandler (mkSock true false 0 [] false []) (mkParser [] 4 None None None) None None false.

(** The proxy: its connections, the pools, and the callbacks of [call_later] by pool ([true] for
    the servers), key and connection. *)
Record proxy := mkProxy {
  p_handlers : gmap nat handler;
  client_pool : list (string * nat);
  server_pool : list (string * nat);
  p_timers : list (bool * string * nat)
}.

Definition proxy_init : proxy := mkProxy ∅ [] [] [].

Definition get_handler (id : nat) : ST proxy handler := λ w,
  match p_handlers w !! id with Some h => (Ret h, w) | None => (Raise KeyError, w) end.

Definition set_handler (id : nat) (h : handler) (w : proxy) : proxy :=
  mkProxy (<[id := h]> (p_handlers w)) (client_pool w) (server_pool w) (p_timers w).

Definition upd_handler (id : nat) (f : handler → handler) : ST proxy unit :=
  let! h := get_handler id in smod (set_handler id (f h)).

Definition with_socket (f : psock → psock) (h : handler) : handler :=
  mkHandler (f (h_socket h)) (h_parser h) (h_match h) (h_forward h) (h_done h).
Definition with_parser (f : parser → parser) (h : handler) : handler :=
  mkHandler (h_socket h) (f (h_parser h)) (h_match h) (h_forward h) (h_done h).
Definition with_match (k : string) (h : handler) : handler :=
  mkHandler (h_socket h) (h_parser h) (Some k) (h_forward h) (h_done h).
Definition with_forward (f : option nat) (h : handler) : handler :=
  mkHandler (h_socket h) (h_parser h) (h_match h) f (h_done h).
Definition with_done (h : handler) : handler :=
  mkHandler (h_socket h) (h_parser h) (h_match h) None true.

Definition shut (s : psock) : psock :=
  mkSock false (k_broken s) (k_room s) (k_pending s) (k_signal s) (k_sent s).
Definition signal (s : psock) : psock :=
  mkSock (k_open s) (k_broken s) (k_room s) (k_pending s) true (k_sent s).
Definition enqueue (message : bytes) (s : psock) : psock :=
  mkSock (k_open s) (k_broken s) (k_room s) (k_pending s ++ [message]) (k_signal s) (k_sent s).

(** The pool of servers or of clients. *)
Definition pool (servers : bool) (w : proxy) : list (string * nat) :=
  if servers then server_pool w else client_pool w.
Definition set_pool (servers : bool) (d : list (string * nat)) (w : proxy) : proxy :=
  if servers then mkProxy (p_handlers w) (client_pool w) d (p_timers w)
  else mkProxy (p_handlers w) d (server_pool w) (p_timers w).

(** A pool without the connection, if it is the one of its key. *)
Definition leave_pool (servers : bool) (key : string) (id : nat) (w : proxy) : proxy :=
  if bool_decide (od_get (pool servers w) key = Some id)
  then set_pool servers (od_del (pool servers w) key) w else w.

(** ** Closing *)

(** [on_close_event]. *)
Definition on_close_event (id : nat) : ST proxy unit :=
  let! h := get_handler id in
  if h_done h then sraise AssertionError else
  let! _ := match h_match h with
            | Some key =>
                let! _ := smod (leave_pool false key id) in
                smod (leave_pool true key id)
            | None => sret tt
            end in
  upd_handler id with_done.

Section Close.
Context (close : nat → ST proxy unit).

(** [signal_close]. *)
Definition signal_close_with (id : nat) : ST proxy unit :=
  let! h := get_handler id in
  match k_pending (h_socket h) with
  | [] => close id
  | _ => upd_handler id (with_socket signal)
  end.

(** [on_close]. *)
Definition on_close_with (id : nat) : ST proxy unit :=
  let! h := get_handler id in
  let! _ := match h_forward h with
            | Some f =>
                let! _ := signal_close_with f in
                upd_handler id (with_forward None)
            | None => sret tt
            end in
  on_close_event id.
End Close.

(** [TCPHandler.close]; every nested call closes another socket. *)
Fixpoint close_fuel (fuel : nat) (id : nat) : ST proxy unit :=
  match fuel with
  | 0 => sraise RecursionError
  | S fuel =>
      let! h := get_handler id in
      if k_open (h_socket h) then
        let! _ := upd_handler id (with_socket shut) in
        on_close_with (close_fuel fuel) id
      else sret tt
  end.

Definition close (id : nat) : ST proxy unit := λ w, close_fuel (S (S (size (p_handlers w)))) id w.
Definition signal_close : nat → ST proxy unit := signal_close_with close.

(** [close_pair], which is also [on_error]. *)
Definition close_pair (id : nat) : ST proxy unit :=
  let! h := get_handler id in
  let! _ := match h_forward h with
            | Some f =>
                let! _ := signal_close f in
                upd_handler id (with_forward None)
            | None => sret tt
            end in
  close id.

(** ** Writing *)

(** The socket takes [room] bytes and then is not ready: messages left, room left, and the bytes taken. *)
Fixpoint drain (room : nat) (msgs : list bytes) (sent : bytes) : list bytes * nat * bytes :=
  match msgs with
  | [] => ([], room, sent)
  | msg :: rest =>
      if length msg <=? room then drain (room - length msg) rest (sent ++ msg)
      else (drop room msg :: rest, 0, sent ++ take room msg)
  end.

Definition drained (s : psock) : psock :=
  let '(msgs, room, sent) := drain (k_room s) (k_pending s) (k_sent s) in
  mkSock (k_open s) (k_broken s) room msgs (k_signal s) sent.

(** [_update_write] of an open socket. *)
Definition update_write (id : nat) : ST proxy unit :=
  let! h := get_handler id in
  match k_pending (h_socket h) with
  | _ :: _ =>
      if negb (k_open (h_socket h)) then sret tt
      else if k_broken (h_socket h) then close_pair id
      else
        let! _ := upd_handler id (with_socket drained) in
        let! h := get_handler id in
        match k_pending (h_socket h) with
        | [] => if k_signal (h_socket h) then close id else sret tt
        | _ => sret tt
        end
  | [] => if k_signal (h_socket h) then close id else sret tt
  end.

(** [write_message], which is [send_data]. *)
Definition send_data (id : nat) (message : bytes) : ST proxy unit :=
  let! h := get_handler id in
  if negb (k_open (h_socket h)) then sraise IOError else
  let! _ := upd_handler id (with_socket (enqueue message)) in
  update_write id.

Definition send_code (id : nat) (code : Z) : ST proxy unit :=
  let! b := slift (pack_i32 code) in send_data id b.

(** ** Matching *)

(** [handler.rpc_key] once it has been read. *)
Definition rpc_key (id : nat) : ST proxy string :=
  let! h := get_handler id in
  match i_key (h_parser h) with Some k => sret k | None => sraise TypeError end.

(** The three messages that tell a side the key of the other. *)
Definition greet (id other : nat) : ST proxy unit :=
  let! _ := send_code id RPC_CODE_SUCCESS in
  let! k := rpc_key other in
  let! _ := send_code id (Z.of_nat (String.length k)) in
  send_data id (encode k).

(** [_pair_up]. *)
Definition pair_up (lhs rhs : nat) : ST proxy unit :=
  let! _ := upd_handler lhs (with_forward (Some rhs)) in
  let! _ := upd_handler rhs (with_forward (Some lhs)) in
  let! _ := greet lhs rhs in
  greet rhs lhs.

(** [_handler_ready_proxy_mode]. *)
Definition handler_ready (id : nat) : ST proxy unit :=
  let! k := rpc_key id in
  let! h := get_handler id in
  let servers := startswith k "server:" in
  match h_match h with
  | None => sraise TypeError
  | Some key =>
      let! w := sget in
      match od_get (pool (negb servers) w) key with
      | Some other =>
          let! _ := smod (λ w, set_pool (negb servers) (od_del (pool (negb servers) w) key) w) in
          pair_up other id
      | None =>
          if od_mem (pool servers w) key then
            let! _ := send_code id RPC_CODE_DUPLICATE in
            signal_close id
          else
            let! _ := smod (λ w, set_pool servers (od_set (pool servers w) key id) w) in
            smod (λ w, mkProxy (p_handlers w) (client_pool w) (server_pool w) (p_timers w ++ [(servers, key, id)]))
      end
  end.

(** The closure [cleanup]. *)
Definition cleanup (servers : bool) (key : string) (id : nat) : ST proxy unit :=
  let! w := sget in
  if bool_decide (od_get (pool servers w) key = Some id) then
    let! _ := smod (λ w, set_pool servers (od_del (pool servers w) key) w) in
    let! _ := send_code id RPC_CODE_MISMATCH in
    signal_close id
  else sret tt.

(** ** Reading *)

Definition set_req (req : Z) (p : parser) : parser := mkParser (i_message p) req (i_magic p) (i_length p) (i_key p).

(** [_init_step]. *)
Definition init_step (id : nat) (message : bytes) : ST proxy unit :=
  let! h := get_handler id in
  let p := h_parser h in
  match i_magic p, i_length p, i_key p with
  | None, _, _ =>
      let! magic := slift (unpack_i32 message) in
      let! _ := upd_handler id (with_parser (λ p, mkParser (i_message p) (i_req p) (Some magic) (i_length p) (i_key p))) in
      let! _ := if bool_decide (magic = RPC_MAGIC) then sret tt else close id in
      upd_handler id (with_parser (set_req 4))
  | Some _, None, _ =>
      let! n := slift (unpack_i32 message) in
      upd_handler id (with_parser (λ p, mkParser (i_message p) n (i_magic p) (Some n) (i_key p)))
  | Some _, Some _, None =>
      let! key := slift (py_str message) in
      let! _ := upd_handler id (with_parser (λ p, mkParser (i_message p) (i_req p) (i_magic p) (i_length p) (Some key))) in
      let! m := slift (first_word (str_drop 7 key)) in
      let! _ := upd_handler id (with_match m) in
      handler_ready id
  | _, _, _ => sraise AssertionError
  end.

(** The loop of [on_data] over the bytes of a handshake; every round takes a byte. *)
Fixpoint init_loop (fuel : nat) (id : nat) (message : bytes) : ST proxy bytes :=
  match fuel with
  | 0 => sret message
  | S fuel =>
      let! h := get_handler id in
      let p := h_parser h in
      match message with
      | [] => sret []
      | _ =>
          if (i_req p <=? zlen (i_message p))%Z then sret message else
          let nbytes := Z.to_nat (i_req p - zlen (i_message p)) in
          let have := i_message p ++ take nbytes message in
          let message := drop nbytes message in
          let! _ :=
            if (zlen have =? i_req p)%Z then
              let! _ := upd_handler id (with_parser (λ p, mkParser [] 0 (i_magic p) (i_length p) (i_key p))) in
              init_step id have
            else upd_handler id (with_parser (λ p, mkParser have (i_req p) (i_magic p) (i_length p) (i_key p))) in
          init_loop fuel id message
      end
  end.

(** [on_data]. *)
Definition on_data (id : nat) (message : bytes) : ST proxy unit :=
  let! h := get_handler id in
  match h_forward h with
  | Some f => send_data f message
  | None =>
      let! rest := init_loop (length message) id message in
      match rest with [] => sret tt | _ => close id end
  end.

(** [_update_read] of what [recv] gives; nothing is the end of the stream. *)
Definition update_read (id : nat) (chunk : bytes) : ST proxy unit := λ w,
  match chunk with
  | [] => close id w
  | _ =>
      match on_data id chunk w with
      | (Raise IOError, w') => close_pair id w'
      | r => r
      end
  end.

(** ** Events *)

Inductive event :=
  | Accept (id : nat)
  | Read (id : nat) (chunk : bytes)
  | Writable (id room : nat)
  | Break (id : nat)
  | Fail (id : nat)
  | Fire (i : nat).

Definition is_open (w : proxy) (id : nat) : Prop :=
  ∃ h, p_handlers w !! id = Some h ∧ k_open (h_socket h) = true.

(** What the event loop delivers: an open socket can be read, takes more bytes, breaks (its
    next write fails), or fails when it is read. *)
Definition enabled (w : proxy) (e : event) : Prop :=
  match e with
  | Accept id => p_handlers w !! id = None
  | Read id _ | Writable id _ | Break id | Fail id => is_open w id
  | Fire i => i < length (p_timers w)
  end.

Definition perform (e : event) : ST proxy unit :=
  match e with
  | Accept id => smod (set_handler id handler_init)
  | Read id chunk => update_read id chunk
  | Writable id room =>
      let! _ := upd_handler id (with_socket (λ s,
        mkSock (k_open s) (k_broken s) room (k_pending s) (k_signal s) (k_sent s))) in
      update_write id
  | Break id =>
      upd_handler id (with_socket (λ s, mkSock (k_open s) true (k_room s) (k_pending s) (k_signal s) (k_sent s)))
  | Fail id => close_pair id
  | Fire i =>
      let! w := sget in
      match p_timers w !! i with
      | Some (servers, key, id) =>
          let! _ := smod (λ w, mkProxy (p_handlers w) (client_pool w) (server_pool w) (delete i (p_timers w))) in
          cleanup servers key id
      | None => sret tt
      end
  end.

(** The states of the proxy; an exception in a callback is logged, and what it did before stays. *)
Inductive reachable : proxy → Prop :=
  | reach_init : reachable proxy_init
  | reach_step w e : reachable w → enabled w e → reachable (perform e w).2.

(** [enabled], decided; a run of events that are enabled. *)
Definition enabledb (w : proxy) (e : event) : bool :=
  match e with
  | Accept id => negb (bool_decide (is_Some (p_handlers w !! id)))
  | Read id _ | Writable id _ | Break id | Fail id =>
      match p_handlers w !! id with Some h => k_open (h_socket h) | None => false end
  | Fire i => i <? length (p_timers w)
  end.

Fixpoint run (es : list event) (w : proxy) : option proxy :=
  match es with
  | [] => Some w
  | e :: es => if enabledb w e then run es (perform e w).2 else None
  end.
