(* ===== verification/ProxyInv.v ===== *)
(** * The RPC proxy: the invariant of its connections *)

From S2P Require Import Prelude PyText Tracker Proxy.

(** ** The invariant *)

(** The two ends of a pair: a server and a client with the same match key. *)
Definition partners (h g : handler) : Prop :=
  ∃ k rh rg, h_match h = Some k ∧ h_match g = Some k ∧ i_key (h_parser h) = Some rh ∧ i_key (h_parser g) = Some rg ∧
    startswith rh "server:" = negb (startswith rg "server:").

(** [x] is a connection that is about to be closed. *)
Record inv (x : option nat) (w : proxy) : Prop := {
  inv_nodup s : NoDup (od_keys (pool s w));
  inv_disjoint k : k ∈ od_keys (pool true w) → k ∉ od_keys (pool false w);
  inv_pool s k id : od_get (pool s w) k = Some id → ∃ h rk, p_handlers w !! id = Some h ∧ h_match h = Some k ∧
    i_key (h_parser h) = Some rk ∧ startswith rk "server:" = s ∧ h_forward h = None ∧
    (k_open (h_socket h) = false → i_magic (h_parser h) ≠ Some RPC_MAGIC) ∧
    ∀ a g, p_handlers w !! a = Some g → h_forward g ≠ Some id;
  inv_link a h f : p_handlers w !! a = Some h → h_forward h = Some f → f ≠ a ∧ ∃ g, p_handlers w !! f = Some g ∧
    partners h g ∧ (h_forward g = Some a ∨ k_open (h_socket g) = false ∨ x = Some f);
  inv_unique a b h g f : p_handlers w !! a = Some h → p_handlers w !! b = Some g →
    h_forward h = Some f → h_forward g = Some f → a = b;
  inv_fresh a h : p_handlers w !! a = Some h → i_key (h_parser h) = None →
    h_match h = None ∧ h_forward h = None ∧ ∀ b g, p_handlers w !! b = Some g → h_forward g ≠ Some a;
  inv_parse a h : p_handlers w !! a = Some h → i_key (h_parser h) ≠ None →
    i_magic (h_parser h) ≠ None ∧ i_length (h_parser h) ≠ None;
  inv_done a h : p_handlers w !! a = Some h → h_done h = true → k_open (h_socket h) = false
}.

Lemma inv_weaken x w : inv None w → inv x w.
Proof.
  intros Hi. split; try apply Hi. intros a h f Ha Hf. destruct (inv_link _ _ Hi a h f Ha Hf) as (? & g & Hg & Hp & Hor).
  split; [done|]. exists g. split; [done|]. split; [done|]. destruct Hor as [?|[?|[=]]]; auto.
Qed.

Lemma inv_closed id w h : inv (Some id) w → p_handlers w !! id = Some h → k_open (h_socket h) = false → inv None w.
Proof.
  intros Hi Hh Hc. split; try apply Hi. intros a g f Ha Hf. destruct (inv_link _ _ Hi a g f Ha Hf) as (? & g' & Hg & Hp & Hor).
  split; [done|]. exists g'. split; [done|]. split; [done|]. destruct Hor as [?|[?|[= <-]]]; auto.
  right. left. congruence.
Qed.

(** What the operations on sockets leave alone. *)
Record frame (w w' : proxy) : Prop := {
  frame_handler a h : p_handlers w !! a = Some h → ∃ h', p_handlers w' !! a = Some h' ∧ h_parser h' = h_parser h ∧
    h_match h' = h_match h ∧ (h_forward h' = h_forward h ∨ h_forward h' = None) ∧
    (k_open (h_socket h') = true → k_open (h_socket h) = true) ∧
    (k_open (h_socket h) = false → h_done h' = h_done h);
  frame_none a : p_handlers w !! a = None → p_handlers w' !! a = None;
  frame_pool s k id : od_get (pool s w') k = Some id → od_get (pool s w) k = Some id;
  frame_timers : p_timers w' = p_timers w
}.

Lemma frame_refl w : frame w w.
Proof. split; try done. intros a h Ha. exists h. split_and!; auto. Qed.

Lemma frame_trans w1 w2 w3 : frame w1 w2 → frame w2 w3 → frame w1 w3.
Proof.
  intros H1 H2. split.
  - intros a h Ha. destruct (frame_handler _ _ H1 a h Ha) as (h2 & Ha2 & ? & ? & Hf2 & Ho2 & Hd2).
    destruct (frame_handler _ _ H2 a h2 Ha2) as (h3 & Ha3 & ? & ? & Hf3 & Ho3 & Hd3). exists h3.
    split; [done|]. split; [congruence|]. split; [congruence|]. split; [|split; [auto|]].
    + destruct Hf3 as [->| ->]; [done|by right].
    + intros Hc. rewrite Hd3; [by apply Hd2|]. apply not_true_iff_false. intros H'. apply Ho2 in H'. congruence.
  - intros a Ha. by apply (frame_none _ _ H2), (frame_none _ _ H1).
  - intros s k id Hk. by apply (frame_pool _ _ H1), (frame_pool _ _ H2).
  - rewrite (frame_timers _ _ H2). apply (frame_timers _ _ H1).
Qed.

(** ** Updates of one handler *)

Lemma lookup_set id h w a : p_handlers (set_handler id h w) !! a = if decide (a = id) then Some h else p_handlers w !! a.
Proof.
  unfold set_handler. simpl. case_decide as Ha; [subst; apply lookup_insert_eq|by apply lookup_insert_ne].
Qed.

Lemma pool_set s id h w : pool s (set_handler id h w) = pool s w.
Proof. by destruct s. Qed.

Lemma upd_run id f w h : p_handlers w !! id = Some h → upd_handler id f w = (Ret tt, set_handler id (f h) w).
Proof. intros Hh. unfold upd_handler, sbind, get_handler. by rewrite Hh. Qed.

Lemma get_run id w h : p_handlers w !! id = Some h → get_handler id w = (Ret h, w).
Proof. intros Hh. unfold get_handler. by rewrite Hh. Qed.

(** A change of the socket of [id], which may be shut when nobody relies on its link, and of the parser. *)
Lemma inv_set x w id h h' : inv x w → p_handlers w !! id = Some h →
  i_key (h_parser h') = i_key (h_parser h) → 
  (i_magic (h_parser h') = i_magic (h_parser h) ∧ i_length (h_parser h') = i_length (h_parser h) ∨
   i_key (h_parser h) = None) →
  h_match h' = h_match h → h_forward h' = h_forward h → h_done h' = h_done h →
  (k_open (h_socket h') = k_open (h_socket h) ∨
   k_open (h_socket h') = false ∧ (h_forward h ≠ None ∨ i_magic (h_parser h) ≠ Some RPC_MAGIC ∨
     ∀ s k, od_get (pool s w) k ≠ Some id)) →
  inv x (set_handler id h' w).
Proof.
  intros Hi Hh Hkey Hmagic Hm Hf Hd Ho. split.
  - intros s. rewrite pool_set. apply Hi.
  - intros k. rewrite !pool_set. apply Hi.
  - intros s k a. rewrite pool_set. intros Ha. destruct (inv_pool _ _ Hi s k a Ha) as (g & rk & Hg & Hgm & Hgk & Hs & Hgf & Hgo & Hno).
    setoid_rewrite lookup_set.
    assert (∀ b q, (if decide (b = id) then Some h' else p_handlers w !! b) = Some q → h_forward q ≠ Some a) as Hno'.
    { intros b q. case_decide; [|apply Hno]. intros [= <-]. rewrite Hf. by eapply Hno. }
    case_decide as Hai; [|by exists g, rk].
    subst a. assert (g = h) as -> by congruence. exists h', rk. split; [done|]. split; [congruence|]. split; [congruence|].
    split; [done|]. split; [congruence|]. split; [|exact Hno']. intros Hc.
    destruct Hmagic as [[-> _]|Hn]; [|congruence]. destruct Ho as [Ho|[_ [Hn|[Hn|Hn]]]]; [apply Hgo; congruence|done|done|].
    by destruct (Hn s k).
  - intros a g f. setoid_rewrite lookup_set. intros Ha Hgf.
    assert (∃ g0, p_handlers w !! a = Some g0 ∧ h_forward g0 = Some f ∧ i_key (h_parser g0) = i_key (h_parser g) ∧ h_match g0 = h_match g)
      as (g0 & Ha0 & Hf0 & Hk0 & Hm0).
    { case_decide; [|by exists g]. injection Ha as <-. subst a. exists h. rewrite <-Hf. done. }
    destruct (inv_link _ _ Hi a g0 f Ha0 Hf0) as (Hne & p & Hp & (k & rh & rg & ? & ? & ? & ? & ?) & Hor). split; [done|].
    destruct (decide (f = id)) as [Hfi|Hfi].
    + subst f. assert (p = h) as -> by congruence. exists h'. split; [done|]. split; [exists k, rh, rg; split_and!; congruence|].
      rewrite Hf. destruct Hor as [?|[?|?]]; auto. right. left. destruct Ho as [Ho|[Ho _]]; congruence.
    + exists p. split; [done|]. split; [exists k, rh, rg; split_and!; congruence|done].
  - intros a b g q f. rewrite !lookup_set. intros Ha Hb Hgf Hqf.
    assert (∀ c r, (if decide (c = id) then Some h' else p_handlers w !! c) = Some r → h_forward r = Some f →
      ∃ r0, p_handlers w !! c = Some r0 ∧ h_forward r0 = Some f) as Hback.
    { intros c r Hc Hr. case_decide; [|by exists r]. injection Hc as <-. subst c. exists h. by rewrite <-Hf. }
    destruct (Hback a g Ha Hgf) as (g0 & ? & ?), (Hback b q Hb Hqf) as (q0 & ? & ?). by eapply (inv_unique _ _ Hi).
  - intros a g. setoid_rewrite lookup_set. intros Ha Hk.
    assert (∃ g0, p_handlers w !! a = Some g0 ∧ i_key (h_parser g0) = None ∧ h_match g0 = h_match g ∧ h_forward g0 = h_forward g)
      as (g0 & Ha0 & Hk0 & <- & <-).
    { case_decide; [|by exists g]. injection Ha as <-. subst a. exists h. split_and!; congruence. }
    destruct (inv_fresh _ _ Hi a g0 Ha0 Hk0) as (? & ? & Hno). split; [done|]. split; [done|].
    intros b q. destruct (decide (b = id)); [|apply Hno]. intros [= <-]. rewrite Hf. by eapply Hno.
  - intros a g. rewrite lookup_set. case_decide; [|apply Hi]. intros [= <-]. rewrite Hkey. intros Hk.
    destruct Hmagic as [[-> ->]|Hn]; [by apply (inv_parse _ _ Hi id)|done].
  - intros a g. rewrite lookup_set. case_decide; [|apply Hi]. intros [= <-]. rewrite Hd. intros Hdone. subst a.
    pose proof (inv_done _ _ Hi id h Hh Hdone) as Hc. destruct Ho as [Ho|[Ho _]]; congruence.
Qed.

Lemma frame_set w id h h' : p_handlers w !! id = Some h → h_parser h' = h_parser h → h_match h' = h_match h →
  (h_forward h' = h_forward h ∨ h_forward h' = None) → (k_open (h_socket h') = true → k_open (h_socket h) = true) →
  (k_open (h_socket h) = false → h_done h' = h_done h) → frame w (set_handler id h' w).
Proof.
  intros Hh Hp Hm Hf Ho Hd. split; [| |by intros []|done].
  - intros a g Ha. rewrite lookup_set. case_decide; [|exists g; split_and!; auto]. subst a.
    assert (g = h) as -> by congruence. exists h'. split_and!; auto.
  - intros a Ha. rewrite lookup_set. case_decide; [congruence|done].
Qed.

(** A connection that links to nobody takes the place of [id]. *)
Lemma inv_replace x x' w id h' : inv x w → h_forward h' = None → x = x' ∨ x = Some id →
  (∀ s k, od_get (pool s w) k = Some id → ∃ h, p_handlers w !! id = Some h ∧ h_parser h' = h_parser h ∧
    h_match h' = h_match h ∧ k_open (h_socket h') = k_open (h_socket h)) →
  (∀ a g, p_handlers w !! a = Some g → h_forward g = Some id → ∃ h, p_handlers w !! id = Some h ∧
    h_parser h' = h_parser h ∧ h_match h' = h_match h ∧ (k_open (h_socket h') = false ∨ x' = Some id)) →
  (i_key (h_parser h') = None → h_match h' = None ∧ ∀ a g, p_handlers w !! a = Some g → h_forward g ≠ Some id) →
  (i_key (h_parser h') ≠ None → i_magic (h_parser h') ≠ None ∧ i_length (h_parser h') ≠ None) →
  (h_done h' = true → k_open (h_socket h') = false) →
  inv x' (set_handler id h' w).
Proof.
  intros Hi Hfw Hx Hpool Hlink Hfresh Hparse Hdone. set (w' := set_handler id h' w).
  assert (∀ a g f, p_handlers w' !! a = Some g → h_forward g = Some f → a ≠ id ∧ p_handlers w !! a = Some g) as Hback.
  { intros a g f. unfold w'. rewrite lookup_set. case_decide; [|done]. intros [= <-]. congruence. }
  assert (∀ f, (∀ b q, p_handlers w !! b = Some q → h_forward q ≠ Some f) → ∀ b q, p_handlers w' !! b = Some q → h_forward q ≠ Some f)
    as Hnl by (intros f Hno b q Hb Hq; destruct (Hback b q f Hb Hq) as [_ Hb']; by eapply Hno).
  split.
  - intros s. unfold w'. rewrite pool_set. apply Hi.
  - intros k. unfold w'. rewrite !pool_set. apply Hi.
  - intros s k a. unfold w' at 1. rewrite pool_set. intros Ha.
    destruct (inv_pool _ _ Hi s k a Ha) as (g & rk & Hg & ? & ? & ? & ? & Hgo & Hno).
    unfold w' at 1. rewrite lookup_set. case_decide; [|exists g, rk; by split_and!; try apply Hnl].
    subst a. destruct (Hpool s k Ha) as (h & Hh & Hp & Hm & Ho). assert (g = h) as -> by congruence.
    exists h', rk. rewrite Hp, Hm, Ho. split_and!; try done. by apply Hnl.
  - intros a g f Ha Hf. destruct (Hback a g f Ha Hf) as [Hai Ha'].
    destruct (inv_link _ _ Hi a g f Ha' Hf) as (? & p & Hfp & (k & rh & rg & ? & ? & ? & ? & ?) & Hor). split; [done|].
    unfold w'. rewrite lookup_set. destruct (decide (f = id)) as [->|].
    + destruct (Hlink a g Ha' Hf) as (h & Hh & Hp & Hm & Ho). assert (p = h) as -> by congruence.
      exists h'. split; [done|]. split; [exists k, rh, rg; split_and!; congruence|auto].
    + exists p. split; [done|]. split; [by exists k, rh, rg|]. destruct Hor as [?|[?|Hxf]]; auto.
      destruct Hx as [->|Hx]; [auto|congruence].
  - intros a b g q f Ha Hb Hgf Hqf. destruct (Hback a g f Ha Hgf) as [_ Ha'], (Hback b q f Hb Hqf) as [_ Hb'].
    by eapply (inv_unique _ _ Hi).
  - intros a g. unfold w' at 1. rewrite lookup_set. case_decide.
    + intros [= <-] Hk. subst a. destruct (Hfresh Hk). split_and!; try done. by apply Hnl.
    + intros Ha Hk. destruct (inv_fresh _ _ Hi a g Ha Hk) as (? & ? & ?). split_and!; try done. by apply Hnl.
  - intros a g. unfold w'. rewrite lookup_set. case_decide; [by intros [= <-]|apply Hi].
  - intros a g. unfold w'. rewrite lookup_set. case_decide; [by intros [= <-]|apply Hi].
Qed.

(** ** Leaving the pools *)

Lemma pool_set_pool s s' d w : pool s (set_pool s' d w) = if bool_decide (s = s') then d else pool s w.
Proof. by destruct s, s'. Qed.

Lemma handlers_set_pool s d w : p_handlers (set_pool s d w) = p_handlers w.
Proof. by destruct s. Qed.

Lemma timers_set_pool s d w : p_timers (set_pool s d w) = p_timers w.
Proof. by destruct s. Qed.

(** A pool with entries of the old one only. *)
Definition pools_sub (w w' : proxy) : Prop :=
  p_handlers w' = p_handlers w ∧ p_timers w' = p_timers w ∧
  ∀ s, NoDup (od_keys (pool s w)) → NoDup (od_keys (pool s w')) ∧
    ∀ k a, od_get (pool s w') k = Some a → od_get (pool s w) k = Some a.

Lemma pools_sub_refl w : pools_sub w w.
Proof. by split_and!. Qed.

Lemma pools_sub_trans w1 w2 w3 : pools_sub w1 w2 → pools_sub w2 w3 → pools_sub w1 w3.
Proof.
  intros (H1 & T1 & P1) (H2 & T2 & P2). split; [congruence|]. split; [congruence|]. intros s Hnd.
  destruct (P1 s Hnd) as [Hnd1 Q1]. destruct (P2 s Hnd1) as [Hnd2 Q2]. split; [done|]. intros k a Hk. by apply Q1, Q2.
Qed.

Lemma pools_sub_del s key w : pools_sub w (set_pool s (od_del (pool s w) key) w).
Proof.
  split; [apply handlers_set_pool|]. split; [apply timers_set_pool|]. intros s' Hnd. rewrite pool_set_pool.
  case_bool_decide as Hs; [|done]. subst s'. split; [by apply od_del_NoDup|]. intros k a.
  rewrite od_get_del by done. by case_decide.
Qed.

Lemma pools_sub_leave s key id w : pools_sub w (leave_pool s key id w).
Proof. unfold leave_pool. case_bool_decide; [apply pools_sub_del|apply pools_sub_refl]. Qed.

(** Both pools without the connection [id] of key [k]. *)
Definition leaves (m : option string) (id : nat) (w : proxy) : proxy :=
  match m with Some key => leave_pool true key id (leave_pool false key id w) | None => w end.

Lemma pools_sub_leaves m id w : pools_sub w (leaves m id w).
Proof.
  destruct m as [key|]; [|apply pools_sub_refl].
  apply (pools_sub_trans _ (leave_pool false key id w)); apply pools_sub_leave.
Qed.

Lemma leave_pool_gone s key id w : NoDup (od_keys (pool s w)) → od_get (pool s (leave_pool s key id w)) key ≠ Some id.
Proof.
  intros Hnd. unfold leave_pool. case_bool_decide as Hk; [|done]. rewrite pool_set_pool, bool_decide_true by done.
  rewrite od_get_del by done. by rewrite decide_True.
Qed.

Lemma leaves_gone s key id w : (∀ s, NoDup (od_keys (pool s w))) → od_get (pool s (leaves (Some key) id w)) key ≠ Some id.
Proof.
  intros Hnd Hk. unfold leaves in Hk.
  pose proof (pools_sub_leave false key id w) as (_ & _ & H1).
  destruct (H1 true (Hnd true)) as [Hnd1 _], (H1 false (Hnd false)) as [Hnd2 _].
  destruct s; [by apply (leave_pool_gone true key id _ Hnd1)|].
  pose proof (pools_sub_leave true key id (leave_pool false key id w)) as (_ & _ & H2).
  apply (H2 false Hnd2) in Hk. by apply (leave_pool_gone false key id w (Hnd false)).
Qed.

(** Entries may leave the pools at any time. *)
Lemma inv_pools_sub x w w' : inv x w → pools_sub w w' → inv x w'.
Proof.
  intros Hi (Hh & _ & Hp). split; rewrite ?Hh; try apply Hi.
  - intros s. by apply Hp, Hi.
  - intros k Hk Hk'. apply od_key_iff in Hk as [a Ha], Hk' as [b Hb].
    apply (Hp true (inv_nodup _ _ Hi true)) in Ha. apply (Hp false (inv_nodup _ _ Hi false)) in Hb.
    eapply (inv_disjoint _ _ Hi k); by eapply od_get_Some_key.
  - intros s k a Ha. apply (Hp s (inv_nodup _ _ Hi s)) in Ha. by apply Hi.
Qed.

Lemma frame_pools_sub w w' : (∀ s, NoDup (od_keys (pool s w))) → pools_sub w w' → frame w w'.
Proof.
  intros Hnd (Hh & Ht & Hp). split; rewrite ?Hh; try done.
  - intros a h Ha. exists h. split_and!; auto.
  - intros s k a. by apply Hp.
Qed.

(** The last state of a connection that is closed. *)
Definition final (id : nat) (h : handler) (w : proxy) : proxy := set_handler id (with_done h) (leaves (h_match h) id w).

Lemma final_inv w id h h' : inv (Some id) w → p_handlers w !! id = Some h →
  h_parser h' = h_parser h → h_match h' = h_match h → k_open (h_socket h') = false → inv None (final id h' w).
Proof.
  intros Hi0 Hh Hp Hm Hc. unfold final.
  pose proof (pools_sub_leaves (h_match h') id w) as Hsub. pose proof (inv_pools_sub _ _ _ Hi0 Hsub) as Hi.
  assert (∀ s k, od_get (pool s (leaves (h_match h') id w)) k ≠ Some id) as Hgone.
  { intros s k Hk. destruct (inv_pool _ _ Hi s k id Hk) as (g & rk & Hg & Hgm & _). destruct Hsub as (Heq & _).
    rewrite Heq in Hg. assert (g = h) as -> by congruence. rewrite Hm, Hgm in Hk. by eapply leaves_gone, Hk; apply Hi0. }
  assert (p_handlers (leaves (h_match h') id w) !! id = Some h) as Hh2 by (destruct Hsub as (-> & _); done).
  clear Hsub. revert Hi Hgone Hh2. generalize (leaves (h_match h') id w) as w2. clear Hi0 Hh w. intros w Hi Hgone Hh.
  apply (inv_replace (Some id)); auto.
  - intros s k Hk. by apply Hgone in Hk.
  - intros a g _ _. exists h. auto.
  - simpl. rewrite Hp, Hm. intros Hk. destruct (inv_fresh _ _ Hi id h Hh Hk) as (? & _ & ?). done.
  - simpl. rewrite Hp. by apply (inv_parse _ _ Hi id).
Qed.

Lemma leave_pool_set s key id a h w : leave_pool s key id (set_handler a h w) = set_handler a h (leave_pool s key id w).
Proof. unfold leave_pool. rewrite pool_set. case_bool_decide; [by destruct s|done]. Qed.

Lemma leaves_set m id a h w : leaves m id (set_handler a h w) = set_handler a h (leaves m id w).
Proof. destruct m; [|done]. simpl. by rewrite !leave_pool_set. Qed.

Lemma final_set id h g w : final id h (set_handler id g w) = final id h w.
Proof. unfold final. rewrite leaves_set. unfold set_handler. simpl. by rewrite insert_insert_eq. Qed.

Lemma final_lookup id h w : p_handlers (final id h w) !! id = Some (with_done h).
Proof. unfold final. by rewrite lookup_set, decide_True. Qed.

(** A connection that was open is closed for good. *)
Lemma final_frame w w2 id h h2 h' : inv None w → inv None w2 ∨ w2 = w → frame w w2 → p_handlers w !! id = Some h →
  k_open (h_socket h) = true → p_handlers w2 !! id = Some h2 → h_parser h' = h_parser h2 → h_match h' = h_match h2 →
  k_open (h_socket h') = false → frame w (final id h' w2).
Proof.
  intros Hi Hi2 Hf Hh Ho Hh2 Hp Hm Hc.
  assert (∀ s, NoDup (od_keys (pool s w2))) as Hnd by (destruct Hi2 as [Hi2| ->]; [apply Hi2|apply Hi]).
  pose proof (pools_sub_leaves (h_match h') id w2) as (Hhs & Hts & Hps).
  destruct (frame_handler _ _ Hf id h Hh) as (h2' & Hh2' & Hp2 & Hm2 & _). assert (h2' = h2) as -> by congruence.
  split.
  - intros a g Ha. unfold final. rewrite lookup_set, Hhs. case_decide; [|by apply (frame_handler _ _ Hf)].
    subst a. assert (g = h) as -> by congruence. exists (with_done h'). simpl. split_and!; try congruence; auto.
  - intros a Ha. unfold final. rewrite lookup_set, Hhs. case_decide; [congruence|]. by apply (frame_none _ _ Hf).
  - intros s k a. unfold final. rewrite pool_set. intros Hk. by apply (frame_pool _ _ Hf), (Hps s (Hnd s)).
  - unfold final. simpl. rewrite Hts. apply (frame_timers _ _ Hf).
Qed.

(** ** Closing *)

Definition closed_in (w : proxy) (id : nat) : Prop :=
  ∃ h, p_handlers w !! id = Some h ∧ k_open (h_socket h) = false.

Lemma event_run id h w : p_handlers w !! id = Some h → h_done h = false → on_close_event id w = (Ret tt, final id h w).
Proof.
  intros Hh Hd. unfold on_close_event, sbind at 1. rewrite (get_run _ _ _ Hh), Hd. unfold final.
  pose proof (pools_sub_leaves (h_match h) id w) as (Heq & _ & _). unfold leaves in *.
  destruct (h_match h) as [key|]; unfold sbind, smod, sret; by rewrite (upd_run _ _ _ h) by congruence.
Qed.

Lemma close_closed n id w : closed_in w id → close_fuel (S n) id w = (Ret tt, w).
Proof. intros (h & Hh & Hc). simpl. unfold sbind. by rewrite (get_run _ _ _ Hh), Hc. Qed.

Lemma close_unlinked n id w h : inv (Some id) w → p_handlers w !! id = Some h → k_open (h_socket h) = true →
  h_forward h = None → close_fuel (S n) id w = (Ret tt, final id (with_socket shut h) w).
Proof.
  intros Hi Hh Ho Hf. simpl. unfold sbind at 1. rewrite (get_run _ _ _ Hh), Ho. unfold sbind at 1.
  rewrite (upd_run _ _ _ _ Hh). set (w1 := set_handler id (with_socket shut h) w).
  assert (p_handlers w1 !! id = Some (with_socket shut h)) as Hh1 by (unfold w1; by rewrite lookup_set, decide_True).
  unfold on_close_with, sbind at 1. rewrite (get_run _ _ _ Hh1). simpl. rewrite Hf. unfold sbind, sret.
  rewrite (event_run _ _ _ Hh1).
  - unfold w1. by rewrite final_set.
  - simpl. apply not_true_iff_false. intros Hd. pose proof (inv_done _ _ Hi id h Hh Hd). congruence.
Qed.

(** The state after [signal_close] of a partner. *)
Definition signalled (m : ST proxy unit) (w : proxy) : Prop :=
  ∃ w', m w = (Ret tt, w') ∧ inv None w' ∧ frame w w'.

Lemma flag_ok w f g : inv None w → p_handlers w !! f = Some g →
  inv None (set_handler f (with_socket signal g) w) ∧ frame w (set_handler f (with_socket signal g) w).
Proof. intros Hi Hg. split; [apply (inv_set _ _ _ g); auto|apply (frame_set _ _ g); auto]. Qed.

Lemma signal_closed_ok n f w : inv None w → closed_in w f → signalled (signal_close_with (close_fuel (S n)) f) w.
Proof.
  intros Hi Hc. pose proof Hc as (g & Hg & _). unfold signalled, signal_close_with, sbind. rewrite (get_run _ _ _ Hg).
  destruct (k_pending (h_socket g)).
  - rewrite close_closed by done. exists w. split; [done|]. split; [done|apply frame_refl].
  - rewrite (upd_run _ _ _ _ Hg). eexists. split; [done|]. by apply flag_ok.
Qed.

(** Closing a connection with a partner, when [signal_close] of the partner is as expected. *)
Lemma close_linked n id w h f : inv None w → p_handlers w !! id = Some h → k_open (h_socket h) = true →
  h_forward h = Some f →
  (∀ w1, w1 = set_handler id (with_socket shut h) w → inv None w1 → signalled (signal_close_with (close_fuel n) f) w1) →
  ∃ w', close_fuel (S n) id w = (Ret tt, w') ∧ inv None w' ∧ frame w w' ∧ closed_in w' id.
Proof.
  intros Hi Hh Ho Hf Hsig. simpl. unfold sbind at 1. rewrite (get_run _ _ _ Hh), Ho. unfold sbind at 1.
  rewrite (upd_run _ _ _ _ Hh). set (w1 := set_handler id (with_socket shut h) w).
  assert (p_handlers w1 !! id = Some (with_socket shut h)) as Hh1 by (unfold w1; by rewrite lookup_set, decide_True).
  assert (inv None w1) as Hi1.
  { apply (inv_set _ _ _ h); auto. right. split; [done|]. left. congruence. }
  assert (frame w w1) as Hf1 by (apply (frame_set _ _ h); auto; done).
  destruct (Hsig w1 eq_refl Hi1) as (w2 & Hrun & Hi2 & Hf2).
  unfold on_close_with, sbind at 1. rewrite (get_run _ _ _ Hh1). simpl. rewrite Hf.
  unfold sbind at 1. unfold sbind at 1. rewrite Hrun.
  destruct (frame_handler _ _ Hf2 id _ Hh1) as (h2 & Hh2 & Hp2 & Hm2 & _ & Hc2 & Hd2).
  rewrite (upd_run _ _ _ _ Hh2). set (w3 := set_handler id (with_forward None h2) w2).
  assert (p_handlers w3 !! id = Some (with_forward None h2)) as Hh3 by (unfold w3; by rewrite lookup_set, decide_True).
  assert (k_open (h_socket h2) = false) as Hc.
  { apply not_true_iff_false. intros H'. by apply Hc2 in H'. }
  assert (h_done h2 = false) as Hd.
  { rewrite Hd2 by done. simpl. apply not_true_iff_false. intros Hd. pose proof (inv_done _ _ Hi id h Hh Hd). congruence. }
  rewrite (event_run _ _ _ Hh3) by done. unfold w3. rewrite final_set. eexists. split; [done|]. split; [|split].
  - apply (final_inv _ _ h2); [by apply inv_weaken|done..].
  - apply (final_frame w w2 id h h2); auto. by eapply frame_trans.
  - eexists. split; [apply final_lookup|done].
Qed.

Lemma close_ok n id w h : inv None w → p_handlers w !! id = Some h →
  ∃ w', close_fuel (S (S (S n))) id w = (Ret tt, w') ∧ inv None w' ∧ frame w w' ∧ closed_in w' id.
Proof.
  intros Hi Hh. destruct (k_open (h_socket h)) eqn:Ho.
  2: { assert (closed_in w id) as Hc by (by exists h). exists w. rewrite close_closed by done.
       split_and!; try done. apply frame_refl. }
  destruct (h_forward h) as [f|] eqn:Hf.
  2: { rewrite (close_unlinked _ id w h); [|by apply inv_weaken|done..]. eexists. split; [done|]. split; [|split].
       - apply (final_inv _ _ h); [by apply inv_weaken|done..].
       - apply (final_frame w w id h h); auto. apply frame_refl.
       - eexists. split; [apply final_lookup|done]. }
  apply (close_linked _ _ _ h f); auto. intros w1 -> Hi1.
  destruct (inv_link _ _ Hi id h f Hh Hf) as (Hne & g & Hg & _ & Hor).
  assert (p_handlers (set_handler id (with_socket shut h) w) !! f = Some g) as Hg1 by (by rewrite lookup_set, decide_False).
  assert (closed_in (set_handler id (with_socket shut h) w) id) as Hcid.
  { eexists. by rewrite lookup_set, decide_True. }
  destruct (k_open (h_socket g)) eqn:Hog.
  2: { apply signal_closed_ok; [done|]. by exists g. }
  destruct Hor as [Hback|[?|[=]]]; [|congruence].
  unfold signalled, signal_close_with, sbind. rewrite (get_run _ _ _ Hg1). destruct (k_pending (h_socket g)).
  - destruct (close_linked (S n) f _ g id Hi1 Hg1 Hog Hback) as (w2 & ? & ? & ? & _); [|by exists w2].
    intros w2 -> Hi2. apply signal_closed_ok; [done|]. destruct Hcid as (q & Hq & Hcq).
    exists q. by rewrite lookup_set, decide_False.
  - rewrite (upd_run _ _ _ _ Hg1). eexists. split; [done|]. by apply flag_ok.
Qed.

(** ** Operations that keep the invariant *)

Definition fine {A} (m : ST proxy A) : Prop := ∀ w, inv None w → inv None (m w).2 ∧ frame w (m w).2.

Lemma fine_same {A} (m : ST proxy A) : (∀ w, (m w).2 = w) → fine m.
Proof. intros Hm w Hi. rewrite Hm. split; [done|apply frame_refl]. Qed.

Lemma fine_sbind {A B} (m : ST proxy A) (k : A → ST proxy B) : fine m → (∀ a, fine (k a)) → fine (sbind m k).
Proof.
  intros Hm Hk w Hi. unfold sbind. destruct (Hm w Hi) as [Hi1 Hf1]. destruct (m w) as [[a|e] w1]; simpl in *; [|done].
  destruct (Hk a w1 Hi1) as [Hi2 Hf2]. split; [done|]. by eapply frame_trans.
Qed.

Lemma fine_slift {A} (m : py A) : fine (slift m).
Proof. by apply fine_same. Qed.

Lemma fine_sret {A} (a : A) : fine (sret a).
Proof. by apply fine_same. Qed.

Lemma fine_get id : fine (get_handler id).
Proof. apply fine_same. intros w. unfold get_handler. by destruct (p_handlers w !! id). Qed.

Lemma fine_rpc_key id : fine (rpc_key id).
Proof. apply fine_sbind; [apply fine_get|]. intros h. by apply fine_same; destruct (i_key _). Qed.

Lemma close_missing id w : p_handlers w !! id = None → close id w = (Raise KeyError, w).
Proof. intros Hh. unfold close. simpl. unfold sbind, get_handler. by rewrite Hh. Qed.

Lemma close_top id w h : inv None w → p_handlers w !! id = Some h →
  ∃ w', close id w = (Ret tt, w') ∧ inv None w' ∧ frame w w' ∧ closed_in w' id.
Proof.
  intros Hi Hh. unfold close.
  assert (∃ n, size (p_handlers w) = S n) as [n ->]; [|by eapply close_ok].
  destruct (size (p_handlers w)) eqn:Es; [|by eexists]. apply map_size_empty_inv in Es. rewrite Es in Hh. by rewrite lookup_empty in Hh.
Qed.

Lemma fine_close id : fine (close id).
Proof.
  intros w Hi. destruct (p_handlers w !! id) as [h|] eqn:Hh.
  - by destruct (close_top id w h Hi Hh) as (w' & -> & ? & ? & _).
  - rewrite close_missing by done. split; [done|apply frame_refl].
Qed.

Lemma signal_top id w h : inv None w → p_handlers w !! id = Some h → signalled (signal_close id) w.
Proof.
  intros Hi Hh. unfold signalled, signal_close, signal_close_with, sbind. rewrite (get_run _ _ _ Hh).
  destruct (k_pending (h_socket h)).
  - destruct (close_top id w h Hi Hh) as (w' & ? & ? & ? & _). by exists w'.
  - rewrite (upd_run _ _ _ _ Hh). eexists. split; [done|]. by apply flag_ok.
Qed.

Lemma fine_signal id : fine (signal_close id).
Proof.
  intros w Hi. destruct (p_handlers w !! id) as [h|] eqn:Hh.
  - by destruct (signal_top id w h Hi Hh) as (w' & -> & ? & ?).
  - unfold signal_close, signal_close_with, sbind, get_handler. rewrite Hh. split; [done|apply frame_refl].
Qed.

(** The link of a connection that is about to be closed. *)
Lemma inv_unlink w id h : inv None w → p_handlers w !! id = Some h →
  inv (Some id) (set_handler id (with_forward None h) w).
Proof.
  intros Hi Hh. apply (inv_replace (Some id)); auto; [by apply inv_weaken|..].
  - intros s k _. by exists h.
  - intros a g _ _. exists h. auto.
  - intros Hk. by destruct (inv_fresh _ _ Hi id h Hh Hk) as (? & _ & ?).
  - simpl. by apply (inv_parse _ _ Hi id).
  - simpl. by apply (inv_done _ _ Hi id).
Qed.

Lemma close_pair_ok id w h : inv None w → p_handlers w !! id = Some h → ∃ w', close_pair id w = (Ret tt, w') ∧ inv None w' ∧ frame w w' ∧ closed_in w' id.
Proof.
  intros Hi Hh. unfold close_pair, sbind at 1. rewrite (get_run _ _ _ Hh).
  destruct (h_forward h) as [f|] eqn:Hf.
  2: { unfold sbind, sret. by apply (close_top id w h). }
  destruct (inv_link _ _ Hi id h f Hh Hf) as (Hne & g & Hg & _).
  destruct (signal_top f w g Hi Hg) as (w1 & Hrun & Hi1 & Hf1). unfold sbind at 1. unfold sbind at 1. rewrite Hrun.
  destruct (frame_handler _ _ Hf1 id h Hh) as (h1 & Hh1 & Hp1 & Hm1 & _ & Ho1 & _).
  rewrite (upd_run _ _ _ _ Hh1). set (w2 := set_handler id (with_forward None h1) w1).
  assert (p_handlers w2 !! id = Some (with_forward None h1)) as Hh2 by (unfold w2; by rewrite lookup_set, decide_True).
  pose proof (inv_unlink w1 id h1 Hi1 Hh1) as Hi2. fold w2 in Hi2.
  assert (frame w w2) as Hf2 by (eapply frame_trans; [exact Hf1|]; by apply (frame_set _ _ h1); auto).
  unfold close. destruct (k_open (h_socket h1)) eqn:Ho.
  - rewrite (close_unlinked _ id w2 _ Hi2 Hh2) by done. eexists. split; [done|]. split; [|split].
    + by apply (final_inv _ _ (with_forward None h1)).
    + unfold w2. rewrite final_set. apply (final_frame w w1 id h h1); auto.
    + eexists. split; [apply final_lookup|done].
  - assert (closed_in w2 id) as Hc by (by eexists). rewrite close_closed by done. exists w2. split; [done|].
    by split; [eapply inv_closed|].
Qed.

Lemma fine_close_pair id : fine (close_pair id).
Proof.
  intros w Hi. destruct (p_handlers w !! id) as [h|] eqn:Hh.
  - by destruct (close_pair_ok id w h Hi Hh) as (w' & -> & ? & ? & _).
  - unfold close_pair, sbind, get_handler. rewrite Hh. split; [done|apply frame_refl].
Qed.

(** Changes of a socket that keep it open or closed. *)
Lemma fine_socket id (f : psock → psock) : (∀ s, k_open (f s) = k_open s) → fine (upd_handler id (with_socket f)).
Proof.
  intros Hf w Hi. destruct (p_handlers w !! id) as [h|] eqn:Hh.
  - rewrite (upd_run _ _ _ _ Hh). simpl. split; [apply (inv_set _ _ _ h); simpl; auto|].
    apply (frame_set _ _ h); simpl; auto. by rewrite Hf.
  - unfold upd_handler, sbind, get_handler. rewrite Hh. split; [done|apply frame_refl].
Qed.

Lemma drained_open s : k_open (drained s) = k_open s.
Proof. unfold drained. by destruct (drain _ _ _) as [[??]?]. Qed.

Lemma fine_update_write id : fine (update_write id).
Proof.
  apply fine_sbind; [apply fine_get|]. intros h. destruct (k_pending (h_socket h)).
  - destruct (k_signal _); [apply fine_close|apply fine_sret].
  - destruct (negb _); [apply fine_sret|]. destruct (k_broken _); [apply fine_close_pair|].
    apply fine_sbind; [apply fine_socket, drained_open|]. intros _. apply fine_sbind; [apply fine_get|]. intros h'.
    destruct (k_pending _); [|apply fine_sret]. destruct (k_signal _); [apply fine_close|apply fine_sret].
Qed.

Lemma fine_send_data id m : fine (send_data id m).
Proof.
  apply fine_sbind; [apply fine_get|]. intros h. destruct (negb _); [by apply fine_same|].
  apply fine_sbind; [by apply fine_socket|]. intros _. apply fine_update_write.
Qed.

Lemma fine_send_code id c : fine (send_code id c).
Proof. apply fine_sbind; [apply fine_slift|]. intros b. apply fine_send_data. Qed.

Lemma fine_greet id other : fine (greet id other).
Proof.
  apply fine_sbind; [apply fine_send_code|]. intros _. apply fine_sbind; [apply fine_rpc_key|]. intros k.
  apply fine_sbind; [apply fine_send_code|]. intros _. apply fine_send_data.
Qed.

(** ** Matching *)

(** What every operation keeps: the connections, and what they have read. *)
Definition keeps (w w' : proxy) : Prop :=
  ∀ a h, p_handlers w !! a = Some h → ∃ h', p_handlers w' !! a = Some h' ∧ h_parser h' = h_parser h.

Lemma keeps_refl w : keeps w w.
Proof. intros a h Ha. by exists h. Qed.

Lemma keeps_trans w1 w2 w3 : keeps w1 w2 → keeps w2 w3 → keeps w1 w3.
Proof.
  intros H1 H2 a h Ha. destruct (H1 a h Ha) as (h2 & Ha2 & E2). destruct (H2 a h2 Ha2) as (h3 & Ha3 & E3).
  exists h3. split; [done|congruence].
Qed.

Lemma frame_keeps w w' : frame w w' → keeps w w'.
Proof. intros Hf a h Ha. destruct (frame_handler _ _ Hf a h Ha) as (h' & ? & ? & _). by exists h'. Qed.

(** Both invariants and what they keep, of an operation in one state. *)
Definition good {A} (m : ST proxy A) (w : proxy) : Prop := inv None (m w).2 ∧ keeps w (m w).2.

Lemma good_fine {A} (m : ST proxy A) w : fine m → inv None w → good m w.
Proof. intros Hm Hi. destruct (Hm w Hi) as [? ?]. split; [done|by apply frame_keeps]. Qed.

Lemma good_step {A B} (m : ST proxy A) (k : A → ST proxy B) w w1 a :
  m w = (Ret a, w1) → keeps w w1 → good (k a) w1 → good (sbind m k) w.
Proof.
  intros Hm Hk [H1 H2]. unfold good, sbind. rewrite Hm. split; [done|by eapply keeps_trans].
Qed.

Lemma keeps_set w id h h' : p_handlers w !! id = Some h → h_parser h' = h_parser h → keeps w (set_handler id h' w).
Proof.
  intros Hh Hp a g Ha. rewrite lookup_set. case_decide; [|by exists g]. subst a. exists h'. split; [done|congruence].
Qed.

(** A connection whose key has just been read. *)
Record newcomer (id : nat) (h : handler) (rk key : string) (w : proxy) : Prop := {
  nc_handler : p_handlers w !! id = Some h;
  nc_key : i_key (h_parser h) = Some rk;
  nc_match : h_match h = Some key;
  nc_forward : h_forward h = None;
  nc_closed : k_open (h_socket h) = false → i_magic (h_parser h) ≠ Some RPC_MAGIC;
  nc_nolink a g : p_handlers w !! a = Some g → h_forward g ≠ Some id;
  nc_nopool s k : od_get (pool s w) k ≠ Some id
}.

(** A change of a connection nobody knows. *)
Lemma inv_fresh_set w id h h' : inv None w → p_handlers w !! id = Some h → i_key (h_parser h) = None →
  i_key (h_parser h') ≠ None → i_magic (h_parser h') ≠ None → i_length (h_parser h') ≠ None →
  h_forward h' = None → h_done h' = h_done h → k_open (h_socket h') = k_open (h_socket h) →
  inv None (set_handler id h' w).
Proof.
  intros Hi Hh Hk0 Hk' Hm Hl Hf Hd Ho. destruct (inv_fresh _ _ Hi id h Hh Hk0) as (Hm0 & Hf0 & Hno).
  apply (inv_replace None); auto.
  - intros s k Hk. destruct (inv_pool _ _ Hi s k id Hk) as (g & rk & ? & ? & ? & _). congruence.
  - intros a g Ha Hg. by destruct (Hno a g Ha).
  - by intros.
  - rewrite Hd, Ho. by apply (inv_done _ _ Hi id).
Qed.

Lemma inv_timers x w t : inv x w → inv x (mkProxy (p_handlers w) (client_pool w) (server_pool w) t).
Proof.
  intros Hi. assert (∀ s, pool s (mkProxy (p_handlers w) (client_pool w) (server_pool w) t) = pool s w) as Hp by by intros [].
  split; try apply Hi; intros *; rewrite ?Hp; apply Hi.
Qed.

(** A connection starts to wait. *)
Lemma inv_wait w s id h rk key : inv None w → newcomer id h rk key w → startswith rk "server:" = s →
  od_get (pool s w) key = None → od_get (pool (negb s) w) key = None →
  inv None (set_pool s (od_set (pool s w) key id) w).
Proof.
  intros Hi Hn Hs Hno1 Hno2. set (w' := set_pool s _ w).
  assert (∀ s' k, od_get (pool s' w') k = if decide (s' = s ∧ k = key) then Some id else od_get (pool s' w) k) as Hget.
  { intros s' k. unfold w'. rewrite pool_set_pool. case_bool_decide as Hss.
    - subst s'. rewrite od_get_set. destruct (decide (key = k)), (decide (s = s ∧ k = key)); naive_solver.
    - case_decide as Hb; [by destruct Hb|done]. }
  assert (p_handlers w' = p_handlers w) as Hh by apply handlers_set_pool.
  split; rewrite ?Hh; try apply Hi.
  - intros s'. unfold w'. rewrite pool_set_pool. case_bool_decide; [apply od_set_NoDup|]; apply Hi.
  - intros k Hk1 Hk2. apply od_key_iff in Hk1 as [a Ha], Hk2 as [b Hb]. rewrite Hget in Ha, Hb.
    clear Hs Hn. destruct s; cbn [negb] in *;
      repeat (destruct (decide (_ ∧ k = key)) as [[? ?]|_]); try congruence.
    all: by apply (inv_disjoint _ _ Hi k); eapply od_get_Some_key.
  - intros s' k a. rewrite Hget. destruct (decide _) as [[-> ->]|_].
    + intros [= <-]. exists h, rk. destruct Hn. by split_and!.
    + apply (inv_pool _ _ Hi).
Qed.

Lemma partners_sym h g : partners h g → partners g h.
Proof.
  intros (k & rh & rg & ? & ? & ? & ? & Hs). exists k, rg, rh. split_and!; try done. rewrite Hs. by rewrite negb_involutive.
Qed.

(** A connection that waits, without its entry of the pool, and a newcomer of the other side are linked. *)
Lemma inv_pair w id other h g rk key : inv None w → newcomer id h rk key w →
  od_get (pool (negb (startswith rk "server:")) w) key = Some other →
  let w1 := set_pool (negb (startswith rk "server:")) (od_del (pool (negb (startswith rk "server:")) w) key) w in
  p_handlers w !! other = Some g →
  id ≠ other ∧ inv None (set_handler id (with_forward (Some other) h) (set_handler other (with_forward (Some id) g) w1)).
Proof.
  intros Hi Hn Hk w1 Hg. pose proof (pools_sub_del (negb (startswith rk "server:")) key w) as Hsub. fold w1 in Hsub.
  pose proof (inv_pools_sub _ _ _ Hi Hsub) as Hi1. destruct Hsub as (Hh1 & _ & Hp1).
  destruct (inv_pool _ _ Hi _ _ _ Hk) as (g' & rg & Hg' & Hgm & Hgk & Hgs & Hgf & _ & Hgn).
  assert (g' = g) as -> by congruence. clear Hg'.
  assert (id ≠ other) as Hne by (intros ->; by eapply (nc_nopool _ _ _ _ _ Hn)).
  split; [done|].
  assert (partners h g) as Hpar.
  { exists key, rk, rg. destruct Hn. split_and!; try done. rewrite Hgs. by rewrite negb_involutive. }
  assert (∀ s k a, od_get (pool s w1) k = Some a → a ≠ id ∧ a ≠ other) as Hpool.
  { intros s k a Ha. split; intros ->.
    - apply (Hp1 s (inv_nodup _ _ Hi s)) in Ha. by apply (nc_nopool _ _ _ _ _ Hn) in Ha.
    - pose proof Ha as Ha0. apply (Hp1 s (inv_nodup _ _ Hi s)) in Ha0.
      destruct (inv_pool _ _ Hi _ _ _ Ha0) as (q & rq & Hq & Hqm & Hqk & Hqs & _).
      assert (q = g) as -> by congruence. assert (k = key) as -> by congruence. assert (rq = rg) as -> by congruence.
      rewrite Hqs in Hgs. subst s. unfold w1 in Ha. rewrite pool_set_pool, bool_decide_true in Ha by done.
      rewrite od_get_del in Ha by apply Hi. by rewrite decide_True in Ha. }
  set (w' := set_handler id _ _).
  assert (∀ a, p_handlers w' !! a = if decide (a = id) then Some (with_forward (Some other) h)
    else if decide (a = other) then Some (with_forward (Some id) g) else p_handlers w !! a) as Hlook.
  { intros a. unfold w'. rewrite !lookup_set. by rewrite Hh1. }
  assert (∀ s, pool s w' = pool s w1) as Hpl by (intros s; unfold w'; by rewrite !pool_set).
  assert (∀ a q f, p_handlers w' !! a = Some q → h_forward q = Some f →
    a = id ∧ f = other ∨ a = other ∧ f = id ∨ a ≠ id ∧ a ≠ other ∧ f ≠ id ∧ f ≠ other ∧ p_handlers w !! a = Some q) as Hback.
  { intros a q f. rewrite Hlook. destruct (decide (a = id)); [intros [= <-] [= <-]; auto|].
    destruct (decide (a = other)); [intros [= <-] [= <-]; auto|]. intros Ha Hf. right. right. split_and!; try done.
    - intros ->. by apply (nc_nolink _ _ _ _ _ Hn a q).
    - intros ->. by apply (Hgn a q). }
  split.
  - intros s. rewrite Hpl. apply Hi1.
  - intros k. rewrite !Hpl. apply Hi1.
  - intros s k a. rewrite Hpl. intros Ha. destruct (Hpool s k a Ha) as [Hai Hao].
    destruct (inv_pool _ _ Hi1 s k a Ha) as (q & rq & Hq & ? & ? & ? & ? & ? & Hnl). exists q, rq. rewrite Hh1 in Hq, Hnl.
    rewrite Hlook, !decide_False by done. split_and!; try done. intros b r Hb Hr.
    destruct (Hback b r a Hb Hr) as [[_ ->]|[[_ ->]|(_ & _ & _ & _ & Hb')]]; [done..|]. by eapply Hnl.
  - intros a q f Ha Hf. destruct (Hback a q f Ha Hf) as [[-> ->]|[[-> ->]|(Hai & Hao & Hfi & Hfo & Ha')]].
    + split; [done|]. exists (with_forward (Some id) g). rewrite Hlook in Ha |- *.
      rewrite decide_True in Ha by done. injection Ha as <-. rewrite decide_False, decide_True by done. split_and!; auto.
    + split; [done|]. exists (with_forward (Some other) h). rewrite Hlook in Ha |- *.
      rewrite decide_False, decide_True in Ha by done. injection Ha as <-. rewrite decide_True by done.
      split_and!; auto. by apply (partners_sym h g).
    + destruct (inv_link _ _ Hi a q f Ha' Hf) as (? & p & ? & ? & ?). split; [done|]. exists p.
      by rewrite Hlook, !decide_False.
  - intros a b q r f Ha Hb Hq Hr. 
    destruct (Hback a q f Ha Hq) as [[-> ->]|[[-> ->]|(? & ? & ? & ? & Ha')]];
      destruct (Hback b r _ Hb Hr) as [[? ?]|[[? ?]|(? & ? & ? & ? & Hb')]]; try congruence.
    by eapply (inv_unique _ _ Hi).
  - intros a q Ha Hq. rewrite Hlook in Ha. destruct (decide (a = id)) as [->|Hai].
    { injection Ha as <-. simpl in Hq. by rewrite (nc_key _ _ _ _ _ Hn) in Hq. }
    destruct (decide (a = other)) as [->|Hao]; [injection Ha as <-; simpl in Hq; congruence|].
    destruct (inv_fresh _ _ Hi a q Ha Hq) as (? & ? & Hnl). split_and!; try done. intros b r Hb Hr.
    destruct (Hback b r a Hb Hr) as [[_ ->]|[[_ ->]|(_ & _ & _ & _ & Hb')]]; [done..|]. by eapply Hnl.
  - intros a q. rewrite Hlook. destruct (decide (a = id)); [|destruct (decide (a = other))]; [intros [= <-]..|apply Hi].
    + apply (inv_parse _ _ Hi id h), Hn.
    + by apply (inv_parse _ _ Hi other g).
  - intros a q. rewrite Hlook. destruct (decide (a = id)); [|destruct (decide (a = other))]; [intros [= <-]..|apply Hi].
    + apply (inv_done _ _ Hi id h), Hn.
    + by apply (inv_done _ _ Hi other g).
Qed.

Lemma newcomer_sub id h rk key w w' : pools_sub w w' → (∀ s, NoDup (od_keys (pool s w))) →
  newcomer id h rk key w → newcomer id h rk key w'.
Proof.
  intros (Hh & _ & Hp) Hnd Hn. split; rewrite ?Hh; try apply Hn.
  intros s k Hk. apply (Hp s (Hnd s)) in Hk. by apply (nc_nopool _ _ _ _ _ Hn) in Hk.
Qed.

Lemma good_fine_bind {A B} (m : ST proxy A) (k : A → ST proxy B) w w1 a :
  m w = (Ret a, w1) → keeps w w1 → inv None w1 → fine (k a) → good (sbind m k) w.
Proof. intros. eapply good_step; [done..|]. by apply good_fine. Qed.

Lemma handler_ready_good id h rk key w : inv None w → newcomer id h rk key w → good (handler_ready id) w.
Proof.
  intros Hi Hn. pose proof Hn as [Hh Hk Hm _ _ _ _]. unfold handler_ready.
  assert (rpc_key id w = (Ret rk, w)) as Hrk by (unfold rpc_key, sbind; by rewrite (get_run _ _ _ Hh), Hk).
  eapply good_step; [exact Hrk|apply keeps_refl|]. eapply good_step; [by apply get_run|apply keeps_refl|].
  rewrite Hm. eapply good_step; [done|apply keeps_refl|].
  destruct (od_get (pool (negb (startswith rk "server:")) w) key) as [other|] eqn:Ho.
  - destruct (inv_pool _ _ Hi _ _ _ Ho) as (g & rg & Hg & _).
    destruct (inv_pair w id other h g rk key Hi Hn Ho Hg) as [Hne Hi2].
    set (w1 := set_pool _ _ w) in Hi2.
    assert (p_handlers w1 = p_handlers w) as Hh1 by apply handlers_set_pool.
    assert (upd_handler other (with_forward (Some id)) w1 = (Ret tt, set_handler other (with_forward (Some id) g) w1)) as Hr1
      by (apply upd_run; by rewrite Hh1).
    assert (upd_handler id (with_forward (Some other)) (set_handler other (with_forward (Some id) g) w1) =
      (Ret tt, set_handler id (with_forward (Some other) h) (set_handler other (with_forward (Some id) g) w1))) as Hr2.
    { apply upd_run. by rewrite lookup_set, decide_False, Hh1. }
    eapply good_step; [done| |].
    { intros a q Ha. exists q. by rewrite handlers_set_pool. }
    eapply good_step; [exact Hr1| |].
    { eapply (keeps_set _ _ g); [by rewrite handlers_set_pool|done]. }
    eapply good_fine_bind; [exact Hr2| |exact Hi2|].
    { apply (keeps_set _ _ h); [|done]. by rewrite lookup_set, decide_False, Hh1. }
    apply fine_sbind; [apply fine_greet|]. intros _. apply fine_greet.
  - destruct (od_mem (pool (startswith rk "server:") w) key) eqn:Hmem.
    + apply good_fine; [|done]. apply fine_sbind; [apply fine_send_code|]. intros _. apply fine_signal.
    + eapply good_step; [done| |].
      { intros a q Ha. exists q. by rewrite handlers_set_pool. }
      split; simpl.
      * apply (inv_timers None (set_pool _ _ w)). apply (inv_wait _ _ _ h rk _ Hi Hn); auto. rewrite od_get_None_key. intros Hin. apply od_mem_true in Hin. congruence.
      * intros a q Ha. by exists q.
Qed.

(** ** Handshakes *)

(** What holds when bytes of a handshake are handled. *)
Definition may_read (id : nat) (w : proxy) : Prop :=
  ∃ h, p_handlers w !! id = Some h ∧ (i_key (h_parser h) = None → k_open (h_socket h) = false →
    ∃ m, i_magic (h_parser h) = Some m ∧ m ≠ RPC_MAGIC).

(** An update of the parser that leaves the magic, the length and the key. *)
Lemma good_buffer id w (f : parser → parser) : inv None w → may_read id w →
  (∀ p, i_magic (f p) = i_magic p ∧ i_length (f p) = i_length p ∧ i_key (f p) = i_key p) →
  ∃ w', upd_handler id (with_parser f) w = (Ret tt, w') ∧ inv None w' ∧ may_read id w'.
Proof.
  intros Hi (h & Hh & Hr) Hf. destruct (Hf (h_parser h)) as (E1 & E2 & E3). eexists. split; [by apply upd_run|]. split.
  - apply (inv_set _ _ _ h); simpl; auto.
  - eexists. split; [by rewrite lookup_set, decide_True|]. simpl. by rewrite E1, E3.
Qed.

Lemma may_read_close id w : inv None w → may_read id w →
  (∃ h m, p_handlers w !! id = Some h ∧ i_magic (h_parser h) = Some m ∧ m ≠ RPC_MAGIC) →
  ∃ w', close id w = (Ret tt, w') ∧ inv None w' ∧ may_read id w'.
Proof.
  intros Hi _ (h & m & Hh & Hm & Hne). destruct (close_top id w h Hi Hh) as (w' & Hrun & Hi' & Hf & _).
  exists w'. split; [done|]. split; [done|]. destruct (frame_handler _ _ Hf id h Hh) as (h' & Hh' & Hp & _).
  exists h'. split; [done|]. intros _ _. exists m. by rewrite Hp.
Qed.

(** The invariant and the condition to go on reading. *)
Definition reads {A} (m : ST proxy A) (id : nat) (w : proxy) : Prop := inv None (m w).2 ∧ may_read id (m w).2.

Lemma reads_step {A B} (m : ST proxy A) (k : A → ST proxy B) id w w1 a :
  m w = (Ret a, w1) → reads (k a) id w1 → reads (sbind m k) id w.
Proof. intros Hm. unfold reads, sbind. by rewrite Hm. Qed.

Lemma reads_raise {A B} (m : py A) (k : A → ST proxy B) id w :
  inv None w → may_read id w → (∀ a, m = Ret a → reads (k a) id w) → reads (sbind (slift m) k) id w.
Proof. intros Hi Hr Hk. unfold reads, sbind, slift. destruct m as [a|e]; [by apply Hk|done]. Qed.

Lemma may_read_keyed id h w : p_handlers w !! id = Some h → i_key (h_parser h) ≠ None → may_read id w.
Proof. intros Hh Hk. by exists h. Qed.

Lemma unread_key w id h : inv None w → p_handlers w !! id = Some h →
  i_magic (h_parser h) = None ∨ i_length (h_parser h) = None → i_key (h_parser h) = None.
Proof.
  intros Hi Hh Hor. destruct (i_key (h_parser h)) eqn:Hk; [|done]. 
  destruct (inv_parse _ _ Hi id h Hh) as [? ?]; [congruence|]. by destruct Hor.
Qed.

(** The magic, then the length of the key. *)
Lemma set_unread id w h f : inv None w → p_handlers w !! id = Some h → i_key (h_parser h) = None →
  i_key (f (h_parser h)) = None →
  (k_open (h_socket h) = false → ∃ m, i_magic (f (h_parser h)) = Some m ∧ m ≠ RPC_MAGIC) →
  let w' := set_handler id (with_parser f h) w in
  upd_handler id (with_parser f) w = (Ret tt, w') ∧ inv None w' ∧ may_read id w' ∧ p_handlers w' !! id = Some (with_parser f h).
Proof.
  intros Hi Hh Hk Hf Hc w'. split; [by apply upd_run|]. split; [|split].
  - apply (inv_set _ _ _ h); simpl; auto; congruence.
  - exists (with_parser f h). unfold w'. by rewrite lookup_set, decide_True.
  - unfold w'. by rewrite lookup_set, decide_True.
Qed.

Lemma reads_magic id message w h : inv None w → may_read id w → p_handlers w !! id = Some h →
  i_magic (h_parser h) = None → reads (init_step id message) id w.
Proof.
  intros Hi Hr Hh Hm. eapply reads_step; [by apply get_run|]. cbv zeta. rewrite Hm.
  apply reads_raise; [done|done|]. intros magic _.
  assert (k_open (h_socket h) = true) as Ho.
  { destruct (k_open (h_socket h)) eqn:Ho; [done|]. destruct Hr as (h' & Hh' & Hc). assert (h' = h) as -> by congruence.
    destruct Hc as (m & ? & _); [|done|congruence]. apply (unread_key w id); auto. }
  destruct (set_unread id w h (λ p, mkParser (i_message p) (i_req p) (Some magic) (i_length p) (i_key p)))
    as (Hrun & Hi1 & Hr1 & Hh1); [done|done|apply (unread_key w id); auto..|congruence|].
  eapply reads_step; [exact Hrun|]. set (w1 := set_handler _ _ w) in *.
  assert (∃ w2, (if bool_decide (magic = RPC_MAGIC) then sret tt else close id) w1 = (Ret tt, w2) ∧ inv None w2 ∧ may_read id w2)
    as (w2 & Hrun2 & Hi2 & Hr2).
  { case_bool_decide as Hmag; [by exists w1|]. apply may_read_close; [done..|]. eexists _, magic. by split_and!. }
  eapply reads_step; [exact Hrun2|].
  destruct (good_buffer id w2 (set_req 4) Hi2 Hr2) as (w3 & Hrun3 & ? & ?); [done|]. unfold reads. by rewrite Hrun3.
Qed.

Lemma reads_length id message w h m : inv None w → may_read id w → p_handlers w !! id = Some h →
  i_magic (h_parser h) = Some m → i_length (h_parser h) = None → reads (init_step id message) id w.
Proof.
  intros Hi Hr Hh Hm Hl. eapply reads_step; [by apply get_run|]. cbv zeta. rewrite Hm, Hl.
  apply reads_raise; [done|done|]. intros n _. pose proof (unread_key w id h Hi Hh (or_intror Hl)) as Hk.
  destruct (set_unread id w h (λ p, mkParser (i_message p) n (i_magic p) (Some n) (i_key p))) as (Hrun & ? & ? & _); [done..| |].
  { intros Hc. destruct Hr as (h' & Hh' & Hr). assert (h' = h) as -> by congruence. by apply Hr. }
  unfold reads. by rewrite Hrun.
Qed.

Lemma reads_key id message w h m n : inv None w → may_read id w → p_handlers w !! id = Some h →
  i_magic (h_parser h) = Some m → i_length (h_parser h) = Some n → i_key (h_parser h) = None →
  reads (init_step id message) id w.
Proof.
  intros Hi Hr Hh Hm Hl Hk. eapply reads_step; [by apply get_run|]. cbv zeta. rewrite Hm, Hl, Hk.
  apply reads_raise; [done|done|]. intros key _.
  destruct (inv_fresh _ _ Hi id h Hh Hk) as (Hma & Hf & Hno).
  set (h1 := with_parser (λ p, mkParser (i_message p) (i_req p) (i_magic p) (i_length p) (Some key)) h).
  assert (inv None (set_handler id h1 w)) as Hi1 by (apply (inv_fresh_set _ _ h); simpl; congruence).
  assert (p_handlers (set_handler id h1 w) !! id = Some h1) as Hh1 by (by rewrite lookup_set, decide_True).
  eapply reads_step; [by apply upd_run|]. fold h1.
  apply reads_raise; [done|by eapply may_read_keyed|]. intros key' _.
  set (h2 := with_match key' h1). set (w2 := set_handler id h2 w).
  assert (upd_handler id (with_match key') (set_handler id h1 w) = (Ret tt, w2)) as Hrun.
  { rewrite (upd_run _ _ _ _ Hh1). unfold set_handler. simpl. by rewrite insert_insert_eq. }
  assert (inv None w2) as Hi2 by (apply (inv_fresh_set _ _ h); simpl; congruence).
  assert (p_handlers w2 !! id = Some h2) as Hh2 by (unfold w2; by rewrite lookup_set, decide_True).
  eapply reads_step; [exact Hrun|].
  destruct (handler_ready_good id h2 key key' w2 Hi2) as [Hi3 Hk3].
  - split; try done.
    + simpl. intros Hc. destruct Hr as (h' & Hh' & Hr). assert (h' = h) as -> by congruence.
      destruct (Hr Hk Hc) as (m' & ? & ?). congruence.
    + intros a g. unfold w2. rewrite lookup_set. case_decide; [|apply Hno]. intros [= <-]. simpl. congruence.
    + intros s k. unfold w2. rewrite pool_set. intros Hp.
      destruct (inv_pool _ _ Hi s k id Hp) as (g & rk & Hg & _ & Hgk & _). congruence.
  - split; [done|]. destruct (Hk3 id h2 Hh2) as (h3 & Hh3 & Hp3). exists h3. split; [done|]. by rewrite Hp3.
Qed.

Lemma init_step_reads id message w : inv None w → may_read id w → reads (init_step id message) id w.
Proof.
  intros Hi Hr. pose proof Hr as (h & Hh & _). destruct (i_magic (h_parser h)) as [m|] eqn:Hm; [|by eapply reads_magic].
  destruct (i_length (h_parser h)) as [n|] eqn:Hl; [|by eapply reads_length].
  destruct (i_key (h_parser h)) as [k|] eqn:Hk; [|by eapply reads_key].
  eapply reads_step; [by apply get_run|]. cbv zeta. by rewrite Hm, Hl, Hk.
Qed.

(** One round of the loop, for bytes that are wanted. *)
Definition round (id : nat) (h : handler) (message : bytes) : ST proxy unit :=
  let p := h_parser h in
  let have := i_message p ++ take (Z.to_nat (i_req p - zlen (i_message p))) message in
  if (zlen have =? i_req p)%Z then
    let! _ := upd_handler id (with_parser (λ p, mkParser [] 0 (i_magic p) (i_length p) (i_key p))) in
    init_step id have
  else upd_handler id (with_parser (λ p, mkParser have (i_req p) (i_magic p) (i_length p) (i_key p))).

Definition wants (h : handler) : nat := Z.to_nat (i_req (h_parser h) - zlen (i_message (h_parser h))).

Lemma init_loop_round n id message w h : p_handlers w !! id = Some h → 0 < wants h → message ≠ [] →
  init_loop (S n) id message w = (let! _ := round id h message in init_loop n id (drop (wants h) message)) w.
Proof.
  intros Hh Hw Hne. cbn [init_loop]. unfold sbind at 1. rewrite (get_run _ _ _ Hh). unfold wants in *.
  destruct message as [|x message]; [done|]. cbv zeta. destruct (_ <=? _)%Z eqn:E; [|done]. apply Z.leb_le in E. lia.
Qed.

Lemma init_loop_stop n id message w h : p_handlers w !! id = Some h → message = [] ∨ wants h = 0 →
  init_loop n id message w = (Ret message, w).
Proof.
  intros Hh Hw. destruct n as [|n]; [done|]. cbn [init_loop]. unfold sbind at 1. rewrite (get_run _ _ _ Hh). unfold wants in *.
  destruct message as [|x message]; [done|]. destruct Hw as [|Hw]; [done|]. cbv zeta.
  destruct (_ <=? _)%Z eqn:E; [done|]. apply Z.leb_gt in E. lia.
Qed.

Lemma round_reads id message w h : inv None w → may_read id w → p_handlers w !! id = Some h → reads (round id h message) id w.
Proof.
  intros Hi Hr Hh. unfold round. cbv zeta. set (have := i_message _ ++ _). destruct (_ =? _)%Z.
  - destruct (good_buffer id w (λ p, mkParser [] 0 (i_magic p) (i_length p) (i_key p)) Hi Hr) as (w1 & Hrun & ? & ?); [done|].
    eapply reads_step; [exact Hrun|]. by apply init_step_reads.
  - destruct (good_buffer id w (λ p, mkParser have (i_req p) (i_magic p) (i_length p) (i_key p)) Hi Hr) as (w1 & Hrun & ? & ?); [done|].
    unfold reads. by rewrite Hrun.
Qed.

Lemma init_loop_reads id : ∀ fuel message w, inv None w → may_read id w → reads (init_loop fuel id message) id w.
Proof.
  intros fuel. induction fuel as [|fuel IH]; intros message w Hi Hr; [done|]. pose proof Hr as (h & Hh & _).
  destruct (decide (message = [] ∨ wants h = 0)) as [Hs|Hs]; [unfold reads; by rewrite (init_loop_stop _ _ _ _ h)|].
  unfold reads. rewrite (init_loop_round _ _ _ _ h); [|done|lia|naive_solver].
  destruct (round_reads id message w h Hi Hr Hh) as [H1 H2]. unfold sbind.
  destruct (round id h message w) as [[[]|e] w1]; simpl in *; [by apply IH|done].
Qed.

(** ** Events *)

Lemma on_data_inv id message w : inv None w → may_read id w → inv None (on_data id message w).2.
Proof.
  intros Hi Hr. pose proof Hr as (h & Hh & _). unfold on_data, sbind. rewrite (get_run _ _ _ Hh).
  destruct (h_forward h) as [f|]; [by apply fine_send_data|].
  destruct (init_loop_reads id (length message) message w Hi Hr) as [Hi1 _].
  destruct (init_loop _ _ _ w) as [[[|x rest]|e] w1]; simpl in *; try done. by apply fine_close.
Qed.

Lemma perform_inv e w : inv None w → enabled w e → inv None (perform e w).2.
Proof.
  intros Hi He. destruct e as [id|id chunk|id room|id|id|i]; simpl in He.
  - change (inv None (set_handler id handler_init w)). apply (inv_replace None); auto; try done.
    + intros s k Hk. destruct (inv_pool _ _ Hi s k id Hk) as (g & rk & Hg & _). congruence.
    + intros a g Ha Hf. destruct (inv_link _ _ Hi a g id Ha Hf) as (_ & p & ? & _). congruence.
    + intros _. split; [done|]. intros a g Ha Hf. destruct (inv_link _ _ Hi a g id Ha Hf) as (_ & p & ? & _). congruence.
  - destruct He as (h & Hh & Ho). unfold perform, update_read. destruct chunk as [|x chunk]; [by apply fine_close|].
    assert (inv None (on_data id (x :: chunk) w).2) as Hi1.
    { apply on_data_inv; [done|]. exists h. split; [done|]. congruence. }
    destruct (on_data id (x :: chunk) w) as [[a|e] w']; [done|]. destruct e; simpl in *; try done. by apply fine_close_pair.
  - apply (fine_sbind (upd_handler id _)); [by apply fine_socket|intros _; apply fine_update_write|done].
  - by apply fine_socket.
  - by apply fine_close_pair.
  - unfold perform, sbind at 1. simpl. destruct (p_timers w !! i) as [[[s key] id]|]; [|done].
    unfold sbind at 1. simpl. set (w1 := mkProxy _ _ _ _).
    assert (inv None w1) as Hi1 by (by apply inv_timers). revert Hi1. generalize w1. clear. intros w Hi.
    unfold cleanup, sbind at 1. simpl. case_bool_decide as Hk; [|done]. unfold sbind at 1. simpl.
    apply (fine_sbind (send_code id _)); [apply fine_send_code|intros _; apply fine_signal|].
    eapply inv_pools_sub; [exact Hi|apply pools_sub_del].
Qed.

Lemma reachable_inv w : reachable w → inv None w.
Proof.
  induction 1 as [|w e _ IH He]; [|by apply perform_inv]. split; simpl; try done.
  - intros []; apply NoDup_nil_2.
  - intros k Hk. by apply elem_of_nil in Hk.
  - by intros [] k id.
Qed.
