(* ===== verification/ProxySpec.v ===== *)
(** * The RPC proxy: matching, forwarding, handshakes *)

From S2P Require Import Prelude PyText Tracker TrackerSpec Proxy ProxyInv.

(** ** Streams *)

(** The operation leaves what was sent and what is to be sent, for every connection. *)
Definition calm {A} (m : ST proxy A) : Prop := ∀ w a h, p_handlers w !! a = Some h →
  ∃ h', p_handlers (m w).2 !! a = Some h' ∧ k_sent (h_socket h') = k_sent (h_socket h) ∧
    k_pending (h_socket h') = k_pending (h_socket h).

Lemma calm_same {A} (m : ST proxy A) : (∀ w, p_handlers (m w).2 = p_handlers w) → calm m.
Proof. intros Hm w a h Ha. exists h. by rewrite Hm. Qed.

Lemma calm_bind {A B} (m : ST proxy A) (k : A → ST proxy B) : calm m → (∀ a, calm (k a)) → calm (sbind m k).
Proof.
  intros Hm Hk w a h Ha. unfold sbind. destruct (Hm w a h Ha) as (h1 & Ha1 & E1 & E2).
  destruct (m w) as [[x|e] w1]; simpl in *; [|by exists h1]. destruct (Hk x w1 a h1 Ha1) as (h2 & Ha2 & E3 & E4).
  exists h2. by rewrite E3, E4.
Qed.

Lemma calm_get id : calm (get_handler id).
Proof. apply calm_same. intros w. unfold get_handler. by destruct (p_handlers w !! id). Qed.

Lemma calm_upd id f : (∀ h, k_sent (h_socket (f h)) = k_sent (h_socket h) ∧ k_pending (h_socket (f h)) = k_pending (h_socket h)) →
  calm (upd_handler id f).
Proof.
  intros Hf w a h Ha. unfold upd_handler, sbind, get_handler. destruct (p_handlers w !! id) as [g|] eqn:Hg; simpl; [|by exists h].
  destruct (decide (a = id)) as [->|].
  - exists (f g). rewrite lookup_insert_eq. assert (g = h) as -> by congruence. by destruct (Hf h).
  - exists h. by rewrite lookup_insert_ne.
Qed.

Lemma calm_close_fuel n : ∀ id, calm (close_fuel n id).
Proof.
  induction n as [|n IH]; intros id; [by apply calm_same|]. simpl. apply calm_bind; [apply calm_get|]. intros h.
  destruct (k_open _); [|by apply calm_same]. apply calm_bind; [by apply calm_upd|]. intros _.
  unfold on_close_with. apply calm_bind; [apply calm_get|]. intros h1. apply calm_bind.
  - destruct (h_forward h1) as [f|]; [|by apply calm_same]. apply calm_bind; [|intros _; by apply calm_upd].
    unfold signal_close_with. apply calm_bind; [apply calm_get|]. intros h2. destruct (k_pending _); [apply IH|by apply calm_upd].
  - intros _. unfold on_close_event. apply calm_bind; [apply calm_get|]. intros h2. destruct (h_done h2); [by apply calm_same|].
    apply calm_bind; [|intros _; by apply calm_upd]. apply calm_same. intros w.
    pose proof (pools_sub_leaves (h_match h2) id w) as (Hh & _). by destruct (h_match h2).
Qed.

Lemma drain_spec : ∀ msgs room sent, let '(m, r, s) := drain room msgs sent in
  s = sent ++ take room (concat msgs) ∧ concat m = drop room (concat msgs).
Proof.
  induction msgs as [|msg rest IH]; intros room sent; simpl.
  - by rewrite take_nil, drop_nil, app_nil_r.
  - destruct (length msg <=? room) eqn:E.
    + apply Nat.leb_le in E. specialize (IH (room - length msg) (sent ++ msg)).
      destruct (drain _ _ _) as [[m r] s]. destruct IH as [-> ->].
      rewrite take_app_ge, drop_app_ge by done. by rewrite <-app_assoc.
    + apply Nat.leb_gt in E. simpl. by rewrite take_app_le, drop_app_le by lia.
Qed.

Lemma drained_spec s : k_sent (drained s) = k_sent s ++ take (k_room s) (concat (k_pending s)) ∧
  concat (k_pending (drained s)) = drop (k_room s) (concat (k_pending s)).
Proof.
  unfold drained. pose proof (drain_spec (k_pending s) (k_room s) (k_sent s)) as Hd.
  destruct (drain _ _ _) as [[m r] t]. done.
Qed.

(** [_update_write] of an open socket that works. *)
Lemma update_write_ok id w h : inv None w → p_handlers w !! id = Some h → k_open (h_socket h) = true →
  k_broken (h_socket h) = false →
  ∃ w' h', update_write id w = (Ret tt, w') ∧ p_handlers w' !! id = Some h' ∧
    k_sent (h_socket h') = k_sent (h_socket h) ++ take (k_room (h_socket h)) (concat (k_pending (h_socket h))) ∧
    concat (k_pending (h_socket h')) = drop (k_room (h_socket h)) (concat (k_pending (h_socket h))) ∧
    (k_signal (h_socket h) = true → k_pending (h_socket h') = [] → k_open (h_socket h') = false).
Proof.
  intros Hi Hh Ho Hb. unfold update_write, sbind at 1. rewrite (get_run _ _ _ Hh).
  assert (∀ w h, inv None w → p_handlers w !! id = Some h → ∃ w' h', close id w = (Ret tt, w') ∧
    p_handlers w' !! id = Some h' ∧ k_sent (h_socket h') = k_sent (h_socket h) ∧
    k_pending (h_socket h') = k_pending (h_socket h) ∧ k_open (h_socket h') = false) as Hclose.
  { clear. intros w h Hi Hh. destruct (close_top id w h Hi Hh) as (w' & Hrun & _ & _ & h' & Hh' & Hc).
    destruct (calm_close_fuel (S (S (size (p_handlers w)))) id w id h Hh) as (h2 & Hh2 & E1 & E2).
    unfold close in Hrun |- *. rewrite Hrun in Hh2 |- *. simpl in Hh2. exists w', h'. split_and!; try done; congruence. }
  destruct (k_pending (h_socket h)) as [|m ms] eqn:Hp.
  - cbn [concat]. rewrite take_nil, drop_nil, app_nil_r. destruct (k_signal (h_socket h)).
    + destruct (Hclose w h Hi Hh) as (w' & h' & ? & ? & Es & Ep & ?). exists w', h'. rewrite Es, Ep, Hp. by split_and!.
    + exists w, h. rewrite Hp. by split_and!.
  - rewrite Ho, Hb. cbn [negb]. rewrite <-Hp. clear Hp. unfold sbind at 1.
    destruct (drained_spec (h_socket h)) as [Es Ep].
    destruct (fine_socket id drained drained_open w Hi) as [Hi1 _]. rewrite (upd_run _ _ _ _ Hh) in Hi1 |- *. simpl in Hi1.
    set (w1 := set_handler _ _ w) in *.
    assert (p_handlers w1 !! id = Some (with_socket drained h)) as Hh1 by (unfold w1; by rewrite lookup_set, decide_True).
    unfold sbind. rewrite (get_run _ _ _ Hh1). simpl.
    assert (k_signal (drained (h_socket h)) = k_signal (h_socket h)) as -> by (unfold drained; by destruct (drain _ _ _) as [[??]?]).
    destruct (k_pending (drained (h_socket h))) as [|m' ms'] eqn:Hp; [destruct (k_signal (h_socket h))|].
    + destruct (Hclose w1 _ Hi1 Hh1) as (w' & h' & ? & ? & Es' & Ep' & ?). exists w', h'. rewrite Es', Ep'. simpl.
      rewrite Hp. by split_and!.
    + exists w1, (with_socket drained h). simpl. rewrite Hp. by split_and!.
    + exists w1, (with_socket drained h). simpl. rewrite Hp. by split_and!.
Qed.

(** [send_data] on an open connection that works. *)
Lemma send_data_ok id message w h : inv None w → p_handlers w !! id = Some h → k_open (h_socket h) = true →
  k_broken (h_socket h) = false →
  ∃ w' h', send_data id message w = (Ret tt, w') ∧ p_handlers w' !! id = Some h' ∧
    k_sent (h_socket h) `prefix_of` k_sent (h_socket h') ∧
    k_sent (h_socket h') ++ concat (k_pending (h_socket h')) =
      k_sent (h_socket h) ++ concat (k_pending (h_socket h)) ++ message.
Proof.
  intros Hi Hh Ho Hb. unfold send_data, sbind at 1. rewrite (get_run _ _ _ Hh), Ho. cbn [negb]. unfold sbind.
  destruct (fine_socket id (enqueue message) (λ _, eq_refl) w Hi) as [Hi1 _].
  rewrite (upd_run _ _ _ _ Hh) in Hi1 |- *. simpl in Hi1. set (w1 := set_handler _ _ w) in *.
  assert (p_handlers w1 !! id = Some (with_socket (enqueue message) h)) as Hh1 by (unfold w1; by rewrite lookup_set, decide_True).
  destruct (update_write_ok id w1 _ Hi1 Hh1 Ho Hb) as (w' & h' & -> & Hh' & Es & Ep & _). exists w', h'.
  split_and!; try done; rewrite Es; simpl.
  - by eexists.
  - rewrite Ep. simpl. rewrite concat_app. cbn [concat]. by rewrite app_nil_r, <-app_assoc, take_drop.
Qed.

(** C14: In every state of the proxy no key waits on both sides; a connection that waits is not linked
    to anybody, waits on the side its own key names, and is open unless its magic was wrong; a link joins two
    different connections with the same match key and opposite sides, goes both ways unless the other end
    is closed, and no two connections link to the same one. *)
Theorem proxy_matching w : reachable w →
  (∀ k, k ∈ od_keys (server_pool w) → k ∉ od_keys (client_pool w)) ∧
  (∀ s k id, od_get (pool s w) k = Some id → ∃ h rk, p_handlers w !! id = Some h ∧ h_match h = Some k ∧
    i_key (h_parser h) = Some rk ∧ startswith rk "server:" = s ∧ h_forward h = None ∧
    (k_open (h_socket h) = false → i_magic (h_parser h) ≠ Some RPC_MAGIC) ∧
    ∀ a g, p_handlers w !! a = Some g → h_forward g ≠ Some id) ∧
  (∀ a h f, p_handlers w !! a = Some h → h_forward h = Some f → f ≠ a ∧ ∃ g, p_handlers w !! f = Some g ∧
    partners h g ∧ (h_forward g = Some a ∨ k_open (h_socket g) = false)) ∧
  (∀ a b h g f, p_handlers w !! a = Some h → p_handlers w !! b = Some g →
    h_forward h = Some f → h_forward g = Some f → a = b).
Proof.
  intros Hr. pose proof (reachable_inv w Hr) as Hi. split; [apply Hi|]. split; [apply Hi|]. split; [|apply Hi].
  intros a h f Ha Hf. destruct (inv_link _ _ Hi a h f Ha Hf) as (? & g & ? & ? & [?|[?|[=]]]); split; try done;
    exists g; auto.
Qed.

(** C16: Bytes that a connection with a link reads are, when the other end is open and works, appended to
    what the other end was sent and is still to be sent, all of them, once, in order and without an
    error; when sending to the other end fails, the other end is closed; when the other end is closed
    already, the connection itself is closed. *)
Theorem proxy_forwards w id h f chunk : reachable w → p_handlers w !! id = Some h → k_open (h_socket h) = true →
  h_forward h = Some f → chunk ≠ [] →
  ∃ g w', p_handlers w !! f = Some g ∧ perform (Read id chunk) w = (Ret tt, w') ∧
    if negb (k_open (h_socket g)) then closed_in w' id
    else if k_broken (h_socket g) then closed_in w' f
    else ∃ g', p_handlers w' !! f = Some g' ∧ k_sent (h_socket g) `prefix_of` k_sent (h_socket g') ∧
      k_sent (h_socket g') ++ concat (k_pending (h_socket g')) =
        k_sent (h_socket g) ++ concat (k_pending (h_socket g)) ++ chunk.
Proof.
  intros Hreach Hh Ho Hf Hne. pose proof (reachable_inv w Hreach) as Hi.
  destruct (inv_link _ _ Hi id h f Hh Hf) as (_ & g & Hg & _). exists g.
  assert (on_data id chunk w = send_data f chunk w) as Hon by (unfold on_data, sbind at 1; by rewrite (get_run _ _ _ Hh), Hf).
  unfold perform, update_read. destruct chunk as [|x chunk]; [done|]. rewrite Hon. clear Hon.
  destruct (k_open (h_socket g)) eqn:Hog; [destruct (k_broken (h_socket g)) eqn:Hb|]; cbn [negb].
  - unfold send_data, sbind at 1. rewrite (get_run _ _ _ Hg), Hog. cbn [negb]. unfold sbind.
    destruct (fine_socket f (enqueue (x :: chunk)) (λ _, eq_refl) w Hi) as [Hi1 _].
    rewrite (upd_run _ _ _ _ Hg) in Hi1 |- *. simpl in Hi1. set (w1 := set_handler _ _ w) in *.
    assert (p_handlers w1 !! f = Some (with_socket (enqueue (x :: chunk)) g)) as Hg1 by (unfold w1; by rewrite lookup_set, decide_True).
    unfold update_write, sbind at 1. rewrite (get_run _ _ _ Hg1). simpl.
    destruct (close_pair_ok f w1 _ Hi1 Hg1) as (w' & Hrun & _ & _ & Hc).
    destruct (k_pending (h_socket g) ++ [x :: chunk]) eqn:Hp; [by apply app_nil in Hp as [_ ?]|].
    rewrite Hog, Hb. cbn [negb]. rewrite Hrun. by exists w'.
  - destruct (send_data_ok f (x :: chunk) w g Hi Hg Hog Hb) as (w' & g' & -> & Hg' & Hpre & Heq). exists w'.
    split_and!; try done. by exists g'.
  - unfold send_data, sbind at 1. rewrite (get_run _ _ _ Hg), Hog. simpl.
    destruct (close_pair_ok id w h Hi Hh) as (w' & -> & _ & _ & Hc). by exists w'.
Qed.

(** ** Chunks *)

(** The fuel is enough: every round takes a byte. *)
Lemma init_loop_fuel id : ∀ n m message w, length message ≤ n → length message ≤ m → inv None w → may_read id w →
  init_loop n id message w = init_loop m id message w.
Proof.
  intros n. induction n as [|n IH]; intros m message w Hn Hm Hi Hr; pose proof Hr as (h & Hh & _).
  - by destruct message as [|x message]; [rewrite !(init_loop_stop _ _ _ _ h) by auto|simpl in Hn; lia].
  - destruct (decide (message = [] ∨ wants h = 0)) as [Hs|Hs]; [by rewrite !(init_loop_stop _ _ _ _ h)|].
    assert (message ≠ []) as Hne by naive_solver.
    destruct m as [|m]; [destruct message; [done|simpl in Hm; lia]|]. rewrite !(init_loop_round _ _ _ _ h) by (done || lia).
    destruct (round_reads id message w h Hi Hr Hh) as [H1 H2]. unfold sbind.
    destruct (round id h message w) as [[[]|e] w1]; simpl in *; [|done].
    destruct message as [|x message]; [done|]. apply IH; try done; rewrite length_drop; simpl in *; lia.
Qed.

(** A round with fewer bytes than are wanted, and then one with more. *)
Lemma round_split id a b w h : p_handlers w !! id = Some h → length a < wants h → b ≠ [] →
  ∃ h1, let w1 := set_handler id h1 w in round id h a w = (Ret tt, w1) ∧ wants h1 = wants h - length a ∧
    round id h (a ++ b) w = round id h1 b w1.
Proof.
  intros Hh Ha Hb. unfold wants in *.
  set (have := i_message (h_parser h) ++ a).
  exists (with_parser (λ p, mkParser have (i_req p) (i_magic p) (i_length p) (i_key p)) h). cbv zeta.
  set (w1 := set_handler id _ w).
  assert (p_handlers w1 !! id = Some (with_parser (λ p, mkParser have (i_req p) (i_magic p) (i_length p) (i_key p)) h)) as Hh1
    by (unfold w1; by rewrite lookup_set, decide_True).
  assert (zlen have = zlen (i_message (h_parser h)) + zlen a)%Z as Hlen by (unfold have, zlen; rewrite length_app; lia).
  split; [|split].
  - unfold round. cbv zeta. rewrite (take_ge a) by lia. fold have. destruct (_ =? _)%Z eqn:E.
    + apply Z.eqb_eq in E. unfold zlen in *. lia.
    + by rewrite (upd_run _ _ _ _ Hh).
  - simpl. rewrite Hlen. unfold zlen. lia.
  - unfold round. cbv zeta. simpl h_parser. simpl i_message. simpl i_req.
    assert (i_message (h_parser h) ++ take (Z.to_nat (i_req (h_parser h) - zlen (i_message (h_parser h)))) (a ++ b) =
      have ++ take (Z.to_nat (i_req (h_parser h) - zlen have)) b) as ->.
    { unfold have at 1. rewrite <-app_assoc. f_equal. rewrite take_app_ge by lia. f_equal. f_equal. rewrite Hlen. unfold zlen. lia. }
    destruct (_ =? _)%Z; unfold sbind; rewrite (upd_run _ _ _ _ Hh), (upd_run _ _ _ _ Hh1); unfold w1, set_handler; simpl;
      by rewrite insert_insert_eq.
Qed.

Lemma init_loop_app id b : ∀ n a w w1, length a ≤ n → inv None w → may_read id w → init_loop n id a w = (Ret [], w1) →
  ∀ m m2, length (a ++ b) ≤ m → length b ≤ m2 → init_loop m id (a ++ b) w = init_loop m2 id b w1.
Proof.
  intros n. induction n as [|n IH]; intros a w w1 Hn Hi Hr Hrun m m2 Hm Hm2; pose proof Hr as (h & Hh & _).
  { assert (a = []) as -> by (destruct a; [done|simpl in Hn; lia]). injection Hrun as <-. by apply init_loop_fuel. }
  destruct (decide (a = [])) as [->|Hne].
  { rewrite (init_loop_stop _ _ _ _ h) in Hrun by auto. injection Hrun as <-. by apply init_loop_fuel. }
  destruct (decide (wants h = 0)) as [Hw|Hw]; [rewrite (init_loop_stop _ _ _ _ h) in Hrun by auto; congruence|].
  destruct m as [|m]; [rewrite length_app in Hm; destruct a; [done|simpl in Hm; lia]|].
  destruct (decide (b = [])) as [->|Hb].
  { rewrite app_nil_r in *. rewrite (init_loop_fuel id (S m) (S n)) by done. rewrite Hrun.
    pose proof (init_loop_reads id (S n) a w Hi Hr) as [_ (h1 & Hh1 & _)]. rewrite Hrun in Hh1.
    by rewrite (init_loop_stop _ _ _ _ h1) by auto. }
  rewrite (init_loop_round _ _ _ _ h) in Hrun by (done || lia).
  rewrite (init_loop_round _ _ _ _ h); [|done|lia|by intros [? ?]%app_eq_nil].
  destruct (decide (length a < wants h)) as [Hlt|Hge].
  - destruct (round_split id a b w h Hh Hlt Hb) as (h1 & Hr1 & Hw1 & Hr2). cbv zeta in *. unfold sbind in Hrun at 1.
    pose proof (round_reads id a w h Hi Hr Hh) as [Hi1 Hm1].
    rewrite Hr1 in Hrun, Hi1, Hm1. cbn [snd] in Hi1, Hm1. set (w' := set_handler id h1 w) in *.
    assert (p_handlers w' !! id = Some h1) as Hh1 by (unfold w'; by rewrite lookup_set, decide_True).
    rewrite drop_ge in Hrun by lia. rewrite (init_loop_stop _ _ _ _ h1) in Hrun by auto. injection Hrun as <-.
    destruct m2 as [|m2]; [destruct b; [done|simpl in Hm2; lia]|].
    rewrite (init_loop_round _ _ _ _ h1) by (done || lia). unfold sbind. rewrite Hr2.
    rewrite drop_app_ge by lia. rewrite <-Hw1.
    pose proof (round_reads id b w' h1 Hi1 Hm1 Hh1) as [Hi2 Hm3]. destruct (round id h1 b w') as [[[]|e] w2]; [|done].
    apply init_loop_fuel; try done; rewrite length_drop; rewrite ?length_app in Hm; simpl in *; lia.
  - assert (round id h (a ++ b) = round id h a) as ->.
    { unfold round, wants in *. cbv zeta. by rewrite take_app_le by lia. }
    rewrite drop_app_le by lia. unfold sbind in Hrun |- *. pose proof (round_reads id a w h Hi Hr Hh) as [Hi1 Hm1].
    destruct (round id h a w) as [[[]|e] w2]; [|done]. simpl in *.
    destruct a as [|x a]; [done|].
    eapply IH; [|exact Hi1|exact Hm1|exact Hrun|..]; try done; rewrite ?length_app, ?length_drop; simpl in *; rewrite ?length_app in Hm; lia.
Qed.

(** C17: As long as no key has been read, the bytes of a handshake may come in any pieces: reading [a]
    and then [b] is reading [a ++ b], for the connection, the pools and the other connections alike. *)
Theorem proxy_chunks w id h h1 a b w1 : reachable w → a ≠ [] → b ≠ [] →
  p_handlers w !! id = Some h → k_open (h_socket h) = true → i_key (h_parser h) = None →
  perform (Read id a) w = (Ret tt, w1) →
  p_handlers w1 !! id = Some h1 → k_open (h_socket h1) = true → i_key (h_parser h1) = None →
  perform (Read id (a ++ b)) w = perform (Read id b) w1.
Proof.
  intros Hreach Ha Hb Hh Ho Hk Hrun Hh1 Ho1 Hk1. pose proof (reachable_inv w Hreach) as Hi.
  assert (may_read id w) as Hr by (exists h; split; [done|congruence]).
  assert (inv None w1) as Hi1.
  { assert (enabled w (Read id a)) as He by by exists h. pose proof (perform_inv (Read id a) w Hi He) as Hi1. by rewrite Hrun in Hi1. }
  destruct (inv_fresh _ _ Hi id h Hh Hk) as (_ & Hf & _), (inv_fresh _ _ Hi1 id h1 Hh1 Hk1) as (_ & Hf1 & _).
  assert (∀ w h message, p_handlers w !! id = Some h → h_forward h = None → on_data id message w =
    (let! rest := init_loop (length message) id message in match rest with [] => sret tt | _ => close id end) w) as Hon.
  { clear. intros w h message Hh Hf. unfold on_data, sbind at 1. by rewrite (get_run _ _ _ Hh), Hf. }
  assert (init_loop (length a) id a w = (Ret [], w1)) as Hloop.
  { unfold perform, update_read in Hrun. destruct a as [|x a]; [done|]. rewrite (Hon _ h) in Hrun by done. unfold sbind in Hrun.
    destruct (init_loop_reads id (length (x :: a)) (x :: a) w Hi Hr) as [Hi2 (h2 & Hh2 & _)].
    destruct (init_loop _ _ _ w) as [[[|y rest]|e] w2]; simpl in *.
    - injection Hrun as <-. done.
    - destruct (close_top id w2 h2 Hi2 Hh2) as (w3 & Hc & _ & _ & h3 & Hh3 & Ho3). rewrite Hc in Hrun.
      injection Hrun as <-. congruence.
    - destruct e; try done. destruct (close_pair_ok id w2 h2 Hi2 Hh2) as (w3 & Hc & _ & _ & h3 & Hh3 & Ho3).
      rewrite Hc in Hrun. injection Hrun as <-. congruence. }
  unfold perform, update_read. destruct (a ++ b) as [|x ab] eqn:Hab; [by apply app_eq_nil in Hab as [? ?]|].
  destruct b as [|y b]; [done|]. rewrite (Hon w h), (Hon w1 h1) by done. rewrite <-Hab. unfold sbind.
  by rewrite (init_loop_app id (y :: b) (length a) a w w1 (le_n _) Hi Hr Hloop _ (length (y :: b)) (le_n _) (le_n _)).
Qed.

(** ** Two peers that meet *)

(** What a peer sends first. *)
Definition hello (magic : Z) (key : string) : bytes :=
  match pack_i32 magic, pack_i32 (Z.of_nat (String.length key)) with
  | Ret m, Ret n => m ++ n ++ encode key
  | _, _ => []
  end.

(** The messages sent to an open connection that works. *)
Definition post1 (m : bytes) (h : handler) : handler := with_socket drained (with_socket (enqueue m) h).
Definition post (ms : list bytes) (h : handler) : handler := foldl (λ h m, post1 m h) h ms.

Definition works (h : handler) : Prop :=
  k_open (h_socket h) = true ∧ k_broken (h_socket h) = false ∧ k_signal (h_socket h) = false.

Definition stream (h : handler) : bytes := k_sent (h_socket h) ++ concat (k_pending (h_socket h)).

Lemma post1_works m h : works h → works (post1 m h).
Proof. intros (? & ? & ?). unfold works, post1, with_socket, drained. simpl. by destruct (drain _ _ _) as [[??]?]. Qed.

Lemma post_works ms : ∀ h, works h → works (post ms h).
Proof. induction ms as [|m ms IH]; intros h Hw; [done|]. by apply IH, post1_works. Qed.

Lemma post1_stream m h : stream (post1 m h) = stream h ++ m.
Proof.
  unfold stream, post1, with_socket. simpl. destruct (drained_spec (enqueue m (h_socket h))) as [-> ->]. simpl.
  rewrite concat_app. cbn [concat]. by rewrite app_nil_r, <-!app_assoc, take_drop.
Qed.

Lemma post_stream ms : ∀ h, stream (post ms h) = stream h ++ concat ms.
Proof.
  induction ms as [|m ms IH]; intros h; [by rewrite app_nil_r|]. change (post (m :: ms) h) with (post ms (post1 m h)).
  by rewrite IH, post1_stream, <-app_assoc.
Qed.

Lemma post_keeps ms : ∀ h, h_parser (post ms h) = h_parser h ∧ h_forward (post ms h) = h_forward h.
Proof. induction ms as [|m ms IH]; intros h; [done|]. apply (IH (post1 m h)). Qed.

Lemma set_set id h h' w : set_handler id h' (set_handler id h w) = set_handler id h' w.
Proof. unfold set_handler. simpl. by rewrite insert_insert_eq. Qed.

Lemma lookup_set_eq id h w : p_handlers (set_handler id h w) !! id = Some h.
Proof. by rewrite lookup_set, decide_True. Qed.

Lemma send_exact id m w h : p_handlers w !! id = Some h → works h → send_data id m w = (Ret tt, set_handler id (post1 m h) w).
Proof.
  intros Hh (Ho & Hb & Hs). unfold send_data, sbind at 1. rewrite (get_run _ _ _ Hh), Ho. cbn [negb]. unfold sbind at 1.
  rewrite (upd_run _ _ _ _ Hh). set (w1 := set_handler _ _ w).
  assert (p_handlers w1 !! id = Some (with_socket (enqueue m) h)) as Hh1 by apply lookup_set_eq.
  unfold update_write, sbind at 1. rewrite (get_run _ _ _ Hh1). cbn [with_socket h_socket enqueue k_open k_broken k_pending].
  rewrite Ho, Hb. cbn [negb]. destruct (k_pending (h_socket h) ++ [m]) as [|x l] eqn:Hp; [by apply app_nil in Hp as [_ ?]|].
  unfold sbind at 1. rewrite (upd_run _ _ _ _ Hh1). fold (post1 m h). unfold w1. rewrite set_set.
  unfold sbind. rewrite (get_run _ _ _ (lookup_set_eq _ _ _)).
  destruct (post1_works m h) as (_ & _ & ->); [done|]. by destruct (k_pending (h_socket (post1 m h))).
Qed.

(** The greeting of [id] by the key of [other]. *)
Definition greeting (rk : string) (code len : bytes) : list bytes := [code; len; encode rk].

Lemma greet_exact id other w h g rk code len : p_handlers w !! id = Some h → works h → id ≠ other →
  p_handlers w !! other = Some g → i_key (h_parser g) = Some rk →
  pack_i32 RPC_CODE_SUCCESS = Ret code → pack_i32 (Z.of_nat (String.length rk)) = Ret len →
  greet id other w = (Ret tt, set_handler id (post (greeting rk code len) h) w).
Proof.
  intros Hh Hw Hne Hg Hk Hcode Hlen. unfold greet, send_code, sbind at 1. rewrite Hcode. unfold sbind at 1, slift.
  rewrite (send_exact _ _ _ _ Hh Hw). set (w1 := set_handler id (post1 code h) w).
  assert (rpc_key other w1 = (Ret rk, w1)) as Hrk.
  { unfold rpc_key, sbind. rewrite (get_run _ _ g); [by rewrite Hk|]. unfold w1. by rewrite lookup_set, decide_False. }
  unfold sbind at 1. rewrite Hrk. unfold sbind. rewrite Hlen.
  rewrite (send_exact id len w1 (post1 code h)); [|apply lookup_set_eq|by apply post1_works].
  unfold w1. rewrite set_set. rewrite (send_exact id (encode rk) _ (post1 len (post1 code h)));
    [|apply lookup_set_eq|by apply post1_works, post1_works].
  by rewrite set_set.
Qed.

(** [_handler_ready_proxy_mode] when the other side waits. *)
Lemma ready_meets id other w h g key rk k code lk lr : p_handlers w !! id = Some h → works h →
  i_key (h_parser h) = Some key → h_match h = Some k → id ≠ other →
  od_get (pool (negb (startswith key "server:")) w) k = Some other →
  p_handlers w !! other = Some g → works g → i_key (h_parser g) = Some rk →
  pack_i32 RPC_CODE_SUCCESS = Ret code → pack_i32 (Z.of_nat (String.length key)) = Ret lk →
  pack_i32 (Z.of_nat (String.length rk)) = Ret lr →
  ∃ w', handler_ready id w = (Ret tt, w') ∧
    p_handlers w' !! id = Some (post (greeting rk code lr) (with_forward (Some other) h)) ∧
    p_handlers w' !! other = Some (post (greeting key code lk) (with_forward (Some id) g)) ∧
    pool (negb (startswith key "server:")) w' = od_del (pool (negb (startswith key "server:")) w) k.
Proof.
  intros Hh Hw Hk Hm Hne Ho Hg Hwg Hrk Hcode Hlk Hlr. unfold handler_ready.
  set (s := negb (startswith key "server:")) in *. set (w1 := set_pool s (od_del (pool s w) k) w).
  assert (p_handlers w1 = p_handlers w) as Hh1 by apply handlers_set_pool.
  set (w2 := set_handler other (with_forward (Some id) g) w1). set (w3 := set_handler id (with_forward (Some other) h) w2).
  assert (pair_up other id w1 = (let! _ := greet other id in greet id other) w3) as Hpair.
  { unfold pair_up, sbind at 1. rewrite (upd_run _ _ _ g) by (by rewrite Hh1). fold w2. unfold sbind at 1.
    rewrite (upd_run _ _ _ h); [done|]. unfold w2. by rewrite lookup_set, decide_False, Hh1. }
  assert (p_handlers w3 !! other = Some (with_forward (Some id) g)) as Hg3.
  { unfold w3. rewrite lookup_set, decide_False by done. apply lookup_set_eq. }
  assert (p_handlers w3 !! id = Some (with_forward (Some other) h)) as Hh3 by apply lookup_set_eq.
  unfold rpc_key. unfold sbind at 1. unfold sbind at 1. rewrite (get_run _ _ _ Hh), Hk. cbn [sret].
  unfold sbind at 1. rewrite (get_run _ _ _ Hh), Hm. unfold sbind at 1. cbn [sget]. fold s. rewrite Ho.
  unfold sbind at 1. cbn [smod]. fold w1. rewrite Hpair. unfold sbind.
  rewrite (greet_exact other id w3 _ (with_forward (Some other) h) key code lk Hg3); [|exact Hwg|done|exact Hh3|exact Hk|done|done].
  set (w4 := set_handler other _ w3).
  assert (p_handlers w4 !! id = Some (with_forward (Some other) h)) as Hh4 by (unfold w4; by rewrite lookup_set, decide_False).
  rewrite (greet_exact id other w4 _ (post (greeting key code lk) (with_forward (Some id) g)) rk code lr Hh4); [|exact Hw|done|apply lookup_set_eq|by rewrite (proj1 (post_keeps _ _))|done|done].
  eexists. split; [done|]. split; [apply lookup_set_eq|]. split; [rewrite lookup_set, decide_False by done; apply lookup_set_eq|].
  rewrite pool_set. unfold w4, w3, w2. rewrite !pool_set. unfold w1. by rewrite pool_set_pool, bool_decide_true.
Qed.

(** A round that gets all the bytes it wants. *)
Definition reset (p : parser) : parser := mkParser [] 0 (i_magic p) (i_length p) (i_key p).

Lemma init_loop_full n id x rest w h w1 : p_handlers w !! id = Some h → i_message (h_parser h) = [] →
  i_req (h_parser h) = zlen x → x ≠ [] →
  init_step id x (set_handler id (with_parser reset h) w) = (Ret tt, w1) →
  init_loop (S n) id (x ++ rest) w = init_loop n id rest w1.
Proof.
  intros Hh Hmsg Hreq Hne Hstep. assert (wants h = length x) as Hw by (unfold wants; rewrite Hmsg, Hreq; unfold zlen; simpl; lia).
  rewrite (init_loop_round _ _ _ _ h); [|done|rewrite Hw; by destruct x; simpl; [|lia]|by destruct x].
  rewrite Hw, drop_app_length. unfold round. cbv zeta. fold (wants h). rewrite Hw, take_app_length, Hmsg, Hreq. simpl app.
  rewrite Z.eqb_refl. unfold sbind at 1. unfold sbind at 1. rewrite (upd_run _ _ _ _ Hh). fold reset. by rewrite Hstep.
Qed.

Definition is_ascii (s : string) : bool := forallb (λ x, (x <? 128)%Z) (encode s).

Lemma py_str_encode s : is_ascii s = true → py_str (encode s) = Ret s.
Proof.
  unfold is_ascii, py_str. intros Hs.
  assert (forallb (λ x, (0 <=? x)%Z && (x <? 128)%Z) (encode s) = true ∧ ascii_decode (encode s) = s) as [-> ->]; [|done].
  induction s as [|c s IH]; [done|]. simpl in Hs |- *. apply andb_true_iff in Hs as [Hc Hs]. destruct (IH Hs) as [-> ->].
  rewrite N2Z.id, Ascii.ascii_N_embedding. split; [|done]. rewrite Hc, !andb_true_r. apply Z.leb_le. lia.
Qed.

Lemma length_encode s : length (encode s) = String.length s.
Proof. induction s; simpl; congruence. Qed.

(** The handshake of a connection that was just accepted. *)
Definition introduced (key k : string) (h : handler) : handler :=
  with_match k (with_parser (λ _, mkParser [] 0 (Some RPC_MAGIC) (Some (Z.of_nat (String.length key))) (Some key)) h).

Lemma read_hello id w h key k lk w' : p_handlers w !! id = Some h → h_forward h = None →
  h_parser h = mkParser [] 4 None None None → is_ascii key = true → first_word (str_drop 7 key) = Ret k →
  pack_i32 (Z.of_nat (String.length key)) = Ret lk →
  handler_ready id (set_handler id (introduced key k h) w) = (Ret tt, w') → is_Some (p_handlers w' !! id) →
  perform (Read id (hello RPC_MAGIC key)) w = (Ret tt, w').
Proof.
  intros Hh Hf Hp Hascii Hword Hlk Hready [h' Hh'].
  assert (∃ m, pack_i32 RPC_MAGIC = Ret m) as [m Hm] by by eexists.
  destruct (pack_unpack _ _ Hm) as [Hum Hlm], (pack_unpack _ _ Hlk) as [Huk Hlk4].
  assert (encode key ≠ []) as Hne by (intros He; destruct key; [by rewrite drop_nil in Hword || by simpl in Hword|done]).
  set (h1 := with_parser (λ _, mkParser [] 4 (Some RPC_MAGIC) None None) h).
  set (h2 := with_parser (λ _, mkParser [] (Z.of_nat (String.length key)) (Some RPC_MAGIC) (Some (Z.of_nat (String.length key))) None) h).
  assert (init_step id m (set_handler id (with_parser reset h) w) = (Ret tt, set_handler id h1 w)) as H1.
  { unfold init_step. unfold sbind at 1. rewrite (get_run _ _ _ (lookup_set_eq _ _ _)). cbv zeta. cbn [with_parser h_parser]. rewrite Hp.
    cbn [reset i_magic]. unfold sbind at 1, slift. rewrite Hum. unfold sbind at 1. rewrite (upd_run _ _ _ _ (lookup_set_eq _ _ _)), set_set.
    rewrite bool_decide_true by done. unfold sbind, sret. rewrite (upd_run _ _ _ _ (lookup_set_eq _ _ _)), set_set.
    unfold h1, with_parser. simpl. by rewrite Hp. }
  assert (init_step id lk (set_handler id (with_parser reset h1) (set_handler id h1 w)) = (Ret tt, set_handler id h2 w)) as H2.
  { unfold init_step. unfold sbind at 1. rewrite (get_run _ _ _ (lookup_set_eq _ _ _)). cbv zeta. simpl.
    unfold sbind at 1, slift. rewrite Huk. by rewrite (upd_run _ _ _ _ (lookup_set_eq _ _ _)), !set_set. }
  assert (init_step id (encode key) (set_handler id (with_parser reset h2) (set_handler id h2 w)) = (Ret tt, w')) as H3.
  { unfold init_step. unfold sbind at 1. rewrite (get_run _ _ _ (lookup_set_eq _ _ _)). cbv zeta.
    change (h_parser (with_parser reset h2)) with (mkParser [] 0 (Some RPC_MAGIC) (Some (Z.of_nat (String.length key))) None).
    cbn [i_magic i_length i_key]. unfold sbind at 1, slift. rewrite py_str_encode by done. unfold sbind at 1.
    rewrite (upd_run _ _ _ _ (lookup_set_eq _ _ _)), set_set. unfold sbind at 1. rewrite Hword. unfold sbind.
    rewrite (upd_run _ _ _ _ (lookup_set_eq _ _ _)), !set_set. apply Hready. }
  assert (hello RPC_MAGIC key = m ++ lk ++ encode key ++ []) as ->.
  { unfold hello. by rewrite Hm, Hlk, app_nil_r. }
  assert (∃ n, length (m ++ lk ++ encode key ++ []) = S (S (S n))) as [n Hn].
  { rewrite !length_app, Hlm, Hlk4. by eexists. }
  assert (m ++ lk ++ encode key ++ [] ≠ []) as Hnn by (intros E; by rewrite E in Hn).
  assert (∀ bs, bs ≠ [] → on_data id bs w = (Ret tt, w') → perform (Read id bs) w = (Ret tt, w')) as Hgo.
  { intros [|b bs] Hb Hd; [done|]. unfold perform, update_read. by rewrite Hd. }
  apply Hgo; [done|]. unfold on_data, sbind at 1. rewrite (get_run _ _ _ Hh), Hf. unfold sbind. rewrite Hn.
  rewrite (init_loop_full _ id m (lk ++ encode key ++ []) w h (set_handler id h1 w) Hh); [|by rewrite Hp|by rewrite Hp; unfold zlen; rewrite Hlm|by destruct m|exact H1].
  rewrite (init_loop_full _ id lk (encode key ++ []) (set_handler id h1 w) h1 (set_handler id h2 w) (lookup_set_eq _ _ _)); [|done|by unfold zlen; rewrite Hlk4|by destruct lk|exact H2].
  rewrite (init_loop_full _ id (encode key) [] (set_handler id h2 w) h2 w' (lookup_set_eq _ _ _)); [|done|by unfold zlen; rewrite length_encode|done|exact H3].
  by rewrite (init_loop_stop _ _ _ _ h') by auto.
Qed.

(** C15: A connection that was accepted and sends the handshake of a key finds, when a connection with the
    same match key waits on the other side and works, that connection: the two are linked to each other,
    the one that waited leaves its pool, and each is sent the success code, the length of the key of
    the other and this key, after what it was sent before. *)
Theorem proxy_meets w id h key k other g rk : reachable w →
  p_handlers w !! id = Some h → works h → h_parser h = h_parser handler_init →
  is_ascii key = true → first_word (str_drop 7 key) = Ret k → (Z.of_nat (String.length key) < 2 ^ 31)%Z →
  od_get (pool (negb (startswith key "server:")) w) k = Some other →
  p_handlers w !! other = Some g → works g → i_key (h_parser g) = Some rk → (Z.of_nat (String.length rk) < 2 ^ 31)%Z →
  ∃ w' h' g', perform (Read id (hello RPC_MAGIC key)) w = (Ret tt, w') ∧
    p_handlers w' !! id = Some h' ∧ p_handlers w' !! other = Some g' ∧
    h_forward h' = Some other ∧ h_forward g' = Some id ∧
    stream h' = stream h ++ hello RPC_CODE_SUCCESS rk ∧ stream g' = stream g ++ hello RPC_CODE_SUCCESS key ∧
    od_get (pool (negb (startswith key "server:")) w') k = None.
Proof.
  intros Hreach Hh Hw Hp Hascii Hword Hlk Ho Hg Hwg Hrk Hlr. pose proof (reachable_inv w Hreach) as Hi.
  destruct (inv_fresh _ _ Hi id h Hh) as (_ & Hf & _); [by rewrite Hp|].
  assert (∀ s, (Z.of_nat (String.length s) < 2 ^ 31)%Z → ∃ b, pack_i32 (Z.of_nat (String.length s)) = Ret b) as Hpack.
  { intros s Hs. unfold pack_i32. rewrite bool_decide_true by lia. by eexists. }
  destruct (Hpack key Hlk) as [lk Ek], (Hpack rk Hlr) as [lr Er].
  assert (∃ code, pack_i32 RPC_CODE_SUCCESS = Ret code) as [code Ec] by by eexists.
  assert (id ≠ other) as Hne.
  { intros ->. assert (g = h) as -> by congruence. by rewrite Hp in Hrk. }
  set (w1 := set_handler id (introduced key k h) w).
  destruct (ready_meets id other w1 (introduced key k h) g key rk k code lk lr) as (w' & Hrun & Hh' & Hg' & Hpool);
    [apply lookup_set_eq|exact Hw|done|done|done|unfold w1; by rewrite pool_set|unfold w1; by rewrite lookup_set, decide_False|done..|].
  exists w', (post (greeting rk code lr) (with_forward (Some other) (introduced key k h))),
    (post (greeting key code lk) (with_forward (Some id) g)).
  split; [by apply (read_hello id w h key k lk); rewrite ?Hh'|]. split; [done|]. split; [done|].
  split; [apply post_keeps|]. split; [apply post_keeps|].
  assert (∀ s l, pack_i32 (Z.of_nat (String.length s)) = Ret l → concat (greeting s code l) = hello RPC_CODE_SUCCESS s) as Hgr.
  { intros s l Hl. unfold hello. rewrite Ec, Hl. simpl. by rewrite app_nil_r. }
  split; [by rewrite post_stream, (Hgr rk lr)|]. split; [by rewrite post_stream, (Hgr key lk)|].
  rewrite Hpool. unfold w1. rewrite pool_set, od_get_del by apply Hi. by rewrite decide_True.
Qed.

(** ** Runs *)

Lemma enabledb_ok w e : enabledb w e = true ↔ enabled w e.
Proof.
  destruct e as [id|id chunk|id room|id|id|i]; simpl; unfold is_open; [|destruct (p_handlers w !! id) as [h|] eqn:Hh; naive_solver..|].
  - rewrite negb_true_iff, bool_decide_eq_false, <-eq_None_not_Some. done.
  - apply Nat.ltb_lt.
Qed.

Lemma run_reachable es : ∀ w w', reachable w → run es w = Some w' → reachable w'.
Proof.
  induction es as [|e es IH]; intros w w' Hr; simpl; [by intros [= <-]|]. destruct (enabledb w e) eqn:He; [|done].
  apply IH, reach_step; [done|by apply enabledb_ok].
Qed.

(** A server and a client with the same key. *)
Definition pair_run : list event :=
  [Accept 0; Read 0 (hello RPC_MAGIC "server:a"); Accept 1; Read 1 (hello RPC_MAGIC "client:a"); Writable 0 100].

Definition link_of (w : option proxy) (id : nat) : option nat :=
  match w with
  | Some w => match p_handlers w !! id with Some h => h_forward h | None => None end
  | None => None
  end.

Lemma proxy_matching_witness :
  link_of (run pair_run proxy_init) 0 = Some 1 ∧ ∃ w h g, run pair_run proxy_init = Some w ∧
    p_handlers w !! 0 = Some h ∧ p_handlers w !! 1 = Some g ∧ partners h g.
Proof.
  split; [vm_compute; reflexivity|].
  destruct (run pair_run proxy_init) as [w|] eqn:Hrun; [|vm_compute in Hrun; discriminate].
  destruct (proxy_matching w (run_reachable _ _ _ reach_init Hrun)) as (_ & _ & Hlink & _).
  assert (link_of (run pair_run proxy_init) 0 = Some 1) as Hf by (vm_compute; reflexivity). rewrite Hrun in Hf. simpl in Hf.
  destruct (p_handlers w !! 0) as [h|] eqn:Hh; [|discriminate].
  destruct (Hlink 0 h 1 Hh Hf) as (_ & g & Hg & Hp & _). exists w, h, g. by split_and!.
Defined.

Lemma proxy_meets_witness : ∃ w w' h' g', run [Accept 0; Read 0 (hello RPC_MAGIC "server:a"); Accept 1] proxy_init = Some w ∧
  perform (Read 1 (hello RPC_MAGIC "client:a")) w = (Ret tt, w') ∧
  p_handlers w' !! 1 = Some h' ∧ p_handlers w' !! 0 = Some g' ∧ h_forward h' = Some 0 ∧ h_forward g' = Some 1 ∧
  stream h' = hello RPC_CODE_SUCCESS "server:a" ∧ stream g' = hello RPC_CODE_SUCCESS "client:a" ∧
  od_get (server_pool w') "a" = None.
Proof.
  set (es := [Accept 0; Read 0 (hello RPC_MAGIC "server:a"); Accept 1]).
  destruct (run es proxy_init) as [w|] eqn:Hrun; [|vm_compute in Hrun; discriminate].
  assert (match run es proxy_init with Some w =>
    (p_handlers w !! 1, k_sent ∘ h_socket <$> p_handlers w !! 0, k_pending ∘ h_socket <$> p_handlers w !! 0,
     i_key ∘ h_parser <$> p_handlers w !! 0, k_open ∘ h_socket <$> p_handlers w !! 0, k_broken ∘ h_socket <$> p_handlers w !! 0,
     k_signal ∘ h_socket <$> p_handlers w !! 0, od_get (server_pool w) "a") | None => (None, None, None, None, None, None, None, None) end =
    (Some handler_init, Some [], Some [], Some (Some "server:a"), Some true, Some false, Some false, Some 0)) as Hfacts
    by (vm_compute; reflexivity).
  rewrite Hrun in Hfacts. destruct (p_handlers w !! 0) as [g|] eqn:Hg; [|discriminate].
  injection Hfacts as Hh Hs Hp Hk Hopen Hb Hsig Hpool.
  destruct (proxy_meets w 1 handler_init "client:a" "a" 0 g "server:a" (run_reachable _ _ _ reach_init Hrun) Hh)
    as (w' & h' & g' & Hrun' & Hh' & Hg' & Hf & Hf' & Hst & Hst' & Hgone);
    [by split_and!|reflexivity|reflexivity|reflexivity|reflexivity|exact Hpool|exact Hg|by split_and!|exact Hk|reflexivity|].
  exists w, w', h', g'. split; [reflexivity|]. split; [exact Hrun'|]. split; [exact Hh'|]. split; [exact Hg'|].
  split; [exact Hf|]. split; [exact Hf'|]. split; [exact Hst|]. split; [|exact Hgone].
  rewrite Hst'. unfold stream. by rewrite Hs, Hp.
Defined.

Lemma proxy_forwards_witness : ∃ w w' g, run pair_run proxy_init = Some w ∧ p_handlers w !! 0 = Some g ∧
  perform (Read 1 [7; 8]%Z) w = (Ret tt, w') ∧
  ∃ g', p_handlers w' !! 0 = Some g' ∧ k_sent (h_socket g') ++ concat (k_pending (h_socket g')) =
    (k_sent (h_socket g) ++ concat (k_pending (h_socket g))) ++ [7; 8]%Z.
Proof.
  destruct (run pair_run proxy_init) as [w|] eqn:Hrun; [|vm_compute in Hrun; discriminate].
  assert (link_of (run pair_run proxy_init) 1 = Some 0) as Hf by (vm_compute; reflexivity).
  assert (match run pair_run proxy_init with Some w => match p_handlers w !! 1, p_handlers w !! 0 with
    | Some h, Some g => k_open (h_socket h) && k_open (h_socket g) && negb (k_broken (h_socket g)) | _, _ => false end
    | None => false end = true) as Ho by (vm_compute; reflexivity).
  rewrite Hrun in Hf, Ho. simpl in Hf. destruct (p_handlers w !! 1) as [h|] eqn:Hh; [|discriminate].
  destruct (p_handlers w !! 0) as [g|] eqn:Hg; [|discriminate].
  apply andb_true_iff in Ho as [[Ho Hog]%andb_true_iff Hbg].
  destruct (proxy_forwards w 1 h 0 [7; 8]%Z (run_reachable _ _ _ reach_init Hrun) Hh Ho Hf) as (g0 & w' & Hg0 & Hp & Hs); [discriminate|].
  assert (g0 = g) as -> by congruence. rewrite Hog in Hs. apply negb_true_iff in Hbg. rewrite Hbg in Hs. simpl in Hs.
  destruct Hs as (g' & Hg' & _ & Hs). exists w, w', g.
  split; [reflexivity|]. split; [exact Hg|]. split; [exact Hp|]. exists g'. split; [exact Hg'|]. by rewrite <-app_assoc.
Defined.

(** The handshake of a server in two pieces. *)
Lemma proxy_chunks_witness : ∃ w w1, run [Accept 0] proxy_init = Some w ∧
  perform (Read 0 (take 6 (hello RPC_MAGIC "server:a"))) w = (Ret tt, w1) ∧
  perform (Read 0 (hello RPC_MAGIC "server:a")) w = perform (Read 0 (drop 6 (hello RPC_MAGIC "server:a"))) w1.
Proof.
  destruct (run [Accept 0] proxy_init) as [w|] eqn:Hrun; [|vm_compute in Hrun; discriminate].
  exists w, (perform (Read 0 (take 6 (hello RPC_MAGIC "server:a"))) w).2. 
  pose proof (run_reachable _ _ _ reach_init Hrun) as Hr. injection Hrun as <-.
  split; [done|]. split; [vm_compute; reflexivity|].
  refine (proxy_chunks _ 0 handler_init
    (mkHandler (mkSock true false 0 [] false []) (mkParser (take 2 (drop 4 (hello RPC_MAGIC "server:a"))) 4 (Some RPC_MAGIC) None None) None None false)
    (take 6 (hello RPC_MAGIC "server:a")) (drop 6 (hello RPC_MAGIC "server:a")) _ Hr _ _ _ _ _ _ _ _ _);
    first [vm_compute; reflexivity|vm_compute; discriminate].
Defined.

(** A wrong magic closes the connection, but the key in the same bytes still makes it wait: the client
    that comes next is linked to the closed connection and closed too. *)
Definition bad_run : list event := [Accept 0; Read 0 (hello 1 "server:a"); Accept 1; Read 1 (hello RPC_MAGIC "client:a")].

Lemma bad_magic_waits :
  match run (take 2 bad_run) proxy_init, run bad_run proxy_init with
  | Some w, Some w' =>
      od_get (server_pool w) "a" = Some 0 ∧ (k_open ∘ h_socket <$> p_handlers w !! 0) = Some false ∧
      (k_open ∘ h_socket <$> p_handlers w' !! 1) = Some false
  | _, _ => False
  end.
Proof. vm_compute. done. Qed.
