(* ===== verification/Dispatcher.v ===== *)
(** * Dispatch contexts of [autotvm.task.dispatcher]

    The stack of contexts that answer configuration queries.  Contexts and
    configurations are objects with identity: they live in a store, since a
    context is shared between its [with] blocks and a configuration between
    records, memory and callers.
    Source: src/python/tvm/autotvm/task/dispatcher.py. *)

From S2P Require Import Prelude PyFloat Transforms ConfigSpace Tuner.

(** ** Data *)

Record target := mkTarget { tg_str : string; tg_model : string; tg_keys : list string }.

(** A workload tuple: the task name and its arguments. *)
Record workload := mkWorkload { wl_name : string; wl_args : list json }.

#[global] Instance workload_eq_dec : EqDecision workload.
Proof. solve_decision. Defined.

(** Configuration objects are named by ids. *)
Definition cfg := nat.

Record minput := mkInput { inp_target : target; inp_workload : workload; inp_config : cfg }.

Abbreviation mrecord := (minput * mresult)%type.
Abbreviation key := (string * workload)%type.

(** What [load] accepts: a record pair, a file or buffer with the records that
    [autotvm.record] reads from it, or an iterable of such things. *)
Inductive records :=
  | RPair (r : mrecord)
  | RFile (l : list mrecord)
  | RIter (l : list records).

(** A task as [ApplyFixedConfig] uses it: its name and [config_space.get(0)]. *)
Record task := mkTask { task_name : string; task_config0 : py cfg }.

(** The five kinds of context with their fields. *)
Inductive ctx_kind :=
  | ApplyConfig (config : cfg) (wl : option workload)
  | ApplyFixedConfig (names : list string) (tasks : list task) (wl : option workload)
  | ApplyHistoryBest (best_by_targetkey best_by_model : list (key * mrecord))
      (best_user_defined : list (key * cfg))
  | FallbackContext (memory : list (key * cfg))
  | ApplyGraphBest (recs : list mrecord) (counter : nat) (global_cfg_dict : list (key * cfg)).

Record ctx := mkCtx { old_ctx : option nat; kind : ctx_kind }.

(** The store, [DispatchContext.current], the attributes [cost] and [workload]
    set on configurations, the warnings printed so far and the next free id. *)
Record world := mkWorld {
  ctxs : gmap nat ctx;
  current : option nat;
  cfg_cost : gmap nat flt;
  cfg_workload : gmap nat workload;
  warnings : list (string * workload);
  next_cfg : nat
}.

Definition set_kind (id : nat) (k : ctx_kind) : ST world unit := λ w,
  match ctxs w !! id with
  | None => (Raise AttributeError, w)
  | Some c => (Ret tt, mkWorld (<[id := mkCtx (old_ctx c) k]> (ctxs w)) (current w) (cfg_cost w)
                         (cfg_workload w) (warnings w) (next_cfg w))
  end.

Definition get_ctx (id : nat) : ST world ctx := λ w,
  match ctxs w !! id with None => (Raise AttributeError, w) | Some c => (Ret c, w) end.

Definition set_cost (c : cfg) (x : flt) : ST world unit :=
  smod (λ w, mkWorld (ctxs w) (current w) (<[c := x]> (cfg_cost w)) (cfg_workload w)
               (warnings w) (next_cfg w)).

Definition set_workload (c : cfg) (wl : workload) : ST world unit :=
  smod (λ w, mkWorld (ctxs w) (current w) (cfg_cost w) (<[c := wl]> (cfg_workload w))
               (warnings w) (next_cfg w)).

(** [FallbackConfigEntity()]. *)
Definition new_cfg : ST world cfg := λ w,
  (Ret (next_cfg w), mkWorld (ctxs w) (current w) (cfg_cost w) (cfg_workload w) (warnings w)
                       (S (next_cfg w))).

(** ** Entering and leaving *)

(** [DispatchContext.__init__] for a new object. *)
Definition ctx_init (id : nat) (k : ctx_kind) (w : world) : world :=
  mkWorld (<[id := mkCtx (current w) k]> (ctxs w)) (current w) (cfg_cost w) (cfg_workload w)
    (warnings w) (next_cfg w).

(** [__enter__]. *)
Definition enter (id : nat) : ST world unit := λ w,
  match ctxs w !! id with
  | None => (Raise AttributeError, w)
  | Some c => (Ret tt, mkWorld (<[id := mkCtx (current w) (kind c)]> (ctxs w)) (Some id)
                         (cfg_cost w) (cfg_workload w) (warnings w) (next_cfg w))
  end.

(** [__exit__]. *)
Definition exit (id : nat) : ST world unit := λ w,
  match ctxs w !! id with
  | None => (Raise AttributeError, w)
  | Some c => (Ret tt, mkWorld (ctxs w) (old_ctx c) (cfg_cost w) (cfg_workload w)
                         (warnings w) (next_cfg w))
  end.

(** ** The history-best context *)

Section History.
Context `{Numpy}.

(** [np.mean(res.costs)]. *)
Definition mean_cost (res : mresult) : py flt :=
  match costs res with CostTimes l => Ret (np_mean l) | CostError _ _ => Raise TypeError end.

(** [if np.mean(other_res.costs) > np.mean(res.costs): best[key] = (inp, res)]. *)
Definition keep_better (best : list (key * mrecord)) (k : key) (other r : mrecord) :
    py (list (key * mrecord)) :=
  let? a := mean_cost other.2 in
  let? b := mean_cost r.2 in
  Ret (if fltb b a then od_set best k r else best).

(** The loop over [inp.target.keys]. *)
Fixpoint load_keys (keys : list string) (r : mrecord) (best : list (key * mrecord)) :
    py (list (key * mrecord)) :=
  match keys with
  | [] => Ret best
  | k :: keys' =>
      let ky := (k, inp_workload r.1) in
      let? best := match od_get best ky with
                   | None => Ret (od_set best ky r)
                   | Some other => keep_better best ky other r
                   end in
      load_keys keys' r best
  end.

(** The entry of the model map. *)
Definition load_model (r : mrecord) (best : list (key * mrecord)) : py (list (key * mrecord)) :=
  let ky := (tg_model (inp_target r.1), inp_workload r.1) in
  match od_get best ky with
  | None => Ret (if decide (tg_model (inp_target r.1) = "unknown") then best else od_set best ky r)
  | Some other => keep_better best ky other r
  end.

Fixpoint load_records (l : list mrecord) (best_key best_model : list (key * mrecord)) :
    py (list (key * mrecord) * list (key * mrecord)) :=
  match l with
  | [] => Ret (best_key, best_model)
  | r :: l' =>
      if decide (error_no r.2 = 0)%Z then
        let? best_key := load_keys (tg_keys (inp_target r.1)) r best_key in
        let? best_model := load_model r best_model in
        load_records l' best_key best_model
      else load_records l' best_key best_model
  end.

(** [_unpack_records]. *)
Fixpoint unpack_records (rs : records) : py (list mrecord) :=
  match rs with
  | RPair _ => Raise TypeError
  | RFile l => Ret l
  | RIter l =>
      (fix go l := match l with
        | [] => Ret []
        | RPair r :: l' => let? rest := go l' in Ret (r :: rest)
        | t :: l' => let? a := unpack_records t in let? rest := go l' in Ret (a ++ rest)
        end) l
  end.

(** [ApplyHistoryBest.load]. *)
Definition history_load (id : nat) (rs : records) : ST world unit :=
  let! l := slift (unpack_records rs) in
  let! c := get_ctx id in
  match kind c with
  | ApplyHistoryBest bk bm bu =>
      let! (bk, bm) := slift (load_records l bk bm) in
      set_kind id (ApplyHistoryBest bk bm bu)
  | _ => sraise AttributeError
  end.
End History.

(** The matching of [ApplyHistoryBest._query_inside] by target key. *)
Fixpoint match_keys (keys : list string) (wl : workload) (bu : list (key * cfg))
    (bk : list (key * mrecord)) : option cfg :=
  match keys with
  | [] => None
  | k :: keys' =>
      match od_get bu (k, wl) with
      | Some c => Some c
      | None =>
          match od_get bk (k, wl) with
          | Some r => Some (inp_config r.1)
          | None => match_keys keys' wl bu bk
          end
      end
  end.

Definition history_query (t : target) (wl : workload) (bk bm : list (key * mrecord))
    (bu : list (key * cfg)) : option cfg :=
  let ky := (tg_model t, wl) in
  match od_get bu ky with
  | Some c => Some c
  | None =>
      match od_get bm ky with
      | Some r => Some (inp_config r.1)
      | None => match_keys (tg_keys t) wl bu bk
      end
  end.

(** The new [_best_user_defined] of [ApplyHistoryBest.update]. *)
Definition history_update (t : target) (wl : workload) (c : cfg) (bu : list (key * cfg)) :
    list (key * cfg) :=
  foldl (λ d k, od_set d (k, wl) c) (od_set bu (tg_model t, wl) c) (tg_keys t).

(** ** Queries *)

(** [str(target)] with [None] for no target. *)
Definition target_str (t : option target) : string :=
  match t with None => "None" | Some t => tg_str t end.

(** The search of [ApplyFixedConfig._query_inside] for the task; [config] stays
    unbound when no task matches. *)
Fixpoint find_task (tasks : list task) (name : string) : py cfg :=
  match tasks with
  | [] => Raise UnboundLocalError
  | t :: tasks' => if decide (task_name t = name) then task_config0 t else find_task tasks' name
  end.

(** [_query_inside] of each class; [silent] is [GLOBAL_SCOPE.silent]. *)
Definition query_inside (silent : bool) (id : nat) (t : option target) (wl : workload) :
    ST world (option cfg) :=
  let! c := get_ctx id in
  match kind c with
  | ApplyConfig config _ =>
      let! _ := set_kind id (ApplyConfig config (Some wl)) in sret (Some config)
  | ApplyFixedConfig names tasks _ =>
      let! _ := set_kind id (ApplyFixedConfig names tasks (Some wl)) in
      let! config := slift (find_task tasks (wl_name wl)) in
      let! _ := set_cost config (if bool_decide (wl_name wl ∈ names) then f_1e_6
                                 else f_of_Z 100000) in
      sret (Some config)
  | ApplyHistoryBest bk bm bu =>
      match t with
      | None => sraise RuntimeError
      | Some t => sret (history_query t wl bk bm bu)
      end
  | FallbackContext memory =>
      let ky := (target_str t, wl) in
      match od_get memory ky with
      | Some c => sret (Some c)
      | None =>
          let! _ := if silent then sret tt else
            smod (λ w, if bool_decide (ky ∈ warnings w) then w
                       else mkWorld (ctxs w) (current w) (cfg_cost w) (cfg_workload w)
                              (warnings w ++ [ky]) (next_cfg w)) in
          let! cfg := new_cfg in
          let! _ := set_kind id (FallbackContext (od_set memory ky cfg)) in
          sret (Some cfg)
      end
  | ApplyGraphBest recs counter d =>
      match recs !! counter with
      | Some r =>
          let cfg := inp_config r.1 in
          let wkl := inp_workload r.1 in
          let! _ := slift (pyassert (bool_decide (wkl = wl))) in
          let! _ := set_kind id (ApplyGraphBest recs (S counter) (od_set d (target_str t, wkl) cfg)) in
          let! _ := set_workload cfg wkl in
          sret (Some cfg)
      | None =>
          let ky := (target_str t, wl) in
          match od_get d ky with
          | Some c => sret (Some c)
          | None =>
              let! cfg := new_cfg in
              let! _ := set_kind id (ApplyGraphBest recs counter (od_set d ky cfg)) in
              sret (Some cfg)
          end
      end
  end.

(** [DispatchContext.query]: up the chain of outer contexts, whose length
    bounds the recursion. *)
Fixpoint query (silent : bool) (fuel : nat) (id : nat) (t : option target) (wl : workload) :
    ST world cfg :=
  match fuel with
  | O => sraise RecursionError
  | S fuel' =>
      let! ret := query_inside silent id t wl in
      match ret with
      | Some c => sret c
      | None =>
          let! c := get_ctx id in
          match old_ctx c with
          | None => sraise AttributeError
          | Some outer => query silent fuel' outer t wl
          end
      end
  end.

(** [update] of each class. *)
Definition update (id : nat) (t : target) (wl : workload) (c : cfg) : ST world unit :=
  let! x := get_ctx id in
  match kind x with
  | ApplyConfig _ _ => set_kind id (ApplyConfig c (Some wl))
  | ApplyFixedConfig names tasks _ => set_kind id (ApplyFixedConfig names tasks (Some wl))
  | ApplyHistoryBest bk bm bu =>
      let! _ := set_cost c f0 in
      set_kind id (ApplyHistoryBest bk bm (history_update t wl c bu))
  | FallbackContext memory => set_kind id (FallbackContext (od_set memory (tg_str t, wl) c))
  | ApplyGraphBest recs counter d => set_kind id (ApplyGraphBest recs counter (od_set d (tg_str t, wl) c))
  end.

(** [FallbackContext.clear_cache]. *)
Definition fallback_clear (id : nat) (t : option target) (wl : workload) : ST world unit :=
  let! x := get_ctx id in
  match kind x with
  | FallbackContext memory =>
      let ky := (target_str t, wl) in
      if od_mem memory ky then set_kind id (FallbackContext (od_del memory ky)) else sret tt
  | _ => sraise AttributeError
  end.

(** [clear_fallback_cache]: outwards to the first fallback context. *)
Fixpoint clear_fallback_cache (fuel : nat) (id : nat) (t : option target) (wl : workload) :
    ST world unit :=
  match fuel with
  | O => sraise RecursionError
  | S fuel' =>
      let! x := get_ctx id in
      match kind x with
      | FallbackContext _ => fallback_clear id t wl
      | _ =>
          match old_ctx x with
          | None => sraise AttributeError
          | Some outer => clear_fallback_cache fuel' outer t wl
          end
      end
  end.

(** [ApplyFixedConfig.__init__]: a single name given as a string is turned into
    the list of its characters. *)
Fixpoint chars (s : string) : list string :=
  match s with EmptyString => [] | String c s' => String c EmptyString :: chars s' end.

Definition ApplyFixedConfig_init (tasks : list task) (names : string + list string) : ctx_kind :=
  ApplyFixedConfig (match names with inl s => chars s | inr l => l end) tasks None.
