(* ===== verification/DispatcherSpec.v ===== *)
(** * Correctness of dispatch contexts

    What the history-best context selects, how updates and queries interact,
    and that queries through a stack of contexts always find a configuration. *)

From S2P Require Import Prelude PyFloat Transforms ConfigSpace Tuner Dispatcher.

(** ** Loading records *)

Section Load.
Context `{Numpy}.

(** The mean cost of a record and the records whose costs can be compared. *)
Definition mean_of (r : mrecord) : flt :=
  match mean_cost r.2 with Ret x => x | Raise _ => S754_nan end.

Definition comparable (r : mrecord) : Prop :=
  error_no r.2 = 0%Z → is_ret (mean_cost r.2) ∧ is_nan (mean_of r) = false.

(** The successful records for a target key, and for a model. *)
Definition by_key (ky : key) (l : list mrecord) : list mrecord :=
  filter (λ r, error_no r.2 = 0%Z ∧ ky.1 ∈ tg_keys (inp_target r.1) ∧ inp_workload r.1 = ky.2) l.

Definition by_model (ky : key) (l : list mrecord) : list mrecord :=
  filter (λ r, error_no r.2 = 0%Z ∧ tg_model (inp_target r.1) = ky.1 ∧ inp_workload r.1 = ky.2 ∧
               ky.1 ≠ "unknown") l.

(** The entry kept for a list of candidates: one of least mean cost. *)
Definition best_in (cand : list mrecord) (o : option mrecord) : Prop :=
  match o with
  | None => cand = []
  | Some r => r ∈ cand ∧ ∀ r', r' ∈ cand → fle (mean_of r) (mean_of r')
  end.

Lemma mean_cost_of r : is_ret (mean_cost r.2) → mean_cost r.2 = Ret (mean_of r).
Proof. intros [x Hx]. unfold mean_of. by rewrite Hx. Qed.

(** Offering one more candidate to the map. *)
Definition offer (best : list (key * mrecord)) (ky : key) (r : mrecord) : py (list (key * mrecord)) :=
  match od_get best ky with
  | None => Ret (od_set best ky r)
  | Some other => keep_better best ky other r
  end.

Definition good (l : list mrecord) : Prop :=
  ∀ r, r ∈ l → is_ret (mean_cost r.2) ∧ is_nan (mean_of r) = false.

Lemma offer_spec best ky r cand :
  good (r :: cand) → best_in cand (od_get best ky) →
  ∃ best', offer best ky r = Ret best' ∧ best_in (cand ++ [r]) (od_get best' ky) ∧
    ∀ ky', ky' ≠ ky → od_get best' ky' = od_get best ky'.
Proof.
  intros Hgood Hb. destruct (Hgood r) as [Hr Hn]; [left|]. unfold offer.
  destruct (od_get best ky) as [o|] eqn:E; simpl in Hb.
  - destruct Hb as [Ho Hmin]. destruct (Hgood o) as [Hro Hno]; [by right|].
    unfold keep_better. rewrite (mean_cost_of o), (mean_cost_of r) by done. cbn [pbind].
    destruct (fltb (mean_of r) (mean_of o)) eqn:Hlt; eexists; (split; [done|]).
    + rewrite od_get_set_eq. split; [|by intros; apply od_get_set_ne].
      split; [set_solver|]. intros r' Hr'. apply elem_of_app in Hr' as [Hr'|Hr'].
      * eapply fle_trans; [by apply flt_fle|auto].
      * apply list_elem_of_singleton in Hr' as ->. by apply fle_refl.
    + rewrite E. split; [|done]. split; [set_solver|]. intros r' Hr'.
      apply elem_of_app in Hr' as [Hr'|Hr']; [auto|]. apply list_elem_of_singleton in Hr' as ->.
      by apply fltb_false_fle.
  - subst cand. eexists. split; [done|]. rewrite od_get_set_eq.
    split; [|by intros; apply od_get_set_ne]. split; [set_solver|].
    intros r' Hr'. simpl in Hr'. apply list_elem_of_singleton in Hr' as ->. by apply fle_refl.
Qed.

Lemma load_keys_spec r : ∀ keys (C : key → list mrecord) best,
  (∀ ky, good (r :: C ky)) → (∀ ky, best_in (C ky) (od_get best ky)) →
  ∃ best', load_keys keys r best = Ret best' ∧
    ∀ ky, best_in (if decide (ky.1 ∈ keys ∧ inp_workload r.1 = ky.2) then C ky ++ [r] else C ky)
            (od_get best' ky).
Proof.
  induction keys as [|k keys IH]; intros C best Hgood Hbest.
  { exists best. split; [done|]. intros ky. rewrite decide_False by set_solver. auto. }
  cbn [load_keys]. fold (offer best (k, inp_workload r.1) r).
  destruct (offer_spec best (k, inp_workload r.1) r (C (k, inp_workload r.1)))
    as (best1 & Ho & Hb1 & Hother); [auto|auto|]. rewrite Ho. cbn [pbind].
  destruct (IH (λ ky, if decide (ky = (k, inp_workload r.1)) then C ky ++ [r] else C ky) best1)
    as (best2 & H2 & Hb2).
  { intros ky r' Hr'. case_decide; apply (Hgood ky); set_solver. }
  { intros ky. case_decide; [by subst|]. by rewrite Hother. }
  exists best2. split; [done|]. intros ky. specialize (Hb2 ky).
  assert (∀ l o, best_in ((l ++ [r]) ++ [r]) o → best_in (l ++ [r]) o) as Hdup.
  { intros l [o|]; simpl; [|by destruct l]. intros [? ?]. set_solver. }
  destruct ky as [k' wl]. simpl in *.
  destruct (decide (k' ∈ keys ∧ inp_workload r.1 = wl)) as [[Hin <-]|Hno].
  - rewrite decide_True by set_solver. case_decide; [by apply Hdup|done].
  - case_decide as Heq.
    + injection Heq as -> ->. rewrite decide_True by set_solver. done.
    + rewrite decide_False; [done|]. intros [Hin <-]. apply elem_of_cons in Hin as [->|?]; naive_solver.
Qed.

Lemma by_key_snoc ky l r : by_key ky (l ++ [r]) =
  if decide (error_no r.2 = 0%Z ∧ ky.1 ∈ tg_keys (inp_target r.1) ∧ inp_workload r.1 = ky.2)
  then by_key ky l ++ [r] else by_key ky l.
Proof.
  unfold by_key. rewrite filter_app, filter_cons, filter_nil. case_decide; [done|by rewrite app_nil_r].
Qed.

Lemma by_model_snoc ky l r : by_model ky (l ++ [r]) =
  if decide (error_no r.2 = 0%Z ∧ tg_model (inp_target r.1) = ky.1 ∧ inp_workload r.1 = ky.2 ∧
             ky.1 ≠ "unknown") then by_model ky l ++ [r] else by_model ky l.
Proof.
  unfold by_model. rewrite filter_app, filter_cons, filter_nil. case_decide; [done|by rewrite app_nil_r].
Qed.

Lemma load_model_spec r l best :
  (∀ ky, good (r :: by_model ky l)) → error_no r.2 = 0%Z →
  (∀ ky, best_in (by_model ky l) (od_get best ky)) →
  ∃ best', load_model r best = Ret best' ∧ ∀ ky, best_in (by_model ky (l ++ [r])) (od_get best' ky).
Proof.
  intros Hgood Herr Hbest. unfold load_model.
  set (k0 := (tg_model (inp_target r.1), inp_workload r.1)).
  destruct (offer_spec best k0 r (by_model k0 l)) as (best' & Ho & Hb & Hother); [auto|auto|].
  assert (∀ ky, ky ≠ k0 → by_model ky (l ++ [r]) = by_model ky l) as Hne.
  { intros [m wl] Hky. rewrite by_model_snoc, decide_False; [done|].
    intros (_ & Hm & Hw & _). simpl in *. subst. done. }
  unfold offer in Ho. pose proof (Hbest k0) as Hbk0.
  destruct (od_get best k0) as [o|] eqn:E.
  - exists best'. split; [done|]. intros ky.
    destruct (decide (ky = k0)) as [->|Hky]; [|by rewrite Hne, Hother].
    rewrite by_model_snoc. destruct Hbk0 as [Hin _].
    rewrite decide_True; [done|]. unfold by_model in Hin. apply list_elem_of_filter in Hin as [(_ & _ & _ & Hu) _].
    done.
  - injection Ho as <-. case_decide as Hu.
    + exists best. split; [done|]. intros ky.
      destruct (decide (ky = k0)) as [->|Hky]; [|by rewrite Hne].
      rewrite by_model_snoc, decide_False by (intros (_ & _ & _ & Hx); by apply Hx). auto.
    + eexists. split; [done|]. intros ky.
      destruct (decide (ky = k0)) as [->|Hky]; [|by rewrite Hne, Hother].
      rewrite by_model_snoc, decide_True by done. done.
Qed.

Lemma load_records_spec l : ∀ seen bk bm,
  Forall comparable (seen ++ l) →
  (∀ ky, best_in (by_key ky seen) (od_get bk ky)) →
  (∀ ky, best_in (by_model ky seen) (od_get bm ky)) →
  ∃ bk' bm', load_records l bk bm = Ret (bk', bm') ∧
    (∀ ky, best_in (by_key ky (seen ++ l)) (od_get bk' ky)) ∧
    (∀ ky, best_in (by_model ky (seen ++ l)) (od_get bm' ky)).
Proof.
  induction l as [|r l IH]; intros seen bk bm Hcmp Hk Hm.
  { exists bk, bm. by rewrite app_nil_r. }
  rewrite cons_middle, app_assoc in *. cbn [load_records]. case_decide as Herr; last first.
  { apply IH; [done| |]; intros ky.
    - rewrite by_key_snoc, decide_False by tauto. auto.
    - rewrite by_model_snoc, decide_False by tauto. auto. }
  rewrite Forall_forall in Hcmp.
  assert (∀ x, x ∈ r :: seen → error_no x.2 = 0%Z → is_ret (mean_cost x.2) ∧ is_nan (mean_of x) = false)
    as Hx by (intros x Hin; apply Hcmp; set_solver).
  assert (∀ ky, good (r :: by_key ky seen) ∧ good (r :: by_model ky seen)) as Hgood.
  { intros ky. split; intros x Hin; apply elem_of_cons in Hin as [->|Hin];
      [apply Hx; [left|done]| |apply Hx; [left|done]|];
      apply list_elem_of_filter in Hin as [[? _] ?]; (apply Hx; [by right|done]). }
  destruct (load_keys_spec r (tg_keys (inp_target r.1)) (λ ky, by_key ky seen) bk)
    as (bk1 & H1 & Hb1); [apply Hgood|done|].
  destruct (load_model_spec r seen bm) as (bm1 & H2 & Hb2); [apply Hgood|done|done|].
  rewrite H1. cbn [pbind]. rewrite H2. cbn [pbind]. apply IH; [by rewrite Forall_forall| |done].
  intros ky. rewrite by_key_snoc. specialize (Hb1 ky).
  destruct (decide (ky.1 ∈ tg_keys (inp_target r.1) ∧ inp_workload r.1 = ky.2)) as [?|Hn].
  - rewrite decide_True by tauto. done.
  - rewrite decide_False by tauto. done.
Qed.

(** C21: loading records into an empty history context keeps, for every target
    key and workload, a successful record of least mean cost among those that
    match, and for every model but "unknown" likewise; nothing is kept where no
    successful record matches. *)
Theorem history_load_best l :
  Forall comparable l →
  ∃ bk bm, load_records l [] [] = Ret (bk, bm) ∧
    (∀ ky, best_in (by_key ky l) (od_get bk ky)) ∧ (∀ ky, best_in (by_model ky l) (od_get bm ky)).
Proof. intros Hcmp. by apply (load_records_spec l [] [] []). Qed.
End Load.

(** ** Updates and queries *)

Lemma history_update_keys (wl : workload) (c : cfg) (keys : list string) : ∀ (bu : list (key * cfg)) ky,
  od_get (foldl (λ d k, od_set d (k, wl) c) bu keys) ky =
    if decide (ky.1 ∈ keys ∧ ky.2 = wl) then Some c else od_get bu ky.
Proof.
  induction keys as [|k keys IH]; intros bu ky; cbn [foldl].
  { rewrite decide_False by set_solver. done. }
  rewrite IH, od_get_set. destruct ky as [k' wl']. cbn [fst snd].
  repeat case_decide; try done; exfalso; set_solver.
Qed.

Lemma history_update_get t wl c bu ky :
  od_get (history_update t wl c bu) ky =
    if decide (ky.2 = wl ∧ (ky.1 = tg_model t ∨ ky.1 ∈ tg_keys t)) then Some c else od_get bu ky.
Proof.
  unfold history_update. rewrite history_update_keys, od_get_set. destruct ky as [k' wl']. cbn [fst snd].
  repeat case_decide; try done; exfalso; naive_solver.
Qed.

Lemma match_keys_other keys wl' bu bu' bk :
  (∀ k, od_get bu' (k, wl') = od_get bu (k, wl')) →
  match_keys keys wl' bu' bk = match_keys keys wl' bu bk.
Proof.
  intros Hk. induction keys as [|k keys IH]; simpl; [done|]. by rewrite Hk, IH.
Qed.

Lemma history_update_query t wl c bk bm bu :
  history_query t wl bk bm (history_update t wl c bu) = Some c ∧
  (∀ t' wl', wl' ≠ wl →
     history_query t' wl' bk bm (history_update t wl c bu) = history_query t' wl' bk bm bu).
Proof.
  split.
  - unfold history_query. by rewrite history_update_get, decide_True by auto.
  - intros t' wl' Hne. unfold history_query.
    assert (∀ k, od_get (history_update t wl c bu) (k, wl') = od_get bu (k, wl')) as Hk.
    { intros k. rewrite history_update_get, decide_False; [done|]. naive_solver. }
    rewrite Hk. repeat case_match; try done. by apply match_keys_other.
Qed.

(** After [update(target, workload, cfg)] on a history context, a query for
    that target and workload returns [cfg] whatever was loaded, its cost is 0,
    and queries for other workloads answer as before. *)
Theorem update_then_query silent id t wl c bk bm bu w o :
  ctxs w !! id = Some (mkCtx o (ApplyHistoryBest bk bm bu)) →
  ∃ w', update id t wl c w = (Ret tt, w') ∧ cfg_cost w' !! c = Some f0 ∧
    query_inside silent id (Some t) wl w' = (Ret (Some c), w') ∧
    ∀ t' wl', wl' ≠ wl →
      query_inside silent id (Some t') wl' w' = ((query_inside silent id (Some t') wl' w).1, w').
Proof.
  intros Hid. eexists. unfold update, sbind, get_ctx, set_cost, smod, set_kind. rewrite Hid. simpl.
  rewrite Hid. split; [done|]. simpl. split; [by rewrite lookup_insert_eq|].
  destruct (history_update_query t wl c bk bm bu) as [Hq Hother].
  unfold query_inside, sbind, get_ctx. simpl. rewrite lookup_insert_eq. simpl. split.
  - by rewrite Hq.
  - intros t' wl' Hne. rewrite Hid. simpl. by rewrite Hother.
Qed.

(** ** Stacks of contexts *)

(** [stack w id outer root]: the history contexts [outer] from [id] outwards,
    then the fallback context [root]. *)
Inductive stack (w : world) : nat → list nat → nat → Prop :=
  | stack_root id o m :
      ctxs w !! id = Some (mkCtx o (FallbackContext m)) → stack w id [] id
  | stack_history id o bk bm bu outer root :
      ctxs w !! id = Some (mkCtx (Some o) (ApplyHistoryBest bk bm bu)) →
      stack w o outer root → stack w id (id :: outer) root.

(** What the history contexts of a stack answer, innermost first. *)
Definition stack_answer (w : world) (outer : list nat) (t : target) (wl : workload) : option cfg :=
  head (omap (λ id, match ctxs w !! id with
    | Some (mkCtx _ (ApplyHistoryBest bk bm bu)) => history_query t wl bk bm bu
    | _ => None end) outer).

Lemma query_fallback silent id t wl w o m :
  ctxs w !! id = Some (mkCtx o (FallbackContext m)) →
  ∃ c w', query_inside silent id t wl w = (Ret (Some c), w') ∧
    (od_get m (target_str t, wl) = Some c ∧ w' = w ∨
     od_get m (target_str t, wl) = None ∧ c = next_cfg w ∧
     ctxs w' = <[id := mkCtx o (FallbackContext (od_set m (target_str t, wl) c))]> (ctxs w)).
Proof.
  intros Hid. unfold query_inside, sbind, get_ctx. rewrite Hid. simpl.
  destruct (od_get m (target_str t, wl)) as [c|] eqn:E.
  - exists c, w. split; [done|]. by left.
  - destruct silent; unfold sret, smod, new_cfg, set_kind; simpl;
      [|case_bool_decide; simpl]; rewrite Hid; simpl; eexists _, _; (split; [done|]); by right.
Qed.

Lemma query_stack silent w id outer root t wl :
  stack w id outer root →
  ∃ c w', (∀ n, query silent (S (length outer) + n) id (Some t) wl w = (Ret c, w')) ∧
    (∀ c', stack_answer w outer t wl = Some c' → c = c' ∧ w' = w) ∧
    (stack_answer w outer t wl = None →
     ∃ o m, ctxs w !! root = Some (mkCtx o (FallbackContext m)) ∧
       query_inside silent root (Some t) wl w = (Ret (Some c), w')).
Proof.
  induction 1 as [id o m Hid|id o bk bm bu outer root Hid Hst IH].
  - destruct (query_fallback silent id (Some t) wl w o m Hid) as (c & w' & Hq & Hcase).
    exists c, w'. split; [intros n; cbn [query length Nat.add]; unfold sbind; by rewrite Hq|].
    split; [done|]. intros _. exists o, m. done.
  - destruct IH as (c & w' & Hrun & Hsome & Hnone).
    assert (query_inside silent id (Some t) wl w = (Ret (history_query t wl bk bm bu), w)) as Hin.
    { unfold query_inside, sbind, get_ctx. by rewrite Hid. }
    unfold stack_answer. cbn [omap list_omap]. rewrite Hid.
    destruct (history_query t wl bk bm bu) as [c0|] eqn:E.
    + exists c0, w. split; [intros n; cbn [query length Nat.add]; unfold sbind; by rewrite Hin|].
      split; [by intros ? [= ->]|done].
    + exists c, w'. split; [|done]. intros n. cbn [length Nat.add]. specialize (Hrun n).
      cbn [query]. unfold sbind at 1. rewrite Hin.
      unfold sbind, get_ctx. rewrite Hid. cbn [old_ctx]. exact Hrun.
Qed.

(** A query through history contexts down to the root fallback context
    always returns: the innermost history answer if there is one, otherwise the
    root's configuration, which is the same object when the query is repeated. *)
Theorem query_stack_total silent w id outer root t wl :
  stack w id outer root →
  ∃ c w', query silent (S (length outer)) id (Some t) wl w = (Ret c, w') ∧
    (∀ c', stack_answer w outer t wl = Some c' → c = c') ∧
    (stack_answer w outer t wl = None →
     ∃ w'', query_inside silent root (Some t) wl w' = (Ret (Some c), w'')).
Proof.
  intros Hst. destruct (query_stack silent w id outer root t wl Hst) as (c & w' & Hrun & Hsome & Hnone).
  exists c, w'. specialize (Hrun 0). rewrite Nat.add_0_r in Hrun. split; [done|].
  split; [intros c' Hc'; by destruct (Hsome c' Hc')|]. intros Hn.
  destruct (Hnone Hn) as (o & m & Hroot & Hq).
  destruct (query_fallback silent root (Some t) wl w o m Hroot) as (c1 & w1 & Hq1 & Hcase).
  rewrite Hq in Hq1. injection Hq1 as <- <-.
  destruct Hcase as [[Hm ->]|(Hm & _ & Hctx)].
  - by exists w.
  - exists w'. unfold query_inside, sbind, get_ctx. rewrite Hctx, lookup_insert_eq. simpl.
    by rewrite od_get_set_eq.
Qed.

(** ** Nesting and fixed configurations *)

(** A [with] block restores the current context when its body leaves the saved
    outer context of the object alone. *)
Lemma with_restores id w w1 w2 c :
  enter id w = (Ret tt, w1) → ctxs w2 !! id = Some c → old_ctx c = current w →
  ∃ w3, exit id w2 = (Ret tt, w3) ∧ current w3 = current w.
Proof. intros _ Hc Ho. unfold exit. rewrite Hc. eexists. split; [done|]. done. Qed.

(** Entering a context that is already current overwrites the context it
    has to restore: after both [with] blocks it is still the current one, and a
    query that it cannot answer never reaches the outer contexts. *)
Theorem reentered_context_stuck id outer w k :
  ctxs w !! id = Some (mkCtx outer k) →
  ∃ w1 w2 w3 w4, enter id w = (Ret tt, w1) ∧ enter id w1 = (Ret tt, w2) ∧
    exit id w2 = (Ret tt, w3) ∧ exit id w3 = (Ret tt, w4) ∧ current w4 = Some id ∧
    (k = ApplyHistoryBest [] [] [] → ∀ silent n t wl,
       (query silent n id (Some t) wl w2).1 = Raise RecursionError).
Proof.
  intros Hid. unfold enter at 1. rewrite Hid. do 4 eexists. split; [done|].
  unfold enter. simpl. rewrite lookup_insert_eq. split; [done|].
  unfold exit. simpl. rewrite lookup_insert_eq. split; [done|]. simpl.
  rewrite lookup_insert_eq. split; [done|]. split; [done|].
  intros -> silent n t wl. induction n as [|n IH]; [done|]. cbn [query].
  unfold sbind at 1, query_inside, sbind at 1, get_ctx at 1. simpl. rewrite lookup_insert_eq. simpl.
  assert (history_query t wl [] [] [] = None) as ->.
  { clear. unfold history_query. simpl. by induction (tg_keys t). }
  unfold sret, sbind, get_ctx. simpl. rewrite lookup_insert_eq. simpl. exact IH.
Qed.

Lemma elem_of_chars s x : x ∈ chars s → String.length x = 1.
Proof. induction s as [|c s IH]; simpl; [set_solver|]. rewrite elem_of_cons. intros [->|?]; auto. Qed.

(** A schedule name given as a single string is split into characters, so the
    schedule it names gets the high cost meant for the others. *)
Lemma fixed_single_name silent id tasks name wl w o c :
  ctxs w !! id = Some (mkCtx o (ApplyFixedConfig_init tasks (inl name))) →
  wl_name wl = name → String.length name ≠ 1 → find_task tasks name = Ret c →
  ∃ w', query_inside silent id None wl w = (Ret (Some c), w') ∧
    cfg_cost w' !! c = Some (f_of_Z 100000).
Proof.
  intros Hid Hn Hl Hf. unfold query_inside, sbind, get_ctx. rewrite Hid. simpl.
  unfold set_kind. rewrite Hid. unfold slift. rewrite Hn, Hf. unfold set_cost, smod. simpl.
  eexists. split; [done|]. simpl. rewrite lookup_insert_eq, bool_decide_false; [done|].
  intros Hin. by apply elem_of_chars in Hin.
Qed.

(** A workload without a task is an [UnboundLocalError], not the intended
    [RuntimeError]. *)
Lemma fixed_missing_task tasks name :
  Forall (λ t, task_name t ≠ name) tasks → find_task tasks name = Raise UnboundLocalError.
Proof. induction 1 as [|t tasks Ht _ IH]; simpl; [done|]. by rewrite decide_False. Qed.
