(* ===== verification/AsDispatcher.v ===== *)
(** * Dispatch contexts of the auto-scheduler

    The stack of contexts that answer with the best schedule of a workload, the
    history of best records with its compatible workloads, and the distance
    between workloads.
    Sources: src/python/tvm/auto_scheduler/dispatcher.py and
    [decode_workload_key], [calc_workload_dis_factor] of
    src/python/tvm/auto_scheduler/utils.py. *)

From S2P Require Import Prelude PyFloat Dispatcher.

(** ** Workload keys *)

Definition f_inf : flt := S754_infinity false.

(** The integer a float is equal to. *)
Definition float_int (x : flt) : option Z :=
  match x with
  | S754_zero _ => Some 0%Z
  | S754_finite s m e =>
      let v := if s then Z.neg m else Z.pos m in
      if bool_decide (0 ≤ e)%Z then Some (v * 2 ^ e)%Z
      else if bool_decide (v mod 2 ^ (- e) = 0)%Z then Some (v / 2 ^ (- e))%Z else None
  | _ => None
  end.

(** Equal numbers of Python have one form here, as keys of a dict do; a NaN, which a dict
    finds only as the same object, has its own. *)
Definition norm (j : json) : json :=
  match j with
  | JBool b => JInt (if b then 1 else 0)
  | JFloat x => match float_int x with Some z => JInt z | None => j end
  | _ => j
  end.

(** [a == b] of values that are not lists or dicts; a NaN is equal to nothing. *)
Definition py_eq (a b : json) : bool :=
  bool_decide (norm a = norm b) && match a with JFloat x => negb (is_nan x) | _ => true end.

(** A key of a dict; lists and dicts are unhashable. *)
Definition hash_key (j : json) : py json :=
  match j with JArr _ | JObj _ => Raise TypeError | _ => Ret (norm j) end.

Definition args_key (args : option (list json)) : py (option (list json)) :=
  match args with
  | None => Ret None
  | Some l => let? l' := pymap hash_key l in Ret (Some l')
  end.

(** [flatten_list]. *)
Fixpoint flatten_elt (elt : json) : list json :=
  match elt with JArr l => concat (flatten_elt <$> l) | _ => [elt] end.
Definition flatten_list (inp : list json) : list json := concat (flatten_elt <$> inp).

Definition decode_workload_key (loads : string → py json) (workload_key : string) :
    py (json * option (list json)) :=
  match loads workload_key with
  | Ret (JArr (name :: args)) => Ret (name, Some (flatten_list args))
  | Ret _ | Raise JSONDecodeError => Ret (JStr workload_key, None)
  | Raise e => Raise e
  end.

(** [isinstance(x, int)], with the value. *)
Definition as_int (j : json) : option Z :=
  match j with JInt z => Some z | JBool b => Some (if b then 1 else 0)%Z | _ => None end.

(** [float(z)]. *)
Definition to_float (z : Z) : py flt :=
  match f_of_Z z with S754_infinity _ => Raise OverflowError | x => Ret x end.

(** Whether [x] is a multiple of [y], which is not 0. *)
Definition is_multiple (x y : flt) : bool :=
  match x, y with
  | S754_zero _, S754_finite _ _ _ => true
  | S754_finite _ m e, S754_finite _ m' e' =>
      let d := Z.min e e' in
      bool_decide ((Z.pos m * 2 ^ (e - d)) mod (Z.pos m' * 2 ^ (e' - d)) = 0)%Z
  | _, _ => false
  end.

(** [target_arg % arg == 0] and [target_arg / arg] for [arg] not 0: [None] where
    the remainder is not 0. *)
Definition div_exact (t : Z) (arg : json) : py (option flt) :=
  match arg with
  | JInt _ | JBool _ =>
      let a := default 0%Z (as_int arg) in
      if bool_decide (t mod a = 0)%Z then let? q := to_float (t / a) in Ret (Some q) else Ret None
  | JFloat x =>
      let? ft := to_float t in
      Ret (if is_multiple ft x then Some (fdiv_raw ft x) else None)
  | _ => Raise TypeError
  end.

(** The loop of [calc_workload_dis_factor]. *)
Fixpoint dis_factor_loop (dis_f : flt) (pairs : list (json * json)) : py flt :=
  match pairs with
  | [] => Ret dis_f
  | (target_arg, arg) :: pairs' =>
      match as_int target_arg with
      | Some t =>
          if bool_decide (t = 0%Z) || py_eq arg (JInt 0) then
            if py_eq target_arg arg then dis_factor_loop dis_f pairs' else Ret f_inf
          else
            let? q := div_exact t arg in
            match q with
            | None => Ret f_inf
            | Some q => dis_factor_loop (fmul dis_f q) pairs'
            end
      | None => if py_eq target_arg arg then dis_factor_loop dis_f pairs' else Ret f_inf
      end
  end.

Definition calc_workload_dis_factor (target_pair pair : json * option (list json)) : py flt :=
  let target_args := default [] target_pair.2 in
  let args := default [] pair.2 in
  if negb (py_eq pair.1 target_pair.1) || bool_decide (length target_args ≠ length args) then Ret f_inf
  else dis_factor_loop f1 (zip target_args args).

(** ** The history *)

Section Context.
(** The states, which are not [None], and [json.loads]. *)
Context {State : Type} (loads : string → py json).

(** An item of an entry: the key as it was first inserted, the state and its cost. *)
Record slot := mkSlot { s_args : option (list json); s_state : State; s_cost : flt }.

Abbreviation entry_t := (list (option (list json) * slot)).
Abbreviation best_t := (list (string * list (json * entry_t))).

(** [best_records[target_key][workload_hash]]. *)
Definition entry_of (best : best_t) (target_key : string) (hash : json) : entry_t :=
  default [] (od_get (default [] (od_get best target_key)) hash).

Definition set_entry (best : best_t) (target_key : string) (hash : json) (e : entry_t) : best_t :=
  od_set best target_key (od_set (default [] (od_get best target_key)) hash e).

(** [if k not in d: d[k] = {}] at both levels. *)
Definition ensure_target (target_key : string) (best : best_t) : best_t :=
  if od_mem best target_key then best else od_set best target_key [].
Definition ensure_hash (target_key : string) (hash : json) (best : best_t) : best_t :=
  if od_mem (default [] (od_get best target_key)) hash then best else set_entry best target_key hash [].

(** [get_workload_entry]: the key of the entry, which exists afterwards, the workload
    hash and the arguments. *)
Definition get_workload_entry (target_key workload_key : string) :
    ST best_t (json * json * option (list json)) :=
  let! (workload_hash, workload_args) := slift (decode_workload_key loads workload_key) in
  let! _ := smod (ensure_target target_key) in
  let! hash := slift (hash_key workload_hash) in
  let! _ := smod (ensure_hash target_key hash) in
  sret (hash, workload_hash, workload_args).

(** [entry[args] = (st, cost)]; a dict keeps the key it has. *)
Definition set_slot (k : option (list json)) (args : option (list json)) (st : State) (cost : flt)
    (e : entry_t) : entry_t :=
  od_set e k (mkSlot (match od_get e k with Some s => s_args s | None => args end) st cost).

(** A record offered to a map; [new] says whether it may start an item. *)
Definition offer_record (new : bool) (target_key workload_key : string) (st : State) (cost : flt) :
    ST best_t unit :=
  let! (hash, _, args) := get_workload_entry target_key workload_key in
  let! k := slift (args_key args) in
  smod (λ best,
    let e := entry_of best target_key hash in
    let better := match od_get e k with
                  | None => new
                  | Some s => fltb cost (s_cost s)
                  end in
    if better then set_entry best target_key hash (set_slot k args st cost e) else best).

Record as_input := mkAsInput { ai_target : target; ai_workload_key : string; ai_state : State }.

(** The costs that are [FloatImm]s, and others. *)
Record as_result := mkAsResult { ar_costs : list (option flt); ar_error_no : Z }.

Record history := mkHistory {
  include_compatible : bool;
  best_by_targetkey : best_t;
  best_by_model : best_t;
  best_user_defined : best_t
}.

Definition on_targetkey {A} (m : ST best_t A) : ST history A := λ h,
  let '(r, b) := m (best_by_targetkey h) in
  (r, mkHistory (include_compatible h) b (best_by_model h) (best_user_defined h)).
Definition on_model {A} (m : ST best_t A) : ST history A := λ h,
  let '(r, b) := m (best_by_model h) in
  (r, mkHistory (include_compatible h) (best_by_targetkey h) b (best_user_defined h)).
Definition on_user {A} (m : ST best_t A) : ST history A := λ h,
  let '(r, b) := m (best_user_defined h) in
  (r, mkHistory (include_compatible h) (best_by_targetkey h) (best_by_model h) b).

Section Load.
Context `{Numpy}.

(** A record in the loop of [load]. *)
Definition load_record (r : as_input * as_result) : ST history unit :=
  let '(inp, res) := r in
  if decide (ar_error_no res ≠ 0%Z) then sret tt else
  let cost := np_mean (omap id (ar_costs res)) in
  let t := ai_target inp in
  let! _ := sfor (tg_keys t) (λ k, on_targetkey (offer_record true k (ai_workload_key inp) (ai_state inp) cost)) in
  on_model (offer_record (bool_decide (tg_model t ≠ "unknown")) (tg_model t) (ai_workload_key inp)
    (ai_state inp) cost).

(** What [load] is given: the records of a file, a record, or [None]. *)
Inductive as_records :=
  | AsFile (l : list (as_input * as_result))
  | AsRecord (r : as_input * as_result)
  | AsNone.

Definition joint_records (records : list as_records) : list (as_input * as_result) :=
  concat ((λ rec, match rec with AsFile l => l | AsRecord r => [r] | AsNone => [] end) <$> records).

(** [load]. *)
Definition load (records : list as_records) (n_lines : option Z) : ST history unit :=
  let l := joint_records records in
  sfor (match n_lines with Some n => take (Z.to_nat n) l | None => l end) load_record.

Definition ApplyHistoryBest_init (records : list as_records) (n_lines : option Z) (compatible : bool) : py history :=
  match load records n_lines (mkHistory compatible [] [] []) with
  | (Ret _, h) => Ret h
  | (Raise e, _) => Raise e
  end.
End Load.

(** ** Queries of the history *)

(** The loop over the items of an entry: the state chosen and [best_cost]. *)
Fixpoint compatible_loop (workload_hash : json) (workload_args : option (list json)) (items : list slot)
    (ret : option State) (best_cost : flt) : py (option State) :=
  match items with
  | [] => Ret ret
  | s :: items' =>
      let? dis_f := calc_workload_dis_factor (workload_hash, workload_args) (workload_hash, s_args s) in
      if feqb dis_f f_inf then compatible_loop workload_hash workload_args items' ret best_cost
      else
        let cost := fmul (s_cost s) dis_f in
        if bool_decide (ret = None) || fltb cost best_cost
        then compatible_loop workload_hash workload_args items' (Some (s_state s)) cost
        else compatible_loop workload_hash workload_args items' ret best_cost
  end.

(** [match_record]. *)
Definition match_record (compatible : bool) (target_key workload_key : string) : ST best_t (option State) :=
  let! (hash, workload_hash, workload_args) := get_workload_entry target_key workload_key in
  let! k := slift (args_key workload_args) in
  let! best := sget in
  let e := entry_of best target_key hash in
  match od_get e k with
  | Some s => sret (Some (s_state s))
  | None => if compatible then slift (compatible_loop workload_hash workload_args (od_vals e) None f_inf)
            else sret None
  end.

(** The first answer of a list of lookups. *)
Fixpoint first_match (ms : list (ST history (option State))) : ST history (option State) :=
  match ms with
  | [] => sret None
  | m :: ms' =>
      let! ret := m in
      match ret with Some _ => sret ret | None => first_match ms' end
  end.

(** [ApplyHistoryBest._query_inside]. *)
Definition history_query_inside (t : option target) (workload_key : string) : ST history (option State) :=
  match t with
  | None => sraise RuntimeError
  | Some t =>
      let! h := sget in
      let c := include_compatible h in
      first_match
        (on_user (match_record c (tg_model t) workload_key) :: on_model (match_record c (tg_model t) workload_key) ::
         concat ((λ k, [on_user (match_record c k workload_key); on_targetkey (match_record c k workload_key)])
                   <$> tg_keys t))
  end.

(** [ApplyHistoryBest.update]. *)
Definition user_update (k workload_key : string) (st : State) : ST best_t unit :=
  let! (hash, _, args) := get_workload_entry k workload_key in
  let! ak := slift (args_key args) in
  smod (λ best, set_entry best k hash (set_slot ak args st f1 (entry_of best k hash))).

Definition as_history_update (t : target) (workload_key : string) (st : State) : ST history unit :=
  on_user (sfor (tg_model t :: tg_keys t) (λ k, user_update k workload_key st)).
(** ** Contexts *)

(** A message of the fallback context: the function, the target, the workload and the
    DAG it names. *)
Abbreviation message := (string * string * string * string)%type.

(** The kinds of context with their fields; [ApplyHistoryBestOrSample] adds a flag
    to a history. *)
Inductive as_kind :=
  | KHistory (h : history)
  | KSample (h : history) (sample_simple_workloads : bool)
  | KFallback (memory : list ((string * string) * option State)) (verbose : Z) (messages : list message).

Record as_ctx := mkAsCtx { as_old_ctx : option nat; as_kind_of : as_kind }.

(** The context objects, [DispatchContext.current] and the warnings logged. *)
Record as_world := mkAsWorld {
  as_ctxs : gmap nat as_ctx;
  as_current : option nat;
  as_warnings : list message
}.

Definition as_get (id : nat) : ST as_world as_ctx := λ w,
  match as_ctxs w !! id with Some c => (Ret c, w) | None => (Raise AttributeError, w) end.

Definition as_set_kind (id : nat) (k : as_kind) : ST as_world unit :=
  let! c := as_get id in
  smod (λ w, mkAsWorld (<[id := mkAsCtx (as_old_ctx c) k]> (as_ctxs w)) (as_current w) (as_warnings w)).

(** [DispatchContext.__init__], [__enter__] and [__exit__]. *)
Definition as_init (id : nat) (k : as_kind) (w : as_world) : as_world :=
  mkAsWorld (<[id := mkAsCtx (as_current w) k]> (as_ctxs w)) (as_current w) (as_warnings w).

Definition as_enter (id : nat) : ST as_world unit :=
  let! c := as_get id in
  smod (λ w, mkAsWorld (<[id := mkAsCtx (as_current w) (as_kind_of c)]> (as_ctxs w)) (Some id) (as_warnings w)).

Definition as_exit (id : nat) : ST as_world unit :=
  let! c := as_get id in
  smod (λ w, mkAsWorld (as_ctxs w) (as_old_ctx c) (as_warnings w)).

(** The world before the first context: [DispatchContext.current = FallbackContext()]. *)
Definition as_start : as_world :=
  mkAsWorld {[0 := mkAsCtx None (KFallback [] 1 [])]} (Some 0) [].

Section Query.
Context `{Numpy}.
(** The records in the log file of a workload after each round of its search. *)
Context (sampled : string → nat → list (as_input * as_result)).

(** The [while ret is None] loop of [ApplyHistoryBestOrSample._query_inside]. *)
Fixpoint sample_loop (fuel n : nat) (t : option target) (workload_key : string) : ST history State :=
  match fuel with
  | O => sraise RecursionError
  | S fuel' =>
      let! _ := load [AsFile (sampled workload_key n)] None in
      let! ret := history_query_inside t workload_key in
      match ret with
      | Some st => sret st
      | None => sample_loop fuel' (S n) t workload_key
      end
  end.

Definition sample_query_inside (fuel : nat) (t : option target) (workload_key : string) : ST history State :=
  let! ret := history_query_inside t workload_key in
  match ret with
  | Some st => sret st
  | None => sample_loop fuel 0 t workload_key
  end.

(** A method of the history inside a context, with the context's kind put back. *)
Definition with_history {A} (id : nat) (mk : history → as_kind) (h : history) (m : ST history A) : ST as_world A :=
  let '(r, h') := m h in
  let! _ := as_set_kind id (mk h') in
  slift r.

(** [FallbackContext.query]. *)
Definition fallback_query (id : nat) (memory : list ((string * string) * option State)) (verbose : Z)
    (messages : list message) (t : option target) (workload_key : string) (has_complex_op : bool)
    (dag func_name : string) : ST as_world (option State) :=
  let key := (target_str t, workload_key) in
  match od_get memory key with
  | Some st => sret st
  | None =>
      let msg := (func_name, target_str t, workload_key, dag) in
      let warn := bool_decide (verbose = 2%Z) || (has_complex_op && bool_decide (verbose = 1%Z)) in
      let new := warn && negb (bool_decide (msg ∈ messages)) in
      let! _ := if new then smod (λ w, mkAsWorld (as_ctxs w) (as_current w) (as_warnings w ++ [msg])) else sret tt in
      let! _ := as_set_kind id (KFallback (od_set memory key None) verbose
                  (if new then messages ++ [msg] else messages)) in
      sret None
  end.

(** [query] of each class; the chain of outer contexts bounds the recursion. *)
Fixpoint as_query (fuel sample_fuel id : nat) (t : option target) (workload_key : string) (has_complex_op : bool)
    (dag func_name : string) : ST as_world (option State) :=
  match fuel with
  | O => sraise RecursionError
  | S fuel' =>
      let! c := as_get id in
      let outer :=
        match as_old_ctx c with
        | None => sraise AttributeError
        | Some o => as_query fuel' sample_fuel o t workload_key has_complex_op dag func_name
        end in
      match as_kind_of c with
      | KFallback memory verbose messages =>
          fallback_query id memory verbose messages t workload_key has_complex_op dag func_name
      | KHistory h =>
          let! ret := with_history id KHistory h (history_query_inside t workload_key) in
          match ret with Some _ => sret ret | None => outer end
      | KSample h simple =>
          if has_complex_op || simple then
            let! st := with_history id (λ h, KSample h simple) h
                         (sample_query_inside sample_fuel t workload_key) in
            sret (Some st)
          else
            let! ret := with_history id (λ h, KSample h simple) h (history_query_inside t workload_key) in
            match ret with Some _ => sret ret | None => outer end
      end
  end.

(** [update] of each class. *)
Definition as_update (id : nat) (t : target) (workload_key : string) (st : State) : ST as_world unit :=
  let! c := as_get id in
  match as_kind_of c with
  | KHistory h => with_history id KHistory h (as_history_update t workload_key st)
  | KSample h simple => with_history id (λ h, KSample h simple) h (as_history_update t workload_key st)
  | KFallback memory verbose messages =>
      as_set_kind id (KFallback (od_set memory (tg_str t, workload_key) (Some st)) verbose messages)
  end.
End Query.
End Context.
