(* ===== verification/AsDispatcherSpec.v ===== *)
(** * Dispatch contexts of the auto-scheduler: properties

    What a history holds after its records are loaded, and what it answers. *)

From S2P Require Import Prelude PyFloat Dispatcher AsDispatcher.

#[global] Instance py_eq_dec {A} `{EqDecision A} : EqDecision (py A).
Proof. solve_decision. Defined.

Lemma sbind_step {S A B} (m : ST S A) (k : A → ST S B) s a s' : m s = (Ret a, s') → sbind m k s = k a s'.
Proof. unfold sbind. by intros ->. Qed.

Section Spec.
Context {State : Type} (loads : string → py json).

Abbreviation best_t := (list (string * list (json * list (option (list json) * @slot State)))).
Abbreviation record_t := (@as_input State * as_result)%type.

(** ** Entries *)

(** The keys under which a workload is stored. *)
Definition wl_key (workload_key : string) : py (json * option (list json)) :=
  let? (workload_hash, workload_args) := decode_workload_key loads workload_key in
  let? hash := hash_key workload_hash in
  let? k := args_key workload_args in
  Ret (hash, k).

Definition slot_at (best : best_t) (target_key : string) (key : json * option (list json)) : option slot :=
  od_get (entry_of best target_key key.1) key.2.

(** Maps with the same items; one may have more empty entries. *)
Definition same_entries (b b' : best_t) : Prop := ∀ k h, entry_of b' k h = entry_of b k h.

Lemma entry_of_set (best : best_t) k h e k' h' :
  entry_of (set_entry best k h e) k' h' = if decide (k = k' ∧ h = h') then e else entry_of best k' h'.
Proof.
  unfold entry_of, set_entry. rewrite od_get_set. destruct (decide (k = k')) as [<-|Hk].
  - simpl. rewrite od_get_set. destruct (decide (h = h')) as [<-|Hh]; [by rewrite decide_True|].
    by rewrite decide_False by tauto.
  - by rewrite decide_False by tauto.
Qed.

Lemma ensure_target_same k (b : best_t) : same_entries b (ensure_target k b).
Proof.
  intros k' h. unfold ensure_target, od_mem. destruct (od_get b k) eqn:E; [done|].
  unfold entry_of. rewrite od_get_set. destruct (decide (k = k')) as [<-|]; [|done]. by rewrite E.
Qed.

Lemma ensure_hash_same k h (b : best_t) : same_entries b (ensure_hash k h b).
Proof.
  intros k' h'. unfold ensure_hash, od_mem. destruct (od_get (default [] (od_get b k)) h) eqn:E; [done|].
  rewrite entry_of_set. case_decide as Hd; [|done]. destruct Hd as [<- <-]. unfold entry_of. by rewrite E.
Qed.

(** [get_workload_entry] answers without changing any item. *)
Lemma get_workload_entry_spec k wk h args hk (b : best_t) :
  decode_workload_key loads wk = Ret (h, args) → hash_key h = Ret hk →
  ∃ b', get_workload_entry loads k wk b = (Ret (hk, h, args), b') ∧ same_entries b b'.
Proof.
  intros Hd Hh. eexists. unfold get_workload_entry, sbind, slift, smod, sret. rewrite Hd, Hh.
  split; [done|]. intros k' h'. by rewrite ensure_hash_same, ensure_target_same.
Qed.

Lemma wl_key_Ret wk key : wl_key wk = Ret key →
  ∃ h args, decode_workload_key loads wk = Ret (h, args) ∧ hash_key h = Ret key.1 ∧ args_key args = Ret key.2.
Proof.
  unfold wl_key. intros ([h args] & Hd & Hk)%pbind_Ret. apply pbind_Ret in Hk as (hk & Hh & Hk).
  apply pbind_Ret in Hk as (ak & Ha & [= <-]). by exists h, args.
Qed.

(** ** Loading *)

(** The state and the cost of an item. *)
Definition held (best : best_t) (target_key : string) (key : json * option (list json)) : option (State * flt) :=
  (λ s, (s_state s, s_cost s)) <$> slot_at best target_key key.

(** What an item becomes when a record is offered. *)
Definition offered (new : bool) (o : option (State * flt)) (v : State * flt) : option (State * flt) :=
  match o with
  | None => if new then Some v else None
  | Some u => if fltb v.2 u.2 then Some v else Some u
  end.

Lemma offered_twice new o v : offered new (offered new o v) v = offered new o v.
Proof.
  destruct o as [u|]; simpl.
  - destruct (fltb v.2 u.2) eqn:E; simpl; by rewrite ?flt_irrefl, ?E.
  - destruct new; simpl; by rewrite ?flt_irrefl.
Qed.

Lemma offer_record_spec new k wk key st cost (b : best_t) :
  wl_key wk = Ret key →
  ∃ b', offer_record loads new k wk st cost b = (Ret tt, b') ∧
    ∀ k' key', held b' k' key' =
      if decide (k = k' ∧ key = key') then offered new (held b k' key') (st, cost) else held b k' key'.
Proof.
  intros (h & args & Hd & Hh & Ha)%wl_key_Ret. destruct key as [hk ak]. simpl in *.
  destruct (get_workload_entry_spec k wk h args hk b Hd Hh) as (b1 & Hg & Hs).
  eexists. unfold offer_record, sbind at 1. rewrite Hg. unfold sbind, slift, smod. rewrite Ha.
  split; [done|]. intros k' [hk' ak']. unfold held, slot_at. cbn [fst snd].
  rewrite <-(Hs k' hk'). set (e := entry_of b1 k hk).
  set (better := match od_get e ak with None => new | Some s => fltb cost (s_cost s) end).
  destruct (decide (k = k' ∧ (hk, ak) = (hk', ak'))) as [[<- [= <- <-]]|Hne].
  - fold e. assert (offered new ((λ s, (s_state s, s_cost s)) <$> od_get e ak) (st, cost) =
      if better then Some (st, cost) else (λ s, (s_state s, s_cost s)) <$> od_get e ak) as ->.
    { unfold better. destruct (od_get e ak); simpl; [done|]. by destruct new. }
    destruct better; [|done]. rewrite entry_of_set, decide_True by done. unfold set_slot.
    by rewrite od_get_set_eq.
  - destruct better; [|done]. rewrite entry_of_set. case_decide as Hk; [|done]. destruct Hk as [<- <-].
    unfold set_slot. rewrite od_get_set_ne; [done|]. intros <-. by apply Hne.
Qed.

Lemma offer_keys_spec keys wk key st cost : wl_key wk = Ret key → ∀ h : history,
  ∃ h', sfor keys (λ k, on_targetkey (offer_record loads true k wk st cost)) h = (Ret tt, h') ∧
    best_by_model h' = best_by_model h ∧
    best_user_defined h' = best_user_defined h ∧ include_compatible h' = include_compatible h ∧
    ∀ k' key', held (best_by_targetkey h') k' key' =
      if decide (k' ∈ keys ∧ key = key') then offered true (held (best_by_targetkey h) k' key') (st, cost)
      else held (best_by_targetkey h) k' key'.
Proof.
  intros Hkey. induction keys as [|k keys IH]; intros h.
  { exists h. split; [done|]. do 3 (split; [done|]). intros k' key'. rewrite decide_False; [done|]. set_solver. }
  destruct (offer_record_spec true k wk key st cost (best_by_targetkey h) Hkey) as (b1 & Hb & Hh1).
  set (h1 := mkHistory (include_compatible h) b1 (best_by_model h) (best_user_defined h)).
  destruct (IH h1) as (h' & Hf & Hm & Hu & Hc & Hh'). exists h'. split.
  { simpl. unfold sbind, on_targetkey at 1. rewrite Hb. exact Hf. }
  do 3 (split; [done|]). intros k' key'. rewrite Hh'. simpl. rewrite Hh1.
  destruct (decide (key = key')) as [<-|Hne]; [|by rewrite !decide_False by tauto].
  destruct (decide (k = k')) as [<-|Hk].
  - rewrite (decide_True (P := k = k ∧ key = key)) by done.
    rewrite (decide_True (P := k ∈ k :: keys ∧ key = key)) by (by split; [left|]).
    case_decide; [by rewrite offered_twice|done].
  - rewrite (decide_False (P := k = k' ∧ key = key)) by tauto.
    destruct (decide (k' ∈ keys)) as [Hin|Hin].
    + rewrite !decide_True by set_solver; done.
    + rewrite !decide_False; [done| |tauto]. rewrite elem_of_cons. intros [[->|?] _]; tauto.
Qed.

Section Load.
Context `{Numpy}.

Definition mean_of (r : record_t) : flt := np_mean (omap id (ar_costs r.2)).
Definition value_of (r : record_t) : State * flt := (ai_state r.1, mean_of r).
Definition key_of (r : record_t) : py (json * option (list json)) := wl_key (ai_workload_key r.1).

(** The values that belong to an item of the maps: those of the records that ran,
    in the order they are loaded. *)
Definition for_target (k : string) (key : json * option (list json)) (l : list record_t) : list (State * flt) :=
  value_of <$> filter (λ r, ar_error_no r.2 = 0%Z ∧ k ∈ tg_keys (ai_target r.1) ∧ key_of r = Ret key) l.
Definition for_model (m : string) (key : json * option (list json)) (l : list record_t) : list (State * flt) :=
  value_of <$> filter (λ r, ar_error_no r.2 = 0%Z ∧ m ≠ "unknown" ∧ m = tg_model (ai_target r.1) ∧
                         key_of r = Ret key) l.

Definition loadable (r : record_t) : Prop := ar_error_no r.2 = 0%Z → is_ret (key_of r).

Lemma load_record_spec r (h : history) : loadable r →
  ∃ h', load_record loads r h = (Ret tt, h') ∧
    best_user_defined h' = best_user_defined h ∧ include_compatible h' = include_compatible h ∧
    (∀ k key, held (best_by_targetkey h') k key = foldl (offered true) (held (best_by_targetkey h) k key) (for_target k key [r])) ∧
    (∀ m key, (m = "unknown" → held (best_by_model h) m key = None) →
      held (best_by_model h') m key = foldl (offered true) (held (best_by_model h) m key) (for_model m key [r])).
Proof.
  intros Hr. destruct r as [inp res]. unfold for_target, for_model. setoid_rewrite filter_cons.
  unfold loadable in Hr. unfold load_record. case_decide as Herr.
  { exists h. split; [done|]. do 2 (split; [done|]). simpl. split; intros; by rewrite decide_False by tauto. }
  assert (ar_error_no res = 0%Z) as Hok by (by destruct (decide (ar_error_no res = 0%Z))).
  destruct (Hr Hok) as [key0 Hkey]. unfold key_of in *. cbn [fst snd] in *.
  destruct (offer_keys_spec (tg_keys (ai_target inp)) _ _ (ai_state inp) (np_mean (omap id (ar_costs res))) Hkey h)
    as (h1 & Hf & Hm & Hu & Hc & Hheld).
  destruct (offer_record_spec (bool_decide (tg_model (ai_target inp) ≠ "unknown")) (tg_model (ai_target inp)) _ _
    (ai_state inp) (np_mean (omap id (ar_costs res))) (best_by_model h1) Hkey) as (b2 & Hb & Hheld2).
  eexists. split. { unfold sbind. rewrite Hf. unfold on_model. rewrite Hb. done. }
  do 2 (split; [done|]). cbn [best_by_targetkey best_by_model]. split.
  - intros k key. rewrite Hheld. destruct (decide (k ∈ tg_keys (ai_target inp) ∧ key0 = key)) as [[Hk <-]|Hn].
    + rewrite decide_True by done. done.
    + rewrite decide_False; [done|]. intros (_ & ? & [= ->]%(eq_trans (eq_sym Hkey))). tauto.
  - intros m key Hun. rewrite Hheld2, Hm.
    destruct (decide (tg_model (ai_target inp) = m ∧ key0 = key)) as [[<- <-]|Hn].
    + case_bool_decide as Hm2.
      * rewrite decide_True by done. done.
      * rewrite decide_False by tauto. simpl. rewrite Hun; [done|]. by destruct (decide (tg_model (ai_target inp) = "unknown")).
    + rewrite decide_False; [done|]. intros (_ & _ & -> & [= ->]%(eq_trans (eq_sym Hkey))). tauto.
Qed.

Lemma load_records_fold (l : list record_t) : (∀ r, r ∈ l → loadable r) → ∀ h : history,
  (∀ key, held (best_by_model h) "unknown" key = None) →
  ∃ h', sfor l (load_record loads) h = (Ret tt, h') ∧
    best_user_defined h' = best_user_defined h ∧ include_compatible h' = include_compatible h ∧
    (∀ k key, held (best_by_targetkey h') k key = foldl (offered true) (held (best_by_targetkey h) k key) (for_target k key l)) ∧
    (∀ m key, held (best_by_model h') m key = foldl (offered true) (held (best_by_model h) m key) (for_model m key l)).
Proof.
  induction l as [|r l IH]; intros Hl h Hun; [by exists h|].
  destruct (load_record_spec r h (Hl r (list_elem_of_here _ _))) as (h1 & H1 & Hu1 & Hc1 & Ht1 & Hm1).
  destruct (IH (λ x Hx, Hl x (list_elem_of_further _ _ _ Hx)) h1) as (h' & H' & Hu & Hc & Ht & Hm).
  { intros key. rewrite Hm1 by (intros; apply Hun). rewrite Hun. unfold for_model.
    rewrite filter_cons. by rewrite decide_False by tauto. }
  exists h'. split; [simpl; unfold sbind; by rewrite H1|]. split; [congruence|]. split; [congruence|].
  assert (∀ (P : record_t → Prop) `{∀ r, Decision (P r)}, filter P (r :: l) = filter P [r] ++ filter P l) as Happ.
  { intros P ?. rewrite !filter_cons. by case_decide. }
  split.
  - intros k key. rewrite Ht, Ht1, <-foldl_app. unfold for_target at 3. rewrite Happ, fmap_app. done.
  - intros m key. rewrite Hm, Hm1 by (intros ->; apply Hun). rewrite <-foldl_app.
    unfold for_model at 3. rewrite Happ, fmap_app. done.
Qed.

(** An item of the map is the first of the best of its values. *)
Definition first_best (l : list (State * flt)) (o : option (State * flt)) : Prop :=
  match o with
  | None => l = []
  | Some v => ∃ pre post, l = pre ++ v :: post ∧
      (∀ u, u ∈ pre → flt_ v.2 u.2) ∧ (∀ u, u ∈ post → fle v.2 u.2)
  end.

Lemma offered_first_best l : (∀ v, v ∈ l → is_nan v.2 = false) → first_best l (foldl (offered true) None l).
Proof.
  induction l as [|v l IH] using rev_ind; intros Hnan; [done|]. rewrite foldl_app. simpl.
  assert (is_nan v.2 = false) as Hv by (apply Hnan; set_solver).
  assert (∀ u, u ∈ l → is_nan u.2 = false) as Hl by (intros; apply Hnan; set_solver).
  specialize (IH Hl). destruct (foldl (offered true) None l) as [u|]; simpl in *.
  - destruct IH as (pre & post & -> & Hpre & Hpost). destruct (fltb v.2 u.2) eqn:E.
    + exists (pre ++ u :: post), []. split; [done|]. split; [|by intros ? ?%elem_of_nil].
      intros x [Hx|[->|Hx]%elem_of_cons]%elem_of_app; [|done|].
      * eapply flt_le_trans; [exact E|]. by apply flt_fle, Hpre.
      * eapply flt_le_trans; [exact E|]. by apply Hpost.
    + exists pre, (post ++ [v]). split; [by rewrite <-app_assoc|]. split; [done|].
      intros x [Hx|Hx%list_elem_of_singleton]%elem_of_app; [by apply Hpost|subst x].
      apply fltb_false_fle; [done|apply Hl; set_solver|done].
  - rewrite IH. exists [], []. split; [done|]. split; by intros u ?%elem_of_nil.
Qed.

(** The records that [load] looks at. *)
Definition loaded (records : list as_records) (n_lines : option Z) : list record_t :=
  match n_lines with Some n => take (Z.to_nat n) (joint_records records) | None => joint_records records end.

(** C25: after the records are loaded, the history holds, for every target key and
    every known model, of each workload the first of the records with the least
    mean cost among those that ran, and nothing where there is none. *)
Theorem as_load_spec records n_lines compatible :
  (∀ r, r ∈ loaded records n_lines → ar_error_no r.2 = 0%Z → is_ret (key_of r) ∧ is_nan (mean_of r) = false) →
  ∃ h, ApplyHistoryBest_init loads records n_lines compatible = Ret h ∧
    include_compatible h = compatible ∧ best_user_defined h = [] ∧
    (∀ k key, first_best (for_target k key (loaded records n_lines)) (held (best_by_targetkey h) k key)) ∧
    (∀ m key, first_best (for_model m key (loaded records n_lines)) (held (best_by_model h) m key)).
Proof.
  intros Hl. destruct (load_records_fold (loaded records n_lines)
    (λ r Hr Hok, proj1 (Hl r Hr Hok)) (mkHistory compatible [] [] [])) as (h & Hf & Hu & Hc & Ht & Hm); [done|].
  exists h. split; [unfold ApplyHistoryBest_init, load; fold (loaded records n_lines); by rewrite Hf|].
  split; [done|]. split; [done|].
  split; intros k key; [rewrite Ht|rewrite Hm]; apply offered_first_best;
    intros v (r & -> & [Hp Hr]%list_elem_of_filter)%list_elem_of_fmap;
    exact (proj2 (Hl r Hr (proj1 Hp))).
Qed.
End Load.

(** ** Queries *)

(** The item's cost for the wanted workload, when it is compatible. *)
Definition compatible_cost (h : json) (args : option (list json)) (s : @slot State) (c : flt) : Prop :=
  ∃ d, calc_workload_dis_factor (h, args) (h, s_args s) = Ret d ∧ feqb d f_inf = false ∧ c = fmul (s_cost s) d.

Definition incompatible (h : json) (args : option (list json)) (s : @slot State) : Prop :=
  ∃ d, calc_workload_dis_factor (h, args) (h, s_args s) = Ret d ∧ feqb d f_inf = true.

(** What one lookup answers: the exact item if there is one; otherwise nothing, or in a
    history that includes compatible records the one with the least cost, if any. *)
Inductive answers (compatible : bool) (best : best_t) (target_key : string) (h : json) (args : option (list json))
    (key : json * option (list json)) : option State → Prop :=
  | answers_exact s : slot_at best target_key key = Some s →
      answers compatible best target_key h args key (Some (s_state s))
  | answers_none : slot_at best target_key key = None →
      (compatible = true → ∀ s, s ∈ od_vals (entry_of best target_key key.1) → incompatible h args s) →
      answers compatible best target_key h args key None
  | answers_near s c : slot_at best target_key key = None → compatible = true →
      s ∈ od_vals (entry_of best target_key key.1) → compatible_cost h args s c →
      ((∀ s' c', s' ∈ od_vals (entry_of best target_key key.1) → compatible_cost h args s' c' → is_nan c' = false) →
       ∀ s' c', s' ∈ od_vals (entry_of best target_key key.1) → compatible_cost h args s' c' → fle c c') →
      answers compatible best target_key h args key (Some (s_state s)).

(** The factors of all items are defined. *)
Definition comparable_items (best : best_t) (target_key : string) (h : json) (args : option (list json))
    (key : json * option (list json)) : Prop :=
  ∀ s, s ∈ od_vals (entry_of best target_key key.1) → is_ret (calc_workload_dis_factor (h, args) (h, s_args s)).

Lemma compatible_loop_spec h args (items : list (@slot State)) :
  (∀ s, s ∈ items → is_ret (calc_workload_dis_factor (h, args) (h, s_args s))) →
  ∀ seen ret best_cost,
  match ret with
  | None => ∀ s, s ∈ seen → incompatible h args s
  | Some st => ∃ s, s ∈ seen ∧ st = s_state s ∧ compatible_cost h args s best_cost ∧
      ((∀ s' c', s' ∈ seen ++ items → compatible_cost h args s' c' → is_nan c' = false) →
       ∀ s' c', s' ∈ seen → compatible_cost h args s' c' → fle best_cost c')
  end →
  ∃ ret' best_cost', compatible_loop h args items ret best_cost = Ret ret' ∧
  match ret' with
  | None => ∀ s, s ∈ seen ++ items → incompatible h args s
  | Some st => ∃ s, s ∈ seen ++ items ∧ st = s_state s ∧ compatible_cost h args s best_cost' ∧
      ((∀ s' c', s' ∈ seen ++ items → compatible_cost h args s' c' → is_nan c' = false) →
       ∀ s' c', s' ∈ seen ++ items → compatible_cost h args s' c' → fle best_cost' c')
  end.
Proof.
  induction items as [|s items IH]; intros Hret seen ret best_cost Hinv.
  { exists ret, best_cost. split; [done|]. by rewrite app_nil_r in *. }
  destruct (Hret s) as [d Hd]; [left|]. cbn [compatible_loop]. rewrite Hd. cbn [pbind].
  assert (∀ x, x ∈ items → is_ret (calc_workload_dis_factor (h, args) (h, s_args x))) as Hret' by (intros; apply Hret; by right).
  specialize (IH Hret' (seen ++ [s])). rewrite <-app_assoc in IH. cbn [app] in IH.
  assert (∀ c', compatible_cost h args s c' → feqb d f_inf = false ∧ c' = fmul (s_cost s) d) as Hs.
  { intros c' (d' & Hd' & ? & ->). rewrite Hd in Hd'. by injection Hd' as <-. }
  destruct (feqb d f_inf) eqn:Einf.
  - apply IH. assert (incompatible h args s) as Hinc by (by exists d). destruct ret as [st|].
    + destruct Hinv as (s0 & Hin & -> & Hc & Hmin). exists s0. split; [set_solver|]. do 2 (split; [done|]).
      intros Hnan s' c' [Hs'|Hs'%list_elem_of_singleton]%elem_of_app Hc'; [by eapply Hmin|].
      subst s'. by destruct (Hs c' Hc').
    + intros x [Hx|Hx%list_elem_of_singleton]%elem_of_app; [by apply Hinv|by subst].
  - assert (compatible_cost h args s (fmul (s_cost s) d)) as Hcs by (by exists d).
    destruct (bool_decide (ret = None) || fltb (fmul (s_cost s) d) best_cost) eqn:Eb; apply IH.
    + exists s. split; [set_solver|]. do 2 (split; [done|]).
      intros Hnan s' c' [Hs'|Hs'%list_elem_of_singleton]%elem_of_app Hc'.
      * destruct ret as [st|].
        -- destruct Hinv as (s0 & Hin & -> & Hc & Hmin). simpl in Eb. eapply fle_trans; [by apply flt_fle|].
           by eapply Hmin.
        -- destruct (Hinv s' Hs') as (d' & Hd' & Hinf), Hc' as (d2 & Hd2 & Hninf & _). congruence.
      * subst s'. destruct (Hs c' Hc') as [_ ->]. apply fle_refl. apply (Hnan s); [set_solver|done].
    + apply orb_false_iff in Eb as [Hne Elt]. destruct ret as [st|]; [|by rewrite bool_decide_true in Hne].
      destruct Hinv as (s0 & Hin & -> & Hc & Hmin). exists s0. split; [set_solver|]. do 2 (split; [done|]).
      intros Hnan s' c' [Hs'|Hs'%list_elem_of_singleton]%elem_of_app Hc'; [by eapply Hmin|].
      subst s'. destruct (Hs c' Hc') as [_ ->].
      apply fltb_false_fle; [apply (Hnan s); [set_solver|done]|apply (Hnan s0); [set_solver|done]|exact Elt].
Qed.

Lemma match_record_spec compatible k wk h args key (best b : best_t) :
  decode_workload_key loads wk = Ret (h, args) → wl_key wk = Ret key →
  same_entries best b → (compatible = true → comparable_items best k h args key) →
  ∃ o b', match_record loads compatible k wk b = (Ret o, b') ∧ same_entries best b' ∧
          answers compatible best k h args key o.
Proof.
  intros Hd (h' & args' & Hd' & Hh & Ha)%wl_key_Ret Hb Hcmp. rewrite Hd in Hd'. injection Hd' as <- <-.
  destruct (get_workload_entry_spec k wk h args key.1 b Hd Hh) as (b1 & Hg & Hs).
  assert (same_entries best b1) as Hb1 by (intros k' h'; by rewrite Hs, Hb).
  unfold match_record, sbind at 1. rewrite Hg. unfold sbind, slift, sget, sret. rewrite Ha, Hb1.
  destruct (od_get (entry_of best k key.1) key.2) as [s|] eqn:Es.
  { exists (Some (s_state s)), b1. split; [done|]. split; [done|]. exact (answers_exact _ _ _ _ _ _ s Es). }
  destruct compatible.
  - destruct (compatible_loop_spec h args (od_vals (entry_of best k key.1)) (Hcmp eq_refl) [] None f_inf)
      as (ret & c & Hl & Hret); [by intros s ?%elem_of_nil|]. rewrite Hl. exists ret, b1.
    split; [done|]. split; [done|]. destruct ret as [st|]; simpl in Hret.
    + destruct Hret as (s & Hin & -> & Hc & Hmin). exact (answers_near _ _ _ _ _ _ s c Es eq_refl Hin Hc Hmin).
    + apply answers_none; [exact Es|done].
  - exists None, b1. split; [done|]. split; [done|]. apply answers_none; [exact Es|done].
Qed.

(** Histories with the same items. *)
Record same_history (h h' : @history State) : Prop := {
  sh_compatible : include_compatible h' = include_compatible h;
  sh_targetkey : same_entries (best_by_targetkey h) (best_by_targetkey h');
  sh_model : same_entries (best_by_model h) (best_by_model h');
  sh_user : same_entries (best_user_defined h) (best_user_defined h')
}.

Lemma same_history_refl h : same_history h h.
Proof. by split. Qed.

(** The first of the lookups that answers. *)
Inductive first_answer : list (option State → Prop) → option State → Prop :=
  | first_answer_nil : first_answer [] None
  | first_answer_here (P : option State → Prop) Ps st : P (Some st) → first_answer (P :: Ps) (Some st)
  | first_answer_next (P : option State → Prop) Ps o : P None → first_answer Ps o → first_answer (P :: Ps) o.

(** A lookup that answers [P] in every history with the items of [h0], and keeps them. *)
Definition lookup (h0 : @history State) (m : ST history (option State)) (P : option State → Prop) : Prop :=
  ∀ h, same_history h0 h → ∃ o h', m h = (Ret o, h') ∧ same_history h0 h' ∧ P o.

Lemma first_match_spec h0 ms Ps : Forall2 (lookup h0) ms Ps → ∀ h, same_history h0 h →
  ∃ o h', first_match ms h = (Ret o, h') ∧ same_history h0 h' ∧ first_answer Ps o.
Proof.
  induction 1 as [|m P ms Ps Hm _ IH]; intros h Hh; [exists None, h; by split_and!; [|done|constructor]|].
  destruct (Hm h Hh) as (o & h1 & H1 & Hh1 & HP). simpl. unfold sbind. rewrite H1. destruct o as [st|].
  - exists (Some st), h1. split; [done|]. split; [done|]. by apply first_answer_here.
  - destruct (IH h1 Hh1) as (o & h' & H' & Hh' & Ho). exists o, h'. split; [done|]. split; [done|].
    by apply first_answer_next.
Qed.

(** The lookups of a query, in their order. *)
Definition query_answers (hist : history) (t : target) (h : json) (args : option (list json))
    (key : json * option (list json)) : list (option State → Prop) :=
  let a best k := answers (include_compatible hist) best k h args key in
  a (best_user_defined hist) (tg_model t) :: a (best_by_model hist) (tg_model t) ::
  concat ((λ k, [a (best_user_defined hist) k; a (best_by_targetkey hist) k]) <$> tg_keys t).

Definition history_maps (hist : @history State) : list best_t :=
  [best_user_defined hist; best_by_model hist; best_by_targetkey hist].

Definition comparable_history (hist : history) (h : json) (args : option (list json))
    (key : json * option (list json)) : Prop :=
  include_compatible hist = true → ∀ best k, best ∈ history_maps hist → comparable_items best k h args key.

Lemma query_total t wk h args key hist :
  decode_workload_key loads wk = Ret (h, args) → wl_key wk = Ret key → comparable_history hist h args key →
  ∃ o hist', history_query_inside loads (Some t) wk hist = (Ret o, hist') ∧ same_history hist hist' ∧
    first_answer (query_answers hist t h args key) o.
Proof.
  intros Hd Hk Hcmp. unfold history_query_inside, sbind at 1, sget.
  assert (∀ k, lookup hist (on_user (match_record loads (include_compatible hist) k wk))
    (answers (include_compatible hist) (best_user_defined hist) k h args key)) as Hu.
  { intros k x [Hxc Hxt Hxm Hxu]. destruct (match_record_spec (include_compatible hist) k wk h args key _ _ Hd Hk Hxu)
      as (o & b' & Hm & Hb & Ho); [intros Hc; apply Hcmp; [done|left]|].
    exists o. eexists. unfold on_user. rewrite Hm. split; [done|]. split; [|done]. by split. }
  assert (∀ k, lookup hist (on_model (match_record loads (include_compatible hist) k wk))
    (answers (include_compatible hist) (best_by_model hist) k h args key)) as Hmo.
  { intros k x [Hxc Hxt Hxm Hxu]. destruct (match_record_spec (include_compatible hist) k wk h args key _ _ Hd Hk Hxm)
      as (o & b' & Hm & Hb & Ho); [intros Hc; apply Hcmp; [done|right; left]|].
    exists o. eexists. unfold on_model. rewrite Hm. split; [done|]. split; [|done]. by split. }
  assert (∀ k, lookup hist (on_targetkey (match_record loads (include_compatible hist) k wk))
    (answers (include_compatible hist) (best_by_targetkey hist) k h args key)) as Ht.
  { intros k x [Hxc Hxt Hxm Hxu]. destruct (match_record_spec (include_compatible hist) k wk h args key _ _ Hd Hk Hxt)
      as (o & b' & Hm & Hb & Ho); [intros Hc; apply Hcmp; [done|right; right; left]|].
    exists o. eexists. unfold on_targetkey. rewrite Hm. split; [done|]. split; [|done]. by split. }
  apply (first_match_spec hist); [|apply same_history_refl].
  constructor; [apply Hu|]. constructor; [apply Hmo|].
  induction (tg_keys t) as [|k keys IH]; [constructor|]. csimpl. constructor; [apply Hu|]. constructor; [apply Ht|exact IH].
Qed.

(** C26: a query asks, in this order, the states given for the model, the records of the
    model, and for every key of the target the states given for it and its records,
    and answers with the first that has the workload, or in a history that includes
    compatible records with the compatible one of least cost; it changes no item. *)
Theorem as_history_query_spec t wk h args key hist :
  decode_workload_key loads wk = Ret (h, args) → wl_key wk = Ret key → comparable_history hist h args key →
  ∃ o hist', history_query_inside loads (Some t) wk hist = (Ret o, hist') ∧ same_history hist hist' ∧
    first_answer (query_answers hist t h args key) o.
Proof. apply query_total. Qed.

Lemma first_answer_mono (Ps : list (option State → Prop)) P o :
  first_answer Ps o → P ∈ Ps → (¬ P None) → ∃ st, o = Some st.
Proof.
  induction 1 as [|Q Ps st HQ|Q Ps o HQ Hf IH]; intros Hin Hn; [by apply elem_of_nil in Hin|by eexists|].
  apply elem_of_cons in Hin as [->|Hin]; [done|]. by apply IH.
Qed.

(** A state given by [update] is what the next query finds first. *)
Theorem as_update_held t wk key hist st :
  wl_key wk = Ret key →
  ∃ hist', as_history_update loads t wk st hist = (Ret tt, hist') ∧
    held (best_user_defined hist') (tg_model t) key = Some (st, f1).
Proof.
  intros Hk. unfold as_history_update.
  assert (∀ ks b, ∃ b', sfor ks (λ k, user_update loads k wk st) b = (Ret tt, b') ∧
    ∀ k, (k ∈ ks ∨ held b k key = Some (st, f1)) → held b' k key = Some (st, f1)) as Hgen.
  { destruct (wl_key_Ret wk key Hk) as (h' & args' & Hd' & Hh & Ha). induction ks as [|k0 ks IH]; intros b.
    { exists b. split; [done|]. intros k [?%elem_of_nil|?]; done. }
    destruct (get_workload_entry_spec k0 wk h' args' key.1 b Hd' Hh) as (b1 & Hg & Hs).
    set (b2 := set_entry b1 k0 key.1 (set_slot key.2 args' st f1 (entry_of b1 k0 key.1))).
    destruct (IH b2) as (b' & Hf & Hb'). exists b'. split.
    { simpl. unfold sbind at 1, user_update, sbind at 1. rewrite Hg. unfold sbind, slift, smod. rewrite Ha. exact Hf. }
    assert (∀ k, k = k0 ∨ held b k key = Some (st, f1) → held b2 k key = Some (st, f1)) as H2.
    { intros k Hkk. unfold held, slot_at, b2. rewrite entry_of_set. case_decide as Hdk.
      - unfold set_slot. by rewrite od_get_set_eq.
      - rewrite Hs. destruct Hkk as [->|Hkk]; [|exact Hkk]. by destruct Hdk. }
    intros k [[->|Hin]%elem_of_cons|Hh2]; apply Hb'; [right; apply H2; by left|by left|right; apply H2; by right]. }
  destruct (Hgen (tg_model t :: tg_keys t) (best_user_defined hist)) as (b' & Hf & Hb').
  eexists. unfold on_user. rewrite Hf. split; [done|]. apply Hb'. left. left.
Qed.

(** ** Sampling *)

(** Every item belongs to arguments with a defined factor. *)
Definition items_ok (h : json) (args : option (list json)) (hk : json) (best : best_t) : Prop :=
  ∀ k s, s ∈ od_vals (entry_of best k hk) → is_ret (calc_workload_dis_factor (h, args) (h, s_args s)).

Definition maps_ok (h : json) (args : option (list json)) (hk : json) (hist : @history State) : Prop :=
  ∀ best, best ∈ history_maps hist → items_ok h args hk best.

(** A workload whose factor to the wanted one is defined, if they have one hash. *)
Definition related_ok (h : json) (args : option (list json)) (hk : json) (wk : string) : Prop :=
  ∀ key h' args', wl_key wk = Ret key → key.1 = hk → decode_workload_key loads wk = Ret (h', args') →
    is_ret (calc_workload_dis_factor (h, args) (h, args')).

Lemma elem_od_set {K V} `{EqDecision K} (d : list (K * V)) k v x :
  x ∈ od_vals (od_set d k v) → x = v ∨ x ∈ od_vals d.
Proof.
  unfold od_vals. induction d as [|[k' v'] d IH]; csimpl; [set_solver|]. case_decide; csimpl; set_solver.
Qed.

Lemma offer_items_ok h args hk new k wk st cost (b b' : best_t) :
  related_ok h args hk wk → items_ok h args hk b →
  offer_record loads new k wk st cost b = (Ret tt, b') → items_ok h args hk b'.
Proof.
  intros Hrel Hb Ho. unfold offer_record in Ho. apply sbind_Ret in Ho as ([[hk0 h0] args0] & b1 & Hg & Ho).
  apply sbind_Ret in Ho as (ak & b2 & Ha & Ho). unfold slift in Ha. injection Ha as Ha <-.
  assert (∃ key, wl_key wk = Ret key ∧ key.1 = hk0 ∧ decode_workload_key loads wk = Ret (h0, args0) ∧
    same_entries b b1) as (key & Hkey & Hk0 & Hd & Hs).
  { pose proof Hg as Hg'. unfold get_workload_entry in Hg'. apply sbind_Ret in Hg' as ([h1 args1] & b2 & Hd & Hg').
    unfold slift in Hd. injection Hd as Hd <-. apply sbind_Ret in Hg' as ([] & b2 & _ & Hg').
    apply sbind_Ret in Hg' as (hk1 & b3 & Hh & Hg'). unfold slift in Hh. injection Hh as Hh <-.
    apply sbind_Ret in Hg' as ([] & b3 & _ & Hg'). unfold sret in Hg'. injection Hg' as -> -> -> _.
    exists (hk0, ak). unfold wl_key. rewrite Hd. simpl. rewrite Hh. simpl. rewrite Ha. do 3 (split; [done|]).
    destruct (get_workload_entry_spec k wk h0 args0 hk0 b Hd Hh) as (b4 & Hg4 & Hs).
    rewrite Hg in Hg4. by injection Hg4 as ->. }
  unfold smod in Ho. injection Ho as <-.
  assert (items_ok h args hk b1) as Hb1 by (intros k' s; rewrite Hs; apply Hb).
  destruct (match od_get (entry_of b1 k hk0) ak with Some s => _ | None => _ end); [|exact Hb1].
  intros k' s. rewrite entry_of_set. case_decide as Hdk; [|apply Hb1]. destruct Hdk as [<- <-].
  intros [->|Hin]%elem_od_set; [|by apply (Hb1 k)]. simpl.
  destruct (od_get (entry_of b1 k hk0) ak) as [s0|] eqn:E; [|by eapply Hrel].
  apply (Hb1 k). apply od_get_elem in E. by apply (list_elem_of_fmap_2 snd) in E.
Qed.

Section Sample.
Context `{Numpy} (sampled : string → nat → list record_t).

Lemma load_record_items_ok h args hk r hist hist' :
  related_ok h args hk (ai_workload_key r.1) → maps_ok h args hk hist →
  load_record loads r hist = (Ret tt, hist') → maps_ok h args hk hist'.
Proof.
  intros Hrel Hm Hl. destruct r as [inp res]. unfold load_record in Hl. case_decide; [by injection Hl as <-|].
  apply sbind_Ret in Hl as ([] & h1 & H1 & H2). cbn [fst] in Hrel.
  assert (∀ ks hist h1, maps_ok h args hk hist →
    sfor ks (λ k, on_targetkey (offer_record loads true k (ai_workload_key inp) (ai_state inp)
      (np_mean (omap id (ar_costs res))))) hist = (Ret tt, h1) → maps_ok h args hk h1) as Hks.
  { clear -Hrel. induction ks as [|k ks IH]; intros hist h1 Hm H1; [by injection H1 as <-|].
    simpl in H1. apply sbind_Ret in H1 as ([] & h2 & H2 & H1). eapply IH; [|exact H1].
    unfold on_targetkey in H2. destruct (offer_record _ _ _ _ _ _ _) as [[[]|] b] eqn:Eo; [|done].
    injection H2 as <-. pose proof (offer_items_ok _ _ _ _ _ _ _ _ _ _ Hrel (Hm _ ltac:(right; right; left)) Eo).
    intros best [->|[->|[->|[]%elem_of_nil]%elem_of_cons]%elem_of_cons]%elem_of_cons; simpl; [apply Hm; left|apply Hm; right; left|done]. }
  pose proof (Hks _ _ _ Hm H1) as Hm1. unfold on_model in H2.
  destruct (offer_record _ _ _ _ _ _ _) as [[[]|] b] eqn:Eo; [|done]. injection H2 as <-.
  pose proof (offer_items_ok _ _ _ _ _ _ _ _ _ _ Hrel (Hm1 _ ltac:(right; left)) Eo).
  intros best [->|[->|[->|[]%elem_of_nil]%elem_of_cons]%elem_of_cons]%elem_of_cons; simpl; [apply Hm1; left|done|apply Hm1; right; right; left].
Qed.

(** A record the query [t], [key] finds. *)
Definition found_by (t : target) (key : json * option (list json)) (r : record_t) : Prop :=
  ar_error_no r.2 = 0%Z ∧ key_of r = Ret key ∧
  ((tg_model t ≠ "unknown" ∧ tg_model (ai_target r.1) = tg_model t) ∨
   ∃ k, k ∈ tg_keys t ∧ k ∈ tg_keys (ai_target r.1)).

Lemma foldl_offered_Some new l v : ∃ u, foldl (offered new) (Some v) l = Some u.
Proof.
  revert v. induction l as [|x l IH]; intros v; simpl; [by eexists|]. destruct (fltb x.2 v.2); apply IH.
Qed.

Lemma foldl_offered_elem l v o : v ∈ l → ∃ u, foldl (offered true) o l = Some u.
Proof.
  revert o. induction l as [|x l IH]; intros o Hin; [by apply elem_of_nil in Hin|].
  simpl. destruct o as [w|]; simpl; [destruct (fltb x.2 w.2); apply foldl_offered_Some|apply foldl_offered_Some].
Qed.

(** What the loop keeps. *)
Definition good_history (h : json) (args : option (list json)) (hk : json) (hist : @history State) : Prop :=
  maps_ok h args hk hist ∧ ∀ key, held (best_by_model hist) "unknown" key = None.

Lemma good_same h args hk hist hist' :
  same_history hist hist' → good_history h args hk hist → good_history h args hk hist'.
Proof.
  intros [_ Ht Hm Hu] [Hok Hun]. split.
  - intros best Hbest k s Hs. repeat (apply elem_of_cons in Hbest as [->|Hbest]); [| | |by apply elem_of_nil in Hbest].
    + rewrite Hu in Hs. by apply (Hok (best_user_defined hist) ltac:(left) k).
    + rewrite Hm in Hs. by apply (Hok (best_by_model hist) ltac:(right; left) k).
    + rewrite Ht in Hs. by apply (Hok (best_by_targetkey hist) ltac:(right; right; left) k).
  - intros key. unfold held, slot_at. rewrite Hm. apply Hun.
Qed.

Lemma load_good h args hk (l : list record_t) : 
  (∀ r, r ∈ l → loadable r ∧ related_ok h args hk (ai_workload_key r.1)) → ∀ hist, good_history h args hk hist →
  ∃ hist', sfor l (load_record loads) hist = (Ret tt, hist') ∧ good_history h args hk hist' ∧
    include_compatible hist' = include_compatible hist ∧
    (∀ k key, held (best_by_targetkey hist') k key = foldl (offered true) (held (best_by_targetkey hist) k key) (for_target k key l)) ∧
    (∀ m key, held (best_by_model hist') m key = foldl (offered true) (held (best_by_model hist) m key) (for_model m key l)).
Proof.
  intros Hl hist [Hok Hun]. destruct (load_records_fold l (λ r Hr, proj1 (Hl r Hr)) hist Hun)
    as (hist' & Hf & _ & Hc & Ht & Hm).
  exists hist'. split; [done|]. split; [|done]. split.
  - clear -Hl Hok Hf. revert hist Hok Hf. induction l as [|r l IH]; intros hist Hok Hf; [by injection Hf as <-|].
    simpl in Hf. apply sbind_Ret in Hf as ([] & h1 & H1 & Hf). apply (IH (λ x Hx, Hl x (list_elem_of_further _ _ _ Hx)) h1); [|done].
    eapply load_record_items_ok; [|exact Hok|exact H1]. apply Hl. left.
  - intros key. rewrite Hm, Hun. unfold for_model. by rewrite filter_none by (intros r Hr ?; tauto).
Qed.

Lemma sample_loop_returns t wk h args key fuel : 
  decode_workload_key loads wk = Ret (h, args) → wl_key wk = Ret key → ∀ i n hist,
  n < fuel →
  (∀ j r, i ≤ j ≤ i + n → r ∈ sampled wk j → loadable r ∧ related_ok h args key.1 (ai_workload_key r.1)) →
  (∃ r, r ∈ sampled wk (i + n) ∧ found_by t key r) → good_history h args key.1 hist →
  ∃ st hist', sample_loop loads sampled fuel i (Some t) wk hist = (Ret st, hist').
Proof.
  intros Hd Hk. induction fuel as [|fuel IH]; intros i n hist Hn Hrounds Hfound Hgood; [lia|].
  destruct (load_good h args key.1 (sampled wk i) (λ r, Hrounds i r ltac:(lia)) hist Hgood)
    as (h1 & Hf & Hgood1 & Hc1 & Ht1 & Hm1).
  destruct (query_total t wk h args key h1 Hd Hk) as (o & h2 & Hq & Hs2 & Ho).
  { intros _ best k Hbest. exact (proj1 Hgood1 best Hbest k). }
  cbn [sample_loop]. unfold load, joint_records. csimpl. rewrite app_nil_r.
  rewrite (sbind_step _ _ _ _ _ Hf), (sbind_step _ _ _ _ _ Hq).
  destruct o as [st|]; [by exists st, h2|]. destruct n as [|n].
  - exfalso. rewrite Nat.add_0_r in Hfound. destruct Hfound as (r & Hr & Hok & Hkr & Hfind).
    assert (∃ P, P ∈ query_answers h1 t h args key ∧ ¬ P None) as (P & HP & Hnone).
    { destruct Hfind as [[Hun Hmod]|(k & Hkt & Hkr')].
      - eexists. split; [right; left|]. intros Hans. inversion Hans as [|Hno _|]; subst.
        destruct (foldl_offered_elem (for_model (tg_model t) key (sampled wk i)) (value_of r)
          (held (best_by_model hist) (tg_model t) key)) as [u Hu].
        { apply list_elem_of_fmap_2, list_elem_of_filter. done. }
        rewrite <-Hm1 in Hu. unfold held in Hu. by rewrite Hno in Hu.
      - eexists. split.
        { unfold query_answers. right. right. apply list_elem_of_concat.
          eexists. split; [|apply (list_elem_of_fmap_2 _ _ k Hkt)]. right. left. }
        intros Hans. inversion Hans as [|Hno _|]; subst.
        destruct (foldl_offered_elem (for_target k key (sampled wk i)) (value_of r)
          (held (best_by_targetkey hist) k key)) as [u Hu].
        { apply list_elem_of_fmap_2, list_elem_of_filter. done. }
        rewrite <-Ht1 in Hu. unfold held in Hu. by rewrite Hno in Hu. }
    destruct (first_answer_mono _ P None Ho HP Hnone) as [st Hst]. done.
  - apply (IH (S i) n); [lia| | |by eapply good_same].
    + intros j r Hj. apply Hrounds. lia.
    + by replace (S i + n) with (i + S n) by lia.
Qed.

(** Sampling ends.  When the search writes in some round a record of the workload
    for a key or the known model of the target, and what it writes can be
    loaded, [ApplyHistoryBestOrSample] answers with a state, in that round at the latest. *)
Theorem as_sample_returns t wk h args key hist n fuel :
  decode_workload_key loads wk = Ret (h, args) → wl_key wk = Ret key → good_history h args key.1 hist →
  (∀ j r, j ≤ n → r ∈ sampled wk j → loadable r ∧ related_ok h args key.1 (ai_workload_key r.1)) →
  (∃ r, r ∈ sampled wk n ∧ found_by t key r) → n < fuel →
  ∃ st hist', sample_query_inside loads sampled fuel (Some t) wk hist = (Ret st, hist').
Proof.
  intros Hd Hk Hgood Hrounds Hfound Hn. unfold sample_query_inside.
  destruct (query_total t wk h args key hist Hd Hk) as (o & h1 & Hq & Hs & _).
  { intros _ best k Hbest. exact (proj1 Hgood best Hbest k). }
  rewrite (sbind_step _ _ _ _ _ Hq). destruct o as [st|]; [by exists st, h1|].
  apply (sample_loop_returns t wk h args key fuel Hd Hk 0 n); [done| |done|by eapply good_same].
  intros j r Hj. apply Hrounds. lia.
Qed.
End Sample.

(** ** The stack of contexts *)

Section Stack.
Context `{Numpy} (sampled : string → nat → list record_t).

(** A [with] block restores the context it found. *)
Lemma as_enter_exit id c (w : @as_world State) :
  as_ctxs w !! id = Some c →
  ∃ w1 w2, as_enter id w = (Ret tt, w1) ∧ as_current w1 = Some id ∧
    as_exit id w1 = (Ret tt, w2) ∧ as_current w2 = as_current w.
Proof.
  intros Hc. unfold as_enter, as_exit, as_get, sbind, smod. rewrite Hc. do 2 eexists. split; [done|].
  split; [done|]. simpl. by rewrite lookup_insert_eq.
Qed.

(** A fallback context answers again what it answered, and logs nothing more. *)
Lemma as_fallback_caches id memory verbose messages t wk complex dag func c (w w1 : @as_world State) o :
  as_ctxs w !! id = Some c →
  fallback_query id memory verbose messages t wk complex dag func w = (Ret o, w1) →
  w1 = w ∨
  o = None ∧ ∃ memory' messages', as_ctxs w1 !! id = Some (mkAsCtx (as_old_ctx c) (KFallback memory' verbose messages')) ∧
    ∀ complex' dag' func' w2, fallback_query id memory' verbose messages' t wk complex' dag' func' w2 = (Ret None, w2).
Proof.
  intros Hc Hq. unfold fallback_query in Hq. destruct (od_get memory (target_str t, wk)) as [st|] eqn:E.
  { injection Hq as <- <-. by left. }
  right. apply sbind_Ret in Hq as ([] & w2 & Hw & Hq). apply sbind_Ret in Hq as ([] & w3 & Hset & Hq).
  injection Hq as <- <-. split; [done|]. unfold as_set_kind, as_get, sbind, smod in Hset.
  assert (as_ctxs w2 = as_ctxs w) as Hcs.
  { destruct (_ && _) in Hw; [|by injection Hw as <-]. unfold smod in Hw. by injection Hw as <-. }
  rewrite Hcs, Hc in Hset. injection Hset as <-. eexists _, _. cbn [as_ctxs]. rewrite lookup_insert_eq.
  split; [done|]. intros. unfold fallback_query. by rewrite od_get_set_eq.
Qed.

(** A context that is entered while it is current becomes its own outer context: a query
    it cannot answer never leaves it. *)
Lemma as_reentered_stuck fuel id hist t wk complex dag func (w : @as_world State) hist' :
  as_ctxs w !! id = Some (mkAsCtx (Some id) (KHistory hist)) →
  history_query_inside loads t wk hist = (Ret None, hist') →
  history_query_inside loads t wk hist' = (Ret None, hist') →
  (as_query loads sampled fuel 0 id t wk complex dag func w).1 = Raise RecursionError.
Proof.
  intros Hc Hq Hq'. revert w hist Hc Hq. induction fuel as [|fuel IH]; intros w hist Hc Hq; [done|].
  cbn [as_query]. unfold as_get, sbind at 1. rewrite Hc. cbn [as_kind_of as_old_ctx].
  unfold sbind at 1, with_history. rewrite Hq. unfold as_set_kind, as_get, sbind at 1 2, smod, slift. rewrite Hc.
  apply (IH _ hist'); [|done]. cbn [as_ctxs as_old_ctx]. by rewrite lookup_insert_eq.
Qed.
End Stack.
End Spec.
