(* ===== verification/TaskScheduler.v ===== *)
(** * The task scheduler of [auto_scheduler]

    Allocation of measurement trials to several search tasks: warm-up,
    round-robin and gradient strategies, similarity groups, early stopping and
    the restoration of a previous run.
    Source: src/python/tvm/auto_scheduler/task_scheduler.py. *)

From S2P Require Import Prelude PyFloat.

(** ** Data *)

(** A search task: the similarity tags of the operators of its DAG, its flop
    count, its workload key and its target. *)
Record task := mkTask {
  tk_op_tags : list (option string);
  tk_flop_ct : flt;
  tk_workload_key : string;
  tk_target : string
}.

Inductive strategy := RoundRobin | Gradient.

(** The constructor arguments that stay fixed. *)
Record options := mkOptions {
  o_tasks : list task;
  o_strategy : strategy;
  o_alpha : flt;
  o_beta : flt;
  o_window : Z
}.

(** The state of [TaskScheduler]; [rounds] counts the search rounds asked for so
    far and [latency_log] is what [LogEstimatedLatency] writes. *)
Record scheduler := mkS {
  task_cts : list Z;
  task_best_cts : list Z;
  task_costs_history : list (list flt);
  best_costs : list flt;
  cur_score : flt;
  ct : Z;
  best_ct : Z;
  best_score : flt;
  num_measures_per_round : Z;
  dead_tasks : list Z;
  task_tags : list (option string);
  tag_to_group_id : list (string * nat);
  group_task_ids : list (list Z);
  flop_cts : list flt;
  early_stopping_all : Z;
  early_stopping_task : Z;
  rounds : nat;
  latency_log : list (option flt * Z)
}.

(** Updates of the per-task measurements. *)
Definition set_meas (cts bcts : list Z) (hist : list (list flt)) (costs : list flt)
    (s : scheduler) : scheduler :=
  mkS cts bcts hist costs (cur_score s) (ct s) (best_ct s) (best_score s)
    (num_measures_per_round s) (dead_tasks s) (task_tags s) (tag_to_group_id s)
    (group_task_ids s) (flop_cts s) (early_stopping_all s) (early_stopping_task s) (rounds s)
    (latency_log s).

(** Updates of the counters and scores. *)
Definition set_prog (score : flt) (c bc : Z) (bs : flt) (dead : list Z) (s : scheduler) : scheduler :=
  mkS (task_cts s) (task_best_cts s) (task_costs_history s) (best_costs s) score c bc bs
    (num_measures_per_round s) dead (task_tags s) (tag_to_group_id s)
    (group_task_ids s) (flop_cts s) (early_stopping_all s) (early_stopping_task s) (rounds s)
    (latency_log s).

Definition set_limits (num ea et : Z) (s : scheduler) : scheduler :=
  mkS (task_cts s) (task_best_cts s) (task_costs_history s) (best_costs s) (cur_score s) 0 0
    (best_score s) num (dead_tasks s) (task_tags s) (tag_to_group_id s)
    (group_task_ids s) (flop_cts s) ea et (rounds s) (latency_log s).

Definition set_groups (tags : list (option string)) (groups : list (list Z)) (s : scheduler) : scheduler :=
  mkS (task_cts s) (task_best_cts s) (task_costs_history s) (best_costs s) (cur_score s) (ct s)
    (best_ct s) (best_score s) (num_measures_per_round s) (dead_tasks s) tags (tag_to_group_id s)
    groups (flop_cts s) (early_stopping_all s) (early_stopping_task s) (rounds s) (latency_log s).

Definition set_round (s : scheduler) : scheduler :=
  mkS (task_cts s) (task_best_cts s) (task_costs_history s) (best_costs s) (cur_score s) (ct s)
    (best_ct s) (best_score s) (num_measures_per_round s) (dead_tasks s) (task_tags s)
    (tag_to_group_id s) (group_task_ids s) (flop_cts s) (early_stopping_all s)
    (early_stopping_task s) (S (rounds s)) (latency_log s).

Definition log_latency (line : option flt * Z) (s : scheduler) : scheduler :=
  mkS (task_cts s) (task_best_cts s) (task_costs_history s) (best_costs s) (cur_score s) (ct s)
    (best_ct s) (best_score s) (num_measures_per_round s) (dead_tasks s) (task_tags s)
    (tag_to_group_id s) (group_task_ids s) (flop_cts s) (early_stopping_all s)
    (early_stopping_task s) (rounds s) (latency_log s ++ [line]).

(** [array_mean]. *)
Definition array_mean (l : list flt) : py flt := fdiv (fsum l) (f_of_Z (zlen l)).

(** [set.add] on the set of dead tasks. *)
Definition dead_add (i : Z) (l : list Z) : list Z := if bool_decide (i ∈ l) then l else l ++ [i].

(** ** Construction *)

Section Scheduler.
(** [int(math.log(x, 1.618))], the search policies (the number of inputs and
    the costs of the results of a round on a task), the objective function, and
    [np.argmin]. *)
Context (flop_log : flt → Z) (search : nat → Z → Z → Z * list (list flt))
  (objective : list flt → flt) (np_argmin : list flt → nat) (o : options).

Definition n_tasks : Z := zlen (o_tasks o).

(** [derive_similarity_tag]. *)
Definition derive_similarity_tag (t : task) : string :=
  let ret := foldl (λ ret tag, match tag with
                               | Some tg => if decide (tg = "") then ret else ret +:+ tg +:+ "_"
                               | None => ret end) "" (tk_op_tags t) in
  if decide (ret = "") then ret else ret +:+ pretty (flop_log (fadd (tk_flop_ct t) f1)).

(** The loop of [__init__] that builds the similarity groups. *)
Fixpoint build_groups (i : Z) (tasks : list task)
    (acc : list (option string) * list (string * nat) * list (list Z)) :
    list (option string) * list (string * nat) * list (list Z) :=
  match tasks with
  | [] => acc
  | t :: tasks' =>
      let '(tags, groups, ids) := acc in
      let tag := derive_similarity_tag t in
      let tags := tags ++ [Some tag] in
      if decide (tag = "") then build_groups (i + 1) tasks' (tags, groups, ids) else
      let '(groups, ids) :=
        if od_mem groups tag then (groups, ids)
        else (od_set groups tag (length groups), ids ++ [[]]) in
      let g := default 0 (od_get groups tag) in
      build_groups (i + 1) tasks' (tags, groups, alter (λ l, l ++ [i]) g ids)
  end.

(** [TaskScheduler.__init__]. *)
Definition TaskScheduler_init : py scheduler :=
  let? _ := pyassert (bool_decide (o_tasks o ≠ [])) in
  let n := length (o_tasks o) in
  let costs := replicate n f_1e10 in
  let '(tags, groups, ids) := build_groups 0 (o_tasks o) ([], [], []) in
  Ret (mkS (replicate n 0%Z) (replicate n 0%Z) (replicate n []) costs (objective costs) 0 0 f0 0 []
        tags groups ids (tk_flop_ct <$> o_tasks o) 0 0 0 []).

(** ** One round on a task *)

(** The loop over the results in [_tune_task]. *)
Definition record_cost (i : Z) (res : list flt) : ST scheduler unit :=
  let! cost := slift (array_mean res) in
  let! s := sget in
  let! best := slift (pynth (best_costs s) i) in
  if fltb cost best then
    let! c := slift (pynth (task_cts s) i) in
    let! bcts := slift (pyset (task_best_cts s) i c) in
    let! costs := slift (pyset (best_costs s) i cost) in
    sput (set_meas (task_cts s) bcts (task_costs_history s) costs s)
  else sret tt.

(** [LogEstimatedLatency.post_tune]. *)
Definition post_tune : ST scheduler unit :=
  smod (λ s, log_latency
    (if forallb (λ c, fltb c f_1e9) (best_costs s) then Some (cur_score s) else None, ct s) s).

(** [_tune_task]. *)
Definition tune_task (i : Z) : ST scheduler unit :=
  let! s := sget in
  let '(n_inputs, results) := search (rounds s) i (num_measures_per_round s) in
  let! _ := smod set_round in
  let! c := slift (pynth (task_cts s) i) in
  let! cts := slift (pyset (task_cts s) i (c + 1)%Z) in
  let! _ := smod (λ s, set_meas cts (task_best_cts s) (task_costs_history s) (best_costs s) s) in
  let! _ := sfor results (record_cost i) in
  let! s := sget in
  let! c := slift (pynth (task_cts s) i) in
  let! bc := slift (pynth (task_best_cts s) i) in
  let no_change_trials := ((c - bc) * num_measures_per_round s)%Z in
  let! _ := if (n_inputs =? 0)%Z || (early_stopping_task s <? no_change_trials)%Z
            then smod (λ s, set_prog (cur_score s) (ct s) (best_ct s) (best_score s)
                              (dead_add i (dead_tasks s)) s)
            else sret tt in
  let! best := slift (pynth (best_costs s) i) in
  let! h := slift (pynth (task_costs_history s) i) in
  let! hist := slift (pyset (task_costs_history s) i (h ++ [best])) in
  let! _ := smod (λ s, set_meas (task_cts s) (task_best_cts s) hist (best_costs s) s) in
  let! _ := smod (λ s, set_prog (objective (best_costs s)) (ct s + n_inputs) (best_ct s)
                         (best_score s) (dead_tasks s) s) in
  post_tune.

(** ** Choosing a task *)

(** The inner loop of the round-robin strategy; one of any [n] consecutive
    tasks is alive, so [n] steps are enough. *)
Fixpoint skip_dead (fuel : nat) (dead : list Z) (i : Z) : py Z :=
  if bool_decide (i ∈ dead) then
    match fuel with
    | O => Raise RecursionError
    | S fuel' => skip_dead fuel' dead ((i + 1) `mod` n_tasks)
    end
  else Ret i.

(** [max] and [min] of a list; empty arguments are a [ValueError]. *)
Definition fmaximum (l : list flt) : py flt :=
  match l with [] => Raise ValueError | x :: l' => Ret (foldl fmax x l') end.
Definition fminimum (l : list flt) : py flt :=
  match l with [] => Raise ValueError | x :: l' => Ret (foldl fmin x l') end.

(** The flops of the tasks of a group. *)
Definition group_flops (s : scheduler) (ids : list Z) : py (list flt) :=
  pymap (λ j, let? f := pynth (flop_cts s) j in
              let? c := pynth (best_costs s) j in Ret (fdiv_raw f c)) ids.

(** The group of a task, if it still has one. *)
Definition group_of (s : scheduler) (i : Z) : py (option nat) :=
  let? tag := pynth (task_tags s) i in
  Ret (match tag with Some t => od_get (tag_to_group_id s) t | None => None end).

(** The gradient of a live task. *)
Definition gradient_of (s : scheduler) (i : Z) : py flt :=
  let? best := pynth (best_costs s) i in
  let? new_costs := pyset (best_costs s) i (fsub best f_1e_4) in
  let chain_grad := fdiv_raw (fsub (objective (best_costs s)) (objective new_costs)) f_1e_4 in
  let? c := pynth (task_cts s) i in
  let? h := pynth (task_costs_history s) i in
  let? backward_grad :=
    if bool_decide (c - 1 < zlen h ∧ 0 ≤ c - 1 - o_window o)%Z then
      let? a := pynth h (c - 1) in
      let? b := pynth h (c - 1 - o_window o) in
      Ret (fdiv_raw (fsub a b) (f_of_Z (o_window o)))
    else Ret f0 in
  let g_next_1 := fsub best (fdiv_raw best (f_of_Z c)) in
  let? g := group_of s i in
  let? g_next_2 :=
    match g with
    | Some gid =>
        match group_task_ids s !! gid with
        | None => Raise IndexError
        | Some ids =>
            if (1 <? zlen ids)%Z then
              let? fl := group_flops s ids in
              let? best_flops := fmaximum fl in
              let? f := pynth (flop_cts s) i in
              Ret (fdiv_raw (fmul (o_beta o) f) best_flops)
            else Ret (fmul (o_beta o) f_1e30)
        end
    | None => Ret (fmul (o_beta o) f_1e30)
    end in
  let g_next := fmin g_next_1 g_next_2 in
  let forward_grad := fsub g_next best in
  let grad := fmul chain_grad (fadd (fmul (o_alpha o) backward_grad)
                                (fmul (fsub f1 (o_alpha o)) forward_grad)) in
  let? _ := pyassert (fleb grad f0) in
  Ret grad.

(** The gradients of all tasks; a dead one has gradient 0. *)
Definition gradients (s : scheduler) : py (list flt) :=
  pymap (λ i, if bool_decide (i ∈ dead_tasks s) then Ret f0 else gradient_of s i) (range 0 n_tasks).

(** The choice of the next task; [draw] feeds [np.random.choice]. *)
Definition choose_task (s : scheduler) (prev draw : Z) : py Z :=
  match o_strategy o with
  | RoundRobin => skip_dead (Z.to_nat n_tasks) (dead_tasks s) ((prev + 1) `mod` n_tasks)
  | Gradient =>
      let? gs := gradients s in
      let? hi := fmaximum gs in
      let? lo := fminimum gs in
      Ret (if feqb hi lo then (draw `mod` zlen gs)%Z else Z.of_nat (np_argmin gs))
  end.

(** [_adjust_similarity_group]. *)
Definition adjust_similarity_group (i : Z) : ST scheduler unit :=
  let! s := sget in
  let! g := slift (group_of s i) in
  match g with
  | None => sret tt
  | Some gid =>
      let! ids := slift (match group_task_ids s !! gid with Some l => Ret l | None => Raise IndexError end) in
      if (zlen ids <=? 1)%Z then sret tt else
      let! fl := slift (group_flops s ids) in
      let! best_group_flops := slift (fmaximum fl) in
      let! f := slift (pynth (flop_cts s) i) in
      let! cost := slift (pynth (best_costs s) i) in
      let cur_flops := fdiv_raw f cost in
      if fltb cur_flops (fdiv_raw best_group_flops (o_beta o)) then
        let! c := slift (pynth (task_cts s) i) in
        let! others := slift (pymap (pynth (task_cts s)) (filter (λ j, j ≠ i) ids)) in
        let! m := slift (reduce Z.max others) in
        if (5 + m <? c)%Z then
          let! tags := slift (pyset (task_tags s) i None) in
          if bool_decide (i ∈ ids) then
            sput (set_groups tags (<[gid := (fix rm l := match l with
                    | [] => []
                    | j :: l' => if decide (i = j) then l' else j :: rm l' end) ids]> (group_task_ids s)) s)
          else let! _ := sput (set_groups tags (group_task_ids s) s) in sraise ValueError
        else sret tt
      else sret tt
  end.

(** ** The tuning loop *)

(** One iteration of the main loop; the result is the task chosen and whether
    the loop goes on. *)
Definition tune_iter (prev draw : Z) : ST scheduler (Z * bool) :=
  let! s := sget in
  let! i := slift (choose_task s prev draw) in
  let! _ := tune_task i in
  let! _ := adjust_similarity_group i in
  let! s := sget in
  if fltb (cur_score s) (best_score s) then
    let! _ := sput (set_prog (cur_score s) (ct s) (ct s) (cur_score s) (dead_tasks s) s) in
    sret (i, true)
  else
    sret (i, negb ((early_stopping_all s <=? ct s - best_ct s)%Z &&
                   forallb (λ c, fltb c f_1e9) (best_costs s))).

(** The main loop, over the draws for [np.random.choice]. *)
Fixpoint tune_loop (fuel : nat) (trials : Z) (draws : nat → Z) (prev : Z) : ST scheduler unit :=
  let! s := sget in
  if bool_decide (ct s < trials ∧ zlen (dead_tasks s) < n_tasks)%Z then
    match fuel with
    | O => sraise RecursionError
    | S fuel' =>
        let! (i, go) := tune_iter prev (draws fuel') in
        if go then tune_loop fuel' trials draws i else sret tt
    end
  else sret tt.

(** The warm-up round. *)
Definition warm_up (i : Z) : ST scheduler unit :=
  let! s := sget in
  let! c := slift (pynth (task_cts s) i) in
  if (c =? 0)%Z then tune_task i else sret tt.

(** ** Restoring a previous run *)

(** A log record: target, workload key, error number and costs. *)
Record log_record := mkLog {
  lr_target : string;
  lr_workload_key : string;
  lr_error_no : Z;
  lr_costs : list flt
}.

(** [{t.workload_key: i for i, t in enumerate(self.tasks)}]: the last task with
    a key wins. *)
Definition workload_key_to_task_id : list (string * Z) :=
  foldl (λ d '(i, t), od_set d (tk_workload_key t) i) [] (zip (range 0 n_tasks) (o_tasks o)).

Definition restore_record (str_target : string) (r : log_record) : ST scheduler unit :=
  if decide (lr_target r = str_target) then
    match od_get workload_key_to_task_id (lr_workload_key r) with
    | None => sret tt
    | Some i =>
        let! s := sget in
        let! c := slift (pynth (task_cts s) i) in
        let! cts := slift (pyset (task_cts s) i (c + 1)%Z) in
        let! _ := sput (set_meas cts (task_best_cts s) (task_costs_history s) (best_costs s) s) in
        if (lr_error_no r =? 0)%Z then record_cost i (lr_costs r) else sret tt
    end
  else sret tt.

(** [int(x / num + 0.5)]. *)
Definition round_count (x num : Z) : py Z :=
  let? q := fdiv (f_of_Z x) (f_of_Z num) in f_trunc (fadd q f_half).

Definition restore_task (num i : Z) : ST scheduler unit :=
  let! s := sget in
  let! c := slift (pynth (task_cts s) i) in
  let! bc := slift (pynth (task_best_cts s) i) in
  let! _ := if (early_stopping_task s <? c - bc)%Z
            then smod (λ s, set_prog (cur_score s) (ct s) (best_ct s) (best_score s)
                              (dead_add i (dead_tasks s)) s)
            else sret tt in
  let! c' := slift (round_count c num) in
  let! bc' := slift (round_count bc num) in
  let! best := slift (pynth (best_costs s) i) in
  let! h := slift (pynth (task_costs_history s) i) in
  let! cts := slift (pyset (task_cts s) i c') in
  let! bcts := slift (pyset (task_best_cts s) i bc') in
  let! hist := slift (pyset (task_costs_history s) i (h ++ [best])) in
  smod (λ s, set_meas cts bcts hist (best_costs s) s).

(** [_restore_status] on the records of the log file. *)
Definition restore_status (records : list log_record) (num : Z) : ST scheduler unit :=
  match o_tasks o with
  | [] => sraise IndexError
  | t :: _ =>
      let! _ := sfor records (restore_record (tk_target t)) in
      let! _ := sfor (range 0 n_tasks) (restore_task num) in
      smod (λ s, set_prog (objective (best_costs s)) (ct s) (best_ct s) (best_score s)
                   (dead_tasks s) s)
  end.

(** The options of [tune] that the scheduler reads. *)
Record tune_option := mkTuneOption {
  num_measure_trials : Z;
  num_measures : Z;
  early_stopping : Z;
  per_task_early_stopping : option Z
}.

(** [TaskScheduler.tune]: a round costs a trial or kills its task under the
    round-robin strategy, which bounds the main loop. *)
Definition tune (fuel : nat) (opt : tune_option) (log_file : option (list log_record))
    (draws : nat → Z) : ST scheduler unit :=
  let ea := if (early_stopping opt <? 0)%Z then (10 ^ 20)%Z else early_stopping opt in
  let et := default (10 ^ 20)%Z (per_task_early_stopping opt) in
  let! q := slift (pydiv (num_measure_trials opt) n_tasks) in
  let num := Z.min (num_measures opt) q in
  let! _ := smod (set_limits num ea et) in
  if (num <=? 0)%Z then sraise ValueError else
  let! _ := match log_file with Some records => restore_status records num | None => sret tt end in
  let! _ := sfor (range 0 n_tasks) warm_up in
  let! _ := smod (λ s, set_prog (cur_score s) (ct s) (ct s) (cur_score s) (dead_tasks s) s) in
  tune_loop fuel (num_measure_trials opt) draws (-1).
End Scheduler.

(** The default objective functions: a (weighted) sum of the latencies. *)
Definition make_objective (weights : option (list flt)) (costs : list flt) : flt :=
  match weights with
  | Some ws => fsum (zip_with fmul costs ws)
  | None => fsum costs
  end.
