(* ===== verification/TaskSchedulerSpec.v ===== *)
(** * Correctness of the task scheduler

    A round updates exactly the chosen task and keeps the best cost; under the
    round-robin strategy the tuning loop only picks live tasks and terminates. *)

From S2P Require Import Prelude PyFloat TaskScheduler.

(** ** Similarity groups at construction *)

Section Groups.
Context (flop_log : flt → Z).

(** Building the similarity groups keeps them consistent. *)
Record groups_ok (k : nat) (tags : list (option string)) (groups : list (string * nat))
    (ids : list (list Z)) : Prop := {
  go_tags : length tags = k;
  go_ids : Forall (λ l, NoDup l ∧ ∀ i, i ∈ l → (0 ≤ i < Z.of_nat k)%Z) ids;
  go_len : length groups = length ids;
  go_bound : ∀ t g, od_get groups t = Some g → g < length ids;
  go_empty : od_get groups "" = None;
  go_known : ∀ i t, tags !! i = Some (Some t) → t ≠ "" → is_Some (od_get groups t);
  go_in : ∀ i t g, tags !! i = Some (Some t) → od_get groups t = Some g →
    ∃ l, ids !! g = Some l ∧ Z.of_nat i ∈ l
}.

Lemma groups_add k tags groups ids tag :
  groups_ok k tags groups ids → tag ≠ "" → od_get groups tag = None →
  groups_ok k tags (od_set groups tag (length groups)) (ids ++ [[]]).
Proof.
  intros [Ht Hi Hl Hb He Hk Hin] Hne Hnew. split.
  - done.
  - apply Forall_app. split; [done|]. repeat constructor; set_solver.
  - rewrite length_app. simpl. rewrite <-Hl. pose proof (od_keys_set groups tag (length groups)) as Hks.
    unfold od_mem in Hks. rewrite Hnew in Hks. apply (f_equal length) in Hks.
    unfold od_keys in Hks. rewrite length_app, !length_fmap in Hks. simpl in Hks. lia.
  - intros t g. rewrite od_get_set, length_app. case_decide; [intros [= <-]; simpl; lia|].
    intros Hg. apply Hb in Hg. lia.
  - by rewrite od_get_set_ne.
  - intros i t Hti Hte. rewrite od_get_set. case_decide; eauto.
  - intros i t g Hti. rewrite od_get_set. case_decide.
    + subst. destruct (Hk i t Hti Hne). congruence.
    + intros Hg. destruct (Hin i t g Hti Hg) as (l & Hlk & ?). exists l.
      split; [by apply lookup_app_l_Some|done].
Qed.

Lemma groups_join k tags groups ids tag g :
  groups_ok k tags groups ids → od_get groups tag = Some g →
  groups_ok (S k) (tags ++ [Some tag]) groups (alter (λ l, l ++ [Z.of_nat k]) g ids).
Proof.
  intros [Ht Hi Hl Hb He Hk Hin] Hg. split.
  - rewrite length_app. simpl. lia.
  - apply Forall_lookup. intros j l Hj.
    assert (∀ l0, ids !! j = Some l0 → NoDup l0 ∧ ∀ i, i ∈ l0 → (0 ≤ i < Z.of_nat k)%Z) as Hj0.
    { intros l0. rewrite Forall_lookup in Hi. by apply Hi. }
    destruct (decide (j = g)) as [->|Hne].
    + rewrite list_lookup_alter_eq in Hj. apply fmap_Some in Hj as (l0 & Hl0 & ->).
      destruct (Hj0 l0 Hl0) as [Hnd Hr]. split.
      * apply NoDup_app. split; [done|]. split; [|apply NoDup_singleton].
        intros x Hx Hx'. apply list_elem_of_singleton in Hx' as ->. specialize (Hr _ Hx). lia.
      * intros x Hx. apply elem_of_app in Hx as [Hx|Hx]; [specialize (Hr _ Hx); lia|].
        apply list_elem_of_singleton in Hx as ->. lia.
    + rewrite list_lookup_alter_ne in Hj by done. destruct (Hj0 l Hj) as [? Hr].
      split; [done|]. intros x Hx. specialize (Hr x Hx). lia.
  - by rewrite length_alter.
  - intros t g'. rewrite length_alter. apply Hb.
  - done.
  - intros i t Hti Hte. apply lookup_snoc_Some in Hti as [[_ Hti]|[_ [= <-]]]; eauto.
  - intros i t g' Hti Hg'.
    assert (∃ l, ids !! g' = Some l) as [l Hlk] by (apply lookup_lt_is_Some_2, (Hb _ _ Hg')).
    apply lookup_snoc_Some in Hti as [[_ Hti]|[-> [= <-]]].
    + destruct (Hin i t g' Hti Hg') as (l' & Hl' & ?). destruct (decide (g' = g)) as [->|].
      * exists (l' ++ [Z.of_nat k]). rewrite list_lookup_alter_eq, Hl'. split; [done|set_solver].
      * exists l'. by rewrite list_lookup_alter_ne.
    + assert (g' = g) as -> by congruence. exists (l ++ [Z.of_nat k]).
      rewrite list_lookup_alter_eq, Hlk. split; [done|]. rewrite Ht. set_solver.
Qed.

Lemma build_groups_ok tasks : ∀ k tags groups ids,
  groups_ok k tags groups ids →
  ∃ tags' groups' ids', build_groups flop_log (Z.of_nat k) tasks (tags, groups, ids) = (tags', groups', ids') ∧
    groups_ok (k + length tasks) tags' groups' ids'.
Proof.
  induction tasks as [|t tasks IH]; intros k tags groups ids Hok.
  { eexists _, _, _. split; [done|]. by rewrite Nat.add_0_r. }
  cbn [build_groups length]. rewrite <-Nat.add_succ_comm.
  replace (Z.of_nat k + 1)%Z with (Z.of_nat (S k)) by lia.
  set (tag := derive_similarity_tag flop_log t). case_decide as Htag.
  - apply IH. rewrite Htag. destruct Hok as [Ht Hi Hl Hb He Hk Hin]. split; try done.
    + rewrite length_app. simpl. lia.
    + eapply Forall_impl; [exact Hi|]. intros l [? Hr]. split; [done|].
      intros x Hx. specialize (Hr x Hx). lia.
    + intros i t' Hti Hte. apply lookup_snoc_Some in Hti as [[_ Hti]|[_ [= <-]]]; eauto. done.
    + intros i t' g Hti Hg. apply lookup_snoc_Some in Hti as [[_ Hti]|[_ [= <-]]]; [eauto|congruence].
  - unfold od_mem. destruct (od_get groups tag) as [g|] eqn:E.
    + simpl. rewrite E. simpl. apply IH. by apply groups_join.
    + rewrite od_get_set_eq. simpl. apply IH. apply groups_join; [by apply groups_add|].
      apply od_get_set_eq.
Qed.

End Groups.

Section Spec.
Context (flop_log : flt → Z) (search : nat → Z → Z → Z * list (list flt))
  (objective : list flt → flt) (np_argmin : list flt → nat) (o : options).

Abbreviation n := (length (o_tasks o)).
Abbreviation task_ix i := (0 ≤ i < Z.of_nat n)%Z.

(** The invariant: one entry per task everywhere, dead tasks and group members
    are tasks, and a task whose tag names a group is in that group. *)
Record wf (s : scheduler) : Prop := {
  wf_cts : length (task_cts s) = n;
  wf_bcts : length (task_best_cts s) = n;
  wf_hist : length (task_costs_history s) = n;
  wf_costs : length (best_costs s) = n;
  wf_tags : length (task_tags s) = n;
  wf_flops : length (flop_cts s) = n;
  wf_dead : NoDup (dead_tasks s) ∧ ∀ i, i ∈ dead_tasks s → task_ix i;
  wf_ids : Forall (λ ids, NoDup ids ∧ ∀ i, i ∈ ids → task_ix i) (group_task_ids s);
  wf_group : ∀ i t g, task_tags s !! i = Some (Some t) → od_get (tag_to_group_id s) t = Some g →
    ∃ ids, group_task_ids s !! g = Some ids ∧ Z.of_nat i ∈ ids
}.

Lemma init_wf : o_tasks o ≠ [] →
  ∃ s, TaskScheduler_init flop_log objective o = Ret s ∧ wf s ∧
    (∀ j c, task_cts s !! j = Some c → c = 0%Z) ∧ dead_tasks s = [].
Proof.
  intros Hne. unfold TaskScheduler_init. unfold pyassert. rewrite bool_decide_true by done. cbn [pbind].
  destruct (build_groups_ok flop_log (o_tasks o) 0 [] [] []) as (tags & groups & ids & Hb & [? Hi ? ? ? ? Hin]).
  { by split. }
  change (Z.of_nat 0) with 0%Z in Hb. rewrite Hb. eexists. split; [done|]. split; [|split; [|done]].
  - split; simpl; rewrite ?length_replicate, ?length_fmap; try done. split; [constructor|set_solver].
  - simpl. intros j c Hj. by apply lookup_replicate in Hj as [-> _].
Qed.

(** A round reports a number of inputs and results with at least one cost. *)
Hypothesis search_inputs : ∀ r i n, (0 ≤ (search r i n).1)%Z.
Hypothesis search_costs : ∀ r i n, Forall (λ res, is_ret (array_mean res)) (search r i n).2.

(** The mean of the costs of a result. *)
Definition mean (res : list flt) : flt := match array_mean res with Ret x => x | Raise _ => S754_nan end.

(** The best cost of a task after some results. *)
Definition best_after (b : flt) (results : list (list flt)) : flt := foldl fmin b (mean <$> results).

Lemma ix_lookup {A} (l : list A) i :
  length l = n → task_ix i → ∃ x, pynth l i = Ret x ∧ l !! Z.to_nat i = Some x.
Proof. intros Hl Hi. apply pynth_in_range. unfold zlen. lia. Qed.

Lemma ix_set {A} (l : list A) i x :
  length l = n → task_ix i → pyset l i x = Ret (<[Z.to_nat i := x]> l).
Proof. intros Hl Hi. apply pyset_in_range. unfold zlen. lia. Qed.

(** The parts of the state the results of a round do not touch. *)
Definition same_frame (s s' : scheduler) : Prop :=
  s' = set_meas (task_cts s) (task_best_cts s') (task_costs_history s) (best_costs s') s.

Lemma set_meas_same s : set_meas (task_cts s) (task_best_cts s) (task_costs_history s) (best_costs s) s = s.
Proof. by destruct s. Qed.

Lemma record_cost_returns i res s b :
  wf s → task_ix i → is_ret (array_mean res) → best_costs s !! Z.to_nat i = Some b →
  ∃ s', record_cost i res s = (Ret tt, s') ∧ same_frame s s' ∧ wf s' ∧
    best_costs s' = <[Z.to_nat i := fmin b (mean res)]> (best_costs s).
Proof.
  intros Hwf Hi [cost Hcost] Hb. unfold record_cost, sbind, slift, sget. rewrite Hcost.
  destruct (ix_lookup (best_costs s) i (wf_costs s Hwf) Hi) as (b' & -> & Hb').
  assert (b' = b) as -> by congruence.
  assert (mean res = cost) as Hm by (unfold mean; by rewrite Hcost). rewrite Hm. unfold fmin.
  destruct (fltb cost b) eqn:E.
  - destruct (ix_lookup (task_cts s) i (wf_cts s Hwf) Hi) as (c & -> & _).
    rewrite (ix_set (task_best_cts s) i c (wf_bcts s Hwf) Hi), (ix_set (best_costs s) i cost (wf_costs s Hwf) Hi).
    eexists. split; [done|]. split; [done|]. split; [|done].
    destruct Hwf. split; simpl; rewrite ?length_insert; done.
  - exists s. split; [done|]. split; [unfold same_frame; by rewrite set_meas_same|]. split; [done|].
    by rewrite list_insert_id.
Qed.

Lemma record_costs_returns i results : ∀ s b,
  wf s → task_ix i → Forall (λ res, is_ret (array_mean res)) results →
  best_costs s !! Z.to_nat i = Some b →
  ∃ s', sfor results (record_cost i) s = (Ret tt, s') ∧ same_frame s s' ∧ wf s' ∧
    best_costs s' = <[Z.to_nat i := best_after b results]> (best_costs s).
Proof.
  induction results as [|res results IH]; intros s b Hwf Hi Hres Hb; cbn [sfor].
  { exists s. split; [done|]. split; [unfold same_frame; by rewrite set_meas_same|]. split; [done|].
    by rewrite list_insert_id. }
  apply Forall_cons in Hres as [Hr Hres].
  destruct (record_cost_returns i res s b Hwf Hi Hr Hb) as (s1 & H1 & Hf1 & Hwf1 & Hb1).
  pose proof (wf_costs s Hwf) as Hlen.
  destruct (IH s1 (fmin b (mean res)) Hwf1 Hi Hres) as (s2 & H2 & Hf2 & Hwf2 & Hb2).
  { rewrite Hb1. apply list_lookup_insert_eq. lia. }
  exists s2. unfold sbind. rewrite H1. split; [done|]. split; [|split; [done|]].
  - unfold same_frame in *. rewrite Hf2. rewrite Hf1. by destruct s.
  - rewrite Hb2, Hb1, list_insert_insert_eq. done.
Qed.

(** What a round on task [i] does. *)
Record round_result (i : Z) (s s' : scheduler) : Prop := {
  rr_wf : wf s';
  rr_costs : ∃ b, best_costs s !! Z.to_nat i = Some b ∧
    best_costs s' = <[Z.to_nat i :=
      best_after b (search (rounds s) i (num_measures_per_round s)).2]> (best_costs s);
  rr_cts : ∃ c, task_cts s !! Z.to_nat i = Some c ∧ task_cts s' = <[Z.to_nat i := (c + 1)%Z]> (task_cts s);
  rr_ct : ct s' = (ct s + (search (rounds s) i (num_measures_per_round s)).1)%Z;
  rr_score : cur_score s' = objective (best_costs s');
  rr_dead : ∀ j, j ∈ dead_tasks s → j ∈ dead_tasks s';
  rr_dead_new : ∀ j, j ∈ dead_tasks s' → j ∈ dead_tasks s ∨ j = i;
  rr_empty : (search (rounds s) i (num_measures_per_round s)).1 = 0%Z → i ∈ dead_tasks s';
  rr_groups : group_task_ids s' = group_task_ids s ∧ task_tags s' = task_tags s
}.

Lemma elem_of_dead_add i l j : j ∈ dead_add i l ↔ j ∈ l ∨ j = i.
Proof. unfold dead_add. case_bool_decide; set_solver. Qed.

Lemma NoDup_dead_add i l : NoDup l → NoDup (dead_add i l).
Proof.
  intros Hl. unfold dead_add. case_bool_decide; [done|]. apply NoDup_app.
  split; [done|]. split; [set_solver|apply NoDup_singleton].
Qed.

Lemma wf_kill i s : wf s → task_ix i →
  wf (set_prog (cur_score s) (ct s) (best_ct s) (best_score s) (dead_add i (dead_tasks s)) s).
Proof.
  intros [? ? ? ? ? ? [Hnd Hd] ? ?] Hi. split; simpl; try done. split; [by apply NoDup_dead_add|].
  intros j Hj. apply elem_of_dead_add in Hj as [?| ->]; auto.
Qed.

Lemma tune_task_returns i s :
  wf s → task_ix i → ∃ s', tune_task search objective i s = (Ret tt, s') ∧ round_result i s s'.
Proof.
  intros Hwf Hi. unfold tune_task, sbind at 1, sget at 1.
  pose proof (search_inputs (rounds s) i (num_measures_per_round s)) as Hni.
  pose proof (search_costs (rounds s) i (num_measures_per_round s)) as Hres.
  destruct (search (rounds s) i (num_measures_per_round s)) as [n_inputs results] eqn:Es. simpl in *.
  unfold sbind at 1, smod at 1.
  destruct (ix_lookup (task_cts s) i (wf_cts s Hwf) Hi) as (c & Hc & Hcl).
  unfold sbind at 1, slift at 1. rewrite Hc. unfold sbind at 1, slift at 1.
  rewrite (ix_set (task_cts s) i (c + 1)%Z (wf_cts s Hwf) Hi). unfold sbind at 1, smod at 1.
  set (s1 := set_meas _ _ _ _ _).
  assert (wf s1) as Hwf1 by (destruct Hwf; split; simpl; rewrite ?length_insert; done).
  destruct (ix_lookup (best_costs s) i (wf_costs s Hwf) Hi) as (b & _ & Hb).
  destruct (record_costs_returns i results s1 b Hwf1 Hi Hres Hb) as (s2 & H2 & Hf2 & Hwf2 & Hb2).
  unfold sbind at 1. rewrite H2. unfold sbind at 1, sget at 1.
  destruct (ix_lookup (task_cts s2) i (wf_cts s2 Hwf2) Hi) as (c2 & Hc2 & _).
  destruct (ix_lookup (task_best_cts s2) i (wf_bcts s2 Hwf2) Hi) as (bc2 & Hbc2 & _).
  destruct (ix_lookup (best_costs s2) i (wf_costs s2 Hwf2) Hi) as (b2 & Hb2' & _).
  destruct (ix_lookup (task_costs_history s2) i (wf_hist s2 Hwf2) Hi) as (h2 & Hh2 & _).
  unfold sbind at 1, slift at 1. rewrite Hc2. unfold sbind at 1, slift at 1. rewrite Hbc2.
  set (kill := (n_inputs =? 0)%Z || _).
  set (s3 := if kill then set_prog (cur_score s2) (ct s2) (best_ct s2) (best_score s2)
                            (dead_add i (dead_tasks s2)) s2 else s2).
  assert (wf s3) as Hwf3 by (unfold s3; destruct kill; [by apply wf_kill|done]).
  assert ((if kill then smod (λ s, set_prog (cur_score s) (ct s) (best_ct s) (best_score s)
     (dead_add i (dead_tasks s)) s) else sret tt) s2 = (Ret tt, s3)) as Hk by (unfold s3; by destruct kill).
  unfold sbind at 1. rewrite Hk. unfold sbind, slift, smod. rewrite Hb2', Hh2.
  rewrite (ix_set _ i (h2 ++ [b2]) (wf_hist s2 Hwf2) Hi).
  eexists. split; [done|].
  assert (dead_tasks s2 = dead_tasks s ∧ ct s2 = ct s ∧ task_cts s2 = <[Z.to_nat i:=(c+1)%Z]> (task_cts s) ∧
    group_task_ids s2 = group_task_ids s ∧ task_tags s2 = task_tags s) as (Ed & Ec & Et & Eg & Etg)
    by (rewrite Hf2; done).
  split; simpl.
  - destruct Hwf3, Hwf2. split; simpl; rewrite ?length_insert; done.
  - exists b. split; [done|]. rewrite Es. simpl. unfold s3. by destruct kill.
  - exists c. split; [done|]. unfold s3. by destruct kill.
  - rewrite Es. simpl. unfold s3. destruct kill; simpl; by rewrite Ec.
  - done.
  - intros j Hj. unfold s3. destruct kill; simpl; rewrite ?elem_of_dead_add, Ed; auto.
  - intros j. unfold s3. destruct kill; simpl; rewrite ?elem_of_dead_add, Ed; auto.
  - rewrite Es. simpl. intros ->. unfold s3, kill. simpl. rewrite elem_of_dead_add. auto.
  - unfold s3. by destruct kill.
Qed.

(** C27: a round on a task charges its measurements, counts the round, and
    lowers the best cost of that task to the least mean cost seen, leaving the
    other tasks alone; a task without inputs is dead afterwards, no dead task
    revives, and the score is that of the new costs. *)
Theorem tune_task_spec i s :
  wf s → task_ix i → ∃ s', tune_task search objective i s = (Ret tt, s') ∧ round_result i s s'.
Proof. apply tune_task_returns. Qed.

(** ** Similarity groups *)

Lemma group_flops_returns s ids :
  wf s → (∀ i, i ∈ ids → task_ix i) → ∃ fl, group_flops s ids = Ret fl ∧ length fl = length ids.
Proof.
  intros Hwf Hids. induction ids as [|j ids IH].
  { by exists []. }
  destruct IH as (fl & Hfl & Hlen); [intros k Hk; apply Hids; by right|].
  assert (task_ix j) as Hj by (apply Hids; left).
  destruct (ix_lookup (flop_cts s) j (wf_flops s Hwf) Hj) as (f & Hf & _).
  destruct (ix_lookup (best_costs s) j (wf_costs s Hwf) Hj) as (c & Hc & _).
  unfold group_flops in *. cbn [pymap]. rewrite Hf. cbn [pbind]. rewrite Hc. cbn [pbind].
  rewrite Hfl. eexists. split; [done|]. simpl. by rewrite Hlen.
Qed.

Lemma fmaximum_returns l : l ≠ [] → ∃ x, fmaximum l = Ret x.
Proof. destruct l as [|x l]; [done|]. simpl. eauto. Qed.

(** Removing a task from its group. *)
Definition rm (i : Z) : list Z → list Z :=
  fix rm l := match l with [] => [] | j :: l' => if decide (i = j) then l' else j :: rm l' end.

Lemma elem_of_rm i l j : NoDup l → j ∈ rm i l ↔ j ∈ l ∧ j ≠ i.
Proof.
  induction 1 as [|x l Hx Hnd IH]; simpl; [set_solver|].
  case_decide; set_solver.
Qed.

Lemma NoDup_rm i l : NoDup l → NoDup (rm i l).
Proof.
  induction 1 as [|x l Hx Hnd IH]; simpl; [constructor|]. case_decide; [done|].
  constructor; [|done]. rewrite elem_of_rm by done. set_solver.
Qed.

(** Only tags and groups change. *)
Definition regrouped (s s' : scheduler) : Prop := s' = set_groups (task_tags s') (group_task_ids s') s.

Lemma regrouped_refl s : regrouped s s.
Proof. unfold regrouped. by destruct s. Qed.

Lemma adjust_returns i s :
  wf s → task_ix i →
  ∃ s', adjust_similarity_group o i s = (Ret tt, s') ∧ wf s' ∧ regrouped s s'.
Proof.
  intros Hwf Hi. unfold adjust_similarity_group, sbind at 1, sget at 1.
  destruct (ix_lookup (task_tags s) i (wf_tags s Hwf) Hi) as (tag & Htag & Htl).
  unfold sbind at 1, slift at 1, group_of. rewrite Htag. cbn [pbind].
  assert (∃ s', (Ret tt, s) = (Ret tt, s') ∧ wf s' ∧ regrouped s s') as Hstay
    by (exists s; auto using regrouped_refl).
  destruct tag as [t|]; [|done]. destruct (od_get (tag_to_group_id s) t) as [g|] eqn:Eg; [|done].
  destruct (wf_group s Hwf _ _ _ Htl Eg) as (ids & Hids & Hin). rewrite Z2Nat.id in Hin by lia.
  unfold sbind at 1, slift at 1. rewrite Hids. destruct (Z.leb_spec (zlen ids) 1) as [|Hz]; [done|].
  destruct (proj1 (Forall_lookup _ _) (wf_ids s Hwf) g ids Hids) as [Hnd Hix].
  destruct (group_flops_returns s ids Hwf Hix) as (fl & Hfl & Hfll).
  unfold sbind at 1, slift at 1. rewrite Hfl.
  destruct (fmaximum_returns fl) as [bf Hbf].
  { intros ->. simpl in Hfll. unfold zlen in Hz. lia. }
  unfold sbind at 1, slift at 1. rewrite Hbf.
  destruct (ix_lookup (flop_cts s) i (wf_flops s Hwf) Hi) as (f & Hf & _).
  destruct (ix_lookup (best_costs s) i (wf_costs s Hwf) Hi) as (cost & Hc & _).
  destruct (ix_lookup (task_cts s) i (wf_cts s Hwf) Hi) as (c & Hct & _).
  unfold sbind at 1, slift at 1. rewrite Hf. unfold sbind at 1, slift at 1. rewrite Hc.
  destruct (fltb _ _); [|done]. unfold sbind at 1, slift at 1. rewrite Hct.
  destruct (pymap_pynth (task_cts s) (filter (λ j, j ≠ i) ids)) as (others & Ho & Hol & _).
  { intros j Hj. apply list_elem_of_filter in Hj as [_ Hj]. unfold zlen. rewrite (wf_cts s Hwf). auto. }
  unfold sbind at 1, slift at 1. rewrite Ho.
  assert (∃ m, reduce Z.max others = Ret m) as [m Hm].
  { destruct others as [|x others]; [exfalso|by eexists]. simpl in Hol.
    assert (length ids ≤ 1) as Hle; [|unfold zlen in Hz; lia].
    apply (submseteq_length ids [i]), NoDup_submseteq; [done|]. intros x Hx.
    destruct (decide (x = i)) as [->|Hne]; [left|]. exfalso.
    assert (x ∈ filter (λ j, j ≠ i) ids) as Hf' by (by apply list_elem_of_filter).
    apply list_elem_of_lookup_1 in Hf' as [k Hk]. apply lookup_lt_Some in Hk. lia. }
  unfold sbind at 1, slift at 1. rewrite Hm. destruct (5 + m <? c)%Z; [|done].
  unfold sbind at 1, slift at 1. rewrite (ix_set (task_tags s) i None (wf_tags s Hwf) Hi).
  rewrite bool_decide_true by done. eexists. split; [done|]. split; [|by destruct s].
  fold (rm i ids). destruct Hwf as [? ? ? ? Ht ? ? Hall Hgr]. split; simpl; rewrite ?length_insert; try done.
  - apply Forall_insert; [done|]. split; [by apply NoDup_rm|].
    intros j Hj. apply elem_of_rm in Hj as [? _]; auto.
  - intros j t' g' Hj Hg'. destruct (decide (j = Z.to_nat i)) as [->|Hne].
    { rewrite list_lookup_insert_eq in Hj by lia. done. }
    rewrite list_lookup_insert_ne in Hj by done.
    destruct (Hgr j t' g' Hj Hg') as (ids' & Hids' & Hj').
    destruct (decide (g = g')) as [<-|Hgne].
    + assert (ids' = ids) as -> by congruence. exists (rm i ids).
      rewrite list_lookup_insert_eq by (by eapply lookup_lt_Some). split; [done|].
      apply elem_of_rm; [done|]. split; [done|]. lia.
    + exists ids'. by rewrite list_lookup_insert_ne.
Qed.

(** ** The round-robin strategy *)

Lemma skip_dead_returns dead : ∀ fuel i,
  task_ix i → (∃ k, (k ≤ Z.of_nat fuel)%Z ∧ (0 ≤ k)%Z ∧ (i + k) `mod` Z.of_nat n ∉ dead)%Z →
  ∃ j, skip_dead o fuel dead i = Ret j ∧ task_ix j ∧ j ∉ dead.
Proof.
  induction fuel as [|fuel IH]; intros i Hi (k & Hk & Hk0 & Hlive); cbn [skip_dead];
    case_bool_decide as Hd; try (by exists i).
  - assert (k = 0)%Z as -> by lia. rewrite Z.add_0_r, Z.mod_small in Hlive by lia. done.
  - unfold n_tasks, zlen. apply IH; [apply Z.mod_pos_bound; lia|].
    destruct (decide (k = 0)%Z) as [->|Hne].
    { rewrite Z.add_0_r, Z.mod_small in Hlive by lia. done. }
    exists (k - 1)%Z. split; [lia|]. split; [lia|].
    rewrite Z.add_mod_idemp_l by lia. by replace (i + 1 + (k - 1))%Z with (i + k)%Z by lia.
Qed.

(** Some task is alive as long as not all of them are dead. *)
Lemma live_exists dead : NoDup dead → (∀ i, i ∈ dead → task_ix i) → (zlen dead < Z.of_nat n)%Z →
  ∃ j, task_ix j ∧ j ∉ dead.
Proof.
  intros Hnd Hix Hlt. destruct (decide (Exists (λ j, j ∉ dead) (range 0 (Z.of_nat n)))) as [Hex|Hno].
  - apply Exists_exists in Hex as (j & Hj & ?). apply elem_of_range in Hj. eauto.
  - exfalso. assert (range 0 (Z.of_nat n) ⊆+ dead) as Hsub.
    { apply NoDup_submseteq; [apply NoDup_seqZ|]. intros j Hj.
      destruct (decide (j ∈ dead)); [done|]. destruct Hno. apply Exists_exists. eauto. }
    apply submseteq_length in Hsub. pose proof (length_range 0 (Z.of_nat n)). unfold zlen in Hlt. lia.
Qed.

Hypothesis round_robin : o_strategy o = RoundRobin.

Lemma choose_live s prev draw :
  wf s → (zlen (dead_tasks s) < Z.of_nat n)%Z →
  ∃ i, choose_task objective np_argmin o s prev draw = Ret i ∧ task_ix i ∧ i ∉ dead_tasks s.
Proof.
  intros Hwf Hlt. unfold choose_task. rewrite round_robin. destruct (wf_dead s Hwf) as [Hnd Hix].
  destruct (live_exists (dead_tasks s) Hnd Hix Hlt) as (j & Hj & Hlive).
  unfold n_tasks, zlen. apply skip_dead_returns; [apply Z.mod_pos_bound; lia|].
  set (i := ((prev + 1) `mod` Z.of_nat n)%Z).
  assert (task_ix i) as Hi by (apply Z.mod_pos_bound; lia).
  exists ((j - i) `mod` Z.of_nat n)%Z. pose proof (Z.mod_pos_bound (j - i) (Z.of_nat n) ltac:(lia)).
  split; [lia|]. split; [lia|]. rewrite Z.add_mod_idemp_r by lia.
  replace (i + (j - i))%Z with j by lia. by rewrite Z.mod_small by lia.
Qed.

(** The trials and tasks that remain. *)
Definition remaining (trials : Z) (s : scheduler) : Z :=
  (Z.max 0 (trials - ct s) + (Z.of_nat n - zlen (dead_tasks s)))%Z.

Lemma zlen_dead_le (a b : list Z) : NoDup a → (∀ j, j ∈ a → j ∈ b) → (zlen a ≤ zlen b)%Z.
Proof. intros Ha Hs. apply NoDup_submseteq in Hs; [|done]. apply submseteq_length in Hs. unfold zlen. lia. Qed.

Lemma scheduler_iter_returns trials s prev draw :
  wf s → (ct s < trials)%Z → (zlen (dead_tasks s) < Z.of_nat n)%Z →
  ∃ i go s', tune_iter search objective np_argmin o prev draw s = (Ret (i, go), s') ∧ wf s' ∧
    (i ∉ dead_tasks s) ∧ (remaining trials s' < remaining trials s)%Z ∧
    ∀ j c, task_cts s !! j = Some c → ∃ c', task_cts s' !! j = Some c' ∧ (c ≤ c')%Z.
Proof.
  intros Hwf Hct Hlt. destruct (choose_live s prev draw Hwf Hlt) as (i & Hch & Hi & Hlive).
  destruct (tune_task_returns i s Hwf Hi) as (s1 & H1 & [Hwf1 _ Hcts Hct1 _ Hdead _ Hempty _]).
  destruct (adjust_returns i s1 Hwf1 Hi) as (s2 & H2 & Hwf2 & Hre).
  assert (ct s2 = ct s1 ∧ dead_tasks s2 = dead_tasks s1 ∧ task_cts s2 = task_cts s1) as (Ec & Ed & Et)
    by (rewrite Hre; done).
  assert (remaining trials s2 < remaining trials s)%Z as Hrem.
  { unfold remaining. rewrite Ec, Ed, Hct1.
    pose proof (search_inputs (rounds s) i (num_measures_per_round s)) as Hni.
    set (k := (search (rounds s) i (num_measures_per_round s)).1) in *.
    destruct (wf_dead s Hwf) as [Hnd _].
    pose proof (zlen_dead_le (dead_tasks s) (dead_tasks s1) Hnd Hdead).
    destruct (decide (k = 0)%Z) as [Hk|]; [|lia].
    pose proof (zlen_dead_le (i :: dead_tasks s) (dead_tasks s1)) as Hle.
    assert (zlen (i :: dead_tasks s) = 1 + zlen (dead_tasks s))%Z by (unfold zlen; simpl; lia).
    assert (zlen (i :: dead_tasks s) ≤ zlen (dead_tasks s1))%Z; [|lia].
    apply Hle; [by constructor|]. intros j Hj. apply elem_of_cons in Hj as [->|Hj]; auto. }
  assert (∀ j c, task_cts s !! j = Some c → ∃ c', task_cts s2 !! j = Some c' ∧ (c ≤ c')%Z) as Hmono.
  { intros j c Hj. rewrite Et. destruct Hcts as (c0 & Hc0 & ->).
    destruct (decide (j = Z.to_nat i)) as [->|].
    - exists (c0 + 1)%Z. rewrite list_lookup_insert_eq by (by eapply lookup_lt_Some).
      split; [done|]. assert (c = c0) by congruence. lia.
    - exists c. by rewrite list_lookup_insert_ne. }
  unfold tune_iter, sbind at 1, sget at 1. unfold sbind at 1, slift at 1. rewrite Hch.
  unfold sbind at 1. rewrite H1. unfold sbind at 1. rewrite H2. unfold sbind at 1, sget at 1.
  destruct (fltb _ _).
  - eexists _, _, _. split; [done|]. split; [by destruct Hwf2; split|]. done.
  - eexists _, _, _. split; [done|]. done.
Qed.

Lemma scheduler_loop_returns trials draws fuel : ∀ s prev,
  wf s → (remaining trials s ≤ Z.of_nat fuel)%Z →
  ∃ s', tune_loop search objective np_argmin o fuel trials draws prev s = (Ret tt, s') ∧ wf s' ∧
    ∀ j c, task_cts s !! j = Some c → ∃ c', task_cts s' !! j = Some c' ∧ (c ≤ c')%Z.
Proof.
  induction fuel as [|fuel IH]; intros s prev Hwf Hrem; cbn [tune_loop];
    unfold sbind at 1, sget at 1; unfold n_tasks, zlen at 2;
    case_bool_decide as Hgo; 
    try (exists s; split; [done|]; split; [done|]; intros j c Hj; exists c; split; [done|lia]).
  - exfalso. unfold remaining in Hrem. lia.
  - destruct Hgo as [Hct Hdead].
    destruct (scheduler_iter_returns trials s prev (draws fuel) Hwf Hct Hdead)
      as (i & go & s1 & H1 & Hwf1 & _ & Hr & Hm).
    unfold sbind. rewrite H1. destruct go; [|by exists s1].
    destruct (IH s1 i Hwf1 ltac:(lia)) as (s2 & H2 & Hwf2 & Hm2). exists s2. split; [done|]. split; [done|].
    intros j c Hj. destruct (Hm j c Hj) as (c1 & Hc1 & ?). destruct (Hm2 j c1 Hc1) as (c2 & Hc2 & ?).
    exists c2. split; [done|lia].
Qed.

(** ** A whole run *)

Lemma warm_up_returns i s :
  wf s → task_ix i →
  (∀ c, task_cts s !! Z.to_nat i = Some c → (0 ≤ c)%Z) →
  ∃ s', warm_up search objective i s = (Ret tt, s') ∧ wf s' ∧
    (∃ c, task_cts s' !! Z.to_nat i = Some c ∧ (1 ≤ c)%Z) ∧ (ct s ≤ ct s')%Z ∧
    ∀ j, j ≠ Z.to_nat i → task_cts s' !! j = task_cts s !! j.
Proof.
  intros Hwf Hi Hpos. unfold warm_up, sbind, sget, slift.
  destruct (ix_lookup (task_cts s) i (wf_cts s Hwf) Hi) as (c & -> & Hc).
  specialize (Hpos c Hc). destruct (Z.eqb_spec c 0) as [->|].
  - destruct (tune_task_returns i s Hwf Hi) as (s1 & H1 & [Hwf1 _ Hcts Hct1 _ _ _ _ _]).
    pose proof (search_inputs (rounds s) i (num_measures_per_round s)). exists s1. split; [done|]. split; [done|]. destruct Hcts as (c0 & Hc0 & ->).
    split; [exists (c0 + 1)%Z|split; [lia|intros j Hj; by rewrite list_lookup_insert_ne]].
    rewrite list_lookup_insert_eq by (by eapply lookup_lt_Some). split; [done|].
    assert (c0 = 0)%Z by congruence. lia.
  - exists s. split; [done|]. split; [done|]. split; [|done]. exists c. split; [done|lia].
Qed.

Lemma warm_up_all s :
  wf s → (∀ j c, task_cts s !! j = Some c → (0 ≤ c)%Z) →
  ∃ s', sfor (range 0 (n_tasks o)) (warm_up search objective) s = (Ret tt, s') ∧ wf s' ∧ (ct s ≤ ct s')%Z ∧
    ∀ j, j < n → ∃ c, task_cts s' !! j = Some c ∧ (1 ≤ c)%Z.
Proof.
  intros Hwf Hpos. unfold n_tasks, zlen.
  destruct (sfor_inv (warm_up search objective) (λ done s', wf s' ∧ (ct s ≤ ct s')%Z ∧
      (∀ j c, task_cts s' !! j = Some c → (0 ≤ c)%Z) ∧
      ∀ j, Z.of_nat j ∈ done → ∃ c, task_cts s' !! j = Some c ∧ (1 ≤ c)%Z)
    (range 0 (Z.of_nat n)) s) as (s' & Hrun & Hwf' & Hct & _ & Hall).
  - split; [done|]. split; [done|]. split; [done|]. set_solver.
  - intros done i rest s1 Hl (Hwf1 & Hct1 & Hpos1 & Hdone).
    assert (task_ix i) as Hi by (apply elem_of_range; rewrite Hl; set_solver).
    destruct (warm_up_returns i s1 Hwf1 Hi (Hpos1 _)) as (s2 & H2 & Hwf2 & Hc2 & Hct2 & Hother).
    exists s2. split; [done|]. split; [done|]. split; [lia|]. split.
    + intros j c Hj. destruct (decide (j = Z.to_nat i)) as [->|Hne].
      * destruct Hc2 as (c2 & Hc2 & ?). assert (c = c2) by congruence. lia.
      * rewrite Hother in Hj by done. by eapply Hpos1.
    + intros j Hj. destruct (decide (j = Z.to_nat i)) as [->|Hne]; [done|].
      rewrite Hother by done. apply Hdone. apply elem_of_app in Hj as [Hj|Hj]; [done|].
      apply list_elem_of_singleton in Hj. lia.
  - exists s'. repeat (split; [done|]). intros j Hj. apply Hall, elem_of_range. lia.
Qed.

(** C28: with the round-robin strategy a tuning run started on a fresh scheduler
    always ends, whatever the searches return: the number of trials plus the
    number of tasks bounds its rounds; every task has been tuned at least once
    and the invariant holds at the end. *)
Theorem round_robin_tune_terminates opt draws s :
  o_tasks o ≠ [] → TaskScheduler_init flop_log objective o = Ret s →
  (Z.of_nat n ≤ num_measure_trials opt)%Z → (0 < num_measures opt)%Z →
  ∃ s', tune search objective np_argmin o (Z.to_nat (num_measure_trials opt) + n) opt None draws s
          = (Ret tt, s') ∧ wf s' ∧
    ∀ j, j < n → ∃ c, task_cts s' !! j = Some c ∧ (1 ≤ c)%Z.
Proof.
  intros Hne Hs Htr Hnum. destruct (init_wf Hne) as (s0 & Hs0 & Hwf & Hz & _).
  assert (s0 = s) as -> by congruence.
  assert (0 < Z.of_nat n)%Z as Hn by (destruct (o_tasks o); [done|simpl; lia]).
  unfold tune, sbind at 1, slift at 1, pydiv, n_tasks at 1 2, zlen at 1 2.
  rewrite bool_decide_false by lia. unfold sbind at 1, smod at 1.
  set (num := Z.min _ _). destruct (Z.leb_spec num 0) as [Hle|_].
  { exfalso. assert (1 ≤ num_measure_trials opt / Z.of_nat n)%Z; [apply Z.div_le_lower_bound; lia|unfold num, n_tasks, zlen in *; lia]. }
  unfold sbind at 1, sret at 1. set (s1 := set_limits _ _ _ s).
  assert (wf s1) as Hwf1 by (by destruct Hwf; split).
  destruct (warm_up_all s1 Hwf1) as (s2 & H2 & Hwf2 & Hct2 & Hall).
  { intros j c Hj. by rewrite (Hz j c Hj). }
  unfold sbind at 1. rewrite H2. unfold sbind, smod. set (s3 := set_prog _ _ _ _ _ s2).
  assert (wf s3) as Hwf3 by (by destruct Hwf2; split).
  destruct (scheduler_loop_returns (num_measure_trials opt) draws (Z.to_nat (num_measure_trials opt) + n) s3 (-1)
    Hwf3) as (s4 & H4 & Hwf4 & Hm).
  { unfold remaining. simpl in *. pose proof (zlen_nonneg (dead_tasks s2)). lia. }
  exists s4. split; [done|]. split; [done|]. intros j Hj. destruct (Hall j Hj) as (c & Hc & Hc1).
  destruct (Hm j c Hc) as (c' & Hc' & ?). exists c'. split; [done|lia].
Qed.
End Spec.
