(* ===== verification/Corpus.v ===== *)
(** * The training corpus of the language model

    The text form of a measurement record, the records kept as training data
    and as prompts, and the choice of the files they are taken from.
    Sources: src/gen/make_dataset_utils.py, src/gen/make_dataset.py. *)

From S2P Require Import Prelude PyFloat PyText.

(** ** The command line *)

(** The [for_type] argument. *)
Inductive for_type :=
  | FOR_GEN_TOKENIZER
  | FOR_LATENCY
  | FOR_GEN
  | FOR_GEN_BEST
  | FOR_GEN_EVAL_SKETCH
  | FOR_GEN_EVAL_SKETCH_ONLY_BERT
  | FOR_GEN_EVALTUNING_SKETCH
  | FOR_GEN_TRAIN_SKETCH
  | FOR_GEN_BEST_ALL.

Definition for_clm_or_mlm (t : for_type) : string :=
  match t with FOR_LATENCY => "mlm" | _ => "clm" end.

(** ** Linearisation *)

(** [sorted] of strings and of the items of a dict, whose keys are distinct. *)
Definition sort_strings (l : list string) : list string := merge_sort String.le l.

Definition by_key {A} (a b : string * A) : Prop := String.le a.1 b.1.

#[global] Instance by_key_dec {A} : RelDecision (@by_key A).
Proof. intros a b. unfold by_key. apply _. Defined.

Definition sort_items {A} (l : list (string * A)) : list (string * A) := merge_sort by_key l.

(** A dict of the data set. *)
Abbreviation data := (list (string * json)).

(** The best program of every sketch, by the text of the sketch. *)
Abbreviation best_map := (list (string * (flt * data))).

Section Linear.
(** [repr] of a float. *)
Context (repr_float : flt → string).

(** [json_dfs_without_bracket]: the texts it appends. *)
Fixpoint json_dfs_without_bracket (j : json) : py (list string) :=
  match j with
  | JObj l =>
      let? rows := pymap (λ '(key, val),
        let? toks := json_dfs_without_bracket val in Ret (key, toks)) l in
      Ret (concat ((λ '(key, toks), key :: toks) <$> sort_items rows))
  | JArr l => let? rows := pymap json_dfs_without_bracket l in Ret (concat rows)
  | JNull => Raise AssertionError
  | _ => Ret [py_str repr_float j]
  end.

(** The elements with a comma before each one but the first. *)
Fixpoint commas (rows : list (list string)) : list string :=
  match rows with
  | [] => []
  | [r] => r
  | r :: rows' => r ++ "," :: commas rows'
  end.

(** [json_dfs_with_bracket]. *)
Fixpoint json_dfs_with_bracket (j : json) : py (list string) :=
  match j with
  | JObj l =>
      let? rows := pymap (λ '(key, val),
        let? toks := json_dfs_with_bracket val in Ret (key, toks)) l in
      Ret ("{" :: commas ((λ '(key, toks), key :: toks) <$> sort_items rows) ++ ["}"])
  | JArr l =>
      let? rows := pymap json_dfs_with_bracket l in
      Ret ("[" :: commas rows ++ ["]"])
  | JNull => Raise AssertionError
  | _ => Ret [py_str repr_float j]
  end.

(** [json_to_token]. *)
Definition json_to_token (json_lines : list data) : py (list data) :=
  pymap (λ json_line,
    match od_get json_line "text" with
    | None => Raise KeyError
    | Some text =>
        let? text_list := json_dfs_without_bracket text in
        Ret (od_set json_line "text" (JStr (str_join " " text_list)))
    end) json_lines.

(** ** Records *)

(** [json.loads] of a line, and the text of the compute DAG that TVM recovers
    from a record line. *)
Context (loads : string → py json) (dag_of : string → py string).

(** The latency of an invalid program, 1e10. *)
Definition lat_max : flt := f_of_Z 10000000000.

(** [sp_list[i] = 1] for every [i]. *)
Definition mask_sizes (sp_list : json) : py json :=
  let? l := as_arr sp_list in Ret (JArr (replicate (length l) (JInt 1))).

(** The body of the loop over the steps: the sizes of a split are hidden. *)
Definition mask_step (step : json) : py json :=
  let? tag := jidx 0 step in
  if decide (tag = JStr "SP") then jupd_idx 4 mask_sizes step else Ret step.

(** [json_line["i"][0][0] = json.loads(workload_key)]. *)
Definition expand_key (json_line : json) : py json :=
  jupd_key "i" (jupd_idx 0 (jupd_idx 0 (λ key, let? s := as_string key in loads s))) json_line.

(** An update of [json_line["i"][1][1]]. *)
Definition upd_steps (f : list json → py (list json)) (json_line : json) : py json :=
  jupd_key "i" (jupd_idx 1 (jupd_idx 1 (λ steps,
    let? l := as_arr steps in let? l' := f l in Ret (JArr l')))) json_line.

(** [latencies == [0]]. *)
Definition zero_cost (costs : list flt) : bool :=
  match costs with [x] => feqb x f0 | _ => false end.

(** The mean of [json_line["r"][0]], 1e10 for the dummy cost. *)
Definition latency_of (json_line : json) : py flt :=
  let? r := jkey "r" json_line in
  let? costs := jidx 0 r in
  let? l := as_arr costs in
  let? costs := pymap as_float l in
  if zero_cost costs then Ret lat_max else py_mean costs.

(** ** [for_gen] *)

Definition gen_entry (compute_dag line : string) : py (flt * json) :=
  let? json_line := loads line in
  let? json_line := expand_key json_line in
  let? json_line := upd_steps (pymap mask_step) json_line in
  let? latency := latency_of json_line in
  let? i := jkey "i" json_line in
  Ret (latency, JArr [JStr compute_dag; i]).

Definition for_gen (lines : list string) : py (list data) :=
  let? l0 := pynth lines 0 in
  let? compute_dag := dag_of l0 in
  let? entries := pymap (gen_entry compute_dag) lines in
  let latency_min := foldl fmin lat_max entries.*1 in
  pymap (λ '(latency, text),
    let? labels := fdiv latency_min latency in
    Ret [("latency", JFloat latency); ("text", text); ("labels", JFloat labels)]) entries.

(** ** [for_gen_best] *)

(** The loop over the steps: the masked steps, and the text of the prefix that
    ends at the last [PPT] step. *)
Fixpoint ppt_scan (seen steps : list json) (ppt_str : option string) :
    py (list json * option string) :=
  match steps with
  | [] => Ret (seen, ppt_str)
  | step :: steps' =>
      let? step := mask_step step in
      let? tag := jidx 0 step in
      let seen := seen ++ [step] in
      ppt_scan seen steps'
        (if decide (tag = JStr "PPT") then Some (py_repr repr_float (JArr seen)) else ppt_str)
  end.

(** [json_line["i"][1][1]]. *)
Definition steps_of (json_line : json) : py (list json) :=
  let? i := jkey "i" json_line in
  let? p := jidx 1 i in
  let? steps := jidx 1 p in
  as_arr steps.

(** What the loop reads from a line: the sketch, the latency and the masked
    input. *)
Definition best_entry (line : string) : py (option string * flt * json) :=
  let? json_line := loads line in
  let? json_line := expand_key json_line in
  let? steps := steps_of json_line in
  let? (masked, ppt_str) := ppt_scan [] steps None in
  let? json_line := upd_steps (λ _, Ret masked) json_line in
  let? latency := latency_of json_line in
  let? i := jkey "i" json_line in
  Ret (ppt_str, latency, i).

Definition best_step (compute_dag : string) (acc : best_map * flt) (line : string) :
    py (best_map * flt) :=
  let '(ppt_str_min, latency_min) := acc in
  let? (ppt_str, latency, i) := best_entry line in
  if fleb lat_max latency then Ret acc else
  let latency_min := fmin latency_min latency in
  match ppt_str with
  | None => Raise AssertionError
  | Some ppt =>
      let better := match od_get ppt_str_min ppt with
                    | None => true
                    | Some (old, _) => fltb latency old
                    end in
      Ret (if better then
             od_set ppt_str_min ppt
               (latency, [("text", JArr [JStr compute_dag; i]); ("latency", JFloat latency);
                          ("line", JStr line)])
           else ppt_str_min, latency_min)
  end.

Fixpoint best_loop (compute_dag : string) (lines : list string) (acc : best_map * flt) :
    py (best_map * flt) :=
  match lines with
  | [] => Ret acc
  | line :: lines' => let? acc := best_step compute_dag acc line in best_loop compute_dag lines' acc
  end.

(** [for_gen_best]; [shuffle] is [random.shuffle]. *)
Definition for_gen_best (hardware : string) (shuffle : list string → list string)
    (lines : list string) : py (list data) :=
  let? l0 := pynth lines 0 in
  let? compute_dag := dag_of l0 in
  let? (ppt_str_min, latency_min) := best_loop compute_dag (shuffle lines) ([], lat_max) in
  let? data_list_new := pymap (λ '(latency, d),
    let? labels := fdiv latency_min latency in
    Ret (labels, od_set d "labels" (JFloat labels))) (od_vals ppt_str_min) in
  let sorted := (sort_desc data_list_new).*2 in
  if decide (hardware = "i7") then Ret (take 1 sorted)
  else if decide (hardware = "v100") then Ret sorted
  else Raise AssertionError.

(** ** [for_gen_eval_sketch] *)

(** The masked steps up to the first [PPT] step. *)
Fixpoint sketch_scan (seen steps : list json) : py (list json) :=
  match steps with
  | [] => Raise AssertionError
  | step :: steps' =>
      let? tag := jidx 0 step in
      if decide (tag = JStr "SP") then
        let? step := jupd_idx 4 mask_sizes step in sketch_scan (seen ++ [step]) steps'
      else if decide (tag = JStr "PPT") then Ret (seen ++ [step])
      else sketch_scan (seen ++ [step]) steps'
  end.

(** The sketch of a line, its latency and the truncated record. *)
Definition sketch_entry (line : string) : py (string * (flt * json)) :=
  let? json_line := loads line in
  let? json_line := upd_steps (sketch_scan []) json_line in
  let? latency := latency_of json_line in
  let? i := jkey "i" json_line in
  Ret (py_str repr_float i, (latency, json_line)).

(** The dictionary of sketches with the least latency of each. *)
Definition sketch_add (d : list (string * (flt * json))) (e : string * (flt * json)) :
    list (string * (flt * json)) :=
  match od_get d e.1 with
  | None => od_set d e.1 e.2
  | Some (latency, json_line) => od_set d e.1 (fmin latency e.2.1, json_line)
  end.

(** [for_gen_eval_sketch]; [choice ratios k] are the indices drawn by
    [np.random.choice] from the softmax of the ratios. *)
Definition for_gen_eval_sketch (choice : list flt → Z → list Z) (lines : list string) (keep_cnt : Z) :
    py (list json) :=
  let? l0 := pynth lines 0 in
  let? _ := dag_of l0 in
  let? entries := pymap sketch_entry lines in
  let sketches := od_vals (foldl sketch_add [] entries) in
  match sketches with
  | [] => Raise ValueError
  | (latency, _) :: rest =>
      let latency_min := foldl fmin latency rest.*1 in
      let? ratios := pymap (fdiv latency_min) sketches.*1 in
      pymap (pynth sketches.*2) (choice ratios keep_cnt)
  end.

(** [process_file]: the lines written for one file. *)
Definition process_file (t : for_type) (hardware : string) (shuffle : list string → list string)
    (choice : list flt → Z → list Z) (keep_cnt : Z) (content : string) : py (list json) :=
  let lines := read_lines content in
  match t with
  | FOR_GEN_TOKENIZER | FOR_GEN | FOR_LATENCY =>
      let? data_list := for_gen lines in
      let? data_list := json_to_token data_list in
      Ret (JObj <$> data_list)
  | FOR_GEN_BEST | FOR_GEN_BEST_ALL =>
      let? data_list := for_gen_best hardware shuffle lines in
      let? data_list := json_to_token data_list in
      Ret (JObj <$> data_list)
  | _ => for_gen_eval_sketch choice lines keep_cnt
  end.
End Linear.

(** ** The choice of the files *)

(** [for file in files: if basename(out) == basename(file): files.remove(file)]:
    the loop counts positions in the list it shortens, so the element after a
    removed one is skipped.  Every step advances the position. *)
Fixpoint remove_iter (fuel i : nat) (out : string) (files : list string) : list string :=
  match fuel with
  | O => files
  | S fuel' =>
      match files !! i with
      | None => files
      | Some file =>
          remove_iter fuel' (S i) out
            (if decide (basename out = basename file) then remove1 file files else files)
      end
  end.

(** The loop over the held-out files. *)
Definition remove_hold_out (hold_out files : list string) : list string :=
  foldl (λ files out, remove_iter (length files) 0 out files) files hold_out.

(** [get_hold_out_five_files] and [get_bert_files] from the yielded names. *)
Definition sorted_set (files : list string) : list string := sort_strings (remove_dups files).

(** The files whose base name is held out, and the other ones. *)
Definition held_out (hold_out files : list string) : list string :=
  filter (λ file, basename file ∈ (basename <$> hold_out)) files.
Definition not_held_out (hold_out files : list string) : list string :=
  filter (λ file, basename file ∉ (basename <$> hold_out)) files.

(** [file_i % 4 == test_file_idx % 4]. *)
Definition rotation (test_file_idx : Z) (files : list string) : list string :=
  (filter (λ p, p.1 `mod` 4 = test_file_idx `mod` 4)%Z (zip (range 0 (zlen files)) files)).*2.

Section Main.
(** [random.sample(files, n)] after [set_seed(0)], and [find_potential_files]. *)
Context (sample : list string → Z → py (list string)) (potential : list string → list string).

(** [if script_args.file_cnt:] *)
Definition sampled (file_cnt : option Z) (files : list string) : py (list string) :=
  match file_cnt with
  | Some n => if bool_decide (n = 0)%Z then Ret files else sample files n
  | None => Ret files
  end.

(** The files [main] hands to [token_files_and_merge], from the listing of the
    data set and the names of the held-out networks. *)
Definition main_files (t : for_type) (listing hold_out bert : list string) (file_cnt : option Z)
    (scheduled : bool) (test_file_idx : option Z) : py (list string) :=
  let files := sort_strings listing in
  match t with
  | FOR_GEN_TOKENIZER => sampled file_cnt files
  | FOR_GEN | FOR_LATENCY | FOR_GEN_BEST =>
      sampled file_cnt (remove_hold_out (sorted_set hold_out) files)
  | FOR_GEN_BEST_ALL => Ret files
  | FOR_GEN_EVAL_SKETCH | FOR_GEN_EVALTUNING_SKETCH | FOR_GEN_EVAL_SKETCH_ONLY_BERT =>
      let hold_out := match t with FOR_GEN_EVAL_SKETCH_ONLY_BERT => bert | _ => hold_out end in
      let files := held_out (sorted_set hold_out) files in
      Ret (if scheduled then potential files else files)
  | FOR_GEN_TRAIN_SKETCH =>
      let files := not_held_out (sorted_set hold_out) files in
      match test_file_idx, files with
      | Some idx, _ => Ret (rotation idx files)
      | None, [] => Ret []
      | None, _ => Raise TypeError
      end
  end.
End Main.
