(* ===== verification/CorpusSpec.v ===== *)
(** * The training corpus: properties

    Linearisation, hiding of the split sizes, choice of the best programs, and
    the separation of training and test files. *)

From S2P Require Import Prelude PyFloat PyText Corpus.

(** ** Sorting of dict items *)

Section MergeMap.
Context {A B : Type} (R : relation A) `{!RelDecision R} (R' : relation B) `{!RelDecision R'}
  (f : A → B) (Hf : ∀ a b, R a b ↔ R' (f a) (f b)).

Definition stack_map (st : list (option (list A))) : list (option (list B)) :=
  (λ o : option (list A), (λ l : list A, f <$> l) <$> o) <$> st.

Lemma list_merge_fmap l k : list_merge R' (f <$> l) (f <$> k) = f <$> list_merge R l k.
Proof using Hf.
  revert k. induction l as [|x l IHl]; [by intros []|].
  intros k. induction k as [|y k IHk]; [done|]. csimpl.
  destruct (decide (R x y)) as [HR|HR], (decide (R' (f x) (f y))) as [HR'|HR'];
    csimpl; rewrite Hf in HR; try done.
  - f_equal. apply (IHl (y :: k)).
  - f_equal. apply IHk.
Qed.

Lemma merge_list_to_stack_fmap st l :
  merge_list_to_stack R' (stack_map st) (f <$> l) = stack_map (merge_list_to_stack R st l).
Proof using Hf.
  revert l. induction st as [|[l'|] st IH]; intros l; csimpl; [done| |done].
  f_equal. by rewrite list_merge_fmap, IH.
Qed.

Lemma merge_stack_fmap st :
  merge_stack R' (stack_map st) = f <$> merge_stack R st.
Proof using Hf.
  induction st as [|[l'|] st IH]; csimpl; [done| |done]. by rewrite IH, list_merge_fmap.
Qed.

Lemma merge_sort_fmap l : merge_sort R' (f <$> l) = f <$> merge_sort R l.
Proof using Hf.
  unfold merge_sort. change (@nil (option (list B))) with (stack_map []).
  generalize (@nil (option (list A))). induction l as [|x l IH]; intros st; csimpl.
  - apply merge_stack_fmap.
  - rewrite <-IH. f_equal. apply (merge_list_to_stack_fmap st [x]).
Qed.
End MergeMap.

Lemma sort_items_fmap {A B} (f : A → B) (l : list (string * A)) :
  sort_items (prod_map id f <$> l) = prod_map id f <$> sort_items l.
Proof. apply merge_sort_fmap. by intros [] []. Qed.

(** Distinct keys are sorted into one order. *)
Lemma sort_items_perm {A} (l k : list (string * A)) :
  NoDup l.*1 → l ≡ₚ k → sort_items l = sort_items k.
Proof.
  intros Hnd Hp. unfold sort_items.
  assert (Transitive (@by_key A)) by (intros ? ? ?; unfold by_key; etrans; eauto).
  assert (Total (@by_key A)) by (intros ? ?; unfold by_key; apply (total String.le)).
  apply (StronglySorted_unique_strong by_key).
  - intros x y Hx Hy Hxy Hyx. rewrite merge_sort_Permutation in Hx, Hy.
    assert (x.1 = y.1) as Heq by (apply (anti_symm String.le); done).
    rewrite <-Hp in Hy. destruct x as [i a], y as [j b]. simpl in Heq. subst j.
    apply (od_elem_get l) in Hx, Hy; [|done|done]. congruence.
  - by apply StronglySorted_merge_sort.
  - by apply StronglySorted_merge_sort.
  - by rewrite !merge_sort_Permutation.
Qed.

(** ** Linearisation *)

Section Linear.
Context (repr_float : flt → string).

Definition brackets : list string := ["{"; "}"; "["; "]"; ","].

(** No key and no leaf reads as a bracket or a comma. *)
Fixpoint no_bracket_text (j : json) : Prop :=
  match j with
  | JObj l => (fix go l := match l with
      | [] => True | (k, v) :: l' => (k ∉ brackets) ∧ no_bracket_text v ∧ go l' end) l
  | JArr l => (fix go l := match l with
      | [] => True | v :: l' => no_bracket_text v ∧ go l' end) l
  | JNull => True
  | _ => py_str repr_float j ∉ brackets
  end.

Definition unbracket (toks : list string) : list string := filter (λ t, t ∉ brackets) toks.

Lemma unbracket_app l k : unbracket (l ++ k) = unbracket l ++ unbracket k.
Proof. apply filter_app. Qed.

Lemma unbracket_single t : t ∉ brackets → unbracket [t] = [t].
Proof. intros Ht. unfold unbracket. by rewrite filter_cons_True. Qed.

Lemma unbracket_commas rows : unbracket (commas rows) = concat (unbracket <$> rows).
Proof.
  induction rows as [|r [|r' rows] IH]; [done|by csimpl; rewrite app_nil_r|].
  change (commas (r :: r' :: rows)) with (r ++ "," :: commas (r' :: rows)).
  rewrite unbracket_app. rewrite fmap_cons. simpl concat. f_equal.
  unfold unbracket at 1. rewrite filter_cons_False by set_solver. apply IH.
Qed.

Lemma pymap_fmap {A B C} (f : A → py B) (g : A → py C) (h : C → B) l :
  (∀ x, x ∈ l → f x = (let? y := (g x) in Ret (h y))) →
  pymap f l = (let? ys := pymap g l in Ret (h <$> ys)).
Proof.
  induction l as [|x l IH]; intros Hf; [done|]. simpl. rewrite Hf by left.
  destruct (g x); simpl; [|done]. rewrite IH by (intros; apply Hf; by right).
  by destruct (pymap g l).
Qed.

(** The two linearisations of a document differ in nothing but the
    brackets and commas: dropping these from [json_dfs_with_bracket] gives
    [json_dfs_without_bracket], failures (on null) included, as long as no key
    and no leaf is itself such a character. *)
Theorem json_dfs_brackets j :
  no_bracket_text j →
  json_dfs_without_bracket repr_float j =
  (let? toks := json_dfs_with_bracket repr_float j in Ret (unbracket toks)).
Proof.
  induction j as [| | | | |l IH|l IH] using json_ind'; intros Hn; [done|..].
  1-4: unfold json_dfs_without_bracket, json_dfs_with_bracket, pbind;
    by rewrite unbracket_single.
  - cbn [json_dfs_without_bracket json_dfs_with_bracket].
    rewrite (pymap_fmap _ (json_dfs_with_bracket repr_float) unbracket).
    + destruct (pymap _ l) as [rows|]; simpl; [|done].
      unfold unbracket at 2. rewrite filter_cons_False by set_solver.
      fold unbracket. rewrite unbracket_app, unbracket_commas.
      by rewrite app_nil_r.
    + induction IH as [|x l Hx _ IHl]; simpl in Hn; [set_solver|].
      intros y [->|Hy]%elem_of_cons; [apply Hx|apply IHl]; tauto.
  - assert (∀ k v, (k, v) ∈ l → (k ∉ brackets) ∧ json_dfs_without_bracket repr_float v =
        (let? toks := json_dfs_with_bracket repr_float v in Ret (unbracket toks))) as Hall.
    { induction IH as [|[k v] l Hv _ IHl]; simpl in Hn; [set_solver|].
      intros k' v' [[= -> ->]|Hin]%elem_of_cons; [|apply IHl; tauto].
      split; [tauto|apply Hv; tauto]. }
    cbn [json_dfs_without_bracket json_dfs_with_bracket].
    rewrite (pymap_fmap _ (λ '(key, val),
      let? toks := json_dfs_with_bracket repr_float val in Ret (key, toks)) (prod_map id unbracket)).
    + destruct (pymap _ l) as [rows|] eqn:Er; simpl; [|done].
      unfold unbracket at 2. rewrite filter_cons_False by set_solver.
      fold unbracket. rewrite unbracket_app, unbracket_commas, sort_items_fmap, app_nil_r.
      do 2 f_equal. rewrite <-!list_fmap_compose. apply list_fmap_ext.
      intros i [k toks] Hi%list_elem_of_lookup_2. unfold compose. simpl.
      unfold unbracket at 2. rewrite filter_cons_True; [done|].
      unfold sort_items in Hi. rewrite merge_sort_Permutation in Hi.
      destruct (pymap_elem _ _ _ _ Er Hi) as ([k' v] & Hin & Hv).
      destruct (json_dfs_with_bracket repr_float v); [|done].
      injection Hv as <- <-. by apply (Hall k' v).
    + intros [k v] Hin. destruct (Hall k v Hin) as [_ ->].
      by destruct (json_dfs_with_bracket repr_float v).
Qed.

(** Documents equal up to the order of the entries of their objects. *)
Inductive same_doc : json → json → Prop :=
  | same_refl j : same_doc j j
  | same_arr l k : Forall2 same_doc l k → same_doc (JArr l) (JArr k)
  | same_obj l k m :
      NoDup l.*1 → Forall2 (λ a b, a.1 = b.1 ∧ same_doc a.2 b.2) l k → k ≡ₚ m →
      same_doc (JObj l) (JObj m).

(** The only failure is the final [assert]. *)
Lemma json_dfs_raises j e :
  json_dfs_without_bracket repr_float j = Raise e → e = AssertionError.
Proof.
  revert e. induction j as [| | | | |l IH|l IH] using json_ind'; intros e; simpl; try congruence.
  - destruct (pymap _ l) as [rows|e'] eqn:Er; simpl; [done|]. intros [= <-].
    apply pymap_raises in Er as (x & Hx & He). rewrite Forall_forall in IH. by apply (IH x).
  - destruct (pymap _ l) as [rows|e'] eqn:Er; simpl; [done|]. intros [= <-].
    apply pymap_raises in Er as ([k x] & Hx & He). rewrite Forall_forall in IH.
    destruct (json_dfs_without_bracket repr_float x) as [|e0] eqn:E; simpl in He; [done|].
    injection He as ->. by apply (IH _ Hx).
Qed.

Lemma pymap_keys (f : string * json → py (string * list string)) l r :
  (∀ x y, f x = Ret y → y.1 = x.1) → pymap f l = Ret r → r.*1 = l.*1.
Proof.
  intros Hkey Hr. apply pymap_Ret in Hr. induction Hr as [|x y l r Hxy _ IH]; [done|].
  csimpl. by rewrite (Hkey _ _ Hxy), IH.
Qed.

Lemma obj_items_perm l k (f : string * json → py (string * list string)) :
  NoDup l.*1 → l ≡ₚ k →
  (∀ x y, f x = Ret y → y.1 = x.1) → (∀ x e, f x = Raise e → e = AssertionError) →
  (let? rows := (pymap f l) in Ret (sort_items rows)) =
  (let? rows := (pymap f k) in Ret (sort_items rows)).
Proof.
  intros Hnd Hp Hkey Herr. destruct (pymap f k) as [rk|e] eqn:Ek; simpl.
  - destruct (pymap_perm f l k rk Hp Ek) as (rl & -> & Hr). simpl. f_equal.
    apply sort_items_perm; [|done]. rewrite Hr, (pymap_keys f k rk) by done. by rewrite <-Hp.
  - destruct (pymap_raises f k e Ek) as (x & Hx & He). rewrite <-Hp in Hx.
    destruct (pymap_raises_inv f l x e Hx He) as [e' He']. rewrite He'. simpl. f_equal.
    apply pymap_raises in He' as (x' & _ & He'). by rewrite (Herr _ _ He), (Herr _ _ He').
Qed.

Lemma pymap_Forall2 {A B C} (f : A → py C) (g : B → py C) l k :
  Forall2 (λ a b, f a = g b) l k → pymap f l = pymap g k.
Proof. induction 1 as [|a b l k Hab _ IH]; simpl; [done|]. by rewrite Hab, IH. Qed.

(** The token text of a document does not depend on the order in which its
    objects list their entries, at any depth: equal documents give the same
    text, or both fail. *)
Theorem json_dfs_key_order j k :
  same_doc j k →
  json_dfs_without_bracket repr_float j = json_dfs_without_bracket repr_float k.
Proof.
  revert k. induction j as [| | | | |l IH|l IH] using json_ind'; intros k Hs;
    inversion Hs as [|? ? HF|? k' m Hnd HF Hp]; subst; try done.
  - simpl. f_equal. apply pymap_Forall2. clear Hs. induction HF as [|x y l k Hxy _ IHl]; [done|].
    apply Forall_cons in IH as [Hx IH]. constructor; auto.
  - assert (l.*1 = k'.*1) as Hkeys.
    { clear -HF. induction HF as [|x y l k [Hk _] _ IHl]; [done|]. csimpl. congruence. }
    rewrite Hkeys in Hnd. simpl.
    set (f := λ '(key, val), let? toks := json_dfs_without_bracket repr_float val in Ret (key, toks)).
    assert (pymap f l = pymap f k') as ->.
    { apply pymap_Forall2. clear -IH HF. induction HF as [|[i x] [j y] l k [Hk Hxy] _ IHl]; [done|].
      apply Forall_cons in IH as [Hx IH]. simpl in *. subst.
      constructor; [|by apply IHl]. unfold f. by rewrite (Hx y). }
    assert ((let? rows := (pymap f k') in Ret (sort_items rows)) =
            (let? rows := (pymap f m) in Ret (sort_items rows))) as Hperm.
    { apply obj_items_perm; [done|done|..]; unfold f; intros [i x] ?;
        destruct (json_dfs_without_bracket repr_float x) eqn:E; simpl; try done.
      - by intros [= <-].
      - intros [= <-]. by eapply json_dfs_raises. }
    destruct (pymap f k'), (pymap f m); simpl in *; congruence.
Qed.
End Linear.

(** ** Split sizes are hidden *)

Lemma jidx_0 x l : jidx 0 (JArr (x :: l)) = Ret x.
Proof. simpl. by rewrite pynth_lookup. Qed.

Lemma jidx_1 x y l : jidx 1 (JArr (x :: y :: l)) = Ret y.
Proof. simpl. by rewrite pynth_lookup. Qed.

Lemma jupd_idx_0 f x l : jupd_idx 0 f (JArr (x :: l)) = (let? v := (f x) in Ret (JArr (v :: l))).
Proof.
  unfold jupd_idx. rewrite jidx_0. cbn [pbind]. destruct (f x); cbn [pbind]; [|done].
  rewrite pyset_in_range; [done|unfold zlen; simpl; lia].
Qed.

Lemma jupd_idx_1 f x y l :
  jupd_idx 1 f (JArr (x :: y :: l)) = (let? v := (f y) in Ret (JArr (x :: v :: l))).
Proof.
  unfold jupd_idx. rewrite jidx_1. cbn [pbind]. destruct (f y); cbn [pbind]; [|done].
  rewrite pyset_in_range; [done|unfold zlen; simpl; lia].
Qed.

Lemma jupd_idx_1_Ret f j r :
  jupd_idx 1 f j = Ret r →
  ∃ x y l v, j = JArr (x :: y :: l) ∧ f y = Ret v ∧ r = JArr (x :: v :: l).
Proof.
  intros H. destruct j as [| | | | |l|];
    try (unfold jupd_idx in H; destruct (jidx 1 _) as [v|]; simpl in H;
      [destruct (f v); simpl in H; done|done]).
  destruct l as [|x [|y l]]; try done.
  rewrite jupd_idx_1 in H. destruct (f y) as [v|] eqn:E; [|done]. injection H as <-. by exists x, y, l, v.
Qed.

Lemma jupd_idx_4 f x a b c y l :
  jupd_idx 4 f (JArr (x :: a :: b :: c :: y :: l)) =
  (let? v := (f y) in Ret (JArr (x :: a :: b :: c :: v :: l))).
Proof.
  unfold jupd_idx, jidx. rewrite pynth_lookup by done.
  change ((x :: a :: b :: c :: y :: l) !! Z.to_nat 4) with (Some y). cbn [pbind].
  destruct (f y); cbn [pbind]; [|done].
  rewrite pyset_in_range; [done|unfold zlen; simpl; lia].
Qed.

Lemma jupd_key_obj k f l v :
  od_get l k = Some v → jupd_key k f (JObj l) = (let? v' := (f v) in Ret (JObj (od_set l k v'))).
Proof. intros Hk. unfold jupd_key. simpl. rewrite Hk. simpl. by destruct (f v). Qed.

(** A step and a copy of it with other split sizes. *)
Inductive resized : json → json → Prop :=
  | resized_same s : resized s s
  | resized_split a b c sizes sizes' rest :
      length sizes = length sizes' →
      resized (JArr (JStr "SP" :: a :: b :: c :: JArr sizes :: rest))
              (JArr (JStr "SP" :: a :: b :: c :: JArr sizes' :: rest)).

Lemma mask_step_resized s s' : resized s s' → mask_step s = mask_step s'.
Proof.
  intros [|a b c sizes sizes' rest Hlen]; [done|]. unfold mask_step.
  rewrite !jidx_0. cbn [pbind]. rewrite !decide_True by done.
  rewrite !jupd_idx_4. unfold mask_sizes. simpl. by rewrite Hlen.
Qed.

Lemma resized_tag s s' : resized s s' → jidx 0 s = jidx 0 s'.
Proof. intros [|]; [done|]. by rewrite !jidx_0. Qed.

Section Hidden.
Context (repr_float : flt → string) (loads : string → py json) (dag_of : string → py string).

Lemma ppt_scan_resized steps steps' : Forall2 resized steps steps' →
  ∀ seen ppt, ppt_scan repr_float seen steps ppt = ppt_scan repr_float seen steps' ppt.
Proof.
  induction 1 as [|s s' steps steps' Hs _ IH]; intros seen ppt; simpl; [done|].
  rewrite (mask_step_resized _ _ Hs). destruct (mask_step s') as [m|]; simpl; [|done].
  destruct (jidx 0 m); simpl; [|done]. apply IH.
Qed.

Lemma sketch_scan_resized steps steps' : Forall2 resized steps steps' →
  ∀ seen, sketch_scan seen steps = sketch_scan seen steps'.
Proof.
  induction 1 as [|s s' steps steps' Hs _ IH]; intros seen; simpl; [done|].
  pose proof (mask_step_resized _ _ Hs) as Hm. unfold mask_step in Hm.
  rewrite (resized_tag _ _ Hs) in *. destruct (jidx 0 s') as [t|] eqn:Et; simpl in *; [|done].
  case_decide as Ht.
  - rewrite Hm. destruct (jupd_idx 4 _ s'); simpl; [apply IH|done].
  - injection Hm as ->. case_decide; [done|]. apply IH.
Qed.

(** The normal form of a record with steps. *)
Lemma record_shape j j' steps steps' :
  steps_of j = Ret steps → upd_steps (λ _, Ret steps') j = Ret j' →
  ∃ l x0 rest y0 rest', od_get l "i" = Some (JArr (x0 :: JArr (y0 :: JArr steps :: rest') :: rest)) ∧
    j = JObj l ∧ j' = JObj (od_set l "i" (JArr (x0 :: JArr (y0 :: JArr steps' :: rest') :: rest))).
Proof.
  unfold steps_of, upd_steps. intros Hs Hu. py_inv.
  destruct j as [| | | | | |l]; simpl in H; try done.
  destruct (od_get l "i") as [i|] eqn:Ei; [|done]. injection H as ->.
  rewrite (jupd_key_obj _ _ _ _ Ei) in Hu. py_inv.
  apply jupd_idx_1_Ret in H as (a & b & r & v & -> & Hv & ->).
  rewrite jidx_1 in H0. injection H0 as <-.
  apply jupd_idx_1_Ret in Hv as (c & d & r' & v' & -> & Hv & ->).
  rewrite jidx_1 in H1. injection H1 as <-. rewrite H2 in Hv. simpl in Hv. injection Hv as <-.
  destruct d; simpl in H2; try done. injection H2 as ->. by exists l, a, r, c, r'.
Qed.

Lemma upd_steps_shape f l x0 y0 steps rest rest' :
  od_get l "i" = Some (JArr (x0 :: JArr (y0 :: JArr steps :: rest') :: rest)) →
  upd_steps f (JObj l) = (let? steps' := (f steps) in
    Ret (JObj (od_set l "i" (JArr (x0 :: JArr (y0 :: JArr steps' :: rest') :: rest))))).
Proof.
  intros Hl. unfold upd_steps. rewrite (jupd_key_obj _ _ _ _ Hl), !jupd_idx_1. simpl.
  by destruct (f steps).
Qed.

Lemma expand_key_shape l x0 rest :
  od_get l "i" = Some (JArr (x0 :: rest)) →
  expand_key loads (JObj l) =
  (let? v := (jupd_idx 0 (λ key, let? s := as_string key in loads s) x0) in
   Ret (JObj (od_set l "i" (JArr (v :: rest))))).
Proof.
  intros Hl. unfold expand_key. rewrite (jupd_key_obj _ _ _ _ Hl), jupd_idx_0.
  by destruct (jupd_idx _ _ x0).
Qed.

Lemma latency_set_i l v : latency_of (JObj (od_set l "i" v)) = latency_of (JObj l).
Proof. unfold latency_of, jkey. by rewrite od_get_set_ne. Qed.

(** The sizes of the splits never reach the training data nor the prompts.
    Two records that differ in nothing but the sizes in their [SP] steps yield
    the same entry of [for_gen], the same sketch, latency and input in
    [for_gen_best], and the same sketch, latency and prompt in
    [for_gen_eval_sketch]; failures agree too. *)
Theorem split_sizes_hidden line line' j j' steps steps' compute_dag :
  loads line = Ret j → loads line' = Ret j' →
  steps_of j = Ret steps → upd_steps (λ _, Ret steps') j = Ret j' →
  Forall2 resized steps steps' →
  gen_entry loads compute_dag line = gen_entry loads compute_dag line' ∧
  best_entry repr_float loads line = best_entry repr_float loads line' ∧
  sketch_entry repr_float loads line = sketch_entry repr_float loads line'.
Proof.
  intros Hl Hl' Hs Hu Hr.
  destruct (record_shape _ _ _ _ Hs Hu) as (l & x0 & rest & y0 & rest' & Hi & -> & ->).
  set (i' := JArr (x0 :: JArr (y0 :: JArr steps' :: rest') :: rest)) in *.
  pose proof (od_get_set_eq l "i" i') as Hi'.
  split; [|split].
  - unfold gen_entry. rewrite Hl, Hl'. cbn [pbind].
    rewrite (expand_key_shape _ _ _ Hi), (expand_key_shape _ _ _ Hi').
    destruct (jupd_idx _ _ x0) as [v|]; cbn [pbind]; [|done].
    rewrite !(upd_steps_shape _ _ v y0 _ rest rest' (od_get_set_eq _ _ _)), od_set_set.
    rewrite (pymap_Forall2 mask_step mask_step steps steps')
      by (eapply Forall2_impl; [done|]; apply mask_step_resized).
    destruct (pymap mask_step steps'); cbn [pbind]; [|done]. by rewrite !od_set_set.
  - unfold best_entry. rewrite Hl, Hl'. cbn [pbind].
    rewrite (expand_key_shape _ _ _ Hi), (expand_key_shape _ _ _ Hi').
    destruct (jupd_idx _ _ x0) as [v|]; cbn [pbind]; [|done]. rewrite od_set_set.
    unfold steps_of, jkey. rewrite !od_get_set_eq. cbn [pbind].
    rewrite !jidx_1. cbn [pbind]. rewrite !jidx_1. cbn [pbind as_arr].
    rewrite (ppt_scan_resized _ _ Hr). destruct (ppt_scan _ [] steps' None) as [[m ppt]|];
      cbn [pbind]; [|done].
    rewrite !(upd_steps_shape _ _ v y0 _ rest rest' (od_get_set_eq _ _ _)). cbn [pbind].
    by rewrite !od_set_set.
  - unfold sketch_entry. rewrite Hl, Hl'. cbn [pbind].
    rewrite (upd_steps_shape _ _ _ _ _ _ _ Hi), (upd_steps_shape _ _ _ _ _ _ _ Hi').
    rewrite (sketch_scan_resized _ _ Hr). destruct (sketch_scan [] steps'); cbn [pbind]; [|done].
    unfold i'. by rewrite od_set_set.
Qed.
End Hidden.

(** ** The best programs *)

Section Best.
Context (repr_float : flt → string) (loads : string → py json) (dag_of : string → py string).

(** The sketch and the latency of a line that holds a valid program. *)
Definition sketch_of (line : string) : option (string * flt) :=
  match best_entry repr_float loads line with
  | Ret (Some p, latency, _) => if fleb lat_max latency then None else Some (p, latency)
  | _ => None
  end.

(** The data [for_gen_best] keeps of a line, labels apart. *)
Definition kept_as (compute_dag line p : string) (latency : flt) (d : data) : Prop :=
  ∃ i, best_entry repr_float loads line = Ret (Some p, latency, i) ∧
       sketch_of line = Some (p, latency) ∧
       d = [("text", JArr [JStr compute_dag; i]); ("latency", JFloat latency); ("line", JStr line)].

Record best_inv (compute_dag : string) (seen : list string) (acc : best_map * flt) : Prop := {
  bi_nodup : NoDup (od_keys acc.1);
  bi_keys p : p ∈ od_keys acc.1 ↔ p ∈ (omap sketch_of seen).*1;
  bi_kept p latency d : od_get acc.1 p = Some (latency, d) →
    (∃ line, line ∈ seen ∧ kept_as compute_dag line p latency d) ∧
    ∀ latency', (p, latency') ∈ omap sketch_of seen → fle latency latency';
  bi_min : acc.2 = foldl fmin lat_max (omap sketch_of seen).*2
}.

(** Every latency is a number. *)
Definition readable (line : string) : Prop :=
  ∀ p latency i, best_entry repr_float loads line = Ret (p, latency, i) → is_nan latency = false.

Lemma omap_snoc {A B} (f : A → option B) l x :
  omap f (l ++ [x]) = omap f l ++ match f x with Some y => [y] | None => [] end.
Proof. by rewrite omap_app. Qed.

Lemma best_inv_skip compute_dag seen line acc :
  sketch_of line = None → best_inv compute_dag seen acc → best_inv compute_dag (seen ++ [line]) acc.
Proof.
  intros Hsk [Hnd Hkeys Hkept Hmin]. split; rewrite ?omap_snoc, ?Hsk, ?app_nil_r; try done.
  intros p l d Hp. destruct (Hkept p l d Hp) as [(ln & Hin & Hk) Hle].
  split; [|done]. exists ln. set_solver.
Qed.

Lemma omap_min seen line p lat lmin :
  sketch_of line = Some (p, lat) → lmin = foldl fmin lat_max (omap sketch_of seen).*2 →
  fmin lmin lat = foldl fmin lat_max (omap sketch_of (seen ++ [line])).*2.
Proof. intros Hsk ->. by rewrite omap_snoc, Hsk, fmap_app, foldl_app. Qed.

Lemma best_inv_set compute_dag seen line m lmin p lat d :
  sketch_of line = Some (p, lat) → kept_as compute_dag line p lat d →
  best_inv compute_dag seen (m, lmin) → is_nan lat = false →
  (∀ l, (p, l) ∈ omap sketch_of seen → fle lat l) →
  best_inv compute_dag (seen ++ [line]) (od_set m p (lat, d), fmin lmin lat).
Proof.
  intros Hsk Hk [Hnd Hkeys Hkept Hmin] Hnan Hle. split; simpl in *.
  - by apply od_set_NoDup.
  - intros q. rewrite omap_snoc, Hsk, od_keys_set, fmap_app, elem_of_app, <-Hkeys.
    destruct (od_mem m p) eqn:Em; [apply od_mem_true in Em|]; set_solver.
  - intros q l d'. rewrite od_get_set. case_decide as Hq.
    + subst q. intros [= <- <-]. split; [exists line; set_solver|].
      intros l'. rewrite omap_snoc, Hsk, elem_of_app, list_elem_of_singleton.
      intros [Hin|[= ->]]; [by apply Hle|by apply fle_refl].
    + intros Hg. destruct (Hkept q l d' Hg) as [(ln & Hin & Hk') Hle'].
      split; [exists ln; set_solver|]. intros l'.
      rewrite omap_snoc, Hsk, elem_of_app, list_elem_of_singleton.
      intros [Hin'|[= -> ->]]; [by apply Hle'|done].
  - by eapply omap_min.
Qed.

Lemma best_inv_keep compute_dag seen line m lmin p lat old d :
  sketch_of line = Some (p, lat) → od_get m p = Some (old, d) → fle old lat →
  best_inv compute_dag seen (m, lmin) → best_inv compute_dag (seen ++ [line]) (m, fmin lmin lat).
Proof.
  intros Hsk Hg Hle [Hnd Hkeys Hkept Hmin]. split; simpl in *; [done|..].
  - intros q. rewrite omap_snoc, Hsk, fmap_app, elem_of_app, <-Hkeys.
    apply od_get_Some_key in Hg. set_solver.
  - intros q l d' Hq. destruct (Hkept q l d' Hq) as [(ln & Hin & Hk) Hl].
    split; [exists ln; set_solver|]. intros l'.
    rewrite omap_snoc, Hsk, elem_of_app, list_elem_of_singleton.
    intros [Hin'|[= -> ->]]; [by apply Hl|]. congruence.
  - by eapply omap_min.
Qed.

Lemma best_step_inv compute_dag seen acc line acc' :
  (∀ l, l ∈ seen → readable l) → readable line → best_inv compute_dag seen acc →
  best_step repr_float loads compute_dag acc line = Ret acc' →
  best_inv compute_dag (seen ++ [line]) acc'.
Proof.
  intros Hseen Hline Hinv Hs. destruct acc as [m lmin]. unfold best_step in Hs.
  destruct (best_entry _ _ line) as [[[ppt lat] i]|] eqn:Ee; simpl in Hs; [|done].
  assert (sketch_of line = if fleb lat_max lat then None else (λ p, (p, lat)) <$> ppt) as Hsk.
  { unfold sketch_of. rewrite Ee. by destruct ppt, (fleb _ _). }
  destruct (fleb lat_max lat); [injection Hs as <-; by apply best_inv_skip|].
  destruct ppt as [p|]; [|done]. simpl in Hsk. injection Hs as <-.
  pose proof (Hline _ _ _ Ee) as Hnan.
  assert (∀ l, (p, l) ∈ omap sketch_of seen → is_nan l = false) as Hnans.
  { intros l (ln & Hin & Hl)%list_elem_of_omap. unfold sketch_of in Hl.
    destruct (best_entry _ _ ln) as [[[[p'|] l'] i']|] eqn:Eln; try done.
    destruct (fleb lat_max l'); [done|]. injection Hl as -> ->. by eapply Hseen. }
  destruct (od_get m p) as [[old dold]|] eqn:Ep.
  - destruct (bi_kept _ _ _ Hinv _ _ _ Ep) as [(ln & Hin & ? & _ & Hln & _) Hle].
    assert (is_nan old = false) as Hold by (apply Hnans, list_elem_of_omap; eauto).
    destruct (fltb lat old) eqn:Elt.
    + apply best_inv_set; try done; [by exists i|]. intros l Hl.
      eapply fle_trans; [by apply flt_fle|by apply Hle].
    + eapply best_inv_keep; [done..| |done]. by apply fltb_false_fle.
  - apply best_inv_set; try done; [by exists i|]. intros l Hl. exfalso.
    apply od_get_None_key in Ep. apply Ep, (bi_keys _ _ _ Hinv).
    by apply (list_elem_of_fmap_2 fst) in Hl.
Qed.

Lemma best_loop_inv compute_dag lines : ∀ seen acc acc',
  (∀ l, l ∈ seen ++ lines → readable l) → best_inv compute_dag seen acc →
  best_loop repr_float loads compute_dag lines acc = Ret acc' →
  best_inv compute_dag (seen ++ lines) acc'.
Proof.
  induction lines as [|line lines IH]; intros seen acc acc' Hr Hinv Hl; simpl in Hl.
  - injection Hl as <-. by rewrite app_nil_r.
  - destruct (best_step _ _ _ acc line) as [acc1|] eqn:Es; [|done].
    change (line :: lines) with ([line] ++ lines). rewrite app_assoc.
    apply (IH _ acc1); [|eapply best_step_inv; [| |done|done]|done]; set_solver.
Qed.

(** The labelling of the kept programs, sketches included. *)
Definition labelled (latency_min : flt) (kv : string * (flt * data)) : py (flt * (string * data)) :=
  let? labels := (fdiv latency_min kv.2.1) in
  Ret (labels, (kv.1, od_set kv.2.2 "labels" (JFloat labels))).

Lemma labelled_vals lmin (m : best_map) dl :
  pymap (λ '(latency, d), let? labels := (fdiv lmin latency) in
                          Ret (labels, od_set d "labels" (JFloat labels))) (od_vals m) = Ret dl →
  ∃ rows, pymap (labelled lmin) m = Ret rows ∧ dl = prod_map id snd <$> rows.
Proof.
  revert dl. induction m as [|[p [lat d]] m IH]; intros dl; csimpl; [intros [= <-]; by exists []|].
  unfold labelled at 1. simpl. destruct (fdiv lmin lat) as [lab|]; simpl; [|done].
  intros H. apply pbind_Ret in H as (dl' & Hdl & [= <-]).
  destruct (IH dl' Hdl) as (rows & -> & ->). simpl. by eexists.
Qed.

Lemma labelled_keys lmin m rows : pymap (labelled lmin) m = Ret rows → rows.*2.*1 = od_keys m.
Proof.
  intros H. apply pymap_Ret in H. unfold od_keys. induction H as [|x y m rows Hxy _ IH]; [done|].
  unfold labelled in Hxy. destruct (fdiv _ _); [|done]. injection Hxy as <-. csimpl. by rewrite IH.
Qed.

(** C31: [for_gen_best] keeps, for every sketch among the valid programs of the
    file, exactly one program, one of least latency, with the latency relative
    to the best of the file as label, in descending order of the labels; on
    the i7 only the first of them is kept. *)
Theorem for_gen_best_spec shuffle lines ds :
  shuffle lines ≡ₚ lines → (∀ line, line ∈ lines → readable line) →
  for_gen_best repr_float loads dag_of "v100" shuffle lines = Ret ds →
  let latency_min := foldl fmin lat_max (omap sketch_of (shuffle lines)).*2 in
  for_gen_best repr_float loads dag_of "i7" shuffle lines = Ret (take 1 ds) ∧
  ∃ rows : list (flt * (string * data)),
    ds = rows.*2.*2 ∧ NoDup rows.*2.*1 ∧
    (∀ p, p ∈ rows.*2.*1 ↔ p ∈ (omap sketch_of lines).*1) ∧
    (∀ labels p d, (labels, (p, d)) ∈ rows →
       ∃ line compute_dag latency d0, line ∈ lines ∧ kept_as compute_dag line p latency d0 ∧
         fdiv latency_min latency = Ret labels ∧ d = od_set d0 "labels" (JFloat labels) ∧
         ∀ latency', (p, latency') ∈ omap sketch_of lines → fle latency latency') ∧
    (Forall (λ r, is_nan r.1 = false) rows → StronglySorted desc rows).
Proof.
  intros Hp Hr Hg lmin. unfold for_gen_best in *.
  destruct (pynth lines 0) as [l0|]; simpl in *; [|done].
  destruct (dag_of l0) as [dag|]; simpl in *; [|done].
  destruct (best_loop _ _ dag (shuffle lines) ([], lat_max)) as [[m lm]|] eqn:El; simpl in *; [|done].
  destruct (pymap _ (od_vals m)) as [dl|] eqn:Ed; simpl in *; [|done]. injection Hg as <-.
  split; [done|].
  destruct (best_loop_inv dag (shuffle lines) [] ([], lat_max) (m, lm)) as [Hnd Hkeys Hkept Hmin];
    [intros l Hl; apply Hr; rewrite <-Hp; done|split; simpl; set_solver by constructor|done|].
  simpl in *. subst lm. destruct (labelled_vals _ _ _ Ed) as (rows & Hrows & ->).
  pose proof (sort_desc_perm rows) as Hsort. exists (sort_desc rows).
  assert (∀ x, x ∈ omap sketch_of (shuffle lines) ↔ x ∈ omap sketch_of lines) as Hin.
  { intros x. by rewrite Hp. }
  split; [|split; [|split; [|split]]].
  - rewrite sort_desc_fmap, <-!list_fmap_compose. by apply list_fmap_ext.
  - by rewrite Hsort, (labelled_keys _ _ _ Hrows).
  - intros p. by rewrite Hsort, (labelled_keys _ _ _ Hrows), Hkeys, Hp.
  - intros lab p d Hd. rewrite Hsort in Hd.
    destruct (pymap_elem _ _ _ _ Hrows Hd) as ([p' [lat d0]] & Hm & Hl).
    unfold labelled in Hl. simpl in Hl. destruct (fdiv _ lat) eqn:Ef; [|done].
    injection Hl as <- <- <-. apply (od_elem_get m) in Hm; [|done].
    destruct (Hkept _ _ _ Hm) as [(line & Hl & Hk) Hle].
    exists line, dag, lat, d0. rewrite <-Hp at 1. repeat split; try done.
    intros lat' Hlat'. by apply Hle, Hin.
  - intros Hnan. apply sort_desc_sorted. by rewrite <-Hsort.
Qed.
End Best.

(** ** Training and test files *)

Definition not_named (out file : string) : Prop := basename file ≠ basename out.

Lemma remove_iter_none fuel i out files :
  Forall (not_named out) files → remove_iter fuel i out files = files.
Proof.
  intros Hn. revert i. induction fuel as [|fuel IH]; intros i; simpl; [done|].
  destruct (files !! i) as [file|] eqn:E; [|done].
  rewrite decide_False; [apply IH|]. rewrite Forall_lookup in Hn. by apply not_eq_sym, (Hn i).
Qed.

Lemma remove_iter_filter fuel out pre post :
  length post ≤ fuel → NoDup (basename <$> (pre ++ post)) → Forall (not_named out) pre →
  remove_iter fuel (length pre) out (pre ++ post) = pre ++ filter (not_named out) post.
Proof.
  revert pre post. induction fuel as [|fuel IH]; intros pre [|file post] Hlen Hnd Hpre; simpl in *;
    try lia; rewrite ?app_nil_r.
  - done.
  - by rewrite lookup_ge_None_2.
  - rewrite list_lookup_middle by done. case_decide as Hm.
    + rewrite filter_cons_False by (unfold not_named; congruence).
      rewrite fmap_app, NoDup_app in Hnd. destruct Hnd as (_ & Hdis & Hnd).
      csimpl in Hnd. apply NoDup_cons in Hnd as [Hfile Hnd].
      assert (Forall (not_named out) post) as Hpost.
      { apply Forall_forall. intros f Hf. unfold not_named. rewrite Hm. intros Hb. apply Hfile.
        rewrite <-Hb. by apply list_elem_of_fmap_2. }
      rewrite remove1_app, remove_iter_none.
      * f_equal. symmetry. by apply filter_every.
      * by apply Forall_app.
      * intros Hin. apply (Hdis (basename file)); [by apply list_elem_of_fmap_2|csimpl; left].
    + rewrite filter_cons_True by (unfold not_named; congruence).
      assert (pre ++ file :: post = (pre ++ [file]) ++ post) as E by by rewrite <-app_assoc.
      rewrite E in *. rewrite (cons_middle file pre). replace (S (length pre)) with (length (pre ++ [file]))
        by (rewrite length_app; simpl; lia).
      rewrite IH; [by rewrite <-app_assoc|lia|done|].
      apply Forall_app; split; [done|]. constructor; [|done]. unfold not_named. congruence.
Qed.

Lemma remove_hold_out_filter hold_out files :
  NoDup (basename <$> files) → remove_hold_out hold_out files = not_held_out hold_out files.
Proof.
  unfold remove_hold_out, not_held_out. revert files.
  induction hold_out as [|out hold IH]; intros files Hnd; simpl.
  - symmetry. apply filter_every. apply Forall_forall. set_solver.
  - rewrite (remove_iter_filter _ out [] files) by done. rewrite IH.
    + simpl. rewrite list_filter_filter. apply list_filter_iff. intros f. unfold not_named.
      rewrite not_elem_of_cons. tauto.
    + eapply sublist_NoDup; [done|]. by apply fmap_sublist, sublist_filter.
Qed.

Lemma sort_strings_perm l : sort_strings l ≡ₚ l.
Proof. apply merge_sort_Permutation. Qed.

Lemma elem_of_sorted_set l x : x ∈ basename <$> sorted_set l ↔ x ∈ basename <$> l.
Proof.
  unfold sorted_set. rewrite sort_strings_perm. rewrite !list_elem_of_fmap.
  by setoid_rewrite elem_of_remove_dups.
Qed.

Lemma filter_split {A} (P : A → Prop) `{∀ x, Decision (P x)} l :
  l ≡ₚ filter (λ x, ¬ P x) l ++ filter P l.
Proof.
  induction l as [|x l IH]; [done|]. destruct (decide (P x)).
  - rewrite filter_cons_False, filter_cons_True by tauto. rewrite <-Permutation_middle. by rewrite <-IH.
  - rewrite filter_cons_True, filter_cons_False by tauto. simpl. by rewrite <-IH.
Qed.

Lemma rotation_lookup idx files f :
  f ∈ rotation idx files ↔ ∃ i : nat, files !! i = Some f ∧ (Z.of_nat i `mod` 4 = idx `mod` 4)%Z.
Proof.
  unfold rotation. rewrite list_elem_of_fmap. split.
  - intros ([z f'] & -> & [Hm Hin]%list_elem_of_filter).
    apply list_elem_of_lookup in Hin as [i Hi]. apply lookup_zip_with_Some in Hi as (z' & f & [= -> ->] & Hz & Hf).
    unfold range in Hz. apply lookup_seqZ in Hz as [-> _]. exists i. simpl in *. by rewrite Z.add_0_l in Hm.
  - intros (i & Hi & Hm). exists (Z.of_nat i, f). split; [done|]. apply list_elem_of_filter. split; [done|].
    apply list_elem_of_lookup. exists i. apply lookup_zip_with_Some. exists (Z.of_nat i), f.
    split; [done|]. split; [|done]. apply lookup_lt_Some in Hi as Hlt.
    unfold range. apply lookup_seqZ. unfold zlen. lia.
Qed.

Lemma rotation_NoDup idx files : NoDup files → NoDup (rotation idx files).
Proof.
  intros Hnd. unfold rotation. eapply sublist_NoDup; [exact Hnd|].
  transitivity (zip (range 0 (zlen files)) files).*2.
  - apply fmap_sublist, sublist_filter.
  - rewrite snd_zip; [done|]. pose proof (length_range 0 (zlen files)).
    pose proof (zlen_nonneg files). unfold zlen in *. lia.
Qed.

(** Four consecutive rotations take every file once. *)
Lemma rotations_partition fs (k : Z) :
  NoDup fs →
  fs ≡ₚ rotation k fs ++ rotation (k + 1) fs ++ rotation (k + 2) fs ++ rotation (k + 3) fs.
Proof.
  intros Hfs. symmetry. rewrite <-(Z.add_0_r k) at 1.
  assert (∀ f a b, f ∈ rotation a fs → f ∈ rotation b fs → a `mod` 4 = b `mod` 4)%Z as Hsame.
  { intros f a b (i & Hi & Ha)%rotation_lookup (j & Hj & Hb)%rotation_lookup.
    assert (i = j) as -> by (by eapply NoDup_lookup). congruence. }
  apply NoDup_Permutation; [|done|].
  - rewrite !NoDup_app. split_and!; try (by apply rotation_NoDup);
      intros f Hf; rewrite ?not_elem_of_app; repeat split; intros Hg;
      pose proof (Hsame f _ _ Hf Hg); Z.to_euclidean_division_equations; lia.
  - intros f. rewrite !elem_of_app, !rotation_lookup. split.
    + intros [H|[H|[H|H]]]; destruct H as (i & Hi & _); by eapply list_elem_of_lookup_2.
    + intros [i Hi]%list_elem_of_lookup.
      assert (∃ j, (j = 0 ∨ j = 1 ∨ j = 2 ∨ j = 3) ∧ Z.of_nat i `mod` 4 = (k + j) `mod` 4)%Z as (j & Hj & Hm).
      { exists ((Z.of_nat i - k) `mod` 4)%Z. pose proof (Z.mod_pos_bound (Z.of_nat i - k) 4).
        split; [lia|]. rewrite Zplus_mod_idemp_r. f_equal. lia. }
      destruct Hj as [-> |[-> |[-> | ->]]]; eauto 10.
Qed.

Section Split.
Context (sample : list string → Z → py (list string)) (potential : list string → list string).

(** C30: no leakage from the test networks.  Of the files of a directory, whose
    base names are distinct, the training set ([for_gen], [for_latency],
    [for_gen_best], without sampling) and the test set ([for_gen_eval_sketch],
    [for_gen_evaltuning_sketch]) are a partition: the test set is the files
    with a held-out base name, although the training set is obtained by
    removing files from the list that is being iterated. *)
Theorem hold_out_partition ttrain ttest listing hold_out bert idx train test :
  NoDup (basename <$> listing) →
  ttrain ∈ [FOR_GEN; FOR_LATENCY; FOR_GEN_BEST] →
  ttest ∈ [FOR_GEN_EVAL_SKETCH; FOR_GEN_EVALTUNING_SKETCH] →
  main_files sample potential ttrain listing hold_out bert None false idx = Ret train →
  main_files sample potential ttest listing hold_out bert None false idx = Ret test →
  listing ≡ₚ train ++ test ∧
  (∀ f, f ∈ test ↔ f ∈ listing ∧ basename f ∈ basename <$> hold_out) ∧
  (∀ f g, f ∈ train → g ∈ test → basename f ≠ basename g).
Proof.
  intros Hnd Htr Hte Htrain Htest.
  assert (train = not_held_out (sorted_set hold_out) (sort_strings listing)) as ->.
  { rewrite <-remove_hold_out_filter by by rewrite sort_strings_perm.
    repeat (apply elem_of_cons in Htr as [->|Htr]; [by injection Htrain|]). by apply not_elem_of_nil in Htr. }
  assert (test = held_out (sorted_set hold_out) (sort_strings listing)) as ->.
  { repeat (apply elem_of_cons in Hte as [->|Hte]; [by injection Htest|]). by apply not_elem_of_nil in Hte. }
  split; [|split].
  - unfold not_held_out, held_out. rewrite <-filter_split. by rewrite sort_strings_perm.
  - intros f. unfold held_out. rewrite list_elem_of_filter, sort_strings_perm, elem_of_sorted_set. tauto.
  - unfold not_held_out, held_out. intros f g [Hf _]%list_elem_of_filter [Hg _]%list_elem_of_filter.
    congruence.
Qed.

(** A round of [for_gen_train_sketch] takes a quarter of the training
    files, and any four rounds with consecutive indexes take each training file
    exactly once, whatever index the series starts from. *)
Theorem rotation_partition listing hold_out bert cnt sch (k : Z) r0 r1 r2 r3 :
  NoDup (basename <$> listing) →
  let round j := main_files sample potential FOR_GEN_TRAIN_SKETCH listing hold_out bert cnt sch (Some (k + j)%Z) in
  round 0%Z = Ret r0 → round 1%Z = Ret r1 → round 2%Z = Ret r2 → round 3%Z = Ret r3 →
  r0 ++ r1 ++ r2 ++ r3 ≡ₚ not_held_out hold_out listing.
Proof.
  intros Hnd round [= <-] [= <-] [= <-] [= <-].
  assert (not_held_out hold_out listing ≡ₚ not_held_out (sorted_set hold_out) (sort_strings listing)) as ->.
  { unfold not_held_out. rewrite sort_strings_perm. 
    rewrite (list_filter_iff _ (λ f, basename f ∉ basename <$> sorted_set hold_out)); [done|].
    intros f. by rewrite elem_of_sorted_set. }
  set (fs := not_held_out _ _).
  assert (NoDup fs) as Hfs.
  { eapply sublist_NoDup; [|apply sublist_filter]. rewrite sort_strings_perm. by eapply NoDup_fmap_1. }
  rewrite Z.add_0_r. symmetry. by apply rotations_partition.
Qed.
End Split.
