(* ===== verification/Measure.v ===== *)
(** * Generation, measurement and collection of programs

    File names, the dump of random programs, the generation of programs by the
    model, the division of the measurements over devices, and the collection of
    the measured records.
    Sources: src/gen/{common,dump_programs,gen_state,measure_programs,
    run_measure,postprocess}.py. *)

From S2P Require Import Prelude PyFloat PyText.

(** ** File names (common.py) *)

(** [clean_name] of the string form of its argument. *)
Definition clean_name (x : string) : string :=
  let x := str_replace " " "" x in
  let x := str_replace (String dquote EmptyString) "" x in
  str_replace (String squote EmptyString) "" x.

(** [str((workload_key, kind))]. *)
Definition task_key (workload_key kind : string) : string :=
  "(" +:+ repr_str workload_key +:+ ", " +:+ repr_str kind +:+ ")".

(** The loop of [register_data_path]: the last model stays when none matches. *)
Fixpoint find_model (model_list : list string) (model target_str : string) : string :=
  match model_list with
  | [] => model
  | m :: l => if str_contains m target_str then m else find_model l m target_str
  end.

Definition register_data_path (target_str : string) : py string :=
  let model := find_model ["i7"; "v100"; "a100"; "2080"; "None"] "None" target_str in
  let? _ := pyassert (bool_decide (model ≠ "None")) in Ret model.

Definition get_to_measure_filename (model : option string) (workload_key kind : string) : py string :=
  match model with
  | None => Raise AssertionError
  | Some m => Ret ("dataset/to_measure_programs/" +:+ m +:+ "/" +:+ clean_name (task_key workload_key kind)
                   +:+ ".json")
  end.

Definition get_measure_record_filename (model : option string) (workload_key kind : string) : py string :=
  match model with
  | None => Raise AssertionError
  | Some m => Ret ("dataset/measure_records/" +:+ m +:+ "/" +:+ clean_name (task_key workload_key kind)
                   +:+ ".json")
  end.

(** ** Random programs (dump_programs.py) *)

Section Dump.
(** The populations the search policy samples, round by round, and the string
    form of a state. *)
Context {State : Type} (population : nat → list State) (str : State → string).

(** The loop over a population: the set of string forms, and the states. *)
Fixpoint add_unique (states : list State) (all : list string * list State) : list string * list State :=
  match states with
  | [] => all
  | s :: states' =>
      let '(strs, l) := all in
      add_unique states' (if bool_decide (str s ∈ strs) then all else (strs ++ [str s], l ++ [s]))
  end.

(** The [while] loop of [dump_program], from round [n] on; the result is the
    list of states and the number of rounds. *)
Fixpoint dump_loop (fuel : nat) (size max_retry_iter retry_ct : Z) (n : nat)
    (all : list string * list State) : py (list State * nat) :=
  if bool_decide (zlen all.2 < size ∧ retry_ct < max_retry_iter)%Z then
    match fuel with
    | O => Raise RecursionError
    | S fuel' =>
        let ct_before := zlen all.2 in
        let all := add_unique (population n) all in
        if bool_decide (size ≤ zlen all.2)%Z then Ret (all.2, S n) else
        let retry_ct := if bool_decide (ct_before = zlen all.2)%Z then (retry_ct + 1)%Z else 0%Z in
        dump_loop fuel' size max_retry_iter retry_ct (S n) all
    end
  else Ret (all.2, n).

(** [dump_program]: the states written to the file, unless it exists. *)
Definition dump_program (fuel : nat) (exists_ : bool) (size max_retry_iter : Z) :
    py (option (list State)) :=
  if exists_ then Ret None
  else let? (l, _) := dump_loop fuel size max_retry_iter 0 0 ([], []) in Ret (Some l).
End Dump.

(** ** Equal parts (gen_state.py, run_measure.py) *)

(** [math.ceil(a / b)] of list lengths. *)
Definition ceil_div (a b : Z) : py Z :=
  if bool_decide (b = 0)%Z then Raise ZeroDivisionError else Ret (- ((- a) `div` b))%Z.

(** [l[i*n : (i+1)*n]] for each part [i]. *)
Definition parts {A} (n_part : Z) (l : list A) : py (list (list A)) :=
  let? part_len := ceil_div (zlen l) n_part in
  Ret ((λ i, pyslice l (i * part_len) ((i + 1) * part_len)) <$> range 0 n_part)%Z.

(** ** Programs from the model (gen_state.py) *)

Section Generate.
(** The states the policy generates with the model in a round, their JSON form,
    the measured programs, the error numbers of the builder, and
    [random.sample]. *)
Context {State : Type} (gen_states : nat → list State) (to_json : State → string)
  (check_measured : string → bool) (build : list State → list Z)
  (sample : list State → Z → list State).

(** The loop over the generated states: the new programs of the round. *)
Fixpoint new_inputs (allow_repeat : bool) (states : list State) (input_set : list string)
    (tmp : list State) : list string * list State :=
  match states with
  | [] => (input_set, tmp)
  | s :: states' =>
      let i_str := to_json s in
      if bool_decide (i_str ∈ input_set) then new_inputs allow_repeat states' input_set tmp
      else if negb allow_repeat && check_measured i_str then new_inputs allow_repeat states' input_set tmp
      else new_inputs allow_repeat states' (input_set ++ [i_str]) (tmp ++ [s])
  end.

(** The programs that build. *)
Definition built (is_build : bool) (tmp : list State) : list State :=
  if is_build then (filter (λ p, p.1 = 0%Z) (zip (build tmp) tmp)).*2 else tmp.

(** The [while retry_i < 5] loop; [retries] rounds are left. *)
Fixpoint gen_loop (retries : nat) (n : nat) (allow_repeat is_build : bool) (keep_cnt : Z)
    (input_set : list string) (measure_inputs : list State) : list State :=
  match retries with
  | O => measure_inputs
  | S retries' =>
      let '(input_set, tmp) := new_inputs allow_repeat (gen_states n) input_set [] in
      let measure_inputs := measure_inputs ++ built is_build tmp in
      if bool_decide (keep_cnt ≤ zlen measure_inputs)%Z then measure_inputs
      else gen_loop retries' (S n) allow_repeat is_build keep_cnt input_set measure_inputs
  end.

(** What [worker] saves for a workload; unpacking the empty sample raises. *)
Definition worker (allow_repeat is_build : bool) (keep_cnt : Z) : py (list State) :=
  let measure_inputs := gen_loop 5 0 allow_repeat is_build keep_cnt [] [] in
  if bool_decide (keep_cnt < zlen measure_inputs)%Z then
    if bool_decide (keep_cnt ≤ 0)%Z then Raise ValueError
    else Ret (sample measure_inputs keep_cnt)
  else Ret measure_inputs.
End Generate.

(** The grouping of the sketches by workload in [main], in order of first
    occurrence. *)
Definition group_add {A} (key : A → string) (d : list (string * list A)) (x : A) : list (string * list A) :=
  od_set d (key x) (default [] (od_get d (key x)) ++ [x]).

Definition group_by {A} (key : A → string) (l : list A) : list (string * list A) :=
  foldl (group_add key) [] l.

(** The share of every GPU. *)
Definition gpu_shares {A} (key : A → string) (num_gpus : Z) (inputs : list A) :
    py (list (list (string * list A))) := parts num_gpus (group_by key inputs).

(** ** Measurement (measure_programs.py) *)

(** The [repeat] of the LLVM measurer, by the flop count of the task. *)
Definition measure_repeat (flop_ct : flt) : Z :=
  if fleb (f_of_Z 2416443392) flop_ct then 4
  else if fleb (f_of_Z 834928640) flop_ct then 6
  else if fleb flop_ct (f_of_Z 2097152) then 10
  else 8.

(** [remeasure_file]: the batches given to the measurer. *)
Definition batches {A} (batch_size : Z) (inputs : list A) : py (list (list A)) :=
  if bool_decide (batch_size = 0)%Z then Raise ValueError
  else if bool_decide (batch_size < 0)%Z then Ret []
  else Ret ((λ i, pyslice inputs i (Z.min (zlen inputs) (i + batch_size))) <$>
            range_step 0 (zlen inputs) batch_size).

Section Measuring.
(** [json.loads], [json.dumps], the input of a record line and its workload
    key, and the record lines a measured batch adds to the log. *)
Context {Input : Type} (loads : string → py json) (dumps : json → string)
  (record_input : string → py Input) (workload_key : Input → string)
  (measure : list Input → list string).

(** [json.dumps(json.loads(line)['i'])]. *)
Definition input_str (line : string) : py string :=
  let? j := loads line in let? i := jkey "i" j in Ret (dumps i).

(** The lines that are not in the set of measured programs. *)
Fixpoint to_measure (measured : list string) (lines : list string) : py (list string) :=
  match lines with
  | [] => Ret []
  | line :: lines' =>
      if decide (line = "") then to_measure measured lines' else
      let? inp_str := input_str line in
      let? rest := to_measure measured lines' in
      Ret (if bool_decide (inp_str ∈ measured) then rest else line :: rest)
  end.

(** [main]; the state is the content of the measured file, which is emptied
    after its programs have been noted, before the new ones are selected. *)
Definition measure_main (batch_size : Z) (to_measure_content : string) : ST (option string) unit :=
  let! measured_content := sget in
  let! measured := slift (match measured_content with
                          | None => Ret []
                          | Some c => pymap input_str (read_lines c)
                          end) in
  let! _ := sput (Some "") in
  let! lines := slift (to_measure measured (read_lines to_measure_content)) in
  let! inputs := slift (pymap record_input lines) in
  sfor (group_by workload_key inputs) (λ '(_, records),
    let! bs := slift (batches batch_size records) in
    sfor bs (λ batch, smod (λ c, Some (default "" c +:+ write_lines (measure batch))))).
End Measuring.

(** ** Measuring in parts (run_measure.py) *)

Definition n_part : Z := 6.

(** [s[:-n]]. *)
Definition drop_last (n : nat) (s : string) : string := String.substring 0 (String.length s - n) s.

(** [f'{file}_part_{i}']. *)
Definition part_name (file : string) (i : Z) : string := file +:+ "_part_" +:+ pretty i.

(** The part files [divide_worker] writes for the lines of a file. *)
Definition divide (file : string) (lines : list string) : py (list (string * list string)) :=
  let? ps := parts n_part lines in
  Ret (zip (part_name file <$> range 0 n_part) ps).

(** The files of [measure_data/measured_part], and those of
    [measure_data/measured]. *)
Record measured_dirs := mkDirs {
  measured_part : list (string * list string);
  measured : list (string * list string)
}.

(** The part files next to [part_0]. *)
Definition merge_files (part_0 : string) : list string :=
  part_0 :: ((λ i, drop_last 1 part_0 +:+ pretty i) <$> range 1 n_part).

(** The body of the loop of [merge_worker]; [listing] is what [glob] returned
    at the start of the round. *)
Definition merge_file (listing : list string) (part_0 : string) : ST measured_dirs unit :=
  if str_contains "_part_0" part_0 then
    let files := merge_files part_0 in
    if forallb (λ f, bool_decide (f ∈ listing)) (tail files) then
      let! d := sget in
      let! lines := slift (pymap (λ f, match od_get (measured_part d) f with
                                       | Some l => Ret l
                                       | None => Raise IOError
                                       end) files) in
      let measured_file := basename (drop_last 7 part_0) in
      sput (mkDirs (foldl od_del (measured_part d) files)
                   (od_set (measured d) measured_file (concat lines)))
    else sret tt
  else sret tt.

(** One round of [merge_worker]. *)
Definition merge_worker : ST measured_dirs unit :=
  let! d := sget in
  let listing := od_keys (measured_part d) in
  sfor listing (merge_file listing).

(** ** Collection of the records (postprocess.py) *)

Section Postprocess.
Context (loads : string → py json) (dumps : json → string).

(** The workload key and the program of a line. *)
Definition line_program (line : string) : py (string * string) :=
  let? json_line := loads line in
  let? i := jkey "i" json_line in
  let? i0 := jidx 0 i in
  let? w := jidx 0 i0 in
  let? workload_key := as_string w in
  Ret (workload_key, dumps i).

(** [record_dic] and [measured_record_set]. *)
Abbreviation collected := (list (string * list string) * list string)%type.

Definition collect_line (line : string) (acc : collected) : py collected :=
  let '(record_dic, measured_record_set) := acc in
  let? (workload_key, i_str) := line_program line in
  let record_dic := if od_mem record_dic workload_key then record_dic
                    else od_set record_dic workload_key [] in
  Ret (if bool_decide (i_str ∈ measured_record_set) then (record_dic, measured_record_set)
       else (od_set record_dic workload_key (default [] (od_get record_dic workload_key) ++ [line]),
             measured_record_set ++ [i_str])).

Fixpoint collect (lines : list string) (acc : collected) : py collected :=
  match lines with
  | [] => Ret acc
  | line :: lines' => let? acc := collect_line line acc in collect lines' acc
  end.

(** [main]: the files of the records folder, emptied before, and the set saved
    for [check_measured]; [files] are the contents of the tuning files. *)
Definition postprocess (model kind : string) (files : list string) :
    py (list (string * string) * list string) :=
  let? (record_dic, measured_record_set) := collect (concat (read_lines <$> files)) ([], []) in
  let? folder := pymap (λ '(workload_key, lines),
    let? filename := get_measure_record_filename (Some model) workload_key kind in
    Ret (filename, write_lines lines)) record_dic in
  Ret (foldl (λ fs '(f, c), od_set fs f c) [] folder, measured_record_set).

(** [check_measured]; [saved] is the content of the saved file, and the state
    is the global [measured_pkl], which is loaded once. *)
Definition check_measured (saved : option (list string)) (i_str : string) :
    ST (option (list string)) bool :=
  let! measured_pkl := sget in
  match measured_pkl with
  | Some s => sret (bool_decide (i_str ∈ s))
  | None =>
      match saved with
      | None => sraise IOError
      | Some s => let! _ := sput (Some s) in sret (bool_decide (i_str ∈ s))
      end
  end.
End Postprocess.
