(* ===== verification/MeasureSpec.v ===== *)
(** * Generation, measurement and collection of programs: properties

    Division and merging, the loops that generate programs, what a measurement
    run does to the measured file, and the collected records. *)

From S2P Require Import Prelude PyFloat PyText Measure.

(** ** Slices *)

Lemma pyslice_nonneg {A} (l : list A) a b :
  (0 ≤ a ≤ b)%Z → pyslice l a b = take (Z.to_nat b - Z.to_nat a) (drop (Z.to_nat a) l).
Proof.
  intros H. unfold pyslice, slice_bound. rewrite !bool_decide_false by lia.
  unfold zlen. destruct (decide (a ≤ Z.of_nat (length l))%Z).
  - replace (Z.to_nat (Z.min a (Z.of_nat (length l)))) with (Z.to_nat a) by lia.
    destruct (decide (b ≤ Z.of_nat (length l))%Z).
    + f_equal. lia.
    + rewrite !take_ge by (rewrite length_drop; lia). done.
  - rewrite !drop_ge by lia. by rewrite !take_nil.
Qed.

Lemma concat_slices {A} (l : list A) (n : Z) (k : nat) :
  (0 ≤ n)%Z →
  concat ((λ i, pyslice l (i * n) ((i + 1) * n)) <$> range 0 (Z.of_nat k))%Z = take (k * Z.to_nat n) l.
Proof.
  intros Hn. induction k as [|k IH]; [done|].
  rewrite <-(range_app 0 (Z.of_nat k)) by lia. rewrite fmap_app, concat_app, IH.
  rewrite (range_cons (Z.of_nat k)), range_nil by lia. csimpl. rewrite app_nil_r.
  rewrite pyslice_nonneg by nia.
  replace (S k * Z.to_nat n) with (k * Z.to_nat n + Z.to_nat n) by lia.
  replace (Z.to_nat (Z.of_nat k * n)) with (k * Z.to_nat n) by lia.
  replace (Z.to_nat ((Z.of_nat k + 1) * n) - k * Z.to_nat n) with (Z.to_nat n) by lia.
  by rewrite take_take_drop, Nat.add_comm.
Qed.

Lemma parts_concat {A} (n : Z) (l : list A) :
  (0 < n)%Z → ∃ ps, parts n l = Ret ps ∧ concat ps = l ∧ zlen ps = n ∧
    ∀ p, p ∈ ps → (zlen p ≤ - ((- zlen l) `div` n))%Z.
Proof.
  intros Hn. unfold parts, ceil_div. rewrite bool_decide_false by lia. simpl.
  set (pl := (- ((- zlen l) `div` n))%Z).
  assert (zlen l ≤ n * pl)%Z as Hlen.
  { subst pl. pose proof (Z.mul_div_le (- zlen l) n Hn). lia. }
  pose proof (zlen_nonneg l). assert (0 ≤ pl)%Z by nia.
  eexists. split; [done|]. split; [|split].
  - replace n with (Z.of_nat (Z.to_nat n)) by lia. rewrite concat_slices by done.
    apply take_ge. unfold zlen in *. nia.
  - unfold zlen at 1. rewrite length_fmap, length_range by lia. lia.
  - intros p (i & -> & Hi)%list_elem_of_fmap. apply elem_of_range in Hi.
    rewrite pyslice_nonneg by nia. unfold zlen. rewrite length_take. lia.
Qed.

Lemma parts_zero {A} (l : list A) : parts 0 l = Raise ZeroDivisionError.
Proof. done. Qed.

(** The shares handed to the GPUs are one part per GPU, of at most
    [ceil(n / num_gpus)] workloads each, and together they are the workloads in
    their order: none is lost or generated twice.  Without a GPU the division
    raises. *)
Theorem gpu_shares_partition {A} (key : A → string) num_gpus inputs :
  gpu_shares key 0 inputs = Raise ZeroDivisionError ∧
  ((0 < num_gpus)%Z → ∃ shares,
     gpu_shares key num_gpus inputs = Ret shares ∧ concat shares = group_by key inputs ∧
     zlen shares = num_gpus ∧
     ∀ share, share ∈ shares → (zlen share ≤ - ((- zlen (group_by key inputs)) `div` num_gpus))%Z).
Proof. split; [apply parts_zero|]. intros Hn. by apply parts_concat. Qed.

(** ** Substrings of part names *)

Lemma strip_prefix_mem p s r c : strip_prefix p s = Some r → str_mem c p = true → str_mem c s = true.
Proof.
  revert s. induction p as [|a p IH]; intros [|b s]; simpl; try done.
  case_decide; [subst|done]. rewrite !orb_true_iff. intros Hs [Ha|Hp]; [by left|right; by eapply IH].
Qed.

Lemma str_mem_last q c : str_mem c (q +:+ String c "") = true.
Proof. rewrite str_mem_app. simpl. by rewrite bool_decide_true, orb_true_r. Qed.

Lemma strip_prefix_absent q c t :
  str_mem c t = false → strip_prefix (q +:+ String c "") t = None.
Proof.
  intros Hc. destruct (strip_prefix _ t) as [r|] eqn:E; [|done].
  pose proof (strip_prefix_mem _ _ _ c E (str_mem_last q c)). congruence.
Qed.

Lemma strip_prefix_app q c s t :
  str_mem c t = false → strip_prefix (q +:+ String c "") s = None →
  strip_prefix (q +:+ String c "") (s +:+ t) = None.
Proof.
  intros Hc. revert s. induction q as [|a q IH]; intros [|b s] H.
  - by apply strip_prefix_absent.
  - simpl in *. by case_decide.
  - by apply strip_prefix_absent.
  - simpl in *. case_decide; [|done]. by apply IH.
Qed.

Lemma str_contains_absent q c t :
  str_mem c t = false → str_contains (q +:+ String c "") t = false.
Proof.
  induction t as [|a t IH]; intros Hc.
  - unfold str_contains, startswith. by rewrite strip_prefix_absent.
  - cbn [str_contains]. unfold startswith. rewrite strip_prefix_absent by done.
    simpl in Hc. apply orb_false_iff in Hc as [_ Hc]. by apply IH.
Qed.

(** A needle does not occur across a suffix without its last character. *)
Lemma str_contains_app q c s t :
  str_mem c t = false → str_contains (q +:+ String c "") s = false →
  str_contains (q +:+ String c "") (s +:+ t) = false.
Proof.
  intros Hc. induction s as [|b s IH]; intros H; [by apply str_contains_absent|].
  change (String b s +:+ t) with (String b (s +:+ t)). cbn [str_contains] in *.
  apply orb_false_iff in H as [H1 H2]. rewrite IH, orb_false_r by done.
  unfold startswith in *. destruct (strip_prefix _ (String b s)) eqn:E; [done|].
  change (String b (s +:+ t)) with (String b s +:+ t). by rewrite strip_prefix_app.
Qed.

Lemma drop_last_app s t : drop_last (String.length t) (s +:+ t) = s.
Proof.
  unfold drop_last.
  rewrite length_append. replace (String.length s + String.length t - String.length t) with (String.length s) by lia.
  induction s as [|a s IH]; [by destruct t|].
  change (String a s +:+ t) with (String a (s +:+ t)). simpl. by rewrite IH.
Qed.

Lemma str_contains_self s t : str_contains t (s +:+ t) = true.
Proof.
  induction s as [|a s IH].
  - change ("" +:+ t) with t. destruct t as [|c t]; [done|]. cbn [str_contains]. apply orb_true_iff. left.
    unfold startswith. assert (∀ u, strip_prefix u u = Some "") as ->; [|done].
    induction u as [|b u IH]; [done|]. simpl. by rewrite decide_True.
  - change (String a s +:+ t) with (String a (s +:+ t)). cbn [str_contains]. by rewrite IH, orb_true_r.
Qed.

(** ** Merging *)

Lemma sfor_only {S} (l : list string) (body : string → ST S unit) (x : string) s s' :
  NoDup l → x ∈ l → (∀ y, y ∈ l → y ≠ x → ∀ s, body y s = (Ret tt, s)) →
  body x s = (Ret tt, s') → sfor l body s = (Ret tt, s').
Proof.
  intros Hnd Hx Hskip Hb. revert Hx. induction l as [|y l IH]; intros Hx; [by apply not_elem_of_nil in Hx|].
  apply NoDup_cons in Hnd as [Hy Hnd]. simpl. unfold sbind.
  destruct (decide (y = x)) as [->|Hne].
  - rewrite Hb. clear IH Hx Hb. induction l as [|z l IH]; [done|]. simpl. unfold sbind.
    rewrite Hskip by set_solver. apply NoDup_cons in Hnd as [_ Hnd]. apply IH; set_solver.
  - rewrite Hskip by set_solver. apply IH; set_solver.
Qed.

Lemma sfor_skip {S A} (l : list A) (body : A → ST S unit) s :
  (∀ y, y ∈ l → body y s = (Ret tt, s)) → sfor l body s = (Ret tt, s).
Proof.
  induction l as [|y l IH]; intros Hs; [done|]. simpl. unfold sbind.
  rewrite Hs by left. apply IH. set_solver.
Qed.

Lemma merge_file_skip listing f d :
  str_contains "_part_0" f = false → merge_file listing f d = (Ret tt, d).
Proof. intros Hf. unfold merge_file. by rewrite Hf. Qed.

Lemma concat_parts (m : list string → list string) (fs : list (string * list string)) names ps :
  (∀ a b, m (a ++ b) = m a ++ m b) → length names = length ps →
  (∀ f part, (f, part) ∈ zip names ps → od_get fs f = Some (m part)) →
  concat ((λ f, default [] (od_get fs f)) <$> names) = m (concat ps).
Proof.
  intros Hm. revert ps. induction names as [|f names IH]; intros [|p ps] Hlen Hparts; try done.
  - symmetry. apply (app_inv_head (m [])).
    change (m [] ++ m [] = m [] ++ []). rewrite <-Hm. by rewrite (app_nil_r (m [])).
  - rewrite fmap_cons. cbn [concat]. rewrite Hm, (Hparts f p) by (simpl; left). simpl. f_equal.
    apply IH; [simpl in Hlen; lia|]. intros g q Hg. apply Hparts. simpl. by right.
Qed.

Section Merge.
Context (file : string) (Hfile : str_contains "_part_0" file = false).

Lemma part_name_0 : part_name file 0 = (file +:+ "_part_") +:+ "0".
Proof. apply append_assoc. Qed.

Lemma contains_part_0 : str_contains "_part_0" (part_name file 0) = true.
Proof. apply (str_contains_self file "_part_0"). Qed.

Lemma contains_part_i i : (1 ≤ i < n_part)%Z → str_contains "_part_0" (part_name file i) = false.
Proof using Hfile.
  intros Hi. apply (str_contains_app "_part_" "0"); [|done].
  unfold n_part in Hi. assert (i = 1 ∨ i = 2 ∨ i = 3 ∨ i = 4 ∨ i = 5)%Z as H by lia.
  by destruct H as [->|[->|[->|[->| ->]]]].
Qed.

Lemma merge_files_part_0 : merge_files (part_name file 0) = part_name file <$> range 0 n_part.
Proof.
  unfold merge_files.
  assert (drop_last 1 (part_name file 0) = file +:+ "_part_") as -> by
    (rewrite part_name_0; apply (drop_last_app _ "0")).
  change (range 0 n_part) with (0%Z :: range 1 n_part). rewrite fmap_cons. f_equal.
  apply list_fmap_ext. intros i x _. symmetry. apply append_assoc.
Qed.

Lemma basename_part_0 : basename (drop_last 7 (part_name file 0)) = basename file.
Proof. f_equal. apply (drop_last_app file "_part_0"). Qed.

(** Dividing a file and merging the measured parts is measuring the file:
    once the six part files lie in the folder with the records [m part] of
    their lines, in whatever order and next to whatever files that are not
    first parts, a round of [merge_worker] writes the records of all lines in
    their original order, removes the six parts and nothing else.  While a part
    is missing the round changes nothing. *)
Theorem divide_merge_roundtrip (m : list string → list string) lines named d :
  (∀ a b, m (a ++ b) = m a ++ m b) →
  divide file lines = Ret named →
  NoDup (od_keys (measured_part d)) →
  (∀ f, f ∈ od_keys (measured_part d) → f ∉ named.*1 → str_contains "_part_0" f = false) →
  ((∀ f part, (f, part) ∈ named → od_get (measured_part d) f = Some (m part)) →
   ∃ d', merge_worker d = (Ret tt, d') ∧
     measured d' = od_set (measured d) (basename file) (m lines) ∧
     ∀ f, od_get (measured_part d') f =
          if decide (f ∈ named.*1) then None else od_get (measured_part d) f) ∧
  ((∃ i, (1 ≤ i < n_part)%Z ∧ part_name file i ∉ od_keys (measured_part d)) →
   merge_worker d = (Ret tt, d)).
Proof using Hfile.
  intros Hm Hdiv Hnd Hother. unfold divide in Hdiv.
  destruct (parts_concat n_part lines) as (ps & Hps & Hcat & Hlen & _); [done|].
  rewrite Hps in Hdiv.
  assert (named = zip (part_name file <$> range 0 n_part) ps) as -> by (unfold pbind in Hdiv; congruence).
  clear Hdiv. assert (length (part_name file <$> range 0 n_part) = length ps) as Hl.
  { rewrite length_fmap. unfold zlen in Hlen. apply Nat2Z.inj. by rewrite Hlen. }
  assert ((zip (part_name file <$> range 0 n_part) ps).*1 = part_name file <$> range 0 n_part) as Hkeys.
  { apply fst_zip. by rewrite Hl. }
  set (names := (zip _ ps).*1) in *. clearbody names. subst names.
  unfold merge_worker, sbind, sget.
  assert (∀ f, f ∈ od_keys (measured_part d) → f ≠ part_name file 0 →
    str_contains "_part_0" f = false) as Hno.
  { intros f Hf Hne. destruct (decide (f ∈ part_name file <$> range 0 n_part)) as [Hin|Hn]; [|by apply Hother].
    apply list_elem_of_fmap in Hin as (i & -> & Hi%elem_of_range). apply contains_part_i.
    destruct (decide (i = 0%Z)) as [->|]; [done|lia]. }
  split.
  - intros Hparts. set (keys := od_keys (measured_part d)) in *.
    assert (∀ i, i ∈ range 0 n_part → part_name file i ∈ keys) as Hin.
    { intros i Hi. destruct (list_elem_of_lookup_1 (part_name file <$> range 0 n_part) (part_name file i))
        as [k Hk]; [by apply list_elem_of_fmap_2|].
      destruct (lookup_lt_is_Some_2 ps k) as [p Hp]; [rewrite <-Hl; by eapply lookup_lt_Some|].
      eapply od_get_Some_key. apply Hparts with (part := p). apply list_elem_of_lookup_2 with k.
      apply lookup_zip_with_Some. eauto. }
    eexists. split; [apply (sfor_only keys _ (part_name file 0)); [done|by apply Hin, elem_of_range|..]|].
    + intros y Hy Hne s. apply merge_file_skip. by apply Hno.
    + unfold merge_file. rewrite contains_part_0, merge_files_part_0.
      rewrite (proj2 (forallb_forall _ _)).
      * unfold sbind, sget, slift. rewrite (pymap_total _ (λ f, default [] (od_get (measured_part d) f))).
        { done. }
        intros f (i & -> & Hi)%list_elem_of_fmap.
        destruct (od_get _ _) eqn:E; [done|]. apply od_get_None_key in E. by destruct (E (Hin i Hi)).
      * intros f Hf%list_elem_of_In. apply bool_decide_true.
        change (range 0 n_part) with (0%Z :: range 1 n_part) in Hf. rewrite fmap_cons in Hf.
        apply list_elem_of_fmap in Hf as (i & -> & Hi%elem_of_range). apply Hin, elem_of_range. lia.
    + cbn [measured measured_part]. split.
      * rewrite basename_part_0. f_equal. rewrite <-Hcat. by apply concat_parts.
      * intros f. by apply od_get_dels.
  - intros (i & Hi & Hmiss). apply sfor_skip. intros f Hf.
    destruct (decide (f = part_name file 0)) as [->|Hne]; [|by apply merge_file_skip, Hno].
    unfold merge_file. rewrite contains_part_0, merge_files_part_0.
    destruct (forallb _ _) eqn:E; [|done]. rewrite forallb_forall in E.
    specialize (E (part_name file i)). rewrite bool_decide_eq_true in E. destruct Hmiss. apply E.
    apply list_elem_of_In. change (range 0 n_part) with (0%Z :: range 1 n_part). rewrite fmap_cons.
    apply list_elem_of_fmap_2, elem_of_range. lia.
Qed.
End Merge.

(** ** Random programs *)

Section Dump.
Context {State : Type} (population : nat → list State) (str : State → string).

(** The set kept beside the list holds the string forms of its states. *)
Definition unique (all : list string * list State) : Prop :=
  all.1 = str <$> all.2 ∧ NoDup (str <$> all.2).

Lemma add_unique_spec states : ∀ all, unique all →
  unique (add_unique str states all) ∧
  (∃ new, (add_unique str states all).2 = all.2 ++ new ∧ ∀ s, s ∈ new → s ∈ states) ∧
  ∀ s, s ∈ states → str s ∈ str <$> (add_unique str states all).2.
Proof.
  induction states as [|x states IH]; intros [strs l] Hu; simpl.
  { split; [done|]. split; [exists []; rewrite app_nil_r; set_solver|set_solver]. }
  destruct Hu as [Hs Hnd]. simpl in Hs, Hnd. subst strs. case_bool_decide as Hx.
  - destruct (IH (str <$> l, l)) as (Hu & (new & Hnew & Hsub) & Hall); [done|].
    split; [done|]. split; [exists new; set_solver|]. intros s Hin.
    apply elem_of_cons in Hin as [->|Hin]; [|by apply Hall].
    rewrite Hnew. simpl. rewrite fmap_app. apply elem_of_app. by left.
  - destruct (IH ((str <$> l) ++ [str x], l ++ [x])) as (Hu & (new & Hnew & Hsub) & Hall).
    { split; simpl; rewrite fmap_app; [done|]. apply NoDup_app. split; [done|].
      split; [set_solver|apply NoDup_singleton]. }
    split; [done|]. split.
    + exists (x :: new). rewrite Hnew. simpl. rewrite <-app_assoc. set_solver.
    + intros s Hin. apply elem_of_cons in Hin as [->|Hin]; [|by apply Hall].
      rewrite Hnew. simpl. rewrite !fmap_app. set_solver.
Qed.

(** Nothing new came out of the rounds from [n - k] to [n - 1]. *)
Definition stale (l : list State) (k : Z) (n : nat) : Prop :=
  ∀ j s, (Z.of_nat n - k ≤ Z.of_nat j < Z.of_nat n)%Z → s ∈ population j → str s ∈ str <$> l.

Definition from_rounds (l : list State) (n : nat) : Prop :=
  ∀ s, s ∈ l → ∃ j, j < n ∧ s ∈ population j.

Lemma dump_loop_spec size mr : (0 ≤ mr)%Z → ∀ fuel retry n all,
  unique all → from_rounds all.2 n → stale all.2 retry n → (0 ≤ retry ≤ mr ∧ retry ≤ Z.of_nat n)%Z →
  (Z.max 0 (size - zlen all.2) * (mr + 1) + (mr - retry) ≤ Z.of_nat fuel)%Z →
  ∃ l k, dump_loop population str fuel size mr retry n all = Ret (l, k) ∧
    NoDup (str <$> l) ∧ from_rounds l k ∧
    ((size ≤ zlen l)%Z ∨ stale l mr k ∧ (mr ≤ Z.of_nat k)%Z).
Proof.
  intros Hmr fuel. induction fuel as [|fuel IH]; intros retry n all Hu Hfrom Hstale Hretry Hfuel; simpl;
    case_bool_decide as Hc.
  - exfalso. pose proof (zlen_nonneg all.2). nia.
  - exists all.2, n. split; [done|]. split; [apply Hu|]. split; [done|].
    destruct (decide (size ≤ zlen all.2)%Z); [by left|right].
    replace mr with retry by lia. split; [done|lia].
  - destruct (add_unique_spec (population n) all Hu) as (Hu' & (new & Hnew & Hsub) & Hall).
    set (all' := add_unique str (population n) all) in *.
    assert (from_rounds all'.2 (S n)) as Hfrom'.
    { intros s. rewrite Hnew, elem_of_app. intros [Hs|Hs]; [|exists n; auto].
      destruct (Hfrom s Hs) as (j & ? & ?). exists j. auto. }
    assert (zlen all'.2 = zlen all.2 + zlen new)%Z as Hz by by rewrite Hnew, zlen_app.
    case_bool_decide as Hd.
    { exists all'.2, (S n). split; [done|]. split; [apply Hu'|]. split; [done|by left]. }
    assert (∀ k, stale all.2 k n → stale all'.2 (k + 1) (S n)) as Hst.
    { intros k Hk j s Hj Hs. destruct (decide (j = n)) as [->|]; [by apply Hall|].
      rewrite Hnew, fmap_app, elem_of_app. left. apply (Hk j); [lia|done]. }
    pose proof (zlen_nonneg new). case_bool_decide as He.
    + apply IH; [done|done|by apply Hst|lia|]. nia.
    + apply IH; [done|done| |lia|].
      * intros j s Hj. lia.
      * assert (1 ≤ zlen new)%Z by lia. nia.
  - exists all.2, n. split; [done|]. split; [apply Hu|]. split; [done|].
    destruct (decide (size ≤ zlen all.2)%Z); [by left|right].
    replace mr with retry by lia. split; [done|lia].
Qed.

(** [dump_program] terminates within [size * (max_retry_iter + 1) +
    max_retry_iter] rounds whatever the policy samples, and what it writes are
    sampled states with pairwise distinct string forms: at least [size] of
    them, unless the last [max_retry_iter] populations had nothing new. *)
Theorem dump_program_spec fuel size max_retry_iter :
  (0 ≤ max_retry_iter)%Z →
  (Z.max 0 size * (max_retry_iter + 1) + max_retry_iter ≤ Z.of_nat fuel)%Z →
  ∃ l n, dump_program population str fuel false size max_retry_iter = Ret (Some l) ∧
    NoDup (str <$> l) ∧ from_rounds l n ∧
    ((size ≤ zlen l)%Z ∨ stale l max_retry_iter n ∧ (max_retry_iter ≤ Z.of_nat n)%Z).
Proof.
  intros Hmr Hfuel.
  destruct (dump_loop_spec size max_retry_iter Hmr fuel 0 0 ([], [])) as (l & n & Hl & Hrest).
  - by split; [|constructor].
  - intros s Hs. by apply not_elem_of_nil in Hs.
  - intros j s Hj. lia.
  - lia.
  - simpl. unfold zlen at 1. simpl. rewrite Z.sub_0_r. lia.
  - exists l, n. split; [|done]. unfold dump_program. by rewrite Hl.
Qed.
End Dump.

(** ** Programs from the model *)

Section Generate.
Context {State : Type} (gen_states : nat → list State) (to_json : State → string)
  (check_measured : string → bool) (build : list State → list Z)
  (sample : list State → Z → list State).

(** A state that a round before [n] generated and that may be saved. *)
Definition admissible (allow_repeat : bool) (n : nat) (s : State) : Prop :=
  (∃ j, j < n ∧ s ∈ gen_states j) ∧ (allow_repeat = false → check_measured (to_json s) = false).

Lemma new_inputs_spec rep states : ∀ set tmp,
  NoDup (to_json <$> tmp) → (∀ s, s ∈ to_json <$> tmp → s ∈ set) →
  let r := new_inputs to_json check_measured rep states set tmp in
  ∃ new, r.2 = tmp ++ new ∧ NoDup (to_json <$> r.2) ∧ (∀ x, x ∈ r.1 ↔ x ∈ set ∨ x ∈ to_json <$> new) ∧
    (∀ s, s ∈ new → s ∈ states ∧ (to_json s ∉ set) ∧
                    (rep = false → check_measured (to_json s) = false)).
Proof.
  induction states as [|x states IH]; intros set tmp Hnd Hin; simpl.
  { exists []. rewrite app_nil_r. set_solver. }
  case_bool_decide as Hx.
  { destruct (IH set tmp Hnd Hin) as (new & Hr & ? & ? & Hnew). exists new. split_and!; try done.
    intros s Hs. destruct (Hnew s Hs). split; [by right|done]. }
  destruct (negb rep && check_measured (to_json x)) eqn:Ec.
  { destruct (IH set tmp Hnd Hin) as (new & Hr & ? & ? & Hnew). exists new. split_and!; try done.
    intros s Hs. destruct (Hnew s Hs). split; [by right|done]. }
  destruct (IH (set ++ [to_json x]) (tmp ++ [x])) as (new & Hr & Hnd' & Hset & Hnew).
  - rewrite fmap_app. apply NoDup_app. split; [done|]. split; [|apply NoDup_singleton].
    intros y Hy. apply Hin in Hy. set_solver.
  - intros s. rewrite fmap_app. set_solver.
  - exists (x :: new). rewrite Hr. split; [by rewrite <-app_assoc|]. split; [by rewrite <-Hr|].
    split; [intros y; rewrite Hset; set_solver|].
    intros s Hs. apply elem_of_cons in Hs as [->|Hs].
    + split; [left|]. split; [done|]. intros ->. by destruct (check_measured (to_json x)).
    + destruct (Hnew s Hs) as (? & ? & ?). split; [by right|]. split; [set_solver|done].
Qed.

Lemma built_sublist is_build tmp : built build is_build tmp `sublist_of` tmp.
Proof.
  unfold built. destruct is_build; [|done].
  transitivity (zip (build tmp) tmp).*2; [apply fmap_sublist, sublist_filter|].
  generalize (build tmp). induction tmp as [|x tmp IH]; intros [|y l]; simpl; try done.
  - apply sublist_nil_l.
  - by apply sublist_skip.
Qed.

Lemma gen_loop_spec rep is_build keep retries : ∀ n set inputs,
  NoDup (to_json <$> inputs) → (∀ s, s ∈ to_json <$> inputs → s ∈ set) →
  (∀ s, s ∈ inputs → admissible rep n s) →
  let r := gen_loop gen_states to_json check_measured build retries n rep is_build keep set inputs in
  NoDup (to_json <$> r) ∧ ∀ s, s ∈ r → admissible rep (n + retries) s.
Proof.
  induction retries as [|retries IH]; intros n set inputs Hnd Hset Hadm; simpl.
  { split; [done|]. by rewrite Nat.add_0_r. }
  destruct (new_inputs_spec rep (gen_states n) set []) as (new & Hr & Hnd' & Hset' & Hnew);
    [constructor|set_solver|].
  destruct (new_inputs _ _ _ _ _ _) as [set' tmp]. simpl in *. subst tmp.
  pose proof (built_sublist is_build new) as Hb. set (b := built build is_build new) in *.
  assert (∀ s, s ∈ b → s ∈ new) as Hbn by (intros s Hs; by eapply sublist_subseteq).
  assert (NoDup (to_json <$> inputs ++ b)) as Hnd2.
  { rewrite fmap_app. apply NoDup_app. split; [done|]. split.
    - intros x Hx (s & -> & Hs)%list_elem_of_fmap. destruct (Hnew s (Hbn s Hs)) as (_ & Hn & _).
      by apply Hn, Hset.
    - eapply sublist_NoDup; [exact Hnd'|]. by apply fmap_sublist. }
  assert (∀ s, s ∈ inputs ++ b → admissible rep (S n) s) as Hadm2.
  { intros s [Hs|Hs]%elem_of_app.
    - destruct (Hadm s Hs) as [(j & ? & ?) ?]. split; [exists j; auto|done].
    - destruct (Hnew s (Hbn s Hs)) as (? & _ & ?). split; [exists n; auto|done]. }
  case_bool_decide.
  - split; [done|]. intros s Hs. destruct (Hadm2 s Hs) as [(j & ? & ?) ?]. split; [exists j; auto with lia|done].
  - replace (n + S retries) with (S n + retries) by lia. apply IH; [done| |done].
    intros x. rewrite fmap_app, elem_of_app, Hset'. intros [Hx|(s & -> & Hs)%list_elem_of_fmap]; [auto|].
    right. apply list_elem_of_fmap_2. auto.
Qed.

(** For a positive [keep_cnt] the generation worker never fails on a
    workload and, after at most five rounds of the policy, saves at most
    [keep_cnt] programs, pairwise distinct, each generated in one of these
    rounds, and, unless repeats are allowed, none of them measured before. *)
Theorem worker_spec allow_repeat is_build keep_cnt :
  (0 < keep_cnt)%Z →
  (∀ l k, (0 ≤ k ≤ zlen l)%Z → zlen (sample l k) = k ∧ sample l k ⊆+ l) →
  ∃ l, worker gen_states to_json check_measured build sample allow_repeat is_build keep_cnt = Ret l ∧
    NoDup (to_json <$> l) ∧ (zlen l ≤ keep_cnt)%Z ∧ ∀ s, s ∈ l → admissible allow_repeat 5 s.
Proof.
  intros Hk Hsample. unfold worker.
  destruct (gen_loop_spec allow_repeat is_build keep_cnt 5 0 [] []) as [Hnd Hadm];
    [constructor|set_solver|set_solver|].
  set (r := gen_loop _ _ _ _ _ _ _ _ _ _ _) in *. case_bool_decide as Hlen; [|exists r; split_and!; auto with lia].
  rewrite bool_decide_false by lia. destruct (Hsample r keep_cnt) as [Hs Hsub]; [lia|].
  exists (sample r keep_cnt). split; [done|]. split; [|split; [lia|]].
  - apply submseteq_Permutation in Hsub as [k Hp]. rewrite Hp, fmap_app, NoDup_app in Hnd.
    by destruct Hnd.
  - intros s Hs'. apply Hadm. by eapply elem_of_submseteq.
Qed.
End Generate.

(** ** Grouping and batches *)

Section Groups.
Context {A : Type} (key : A → string).

Lemma group_by_snoc l x : group_by key (l ++ [x]) = group_add key (group_by key l) x.
Proof. unfold group_by. by rewrite foldl_app. Qed.

Lemma od_set_concat_perm {K} `{EqDecision K} (d : list (K * list A)) k x :
  concat (od_vals (od_set d k (default [] (od_get d k) ++ [x]))) ≡ₚ concat (od_vals d) ++ [x].
Proof.
  unfold od_vals. induction d as [|[k' l] d IH]; csimpl; [done|]. case_decide; csimpl.
  - rewrite <-!app_assoc. apply Permutation_app_head. apply Permutation_app_comm.
  - by rewrite IH, app_assoc.
Qed.

(** Grouping loses nothing and invents nothing. *)
Lemma group_by_perm l : concat (od_vals (group_by key l)) ≡ₚ l.
Proof.
  induction l as [|x l IH] using rev_ind; [done|].
  rewrite group_by_snoc. unfold group_add. by rewrite od_set_concat_perm, IH.
Qed.

Lemma group_by_keys l : NoDup (od_keys (group_by key l)).
Proof.
  induction l as [|x l IH] using rev_ind; [constructor|]. rewrite group_by_snoc. by apply od_set_NoDup.
Qed.

(** A group is the elements with its key, in order. *)
Lemma group_by_get l k : default [] (od_get (group_by key l) k) = filter (λ x, key x = k) l.
Proof.
  induction l as [|x l IH] using rev_ind; [done|].
  rewrite group_by_snoc, filter_app. unfold group_add. rewrite od_get_set. case_decide as Hk.
  - subst k. simpl. rewrite IH, filter_cons_True by done. done.
  - rewrite IH. rewrite filter_cons_False by done. by rewrite app_nil_r.
Qed.
End Groups.

Lemma batches_spec {A} (b : Z) (l : list A) :
  (0 < b)%Z → ∃ bs, batches b l = Ret bs ∧ concat bs = l ∧ ∀ x, x ∈ bs → (0 < zlen x ≤ b)%Z.
Proof.
  intros Hb. unfold batches. rewrite !bool_decide_false by lia. eexists. split; [done|].
  unfold range_step. rewrite <-list_fmap_compose.
  set (n := ((zlen l - 0 + b - 1) `div` b)%Z).
  pose proof (zlen_nonneg l) as Hl.
  assert (zlen l ≤ n * b ∧ (n - 1) * b < zlen l ∨ n = 0 ∧ zlen l = 0)%Z as Hn.
  { subst n. Z.to_euclidean_division_equations. nia. }
  assert (0 ≤ n)%Z by (subst n; apply Z.div_pos; lia).
  assert (∀ k, k ∈ seqZ 0 n → pyslice l (0 + b * k) (Z.min (zlen l) (0 + b * k + b)) =
    pyslice l (k * b) ((k + 1) * b))%Z as Hs.
  { intros k Hk%elem_of_seqZ. unfold pyslice, slice_bound. rewrite !bool_decide_false by nia.
    f_equal; [f_equal; f_equal; lia|f_equal; f_equal; lia]. }
  split.
  - rewrite (list_fmap_ext _ (λ k, pyslice l (k * b) ((k + 1) * b))%Z).
    + assert (seqZ 0 n = range 0 (Z.of_nat (Z.to_nat n))) as -> by (unfold range; f_equal; lia).
      rewrite (concat_slices l b (Z.to_nat n)) by lia. apply take_ge. unfold zlen in *. nia.
    + intros i k Hk%list_elem_of_lookup_2. by apply Hs.
  - intros x (k & -> & Hk)%list_elem_of_fmap. unfold compose. rewrite Hs by done.
    apply elem_of_seqZ in Hk. rewrite pyslice_nonneg by nia.
    unfold zlen in *. rewrite length_take, length_drop. nia.
Qed.

(** ** A measurement run *)

Lemma write_lines_app l k : write_lines (l ++ k) = write_lines l +:+ write_lines k.
Proof.
  induction l as [|x l IH]; [done|]. simpl. rewrite IH.
  change (x +:+ String newline (write_lines l +:+ write_lines k)) with
    (x +:+ (String newline (write_lines l) +:+ write_lines k)). apply append_assoc.
Qed.

Section Measuring.
Context {Input : Type} (loads : string → py json) (dumps : json → string)
  (record_input : string → py Input) (workload_key : Input → string)
  (measure : list Input → list string).

Lemma to_measure_spec known lines r :
  to_measure loads dumps known lines = Ret r →
  r `sublist_of` lines ∧
  ∀ line, line ∈ lines →
    (line ∈ r ↔ line ≠ "" ∧ ∃ s, input_str loads dumps line = Ret s ∧ s ∉ known).
Proof.
  revert r. induction lines as [|line lines IH]; intros r Hr; simpl in Hr.
  { injection Hr as <-. set_solver. }
  case_decide as He.
  { destruct (IH r Hr) as [Hsub Hin]. split; [by apply sublist_cons|].
    intros x Hx. destruct (decide (x ∈ lines)) as [|Hn]; [by apply Hin|].
    apply elem_of_cons in Hx as [->|]; [|done]. split; [|by intros []].
    intros Hx. destruct Hn. by eapply sublist_subseteq. }
  destruct (input_str loads dumps line) as [s|] eqn:Es; simpl in Hr; [|done].
  destruct (to_measure _ _ known lines) as [rest|] eqn:Er; simpl in Hr; [|done].
  injection Hr as <-. destruct (IH rest eq_refl) as [Hsub Hin]. case_bool_decide as Hk.
  - split; [by apply sublist_cons|]. intros x Hx.
    destruct (decide (x ∈ lines)) as [|Hn]; [by apply Hin|].
    apply elem_of_cons in Hx as [->|]; [|done]. split.
    + intros Hx. destruct Hn. by eapply sublist_subseteq.
    + intros (_ & s' & Hs' & ?). congruence.
  - split; [by apply sublist_skip|]. intros x Hx.
    destruct (decide (x = line)) as [->|Hne]; [split; [eauto|left]|].
    apply elem_of_cons in Hx as [|Hx]; [done|]. rewrite <-Hin by done. set_solver.
Qed.

Lemma run_batches bs c :
  (∀ a b, measure (a ++ b) = measure a ++ measure b) →
  sfor bs (λ batch, smod (λ c, Some (default "" c +:+ write_lines (measure batch)))) (Some c) =
  (Ret tt, Some (c +:+ write_lines (measure (concat bs)))).
Proof.
  intros Hm. assert (measure [] = []) as H0.
  { apply (app_inv_head (measure [])). rewrite <-Hm. by rewrite (app_nil_r (measure [])). }
  revert c. induction bs as [|b bs IH]; intros c; simpl.
  - rewrite H0. simpl. unfold sret. do 2 f_equal. induction c as [|x c IHc]; [done|].
    change (String x c +:+ "") with (String x (c +:+ "")). by rewrite <-IHc.
  - unfold sbind, smod. simpl. unfold smod in IH. rewrite IH. rewrite Hm, write_lines_app. by rewrite append_assoc.
Qed.

(** A measurement run measures each program of the input file that is not
    in the measured file exactly once (a line repeated in the input file as
    often as it occurs), workload by workload and in batches of at most the batch size,
    and leaves in the measured file the records of these programs only: the
    records it held before are gone.  When the measured file exists but is
    empty, as after a run that had nothing to measure, the next run fails. *)
Theorem measure_main_spec batch_size content file known lines inputs :
  (0 < batch_size)%Z →
  (∀ a b, measure (a ++ b) = measure a ++ measure b) →
  match file with None => known = [] | Some c => pymap (input_str loads dumps) (read_lines c) = Ret known end →
  to_measure loads dumps known (read_lines content) = Ret lines →
  pymap record_input lines = Ret inputs →
  measure_main loads dumps record_input workload_key measure batch_size content file =
    (Ret tt, Some (write_lines (measure (concat (od_vals (group_by workload_key inputs)))))) ∧
  concat (od_vals (group_by workload_key inputs)) ≡ₚ inputs ∧
  (∀ line, line ∈ read_lines content →
     (line ∈ lines ↔ line ≠ "" ∧ ∃ s, input_str loads dumps line = Ret s ∧ s ∉ known)) ∧
  (∀ e, loads "" = Raise e →
     measure_main loads dumps record_input workload_key measure batch_size content (Some "") =
     (Raise e, Some "")).
Proof.
  intros Hb Hm Hknown Hlines Hinputs. split; [|split; [|split]].
  - unfold measure_main, sbind, sget, slift, sput.
    assert ((match file with None => Ret [] | Some c => pymap (input_str loads dumps) (read_lines c) end)
            = Ret known) as -> by (destruct file; congruence).
    rewrite Hlines, Hinputs. clear Hlines Hinputs Hknown.
    assert (∀ (d : list (string * list Input)) c, sfor d (λ '(_, records), sbind (slift (batches batch_size records)) (λ bs,
        sfor bs (λ batch, smod (λ c, Some (default "" c +:+ write_lines (measure batch)))))) (Some c) =
      (Ret tt, Some (c +:+ write_lines (measure (concat (od_vals d)))))) as Hrun; [|apply (Hrun _ "")].
    intros d. induction d as [|[k l] d IH]; intros c.
    + apply (run_batches [] c Hm).
    + destruct (batches_spec batch_size l Hb) as (bs & Hbs & Hcat & _). simpl. unfold sbind at 1 2, slift. rewrite Hbs. rewrite run_batches by done. rewrite Hcat, IH. unfold od_vals. csimpl.
      rewrite Hm, write_lines_app. by rewrite append_assoc.
  - apply group_by_perm.
  - by apply to_measure_spec.
  - intros e He. unfold measure_main, sbind, sget, slift. simpl. unfold input_str at 1. by rewrite He.
Qed.
End Measuring.

(** ** Collected records *)

Section Postprocess.
Context (loads : string → py json) (dumps : json → string).

(** The workload key and the program of a line that parses. *)
Definition key_of (line : string) : string :=
  match line_program loads dumps line with Ret (k, _) => k | _ => "" end.
Definition prog_of (line : string) : string :=
  match line_program loads dumps line with Ret (_, p) => p | _ => "" end.

Record collect_inv (seen : list string) (acc : list (string * list string) * list string) : Prop := {
  ci_keys : NoDup (od_keys acc.1);
  ci_key k : k ∈ od_keys acc.1 ↔ k ∈ key_of <$> seen;
  ci_recs k recs : od_get acc.1 k = Some recs →
    recs `sublist_of` seen ∧ ∀ line, line ∈ recs → key_of line = k;
  ci_set : acc.2 ≡ₚ prog_of <$> concat (od_vals acc.1);
  ci_nodup : NoDup acc.2;
  ci_all line : line ∈ seen → prog_of line ∈ acc.2
}.

Lemma od_set_same_vals {A} (d : list (string * list A)) k :
  concat (od_vals (if od_mem d k then d else od_set d k [])) = concat (od_vals d).
Proof.
  unfold od_mem. destruct (od_get d k) eqn:E; [done|]. revert E. unfold od_vals.
  induction d as [|[k' l] d IH]; csimpl; [done|]. case_decide; [done|]. intros E. csimpl. by rewrite IH.
Qed.

Lemma collect_line_inv seen line acc acc' :
  collect_inv seen acc → collect_line loads dumps line acc = Ret acc' →
  collect_inv (seen ++ [line]) acc'.
Proof.
  intros [Hkeys Hkey Hrecs Hset Hnd Hall] Hc. destruct acc as [dic set]. unfold collect_line in Hc.
  destruct (line_program loads dumps line) as [[wk s]|] eqn:El; simpl in Hc; [|done].
  assert (key_of line = wk ∧ prog_of line = s) as [Hwk Hs] by (unfold key_of, prog_of; by rewrite El).
  simpl in *. pose proof (od_set_same_vals dic wk) as Hvals.
  set (dic1 := if od_mem dic wk then dic else od_set dic wk []) in *.
  assert (NoDup (od_keys dic1)) as Hnd1 by (subst dic1; destruct (od_mem dic wk); eauto with pydb).
  assert (∀ k, k ∈ od_keys dic1 ↔ k ∈ key_of <$> seen ++ [line]) as Hkey1.
  { intros k. rewrite fmap_app, elem_of_app, <-Hkey. csimpl. rewrite list_elem_of_singleton, Hwk.
    subst dic1. destruct (od_mem dic wk) eqn:Em.
    - apply od_mem_true in Em. naive_solver.
    - rewrite od_keys_set, Em, elem_of_app, list_elem_of_singleton. done. }
  assert (∀ k recs, od_get dic1 k = Some recs →
    recs `sublist_of` seen ∧ ∀ line, line ∈ recs → key_of line = k) as Hrecs1.
  { clear Hc. intros k recs. subst dic1. destruct (od_mem dic wk); [apply Hrecs|]. rewrite od_get_set.
    case_decide; [|apply Hrecs]. intros [= <-]. split; [apply sublist_nil_l|set_solver]. }
  case_bool_decide as Hin; injection Hc as <-; split; simpl.
  - done.
  - done.
  - intros k recs Hg. destruct (Hrecs1 k recs Hg). split; [by apply sublist_inserts_r|done].
  - by rewrite Hvals.
  - done.
  - intros l [Hl|Hl]%elem_of_app; [by apply Hall|]. apply list_elem_of_singleton in Hl as ->. by rewrite Hs.
  - by apply od_set_NoDup.
  - intros k. rewrite od_keys_set. assert (od_mem dic1 wk = true) as ->; [|done].
    apply od_mem_true, Hkey1. rewrite fmap_app. set_solver.
  - intros k recs. rewrite od_get_set. case_decide as Hk; [subst k|].
    + intros [= <-]. destruct (od_get dic1 wk) as [recs|] eqn:Eg; simpl.
      * destruct (Hrecs1 _ _ Eg) as [Hsub Hl]. split; [by apply sublist_app|]. set_solver.
      * split; [by apply sublist_inserts_l|set_solver].
    + intros Hg. destruct (Hrecs1 k recs Hg). split; [by apply sublist_inserts_r|done].
  - rewrite od_set_concat_perm, Hvals, fmap_app, <-Hset. csimpl. by rewrite Hs.
  - apply NoDup_app. split; [done|]. split; [set_solver|apply NoDup_singleton].
  - intros l [Hl|Hl]%elem_of_app; apply elem_of_app; [left; by apply Hall|right].
    apply list_elem_of_singleton in Hl as ->. rewrite Hs. by left.
Qed.

Lemma collect_inv_loop lines : ∀ seen acc acc',
  collect_inv seen acc → collect loads dumps lines acc = Ret acc' → collect_inv (seen ++ lines) acc'.
Proof.
  induction lines as [|line lines IH]; intros seen acc acc' Hinv Hc; simpl in Hc.
  - injection Hc as <-. by rewrite app_nil_r.
  - destruct (collect_line _ _ line acc) as [acc1|] eqn:E; [|done]. simpl in Hc.
    rewrite (cons_middle line seen lines), app_assoc. eapply IH; [|done]. by eapply collect_line_inv.
Qed.

Lemma od_get_write (folder : list (string * string)) : ∀ fs f c,
  NoDup folder.*1 → (f, c) ∈ folder → od_get (foldl (λ fs '(f, c), od_set fs f c) fs folder) f = Some c.
Proof.
  induction folder as [|[g b] folder IH]; intros fs f c Hnd Hin; [by apply not_elem_of_nil in Hin|].
  csimpl in Hnd. apply NoDup_cons in Hnd as [Hg Hnd]. simpl.
  apply elem_of_cons in Hin as [[= <- <-]|Hin]; [|by apply IH].
  clear IH. assert (∀ fs, od_get fs f = Some c →
    od_get (foldl (λ fs '(f, c), od_set fs f c) fs folder) f = Some c) as H;
    [|by apply H, od_get_set_eq].
  clear -Hg. induction folder as [|[h b] folder IH]; intros fs Hf; [done|]. csimpl in Hg.
  simpl. apply IH; [set_solver|]. rewrite od_get_set_ne by set_solver. done.
Qed.

Definition record_path (model c : string) : string :=
  "dataset/measure_records/" +:+ model +:+ "/" +:+ c +:+ ".json".

#[local] Instance record_path_inj model : Inj (=) (=) (record_path model).
Proof.
  intros c1 c2 H. unfold record_path in H. do 3 apply (inj (String.append _)) in H.
  rewrite <-(drop_last_app c1 ".json"), <-(drop_last_app c2 ".json"). by rewrite H.
Qed.

(** C32: what [postprocess] collects: every program of the tuning files is
    recorded exactly once, under the workload key of its line and in the order
    of the files; the set kept for [check_measured] is exactly the programs of
    the files; and when the keys have distinct file names, each file of the
    records folder holds the records of its key. *)
Theorem postprocess_spec model kind files folder measured_set :
  postprocess loads dumps model kind files = Ret (folder, measured_set) →
  let lines := concat (read_lines <$> files) in
  ∃ record_dic,
    NoDup (od_keys record_dic) ∧
    (∀ k, k ∈ od_keys record_dic ↔ k ∈ key_of <$> lines) ∧
    (∀ k recs, od_get record_dic k = Some recs →
       recs `sublist_of` lines ∧ ∀ line, line ∈ recs → key_of line = k) ∧
    NoDup (prog_of <$> concat (od_vals record_dic)) ∧
    (∀ p, p ∈ prog_of <$> concat (od_vals record_dic) ↔ p ∈ prog_of <$> lines) ∧
    (∀ p, check_measured (Some measured_set) p None =
          (Ret (bool_decide (p ∈ prog_of <$> lines)), Some measured_set)) ∧
    (NoDup ((λ k, clean_name (task_key k kind)) <$> od_keys record_dic) →
     ∀ k recs name, od_get record_dic k = Some recs →
       get_measure_record_filename (Some model) k kind = Ret name →
       od_get folder name = Some (write_lines recs)).
Proof.
  intros Hp lines. unfold postprocess in Hp. fold lines in Hp.
  destruct (collect loads dumps lines ([], [])) as [[dic set]|] eqn:Ec; simpl in Hp; [|done].
  destruct (pymap _ dic) as [rows|] eqn:Er; simpl in Hp; [|done]. injection Hp as <- <-.
  destruct (collect_inv_loop lines [] ([], []) (dic, set)) as [Hkeys Hkey Hrecs Hset Hnd Hall]; [|done|].
  { split; simpl; try set_solver. all: constructor. }
  simpl in *. exists dic.
  assert (∀ p, p ∈ prog_of <$> concat (od_vals dic) ↔ p ∈ prog_of <$> lines) as Hprogs.
  { intros p. rewrite !list_elem_of_fmap. split.
    - intros (l & -> & Hl). exists l. split; [done|]. apply list_elem_of_concat in Hl as (recs & Hl & Hr).
      unfold od_vals in Hr. apply list_elem_of_fmap in Hr as ([k recs'] & -> & Hr).
      apply od_elem_get in Hr; [|done]. destruct (Hrecs k recs' Hr) as [Hsub _]. by eapply sublist_subseteq.
    - intros (l & -> & Hl). apply Hall in Hl. rewrite Hset in Hl. by apply list_elem_of_fmap in Hl. }
  split_and!; try done.
  - by rewrite <-Hset.
  - intros p. unfold check_measured, sbind, sget, sput, sret. simpl. do 2 f_equal.
    apply bool_decide_ext. by rewrite <-Hprogs, Hset.
  - intros Hnames k recs name Hg Hn. apply od_get_write.
    + assert (rows.*1 = (λ k, record_path model (clean_name (task_key k kind))) <$> od_keys dic) as ->.
      { clear -Er. apply pymap_Ret in Er. unfold od_keys. induction Er as [|[k l] y d rows Hy _ IH]; [done|].
        simpl in Hy. injection Hy as <-. csimpl. by rewrite IH. }
      rewrite (list_fmap_compose (λ k, clean_name (task_key k kind)) (record_path model)).
      by apply (NoDup_fmap_2 _).
    + apply od_get_elem in Hg. destruct (pymap_elem_inv _ _ _ _ Er Hg) as (y & Hy & Hf).
      simpl in Hf, Hn. injection Hf as <-. by injection Hn as <-.
Qed.
End Postprocess.

