(* ===== verification/Farm.v ===== *)
(** * The measurement farm

    The processes of run_measure.py as a transition system on the directories
    they share: the divider, one worker per GPU, the merger, and a restart of
    the script.  A file is written and a merge made in one action, and a
    measuring process that has started appends records until it ends: a kill or
    a crash in the middle is not modelled.
    Source: src/gen/run_measure.py, with the measuring process of
    src/gen/measure_programs.py. *)

From S2P Require Import Prelude PyFloat PyText Corpus Measure.

(** ** Names *)

(** [s.endswith(p)]. *)
Fixpoint str_ends (p s : string) : bool :=
  bool_decide (s = p) || match s with EmptyString => false | String _ s' => str_ends p s' end.

(** The patterns [*.json] and [*.json_part_*]. *)
Definition is_json (name : string) : bool := str_ends ".json" name.
Definition is_part (name : string) : bool := str_contains ".json_part_" name.

(** [for file in l: if '_part_' in file: l.remove(file)], which skips the
    element after a removed one. *)
Fixpoint drop_parts (fuel i : nat) (l : list string) : list string :=
  match fuel with
  | O => l
  | S fuel' =>
      match l !! i with
      | None => l
      | Some file =>
          drop_parts fuel' (S i) (if str_contains "_part_" file then remove1 file l else l)
      end
  end.

(** ** State *)

Section Farm.
(** The parameters of [measure_main]. *)
Context {Input : Type} (loads : string → py json) (dumps : json → string)
  (record_input : string → py Input) (workload_key : Input → string)
  (measure : list Input → list string).

(** Where a worker is: before [glob], before the [mv] of the part it chose,
    before the start of the measuring process, in it with the inputs left,
    after it, and after the [rm] of the part. *)
Inductive worker_pc :=
  | Idle
  | Chosen (part : string)
  | Measuring (part : string)
  | Running (part : string) (rest : list Input)
  | Finished (part : string)
  | Removed (part : string).

(** A directory maps names to lines; [gpu_dirs] holds the directories
    [to_measure_{gpu_id}].  [divider] is the file being divided with the parts
    left to write, [merger] the listing of the round and the names left. *)
Record farm := mkFarm {
  to_measure_dir : list (string * list string);
  to_measure_bak : list (string * list string);
  gpu_dirs : list ((nat * string) * list string);
  measured_tmp : list (string * list string);
  dirs : measured_dirs;
  divider : option (string * list (string * list string));
  workers : list worker_pc;
  merger : list string * list string
}.

Definition farm_init (files : list (string * list string)) (n : nat) : farm :=
  mkFarm files [] [] [] (mkDirs [] []) None (replicate n Idle) ([], []).

(** ** The measuring process *)

(** The inputs [measure_programs.py] measures, from the records in the measured
    file and the lines of the part. *)
Definition known_programs (existing : option (list string)) : py (list string) :=
  match existing with
  | None => Ret []
  | Some old => pymap (input_str loads dumps) (read_lines (write_lines old))
  end.

Definition selected (known : list string) (lines : list string) : py (list Input) :=
  let? lines := to_measure loads dumps known (read_lines (write_lines lines)) in
  let? inputs := pymap record_input lines in
  Ret (concat (od_vals (group_by workload_key inputs))).

(** The start of the process: what it leaves in the measured file, and the
    inputs it goes on to measure unless it fails. *)
Definition start (existing part : option (list string)) : option (list string) * option (list Input) :=
  match known_programs existing, part with
  | Ret known, Some lines =>
      (Some [], match selected known lines with Ret inputs => Some inputs | Raise _ => None end)
  | _, _ => (existing, None)
  end.

(** ** Actions *)

Inductive action :=
  | DivideStart | DivideWrite | DivideEnd
  | Choose (g : nat) | Take (g : nat) | Start (g : nat) | Append (g k : nat) | End (g : nat)
  | Remove (g : nat) | Deliver (g : nat)
  | Glob | Visit
  | Restart.

Definition set_worker (g : nat) (pc : worker_pc) (w : farm) : farm :=
  mkFarm (to_measure_dir w) (to_measure_bak w) (gpu_dirs w) (measured_tmp w) (dirs w) (divider w)
    (<[g := pc]> (workers w)) (merger w).

(** [glob] and [sort] of the directory, and the first name. *)
Definition first_json (names : list string) : option string :=
  let l := filter (λ f, is_json f = true) names in
  head (sort_strings (drop_parts (length l) 0 l)).
Definition first_part (names : list string) : option string :=
  head (sort_strings (filter (λ f, is_part f = true) names)).

(** [od_set] or [od_del]. *)
Definition od_put {K V} `{EqDecision K} (k : K) (v : option V) (d : list (K * V)) : list (K * V) :=
  match v with Some v => od_set d k v | None => d end.

(** A worker's action; [None] where it is not at that point. *)
Definition worker_act (a : action) (g : nat) (pc : worker_pc) (w : farm) : option farm :=
  let '(mkFarm dir bak gpu tmp ds div ws mg) := w in
  match a, pc with
  | Choose _, Idle =>
      match first_part (od_keys dir) with
      | Some p => Some (set_worker g (Chosen p) w)
      | None => None
      end
  | Take _, Chosen p =>
      let w' := match od_get dir p with
                | Some lines => mkFarm (od_del dir p) bak (od_set gpu (g, p) lines) tmp ds div ws mg
                | None => w
                end in
      Some (set_worker g (Measuring p) w')
  | Start _, Measuring p =>
      let '(content, inputs) := start (od_get tmp p) (od_get gpu (g, p)) in
      let w' := mkFarm dir bak gpu (od_put p content tmp) ds div ws mg in
      Some (set_worker g (match inputs with Some rest => Running p rest | None => Finished p end) w')
  | Append _ k, Running p rest =>
      if bool_decide (0 < k ≤ length rest) then
        let content := default [] (od_get tmp p) ++ measure (take k rest) in
        Some (set_worker g (Running p (drop k rest)) (mkFarm dir bak gpu (od_set tmp p content) ds div ws mg))
      else None
  | End _, Running p [] => Some (set_worker g (Finished p) w)
  | Remove _, Finished p =>
      Some (set_worker g (Removed p) (mkFarm dir bak (od_del gpu (g, p)) tmp ds div ws mg))
  | Deliver _, Removed p =>
      let w' := match od_get tmp p with
                | Some lines =>
                    mkFarm dir bak gpu (od_del tmp p)
                      (mkDirs (od_set (measured_part ds) p lines) (measured ds)) div ws mg
                | None => w
                end in
      Some (set_worker g Idle w')
  | _, _ => None
  end.

(** An action of any process; [None] where it is not enabled. *)
Definition perform (a : action) (w : farm) : option farm :=
  let '(mkFarm dir bak gpu tmp ds div ws mg) := w in
  match a with
  | DivideStart =>
      match div, first_json (od_keys dir) with
      | None, Some f =>
          match divide f (default [] (od_get dir f)) with
          | Ret ps => Some (mkFarm dir bak gpu tmp ds (Some (f, ps)) ws mg)
          | Raise _ => None
          end
      | _, _ => None
      end
  | DivideWrite =>
      match div with
      | Some (f, (p, lines) :: ps) => Some (mkFarm (od_set dir p lines) bak gpu tmp ds (Some (f, ps)) ws mg)
      | _ => None
      end
  | DivideEnd =>
      match div with
      | Some (f, []) =>
          Some (mkFarm (od_del dir f) (od_put f (od_get dir f) bak) gpu tmp ds None ws mg)
      | _ => None
      end
  | Choose g | Take g | Start g | Append g _ | End g | Remove g | Deliver g =>
      match ws !! g with Some pc => worker_act a g pc w | None => None end
  | Glob =>
      match mg with
      | (_, []) => let l := od_keys (measured_part ds) in Some (mkFarm dir bak gpu tmp ds div ws (l, l))
      | _ => None
      end
  | Visit =>
      match mg with
      | (listing, part_0 :: rest) =>
          match merge_file listing part_0 ds with
          | (Ret _, ds') => Some (mkFarm dir bak gpu tmp ds' div ws (listing, rest))
          | (Raise _, _) => None
          end
      | _ => None
      end
  | Restart =>
      Some (mkFarm (foldl (λ d '((_, p), lines), od_set d p lines) dir gpu) bak [] tmp ds None
              (replicate (length ws) Idle) ([], []))
  end.

(** The [mv] of a worker finds its part, and nothing is killed. *)
Definition clean (a : action) (w : farm) : bool :=
  match a with
  | Restart => false
  | Take g => match workers w !! g with Some (Chosen p) => od_mem (to_measure_dir w) p | _ => true end
  | _ => true
  end.

(** A run of actions. *)
Fixpoint run (l : list action) (w : farm) : option farm :=
  match l with
  | [] => Some w
  | a :: l' => match perform a w with Some w' => run l' w' | None => None end
  end.

Definition clean_step (w w' : farm) : Prop := ∃ a, clean a w = true ∧ perform a w = Some w'.
End Farm.
Arguments Idle {Input}.
Arguments Chosen {Input} part.
Arguments Measuring {Input} part.
Arguments Running {Input} part rest.
Arguments Finished {Input} part.
Arguments Removed {Input} part.
Arguments farm_init {Input} files n.
Arguments mkFarm {Input}.
