(* ===== verification/FarmSpec.v ===== *)
(** * The measurement farm: nothing is lost in a clean run *)

From S2P Require Import Prelude PyFloat PyText Corpus Measure MeasureSpec Farm.

(** ** Names of parts *)

Lemma strip_prefix_Some p : ∀ s r, strip_prefix p s = Some r ↔ s = p +:+ r.
Proof.
  induction p as [|a p IH]; intros s r.
  - simpl. split; [by intros [= ->]|]. intros ->. by destruct r.
  - destruct s as [|b s]; simpl; [split; [done|]; by intros [=]|].
    change (String a p +:+ r) with (String a (p +:+ r)).
    case_decide as Hab; [subst b; rewrite IH|]; split; congruence.
Qed.

Lemma str_contains_spec q s : str_contains q s = true ↔ ∃ a b, s = a +:+ (q +:+ b).
Proof.
  split.
  - induction s as [|c s IH]; cbn [str_contains]; intros [H|H]%orb_true_iff.
    + unfold startswith in H. destruct (strip_prefix q "") as [r|] eqn:E; [|done].
      apply strip_prefix_Some in E. by exists "", r.
    + done.
    + unfold startswith in H. destruct (strip_prefix q (String c s)) as [r|] eqn:E; [|done].
      apply strip_prefix_Some in E. by exists "", r.
    + destruct (IH H) as (a & b & ->). by exists (String c a), b.
  - intros (a & b & ->). induction a as [|c a IH].
    + change ("" +:+ (q +:+ b)) with (q +:+ b).
      assert (startswith (q +:+ b) q = true) as Hs.
      { unfold startswith. by rewrite (proj2 (strip_prefix_Some q (q +:+ b) b)). }
      destruct (q +:+ b) as [|d s]; cbn [str_contains]; by rewrite Hs.
    + change (String c a +:+ (q +:+ b)) with (String c (a +:+ (q +:+ b))). cbn [str_contains].
      by rewrite IH, orb_true_r.
Qed.

Lemma str_ends_spec p s : str_ends p s = true ↔ ∃ a, s = a +:+ p.
Proof.
  split.
  - induction s as [|c s IH]; cbn [str_ends]; intros [H|H]%orb_true_iff.
    + apply bool_decide_eq_true in H. by exists "".
    + done.
    + apply bool_decide_eq_true in H. by exists "".
    + destruct (IH H) as (a & ->). by exists (String c a).
  - intros (a & ->). induction a as [|c a IH].
    + change ("" +:+ p) with p. destruct p; cbn [str_ends]; by rewrite bool_decide_true.
    + change (String c a +:+ p) with (String c (a +:+ p)). cbn [str_ends]. by rewrite IH, orb_true_r.
Qed.

Lemma last_char a : ∀ b c d, a +:+ String c "" = b +:+ String d "" → c = d.
Proof.
  induction a as [|x a IH]; intros [|y b] c d H; try (injection H; intros; subst; done).
  - injection H as _ H. by destruct b.
  - injection H as _ H. by destruct a.
  - injection H as _ H. by eapply IH.
Qed.

(** A file of programs: it ends in [.json] and has no [_part_] nor slash. *)
Definition good_name (f : string) : Prop :=
  is_json f = true ∧ str_contains "_part_" f = false ∧ str_mem "/" f = false.

Lemma head_sorted l f : head (sort_strings l) = Some f → f ∈ l.
Proof.
  intros Hf. assert (f ∈ sort_strings l) as Hin by (destruct (sort_strings l); [done|injection Hf as ->; left]).
  unfold sort_strings in Hin. by rewrite merge_sort_Permutation in Hin.
Qed.

Section Names.
Context (f : string) (Hf : good_name f).

Lemma good_not_part : is_part f = false.
Proof using Hf.
  destruct Hf as (_ & Hp & _). unfold is_part. apply not_true_iff_false. intros H.
  apply str_contains_spec in H as (a & b & H). assert (str_contains "_part_" f = true); [|congruence].
  apply str_contains_spec. exists (a +:+ ".json"), b. rewrite H. by rewrite <-append_assoc.
Qed.

Lemma good_not_part_0 : str_contains "_part_0" f = false.
Proof using Hf.
  destruct Hf as (_ & Hp & _). apply not_true_iff_false. intros H.
  apply str_contains_spec in H as (a & b & H). assert (str_contains "_part_" f = true); [|congruence].
  apply str_contains_spec. exists a, ("0" +:+ b). rewrite H. done.
Qed.

Lemma good_basename : basename f = f.
Proof using Hf. destruct Hf as (_ & _ & H). unfold basename. by rewrite rsplit1_none. Qed.

Lemma part_digit i : (0 ≤ i < n_part)%Z → ∃ c, pretty i = String c "" ∧ c ≠ "n"%char.
Proof.
  unfold n_part. intros Hi. assert (i = 0 ∨ i = 1 ∨ i = 2 ∨ i = 3 ∨ i = 4 ∨ i = 5)%Z as H by lia.
  destruct H as [->|[->|[->|[->|[->| ->]]]]]; by eexists.
Qed.

Lemma part_is_part i : is_part (part_name f i) = true.
Proof using Hf.
  destruct Hf as (Hj & _). apply str_ends_spec in Hj as (a & Hj). apply str_contains_spec.
  exists a, (pretty i). unfold part_name. rewrite Hj. by rewrite <-!append_assoc.
Qed.

Lemma part_not_json i : (0 ≤ i < n_part)%Z → is_json (part_name f i) = false.
Proof.
  intros Hi. apply not_true_iff_false. intros H. apply str_ends_spec in H as (a & H).
  destruct (part_digit i Hi) as (c & Hc & Hn). apply Hn. apply (last_char (f +:+ "_part_") (a +:+ ".jso")).
  unfold part_name in H. rewrite Hc in H. by rewrite <-!append_assoc.
Qed.
End Names.

Lemma part_name_inj f g i j :
  (0 ≤ i < n_part)%Z → (0 ≤ j < n_part)%Z → part_name f i = part_name g j → f = g ∧ i = j.
Proof.
  intros Hi Hj H. destruct (part_digit i Hi) as (c & Hc & _), (part_digit j Hj) as (d & Hd & _).
  unfold part_name in H. rewrite !append_assoc in H.
  assert (f +:+ "_part_" = g +:+ "_part_") as Hfg.
  { rewrite Hc, Hd in H. rewrite <-(drop_last_app (f +:+ "_part_") (String c "")), H. exact (drop_last_app _ (String d "")). }
  split.
  - rewrite <-(drop_last_app f "_part_"), Hfg. apply drop_last_app.
  - rewrite Hfg in H. apply (inj (String.append _)) in H. by apply (inj pretty) in H.
Qed.

(** Concatenations of the same lists are permutations of each other. *)
Lemma perm_nil_r {A} (l k : list A) : l ++ [] ≡ₚ k ++ [] → l ≡ₚ k.
Proof. by rewrite !app_nil_r. Qed.

Ltac solve_perm :=
  apply perm_nil_r; rewrite <-?app_assoc;
  repeat first
    [ match goal with |- ?a ++ _ ≡ₚ ?a ++ _ => apply Permutation_app_head end
    | match goal with |- ?a ++ _ ≡ₚ _ => rewrite (Permutation_app_swap_app _ a _) end ];
  reflexivity.

Ltac farm_simpl :=
  cbn [to_measure_dir to_measure_bak gpu_dirs measured_tmp dirs divider workers merger
       measured_part measured fst snd] in *.

(** ** The account *)

Section Farm.
Context {Input : Type} (loads : string → py json) (dumps : json → string)
  (record_input : string → py Input) (workload_key : Input → string)
  (measure : list Input → list string).
Implicit Types (w : @farm Input) (pc : @worker_pc Input).

Abbreviation selected := (selected loads dumps record_input workload_key).
Abbreviation perform := (perform loads dumps record_input workload_key measure).

(** The parts of a file, and the records a measurement of a part adds. *)
Definition file_parts (fl : string * list string) : list (string * list string) :=
  match divide fl.1 fl.2 with Ret ps => ps | Raise _ => [] end.

Definition recs (lines : list string) : list string :=
  match selected [] lines with Ret inputs => measure inputs | Raise _ => [] end.

Definition account_of (ps : list (string * list string)) : list (string * list string) :=
  prod_map id recs <$> ps.

Definition all_parts (files : list (string * list string)) : list (string * list string) :=
  concat (file_parts <$> files).

(** What a worker holds: the part, and its records once it is done. *)
Definition holding (gpu : list ((nat * string) * list string)) (tmp : list (string * list string))
    (g : nat) (pc : @worker_pc Input) : list (string * list string) :=
  match pc with
  | Idle | Chosen _ => []
  | Measuring p => [(p, recs (default [] (od_get gpu (g, p))))]
  | Running p rest => [(p, default [] (od_get tmp p) ++ measure rest)]
  | Finished p | Removed p => [(p, default [] (od_get tmp p))]
  end.

Definition holdings gpu tmp (ws : list (@worker_pc Input)) : list (string * list string) :=
  concat (imap (holding gpu tmp) ws).

(** The files of programs that are not being divided yet. *)
Definition undivided (div : option (string * list (string * list string)))
    (dir : list (string * list string)) : list (string * list string) :=
  filter (λ fl, is_json fl.1 = true ∧ fst <$> div ≠ Some fl.1) dir.

Definition part_files (dir : list (string * list string)) : list (string * list string) :=
  filter (λ fl, is_part fl.1 = true) dir.

(** Every part that is not merged yet, with the records it has or will have. *)
Definition account (w : @farm Input) : list (string * list string) :=
  account_of (all_parts (undivided (divider w) (to_measure_dir w)) ++ default [] (snd <$> divider w) ++
              part_files (to_measure_dir w)) ++
  holdings (gpu_dirs w) (measured_tmp w) (workers w) ++
  measured_part (dirs w).

(** ** Holdings *)

Lemma holdings_split gpu tmp ws g pc :
  ws !! g = Some pc →
  ∃ l1 l2, holdings gpu tmp ws = l1 ++ holding gpu tmp g pc ++ l2 ∧
    ∀ gpu' tmp' pc',
      (∀ h p, h ≠ g → ws !! h = Some p → holding gpu' tmp' h p = holding gpu tmp h p) →
      holdings gpu' tmp' (<[g := pc']> ws) = l1 ++ holding gpu' tmp' g pc' ++ l2.
Proof.
  intros Hg. assert (g < length ws) as Hlt by by eapply lookup_lt_Some.
  assert (ws = take g ws ++ pc :: drop (S g) ws) as Hws by by rewrite take_drop_middle.
  assert (∀ gpu tmp pc, holdings gpu tmp (take g ws ++ pc :: drop (S g) ws) =
    concat (imap (holding gpu tmp) (take g ws)) ++ holding gpu tmp g pc ++
    concat (imap (holding gpu tmp ∘ Nat.add (S g)) (drop (S g) ws))) as Hh.
  { intros gpu1 tmp1 pc1. unfold holdings. rewrite imap_app, concat_app. f_equal. cbn [imap concat].
    rewrite length_take_le by lia. rewrite Nat.add_0_r. do 2 f_equal.
    apply imap_ext. intros i x _. simpl. f_equal. lia. }
  exists (concat (imap (holding gpu tmp) (take g ws))),
    (concat (imap (holding gpu tmp ∘ Nat.add (S g)) (drop (S g) ws))).
  split; [rewrite Hws at 1; apply Hh|]. intros gpu' tmp' pc' Heq.
  rewrite insert_take_drop by done. rewrite Hh. f_equal; [|f_equal]; f_equal; apply imap_ext; intros i x Hx.
  - apply Heq; [|by rewrite lookup_take_Some in Hx; destruct Hx].
    apply lookup_lt_Some in Hx. rewrite length_take in Hx. lia.
  - simpl. apply Heq; [lia|]. by rewrite lookup_drop in Hx.
Qed.

Definition part_of (pc : @worker_pc Input) : option string :=
  match pc with
  | Idle | Chosen _ => None
  | Measuring p | Running p _ | Finished p | Removed p => Some p
  end.

Lemma holding_names gpu tmp g pc : (holding gpu tmp g pc).*1 = option_list (part_of pc).
Proof. by destruct pc. Qed.

(** Two workers never hold the same part. *)
Lemma holders_distinct gpu tmp ws g h pc pc' p :
  NoDup (holdings gpu tmp ws).*1 → ws !! g = Some pc → ws !! h = Some pc' →
  part_of pc = Some p → part_of pc' = Some p → g = h.
Proof.
  intros Hnd Hg Hh Hp Hp'. destruct (decide (g = h)) as [|Hne]; [done|exfalso].
  destruct (holdings_split gpu tmp ws g pc Hg) as (l1 & l2 & Hl & Hupd).
  assert (p ∈ (holdings gpu tmp (<[g := Idle]> ws)).*1) as Hin.
  { destruct (holdings_split gpu tmp (<[g := Idle]> ws) h pc') as (k1 & k2 & Hk & _);
      [by rewrite list_lookup_insert_ne|].
    rewrite Hk, !fmap_app, holding_names, Hp'. simpl. set_solver. }
  rewrite (Hupd gpu tmp Idle) in Hin by done. simpl in Hin.
  rewrite Hl, !fmap_app, holding_names, Hp in Hnd. simpl in Hnd.
  rewrite NoDup_app in Hnd. destruct Hnd as (_ & Hn1 & Hn2). apply NoDup_cons in Hn2 as [Hn2 _].
  rewrite fmap_app in Hin. apply elem_of_app in Hin as [Hin|Hin]; [|done].
  apply (Hn1 p Hin). set_solver.
Qed.

(** The other workers hold what they held when only a part [p] they do not
    hold has changed. *)
Lemma holding_other gpu tmp gpu' tmp' ws g pc p :
  NoDup (holdings gpu tmp ws).*1 → ws !! g = Some pc → part_of pc = Some p ∨ p ∉ (holdings gpu tmp ws).*1 →
  (∀ q, q ≠ p → od_get tmp' q = od_get tmp q) →
  (∀ h q, h ≠ g → od_get gpu' (h, q) = od_get gpu (h, q)) →
  ∀ h pc', h ≠ g → ws !! h = Some pc' → holding gpu' tmp' h pc' = holding gpu tmp h pc'.
Proof.
  intros Hnd Hg Hp Htmp Hgpu h pc' Hne Hh.
  assert (part_of pc' ≠ Some p) as Hpc.
  { intros Hpc. destruct Hp as [Hp|Hp]; [by destruct Hne; symmetry; eapply holders_distinct|].
    apply Hp. destruct (holdings_split gpu tmp ws h pc' Hh) as (l1 & l2 & -> & _).
    rewrite !fmap_app, holding_names, Hpc. simpl. set_solver. }
  destruct pc' as [|q|q|q rest|q|q]; simpl in *; try done.
  - by rewrite Hgpu.
  - by rewrite Htmp by congruence.
  - by rewrite Htmp by congruence.
  - by rewrite Htmp by congruence.
Qed.

(** ** Parts of files *)

Lemma file_parts_spec fl :
  ∃ ps, parts n_part fl.2 = Ret ps ∧ file_parts fl = zip (part_name fl.1 <$> range 0 n_part) ps ∧
    length ps = 6 ∧ concat ps = fl.2.
Proof.
  unfold file_parts, divide. destruct (parts_concat n_part fl.2) as (ps & Hps & Hcat & Hlen & _); [done|].
  rewrite Hps. exists ps. unfold zlen, n_part in Hlen. split_and!; [done|done|lia|done].
Qed.

Lemma file_parts_names fl : (file_parts fl).*1 = part_name fl.1 <$> range 0 n_part.
Proof.
  destruct (file_parts_spec fl) as (ps & _ & -> & Hlen & _). apply fst_zip. by rewrite length_fmap, Hlen.
Qed.

Lemma elem_of_parts files p :
  p ∈ (all_parts files).*1 ↔ ∃ fl i, fl ∈ files ∧ (0 ≤ i < n_part)%Z ∧ p = part_name fl.1 i.
Proof.
  unfold all_parts. induction files as [|fl files IH].
  - simpl. split; [by intros ?%not_elem_of_nil|]. intros (? & ? & ?%not_elem_of_nil & _). done.
  - rewrite fmap_cons. cbn [concat]. rewrite fmap_app, elem_of_app, IH, file_parts_names, list_elem_of_fmap.
    split.
    + intros [(i & -> & Hi%elem_of_range)|(fl' & i & ? & ? & ->)]; [exists fl, i|exists fl', i]; set_solver.
    + intros (fl' & i & [->|Hin]%elem_of_cons & Hi & ->); [left; exists i|right; exists fl', i]; [|done].
      split; [done|]. by apply elem_of_range.
Qed.

Lemma all_parts_NoDup files : NoDup files.*1 → NoDup (all_parts files).*1.
Proof.
  induction files as [|fl files IH]; [constructor|]. rewrite fmap_cons, NoDup_cons. intros [Hfl Hnd].
  change (all_parts (fl :: files)) with (file_parts fl ++ all_parts files). rewrite fmap_app, NoDup_app.
  split; [|split; [|by apply IH]].
  - rewrite file_parts_names. apply NoDup_fmap_2_strong; [|apply NoDup_seqZ].
    intros i j Hi%elem_of_range Hj%elem_of_range H. by apply (part_name_inj fl.1 fl.1) in H as [_ ?].
  - intros p Hp Hp'. rewrite file_parts_names in Hp. apply list_elem_of_fmap in Hp as (i & -> & Hi%elem_of_range).
    apply elem_of_parts in Hp' as (fl' & j & Hin & Hj & H). apply part_name_inj in H as [H _]; [|done..].
    apply Hfl. rewrite H. by apply list_elem_of_fmap_2.
Qed.

Lemma account_of_names ps : (account_of ps).*1 = ps.*1.
Proof. unfold account_of. rewrite <-list_fmap_compose. apply list_fmap_ext. by intros i [] _. Qed.

Lemma account_of_app ps qs : account_of (ps ++ qs) = account_of ps ++ account_of qs.
Proof. apply fmap_app. Qed.

Lemma all_parts_app fs gs : all_parts (fs ++ gs) = all_parts fs ++ all_parts gs.
Proof. unfold all_parts. by rewrite fmap_app, concat_app. Qed.

#[local] Instance account_of_proper : Proper ((≡ₚ) ==> (≡ₚ)) account_of.
Proof. intros l k Hp. by apply fmap_Permutation. Qed.

#[local] Instance all_parts_proper : Proper ((≡ₚ) ==> (≡ₚ)) all_parts.
Proof.
  intros l k Hp. unfold all_parts. induction Hp as [|x l k _ IH|x y l|l k m _ IH1 _ IH2];
    rewrite ?fmap_cons; cbn [concat]; [done|by rewrite IH|solve_perm|by etransitivity].
Qed.

(** ** The invariant *)

Context (files : list (string * list string)).
Context (Hgood : ∀ fl, fl ∈ files → good_name fl.1) (Hfiles : NoDup files.*1).
Context (Hselected : ∀ p lines, (p, lines) ∈ all_parts files → is_ret (selected [] lines)).
Context (Hmeasure : ∀ a b, measure (a ++ b) = measure a ++ measure b).

#[local] Set Default Proof Using "Hgood Hfiles Hselected Hmeasure".

(** A merged file: the records of its parts, in order. *)
Definition merged_file (fl : string * list string) : string * list string :=
  (fl.1, concat (recs <$> (file_parts fl).*2)).

Record farm_ok (w : @farm Input) : Prop := {
  fo_dir : NoDup (od_keys (to_measure_dir w));
  fo_files f l : (f, l) ∈ to_measure_dir w → (f, l) ∈ files ∨ (f, l) ∈ all_parts files;
  fo_div f ps : divider w = Some (f, ps) →
    f ∈ od_keys (to_measure_dir w) ∧ f ∈ files.*1 ∧ ∀ x, x ∈ ps → x ∈ all_parts files;
  fo_chosen g p : workers w !! g = Some (Chosen p) → is_part p = true;
  fo_gpu g p : workers w !! g = Some (Measuring p) →
    ∃ lines, od_get (gpu_dirs w) (g, p) = Some lines ∧ (p, lines) ∈ all_parts files;
  fo_tmp_nodup : NoDup (od_keys (measured_tmp w));
  fo_tmp p : p ∈ od_keys (measured_tmp w) ↔
    ∃ g pc, workers w !! g = Some pc ∧ part_of pc = Some p ∧ pc ≠ Measuring p;
  fo_account : ∃ done,
    account w ++ account_of (all_parts done) ≡ₚ account_of (all_parts files) ∧
    measured (dirs w) = merged_file <$> done ∧ done ⊆ files;
  fo_merger : NoDup (merger w).2 ∧ (∀ p, p ∈ (merger w).2 → p ∈ (merger w).1 ∧ p ∈ (all_parts files).*1) ∧
    ∀ f i, part_name f 0 ∈ (merger w).2 → (0 ≤ i < n_part)%Z → part_name f i ∈ (merger w).1 →
      part_name f i ∈ od_keys (measured_part (dirs w))
}.

Lemma account_nodup w : farm_ok w → NoDup (account w).*1.
Proof.
  intros [_ _ _ _ _ _ _ (dn & Hacc & _) _].
  assert (NoDup (account w ++ account_of (all_parts dn)).*1) as Hnd.
  { rewrite Hacc, account_of_names. by apply all_parts_NoDup. }
  rewrite fmap_app in Hnd. by apply NoDup_app in Hnd as [? _].
Qed.

Lemma account_file w p : farm_ok w → p ∈ (account w).*1 →
  ∃ fl i, fl ∈ files ∧ (0 ≤ i < n_part)%Z ∧ p = part_name fl.1 i.
Proof.
  intros [_ _ _ _ _ _ _ (dn & Hacc & _) _] Hp. apply elem_of_parts. rewrite <-account_of_names, <-Hacc.
  rewrite fmap_app. apply elem_of_app. by left.
Qed.

(** A part whose records are known has the records of its lines. *)
Lemma account_value w p out lines : farm_ok w → (p, out) ∈ account w → (p, lines) ∈ all_parts files → out = recs lines.
Proof.
  intros [_ _ _ _ _ _ _ (dn & Hacc & _) _] Hp Hl.
  assert (NoDup (account_of (all_parts files)).*1) as Hnd by (rewrite account_of_names; by apply all_parts_NoDup).
  assert ((p, out) ∈ account_of (all_parts files)) as H1 by (rewrite <-Hacc; apply elem_of_app; by left).
  assert ((p, recs lines) ∈ account_of (all_parts files)) as H2.
  { unfold account_of. apply list_elem_of_fmap. by exists (p, lines). }
  apply (od_elem_get _ p out Hnd) in H1. apply (od_elem_get _ p (recs lines) Hnd) in H2. congruence.
Qed.

Lemma part_not_file p : p ∈ (all_parts files).*1 → is_part p = true ∧ is_json p = false.
Proof.
  intros (fl & i & Hin & Hi & ->)%elem_of_parts. split; [by apply part_is_part, Hgood|by apply part_not_json].
Qed.

Lemma file_not_part f : f ∈ files.*1 → is_json f = true ∧ is_part f = false.
Proof.
  intros (fl & -> & Hin)%list_elem_of_fmap. apply Hgood in Hin. split; [by destruct Hin|by apply good_not_part].
Qed.

(** ** Workers *)

Lemma lookup_insert_cases {A} (l : list A) g h x y :
  <[g := x]> l !! h = Some y → h = g ∧ y = x ∨ h ≠ g ∧ l !! h = Some y.
Proof.
  intros H. destruct (decide (h = g)) as [->|Hne].
  - left. apply list_lookup_insert_Some in H as [(_ & ? & _)|(? & _)]; [by split|done].
  - right. by rewrite list_lookup_insert_ne in H.
Qed.

Lemma holding_in_account w g pc x :
  workers w !! g = Some pc → x ∈ holding (gpu_dirs w) (measured_tmp w) g pc → x ∈ account w.
Proof.
  intros Hg Hx. unfold account. destruct (holdings_split (gpu_dirs w) (measured_tmp w) _ _ _ Hg) as (l1 & l2 & -> & _).
  rewrite !elem_of_app. tauto.
Qed.

(** An action of worker [g] on a part [p] that it holds or that nobody holds:
    it keeps the invariant when it keeps the account locally. *)
Lemma worker_keeps dir bak gpu tmp ds div ws mg g pc p dir' gpu' tmp' mp' pc' :
  farm_ok (mkFarm dir bak gpu tmp ds div ws mg) → ws !! g = Some pc →
  part_of pc = Some p ∨ part_of pc = None ∧ p ∉ (holdings gpu tmp ws).*1 →
  (∀ q, q ≠ p → od_get tmp' q = od_get tmp q) →
  (∀ h q, h ≠ g → od_get gpu' (h, q) = od_get gpu (h, q)) →
  account_of (part_files dir') ++ holding gpu' tmp' g pc' ++ mp' ≡ₚ
    account_of (part_files dir) ++ holding gpu tmp g pc ++ measured_part ds →
  undivided div dir' ≡ₚ undivided div dir → NoDup (od_keys dir') → dir' ⊆ dir →
  (∀ f, f ∈ files.*1 → f ∈ od_keys dir → f ∈ od_keys dir') →
  (∀ q, q ∈ od_keys (measured_part ds) → q ∈ od_keys mp') →
  (∀ q, pc' = Chosen q → is_part q = true) →
  (∀ q, pc' = Measuring q → ∃ lines, od_get gpu' (g, q) = Some lines ∧ (q, lines) ∈ all_parts files) →
  NoDup (od_keys tmp') → (p ∈ od_keys tmp' ↔ part_of pc' = Some p ∧ pc' ≠ Measuring p) →
  part_of pc' = Some p ∨ part_of pc' = None →
  farm_ok (mkFarm dir' bak gpu' tmp' (mkDirs mp' (measured ds)) div (<[g := pc']> ws) mg).
Proof.
  intros Hok Hg Hp Htmp Hgpu Hlocal Hund Hnd' Hsub Hdir Hmp Hch Hmeas Htnd Htp Hpc'.
  pose proof (account_nodup _ Hok) as Hnd. unfold account in Hnd. simpl in Hnd.
  rewrite !fmap_app in Hnd. apply NoDup_app in Hnd as (_ & _ & Hnd). apply NoDup_app in Hnd as (Hnd & _ & _).
  assert (g < length ws) as Hlt by by eapply lookup_lt_Some.
  assert (part_of pc = Some p ∨ p ∉ (holdings gpu tmp ws).*1) as Hp' by tauto.
  pose proof (holding_other gpu tmp gpu' tmp' ws g pc p Hnd Hg Hp' Htmp Hgpu) as Hother.
  destruct (holdings_split gpu tmp ws g pc Hg) as (l1 & l2 & Hl & Hupd).
  specialize (Hupd gpu' tmp' pc' Hother).
  destruct Hok as [_ Hf Hd Hcho Hgp _ Ht (dn & Hacc & Hdone) (Hm1 & Hm2 & Hm3)]. simpl in *.
  split; simpl; try done.
  - intros f l Hin. by apply Hf, Hsub.
  - intros f ps Hdiv. destruct (Hd f ps Hdiv) as (? & ? & ?). auto.
  - intros h q Hh. apply lookup_insert_cases in Hh as [[-> Hq]|[Hne Hh]]; [by apply Hch|by eapply Hcho].
  - intros h q Hh. apply lookup_insert_cases in Hh as [[-> Hq]|[Hne Hh]]; [by apply Hmeas|].
    rewrite Hgpu by done. by apply Hgp.
  - intros q. destruct (decide (q = p)) as [->|Hq].
    + rewrite Htp. split.
      * intros [H1 H2]. exists g, pc'. by rewrite list_lookup_insert_eq by done.
      * intros (h & pc2 & Hh & H1 & H2). apply lookup_insert_cases in Hh as [[-> ->]|[Hne Hh]]; [done|exfalso].
        destruct Hp as [Hp|[_ Hp]]; [by destruct Hne; symmetry; eapply holders_distinct|].
        apply Hp. destruct (holdings_split gpu tmp ws h pc2 Hh) as (k1 & k2 & -> & _).
        rewrite !fmap_app, holding_names, H1. simpl. set_solver.
    + assert (q ∈ od_keys tmp' ↔ q ∈ od_keys tmp) as ->.
      { split; intros Hin; apply dec_stable; intros Hn%od_get_None_key.
        - rewrite <-Htmp in Hn by done. by apply od_get_None_key in Hn.
        - rewrite Htmp in Hn by done. by apply od_get_None_key in Hn. }
      rewrite Ht. split; intros (h & pc2 & Hh & H1 & H2); exists h, pc2; (split; [|done]).
      * rewrite list_lookup_insert_ne; [done|]. intros ->. rewrite Hg in Hh. injection Hh as ->.
        destruct Hp as [?|[? _]]; congruence.
      * apply lookup_insert_cases in Hh as [[-> ->]|[Hne Hh]]; [|done].
        destruct Hpc'; congruence.
  - exists dn. split; [|done]. rewrite <-Hacc. apply Permutation_app_tail. unfold account. simpl.
    rewrite Hupd, Hl, !account_of_app. rewrite Hund.
    rewrite <-!app_assoc. do 2 apply Permutation_app_head.
    transitivity (l1 ++ l2 ++ (account_of (part_files dir') ++ holding gpu' tmp' g pc' ++ mp'));
      [|rewrite Hlocal]; solve_perm.
  - split; [done|]. split; [done|]. intros f i H1 H2 H3. by apply Hmp, Hm3.
Qed.

(** Names in the account are parts. *)
Lemma account_is_part w p : farm_ok w → p ∈ (account w).*1 → is_part p = true.
Proof.
  intros Hok Hp. destruct (account_file w p Hok Hp) as (fl & i & Hin & Hi & ->).
  by apply part_is_part, Hgood.
Qed.

Lemma holdings_in_account w p :
  p ∈ (holdings (gpu_dirs w) (measured_tmp w) (workers w)).*1 → p ∈ (account w).*1.
Proof. unfold account. rewrite !fmap_app, !elem_of_app. tauto. Qed.

Lemma holder_in_account w g pc p : workers w !! g = Some pc → part_of pc = Some p → p ∈ (account w).*1.
Proof.
  intros Hg Hp. apply holdings_in_account.
  destruct (holdings_split (gpu_dirs w) (measured_tmp w) _ _ _ Hg) as (l1 & l2 & -> & _).
  rewrite !fmap_app, holding_names, Hp. simpl. set_solver.
Qed.

Lemma tmp_in_account w p : farm_ok w → p ∈ od_keys (measured_tmp w) → p ∈ (account w).*1.
Proof.
  intros Hok (g & pc & Hg & Hp & _)%(fo_tmp _ Hok). by eapply holder_in_account.
Qed.

(** A part in a directory is held by nobody, and has no records. *)
Lemma dir_part_free w p lines :
  farm_ok w → (p, lines) ∈ to_measure_dir w → is_part p = true →
  (p, lines) ∈ all_parts files ∧ (p ∉ (holdings (gpu_dirs w) (measured_tmp w) (workers w)).*1) ∧
  p ∉ od_keys (measured_tmp w).
Proof.
  intros Hok Hin Hp. split.
  { destruct (fo_files _ Hok _ _ Hin) as [Hf|?]; [|done].
    destruct (file_not_part p) as [_ ?]; [|congruence]. apply (list_elem_of_fmap_2 fst _ _ Hf). }
  assert (p ∉ (holdings (gpu_dirs w) (measured_tmp w) (workers w)).*1) as Hh.
  { intros Hh. pose proof (account_nodup w Hok) as Hnd. unfold account in Hnd.
    rewrite fmap_app, NoDup_app in Hnd. destruct Hnd as (_ & Hnd & _). apply (Hnd p).
    - rewrite account_of_names, !fmap_app, !elem_of_app. do 2 right.
      apply list_elem_of_fmap. exists (p, lines). split; [done|]. unfold part_files.
      by apply list_elem_of_filter.
    - rewrite fmap_app. apply elem_of_app. by left. }
  split; [done|]. intros Ht. destruct (fo_tmp _ Hok p) as [H1 _]. destruct (H1 Ht) as (g & pc & Hg & Hpc & _).
  apply Hh. destruct (holdings_split (gpu_dirs w) (measured_tmp w) _ _ _ Hg) as (l1 & l2 & -> & _).
  rewrite !fmap_app, holding_names, Hpc. simpl. set_solver.
Qed.

Lemma od_del_dirs (dir : list (string * list string)) div p lines :
  od_get dir p = Some lines → is_part p = true → is_json p = false →
  part_files dir ≡ₚ (p, lines) :: part_files (od_del dir p) ∧ undivided div (od_del dir p) ≡ₚ undivided div dir.
Proof.
  intros Hd Hp Hj. pose proof (od_del_perm dir p lines Hd) as Hperm. unfold part_files, undivided.
  split.
  - rewrite Hperm at 1. by rewrite filter_cons_True.
  - rewrite Hperm at 2. rewrite filter_cons_False; [done|]. simpl. rewrite Hj. by intros [? _].
Qed.

Lemma measure_nil : measure [] = [].
Proof.
  pose proof (Hmeasure [] []) as Hm. apply (f_equal length) in Hm. rewrite length_app in Hm. simpl in Hm.
  destruct (measure []); [done|simpl in Hm; lia].
Qed.


Lemma choose_ok w g p :
  farm_ok w → workers w !! g = Some Idle → is_part p = true → farm_ok (set_worker g (Chosen p) w).
Proof.
  destruct w as [dir bak gpu tmp [mp md] div ws mg]. intros Hok Hg Hp. simpl in Hg.
  apply (worker_keeps dir bak gpu tmp (mkDirs mp md) div ws mg g Idle "");
    [done|done| |done|done|done|done|by apply (fo_dir _ Hok)|done|done|done|by intros q [= <-]|done
    |by apply (fo_tmp_nodup _ Hok)| |by right].
  - right. split; [done|]. intros Hin. by apply (holdings_in_account (mkFarm dir bak gpu tmp (mkDirs mp md) div ws mg)), (account_is_part _ _ Hok) in Hin.
  - split; [|by intros [? _]]. intros Hin. by apply (tmp_in_account _ _ Hok), (account_is_part _ _ Hok) in Hin.
Qed.

Lemma take_ok dir bak gpu tmp ds div ws mg g p lines :
  farm_ok (mkFarm dir bak gpu tmp ds div ws mg) → ws !! g = Some (Chosen p) → od_get dir p = Some lines →
  farm_ok (mkFarm (od_del dir p) bak (od_set gpu (g, p) lines) tmp ds div (<[g := Measuring p]> ws) mg).
Proof.
  intros Hok Hg Hd. pose proof (fo_chosen _ Hok _ _ Hg) as Hpart.
  destruct (dir_part_free _ _ _ Hok (od_get_elem _ _ _ Hd) Hpart) as (Hall & Hfree & Htmp). simpl in *.
  destruct (part_not_file p (list_elem_of_fmap_2 fst _ _ Hall)) as [_ Hj].
  destruct (od_del_dirs dir div p lines Hd Hpart Hj) as [Hparts Hund]. destruct ds as [mp md].
  apply (worker_keeps dir bak gpu tmp (mkDirs mp md) div ws mg g (Chosen p) p);
    [done|done|by right|done| | |done|apply od_del_NoDup, (fo_dir _ Hok)|apply od_del_subseteq| |done|done| 
    |by apply (fo_tmp_nodup _ Hok)| |by left].
  - intros h q Hne. apply od_get_set_ne. congruence.
  - rewrite Hparts. simpl. rewrite od_get_set_eq. simpl. by rewrite <-Permutation_middle.
  - intros f Hf Hin. apply od_key_iff. rewrite od_get_del_ne; [by apply od_key_iff|].
    intros <-. apply file_not_part in Hf as [_ ?]. congruence.
  - intros q [= <-]. exists lines. by rewrite od_get_set_eq.
  - split; [done|]. by intros [_ ?].
Qed.

(** The worker that holds a part, and the records it has so far. *)
Lemma held_part w g pc p :
  farm_ok w → workers w !! g = Some pc → part_of pc = Some p → pc ≠ Measuring p →
  ∃ old, od_get (measured_tmp w) p = Some old.
Proof.
  intros Hok Hg Hp Hne. apply od_key_iff. apply (fo_tmp _ Hok). by exists g, pc.
Qed.

Lemma start_ok dir bak gpu tmp ds div ws mg g p :
  farm_ok (mkFarm dir bak gpu tmp ds div ws mg) → ws !! g = Some (Measuring p) →
  ∃ inputs, start loads dumps record_input workload_key (od_get tmp p) (od_get gpu (g, p)) = (Some [], Some inputs) ∧
    farm_ok (mkFarm dir bak gpu (od_set tmp p []) ds div (<[g := Running p inputs]> ws) mg).
Proof.
  intros Hok Hg. destruct (fo_gpu _ Hok _ _ Hg) as (lines & Hl & Hall). simpl in Hl.
  assert (od_get tmp p = None) as Htmp.
  { apply od_get_None_key. intros Hin. apply (fo_tmp _ Hok) in Hin as (h & pc & Hh & Hp & Hne). simpl in Hh.
    pose proof (account_nodup _ Hok) as Hnd. unfold account in Hnd. simpl in Hnd.
    rewrite !fmap_app in Hnd. apply NoDup_app in Hnd as (_ & _ & Hnd). apply NoDup_app in Hnd as (Hnd & _ & _).
    assert (g = h) as <- by (eapply (holders_distinct gpu tmp ws); eauto). congruence. }
  destruct (Hselected p lines Hall) as [inputs Hi]. exists inputs. unfold start. rewrite Htmp, Hl. simpl. rewrite Hi.
  split; [done|]. destruct ds as [mp md].
  apply (worker_keeps dir bak gpu tmp (mkDirs mp md) div ws mg g (Measuring p) p);
    [done|done|by left| |done| |done|by apply (fo_dir _ Hok)|done|done|done|done|done
    |apply od_set_NoDup, (fo_tmp_nodup _ Hok)| |by left].
  - intros q Hq. by apply od_get_set_ne.
  - simpl. rewrite od_get_set_eq, Hl. simpl. unfold recs. by rewrite Hi.
  - split; [done|]. intros _. apply od_key_iff. rewrite od_get_set_eq. by eexists.
Qed.

Lemma append_ok dir bak gpu tmp ds div ws mg g p rest k :
  farm_ok (mkFarm dir bak gpu tmp ds div ws mg) → ws !! g = Some (Running p rest) →
  farm_ok (mkFarm dir bak gpu (od_set tmp p (default [] (od_get tmp p) ++ measure (take k rest))) ds div
             (<[g := Running p (drop k rest)]> ws) mg).
Proof.
  intros Hok Hg. destruct ds as [mp md].
  apply (worker_keeps dir bak gpu tmp (mkDirs mp md) div ws mg g (Running p rest) p);
    [done|done|by left| |done| |done|by apply (fo_dir _ Hok)|done|done|done|done|done
    |apply od_set_NoDup, (fo_tmp_nodup _ Hok)| |by left].
  - intros q Hq. by apply od_get_set_ne.
  - simpl. rewrite od_get_set_eq. simpl. by rewrite <-app_assoc, <-Hmeasure, take_drop.
  - split; [done|]. intros _. apply od_key_iff. rewrite od_get_set_eq. by eexists.
Qed.

Lemma end_ok dir bak gpu tmp ds div ws mg g p :
  farm_ok (mkFarm dir bak gpu tmp ds div ws mg) → ws !! g = Some (Running p []) →
  farm_ok (mkFarm dir bak gpu tmp ds div (<[g := Finished p]> ws) mg).
Proof.
  intros Hok Hg. destruct (held_part _ _ _ p Hok Hg) as [old Ho]; [done|done|]. simpl in Ho. destruct ds as [mp md].
  apply (worker_keeps dir bak gpu tmp (mkDirs mp md) div ws mg g (Running p []) p);
    [done|done|by left|done|done| |done|by apply (fo_dir _ Hok)|done|done|done|done|done
    |by apply (fo_tmp_nodup _ Hok)| |by left].
  - simpl. by rewrite measure_nil, app_nil_r.
  - split; [done|]. intros _. apply od_key_iff. by eexists.
Qed.

Lemma remove_ok dir bak gpu tmp ds div ws mg g p :
  farm_ok (mkFarm dir bak gpu tmp ds div ws mg) → ws !! g = Some (Finished p) →
  farm_ok (mkFarm dir bak (od_del gpu (g, p)) tmp ds div (<[g := Removed p]> ws) mg).
Proof.
  intros Hok Hg. destruct (held_part _ _ _ p Hok Hg) as [old Ho]; [done|done|]. simpl in Ho. destruct ds as [mp md].
  apply (worker_keeps dir bak gpu tmp (mkDirs mp md) div ws mg g (Finished p) p);
    [done|done|by left|done| |done|done|by apply (fo_dir _ Hok)|done|done|done|done|done
    |by apply (fo_tmp_nodup _ Hok)| |by left].
  - intros h q Hne. apply od_get_del_ne. congruence.
  - split; [done|]. intros _. apply od_key_iff. by eexists.
Qed.

Lemma deliver_ok dir bak gpu tmp ds div ws mg g p :
  farm_ok (mkFarm dir bak gpu tmp ds div ws mg) → ws !! g = Some (Removed p) →
  ∃ lines, od_get tmp p = Some lines ∧
    farm_ok (mkFarm dir bak gpu (od_del tmp p) (mkDirs (od_set (measured_part ds) p lines) (measured ds)) div
               (<[g := Idle]> ws) mg).
Proof.
  intros Hok Hg. destruct (held_part _ _ _ p Hok Hg) as [old Ho]; [done|done|]. simpl in Ho.
  exists old. split; [done|].
  assert (od_get (measured_part ds) p = None) as Hfresh.
  { apply od_get_None_key. intros Hin. pose proof (account_nodup _ Hok) as Hnd. unfold account in Hnd. simpl in Hnd.
    rewrite !fmap_app in Hnd. apply NoDup_app in Hnd as (_ & _ & Hnd). apply NoDup_app in Hnd as (_ & Hnd & _).
    apply (Hnd p); [|done]. destruct (holdings_split gpu tmp _ _ _ Hg) as (l1 & l2 & -> & _).
    rewrite !fmap_app. simpl. set_solver. }
  apply (worker_keeps dir bak gpu tmp ds div ws mg g (Removed p) p);
    [done|done|by left| |done| |done|by apply (fo_dir _ Hok)|done|done| |done|done
    |apply od_del_NoDup, (fo_tmp_nodup _ Hok)| |by right].
  - intros q Hq. by apply od_get_del_ne.
  - simpl. rewrite Ho. simpl. rewrite od_set_fresh by done. apply Permutation_app_head, Permutation_app_comm.
  - intros q Hq. apply od_key_iff. destruct (decide (q = p)) as [->|Hne]; [rewrite od_get_set_eq; by eexists|].
    rewrite od_get_set_ne by done. by apply od_key_iff.
  - split; [|by intros [? _]]. intros Hin%od_key_iff. rewrite od_get_del in Hin by apply (fo_tmp_nodup _ Hok).
    rewrite decide_True in Hin by done. by destruct Hin.
Qed.

(** ** The divider *)

Lemma drop_parts_subseteq fuel : ∀ i l, drop_parts fuel i l ⊆ l.
Proof.
  induction fuel as [|fuel IH]; intros i l; simpl; [done|]. destruct (l !! i) as [x|]; [|done].
  etransitivity; [apply IH|]. destruct (str_contains _ _); [apply remove1_subseteq|done].
Qed.

Lemma first_json_spec names f : first_json names = Some f → f ∈ names ∧ is_json f = true.
Proof.
  unfold first_json. intros Hf%head_sorted%drop_parts_subseteq. by apply list_elem_of_filter in Hf as [? ?].
Qed.

Lemma first_part_spec names p : first_part names = Some p → p ∈ names ∧ is_part p = true.
Proof. unfold first_part. intros Hp%head_sorted. by apply list_elem_of_filter in Hp as [? ?]. Qed.

Lemma undivided_other f ps (dir : list (string * list string)) :
  f ∉ od_keys dir → undivided (Some (f, ps)) dir = undivided None dir.
Proof.
  unfold undivided, od_keys. induction dir as [|[k l] dir IH]; [done|]. rewrite fmap_cons, not_elem_of_cons.
  intros [Hk Hdir]. rewrite !filter_cons, IH by done. simpl.
  repeat case_decide; [done|naive_solver congruence..|done].
Qed.

(** The file being divided counts with the parts that are left. *)
Lemma undivided_split f ps lines (dir : list (string * list string)) :
  NoDup (od_keys dir) → od_get dir f = Some lines → is_json f = true →
  undivided None dir ≡ₚ (f, lines) :: undivided (Some (f, ps)) dir ∧
  undivided (Some (f, ps)) dir ≡ₚ undivided None (od_del dir f).
Proof.
  intros Hnd Hf Hj. pose proof (od_del_perm dir f lines Hf) as Hp.
  assert (f ∉ od_keys (od_del dir f)) as Hn.
  { rewrite od_key_iff, od_get_del by done. rewrite decide_True by done. by intros []. }
  assert (undivided (Some (f, ps)) dir ≡ₚ undivided None (od_del dir f)) as H2.
  { rewrite <-(undivided_other f ps) by done. unfold undivided. rewrite Hp at 1.
    rewrite filter_cons_False; [done|]. simpl. intros [_ H]. done. }
  split; [|done]. rewrite H2. unfold undivided. rewrite Hp at 1. by rewrite filter_cons_True.
Qed.

Lemma dir_file w f : farm_ok w → f ∈ od_keys (to_measure_dir w) → is_json f = true →
  ∃ lines, od_get (to_measure_dir w) f = Some lines ∧ (f, lines) ∈ files.
Proof.
  intros Hok [lines Hl]%od_key_iff Hj. exists lines. split; [done|].
  destruct (fo_files _ Hok _ _ (od_get_elem _ _ _ Hl)) as [?|Hp]; [done|].
  apply (list_elem_of_fmap_2 fst) in Hp. apply part_not_file in Hp as [_ ?]. simpl in *. congruence.
Qed.

Lemma divide_start_ok dir bak gpu tmp ds ws mg f ps :
  farm_ok (mkFarm dir bak gpu tmp ds None ws mg) → first_json (od_keys dir) = Some f →
  divide f (default [] (od_get dir f)) = Ret ps →
  farm_ok (mkFarm dir bak gpu tmp ds (Some (f, ps)) ws mg).
Proof.
  intros Hok Hf Hps. apply first_json_spec in Hf as [Hin Hj].
  destruct (dir_file _ f Hok Hin Hj) as (lines & Hl & Hfl). simpl in Hl. rewrite Hl in Hps. simpl in Hps.
  assert (file_parts (f, lines) = ps) as Hfp by (unfold file_parts; cbn [fst snd]; by rewrite Hps).
  destruct (undivided_split f ps lines dir (fo_dir _ Hok) Hl Hj) as [Hund _].
  destruct Hok as [Hd Hf' _ Hch Hg Ht1 Ht2 (dn & Hacc & Hdone) Hmg]. split; simpl in *; try done.
  - intros f2 ps2 [= <- <-]. split; [done|]. split; [by apply (list_elem_of_fmap_2 fst _ _ Hfl)|].
    intros x Hx. unfold all_parts. apply list_elem_of_concat. exists ps. split; [done|].
    rewrite <-Hfp. by apply list_elem_of_fmap_2.
  - exists dn. split; [|done]. rewrite <-Hacc. unfold account. simpl. rewrite Hund.
    change (all_parts ((f, lines) :: ?l)) with (file_parts (f, lines) ++ all_parts l). rewrite Hfp.
    rewrite !account_of_app. simpl. solve_perm.
Qed.

Lemma divide_write_ok dir bak gpu tmp ds ws mg f p lines ps :
  farm_ok (mkFarm dir bak gpu tmp ds (Some (f, (p, lines) :: ps)) ws mg) →
  farm_ok (mkFarm (od_set dir p lines) bak gpu tmp ds (Some (f, ps)) ws mg).
Proof.
  intros Hok. destruct (fo_div _ Hok _ _ eq_refl) as (Hfd & Hff & Hall). simpl in *.
  assert ((p, lines) ∈ all_parts files) as Hpl by (apply Hall; left).
  destruct (part_not_file p (list_elem_of_fmap_2 fst _ _ Hpl)) as [Hpart Hj].
  assert (od_get dir p = None) as Hfresh.
  { apply od_get_None_key. intros [l Hl]%od_key_iff. pose proof (account_nodup _ Hok) as Hnd.
    unfold account in Hnd. simpl in Hnd. rewrite !fmap_app, !account_of_names, !fmap_app in Hnd.
    apply NoDup_app in Hnd as (Hnd & _). apply NoDup_app in Hnd as (_ & _ & Hnd).
    rewrite fmap_cons in Hnd. apply NoDup_cons in Hnd as [Hnd _]. apply Hnd. apply list_elem_of_fmap.
    exists (p, l). split; [done|]. apply elem_of_app. right. unfold part_files. apply list_elem_of_filter. by apply od_get_elem in Hl. }
  rewrite od_set_fresh by done.
  destruct Hok as [Hd Hf' _ Hch Hg Ht1 Ht2 (dn & Hacc & Hdone) Hmg]. split; simpl in *; try done.
  - rewrite <-(od_set_fresh dir) by done. by apply od_set_NoDup.
  - intros f2 l2 [Hin|Hin]%elem_of_app; [by apply Hf'|]. apply list_elem_of_singleton in Hin. injection Hin as -> ->.
    by right.
  - intros f2 ps2 [= <- <-]. split; [|split; [done|]].
    + unfold od_keys in *. rewrite fmap_app. apply elem_of_app. by left.
    + intros x Hx. apply Hall. by right.
  - exists dn. split; [|done]. rewrite <-Hacc. unfold account. simpl.
    assert (undivided (Some (f, ps)) (dir ++ [(p, lines)]) = undivided (Some (f, (p, lines) :: ps)) dir) as ->.
    { unfold undivided. rewrite filter_app, (filter_cons_False _ (p, lines)), filter_nil, app_nil_r; [done|].
      simpl. rewrite Hj. by intros [? _]. }
    assert (part_files (dir ++ [(p, lines)]) = part_files dir ++ [(p, lines)]) as ->.
    { unfold part_files. by rewrite filter_app, filter_cons_True. }
    change ((p, lines) :: ps ++ part_files dir) with ([(p, lines)] ++ ps ++ part_files dir).
    rewrite !account_of_app. solve_perm.
Qed.

Lemma divide_end_ok dir bak gpu tmp ds ws mg f bak' :
  farm_ok (mkFarm dir bak gpu tmp ds (Some (f, [])) ws mg) →
  farm_ok (mkFarm (od_del dir f) bak' gpu tmp ds None ws mg).
Proof.
  intros Hok. destruct (fo_div _ Hok _ _ eq_refl) as (Hfd & Hff & _). simpl in *.
  destruct (file_not_part f Hff) as [Hj Hnp]. pose proof Hfd as [lines Hl]%od_key_iff.
  destruct (undivided_split f [] lines dir (fo_dir _ Hok) Hl Hj) as [_ Hund].
  assert (part_files dir ≡ₚ part_files (od_del dir f)) as Hparts.
  { unfold part_files. rewrite (od_del_perm dir f lines Hl) at 1. rewrite filter_cons_False; [done|].
    simpl. congruence. }
  destruct Hok as [Hd Hf' _ Hch Hg Ht1 Ht2 (dn & Hacc & Hdone) Hmg]. split; simpl in *; try done.
  - by apply od_del_NoDup.
  - intros f2 l2 Hin%od_del_subseteq. by apply Hf'.
  - exists dn. split; [|done]. rewrite <-Hacc. unfold account. simpl. by rewrite Hund, Hparts.
Qed.

(** ** The merger *)

Lemma parts_nodup w : farm_ok w → NoDup (od_keys (measured_part (dirs w))).
Proof.
  intros Hok. pose proof (account_nodup _ Hok) as Hnd. unfold account in Hnd.
  rewrite !fmap_app in Hnd. apply NoDup_app in Hnd as (_ & _ & Hnd). by apply NoDup_app in Hnd as (_ & _ & ?).
Qed.

Lemma glob_ok dir bak gpu tmp ds div ws l :
  farm_ok (mkFarm dir bak gpu tmp ds div ws (l, [])) →
  let names := od_keys (measured_part ds) in
  farm_ok (mkFarm dir bak gpu tmp ds div ws (names, names)).
Proof.
  intros Hok names. pose proof (parts_nodup _ Hok) as Hnd.
  assert (∀ p, p ∈ names → p ∈ (all_parts files).*1) as Hall.
  { intros p Hp. apply elem_of_parts. apply (account_file _ p Hok). unfold account. rewrite !fmap_app, !elem_of_app.
    do 2 right. done. }
  destruct Hok as [Hd Hf' Hdv Hch Hg Ht1 Ht2 Hacc _]. split; simpl in *; try done.
  split; [done|]. split; [|done]. intros p Hp. split; [done|by apply Hall].
Qed.

Lemma dels_perm (kvs : list (string * list string)) : ∀ d : list (string * list string),
  NoDup kvs.*1 → (∀ k v, (k, v) ∈ kvs → od_get d k = Some v) → d ≡ₚ kvs ++ foldl od_del d kvs.*1.
Proof.
  induction kvs as [|[k v] kvs IH]; intros d Hnd Hk; [done|]. rewrite fmap_cons in *. apply NoDup_cons in Hnd as [Hn Hnd].
  simpl. rewrite <-IH; [by apply od_del_perm, Hk; left|done|].
  intros k' v' Hin. rewrite od_get_del_ne; [by apply Hk; right|].
  intros ->. by apply Hn, (list_elem_of_fmap_2 fst _ (k', v')).
Qed.

(** A visit of the first part of a file whose parts were all listed. *)
Lemma merge_ok dir bak gpu tmp ds div ws listing rest fl :
  let names := part_name fl.1 <$> range 0 n_part in
  farm_ok (mkFarm dir bak gpu tmp ds div ws (listing, part_name fl.1 0 :: rest)) → fl ∈ files →
  (∀ p, p ∈ names → p ∈ listing) →
  pymap (λ f, match od_get (measured_part ds) f with Some l => Ret l | None => Raise IOError end) names =
    Ret (recs <$> (file_parts fl).*2) ∧
  farm_ok (mkFarm dir bak gpu tmp
    (mkDirs (foldl od_del (measured_part ds) names)
       (od_set (measured ds) fl.1 (concat (recs <$> (file_parts fl).*2)))) div ws (listing, rest)).
Proof.
  intros names Hok Hfl Hlist. pose proof (parts_nodup _ Hok) as Hmp.
  assert ((account_of (file_parts fl)).*1 = names) as Hnames by (rewrite account_of_names; apply file_parts_names).
  assert (∀ p, p ∈ names → ∃ i, (0 ≤ i < n_part)%Z ∧ p = part_name fl.1 i) as Hin.
  { intros p (i & -> & Hi%elem_of_range)%list_elem_of_fmap. by exists i. }
  assert (∀ p, p ∈ names → p ∈ od_keys (measured_part ds)) as Hhave.
  { intros p Hp. pose proof (Hlist p Hp) as Hl. destruct (Hin p Hp) as (i & Hi & ->).
    destruct (fo_merger _ Hok) as (_ & _ & Hm). apply Hm; [left|done|done]. }
  assert (∀ k v, (k, v) ∈ account_of (file_parts fl) → od_get (measured_part ds) k = Some v) as Hget.
  { intros k v Hkv. assert (k ∈ names) as Hk by (rewrite <-Hnames; by apply (list_elem_of_fmap_2 fst _ (k, v))).
    destruct (proj1 (od_key_iff _ _) (Hhave k Hk)) as [out Ho]. rewrite Ho. f_equal.
    unfold account_of in Hkv. apply list_elem_of_fmap in Hkv as ([q lines] & [= -> ->] & Hq). simpl.
    apply (account_value _ q out lines Hok).
    - unfold account. rewrite !elem_of_app. do 2 right. by apply od_get_elem.
    - unfold all_parts. apply list_elem_of_concat. exists (file_parts fl). split; [done|].
      by apply list_elem_of_fmap_2. }
  assert (NoDup names) as Hndn.
  { rewrite <-Hnames, account_of_names. pose proof (all_parts_NoDup files Hfiles) as Hnd.
    apply list_elem_of_split in Hfl as (l1 & l2 & Hsplit). rewrite Hsplit, all_parts_app in Hnd.
    change (all_parts (fl :: l2)) with (file_parts fl ++ all_parts l2) in Hnd.
    rewrite !fmap_app in Hnd. apply NoDup_app in Hnd as (_ & _ & Hnd). by apply NoDup_app in Hnd as (? & _). }
  split.
  - rewrite <-Hnames. assert (∀ kvs : list (string * list string), (∀ k v, (k, v) ∈ kvs → od_get (measured_part ds) k = Some v) →
      pymap (λ f, match od_get (measured_part ds) f with Some l => Ret l | None => Raise IOError end) kvs.*1 = Ret kvs.*2) as Hpm.
    { clear. induction kvs as [|[k v] kvs IH]; intros Hk; [done|]. csimpl. rewrite (Hk k v) by left. simpl.
      rewrite IH; [done|]. intros k' v' Hin. apply Hk. by right. }
    rewrite Hpm by done. unfold account_of. by rewrite <-!list_fmap_compose.
  - pose proof (dels_perm (account_of (file_parts fl)) (measured_part ds)) as Hperm. rewrite Hnames in Hperm.
    specialize (Hperm Hndn Hget). pose proof (account_nodup _ Hok) as Hacnd.
    destruct Hok as [Hd Hf' Hdv Hch Hg Ht1 Ht2 (dn & Hacc & Hdone & Hsub) (Hm1 & Hm2 & Hm3)]. split; farm_simpl; try done.
    + exists (dn ++ [fl]). split.
      * rewrite <-Hacc. unfold account. farm_simpl.
        set (mp' := foldl od_del _ _) in *. rewrite Hperm, all_parts_app.
        change (all_parts [fl]) with (file_parts fl ++ []). rewrite app_nil_r, !account_of_app. solve_perm.
      * split; [|intros x [Hx|Hx]%elem_of_app; [by apply Hsub|by apply list_elem_of_singleton in Hx as ->]].
        rewrite Hdone, fmap_app. apply od_set_fresh. apply od_get_None_key. intros Hk.
        unfold od_keys in Hk. rewrite <-list_fmap_compose in Hk.
        apply list_elem_of_fmap in Hk as (fl2 & Heq & Hdn). simpl in Heq.
        assert (NoDup (account (mkFarm dir bak gpu tmp ds div ws (listing, part_name fl.1 0 :: rest)) ++
                       account_of (all_parts dn)).*1) as Hnd.
        { rewrite Hacc, account_of_names. by apply all_parts_NoDup. }
        rewrite fmap_app in Hnd. apply NoDup_app in Hnd as (_ & Hnd & _).
        apply (Hnd (part_name fl.1 0)).
        -- unfold account. rewrite !fmap_app, !elem_of_app. do 2 right. apply Hhave.
           apply list_elem_of_fmap_2. by apply elem_of_range.
        -- rewrite account_of_names. apply elem_of_parts. exists fl2, 0%Z. by rewrite Heq.
    + apply NoDup_cons in Hm1 as [Hn Hm1]. split; [done|]. split; [intros p Hp; apply Hm2; by right|].
      intros f i Hf Hi Hl. apply od_key_iff. rewrite od_get_dels by done. rewrite decide_False.
      * apply od_key_iff. apply Hm3; [by right|done|done].
      * intros Hp. destruct (Hin _ Hp) as (j & Hj & Heq). apply part_name_inj in Heq as [Heq _]; [|done..].
        apply Hn. by rewrite <-Heq.
Qed.

Lemma visit_ok dir bak gpu tmp ds div ws listing p rest :
  farm_ok (mkFarm dir bak gpu tmp ds div ws (listing, p :: rest)) →
  ∃ ds', merge_file listing p ds = (Ret tt, ds') ∧ farm_ok (mkFarm dir bak gpu tmp ds' div ws (listing, rest)).
Proof.
  intros Hok.
  assert (farm_ok (mkFarm dir bak gpu tmp ds div ws (listing, rest))) as Hskip.
  { destruct Hok as [Hd Hf' Hdv Hch Hg Ht1 Ht2 Hacc (Hm1 & Hm2 & Hm3)]. split; simpl in *; try done.
    apply NoDup_cons in Hm1 as [_ Hm1]. split; [done|]. split; [intros q Hq; apply Hm2; by right|].
    intros f i Hf. apply Hm3. by right. }
  destruct (fo_merger _ Hok) as (_ & Hall & _). simpl in Hall. destruct (Hall p) as [Hlp Hp]; [left|].
  apply elem_of_parts in Hp as (fl & i & Hfl & Hi & ->). pose proof (Hgood fl Hfl) as Hgd.
  destruct (decide (i = 0)%Z) as [->|Hne].
  2: { exists ds. split; [|done]. apply merge_file_skip, (contains_part_i fl.1 (good_not_part_0 _ Hgd)). lia. }
  unfold merge_file. rewrite (contains_part_0 fl.1), (merge_files_part_0 fl.1).
  destruct (forallb _ _) eqn:E; [|by exists ds].
  destruct (merge_ok dir bak gpu tmp ds div ws listing rest fl Hok Hfl) as [Hread Hok'].
  { intros q (j & -> & Hj%elem_of_range)%list_elem_of_fmap. destruct (decide (j = 0)%Z) as [->|Hj0]; [done|].
    rewrite forallb_forall in E. specialize (E (part_name fl.1 j)). rewrite bool_decide_eq_true in E. apply E.
    apply list_elem_of_In. change (range 0 n_part) with (0%Z :: range 1 n_part). rewrite fmap_cons.
    apply list_elem_of_fmap_2, elem_of_range. lia. }
  unfold sbind, sget, slift. rewrite Hread. unfold sput. eexists. split; [done|].
  rewrite (basename_part_0 fl.1), (good_basename _ Hgd). exact Hok'.
Qed.

(** ** Runs *)

Lemma holdings_idle gpu tmp n : holdings gpu tmp (replicate n Idle) = [].
Proof.
  assert (∀ k, concat (imap (holding gpu tmp ∘ Nat.add k) (replicate n Idle)) = []) as Hk; [|exact (Hk 0)].
  induction n as [|n IH]; intros k; [done|]. simpl. rewrite <-(IH (S k)). f_equal. apply imap_ext.
  intros i x _. simpl. f_equal. lia.
Qed.

Lemma init_ok n : farm_ok (farm_init files n).
Proof.
  assert (∀ fl, fl ∈ files → is_json fl.1 = true ∧ is_part fl.1 = false) as Hf.
  { intros fl Hin. by apply file_not_part, list_elem_of_fmap_2. }
  assert (∀ g pc, replicate n (@Idle Input) !! g = Some pc → pc = Idle) as Hw.
  { intros g pc H. by apply lookup_replicate in H as [-> _]. }
  split; simpl; try done.
  - intros f l Hin. by left.
  - intros g p Hg. apply Hw in Hg. done.
  - intros g p Hg. apply Hw in Hg. done.
  - constructor.
  - intros p. split; [by intros ?%not_elem_of_nil|]. intros (g & pc & Hg & Hp & _). apply Hw in Hg as ->. done.
  - exists []. split; [|split; [done|by intros x ?%not_elem_of_nil]]. unfold account, farm_init. farm_simpl. rewrite holdings_idle.
    assert (part_files files = []) as ->.
    { apply filter_none. intros fl Hin. destruct (Hf fl Hin). congruence. }
    assert (undivided None files = files) as ->.
    { apply filter_every. rewrite Forall_forall. intros fl Hin. destruct (Hf fl Hin). done. }
    simpl. by rewrite !app_nil_r.
  - split; [constructor|]. split; [by intros p ?%not_elem_of_nil|]. by intros f i ?%not_elem_of_nil.
Qed.

Lemma worker_act_ok a g pc w w' :
  farm_ok w → workers w !! g = Some pc → worker_act loads dumps record_input workload_key measure a g pc w = Some w' →
  ((∃ h, a = Take h) → ∀ p, pc = Chosen p → od_mem (to_measure_dir w) p = true) → farm_ok w'.
Proof.
  destruct w as [dir bak gpu tmp ds div ws mg]. intros Hok Hg Hact Hclean. simpl in Hg. farm_simpl.
  destruct a, pc as [|p|p|p rest|p|p]; cbn [worker_act] in Hact; try done.
  - destruct (first_part (od_keys dir)) as [p|] eqn:Hp; [|done]. injection Hact as <-.
    apply first_part_spec in Hp as [_ Hp]. by apply (choose_ok (mkFarm dir bak gpu tmp ds div ws mg)).
  - specialize (Hclean ltac:(by eexists) p eq_refl). unfold od_mem in Hclean.
    destruct (od_get dir p) as [lines|] eqn:Hd; [|done]. injection Hact as <-. by apply take_ok.
  - destruct (start_ok _ _ _ _ _ _ _ _ _ _ Hok Hg) as (inputs & Hs & Hok'). rewrite Hs in Hact.
    injection Hact as <-. exact Hok'.
  - case_bool_decide; [|done]. injection Hact as <-. by apply append_ok.
  - destruct rest; [|done]. injection Hact as <-. by apply end_ok.
  - injection Hact as <-. by apply remove_ok.
  - destruct (deliver_ok _ _ _ _ _ _ _ _ _ _ Hok Hg) as (lines & Hl & Hok'). rewrite Hl in Hact.
    injection Hact as <-. exact Hok'.
Qed.

Lemma perform_ok a w w' : farm_ok w → clean a w = true → perform a w = Some w' → farm_ok w'.
Proof.
  destruct w as [dir bak gpu tmp ds div ws [listing todo]]. intros Hok Hclean Hact.
  assert (∀ g, (∃ pc, ws !! g = Some pc ∧
    worker_act loads dumps record_input workload_key measure a g pc (mkFarm dir bak gpu tmp ds div ws (listing, todo)) = Some w') →
    (∀ h, a = Take h → h = g) → farm_ok w') as Hworker.
  { intros g (pc & Hg & Hw) Hh. eapply worker_act_ok; [exact Hok|exact Hg|exact Hw|].
    intros [h ->] p ->. rewrite (Hh h eq_refl) in Hclean. simpl in Hclean, Hg. by rewrite Hg in Hclean. }
  destruct a as [| | |g|g|g|g k|g|g|g| | |]; cbn [Farm.perform] in Hact; try done.
  - destruct div; [done|]. destruct (first_json (od_keys dir)) as [f|] eqn:Hf; [|done].
    destruct (divide f _) as [ps|] eqn:Hps; [|done]. injection Hact as <-. by apply divide_start_ok.
  - destruct div as [[f [|[p lines] ps]]|]; try done. injection Hact as <-. by eapply divide_write_ok.
  - destruct div as [[f [|? ?]]|]; try done. injection Hact as <-. by eapply divide_end_ok.
  - destruct (ws !! g) as [pc|] eqn:Hg; [|done]. apply (Hworker g); [by exists pc|done].
  - destruct (ws !! g) as [pc|] eqn:Hg; [|done]. apply (Hworker g); [by exists pc|by intros h [= ->]].
  - destruct (ws !! g) as [pc|] eqn:Hg; [|done]. apply (Hworker g); [by exists pc|done].
  - destruct (ws !! g) as [pc|] eqn:Hg; [|done]. apply (Hworker g); [by exists pc|done].
  - destruct (ws !! g) as [pc|] eqn:Hg; [|done]. apply (Hworker g); [by exists pc|done].
  - destruct (ws !! g) as [pc|] eqn:Hg; [|done]. apply (Hworker g); [by exists pc|done].
  - destruct (ws !! g) as [pc|] eqn:Hg; [|done]. apply (Hworker g); [by exists pc|done].
  - destruct todo; [|done]. injection Hact as <-. by eapply glob_ok.
  - destruct todo as [|p rest]; [done|].
    destruct (visit_ok _ _ _ _ _ _ _ _ _ _ Hok) as (ds' & Hm & Hok'). rewrite Hm in Hact.
    injection Hact as <-. exact Hok'.
Qed.

Lemma clean_run_ok n w :
  rtc (clean_step loads dumps record_input workload_key measure) (farm_init files n) w → farm_ok w.
Proof.
  intros Hr. assert (∀ u, rtc (clean_step loads dumps record_input workload_key measure) u w → farm_ok u → farm_ok w)
    as H by (induction 1 as [|u v w' (a & Hc & Hp) _ IH]; [done|]; intros; eapply IH, perform_ok; eauto).
  apply (H _ Hr), init_ok.
Qed.

(** C29: the farm loses nothing in a clean run.  Whatever the interleaving of
    the divider, the workers and the merger, as long as no worker is overtaken
    between choosing a part and moving it, and nothing is killed: every merged
    file holds the records of the six parts of the file, in order, whose lines
    are the lines of the file; every part of every other file is accounted for
    exactly once, in a directory or with a worker, with the records it has or
    will have; and the merger never fails. *)
Theorem farm_conserves n w :
  rtc (clean_step loads dumps record_input workload_key measure) (farm_init files n) w →
  (∀ f out, od_get (measured (dirs w)) f = Some out →
     ∃ lines ps, (f, lines) ∈ files ∧ parts n_part lines = Ret ps ∧ concat ps = lines ∧
       out = concat (recs <$> ps)) ∧
  (∃ done, account w ++ account_of (all_parts done) ≡ₚ account_of (all_parts files) ∧
     od_keys (measured (dirs w)) = done.*1) ∧
  (account w = [] → ∀ f, f ∈ files.*1 → f ∈ od_keys (measured (dirs w))) ∧
  ∀ p rest, merger w = (p, rest) → rest ≠ [] → is_Some (perform Visit w).
Proof.
  intros Hr. pose proof (clean_run_ok n w Hr) as Hok.
  destruct (fo_account _ Hok) as (dn & Hacc & Hdone & Hsub).
  assert (od_keys (measured (dirs w)) = dn.*1) as Hkeys.
  { unfold od_keys. rewrite Hdone, <-list_fmap_compose. done. }
  split; [|split; [by exists dn|split]].
  - intros f out Hf%od_get_elem. rewrite Hdone in Hf. apply list_elem_of_fmap in Hf as ([f' lines] & Heq & Hfl).
    unfold merged_file in Heq. apply pair_eq in Heq as [-> ->]. cbn [fst].
    destruct (file_parts_spec (f', lines)) as (ps & Hps & Hfp & Hlen & Hcat). simpl in Hps, Hcat.
    exists lines, ps. split; [by apply Hsub|]. split; [done|]. split; [done|].
    rewrite Hfp, snd_zip; [done|]. rewrite length_fmap, Hlen. done.
  - intros Hnil f (fl & -> & Hfl)%list_elem_of_fmap. rewrite Hkeys. rewrite Hnil in Hacc. simpl in Hacc.
    assert (part_name fl.1 0 ∈ (all_parts dn).*1) as Hin.
    { rewrite <-account_of_names, Hacc, account_of_names. apply elem_of_parts. by exists fl, 0%Z. }
    apply elem_of_parts in Hin as (fl' & i & Hf & Hi & Heq). apply part_name_inj in Heq as [-> _]; [|done..].
    by apply list_elem_of_fmap_2.
  - intros p rest Hm Hne. destruct w as [dir bak gpu tmp ds div ws mg]. simpl in Hm. subst mg.
    destruct rest as [|q rest]; [done|]. destruct (visit_ok _ _ _ _ _ _ _ _ _ _ Hok) as (ds' & Hv & _).
    simpl. rewrite Hv. by eexists.
Qed.

(** The only worker finds the part it chose. *)
Definition alone (w : @farm Input) : Prop :=
  length (workers w) = 1 ∧ ∀ p, workers w !! 0 = Some (Chosen p) → p ∈ od_keys (to_measure_dir w).

Lemma alone_clean a w : alone w → a ≠ Restart → clean a w = true.
Proof.
  intros [Hlen Hch] Ha. destruct a; try done. simpl. destruct (workers w !! g) as [pc|] eqn:Hg; [|done].
  pose proof (lookup_lt_Some _ _ _ Hg). assert (g = 0) as -> by lia.
  destruct pc; try done. apply Hch, od_key_iff in Hg as [l Hl]. unfold od_mem. by rewrite Hl.
Qed.

Lemma alone_set_worker g pc dir bak gpu tmp ds div ws mg :
  length ws = 1 → (∀ p, pc = Chosen p → p ∈ od_keys dir) →
  alone (mkFarm dir bak gpu tmp ds div (<[g := pc]> ws) mg) ∨ g ≠ 0.
Proof.
  intros Hlen Hpc. destruct (decide (g = 0)) as [->|]; [left|by right]. split; simpl; [by rewrite length_insert|].
  intros p Hp. apply Hpc. apply list_lookup_insert_Some in Hp as [(_ & ? & _)|(? & _)]; [done|done].
Qed.

Lemma perform_alone a w w' : farm_ok w → alone w → a ≠ Restart → perform a w = Some w' → alone w'.
Proof.
  destruct w as [dir bak gpu tmp ds div ws [listing todo]]. intros Hok [Hlen Hch] Ha Hact. farm_simpl.
  assert (∀ g pc, ws !! g = Some pc →
    worker_act loads dumps record_input workload_key measure a g pc (mkFarm dir bak gpu tmp ds div ws (listing, todo)) = Some w' →
    alone w') as Hworker.
  { intros g pc Hg Hw. pose proof (lookup_lt_Some _ _ _ Hg). assert (g = 0) as -> by lia.
    assert (∀ pc dir' gpu' tmp' ds', (∀ p, pc = Chosen p → p ∈ od_keys dir') →
      alone (mkFarm dir' bak gpu' tmp' ds' div (<[0 := pc]> ws) (listing, todo))) as Hset.
    { intros pc' dir' gpu' tmp' ds' Hp.
      by destruct (alone_set_worker 0 pc' dir' bak gpu' tmp' ds' div ws (listing, todo) Hlen Hp). }
    destruct a, pc as [|p|p|p rest|p|p]; cbn [worker_act] in Hw; try done.
    - destruct (first_part (od_keys dir)) as [p|] eqn:Hp; [|done]. injection Hw as <-.
      apply Hset. intros q [= <-]. by apply first_part_spec in Hp as [? _].
    - injection Hw as <-. destruct (od_get dir p); by apply Hset.
    - destruct (start _ _ _ _ _ _) as [content [inputs|]]; injection Hw as <-; by apply Hset.
    - case_bool_decide; [|done]. injection Hw as <-. by apply Hset.
    - destruct rest; [|done]. injection Hw as <-. by apply Hset.
    - injection Hw as <-. by apply Hset.
    - injection Hw as <-. destruct (od_get tmp p); by apply Hset. }
  destruct a as [| | |g|g|g|g k|g|g|g| | |]; cbn [Farm.perform] in Hact; try done;
    try (destruct (ws !! g) as [pc|] eqn:Hg; [by eapply Hworker|done]).
  - destruct div; [done|]. destruct (first_json (od_keys dir)) as [f|]; [|done].
    destruct (divide f _) as [ps|]; [|done]. by injection Hact as <-.
  - destruct div as [[f [|[p lines] ps]]|]; try done. injection Hact as <-. split; [done|]. simpl.
    intros q Hq. apply Hch in Hq. rewrite od_keys_set. destruct (od_mem dir p); [done|]. apply elem_of_app. by left.
  - destruct div as [[f [|? ?]]|]; try done. injection Hact as <-. split; [done|]. simpl.
    intros q Hq. destruct (fo_div _ Hok _ _ eq_refl) as (_ & Hf & _). apply file_not_part in Hf as [_ Hf].
    pose proof (fo_chosen _ Hok _ _ Hq) as Hpart. apply Hch in Hq. apply od_key_iff.
    rewrite od_get_del_ne by (intros ->; congruence). by apply od_key_iff.
  - destruct todo; [|done]. by injection Hact as <-.
  - destruct todo as [|p rest]; [done|]. destruct (merge_file listing p ds) as [[|] ds']; [|done].
    by injection Hact as <-.
Qed.

(** With a single worker every run without a restart is clean, so that
    nothing is lost. *)
Theorem single_worker_clean w :
  rtc (λ u v, ∃ a, a ≠ Restart ∧ perform a u = Some v) (farm_init files 1) w →
  rtc (clean_step loads dumps record_input workload_key measure) (farm_init files 1) w.
Proof.
  intros Hr.
  assert (rtc (clean_step loads dumps record_input workload_key measure) (farm_init files 1) w ∧ alone w) as [? _]; [|done].
  revert w Hr. apply rtc_ind_r; [by split|]. intros u v _ (a & Ha & Hp) (IH & Hal).
  split; [|eapply perform_alone; [by eapply clean_run_ok|..]; eauto].
  eapply rtc_r; [exact IH|]. exists a. split; [by apply alone_clean|done].
Qed.
End Farm.

(** ** Records that are lost *)

(** The program of a record is its first character. *)
Definition sample_loads (line : string) : py json :=
  match line with
  | EmptyString => Raise JSONDecodeError
  | String c _ => Ret (JObj [("i", JStr (String c ""))])
  end.
Definition sample_dumps (j : json) : string := match j with JStr s => s | _ => "" end.
Definition sample_measure (l : list string) : list string := (λ s, s +:+ "!") <$> l.
Definition sample_run : list action → farm → option farm :=
  run sample_loads sample_dumps Ret (λ _, "w") sample_measure.
Definition sample_lines : list string := ["a"; "b"; "c"; "d"; "e"; "f"; "g"; "h"; "i"; "j"; "k"; "l"].

Definition divide_all : list action := DivideStart :: repeat DivideWrite 6 ++ [DivideEnd].
Definition one_part (g : nat) : list action :=
  [Choose g; Take g; Start g; Append g 2; End g; Remove g; Deliver g].
Definition merge_all : list action := Glob :: repeat Visit 6.

(** Two workers choose the first part; the second one finds no part, delivers
    what the first one has written so far, and the merged file lacks a record
    that was measured. *)
Definition overtaken_run : list action :=
  divide_all ++ [Choose 0; Choose 1; Take 0; Take 1; Start 0; Append 0 1; Start 1; Remove 1; Deliver 1;
                 Append 0 1; End 0; Remove 0] ++ concat (repeat (one_part 1) 5) ++ merge_all ++ [Deliver 0].

(** The script is restarted while a part is being measured: the measuring
    process notes the records in the file, empties it, and measures the others. *)
Definition restarted_run : list action :=
  divide_all ++ [Choose 0; Take 0; Start 0; Append 0 1; Restart; Choose 0; Take 0; Start 0; Append 0 1; End 0;
                 Remove 0; Deliver 0] ++ concat (repeat (one_part 0) 5) ++ merge_all.

(** The two ways to lose records.  With two workers and no restart there
    is a run in which one of them is overtaken, and with one worker there is a
    run with a restart, that end with every file merged and every worker idle,
    and with a merged file that lacks the record of a program that has been
    measured. *)
Theorem farm_loses_records :
  (∃ w, sample_run overtaken_run (farm_init [("f.json", sample_lines)] 2) = Some w ∧
     (Restart ∉ overtaken_run) ∧ workers w = [Idle; Idle] ∧ to_measure_dir w = [] ∧
     od_get (measured (dirs w)) "f.json" = Some (sample_measure (remove1 "b" sample_lines))) ∧
  (∃ w, sample_run restarted_run (farm_init [("f.json", sample_lines)] 1) = Some w ∧
     workers w = [Idle] ∧ to_measure_dir w = [] ∧ measured_part (dirs w) = [] ∧
     od_get (measured (dirs w)) "f.json" = Some (sample_measure (remove1 "a" sample_lines))).
Proof.
  split; (eexists; split; [vm_compute; reflexivity|]); vm_compute.
  - split_and!; try done. intros H. repeat (apply elem_of_cons in H as [H|H]; [done|]). by apply not_elem_of_nil in H.
  - done.
Qed.
