(* ===== verification/Records.v ===== *)
(** * Tuning records

    The log format of autotvm: encoding and decoding of a measurement, loading
    of log files, the tools that split a log by workload and distill its best
    records, and the database of records.
    Sources: src/python/tvm/autotvm/record.py, database.py. *)

From S2P Require Import Prelude PyFloat PyText Transforms ConfigSpace Tuner Dispatcher Measure.

(** ** Data *)

(** A [Task] by its name and arguments.  In the arguments [JArr] stands for a
    tuple. *)
Record rtask := mkRTask { rt_name : string; rt_args : list json; rt_kwargs : json }.

(** [MeasureInput] and [MeasureResult]. *)
Record MeasureInput := mkMI { mi_target : target; mi_task : rtask; mi_config : ConfigEntity }.

Record MeasureResult := mkMR {
  mr_costs : costs_t;
  mr_error_no : Z;
  mr_all_cost : flt;
  mr_timestamp : flt
}.

(** A decoded row, with [config.cost]. *)
Record decoded := mkDecoded { d_inp : MeasureInput; d_res : MeasureResult; d_cost : flt }.

(** ** Text forms *)

Section Keys.
(** [repr] of a float. *)
Context (repr_float : flt → string).

(** [str] of a tuple of arguments. *)
Fixpoint tuple_repr (j : json) : string :=
  match j with
  | JArr [x] => "(" +:+ tuple_repr x +:+ ",)"
  | JArr l => "(" +:+ str_join ", " (tuple_repr <$> l) +:+ ")"
  | _ => py_repr repr_float j
  end.

(** [__repr__] of the entities. *)
Definition annval_json (a : annval) : json :=
  match a with AnnStr s => JStr s | AnnInt z => JInt z end.

Definition optval_json (v : optval) : json :=
  match v with VNone => JNull | VBool b => JBool b | VInt z => JInt z | VStr s => JStr s end.

Definition entity_repr (e : entity) : string :=
  match e with
  | SplitEntity size => py_repr repr_float (JArr (JInt <$> size))
  | ReorderEntity perm => py_repr repr_float (JArr (JInt <$> perm))
  | AnnotateEntity anns => py_repr repr_float (JArr (annval_json <$> anns))
  | OtherOptionEntity val => py_str repr_float (optval_json val)
  end.

(** [ConfigEntity.__repr__]: the text of an ordered dict is that of the list of
    its items, as before Python 3.12; without items nothing is left of it. *)
Definition config_repr (c : ConfigEntity) : string :=
  (match ce_entities c with
   | [] => ""
   | l => "[" +:+ str_join ", " ((λ '(k, e), "(" +:+ repr_str k +:+ ", " +:+ entity_repr e +:+ ")") <$> l) +:+ "]"
   end) +:+ "," +:+ default "None" (ce_code_hash c) +:+ "," +:+ pretty (ce_index c).

(** [measure_str_key]. *)
Definition measure_str_key (inp : MeasureInput) (include_config : bool) : string :=
  tg_str (mi_target inp) +:+ rt_name (mi_task inp) +:+ tuple_repr (JArr (rt_args (mi_task inp))) +:+
  py_repr repr_float (rt_kwargs (mi_task inp)) +:+
  (if include_config then config_repr (mi_config inp) else "").
End Keys.

(** ** The configuration as a document *)

Definition knob_args_json (a : knob_args) : json :=
  match a with
  | ArgInts l => JArr (JInt <$> l)
  | ArgAnns l => JArr (annval_json <$> l)
  | ArgVal v => optval_json v
  end.

Definition config_json (c : ConfigEntity) : json :=
  let d := to_json_dict c in
  JObj [("index", JInt (js_index d));
        ("code_hash", match js_code_hash d with Some s => JStr s | None => JNull end);
        ("entity", JArr ((λ '(k, t, a), JArr [JStr k; JStr t; knob_args_json a]) <$> js_entity d))].

(** The arguments of a knob as the type of the knob has them. *)
Definition as_int (j : json) : py Z := match j with JInt z => Ret z | _ => Raise TypeError end.

Definition as_ann (j : json) : py annval :=
  match j with JStr s => Ret (AnnStr s) | JInt z => Ret (AnnInt z) | _ => Raise TypeError end.

Definition as_opt (j : json) : py optval :=
  match j with
  | JNull => Ret VNone
  | JBool b => Ret (VBool b)
  | JInt z => Ret (VInt z)
  | JStr s => Ret (VStr s)
  | _ => Raise TypeError
  end.

Definition knob_args_of (knob_type : string) (j : json) : py knob_args :=
  if bool_decide (knob_type = "sp" ∨ knob_type = "re") then
    let? l := as_arr j in let? l := pymap as_int l in Ret (ArgInts l)
  else if bool_decide (knob_type = "an") then
    let? l := as_arr j in let? l := pymap as_ann l in Ret (ArgAnns l)
  else if bool_decide (knob_type = "ot") then let? v := as_opt j in Ret (ArgVal v)
  else Raise RuntimeError.

(** [key, knob_type, knob_args = item]. *)
Definition knob_row (item : json) : py (string * string * knob_args) :=
  let? l := as_arr item in
  match l with
  | [key; knob_type; args] =>
      let? key := as_string key in
      let? knob_type := as_string knob_type in
      let? args := knob_args_of knob_type args in
      Ret (key, knob_type, args)
  | _ => Raise ValueError
  end.

(** [ConfigEntity.from_json_dict] on a document. *)
Definition config_of_json (j : json) : py ConfigEntity :=
  let? index := jkey "index" j in
  let? index := as_int index in
  let? code_hash := jkey "code_hash" j in
  let? code_hash := match code_hash with JNull => Ret None | j => let? s := as_string j in Ret (Some s) end in
  let? items := jkey "entity" j in
  let? items := as_arr items in
  let? rows := pymap knob_row items in
  from_json_dict (mkJson index code_hash rows).

(** ** Encoding and decoding *)

(** What the code calls and this repository's Python does not define: [json],
    [str] of a float, [tvm.target.Target], [tvm.__version__], and [base64] of
    [pickle] for the three things the pickle protocol writes. *)
Class Codec := {
  json_loads : string → py json;
  json_dumps : json → string;
  float_repr : flt → string;
  Target : string → py target;
  tvm_version : string;
  pickle_task : rtask → string;
  unpickle_task : string → py rtask;
  pickle_config : ConfigEntity → string;
  unpickle_config : string → py ConfigEntity;
  pickle_result : MeasureResult → string;
  unpickle_result : string → py MeasureResult
}.

(** What it promises: reading gives back what was written. *)
Class CodecOk `{Codec} : Prop := {
  json_loads_dumps j : json_loads (json_dumps j) = Ret j;
  unpickle_pickle_task t : unpickle_task (pickle_task t) = Ret t;
  unpickle_pickle_config c : unpickle_config (pickle_config c) = Ret c;
  unpickle_pickle_result r : unpickle_result (pickle_result r) = Ret r
}.

Section Codec.
Context `{Numpy, !Codec}.

Definition AUTOTVM_LOG_VERSION : flt := fdiv_raw (f_of_Z 2) (f_of_Z 10).
Definition log_version_1 : flt := fdiv_raw f1 (f_of_Z 10).

(** [result.costs if result.error_no == 0 else (1e9,)]; costs that are not times
    are not serialisable. *)
Definition costs_json (r : MeasureResult) : py json :=
  if decide (mr_error_no r = 0)%Z then
    match mr_costs r with
    | CostTimes l => Ret (JArr (JFloat <$> l))
    | CostError _ _ => Raise TypeError
    end
  else Ret (JArr [JFloat f_1e9]).

Definition record_json (inp : MeasureInput) (r : MeasureResult) : py json :=
  let? costs := costs_json r in
  Ret (JObj [("input", JArr [JStr (tg_str (mi_target inp)); JStr (rt_name (mi_task inp));
                             JArr (rt_args (mi_task inp)); rt_kwargs (mi_task inp)]);
             ("config", config_json (mi_config inp));
             ("result", JArr [costs; JInt (mr_error_no r); JFloat (mr_all_cost r); JFloat (mr_timestamp r)]);
             ("version", JFloat AUTOTVM_LOG_VERSION);
             ("tvm_version", JStr tvm_version)]).

Definition tab : Ascii.ascii := Ascii.ascii_of_nat 9.

(** [encode]. *)
Definition encode (inp : MeasureInput) (r : MeasureResult) (protocol : string) : py string :=
  if decide (protocol = "json") then let? j := record_json inp r in Ret (json_dumps j)
  else if decide (protocol = "pickle") then
    Ret (str_join (String tab EmptyString)
           [tg_str (mi_target inp); pickle_task (mi_task inp); pickle_config (mi_config inp);
            pickle_result r; float_repr AUTOTVM_LOG_VERSION; tvm_version])
  else Raise RuntimeError.

(** [clean_json_to_python]: a list becomes a tuple, and a [bool] is an [int]. *)
Fixpoint clean_json_to_python (j : json) : json :=
  match j with
  | JArr l => JArr (clean_json_to_python <$> l)
  | JBool b => JInt (if b then 1 else 0)
  | _ => j
  end.

(** [tgt.replace("-target", "-mtriple")] where it applies. *)
Definition fix_target (tgt : string) : string :=
  if str_contains "-target" tgt then str_replace "-target" "-mtriple" tgt else tgt.

(** [np.mean(result.costs)]. *)
Definition costs_mean (c : costs_t) : py flt :=
  match c with CostTimes l => Ret (np_mean l) | CostError _ _ => Raise TypeError end.

(** [MeasureResult] of the items of [row["result"]]. *)
Definition result_of_json (j : json) : py MeasureResult :=
  let? l := as_arr j in
  match l with
  | [costs; error_no; all_cost; timestamp] =>
      let? costs := as_arr costs in
      let? costs := pymap as_float costs in
      let? error_no := as_int error_no in
      let? all_cost := as_float all_cost in
      let? timestamp := as_float timestamp in
      Ret (mkMR (CostTimes costs) error_no all_cost timestamp)
  | _ => Raise TypeError
  end.

(** [row["input"]], unpacked. *)
Definition input_of_json (j : json) : py (string * rtask) :=
  let? l := as_arr j in
  match l with
  | [tgt; task_name; task_args; task_kwargs] =>
      let? name := as_string (clean_json_to_python task_name) in
      let? args := as_arr (clean_json_to_python task_args) in
      Ret (py_str float_repr tgt, mkRTask name args (JObj []))
  | _ => Raise ValueError
  end.

(** Is the row of version 0.1? *)
Definition old_row (row : json) : bool :=
  match row with
  | JObj l => match od_get l "v" with
              | Some (JFloat x) => feqb x log_version_1
              | _ => false
              end
  | _ => false
  end.

(** [decode]: the state is [_old_version_warning], and [None] means that the row
    is of an old version. *)
Definition decode (row : string) (protocol : string) : ST bool (option decoded) :=
  if decide (protocol = "json") then
    let! row := slift (json_loads row) in
    if old_row row then let! _ := sput false in sret None else
    slift (let? i := jkey "input" row in
           let? (tgt, tsk) := input_of_json i in
           let? tgt := Target (fix_target tgt) in
           let? c := jkey "config" row in
           let? config := config_of_json c in
           let? r := jkey "result" row in
           let? result := result_of_json r in
           let? cost := costs_mean (mr_costs result) in
           Ret (Some (mkDecoded (mkMI tgt tsk config) result cost)))
  else if decide (protocol = "pickle") then
    let items := str_split tab row in
    if bool_decide (length items = 4) then let! _ := sput false in sret None else
    slift (let? i0 := pynth items 0 in
           let? tgt := Target i0 in
           let? i1 := pynth items 1 in
           let? t := unpickle_task i1 in
           let? i2 := pynth items 2 in
           let? config := unpickle_config i2 in
           let? i3 := pynth items 3 in
           let? result := unpickle_result i3 in
           let? cost := costs_mean (mr_costs result) in
           Ret (Some (mkDecoded (mkMI tgt (mkRTask (rt_name t) (rt_args t) (JObj [])) config) result cost)))
  else sraise RuntimeError.

(** ** Log files *)

(** [row.startswith("#")]. *)
Definition is_comment (row : string) : bool :=
  match row with String c _ => bool_decide (c = "#"%char) | EmptyString => false end.

(** [load_from_buffer] and [load_from_file], on the lines without their line
    ends. *)
Fixpoint load_from_lines (rows : list string) : ST bool (list decoded) :=
  match rows with
  | [] => sret []
  | row :: rows' =>
      if is_comment row then load_from_lines rows' else
      let! ret := decode row "json" in
      let! rest := load_from_lines rows' in
      sret (match ret with Some d => d :: rest | None => rest end)
  end.

(** [serialize_args] on the arguments of a decoded task: a dict is rejected. *)
Fixpoint serializable (j : json) : bool :=
  match j with JArr l => forallb serializable l | JObj _ => false | _ => true end.

(** [Task.workload]. *)
Definition task_workload (t : rtask) : py workload :=
  if forallb serializable (rt_args t) then Ret (mkWorkload (rt_name t) (rt_args t)) else Raise RuntimeError.

(** A record as the history context sees it, its configuration named by the
    position of the record; the workload of a failed record is not looked at. *)
Definition history_record (i : nat) (d : decoded) : py mrecord :=
  let t := mi_task (d_inp d) in
  let? wl := if decide (mr_error_no (d_res d) = 0)%Z then task_workload t
             else Ret (mkWorkload (rt_name t) (rt_args t)) in
  Ret (mkInput (mi_target (d_inp d)) wl i,
       mkResult (mr_error_no (d_res d)) (mr_costs (d_res d)) (mr_timestamp (d_res d))).

Fixpoint history_records (i : nat) (ds : list decoded) : py (list mrecord) :=
  match ds with
  | [] => Ret []
  | d :: ds' => let? r := history_record i d in let? rs := history_records (S i) ds' in Ret (r :: rs)
  end.

(** The keys of the best records by model and by target key. *)
Definition best_keys (ds : list decoded) : py (gset string) :=
  let? rs := history_records 0 ds in
  let? (bk, bm) := load_records rs [] [] in
  let key_of (r : mrecord) :=
    match ds !! inp_config r.1 with
    | Some d => measure_str_key float_repr (d_inp d) true
    | None => ""
    end in
  Ret (list_to_set (key_of <$> od_vals bm) ∪ list_to_set (key_of <$> od_vals bk)).

(** The loop that writes the best records. *)
Fixpoint write_best (ds : list decoded) (best_set : gset string) : py (list string) :=
  match ds with
  | [] => Ret []
  | d :: ds' =>
      let k := measure_str_key float_repr (d_inp d) true in
      if bool_decide (k ∈ best_set) then
        let? row := encode (d_inp d) (d_res d) "json" in
        let? rows := write_best ds' (best_set ∖ {[k]}) in
        Ret (row :: rows)
      else write_best ds' best_set
  end.

(** [pick_best]: the new lines of [out_file]. *)
Definition pick_best (in_lines : list string) (out_lines : option (list string)) : ST bool (list string) :=
  let! context := load_from_lines (in_lines ++ default [] out_lines) in
  let! best_set := slift (best_keys context) in
  slift (write_best context best_set).

(** The items of a workload without repeated keys. *)
Fixpoint clean_items (v : list decoded) (added : list string) : list decoded :=
  match v with
  | [] => []
  | d :: v' =>
      let str_key := measure_str_key float_repr (d_inp d) true in
      if bool_decide (str_key ∈ added) then clean_items v' added
      else d :: clean_items v' (str_key :: added)
  end.

(** ["%03d" % i]. *)
Definition pad3 (i : nat) : string :=
  let s : string := pretty i in
  String.concat "" (replicate (3 - String.length s) "0") +:+ s.

(** The files that [split_workload] writes, in order.  [args_i] is the global
    [args.i], which exists only when the module runs as a program. *)
Fixpoint split_files (i : nat) (args_i : option string) (clean : bool) (wkl_dict : list (string * list decoded)) :
    py (list (string * list string)) :=
  match wkl_dict with
  | [] => Ret []
  | (k, v) :: rest =>
      let items := if clean then clean_items v [] else v in
      match args_i with
      | None => Raise NameError
      | Some name =>
          let? rows := pymap (λ d, encode (d_inp d) (d_res d) "json") items in
          let? files := split_files (S i) args_i clean rest in
          Ret ((name +:+ "." +:+ pad3 i +:+ ".wkl", rows) :: files)
      end
  end.

(** [split_workload]: all lines are decoded, comments too, by a pool of
    processes, so the warning flag of this one is not touched. *)
Definition split_workload (args_i : option string) (lines : list string) (clean : bool) :
    py (list (string * list string)) :=
  let? decs := pymap (λ row, fst (decode row "json" true)) lines in
  let wkl_dict := group_by (λ d, measure_str_key float_repr (d_inp d) false) (omap id decs) in
  split_files 0 args_i clean wkl_dict.

(** ** The database *)

Definition MAGIC_SPLIT : Ascii.ascii := "$"%char.

(** [max(results, key=lambda result: result.timestamp)]: the first maximum. *)
Definition latest (results : list MeasureResult) : py MeasureResult :=
  match results with
  | [] => Raise ValueError
  | r :: rs => Ret (foldl (λ m r, if fltb (mr_timestamp m) (mr_timestamp r) then r else m) r rs)
  end.

(** [RedisDatabase.get] on a dictionary, as in [DummyDatabase]. *)
Abbreviation database := (list (string * string)).

Definition db_results (current : string) : py (list decoded) :=
  let? records := pymap (λ x, fst (decode x "json" true)) (str_split MAGIC_SPLIT current) in
  Ret (omap id records).

(** [load] with [get_all] false and true. *)
Definition db_load (inp : MeasureInput) (db : database) : py (option MeasureResult) :=
  match od_get db (measure_str_key float_repr inp true) with
  | None => Ret None
  | Some current =>
      let? records := db_results current in
      let? r := latest (d_res <$> records) in
      Ret (Some r)
  end.

Definition db_load_all (inp : MeasureInput) (db : database) : py (option (list MeasureResult)) :=
  match od_get db (measure_str_key float_repr inp true) with
  | None => Ret None
  | Some current => let? records := db_results current in Ret (Some (d_res <$> records))
  end.

(** [save]. *)
Definition db_save (inp : MeasureInput) (res : MeasureResult) (extend : bool) : ST database unit :=
  let! row := slift (encode inp res "json") in
  let key := measure_str_key float_repr inp true in
  let! db := sget in
  match od_get db key with
  | Some current =>
      if extend then
        sput (od_set db key (str_join (String MAGIC_SPLIT EmptyString) (str_split MAGIC_SPLIT current ++ [row])))
      else sput (od_set db key (str_join (String MAGIC_SPLIT EmptyString) [row]))
  | None => sput (od_set db key (str_join (String MAGIC_SPLIT EmptyString) [row]))
  end.

(** [filter]: the rows of a key that are badly formatted are skipped. *)
Fixpoint db_filter (func : MeasureInput → list MeasureResult → bool) (db : database) :
    py (list (MeasureInput * MeasureResult)) :=
  match db with
  | [] => Ret []
  | (key, current) :: db' =>
      match db_results current with
      | Raise TypeError | Ret [] => db_filter func db'
      | Raise e => Raise e
      | Ret (d :: ds) =>
          let results := d_res <$> d :: ds in
          if func (d_inp d) results then
            let? r := latest results in
            let? rest := db_filter func db' in
            Ret ((d_inp d, r) :: rest)
          else db_filter func db'
      end
  end.

(** [filter_inputs]. *)
Fixpoint filter_inputs (db : database) (measure_inputs : list MeasureInput) (retry : bool) :
    py (list (option MeasureResult) * list MeasureInput) :=
  match measure_inputs with
  | [] => Ret ([], [])
  | inp :: l =>
      let? res := db_load inp db in
      let? (partial_results, unsaved) := filter_inputs db l retry in
      match res with
      | None => Ret (None :: partial_results, inp :: unsaved)
      | Some r =>
          if retry && negb (mr_error_no r =? 0)%Z
          then Ret (None :: partial_results, inp :: unsaved)
          else Ret (Some r :: partial_results, unsaved)
      end
  end.
End Codec.
