(* ===== verification/RecordsSpec.v ===== *)
(** * Correctness of tuning records

    The round trips of the two record protocols, what the log tools keep, and
    what the database answers after a save. *)

From S2P Require Import Prelude PyFloat PyText Transforms ConfigSpace Tuner Dispatcher Measure.
From S2P Require Import KnobSpec DispatcherSpec MeasureSpec Records.

(** ** Separated text *)

Lemma str_split_clean c s : str_mem c s = false → str_split c s = [s].
Proof.
  induction s as [|a s IH]; simpl; [done|]. rewrite orb_false_iff, bool_decide_eq_false.
  intros [Ha Hs]. rewrite decide_False by done. by rewrite IH.
Qed.

Lemma str_split_cons c s t :
  str_mem c s = false → str_split c (s +:+ String c t) = s :: str_split c t.
Proof.
  induction s as [|a s IH]; [intros _; simpl; by rewrite decide_True|].
  simpl. rewrite orb_false_iff, bool_decide_eq_false. intros [Ha Hs].
  rewrite decide_False by done. change (s ++ String c t)%string with (s +:+ String c t).
  by rewrite IH.
Qed.

(** Splitting undoes joining where the separator is in none of the parts. *)
Lemma str_split_join c l :
  l ≠ [] → Forall (λ s, str_mem c s = false) l → str_split c (str_join (String c EmptyString) l) = l.
Proof.
  induction l as [|s l IH]; [done|]. intros _ [Hs Hl]%Forall_cons.
  destruct l as [|t l]; [by apply str_split_clean|].
  change (str_join (String c EmptyString) (s :: t :: l))
    with (s +:+ (String c EmptyString +:+ str_join (String c EmptyString) (t :: l))).
  change (String c EmptyString +:+ str_join (String c EmptyString) (t :: l))
    with (String c (str_join (String c EmptyString) (t :: l))).
  rewrite str_split_cons by done. by rewrite IH.
Qed.

Lemma str_split_parts c s : Forall (λ t, str_mem c t = false) (str_split c s) ∧ str_split c s ≠ [].
Proof.
  induction s as [|a s [IH Hne]]; simpl; [by repeat constructor|].
  case_decide as Ha; [by repeat constructor|].
  destruct (str_split c s) as [|t l]; [done|]. apply Forall_cons in IH as [Ht Hl].
  split; [|done]. constructor; [|done]. simpl. by rewrite bool_decide_false.
Qed.

(** ** The configuration *)

Lemma pymap_fmap_Ret {A B C} (f : B → py C) (g : A → B) (h : A → C) l :
  (∀ x, f (g x) = Ret (h x)) → pymap f (g <$> l) = Ret (h <$> l).
Proof. intros Hf. induction l as [|x l IH]; [done|]. csimpl. by rewrite Hf, IH. Qed.

Lemma as_ann_inv a : as_ann (annval_json a) = Ret a.
Proof. by destruct a. Qed.

Lemma as_opt_inv v : as_opt (optval_json v) = Ret v.
Proof. by destruct v. Qed.

Lemma knob_row_inv k v :
  (let '(k, t, a) := entity_to_json k v in knob_row (JArr [JStr k; JStr t; knob_args_json a])) =
  Ret (entity_to_json k v).
Proof.
  destruct v as [size|perm|anns|val]; unfold knob_row, knob_args_of; cbn -[pymap fmap as_opt optval_json].
  - by rewrite (pymap_fmap_Ret _ _ id), list_fmap_id.
  - by rewrite (pymap_fmap_Ret _ _ id), list_fmap_id.
  - by rewrite (pymap_fmap_Ret _ _ id), list_fmap_id by apply as_ann_inv.
  - by rewrite as_opt_inv.
Qed.

Lemma config_json_inv c : NoDup (od_keys (ce_entities c)) → config_of_json (config_json c) = Ret c.
Proof.
  intros Hnd. unfold config_of_json, config_json.
  assert (∀ es, pymap knob_row ((λ '(k, t, a), JArr [JStr k; JStr t; knob_args_json a]) <$>
            ((λ '(k, v), entity_to_json k v) <$> es)) =
          Ret ((λ '(k, v), entity_to_json k v) <$> es)) as Hrows.
  { intros es. rewrite <-list_fmap_compose. apply pymap_fmap_Ret. intros [k v].
    pose proof (knob_row_inv k v) as Hk. cbn [compose]. by destruct (entity_to_json k v) as [[??]?]. }
  cbv zeta. cbn [to_json_dict js_index js_code_hash js_entity]. jkeys. cbn [pbind as_int]. jkeys.
  cbn [pbind]. jkeys.
  destruct (ce_code_hash c) eqn:E; cbn [pbind as_string as_arr]; rewrite Hrows; cbn [pbind];
    unfold from_json_dict; cbn [js_entity js_index js_code_hash];
    rewrite entities_json_inv by done; cbn [pbind app]; rewrite <-E; by destruct c.
Qed.

Lemma clean_idemp j : clean_json_to_python (clean_json_to_python j) = clean_json_to_python j.
Proof.
  induction j as [| | | | |l IH|l IH] using json_ind'; try done. simpl. f_equal.
  rewrite <-list_fmap_compose. apply list_fmap_ext. intros i x Hx.
  by eapply (Forall_lookup_1 _ _ _ _ IH).
Qed.

(** ** Round trips *)

Section Codec.
Context `{Numpy, !Codec, !CodecOk}.

#[local] Abbreviation row_key d := (measure_str_key float_repr (d_inp d) true).

(** A result that the format can hold, and a target that is read back as it was
    printed. *)
Definition storable (r : MeasureResult) : Prop := mr_error_no r = 0%Z → ∃ l, mr_costs r = CostTimes l.

Definition readable (t : target) : Prop :=
  Target (tg_str t) = Ret t ∧ str_contains "-target" (tg_str t) = false.

Definition times_of (c : costs_t) : list flt := match c with CostTimes l => l | CostError _ _ => [] end.

(** What is read back: the costs of a failure are one time of 1e9, the keyword
    arguments are gone and the booleans among the arguments are integers. *)
Definition stored_times (r : MeasureResult) : list flt :=
  if decide (mr_error_no r = 0)%Z then times_of (mr_costs r) else [f_1e9].

Definition stored_result (r : MeasureResult) : MeasureResult :=
  mkMR (CostTimes (stored_times r)) (mr_error_no r) (mr_all_cost r) (mr_timestamp r).

Definition stored_input (inp : MeasureInput) : MeasureInput :=
  mkMI (mi_target inp)
    (mkRTask (rt_name (mi_task inp)) (clean_json_to_python <$> rt_args (mi_task inp)) (JObj []))
    (mi_config inp).

Definition stored (inp : MeasureInput) (r : MeasureResult) : decoded :=
  mkDecoded (stored_input inp) (stored_result r) (np_mean (stored_times r)).

Lemma costs_json_storable r :
  storable r → costs_json r = Ret (JArr (JFloat <$> stored_times r)).
Proof.
  intros Hs. unfold costs_json, stored_times. case_decide as He; [|done].
  by destruct (Hs He) as [l ->].
Qed.

Lemma encode_returns inp r : storable r → is_ret (encode inp r "json").
Proof.
  intros Hs. unfold encode, record_json. rewrite decide_True by done.
  rewrite costs_json_storable by done. cbn [pbind]. by eexists.
Qed.

Lemma stored_storable inp r : storable (d_res (stored inp r)).
Proof. intros _. by eexists. Qed.

Lemma stored_stored inp r : stored (d_inp (stored inp r)) (d_res (stored inp r)) = stored inp r.
Proof.
  unfold stored, stored_input, stored_result, stored_times. simpl.
  assert ((if decide (mr_error_no r = 0)%Z
           then if decide (mr_error_no r = 0)%Z then times_of (mr_costs r) else [f_1e9] else [f_1e9]) =
          (if decide (mr_error_no r = 0)%Z then times_of (mr_costs r) else [f_1e9])) as ->
    by by case_decide.
  assert (clean_json_to_python <$> (clean_json_to_python <$> rt_args (mi_task inp)) =
          clean_json_to_python <$> rt_args (mi_task inp)) as ->; [|done].
  rewrite <-list_fmap_compose. apply list_fmap_ext. intros. apply clean_idemp.
Qed.

Lemma result_of_json_inv l e a t :
  result_of_json (JArr [JArr (JFloat <$> l); JInt e; JFloat a; JFloat t]) =
  Ret (mkMR (CostTimes l) e a t).
Proof. cbn -[pymap fmap]. by rewrite (pymap_fmap_Ret _ _ id), list_fmap_id. Qed.

Lemma decode_encode inp r row w :
  storable r → readable (mi_target inp) → NoDup (od_keys (ce_entities (mi_config inp))) →
  encode inp r "json" = Ret row → decode row "json" w = (Ret (Some (stored inp r)), w).
Proof.
  intros Hs [Ht Hc] Hnd. unfold encode, record_json. rewrite decide_True by done.
  rewrite costs_json_storable by done. cbn [pbind]. intros [= <-].
  unfold decode. rewrite decide_True by done. unfold sbind, slift. rewrite json_loads_dumps.
  unfold old_row. cbn [od_get]. rewrite !decide_False by done. jkeys. cbn [pbind].
  unfold input_of_json. cbn [as_arr pbind as_string clean_json_to_python py_str mi_target mi_task].
  unfold fix_target. rewrite Hc, Ht. cbn [pbind]. jkeys. cbn [pbind]. rewrite config_json_inv by done. cbn [pbind].
  jkeys. cbn [pbind]. rewrite result_of_json_inv. by cbn.
Qed.

(** C22: a record written with the JSON protocol is read back, without a
    warning: the same target, task name and configuration, the error number,
    total cost and time stamp, and the costs (for a failure, one time of 1e9),
    with the mean of the costs as the cost of the configuration.  What changes
    (keyword arguments, booleans, the costs of a failure) changes once: the
    record that was read is written and read back as it is. *)
Theorem record_roundtrip inp r w :
  storable r → readable (mi_target inp) → NoDup (od_keys (ce_entities (mi_config inp))) →
  ∃ row, encode inp r "json" = Ret row ∧ decode row "json" w = (Ret (Some (stored inp r)), w) ∧
  ∃ row', encode (d_inp (stored inp r)) (d_res (stored inp r)) "json" = Ret row' ∧
    decode row' "json" w = (Ret (Some (stored inp r)), w).
Proof.
  intros Hs Ht Hnd. destruct (encode_returns inp r Hs) as [row Hrow]. exists row.
  split; [done|]. split; [by apply decode_encode|].
  destruct (encode_returns (d_inp (stored inp r)) (d_res (stored inp r))) as [row' Hrow'];
    [by apply stored_storable|].
  exists row'. split; [done|]. rewrite <-(stored_stored inp r).
  apply decode_encode; [by apply stored_storable|done..].
Qed.
(** C24: the pickle protocol gives back the task name and arguments as they
    were, without the keyword arguments, the configuration and the result; the
    record of a failure cannot be read: the mean of its costs, an exception and
    a message, is a [TypeError]. *)
Theorem pickle_protocol inp r w :
  Target (tg_str (mi_target inp)) = Ret (mi_target inp) →
  Forall (λ s, str_mem tab s = false)
    [tg_str (mi_target inp); pickle_task (mi_task inp); pickle_config (mi_config inp);
     pickle_result r; float_repr AUTOTVM_LOG_VERSION; tvm_version] →
  ∃ row, encode inp r "pickle" = Ret row ∧
    decode row "pickle" w =
      (match mr_costs r with
       | CostTimes l =>
           Ret (Some (mkDecoded (mkMI (mi_target inp)
                        (mkRTask (rt_name (mi_task inp)) (rt_args (mi_task inp)) (JObj []))
                        (mi_config inp)) r (np_mean l)))
       | CostError _ _ => Raise TypeError
       end, w).
Proof.
  intros Htg Htab. eexists. split.
  { unfold encode. rewrite decide_False, decide_True by done. done. }
  unfold decode. rewrite decide_False, decide_True by done.
  rewrite str_split_join by done. cbn [length]. rewrite bool_decide_false by done.
  unfold slift. set (items := [_; _; _; _; _; _]).
  change (pynth items 0) with (Ret (tg_str (mi_target inp))).
  change (pynth items 1) with (Ret (pickle_task (mi_task inp))).
  change (pynth items 2) with (Ret (pickle_config (mi_config inp))).
  change (pynth items 3) with (Ret (pickle_result r)). cbn.
  rewrite Htg. cbn. rewrite unpickle_pickle_task. cbn. rewrite unpickle_pickle_config. cbn.
  rewrite unpickle_pickle_result. cbn.
  by destruct (mr_costs r).
Qed.

(** ** Reading a log *)

(** What [decode] returns can be written again. *)
Lemma decode_times row w d w' :
  decode row "json" w = (Ret (Some d), w') →
  ∃ l, mr_costs (d_res d) = CostTimes l ∧ d_cost d = np_mean l.
Proof.
  unfold decode. rewrite decide_True by done. intros (j & s1 & _ & Hb)%sbind_Ret.
  destruct (old_row j); [by apply sbind_Ret in Hb as (? & ? & ? & [=])|].
  injection Hb as Hd _.
  apply pbind_Ret in Hd as (i & _ & Hd). apply pbind_Ret in Hd as ([tgt tsk] & _ & Hd).
  apply pbind_Ret in Hd as (tg & _ & Hd). apply pbind_Ret in Hd as (c & _ & Hd).
  apply pbind_Ret in Hd as (config & _ & Hd). apply pbind_Ret in Hd as (r & _ & Hd).
  apply pbind_Ret in Hd as (result & Hres & Hd). apply pbind_Ret in Hd as (cost & Hcost & [= <-]).
  simpl. destruct (mr_costs result) as [l|]; [|done]. injection Hcost as <-. by exists l.
Qed.

Definition rewritable (d : decoded) : Prop :=
  ∃ l, mr_costs (d_res d) = CostTimes l ∧ d_cost d = np_mean l.

Lemma load_rewritable rows : ∀ w ds w',
  load_from_lines rows w = (Ret ds, w') → Forall rewritable ds.
Proof.
  induction rows as [|row rows IH]; intros w ds w'; cbn [load_from_lines]; [by intros [= <- _]|].
  destruct (is_comment row); [by apply IH|].
  intros (ret & s1 & Hret & (rest & s2 & Hrest & [= <- <-])%sbind_Ret)%sbind_Ret.
  apply IH in Hrest. destruct ret as [d|]; [|done]. constructor; [|done].
  by eapply decode_times.
Qed.

Lemma encode_all ds :
  Forall rewritable ds → is_ret (pymap (λ d, encode (d_inp d) (d_res d) "json") ds).
Proof.
  induction 1 as [|d ds Hd _ IH]; [by eexists|]. destruct IH as [rows Hrows].
  destruct (encode_returns (d_inp d) (d_res d)) as [row Hrow].
  { intros _. destruct Hd as (l & Hl & _). by exists l. }
  csimpl. rewrite Hrow, Hrows. by eexists.
Qed.

(** ** Repeated keys *)

Lemma clean_items_sublist v : ∀ added, clean_items v added `sublist_of` v.
Proof.
  induction v as [|d v IH]; intros added; simpl; [done|]. case_bool_decide; [by constructor|].
  by apply sublist_skip.
Qed.

(** One record per key is left, with every key that is not excluded. *)
Lemma clean_items_keys v : ∀ added,
  NoDup ((λ d, row_key d) <$> clean_items v added) ∧
  ∀ k, k ∈ (λ d, row_key d) <$> clean_items v added ↔ k ∈ (λ d, row_key d) <$> v ∧ k ∉ added.
Proof.
  induction v as [|d v IH]; intros added; simpl; [split; [constructor|set_solver]|].
  case_bool_decide as Hd; csimpl.
  - destruct (IH added) as [Hnd Hk]. split; [done|]. intros k. rewrite Hk. set_solver.
  - destruct (IH (row_key d :: added)) as [Hnd Hk]. split.
    + constructor; [|done]. rewrite Hk. set_solver.
    + intros k. rewrite elem_of_cons, Hk, elem_of_cons. destruct (decide (k = row_key d)); set_solver.
Qed.

(** The record left is the first one with its key. *)
Lemma clean_items_first v : ∀ added d,
  d ∈ clean_items v added →
  ∃ pre post, v = pre ++ d :: post ∧ row_key d ∉ (λ d, row_key d) <$> pre.
Proof.
  induction v as [|x v IH]; intros added d; simpl; [by intros ?%elem_of_nil|].
  assert (∀ added', row_key x ∈ added' → d ∈ clean_items v added' →
    ∃ pre post, x :: v = pre ++ d :: post ∧ row_key d ∉ (λ d, row_key d) <$> pre) as Hrec.
  { intros added' Hx Hin. destruct (IH _ _ Hin) as (pre & post & -> & Hn).
    exists (x :: pre), post. split; [done|]. csimpl. apply not_elem_of_cons. split; [|done].
    intros Heq. pose proof (clean_items_keys (pre ++ d :: post) added') as [_ Hk].
    apply (Hk (row_key d)); [|by rewrite Heq]. by apply (list_elem_of_fmap_2 (λ d, row_key d)). }
  case_bool_decide as Hx; [by apply Hrec|].
  intros [->|Hin]%elem_of_cons; [|eapply Hrec; [|done]; left].
  exists [], v. split; [done|]. csimpl. apply not_elem_of_nil.
Qed.

(** Writing the best keys keeps the records that [clean_items] keeps. *)
Lemma write_best_clean ds B : ∀ added,
  write_best ds (B ∖ list_to_set added) =
  pymap (λ d, encode (d_inp d) (d_res d) "json") (filter (λ d, row_key d ∈ B) (clean_items ds added)).
Proof.
  induction ds as [|d ds IH]; intros added; simpl; [done|].
  destruct (decide (row_key d ∈ added)) as [Ha|Ha].
  - rewrite (bool_decide_true _ Ha), bool_decide_false by set_solver. apply IH.
  - rewrite (bool_decide_false _ Ha). rewrite filter_cons. case_decide as HB.
    + rewrite bool_decide_true by set_solver. csimpl.
      assert (B ∖ list_to_set added ∖ {[row_key d]} =
        B ∖ list_to_set (row_key d :: added) :> gset string) as -> by set_solver.
      by rewrite IH.
    + rewrite bool_decide_false by set_solver. rewrite <-IH. f_equal. set_solver.
Qed.

(** ** Splitting a log by workload *)

Abbreviation workload_of d := (measure_str_key float_repr (d_inp d) false).

Definition encode_rows (ds : list decoded) : py (list string) :=
  pymap (λ d, encode (d_inp d) (d_res d) "json") ds.

Lemma clean_rewritable (clean : bool) v :
  Forall rewritable v → Forall rewritable (if clean then clean_items v [] else v).
Proof.
  rewrite !Forall_forall. intros Hv d. destruct clean; [|apply Hv].
  intros (pre & post & -> & _)%clean_items_first. apply Hv. set_solver.
Qed.

Lemma split_files_spec name clean groups : ∀ i,
  (∀ k v, (k, v) ∈ groups → Forall rewritable v) →
  ∃ files, split_files i (Some name) clean groups = Ret files ∧ length files = length groups ∧
    ∀ j k v, groups !! j = Some (k, v) → ∃ rows,
      files !! j = Some (name +:+ "." +:+ pad3 (i + j) +:+ ".wkl", rows) ∧
      encode_rows (if clean then clean_items v [] else v) = Ret rows.
Proof.
  induction groups as [|[k v] groups IH]; intros i Hok; [by exists []|].
  destruct (IH (S i)) as (files & Hf & Hlen & Hall); [intros k1 v1 Hin; apply (Hok k1); by right|].
  destruct (encode_all (if clean then clean_items v [] else v)) as [rows Hrows].
  { apply clean_rewritable, (Hok k). left. }
  cbn [split_files]. rewrite Hrows, Hf. eexists. split; [done|]. split; [by csimpl; f_equal|].
  intros [|j] k' v'; csimpl.
  - intros [= <- <-]. exists rows. by rewrite Nat.add_0_r.
  - intros Hj. replace (i + S j) with (S i + j) by lia. by apply (Hall j k').
Qed.

(** From the records of a log, split_workload writes one file per workload,
    numbered in the order in which the workloads occur: the records of the
    workload in their order or, when cleaning, the first record of each of its
    configurations.  The files together hold every record once.  Called from
    another module, where [args] does not exist, it raises a [NameError] for
    every log with a record. *)
Theorem split_workload_spec lines decs clean name :
  pymap (λ row, fst (decode row "json" true)) lines = Ret decs →
  let ds := omap id decs in
  let groups := group_by (λ d, workload_of d) ds in
  (∃ files, split_workload (Some name) lines clean = Ret files ∧ length files = length groups ∧
     ∀ j k v, groups !! j = Some (k, v) →
       v = filter (λ d, workload_of d = k) ds ∧
       ∃ rows, files !! j = Some (name +:+ "." +:+ pad3 j +:+ ".wkl", rows) ∧
         encode_rows (if clean then clean_items v [] else v) = Ret rows) ∧
  NoDup groups.*1 ∧ concat groups.*2 ≡ₚ ds ∧
  (ds ≠ [] → split_workload None lines clean = Raise NameError).
Proof.
  intros Hdecs ds groups. unfold split_workload. rewrite Hdecs. cbn [pbind]. fold ds groups.
  assert (Forall rewritable ds) as Hds.
  { rewrite Forall_forall. intros d (o & Ho & Hd)%list_elem_of_omap. unfold id in Hd. subst o.
    destruct (pymap_elem _ _ _ _ Hdecs Ho) as (row & _ & Hrow).
    destruct (decode row "json" true) as [r w'] eqn:E. simpl in Hrow. subst r.
    by eapply decode_times. }
  assert (∀ j k v, groups !! j = Some (k, v) → v = filter (λ d, workload_of d = k) ds) as Hg.
  { intros j k v Hj. rewrite <-group_by_get.
    by rewrite (od_elem_get groups k v); [|apply group_by_keys|eapply list_elem_of_lookup_2]. }
  split.
  - destruct (split_files_spec name clean groups 0) as (files & Hf & Hlen & Hall).
    { intros k v [j Hj]%list_elem_of_lookup_1. rewrite (Hg _ _ _ Hj). rewrite Forall_forall in Hds |- *.
      intros d [_ Hd]%list_elem_of_filter. by apply Hds. }
    exists files. split; [done|]. split; [done|]. intros j k v Hj. split; [by eapply Hg|]. by apply (Hall j k).
  - split; [apply group_by_keys|]. split; [apply group_by_perm|].
    intros Hne. destruct groups as [|[k v] groups'] eqn:E; [|done].
    destruct Hne. apply Permutation_nil. subst groups. rewrite <-(group_by_perm (λ d, workload_of d) ds).
    by rewrite E.
Qed.
(** ** The best records of a log *)

(** The groups in which records compete: a target key, or a model other than
    "unknown", with a workload. *)
Inductive group := ByKey (k : string) (wl : workload) | ByModel (m : string) (wl : workload).

Definition wl_of (d : decoded) : workload :=
  mkWorkload (rt_name (mi_task (d_inp d))) (rt_args (mi_task (d_inp d))).

Definition in_group (g : group) (d : decoded) : Prop :=
  mr_error_no (d_res d) = 0%Z ∧
  match g with
  | ByKey k wl => k ∈ tg_keys (mi_target (d_inp d)) ∧ wl_of d = wl
  | ByModel m wl => tg_model (mi_target (d_inp d)) = m ∧ wl_of d = wl ∧ m ≠ "unknown"
  end.

(** [b] has the least cost of its group in the log. *)
Definition best_of (ds : list decoded) (g : group) (b : decoded) : Prop :=
  b ∈ ds ∧ in_group g b ∧ ∀ d, d ∈ ds → in_group g d → fle (d_cost b) (d_cost d).

(** A successful record is usable when its workload can be computed and its
    cost is a number. *)
Definition usable (d : decoded) : Prop :=
  mr_error_no (d_res d) = 0%Z →
  forallb serializable (rt_args (mi_task (d_inp d))) = true ∧ is_nan (d_cost d) = false.

(** The record as the history context sees it. *)
Definition rec_at (i : nat) (d : decoded) : mrecord :=
  (mkInput (mi_target (d_inp d)) (wl_of d) i,
   mkResult (mr_error_no (d_res d)) (mr_costs (d_res d)) (mr_timestamp (d_res d))).

Lemma history_records_returns ds : ∀ i,
  Forall usable ds → history_records i ds = Ret (imap (λ j d, rec_at (i + j) d) ds).
Proof.
  induction ds as [|d ds IH]; intros i; [done|]. intros [Hd Hds]%Forall_cons.
  cbn [history_records imap]. rewrite IH by done. unfold history_record, task_workload.
  assert ((if decide (mr_error_no (d_res d) = 0)%Z
           then if forallb serializable (rt_args (mi_task (d_inp d)))
                then Ret (mkWorkload (rt_name (mi_task (d_inp d))) (rt_args (mi_task (d_inp d))))
                else Raise RuntimeError
           else Ret (mkWorkload (rt_name (mi_task (d_inp d))) (rt_args (mi_task (d_inp d))))) =
          Ret (wl_of d)) as Hwl.
  { case_decide as He; [|done]. by rewrite (proj1 (Hd He)). }
  cbv zeta. setoid_rewrite Hwl.
  cbn [pbind]. rewrite Nat.add_0_r. do 2 f_equal. apply imap_ext. intros j x _.
  by rewrite Nat.add_succ_comm.
Qed.

(** Group membership and cost, of the record and of what the context sees. *)
Definition cand (g : group) : list mrecord → list mrecord :=
  match g with ByKey k wl => by_key (k, wl) | ByModel m wl => by_model (m, wl) end.

Lemma cand_rec_at g i d rs : rec_at i d ∈ rs → (rec_at i d ∈ cand g rs ↔ in_group g d).
Proof.
  intros Hin. destruct g; unfold cand, by_key, by_model; rewrite list_elem_of_filter;
    unfold in_group, rec_at; simpl; tauto.
Qed.

Lemma mean_of_rec_at i d : rewritable d → mean_cost (rec_at i d).2 = Ret (d_cost d).
Proof. intros (l & Hl & Hc). unfold mean_cost. simpl. by rewrite Hl, Hc. Qed.

Lemma elem_of_recs ds r :
  r ∈ imap rec_at ds ↔ ∃ i d, ds !! i = Some d ∧ r = rec_at i d.
Proof. rewrite elem_of_lookup_imap. naive_solver. Qed.

Lemma best_in_best_of ds g o :
  Forall rewritable ds → best_in (cand g (imap rec_at ds)) o →
  match o with
  | Some r => ∃ i b, ds !! i = Some b ∧ r = rec_at i b ∧ best_of ds g b
  | None => ∀ d, d ∈ ds → ¬ in_group g d
  end.
Proof.
  rewrite Forall_forall. intros Hrw. destruct o as [r|]; simpl.
  - intros [Hr Hmin]. assert (r ∈ imap rec_at ds) as Hin.
    { destruct g; unfold cand, by_key, by_model in Hr; by apply list_elem_of_filter in Hr as [_ ?]. }
    destruct (proj1 (elem_of_recs _ _) Hin) as (i & b & Hi & ->). exists i, b.
    split; [done|]. split; [done|]. pose proof (list_elem_of_lookup_2 _ _ _ Hi) as Hb.
    split; [done|]. rewrite cand_rec_at in Hr by done. split; [done|].
    intros d Hd Hg. destruct (list_elem_of_lookup_1 _ _ Hd) as [j Hj].
    assert (rec_at j d ∈ imap rec_at ds) as Hin' by (apply elem_of_recs; eauto).
    specialize (Hmin (rec_at j d)). rewrite cand_rec_at in Hmin by done. specialize (Hmin Hg).
    unfold mean_of in Hmin. rewrite !mean_of_rec_at in Hmin by auto. done.
  - intros Hnil d Hd Hg. destruct (list_elem_of_lookup_1 _ _ Hd) as [j Hj].
    assert (rec_at j d ∈ imap rec_at ds) as Hin' by (apply elem_of_recs; eauto).
    rewrite <-(cand_rec_at g) in Hg by done. rewrite Hnil in Hg. by apply elem_of_nil in Hg.
Qed.
Lemma keep_better_NoDup best k other r best' :
  NoDup (od_keys best) → keep_better best k other r = Ret best' → NoDup (od_keys best').
Proof.
  intros Hnd Hk. unfold keep_better in Hk. py_inv. destruct (fltb _ _); [by apply od_set_NoDup|done].
Qed.

Lemma load_records_NoDup rs : ∀ bk bm bk' bm',
  NoDup (od_keys bk) → NoDup (od_keys bm) → load_records rs bk bm = Ret (bk', bm') →
  NoDup (od_keys bk') ∧ NoDup (od_keys bm').
Proof.
  assert (∀ r keys bk bk', NoDup (od_keys bk) → load_keys keys r bk = Ret bk' → NoDup (od_keys bk'))
    as Hkeys.
  { intros r. induction keys as [|k keys IH]; intros bk bk' Hnd; cbn [load_keys]; [by intros [= <-]|].
    intros (b & Hb & Hrest)%pbind_Ret. eapply IH; [|done].
    destruct (od_get bk _); [by eapply keep_better_NoDup|]. injection Hb as <-. by apply od_set_NoDup. }
  induction rs as [|r rs IH]; intros bk bm bk' bm' Hk Hm; cbn [load_records]; [by intros [= <- <-]|].
  case_decide; [|by apply IH]. intros (b & Hb & (m & Hl & Hrest)%pbind_Ret)%pbind_Ret.
  eapply IH; [| |exact Hrest]; [exact (Hkeys _ _ _ _ Hk Hb)|]. unfold load_model in Hl.
  destruct (od_get bm _); [by eapply keep_better_NoDup|]. injection Hl as <-.
  case_decide; [done|by apply od_set_NoDup].
Qed.

Lemma rec_comparable ds : Forall rewritable ds → Forall usable ds → Forall comparable (imap rec_at ds).
Proof.
  rewrite !Forall_forall. intros Hrw Hus r (i & d & Hi & ->)%elem_of_recs He. simpl in He.
  apply list_elem_of_lookup_2 in Hi. unfold mean_of. rewrite mean_of_rec_at by auto.
  split; [by eexists|]. by apply (Hus d).
Qed.

Lemma row_key_at (ds : list decoded) i b :
  ds !! i = Some b →
  match ds !! inp_config (rec_at i b).1 with Some d => row_key d | None => "" end = row_key b.
Proof. intros Hi. change (ds !! inp_config (rec_at i b).1) with (ds !! i). by rewrite Hi. Qed.

(** The keys of the best records are those of the best records of the groups. *)
Lemma best_keys_spec ds :
  Forall rewritable ds → Forall usable ds →
  ∃ B, best_keys ds = Ret B ∧
    (∀ g d, d ∈ ds → in_group g d → ∃ b, best_of ds g b ∧ row_key b ∈ B) ∧
    (∀ k, k ∈ B → ∃ g b, best_of ds g b ∧ row_key b = k).
Proof.
  intros Hrw Hus. unfold best_keys. rewrite history_records_returns by done. cbn [pbind].
  change (imap (λ j d, rec_at (0 + j) d) ds) with (imap rec_at ds).
  destruct (load_records_spec (imap rec_at ds) [] [] []) as (bk & bm & Hl & Hbk & Hbm);
    [by apply rec_comparable|done|done|].
  rewrite Hl. cbn [pbind]. eexists. split; [done|].
  destruct (load_records_NoDup _ [] [] _ _ NoDup_nil_2 NoDup_nil_2 Hl) as [Hndk Hndm].
  set (get g := match g with ByKey k wl => od_get bk (k, wl) | ByModel m wl => od_get bm (m, wl) end).
  assert (∀ g, match get g with
    | Some r => ∃ i b, ds !! i = Some b ∧ r = rec_at i b ∧ best_of ds g b
    | None => ∀ d, d ∈ ds → ¬ in_group g d end) as Hget.
  { intros g. apply best_in_best_of; [done|]. destruct g; [apply Hbk|apply Hbm]. }
  split.
  - intros g d Hd Hg. specialize (Hget g). destruct (get g) as [r|] eqn:E; [|by destruct (Hget d)].
    destruct Hget as (i & b & Hi & -> & Hb). exists b. split; [done|].
    rewrite <-(row_key_at ds i b) by done.
    rewrite elem_of_union, !elem_of_list_to_set. destruct g; [right|left];
      apply (list_elem_of_fmap_2 (λ r, match ds !! inp_config r.1 with
        | Some d => row_key d | None => "" end));
      apply od_get_elem in E; by apply (list_elem_of_fmap_2 snd) in E.
  - intros k. rewrite elem_of_union, !elem_of_list_to_set.
    intros [(r & -> & ((ky & r') & -> & Hin)%list_elem_of_fmap)%list_elem_of_fmap
           |(r & -> & ((ky & r') & -> & Hin)%list_elem_of_fmap)%list_elem_of_fmap]; destruct ky as [n wl].
    + specialize (Hget (ByModel n wl)). unfold get in Hget.
      rewrite (od_elem_get bm _ _ Hndm Hin) in Hget. destruct Hget as (i & b & Hi & -> & Hb).
      exists (ByModel n wl), b. split; [done|]. symmetry. by apply row_key_at.
    + specialize (Hget (ByKey n wl)). unfold get in Hget.
      rewrite (od_elem_get bk _ _ Hndk Hin) in Hget. destruct Hget as (i & b & Hi & -> & Hb).
      exists (ByKey n wl), b. split; [done|]. symmetry. by apply row_key_at.
Qed.

(** C23: pick_best writes some of the records of the two files, in their order,
    and no two with the same key: for every target key (or known model) and
    workload with a successful record, the configuration of one of least mean
    cost is among them, every record written has such a configuration, and it
    is the first record of its configuration in the files. *)
Theorem pick_best_spec in_lines out_lines w ds w' :
  load_from_lines (in_lines ++ default [] out_lines) w = (Ret ds, w') →
  Forall usable ds →
  ∃ kept rows, pick_best in_lines out_lines w = (Ret rows, w') ∧ encode_rows kept = Ret rows ∧
    kept `sublist_of` ds ∧ NoDup ((λ d, row_key d) <$> kept) ∧
    (∀ g d, d ∈ ds → in_group g d →
       ∃ b d', best_of ds g b ∧ d' ∈ kept ∧ row_key d' = row_key b) ∧
    (∀ d', d' ∈ kept → (∃ g b, best_of ds g b ∧ row_key b = row_key d') ∧
       ∃ pre post, ds = pre ++ d' :: post ∧ row_key d' ∉ (λ d, row_key d) <$> pre).
Proof.
  intros Hload Hus. pose proof (load_rewritable _ _ _ _ Hload) as Hrw.
  destruct (best_keys_spec ds Hrw Hus) as (B & HB & Hcov & Hbest).
  set (kept := filter (λ d, row_key d ∈ B) (clean_items ds [])).
  assert (kept `sublist_of` clean_items ds []) as Hsub by apply sublist_filter.
  assert (∀ d, d ∈ kept → d ∈ clean_items ds [] ∧ row_key d ∈ B) as Hkept.
  { intros d [? ?]%list_elem_of_filter. done. }
  destruct (encode_all kept) as [rows Hrows].
  { rewrite Forall_forall in Hrw |- *. intros d [Hd _]%Hkept.
    apply clean_items_first in Hd as (pre & post & -> & _). apply Hrw. set_solver. }
  exists kept, rows. split_and!; [|done| | | |].
  - unfold pick_best, sbind, slift. rewrite Hload, HB. f_equal.
    pose proof (write_best_clean ds B []) as Hw. rewrite (difference_empty_L B : B ∖ list_to_set [] = B) in Hw.
    by rewrite Hw.
  - etrans; [done|apply clean_items_sublist].
  - eapply sublist_NoDup; [apply (clean_items_keys ds [])|by apply fmap_sublist].
  - intros g d Hd Hg. destruct (Hcov g d Hd Hg) as (b & Hb & Hin). exists b.
    assert (row_key b ∈ (λ d, row_key d) <$> clean_items ds []) as Hk.
    { apply clean_items_keys. split; [|by apply not_elem_of_nil].
      apply (list_elem_of_fmap_2 (λ d, row_key d)), Hb. }
    apply list_elem_of_fmap in Hk as (d' & Hkey & Hd'). exists d'. split; [done|]. split; [|done].
    apply list_elem_of_filter. split; [|done]. by rewrite <-Hkey.
  - intros d' [Hd' Hin]%Hkept. split; [by apply Hbest|by eapply clean_items_first].
Qed.
(** ** The database *)

Lemma db_results_join l r current inp :
  storable r → readable (mi_target inp) → NoDup (od_keys (ce_entities (mi_config inp))) →
  db_results current = Ret l →
  ∀ row, encode inp r "json" = Ret row → str_mem MAGIC_SPLIT row = false →
  db_results row = Ret [stored inp r] ∧
  db_results (str_join (String MAGIC_SPLIT EmptyString) (str_split MAGIC_SPLIT current ++ [row])) =
    Ret (l ++ [stored inp r]).
Proof.
  intros Hs Ht Hnd Hl row Hrow Hsep.
  pose proof (λ w, decode_encode inp r row w Hs Ht Hnd Hrow) as Hdec.
  unfold db_results in *. apply pbind_Ret in Hl as (recs & Hrecs & [= <-]). split.
  - rewrite str_split_clean by done. cbn [pymap]. by rewrite Hdec.
  - destruct (str_split_parts MAGIC_SPLIT current) as [Hparts Hne].
    rewrite str_split_join; [|by destruct (str_split MAGIC_SPLIT current)|].
    + rewrite (pymap_app_Ret _ _ _ recs [Some (stored inp r)]) by (done || cbn [pymap]; by rewrite Hdec).
      cbn [pbind]. by rewrite omap_app.
    + apply Forall_app. split; [done|by repeat constructor].
Qed.

(** After a save, loading the input gives the saved result, alone or, when
    extending, after the results that were there; nothing else changes.  The
    row of the record must not contain the separator. *)
Theorem db_save_load inp r extend row db old :
  storable r → readable (mi_target inp) → NoDup (od_keys (ce_entities (mi_config inp))) →
  encode inp r "json" = Ret row → str_mem MAGIC_SPLIT row = false →
  db_load_all inp db = Ret old →
  ∃ db', db_save inp r extend db = (Ret tt, db') ∧
    db_load_all inp db' =
      Ret (Some ((if extend then default [] old else []) ++ [stored_result r])) ∧
    ∀ inp', measure_str_key float_repr inp' true ≠ measure_str_key float_repr inp true →
      db_load_all inp' db' = db_load_all inp' db ∧ db_load inp' db' = db_load inp' db.
Proof.
  intros Hs Ht Hnd Hrow Hsep Hold. unfold db_save, sbind, slift, sget, sput. rewrite Hrow.
  set (k := measure_str_key float_repr inp true).
  set (joined := str_join (String MAGIC_SPLIT EmptyString)).
  assert (∀ v db', db' = od_set db k v →
    ∀ inp', measure_str_key float_repr inp' true ≠ k →
      db_load_all inp' db' = db_load_all inp' db ∧ db_load inp' db' = db_load inp' db) as Hother.
  { intros v db' -> inp' Hk. unfold db_load_all, db_load. by rewrite !od_get_set_ne by done. }
  assert (∀ v l, db_results v = Ret l → db_load_all inp (od_set db k v) = Ret (Some (d_res <$> l)))
    as Hset.
  { intros v l Hl. unfold db_load_all. fold k. rewrite od_get_set_eq. by rewrite Hl. }
  unfold db_load_all in Hold. fold k in Hold.
  destruct (od_get db k) as [current|] eqn:E.
  - apply pbind_Ret in Hold as (l & Hl & [= <-]).
    destruct (db_results_join l r current inp Hs Ht Hnd Hl row Hrow Hsep) as [Hone Hmany].
    destruct extend; (eexists; split; [done|]; split; [|by eapply Hother]).
    + erewrite Hset by done. by rewrite fmap_app.
    + by erewrite Hset by done.
  - injection Hold as <-. eexists. split; [done|]. split; [|by eapply Hother].
    assert (db_results row = Ret [stored inp r]) as Hr.
    { unfold db_results. rewrite str_split_clean by done. cbn [pymap].
      by rewrite (decode_encode inp r row). }
    erewrite Hset by done. by destruct extend.
Qed.

(** The latest result: the first one of greatest time stamp. *)
Lemma latest_spec results :
  results ≠ [] → Forall (λ r, is_nan (mr_timestamp r) = false) results →
  ∃ r, latest results = Ret r ∧ r ∈ results ∧
    ∀ r', r' ∈ results → fle (mr_timestamp r') (mr_timestamp r).
Proof.
  destruct results as [|r0 rs]; [done|]. intros _ Hnan. eexists. split; [done|].
  apply Forall_cons in Hnan as [Hn0 Hnan].
  assert (∀ rs seen m, m ∈ seen → Forall (λ r, is_nan (mr_timestamp r) = false) rs →
    is_nan (mr_timestamp m) = false →
    (∀ r', r' ∈ seen → fle (mr_timestamp r') (mr_timestamp m)) →
    let r := foldl (λ m r, if fltb (mr_timestamp m) (mr_timestamp r) then r else m) m rs in
    r ∈ seen ++ rs ∧ ∀ r', r' ∈ seen ++ rs → fle (mr_timestamp r') (mr_timestamp r)) as Hgo.
  { clear. induction rs as [|x rs IH]; intros seen m Hm Hrs Hn Hmax; [by rewrite app_nil_r|].
    apply Forall_cons in Hrs as [Hx Hrs]. rewrite cons_middle, app_assoc. cbn [foldl].
    destruct (fltb (mr_timestamp m) (mr_timestamp x)) eqn:E.
    - apply IH; [set_solver|done|done|]. intros r' [Hr'|Hr'%list_elem_of_singleton]%elem_of_app.
      + eapply fle_trans; [by apply Hmax|by apply flt_fle].
      + subst. by apply fle_refl.
    - apply IH; [set_solver|done|done|]. intros r' [Hr'|Hr'%list_elem_of_singleton]%elem_of_app;
        [by apply Hmax|]. subst. by apply fltb_false_fle. }
  apply (Hgo rs [r0] r0); [left|done|done|]. intros r' Hr'%list_elem_of_singleton. subst. by apply fle_refl.
Qed.

(** What the database serves for an input. *)
Definition served (db : list (string * string)) (retry : bool) (inp : MeasureInput) : option MeasureResult :=
  match db_load inp db with
  | Ret (Some r) => if retry && negb (mr_error_no r =? 0)%Z then None else Some r
  | _ => None
  end.

(** Filter_inputs answers every input, in order, with its saved result or
    with nothing, a saved failure counting as nothing on a retry, and the
    inputs left to measure are exactly those without an answer, in order. *)
Theorem filter_inputs_spec db inps retry :
  Forall (λ inp, is_ret (db_load inp db)) inps →
  filter_inputs db inps retry =
    Ret (served db retry <$> inps, filter (λ inp, served db retry inp = None) inps).
Proof.
  induction 1 as [|inp inps [res Hres] _ IH]; [done|].
  cbn [filter_inputs]. rewrite Hres, IH. cbn [pbind]. rewrite filter_cons. csimpl.
  assert (served db retry inp = match res with
    | Some r => if retry && negb (mr_error_no r =? 0)%Z then None else Some r | None => None end) as ->.
  { unfold served. by rewrite Hres. }
  destruct res as [r|]; [|by rewrite decide_True]. destruct (retry && _).
  - by rewrite decide_True.
  - by rewrite decide_False.
Qed.
End Codec.
