(* ===== verification/Pbqp.v ===== *)
(** * The PBQP graph tuner

    Choosing one schedule per node of a graph so that the sum of execution times
    and of layout transformations between neighbours is least, by reductions of
    a partitioned boolean quadratic problem.
    Source: src/python/tvm/autotvm/graph_tuner/pbqp_tuner.py. *)

From S2P Require Import Prelude.

(** ** Costs *)

(** The numbers the tuner adds and compares: Python's ints and floats. *)
Class CostOps := {
  num : Type;
  num_zero : num;
  num_add : num → num → num;
  num_ltb : num → num → bool;
  num_eqb : num → num → bool;
  INVALID_LAYOUT_TIME : num
}.

(** ** Lists and dictionaries *)

(** [enumerate(l)]. *)
Definition enumerate {A} (l : list A) : list (nat * A) := imap pair l.

(** [l[i]] and [l[i] = x] at an index that is not negative. *)
Definition lnth {A} (l : list A) (i : nat) : py A :=
  match l !! i with Some x => Ret x | None => Raise IndexError end.

Definition lset {A} (l : list A) (i : nat) (x : A) : py (list A) :=
  if bool_decide (i < length l) then Ret (<[i := x]> l) else Raise IndexError.

(** [d[k]]. *)
Definition dget {K V} `{Countable K} (d : gmap K V) (k : K) : py V :=
  match d !! k with Some v => Ret v | None => Raise KeyError end.

(** A loop that updates one variable. *)
Fixpoint pfold {A B} (f : A → B → py A) (a : A) (l : list B) : py A :=
  match l with [] => Ret a | x :: l' => let? a' := f a x in pfold f a' l' end.

Section Pbqp.
Context `{CostOps}.

(** [min(a, b)], [min(l)] and [l.index(x)]. *)
Definition num_min (a b : num) : num := if num_ltb b a then b else a.

Definition list_min (l : list num) : py num :=
  match l with [] => Raise ValueError | x :: l' => Ret (foldl num_min x l') end.

Fixpoint index_of (x : num) (l : list num) : py nat :=
  match l with
  | [] => Raise ValueError
  | y :: l' => if num_eqb y x then Ret 0 else let? i := index_of x l' in Ret (S i)
  end.

Abbreviation matrix := (list (list num)).

(** The matrix with rows and columns exchanged, as the nested loops build it. *)
Definition transpose (m : matrix) : py matrix :=
  let? row := lnth m 0 in
  pymap (λ i, pymap (λ cost_vec, lnth cost_vec i) m) (seq 0 (length row)).

(** ** The tuner *)

(** The fields of a tuner.  Cost matrices are objects: two keys of
    [_layout_transform_interlayer_cost] may name the same one. *)
Record pbqp := mkP {
  p_adj : gmap nat (list nat);
  p_rec : gmap nat (list num);
  p_degree : gmap nat nat;
  p_max_degree : Z;
  p_stack : list nat;
  p_buckets : list (list nat);
  p_heap : gmap nat matrix;
  p_ltf : gmap (nat * nat) nat;
  p_opt : gmap nat nat;
  p_is_optimal : bool
}.

(** Assignment to one field. *)
Definition with_adj (v : gmap nat (list nat)) (s : pbqp) : pbqp :=
  mkP v (p_rec s) (p_degree s) (p_max_degree s) (p_stack s) (p_buckets s) (p_heap s) (p_ltf s)
      (p_opt s) (p_is_optimal s).
Definition with_rec (v : gmap nat (list num)) (s : pbqp) : pbqp :=
  mkP (p_adj s) v (p_degree s) (p_max_degree s) (p_stack s) (p_buckets s) (p_heap s) (p_ltf s)
      (p_opt s) (p_is_optimal s).
Definition with_degree (v : gmap nat nat) (s : pbqp) : pbqp :=
  mkP (p_adj s) (p_rec s) v (p_max_degree s) (p_stack s) (p_buckets s) (p_heap s) (p_ltf s)
      (p_opt s) (p_is_optimal s).
Definition with_stack (v : list nat) (s : pbqp) : pbqp :=
  mkP (p_adj s) (p_rec s) (p_degree s) (p_max_degree s) v (p_buckets s) (p_heap s) (p_ltf s)
      (p_opt s) (p_is_optimal s).
Definition with_buckets (v : list (list nat)) (s : pbqp) : pbqp :=
  mkP (p_adj s) (p_rec s) (p_degree s) (p_max_degree s) (p_stack s) v (p_heap s) (p_ltf s)
      (p_opt s) (p_is_optimal s).
Definition with_heap (v : gmap nat matrix) (s : pbqp) : pbqp :=
  mkP (p_adj s) (p_rec s) (p_degree s) (p_max_degree s) (p_stack s) (p_buckets s) v (p_ltf s)
      (p_opt s) (p_is_optimal s).
Definition with_ltf (v : gmap (nat * nat) nat) (s : pbqp) : pbqp :=
  mkP (p_adj s) (p_rec s) (p_degree s) (p_max_degree s) (p_stack s) (p_buckets s) (p_heap s) v
      (p_opt s) (p_is_optimal s).
Definition with_opt (v : gmap nat nat) (s : pbqp) : pbqp :=
  mkP (p_adj s) (p_rec s) (p_degree s) (p_max_degree s) (p_stack s) (p_buckets s) (p_heap s)
      (p_ltf s) v (p_is_optimal s).
Definition with_optimal (v : bool) (s : pbqp) : pbqp :=
  mkP (p_adj s) (p_rec s) (p_degree s) (p_max_degree s) (p_stack s) (p_buckets s) (p_heap s)
      (p_ltf s) (p_opt s) v.

Definition set_adj (f : gmap nat (list nat) → gmap nat (list nat)) : ST pbqp unit :=
  smod (λ s, with_adj (f (p_adj s)) s).
Definition set_rec (f : gmap nat (list num) → gmap nat (list num)) : ST pbqp unit :=
  smod (λ s, with_rec (f (p_rec s)) s).
Definition set_degree (n d : nat) : ST pbqp unit := smod (λ s, with_degree (<[n := d]> (p_degree s)) s).
Definition push_stack (n : nat) : ST pbqp unit := smod (λ s, with_stack (p_stack s ++ [n]) s).
Definition set_buckets (b : list (list nat)) : ST pbqp unit := smod (with_buckets b).
Definition set_heap (i : nat) (m : matrix) : ST pbqp unit := smod (λ s, with_heap (<[i := m]> (p_heap s)) s).
Definition set_ltf (k : nat * nat) (i : nat) : ST pbqp unit := smod (λ s, with_ltf (<[k := i]> (p_ltf s)) s).
Definition set_opt (n i : nat) : ST pbqp unit := smod (λ s, with_opt (<[n := i]> (p_opt s)) s).
Definition set_suboptimal : ST pbqp unit := smod (with_optimal false).

(** [self._adj_dict[n]], [self._record_cost_dict[n]] and the matrix of a pair. *)
Definition adj_of (n : nat) : ST pbqp (list nat) :=
  let! s := sget in slift (dget (p_adj s) n).
Definition rec_of (n : nat) : ST pbqp (list num) :=
  let! s := sget in slift (dget (p_rec s) n).
Definition ltf_id (k : nat * nat) : ST pbqp nat :=
  let! s := sget in slift (dget (p_ltf s) k).
Definition matrix_at (i : nat) : ST pbqp matrix :=
  let! s := sget in slift (dget (p_heap s) i).
Definition ltf_of (k : nat * nat) : ST pbqp matrix := let! i := ltf_id k in matrix_at i.

(** A new matrix under a key. *)
Definition ltf_new (k : nat * nat) (m : matrix) : ST pbqp unit :=
  let! s := sget in
  let i := fresh (dom (p_heap s)) in
  let! _ := set_heap i m in
  set_ltf k i.

(** [self._record_cost_dict[n][i] += c]. *)
Definition rec_add (n i : nat) (c : num) : ST pbqp unit :=
  let! l := rec_of n in
  let! x := slift (lnth l i) in
  let! l' := slift (lset l i (num_add x c)) in
  set_rec <[n := l']>.

(** [self._layout_transform_interlayer_cost[k][i][j] += c]. *)
Definition ltf_add (k : nat * nat) (i j : nat) (c : num) : ST pbqp unit :=
  let! id := ltf_id k in
  let! m := matrix_at id in
  let! row := slift (lnth m i) in
  let! x := slift (lnth row j) in
  let! row' := slift (lset row j (num_add x c)) in
  let! m' := slift (lset m i row') in
  set_heap id m'.

(** [self._buckets[d].remove(n)] and [self._buckets[d].insert(0, n)]. *)
Definition bucket_remove (d n : nat) : ST pbqp unit :=
  let! s := sget in
  let! b := slift (lnth (p_buckets s) d) in
  let! b' := slift (pyremove n b) in
  let! l := slift (lset (p_buckets s) d b') in
  set_buckets l.

Definition bucket_insert (d n : nat) : ST pbqp unit :=
  let! s := sget in
  let! b := slift (lnth (p_buckets s) d) in
  let! l := slift (lset (p_buckets s) d (n :: b)) in
  set_buckets l.

(** [_get_degree]. *)
Definition get_degree (n : nat) : ST pbqp nat := let! l := adj_of n in sret (length l).

(** [_reorder_adj_nodes]. *)
Definition reorder_adj_nodes (node_idx : nat) : ST pbqp unit :=
  let! adj := adj_of node_idx in
  sfor adj (λ adj_node,
    let! current_degree := get_degree adj_node in
    let! s := sget in
    let! prev_degree := slift (dget (p_degree s) adj_node) in
    if prev_degree =? current_degree then sret tt else
    let! _ := bucket_remove prev_degree adj_node in
    let! _ := bucket_insert current_degree adj_node in
    set_degree adj_node current_degree).

(** [_remove_node]. *)
Definition remove_node (node_idx : nat) : ST pbqp unit :=
  let! node_degree := get_degree node_idx in
  let! _ := bucket_remove node_degree node_idx in
  let! adj := adj_of node_idx in
  sfor adj (λ adj_node,
    let! l := adj_of adj_node in
    let! l' := slift (pyremove node_idx l) in
    set_adj <[adj_node := l']>).

(** [self._adj_dict[n].append(m)]. *)
Definition adj_append (n m : nat) : ST pbqp unit :=
  let! l := adj_of n in set_adj <[n := l ++ [m]]>.

(** [_insert_edge]. *)
Definition insert_edge (node_x node_y : nat) (adj_cost_matrix : matrix) : ST pbqp unit :=
  let! _ := ltf_new (node_x, node_y) adj_cost_matrix in
  let! t := slift (transpose adj_cost_matrix) in
  let! _ := ltf_new (node_y, node_x) t in
  let! _ := adj_append node_x node_y in
  adj_append node_y node_x.

(** [_backward_insert_node]. *)
Definition backward_insert_node (node_idx : nat) : ST pbqp unit :=
  let! adj := adj_of node_idx in
  sfor adj (λ adj_node, adj_append adj_node node_idx).

(** The least of [INVALID_LAYOUT_TIME] and the given costs. *)
Definition min_cost_over {A} (cost : A → py num) (l : list A) : py num :=
  pfold (λ min_cost a, let? c := cost a in Ret (num_min min_cost c)) INVALID_LAYOUT_TIME l.

(** [_RI_reduction]. *)
Definition RI_reduction (node_idx : nat) : ST pbqp unit :=
  let! adj := adj_of node_idx in
  let! adj_node := slift (lnth adj 0) in
  let! ltf_matrix := ltf_of (adj_node, node_idx) in
  let! _ := sfor (enumerate ltf_matrix) (λ '(i, cost_vec),
    let! costs := rec_of node_idx in
    let! min_cost := slift (min_cost_over (λ '(j, cost), let? c := lnth costs j in Ret (num_add cost c))
                              (enumerate cost_vec)) in
    rec_add adj_node i min_cost) in
  let! _ := remove_node node_idx in
  let! _ := reorder_adj_nodes node_idx in
  push_stack node_idx.

(** The matrix that replaces a node of degree 2. *)
Definition delta_matrix (ltf_matrix_x ltf_matrix_y : matrix) (costs : list num) : py matrix :=
  pymap (λ cost_vec_x, pymap (λ cost_vec_y,
    min_cost_over (λ k,
      let? x := lnth cost_vec_x k in
      let? y := lnth cost_vec_y k in
      let? c := lnth costs k in
      Ret (num_add (num_add x y) c)) (seq 0 (length costs))) ltf_matrix_y) ltf_matrix_x.

(** [_RII_reduction]. *)
Definition RII_reduction (node_idx : nat) : ST pbqp unit :=
  let! adj := adj_of node_idx in
  match adj with
  | [adj_node_x; adj_node_y] =>
      let! ltf_matrix_x := ltf_of (adj_node_x, node_idx) in
      let! ltf_matrix_y := ltf_of (adj_node_y, node_idx) in
      let! costs := rec_of node_idx in
      let! delta := slift (delta_matrix ltf_matrix_x ltf_matrix_y costs) in
      let! _ :=
        if adj_node_x =? adj_node_y then
          sfor (enumerate delta) (λ '(i, delta_row),
            let! d := slift (lnth delta_row i) in
            rec_add adj_node_x i d)
        else
          let! adj_y := adj_of adj_node_y in
          if bool_decide (adj_node_x ∈ adj_y) then
            sfor (enumerate delta) (λ '(i, delta_row),
              sfor (enumerate delta_row) (λ '(j, d),
                let! _ := ltf_add (adj_node_x, adj_node_y) i j d in
                ltf_add (adj_node_y, adj_node_x) j i d))
          else insert_edge adj_node_x adj_node_y delta in
      let! _ := remove_node node_idx in
      let! _ := reorder_adj_nodes node_idx in
      push_stack node_idx
  | _ => sraise ValueError
  end.

(** The cost of a record of a node with the best records of its neighbours. *)
Definition greedy_cost (node_idx i : nat) (record_cost : num) : ST pbqp num :=
  let! adj := adj_of node_idx in
  (fix go adj current_cost :=
    match adj with
    | [] => sret current_cost
    | adj_node :: adj' =>
        let! ltf_matrix := ltf_of (node_idx, adj_node) in
        let! adj_record_cost := rec_of adj_node in
        let! row := slift (lnth ltf_matrix i) in
        let! costs := slift (pfold (λ l '(j, ltf_cost),
          let? x := lnth l j in lset l j (num_add x ltf_cost)) adj_record_cost (enumerate row)) in
        let! m := slift (list_min costs) in
        go adj' (num_add current_cost m)
    end) adj record_cost.

(** The first record of least cost, below [INVALID_LAYOUT_TIME]. *)
Fixpoint greedy_record (node_idx : nat) (records : list (nat * num)) (min_cost : num)
    (record_idx : option nat) : ST pbqp (option nat) :=
  match records with
  | [] => sret record_idx
  | (i, record_cost) :: records' =>
      let! current_cost := greedy_cost node_idx i record_cost in
      if num_ltb current_cost min_cost then greedy_record node_idx records' current_cost (Some i)
      else greedy_record node_idx records' min_cost record_idx
  end.

(** [_RN_reduction]. *)
Definition RN_reduction (node_idx : nat) : ST pbqp unit :=
  let! costs := rec_of node_idx in
  let! record_idx := greedy_record node_idx (enumerate costs) INVALID_LAYOUT_TIME None in
  match record_idx with
  | None => sraise RuntimeError
  | Some record_idx =>
      let! _ := set_opt node_idx record_idx in
      let! _ := set_suboptimal in
      let! adj := adj_of node_idx in
      let! _ := sfor adj (λ adj_node,
        let! ltf_matrix := ltf_of (node_idx, adj_node) in
        let! row := slift (lnth ltf_matrix record_idx) in
        sfor (enumerate row) (λ '(i, ltf_cost), rec_add adj_node i ltf_cost)) in
      let! _ := remove_node node_idx in
      let! _ := reorder_adj_nodes node_idx in
      push_stack node_idx
  end.

(** The first node of the highest non-empty bucket above 2. *)
Definition max_degree_node (buckets : list (list nat)) (max_degree : Z) : py (option nat) :=
  pfold (λ found i, match found with
    | Some _ => Ret found
    | None => let? b := pynth buckets i in Ret (head b)
    end) None (reverse (range 3 (max_degree + 1))).

(** One round of the loop of [_forward]; [false] where it breaks. *)
Definition forward_step : ST pbqp bool :=
  let! s := sget in
  let! b1 := slift (lnth (p_buckets s) 1) in
  match b1 with
  | node_idx :: _ => let! _ := RI_reduction node_idx in sret true
  | [] =>
      let! b2 := if bool_decide (2 ≤ p_max_degree s)%Z then slift (lnth (p_buckets s) 2) else sret [] in
      match b2 with
      | node_idx :: _ => let! _ := RII_reduction node_idx in sret true
      | [] =>
          if bool_decide (3 ≤ p_max_degree s)%Z then
            let! found := slift (max_degree_node (p_buckets s) (p_max_degree s)) in
            match found with
            | Some node_idx => let! _ := RN_reduction node_idx in sret true
            | None => sret false
            end
          else sret false
      end
  end.

(** [_forward]. *)
Fixpoint forward (fuel : nat) : ST pbqp unit :=
  match fuel with
  | O => sraise RecursionError
  | S fuel' => let! continue := forward_step in if continue then forward fuel' else sret tt
  end.

(** [min_cost = min(record_costs)], [record_costs.index(min_cost)]. *)
Definition best_index (record_costs : list num) : py nat :=
  let? min_cost := list_min record_costs in index_of min_cost record_costs.

(** The costs of the records of a node given the choices of its neighbours. *)
Definition add_choices (node_idx : nat) (record_costs : list num) (adj : list nat) : ST pbqp (list num) :=
  (fix go adj record_costs :=
    match adj with
    | [] => sret record_costs
    | adj_node :: adj' =>
        let! s := sget in
        let! adj_optimal_idx := slift (dget (p_opt s) adj_node) in
        let! m := ltf_of (node_idx, adj_node) in
        let! record_costs := slift (pymap (λ '(i, c),
          let? row := lnth m i in let? x := lnth row adj_optimal_idx in Ret (num_add c x))
          (enumerate record_costs)) in
        go adj' record_costs
    end) adj record_costs.

(** [_backward] for a node of the stack. *)
Definition backward_node (node_idx : nat) : ST pbqp unit :=
  let! _ := backward_insert_node node_idx in
  let! s := sget in
  match p_opt s !! node_idx with
  | Some _ => sret tt
  | None =>
      let! record_costs := rec_of node_idx in
      let! adj := adj_of node_idx in
      let! record_costs := add_choices node_idx record_costs adj in
      let! i := slift (best_index record_costs) in
      set_opt node_idx i
  end.

(** [_backward]. *)
Definition backward : ST pbqp unit :=
  let! s := sget in
  let! b0 := slift (lnth (p_buckets s) 0) in
  let! _ := sfor b0 (λ node_idx,
    let! record_costs := rec_of node_idx in
    let! i := slift (best_index record_costs) in
    set_opt node_idx i) in
  let! s := sget in
  sfor (reverse (p_stack s)) backward_node.

(** ** Construction and run *)

(** What the tuner takes from its base class: the input and output nodes of
    every node, the boundary nodes, the nodes with several inputs, and the costs
    of the record candidates. *)
Record gt_graph := mkGraph {
  in_nodes : list (nat * list nat);
  out_nodes : list (nat * list nat);
  boundary : nat → bool;
  multiple_inputs : nat → bool;
  candidate_costs : nat → py (list num)
}.

(** [d[k]] of a dictionary in insertion order. *)
Definition od_at {V} (d : list (nat * V)) (k : nat) : py V :=
  match od_get d k with Some v => Ret v | None => Raise KeyError end.

(** Boundary nodes are removed from the inputs of the others. *)
Definition drop_boundary (g : gt_graph) : py (list (nat * list nat)) :=
  pfold (λ d '(node_idx, outs),
    if boundary g node_idx then
      pfold (λ d out_node_idx,
        let? l := od_at d out_node_idx in
        let? l' := pyremove node_idx l in
        Ret (od_set d out_node_idx l')) d outs
    else Ret d) (in_nodes g) (out_nodes g).

(** [sorted] of node indexes. *)
Definition sorted_nodes : list nat → list nat := merge_sort le.

(** [PBQPTuner.__init__]: the tuner and its [_in_nodes_dict]; the layout
    transformation costs come later. *)
Definition pbqp_init (g : gt_graph) : py (pbqp * list (nat * list nat)) :=
  let? ins := drop_boundary g in
  let? adj := pymap (λ '(node_idx, l), let? o := od_at (out_nodes g) node_idx in Ret (node_idx, l ++ o)) ins in
  let? costs := pymap (λ '(node_idx, _), let? c := candidate_costs g node_idx in Ret (node_idx, c)) ins in
  let degrees := prod_map id length <$> adj in
  let max_degree := foldl Z.max (-1)%Z (Z.of_nat <$> degrees.*2) in
  let adj : gmap nat (list nat) := list_to_map adj in
  let? buckets := pfold (λ b node_idx,
    let? l := dget adj node_idx in
    let? old := lnth b (length l) in
    lset b (length l) (old ++ [node_idx]))
    (replicate (Z.to_nat (max_degree + 2)) []) (sorted_nodes ins.*1) in
  Ret (mkP adj (list_to_map costs) (list_to_map degrees) max_degree [] buckets ∅ ∅ ∅ true, ins).

(** A matrix in which only equal choices are possible. *)
Definition same_choice (n : nat) : matrix :=
  (λ j, (λ k, if j =? k then num_zero else INVALID_LAYOUT_TIME) <$> seq 0 n) <$> seq 0 n.

(** A new matrix object. *)
Definition alloc (m : matrix) : ST pbqp nat :=
  let! s := sget in
  let i := fresh (dom (p_heap s)) in
  let! _ := set_heap i m in
  sret i.

(** The entries of a node with several inputs: its records are those of its
    first input, and the other inputs transform to the layout of the first one,
    by the very matrices of those pairs. *)
Definition virtual_entries (g : gt_graph) (key : nat) (val : list nat) (temp : gmap (nat * nat) nat) :
    ST pbqp (gmap (nat * nat) nat) :=
  if negb (multiple_inputs g key) then sret temp else
  match list_find (λ i, boundary g i = false) val with
  | None => sret temp
  | Some (pos, target) =>
      let! costs := slift (candidate_costs g target) in
      let! i := alloc (same_choice (length costs)) in
      let! s := sget in
      slift (pfold (λ temp input_idx,
        if boundary g input_idx then Ret temp else
        let? id := dget (p_ltf s) (input_idx, target) in
        Ret (<[(input_idx, key) := id]> temp)) (<[(target, key) := i]> temp) (drop (S pos) val))
  end.

Fixpoint all_virtual_entries (g : gt_graph) (ins : list (nat * list nat)) (temp : gmap (nat * nat) nat) :
    ST pbqp (gmap (nat * nat) nat) :=
  match ins with
  | [] => sret temp
  | (key, val) :: ins' => let! temp := virtual_entries g key val temp in all_virtual_entries g ins' temp
  end.

(** [self._layout_transform_interlayer_cost.update(temp)]. *)
Definition update_ltf (temp : gmap (nat * nat) nat) : ST pbqp unit :=
  smod (λ s, with_ltf (temp ∪ p_ltf s) s).

(** The reverse of a matrix, row by row. *)
Definition reverse_matrix (m : matrix) : py matrix :=
  let? row := lnth m 0 in
  pfold (λ r row, pfold (λ r '(j, ltf), let? l := lnth r j in lset r j (l ++ [ltf])) r (enumerate row))
    (replicate (length row) []) m.

Fixpoint reverse_entries (items : list ((nat * nat) * nat)) (temp : gmap (nat * nat) nat) :
    ST pbqp (gmap (nat * nat) nat) :=
  match items with
  | [] => sret temp
  | ((a, b), id) :: items' =>
      let! m := matrix_at id in
      let! r := slift (reverse_matrix m) in
      let! i := alloc r in
      reverse_entries items' (<[(b, a) := i]> temp)
  end.

(** [PBQPTuner.run]. *)
Definition run (g : gt_graph) (ins : list (nat * list nat)) (fuel : nat) : ST pbqp unit :=
  let! temp := all_virtual_entries g ins ∅ in
  let! _ := update_ltf temp in
  let! s := sget in
  let! temp := reverse_entries (map_to_list (p_ltf s)) ∅ in
  let! _ := update_ltf temp in
  let! _ := forward fuel in
  backward.
End Pbqp.
