(* ===== verification/PbqpEnergy.v ===== *)
(** * The cost of a choice in a partitioned boolean quadratic problem

    Problems as functions, the cost of a choice of one record per node, and how
    it changes when a node is removed, when costs are added to a node and when an
    edge is added or reinforced. *)

From S2P Require Import Prelude.

#[local] Open Scope Z_scope.

(** ** Sums *)

Definition zsum (l : list Z) : Z := foldr Z.add 0 l.

Lemma zsum_app l k : zsum (l ++ k) = zsum l + zsum k.
Proof. induction l as [|x l IH]; simpl; [done|]. rewrite IH. lia. Qed.

#[global] Instance zsum_perm : Proper (Permutation ==> eq) zsum.
Proof. intros l k Hp. induction Hp; simpl; lia. Qed.

Lemma zsum_ext {A} (f g : A → Z) l : (∀ x, x ∈ l → f x = g x) → zsum (f <$> l) = zsum (g <$> l).
Proof.
  intros Hfg. f_equal. apply list_fmap_ext. intros i x Hx. apply Hfg. by eapply list_elem_of_lookup_2.
Qed.

Lemma zsum_nonneg {A} (f : A → Z) l : (∀ x, x ∈ l → 0 ≤ f x) → 0 ≤ zsum (f <$> l).
Proof.
  induction l as [|x l IH]; csimpl; [done|]. intros Hf.
  pose proof (Hf x ltac:(left)). specialize (IH ltac:(intros; apply Hf; by right)). lia.
Qed.

Lemma zsum_le {A} (f g : A → Z) l : (∀ x, x ∈ l → f x ≤ g x) → zsum (f <$> l) ≤ zsum (g <$> l).
Proof.
  induction l as [|x l IH]; csimpl; [done|]. intros Hf.
  pose proof (Hf x ltac:(left)). specialize (IH ltac:(intros; apply Hf; by right)). lia.
Qed.

Lemma zsum_plus {A} (f g : A → Z) l : zsum ((λ x, f x + g x) <$> l) = zsum (f <$> l) + zsum (g <$> l).
Proof. induction l as [|x l IH]; csimpl; [done|]. rewrite IH. lia. Qed.

(** One term changes. *)
Lemma zsum_update {A} `{EqDecision A} (f g : A → Z) l a :
  NoDup l → a ∈ l → (∀ x, x ∈ l → x ≠ a → g x = f x) → zsum (g <$> l) = zsum (f <$> l) + (g a - f a).
Proof.
  induction l as [|x l IH]; [by intros _ ?%elem_of_nil|]. intros [Hx Hnd]%NoDup_cons Hin Hfg. csimpl.
  destruct (decide (x = a)) as [->|Hne].
  - rewrite (zsum_ext g f l); [lia|]. intros y Hy. apply Hfg; [by right|]. by intros ->.
  - rewrite (Hfg x) by (done || left). apply elem_of_cons in Hin as [->|Hin]; [done|].
    rewrite IH; [lia|done|done|]. intros y Hy. apply Hfg. by right.
Qed.

(** The terms of [l] with a property, as a sum over the elements that have it. *)
Lemma zsum_where {A} `{EqDecision A} (P : A → Prop) `{∀ x, Decision (P x)} (f : A → Z) l k :
  NoDup l → NoDup k → (∀ x, x ∈ k ↔ x ∈ l ∧ P x) →
  zsum ((λ x, if decide (P x) then f x else 0) <$> l) = zsum (f <$> k).
Proof.
  intros Hl Hk Hin. transitivity (zsum (f <$> filter P l)).
  - clear. induction l as [|x l IH]; [done|]. rewrite filter_cons. csimpl.
    case_decide; csimpl; rewrite IH; lia.
  - apply zsum_perm, fmap_Permutation, NoDup_Permutation; [by apply NoDup_filter|done|].
    intros x. rewrite list_elem_of_filter, Hin. tauto.
Qed.

(** The least of a bound and some numbers. *)
Definition zmin (b : Z) (l : list Z) : Z := foldr Z.min b l.

Lemma zmin_le_bound b l : zmin b l ≤ b.
Proof. induction l as [|x l IH]; simpl; lia. Qed.

Lemma zmin_le b l x : x ∈ l → zmin b l ≤ x.
Proof.
  induction l as [|y l IH]; [by intros ?%elem_of_nil|].
  intros [->|Hx]%elem_of_cons; simpl; [lia|]. specialize (IH Hx). lia.
Qed.

Lemma zmin_attained b l : zmin b l < b → zmin b l ∈ l.
Proof.
  induction l as [|x l IH]; simpl; [lia|]. intros Hlt.
  destruct (Z.min_spec x (zmin b l)) as [[? ->]|[? ->]]; [left|]. right. apply IH. lia.
Qed.

Lemma zmin_nonneg b l : 0 ≤ b → (∀ x, x ∈ l → 0 ≤ x) → 0 ≤ zmin b l.
Proof.
  intros Hb. induction l as [|x l IH]; simpl; [done|]. intros Hl.
  pose proof (Hl x ltac:(left)). specialize (IH ltac:(intros; apply Hl; by right)). lia.
Qed.

Lemma foldl_zmin (l : list Z) : ∀ b, foldl Z.min b l = zmin b l.
Proof.
  induction l as [|x l IH]; intros b; simpl; [done|]. rewrite IH. clear.
  induction l as [|y l IH]; simpl; lia.
Qed.

(** ** The cost of a choice *)

(** The term of a node: twice its own cost, and the transformations to its
    neighbours, each of which is counted at both ends. *)
Section Energy.
Context (nbr : nat → list nat) (cost : nat → nat → Z) (trans : nat → nat → nat → nat → Z).

Definition links (f : nat → nat) (n : nat) : Z := zsum ((λ m, trans n m (f n) (f m)) <$> nbr n).

Definition node_term (f : nat → nat) (n : nat) : Z := 2 * cost n (f n) + links f n.

Definition energy (nodes : list nat) (f : nat → nat) : Z := zsum (node_term f <$> nodes).

(** The cost of choosing [k] at [v] when the neighbours have chosen. *)
Definition local_cost (f : nat → nat) (v k : nat) : Z :=
  cost v k + zsum ((λ m, trans v m k (f m)) <$> nbr v).
End Energy.

(** Two ends of an edge change by the same amount. *)
Lemma energy_edge nbr nbr' cost trans trans' A f x y d :
  NoDup A → x ∈ A → y ∈ A → x ≠ y →
  (∀ n, n ∈ A → n ≠ x → n ≠ y → links nbr' trans' f n = links nbr trans f n) →
  links nbr' trans' f x = links nbr trans f x + d →
  links nbr' trans' f y = links nbr trans f y + d →
  energy nbr' cost trans' A f = energy nbr cost trans A f + 2 * d.
Proof.
  intros HA Hx Hy Hne Hother Hdx Hdy. unfold energy.
  set (e := node_term nbr cost trans f). set (e' := node_term nbr' cost trans' f).
  set (e1 := λ n, if decide (n = x) then e' x else e n).
  assert (∀ n, e' n - e n = links nbr' trans' f n - links nbr trans f n) as Hd.
  { intros n. unfold e, e', node_term. lia. }
  rewrite (zsum_update e1 e' A y HA Hy).
  - rewrite (zsum_update e e1 A x HA Hx); unfold e1.
    + rewrite decide_True, decide_False by done. pose proof (Hd x). pose proof (Hd y). lia.
    + intros n _ Hn. by rewrite decide_False.
  - intros n Hn Hny. unfold e1. case_decide as Hnx; [by subst|].
    pose proof (Hd n). rewrite Hother in * by done. lia.
Qed.

(** The cost of one node changes. *)
Lemma energy_cost nbr cost cost' trans A f a d :
  NoDup A → a ∈ A → (∀ n, n ∈ A → n ≠ a → cost' n (f n) = cost n (f n)) →
  cost' a (f a) = cost a (f a) + d →
  energy nbr cost' trans A f = energy nbr cost trans A f + 2 * d.
Proof.
  intros HA Ha Hother Hd. unfold energy.
  rewrite (zsum_update (node_term nbr cost trans f) (node_term nbr cost' trans f) A a HA Ha).
  - unfold node_term. lia.
  - intros n Hn Hne. unfold node_term. by rewrite Hother.
Qed.

(** A node is taken out with its edges. *)
Lemma energy_remove nbr nbr' cost trans A A' v f :
  NoDup A → A ≡ₚ v :: A' → NoDup (nbr v) → nbr v ⊆ A' →
  (∀ n, n ∈ A' → nbr n ≡ₚ if decide (n ∈ nbr v) then v :: nbr' n else nbr' n) →
  (∀ m, m ∈ nbr v → trans m v (f m) (f v) = trans v m (f v) (f m)) →
  energy nbr cost trans A f = energy nbr' cost trans A' f + 2 * local_cost nbr cost trans f v (f v).
Proof.
  intros HA HAv Hndv Hsub Hnbr Hsym. unfold energy. rewrite HAv. csimpl.
  rewrite HAv in HA. apply NoDup_cons in HA as [_ HA'].
  assert (zsum (node_term nbr cost trans f <$> A') =
    zsum ((λ n, node_term nbr' cost trans f n +
      (if decide (n ∈ nbr v) then trans n v (f n) (f v) else 0)) <$> A')) as ->.
  { apply zsum_ext. intros n Hn. unfold node_term, links. rewrite (Hnbr n Hn).
    case_decide; csimpl; lia. }
  rewrite zsum_plus. rewrite (zsum_where (λ n, n ∈ nbr v) (λ n, trans n v (f n) (f v)) A' (nbr v));
    [|done|done|set_solver].
  rewrite (zsum_ext (λ n, trans n v (f n) (f v)) (λ m, trans v m (f v) (f m)) (nbr v)) by done.
  unfold node_term, links, local_cost. lia.
Qed.

Lemma energy_ext nbr cost trans A f g :
  (∀ n, n ∈ A → f n = g n) → (∀ n m, n ∈ A → m ∈ nbr n → m ∈ A) →
  energy nbr cost trans A f = energy nbr cost trans A g.
Proof.
  intros Hfg Hcl. apply zsum_ext. intros n Hn. unfold node_term, links. rewrite Hfg by done. f_equal.
  apply zsum_ext. intros m Hm. by rewrite (Hfg m) by eauto.
Qed.

Lemma energy_nonneg nbr cost trans A f :
  (∀ n, n ∈ A → 0 ≤ cost n (f n)) → (∀ n m, n ∈ A → m ∈ nbr n → 0 ≤ trans n m (f n) (f m)) →
  0 ≤ energy nbr cost trans A f.
Proof.
  intros Hc Ht. apply zsum_nonneg. intros n Hn. unfold node_term.
  pose proof (Hc n Hn). pose proof (zsum_nonneg (λ m, trans n m (f n) (f m)) (nbr n) (λ m Hm, Ht n m Hn Hm)).
  unfold links. lia.
Qed.

(** ** Taking a node out *)

(** What remains has, for every choice, the least cost of completing it, cut at a
    bound: then no choice got dearer, and a choice below the bound is completed
    at its cost by the best record of the node. *)
Lemma reduction_lower rest A_energy bound local K (k : nat) :
  (k < K)%nat → A_energy = rest + 2 * local k →
  rest + 2 * zmin bound (local <$> seq 0 K) ≤ A_energy.
Proof.
  intros Hk ->. assert (local k ∈ local <$> seq 0 K) as Hin.
  { apply list_elem_of_fmap_2, elem_of_seq. lia. }
  pose proof (zmin_le bound _ _ Hin). lia.
Qed.

Lemma reduction_complete rest bound local K (k : nat) :
  (k < K)%nat → 0 ≤ rest → rest + 2 * zmin bound (local <$> seq 0 K) < 2 * bound →
  (∀ j, (j < K)%nat → local k ≤ local j) →
  rest + 2 * local k = rest + 2 * zmin bound (local <$> seq 0 K).
Proof.
  intros Hk Hr Hlt Hmin. assert (zmin bound (local <$> seq 0 K) < bound) as Hb by lia.
  apply zmin_attained in Hb. apply list_elem_of_fmap in Hb as (j & Hj & Hin).
  apply elem_of_seq in Hin. assert (local k ∈ local <$> seq 0 K) as Hk'.
  { apply list_elem_of_fmap_2, elem_of_seq. lia. }
  pose proof (zmin_le bound _ _ Hk'). specialize (Hmin j ltac:(lia)). lia.
Qed.
