(* ===== verification/PbqpState.v ===== *)
(** * The state of the PBQP tuner

    Well-formed states, what each primitive operation of the tuner does to them,
    and the graph a state denotes. *)

From S2P Require Import Prelude Pbqp PbqpEnergy.

(** ** Exact costs *)

(** Costs that are added and compared without rounding: whole numbers of some
    unit. *)
Class CostOk `{CostOps} := {
  val : num → Z;
  val_zero : val num_zero = 0%Z;
  val_add a b : val (num_add a b) = (val a + val b)%Z;
  val_ltb a b : num_ltb a b = bool_decide (val a < val b)%Z;
  val_eqb a b : num_eqb a b = bool_decide (val a = val b);
  val_invalid : (0 < val INVALID_LAYOUT_TIME)%Z
}.

(** Equality of tests on positions. *)
Ltac bool_lia :=
  apply eq_iff_eq_true; rewrite ?orb_true_iff, ?andb_true_iff, ?Nat.ltb_lt, ?Nat.eqb_eq; lia.

(** ** Loops over enumerated lists *)

Lemma lookup_enumerate {A} (l : list A) i : enumerate l !! i = pair i <$> l !! i.
Proof. unfold enumerate. by rewrite list_lookup_imap. Qed.

Lemma sfor_enumerate_inv {S A} (body : nat * A → ST S unit) (P : nat → S → Prop) (l : list A) s :
  P 0 s →
  (∀ i x t, l !! i = Some x → P i t → ∃ t', body (i, x) t = (Ret tt, t') ∧ P (i + 1) t') →
  ∃ s', sfor (enumerate l) body s = (Ret tt, s') ∧ P (length l) s'.
Proof.
  intros H0 Hstep.
  destruct (sfor_inv body (λ done t, P (length done) t) (enumerate l) s) as (s' & Hs & HP); [done| |].
  - intros pre [i x] rest t Hl HP.
    assert (enumerate l !! length pre = Some (i, x)) as Hi by (rewrite Hl; by apply list_lookup_middle).
    rewrite lookup_enumerate in Hi. destruct (l !! length pre) as [y|] eqn:Hy; [|done].
    simplify_eq/=. rewrite length_app. simpl. by apply Hstep.
  - exists s'. split; [done|]. unfold enumerate in HP. by rewrite length_imap in HP.
Qed.

Lemma pfold_enumerate_inv {A B} (f : A → nat * B → py A) (P : nat → A → Prop) (l : list B) a :
  P 0 a →
  (∀ i x b, l !! i = Some x → P i b → ∃ b', f b (i, x) = Ret b' ∧ P (i + 1) b') →
  ∃ a', pfold f a (enumerate l) = Ret a' ∧ P (length l) a'.
Proof.
  intros H0 Hstep. unfold enumerate.
  assert (∀ l2 k b, (∀ i x, l2 !! i = Some x → l !! (k + i) = Some x) → P k b →
    ∃ a', pfold f b (imap (λ i x, (k + i, x)) l2) = Ret a' ∧ P (k + length l2) a') as Hgen.
  { induction l2 as [|x l2 IH]; intros k b Hl HP; simpl; [exists b; by rewrite Nat.add_0_r|].
    destruct (Hstep k x b) as (b' & Hb & HP'); [|done|].
    { specialize (Hl 0 x eq_refl). by rewrite Nat.add_0_r in Hl. }
    rewrite Nat.add_0_r, Hb. cbn [pbind].
    destruct (IH (k + 1) b') as (a' & Ha & HPa); [|done|].
    { intros i y Hi. rewrite <-Nat.add_assoc. by apply (Hl (1 + i)). }
    exists a'. split; [|by rewrite Nat.add_succ_r, <-Nat.add_succ_l, <-(Nat.add_1_r k)].
    rewrite <-Ha. f_equal. apply imap_ext. intros i y _. simpl. f_equal. lia. }
  destruct (Hgen l 0 a) as (a' & Ha & HPa); [done|done|]. by exists a'.
Qed.

(** ** Removal from lists without repetitions *)

Lemma remove1_elem (x y : nat) l : NoDup l → y ∈ remove1 x l ↔ y ∈ l ∧ y ≠ x.
Proof.
  induction 1 as [|z l Hz Hl IH]; simpl; [set_solver|]. case_decide as Hxz.
  - subst z. rewrite elem_of_cons. set_solver.
  - rewrite !elem_of_cons, IH. set_solver.
Qed.

Lemma remove1_NoDup (x : nat) l : NoDup l → NoDup (remove1 x l).
Proof.
  induction 1 as [|y l Hy Hl IH]; simpl; [constructor|]. case_decide; [done|].
  constructor; [|done]. rewrite remove1_elem by done. tauto.
Qed.

(** ** Views of a state *)

Section State.
Context `{CostOps, !CostOk}.

Definition INV : Z := val INVALID_LAYOUT_TIME.

Abbreviation matrix := (list (list num)).

Definition entry (M : matrix) (i j : nat) : Z :=
  match M !! i ≫= (.!! j) with Some x => val x | None => 0%Z end.

Definition is_matrix (M : matrix) (r c : nat) : Prop :=
  length M = r ∧ ∀ i row, M !! i = Some row → length row = c.

(** The neighbours, record costs and transformation costs of a state. *)
Definition nb (s : pbqp) (n : nat) : list nat := default [] (p_adj s !! n).
Definition rcs (s : pbqp) (n : nat) : list num := default [] (p_rec s !! n).
Definition mat (s : pbqp) (n m : nat) : matrix :=
  default [] (p_ltf s !! (n, m) ≫= λ id, p_heap s !! id).
Definition cst (s : pbqp) (n i : nat) : Z :=
  match rcs s n !! i with Some x => val x | None => 0%Z end.
Definition trn (s : pbqp) (n m i j : nat) : Z := entry (mat s n m) i j.

Definition total (s : pbqp) (A : list nat) (f : nat → nat) : Z := energy (nb s) (cst s) (trn s) A f.

(** A choice gives every node one of its records. *)
Definition valid (s : pbqp) (A : list nat) (f : nat → nat) : Prop :=
  ∀ n, n ∈ A → f n < length (rcs s n).

(** ** Well-formed states *)

(** The graph of the nodes [A]: no loops, no parallel edges, symmetric, with
    records for the nodes and matrices for the edges, each the transpose of the
    other direction, and without negative costs. *)
Record graph_ok (s : pbqp) (A : list nat) : Prop := {
  go_nodup : NoDup A;
  go_adj n : n ∈ A → p_adj s !! n = Some (nb s n);
  go_simple n : n ∈ A → NoDup (nb s n) ∧ n ∉ nb s n;
  go_sym n m : n ∈ A → m ∈ nb s n → m ∈ A ∧ n ∈ nb s m;
  go_rec n : n ∈ A → p_rec s !! n = Some (rcs s n) ∧ rcs s n ≠ [];
  go_cost n i : n ∈ A → (0 ≤ cst s n i)%Z;
  go_mat n m : n ∈ A → m ∈ nb s n → is_matrix (mat s n m) (length (rcs s n)) (length (rcs s m));
  go_trn n m i j : n ∈ A → m ∈ nb s n → (0 ≤ trn s n m i j)%Z ∧ trn s n m i j = trn s m n j i
}.

(** The edges of the nodes [D] have matrix objects, different edges different
    ones. *)
Record ids_ok (s : pbqp) (D : list nat) : Prop := {
  io_has n m : n ∈ D → m ∈ nb s n → ∃ id, p_ltf s !! (n, m) = Some id ∧ p_heap s !! id = Some (mat s n m);
  io_inj n m n' m' id : n ∈ D → m ∈ nb s n → n' ∈ D → m' ∈ nb s n' →
    p_ltf s !! (n, m) = Some id → p_ltf s !! (n', m') = Some id → n = n' ∧ m = m'
}.

(** The nodes with [P] are in the buckets of their recorded degrees. *)
Record buckets_ok (s : pbqp) (P : nat → Prop) : Prop := {
  bo_nodup d b : p_buckets s !! d = Some b → NoDup b;
  bo_in n d b : p_buckets s !! d = Some b → n ∈ b ↔ P n ∧ p_degree s !! n = Some d;
  bo_degree n : P n → ∃ d, p_degree s !! n = Some d ∧ S d < length (p_buckets s);
  bo_length : Z.of_nat (length (p_buckets s)) = (p_max_degree s + 2)%Z
}.

(** The recorded degrees are the degrees. *)
Definition degrees_ok (s : pbqp) (A : list nat) : Prop :=
  ∀ n, n ∈ A → p_degree s !! n = Some (length (nb s n)).

Record wf (s : pbqp) (A D : list nat) : Prop := {
  wf_graph : graph_ok s A;
  wf_ids : ids_ok s D;
  wf_buckets : buckets_ok s (λ n, n ∈ A);
  wf_degrees : degrees_ok s A;
  wf_max : 2 ≤ length (p_buckets s)
}.

(** ** Primitive operations *)

Lemma dget_Some {K V} `{Countable K} (d : gmap K V) k v : d !! k = Some v → dget d k = Ret v.
Proof. unfold dget. by intros ->. Qed.

Lemma lnth_Some {A} (l : list A) i x : l !! i = Some x → lnth l i = Ret x.
Proof. unfold lnth. by intros ->. Qed.

Lemma lset_in {A} (l : list A) i x : i < length l → lset l i x = Ret (<[i := x]> l).
Proof. intros Hi. unfold lset. by rewrite bool_decide_true. Qed.

Lemma pyremove_in {A} `{EqDecision A} (x : A) l : x ∈ l → pyremove x l = Ret (remove1 x l).
Proof. intros Hx. unfold pyremove. by rewrite bool_decide_true. Qed.

Lemma adj_of_Some s n l : p_adj s !! n = Some l → adj_of n s = (Ret l, s).
Proof. intros Hl. unfold adj_of, sbind, sget, slift. by rewrite (dget_Some _ _ _ Hl). Qed.

Lemma rec_of_Some s n l : p_rec s !! n = Some l → rec_of n s = (Ret l, s).
Proof. intros Hl. unfold rec_of, sbind, sget, slift. by rewrite (dget_Some _ _ _ Hl). Qed.

Lemma ltf_of_Some s n m id : p_ltf s !! (n, m) = Some id → p_heap s !! id = Some (mat s n m) →
  ltf_of (n, m) s = (Ret (mat s n m), s).
Proof.
  intros Hl Hh. unfold ltf_of, ltf_id, matrix_at, sbind, sget, slift.
  by rewrite (dget_Some _ _ _ Hl), (dget_Some _ _ _ Hh).
Qed.

Lemma rec_add_Some s n i c l x :
  p_rec s !! n = Some l → l !! i = Some x →
  rec_add n i c s = (Ret tt, with_rec (<[n := <[i := num_add x c]> l]> (p_rec s)) s).
Proof.
  intros Hl Hx. unfold rec_add, sbind, slift. rewrite (rec_of_Some _ _ _ Hl), (lnth_Some _ _ _ Hx).
  rewrite lset_in by (by eapply lookup_lt_Some). done.
Qed.

(** The costs of a list after adding [d i] to the first [k] of them. *)
Definition bumped (l l' : list num) (d : nat → Z) (k : nat) : Prop :=
  length l' = length l ∧
  ∀ i x, l !! i = Some x → ∃ x', l' !! i = Some x' ∧
    val x' = (val x + if decide (i < k)%nat then d i else 0)%Z.

Lemma bumped_refl l d : bumped l l d 0.
Proof. split; [done|]. intros i x Hx. exists x. rewrite decide_False by lia. split; [done|lia]. Qed.

Lemma bumped_step l l' d k c x' :
  bumped l l' d k → l' !! k = Some x' → val c = d k → bumped l (<[k := num_add x' c]> l') d (k + 1).
Proof.
  intros [Hlen Hb] Hx' Hc. split; [by rewrite length_insert|]. intros i x Hx.
  destruct (Hb i x Hx) as (y & Hy & Hv). destruct (decide (i = k)) as [->|Hne].
  - exists (num_add x' c). rewrite list_lookup_insert_eq by (by eapply lookup_lt_Some).
    split; [done|]. rewrite decide_True by lia. rewrite decide_False in Hv by lia.
    simplify_eq. rewrite val_add. lia.
  - exists y. rewrite list_lookup_insert_ne by done. split; [done|]. rewrite Hv.
    destruct (decide (i < k)), (decide (i < k + 1)); lia.
Qed.

(** A loop that adds a cost to every record of a node. *)
Lemma rec_add_loop {B} a (L : list B) (body : nat * B → ST pbqp unit) (d : nat → Z) s l :
  p_rec s !! a = Some l → length L = length l →
  (∀ i x r, L !! i = Some x → (∀ n, n ≠ a → r !! n = p_rec s !! n) →
     ∃ c, val c = d i ∧ body (i, x) (with_rec r s) = rec_add a i c (with_rec r s)) →
  ∃ r l', sfor (enumerate L) body s = (Ret tt, with_rec r s) ∧
    (∀ n, n ≠ a → r !! n = p_rec s !! n) ∧ r !! a = Some l' ∧ bumped l l' d (length l).
Proof.
  intros Hl Hlen Hbody.
  destruct (sfor_enumerate_inv body
    (λ k t, ∃ r l', t = with_rec r s ∧ (∀ n, n ≠ a → r !! n = p_rec s !! n) ∧ r !! a = Some l' ∧ bumped l l' d k)
    L s) as (s' & Hs & r & l' & -> & Hr & Ha & Hb).
  - exists (p_rec s), l. split; [by destruct s|]. split; [done|]. split; [done|]. apply bumped_refl.
  - intros i x t Hx (r & l' & -> & Hr & Ha & Hb). destruct (Hbody i x r Hx Hr) as (c & Hc & ->).
    pose proof (lookup_lt_Some _ _ _ Hx) as Hi. destruct Hb as [Hlen' Hb].
    destruct (lookup_lt_is_Some_2 l' i) as [x' Hx']; [by rewrite Hlen', <-Hlen|].
    rewrite (rec_add_Some (with_rec r s) a i c l' x') by done. eexists. split; [done|].
    eexists _, _. split; [done|]. split; [intros n Hn; rewrite lookup_insert_ne by done; by apply Hr|].
    split; [by rewrite lookup_insert_eq|]. by apply bumped_step.
  - exists r, l'. rewrite <-Hlen. done.
Qed.

(** ** Buckets *)

Lemma bucket_remove_ok s (P : nat → Prop) n d :
  buckets_ok s P → P n → p_degree s !! n = Some d →
  ∃ b, bucket_remove d n s = (Ret tt, with_buckets b s) ∧ length b = length (p_buckets s) ∧
    buckets_ok (with_buckets b s) (λ m, P m ∧ m ≠ n).
Proof.
  intros [Hnd Hin Hdeg Hlen] HP Hd. destruct (Hdeg n HP) as (d' & Hd' & Hlt). simplify_eq.
  destruct (lookup_lt_is_Some_2 (p_buckets s) d) as [b Hb]; [lia|].
  assert (n ∈ b) as Hnb by (by apply (Hin n d b)).
  exists (<[d := remove1 n b]> (p_buckets s)). split; [|split; [by rewrite length_insert|]].
  - unfold bucket_remove, sbind, sget, slift, set_buckets, smod.
    rewrite (lnth_Some _ _ _ Hb), pyremove_in, lset_in by (done || lia). done.
  - pose proof (Hnd d b Hb) as Hndb.
    assert (∀ m, m ∈ remove1 n b ↔ m ∈ b ∧ m ≠ n) as Hrm by (intros m; by apply remove1_elem).
    split; simpl.
    + intros d' b' Hb'. apply list_lookup_insert_Some in Hb' as [(<- & <- & _)|[Hne Hb']]; [|by eapply Hnd].
      by apply remove1_NoDup.
    + intros m d' b' Hb'. apply list_lookup_insert_Some in Hb' as [(<- & <- & _)|[Hne Hb']].
      * rewrite Hrm, (Hin m d b Hb). tauto.
      * rewrite (Hin m d' b' Hb'). split; [|tauto]. intros [Hm Hdm]. split; [|done]. split; [done|].
        intros ->. by simplify_eq.
    + intros m [Hm _]. destruct (Hdeg m Hm) as (dm & ? & ?). exists dm. by rewrite length_insert.
    + by rewrite length_insert.
Qed.

Lemma bucket_insert_ok s (P : nat → Prop) n d :
  buckets_ok s (λ m, P m ∧ m ≠ n) → P n → S d < length (p_buckets s) →
  ∃ b, (let! _ := bucket_insert d n in set_degree n d) s =
         (Ret tt, with_degree (<[n := d]> (p_degree s)) (with_buckets b s)) ∧
    length b = length (p_buckets s) ∧
    buckets_ok (with_degree (<[n := d]> (p_degree s)) (with_buckets b s)) P.
Proof.
  intros [Hnd Hin Hdeg Hlen] HP Hd. destruct (lookup_lt_is_Some_2 (p_buckets s) d) as [b Hb]; [lia|].
  exists (<[d := n :: b]> (p_buckets s)). split; [|split; [by rewrite length_insert|]].
  - unfold bucket_insert, set_degree, sbind, sget, slift, set_buckets, smod.
    rewrite (lnth_Some _ _ _ Hb), lset_in by lia. done.
  - assert (n ∉ b) as Hnb by (intros Hnb; apply (Hin n d b Hb) in Hnb as [[_ ?] _]; done).
    split; simpl.
    + intros d' b' Hb'. apply list_lookup_insert_Some in Hb' as [(<- & <- & _)|[Hne Hb']]; [|by eapply Hnd].
      constructor; [done|by eapply Hnd].
    + intros m d' b' Hb'. rewrite lookup_insert_Some.
      apply list_lookup_insert_Some in Hb' as [(<- & <- & _)|[Hne Hb']].
      * rewrite elem_of_cons, (Hin m d b Hb). destruct (decide (m = n)) as [->|]; naive_solver.
      * rewrite (Hin m d' b' Hb'). destruct (decide (m = n)) as [->|]; naive_solver.
    + intros m Hm. rewrite length_insert. destruct (decide (m = n)) as [->|Hmn].
      * exists d. by rewrite lookup_insert_eq.
      * rewrite lookup_insert_ne by done. by apply Hdeg.
    + by rewrite length_insert.
Qed.

(** ** Taking a node out of the graph *)

(** Neighbours without a node. *)
Definition without (v : nat) (adj : gmap nat (list nat)) (l : list nat) : gmap nat (list nat) → Prop :=
  λ r, ∀ n, r !! n = if decide (n ∈ l) then Some (remove1 v (default [] (adj !! n))) else adj !! n.

(** [_remove_node] takes the node out of its bucket and out of the lists of its
    neighbours; its own list stays. *)
Lemma remove_node_ok s A v :
  graph_ok s A → buckets_ok s (λ n, n ∈ A) → v ∈ A → p_degree s !! v = Some (length (nb s v)) →
  ∃ b r, remove_node v s = (Ret tt, with_adj r (with_buckets b s)) ∧
    without v (p_adj s) (nb s v) r ∧ length b = length (p_buckets s) ∧
    buckets_ok (with_adj r (with_buckets b s)) (λ n, n ∈ A ∧ n ≠ v).
Proof.
  intros Hgo Hbo Hv Hdeg. pose proof (go_adj _ _ Hgo v Hv) as Hadj.
  destruct (bucket_remove_ok s _ v _ Hbo Hv Hdeg) as (b & Hb & Hlen & Hbo').
  destruct (go_simple _ _ Hgo v Hv) as [Hnd Hself].
  unfold remove_node, get_degree, sbind. rewrite (adj_of_Some _ _ _ Hadj). unfold sret. rewrite Hb.
  rewrite (adj_of_Some (with_buckets b s) _ _ Hadj).
  match goal with |- context [sfor ?l ?body ?t] =>
    destruct (sfor_inv body (λ done t', ∃ r, t' = with_adj r t ∧ without v (p_adj s) done r) l t)
      as (s' & Hs & r & -> & Hr) end.
  - exists (p_adj s). split; [by destruct s|]. intros n. by rewrite decide_False by set_solver.
  - intros pre n rest t' Hl (r & -> & Hr).
    assert (n ∈ nb s v) as Hn by (rewrite Hl; set_solver).
    destruct (go_sym _ _ Hgo v n Hv Hn) as [HnA Hvn].
    assert (n ∉ pre) as Hpre.
    { rewrite Hl in Hnd. apply NoDup_app in Hnd as (_ & Hd & _). intros Hp. apply (Hd n Hp). left. }
    assert (p_adj (with_adj r (with_buckets b s)) !! n = Some (nb s n)) as Hadjn.
    { simpl. rewrite Hr, decide_False by done. by apply (go_adj _ _ Hgo). }
    unfold sbind, slift, set_adj, smod. rewrite (adj_of_Some _ _ _ Hadjn), pyremove_in by done.
    eexists. split; [done|]. eexists. split; [by destruct s|].
    intros m. simpl. destruct (decide (m = n)) as [->|Hmn].
    + rewrite lookup_insert_eq, decide_True by set_solver. done.
    + rewrite lookup_insert_ne by done. rewrite Hr. destruct (decide (m ∈ pre)).
      * by rewrite decide_True by set_solver.
      * by rewrite decide_False by set_solver.
  - exists b, r. rewrite Hs. split; [done|]. split; [done|]. split; [done|]. by destruct Hbo'.
Qed.

(** [_reorder_adj_nodes] moves the neighbours to the buckets of their degrees. *)
Lemma reorder_adj_nodes_ok s (P : nat → Prop) v :
  p_adj s !! v = Some (nb s v) → buckets_ok s P →
  (∀ n, n ∈ nb s v → P n ∧ p_adj s !! n = Some (nb s n) ∧ S (length (nb s n)) < length (p_buckets s)) →
  ∃ b d, reorder_adj_nodes v s = (Ret tt, with_degree d (with_buckets b s)) ∧
    length b = length (p_buckets s) ∧ buckets_ok (with_degree d (with_buckets b s)) P ∧
    ∀ n, d !! n = if decide (n ∈ nb s v) then Some (length (nb s n)) else p_degree s !! n.
Proof.
  intros Hv Hbo Hn. unfold reorder_adj_nodes, sbind at 1. rewrite (adj_of_Some _ _ _ Hv).
  match goal with |- context [sfor ?l ?body ?t] =>
    destruct (sfor_inv body (λ done t', ∃ b d, t' = with_degree d (with_buckets b s) ∧
      length b = length (p_buckets s) ∧ buckets_ok t' P ∧
      ∀ n, d !! n = if decide (n ∈ done) then Some (length (nb s n)) else p_degree s !! n) l t)
      as (s' & Hs & b & d & -> & Hlen & Hbo' & Hd) end.
  - exists (p_buckets s), (p_degree s). split; [by destruct s|]. split; [done|]. split; [done|].
    intros n. by rewrite decide_False by set_solver.
  - intros pre n rest t Hl (b & d & -> & Hlen & Hbo' & Hd).
    destruct (Hn n) as (HP & Hadj & Hlt); [rewrite Hl; set_solver|].
    set (t := with_degree d (with_buckets b s)).
    assert (∀ d' : gmap nat nat, (∀ m, d' !! m = if decide (m = n) then Some (length (nb s n)) else d !! m) →
      ∀ m, d' !! m = if decide (m ∈ pre ++ [n]) then Some (length (nb s m)) else p_degree s !! m) as Hd'.
    { intros d' Hd' m. rewrite Hd', Hd. destruct (decide (m = n)) as [->|Hmn].
      - by rewrite decide_True by set_solver.
      - destruct (decide (m ∈ pre)); [by rewrite decide_True by set_solver|].
        by rewrite decide_False by set_solver. }
    unfold get_degree, sbind, sget, sret, slift.
    rewrite (adj_of_Some t _ _ Hadj). destruct (bo_degree _ _ Hbo' n HP) as (dn & Hdn & _).
    rewrite (dget_Some (p_degree t) _ _ Hdn). destruct (Nat.eqb_spec dn (length (nb s n))) as [->|Hne].
    + eexists. split; [done|]. exists b, d. split; [done|]. split; [done|]. split; [done|]. apply Hd'.
      intros m. case_decide as Hm; [by subst|done].
    + destruct (bucket_remove_ok t P n dn Hbo' HP Hdn) as (b1 & Hb1 & Hlen1 & Hbo1). rewrite Hb1.
      destruct (bucket_insert_ok (with_buckets b1 t) P n (length (nb s n)) Hbo1 HP) as (b2 & Hb2 & Hlen2 & Hbo2).
      { simpl. rewrite Hlen1. simpl. by rewrite Hlen. }
      unfold sbind in Hb2. rewrite Hb2. eexists. split; [done|]. exists b2, (<[n := length (nb s n)]> d).
      split; [done|]. split; [by rewrite Hlen2; simpl; rewrite Hlen1|]. split; [done|]. apply Hd'.
      intros m. case_decide as Hm; [subst; by rewrite lookup_insert_eq|by rewrite lookup_insert_ne].
  - exists b, d. rewrite Hs. done.
Qed.

(** ** Cost matrices *)

Lemma entry_outside M r c i j : is_matrix M r c → ¬ (i < r ∧ j < c) → entry M i j = 0%Z.
Proof.
  intros [Hr Hc] Hij. unfold entry. destruct (M !! i) as [row|] eqn:Hi; [|done]. simpl.
  destruct (row !! j) as [x|] eqn:Hj; [|done]. destruct Hij.
  apply lookup_lt_Some in Hj. pose proof (Hc _ _ Hi). apply lookup_lt_Some in Hi. lia.
Qed.

Lemma matrix_lookup M r c i j : is_matrix M r c → i < r → j < c →
  ∃ row x, M !! i = Some row ∧ row !! j = Some x ∧ entry M i j = val x.
Proof.
  intros [Hr Hc] Hi Hj. destruct (lookup_lt_is_Some_2 M i) as [row Hrow]; [lia|].
  destruct (lookup_lt_is_Some_2 row j) as [x Hx]; [rewrite (Hc _ _ Hrow); lia|].
  exists row, x. unfold entry. rewrite Hrow. simpl. by rewrite Hx.
Qed.

Lemma ltf_add_ok s k id M r c i j q :
  p_ltf s !! k = Some id → p_heap s !! id = Some M → is_matrix M r c → i < r → j < c →
  ∃ M', ltf_add k i j q s = (Ret tt, with_heap (<[id := M']> (p_heap s)) s) ∧ is_matrix M' r c ∧
    ∀ a b, entry M' a b = (entry M a b + if decide (a = i ∧ b = j) then val q else 0)%Z.
Proof.
  intros Hid HM Hmat Hi Hj. destruct (matrix_lookup M r c i j Hmat Hi Hj) as (row & x & Hrow & Hx & _).
  exists (<[i := <[j := num_add x q]> row]> M).
  pose proof (lookup_lt_Some _ _ _ Hrow) as Hil. pose proof (lookup_lt_Some _ _ _ Hx) as Hjl.
  split; [|split].
  - unfold ltf_add, ltf_id, matrix_at, sbind, sget, slift, set_heap, smod.
    rewrite (dget_Some _ _ _ Hid), (dget_Some _ _ _ HM), (lnth_Some _ _ _ Hrow), (lnth_Some _ _ _ Hx).
    by rewrite !lset_in.
  - destruct Hmat as [Hr Hc]. split; [by rewrite length_insert|]. intros a row' Ha.
    apply list_lookup_insert_Some in Ha as [(<- & <- & _)|[_ Ha]]; [|by eapply Hc].
    rewrite length_insert. by eapply Hc.
  - intros a b. unfold entry. destruct (decide (a = i)) as [->|Ha].
    + rewrite list_lookup_insert_eq by done. rewrite Hrow. simpl.
      destruct (decide (b = j)) as [->|Hb].
      * rewrite list_lookup_insert_eq by done. rewrite Hx, decide_True by done. by rewrite val_add.
      * rewrite list_lookup_insert_ne by done. rewrite decide_False by tauto. lia.
    + rewrite list_lookup_insert_ne by done. rewrite decide_False by tauto. lia.
Qed.

(** Both directions of an edge after the entries with [P] of [delta] are added. *)
Definition reinforced (s : pbqp) (id1 id2 : nat) (M1 M2 delta : matrix) (r c : nat)
    (P : nat → nat → bool) (t : pbqp) : Prop :=
  ∃ h M1' M2', t = with_heap h s ∧ h !! id1 = Some M1' ∧ h !! id2 = Some M2' ∧
    (∀ id, id ≠ id1 → id ≠ id2 → h !! id = p_heap s !! id) ∧
    is_matrix M1' r c ∧ is_matrix M2' c r ∧
    ∀ a b, entry M1' a b = (entry M1 a b + if P a b then entry delta a b else 0)%Z ∧
           entry M2' b a = (entry M2 b a + if P a b then entry delta a b else 0)%Z.

Lemma reinforced_ext s id1 id2 M1 M2 delta r c P Q t :
  is_matrix delta r c → (∀ a b, a < r → b < c → P a b = Q a b) →
  reinforced s id1 id2 M1 M2 delta r c P t → reinforced s id1 id2 M1 M2 delta r c Q t.
Proof.
  intros Hd HPQ (h & M1' & M2' & Ht & H1 & H2 & Hh & Hm1 & Hm2 & He).
  exists h, M1', M2'. split_and!; try done. intros a b. destruct (He a b) as [-> ->].
  assert ((if P a b then entry delta a b else 0) = if Q a b then entry delta a b else 0)%Z as ->; [|done].
  destruct (decide (a < r ∧ b < c)) as [[Ha Hb]|Hn]; [by rewrite HPQ|].
  rewrite (entry_outside delta r c) by done. by destruct (P a b), (Q a b).
Qed.

Lemma reinforced_step s x y id1 id2 M1 M2 delta r c P i j row d t :
  id1 ≠ id2 → p_ltf s !! (x, y) = Some id1 → p_ltf s !! (y, x) = Some id2 →
  is_matrix delta r c → delta !! i = Some row → row !! j = Some d → P i j = false →
  reinforced s id1 id2 M1 M2 delta r c P t →
  ∃ t', (let! _ := ltf_add (x, y) i j d in ltf_add (y, x) j i d) t = (Ret tt, t') ∧
    reinforced s id1 id2 M1 M2 delta r c (λ a b, P a b || ((a =? i) && (b =? j))) t'.
Proof.
  intros Hne Hid1 Hid2 Hdelta Hrow Hd HP (h & M1' & M2' & -> & H1 & H2 & Hh & Hm1 & Hm2 & He).
  assert (i < r ∧ j < c) as [Hi Hj].
  { destruct Hdelta as [<- Hc]. rewrite <-(Hc _ _ Hrow). split; by eapply lookup_lt_Some. }
  assert (entry delta i j = val d) as Hval by (unfold entry; rewrite Hrow; simpl; by rewrite Hd).
  destruct (ltf_add_ok (with_heap h s) (x, y) id1 M1' r c i j d Hid1 H1 Hm1 Hi Hj) as (N1 & HN1 & HmN1 & HeN1).
  set (t1 := with_heap (<[id1 := N1]> h) s).
  destruct (ltf_add_ok t1 (y, x) id2 M2' c r j i d Hid2) as (N2 & HN2 & HmN2 & HeN2);
    [unfold t1; simpl; by rewrite lookup_insert_ne|done|done|done|].
  unfold sbind. rewrite HN1. change (with_heap (<[id1:=N1]> (p_heap (with_heap h s))) (with_heap h s)) with t1.
  rewrite HN2. eexists. split; [done|]. exists (<[id2 := N2]> (<[id1 := N1]> h)), N1, N2.
  split; [done|]. split; [by rewrite lookup_insert_ne, lookup_insert_eq by congruence|].
  split; [by rewrite lookup_insert_eq|].
  split; [intros id ??; rewrite !lookup_insert_ne by congruence; by apply Hh|].
  split; [done|]. split; [done|]. intros a b. destruct (He a b) as [He1 He2].
  rewrite HeN1, HeN2, He1, He2. destruct (decide (a = i ∧ b = j)) as [[-> ->]|Hn].
  - rewrite decide_True by done. rewrite HP, !Nat.eqb_refl. simpl. rewrite Hval. lia.
  - rewrite decide_False by tauto. assert ((a =? i) && (b =? j) = false) as ->.
    { apply andb_false_iff. rewrite !Nat.eqb_neq. lia. }
    rewrite orb_false_r. lia.
Qed.

Lemma reinforce_loop s x y id1 id2 M1 M2 delta r c :
  id1 ≠ id2 → p_ltf s !! (x, y) = Some id1 → p_ltf s !! (y, x) = Some id2 →
  p_heap s !! id1 = Some M1 → p_heap s !! id2 = Some M2 →
  is_matrix M1 r c → is_matrix M2 c r → is_matrix delta r c →
  ∃ t, sfor (enumerate delta) (λ '(i, delta_row), sfor (enumerate delta_row) (λ '(j, d),
         let! _ := ltf_add (x, y) i j d in ltf_add (y, x) j i d)) s = (Ret tt, t) ∧
    reinforced s id1 id2 M1 M2 delta r c (λ _ _, true) t.
Proof.
  intros Hne Hid1 Hid2 H1 H2 Hm1 Hm2 Hdelta.
  match goal with |- context [sfor _ ?body _] =>
    destruct (sfor_enumerate_inv body
      (λ k t, reinforced s id1 id2 M1 M2 delta r c (λ a _, a <? k) t) delta s) as (t & Ht & Hend) end.
  - exists (p_heap s), M1, M2. split; [by destruct s|]. split_and!; try done. intros a b.
    assert ((a <? 0) = false) as -> by done. lia.
  - intros i row t Hrow Ht.
    match goal with |- context [sfor _ ?body _] =>
      destruct (sfor_enumerate_inv body
        (λ k t, reinforced s id1 id2 M1 M2 delta r c (λ a b, (a <? i) || ((a =? i) && (b <? k))) t) row t)
        as (t' & Ht' & Hend) end.
    + eapply reinforced_ext; [done| |done]. intros a b _ _. by rewrite andb_false_r, orb_false_r.
    + intros j d t0 Hd Ht0. destruct (reinforced_step s x y id1 id2 M1 M2 delta r c
        (λ a b, (a <? i) || ((a =? i) && (b <? j))) i j row d t0) as (t' & Ht' & Hr); try done.
      { by rewrite !Nat.ltb_irrefl, andb_false_r. }
      exists t'. split; [done|]. eapply reinforced_ext; [done| |done]. intros a b _ _.
      bool_lia.
    + exists t'. split; [done|]. eapply reinforced_ext; [done| |done]. intros a b Ha Hb.
      assert (length row = c) as -> by (by eapply (proj2 Hdelta)).
      bool_lia.
  - exists t. split; [done|]. eapply reinforced_ext; [done| |done]. intros a b Ha _.
    apply Nat.ltb_lt. by rewrite (proj1 Hdelta).
Qed.
End State.
