(* ===== verification/PbqpReduce.v ===== *)
(** * The reductions of the PBQP tuner

    Taking out a node of degree 1 or 2 keeps the least cost of the graph; taking
    out a node of a higher degree fixes its record. *)

From S2P Require Import Prelude Pbqp PbqpEnergy PbqpState.

Section Reduce.
Context `{CostOps, !CostOk}.

Abbreviation matrix := (list (list num)).

Definition local (s : pbqp) (f : nat → nat) (v k : nat) : Z := local_cost (nb s) (cst s) (trn s) f v k.

(** ** Taking a node out *)

Lemma nb_without s t v n r :
  without v (p_adj s) (nb s v) r → p_adj t = r →
  nb t n = if decide (n ∈ nb s v) then remove1 v (nb s n) else nb s n.
Proof. intros Hr Ht. unfold nb. rewrite Ht, Hr. fold (nb s v) (nb s n). by case_decide. Qed.

Lemma graph_ok_remove s t A A' v :
  graph_ok s A → A ≡ₚ v :: A' →
  without v (p_adj s) (nb s v) (p_adj t) → p_rec t = p_rec s → p_heap t = p_heap s → p_ltf t = p_ltf s →
  graph_ok t A'.
Proof.
  intros Hgo HA Hadj Hrec Hheap Hltf.
  assert (∀ n, nb t n = if decide (n ∈ nb s v) then remove1 v (nb s n) else nb s n) as Hnb
    by (intros n; by eapply nb_without).
  pose proof (go_nodup _ _ Hgo) as Hnd. rewrite HA in Hnd. apply NoDup_cons in Hnd as [HvA' Hnd'].
  assert (∀ n, n ∈ A' → n ∈ A ∧ n ≠ v) as Hin.
  { intros n Hn. split; [rewrite HA; by right|]. by intros ->. }
  assert (v ∈ A) as Hv by (rewrite HA; left).
  assert (∀ n m, n ∈ A' → m ∈ nb t n ↔ m ∈ nb s n ∧ m ≠ v) as Hel.
  { intros n m Hn. destruct (Hin n Hn) as [HnA Hne]. rewrite Hnb. case_decide as Hd.
    - apply remove1_elem. by apply (go_simple _ _ Hgo).
    - split; [|tauto]. intros Hm. split; [done|]. intros ->. destruct (go_sym _ _ Hgo n v HnA Hm). done. }
  assert (∀ n, rcs t n = rcs s n) as Hrcs by (intros n; unfold rcs; by rewrite Hrec).
  assert (∀ n m, mat t n m = mat s n m) as Hmat by (intros n m; unfold mat; by rewrite Hltf, Hheap).
  split; [done|..].
  - intros n Hn. destruct (Hin n Hn) as [HnA _]. unfold nb. rewrite Hadj. case_decide; [done|].
    by rewrite (go_adj _ _ Hgo n HnA).
  - intros n Hn. destruct (Hin n Hn) as [HnA _]. destruct (go_simple _ _ Hgo n HnA) as [Hs Hself].
    rewrite Hel by done. split; [|tauto]. rewrite Hnb. case_decide; [by apply remove1_NoDup|done].
  - intros n m Hn [Hm Hmv]%Hel; [|done]. destruct (Hin n Hn) as [HnA Hne].
    destruct (go_sym _ _ Hgo n m HnA Hm) as [HmA Hnm].
    assert (m ∈ A') as HmA' by (rewrite HA in HmA; set_solver). split; [done|]. by apply Hel.
  - intros n Hn. rewrite Hrec, Hrcs. by apply (go_rec _ _ Hgo), Hin.
  - intros n i Hn. unfold cst. rewrite Hrcs. by apply (go_cost _ _ Hgo), Hin.
  - intros n m Hn [Hm _]%Hel; [|done]. rewrite Hmat, !Hrcs. by apply (go_mat _ _ Hgo); [apply Hin|].
  - intros n m i j Hn [Hm _]%Hel; [|done]. unfold trn. rewrite !Hmat. by apply (go_trn _ _ Hgo); [apply Hin|].
Qed.

Lemma ids_ok_sub s t D :
  ids_ok s D → (∀ n, n ∈ D → nb t n ⊆ nb s n) → p_heap t = p_heap s → p_ltf t = p_ltf s → ids_ok t D.
Proof.
  intros [Hhas Hinj] Hsub Hheap Hltf. split.
  - intros n m Hn Hm. unfold mat. rewrite Hltf, Hheap. apply Hhas; [done|]. by apply (Hsub n).
  - intros n m n' m' id Hn Hm Hn' Hm'. rewrite Hltf.
    apply Hinj; [done|by apply (Hsub n)|done|by apply (Hsub n')].
Qed.

(** The cost of a choice without a node. *)
Lemma total_remove s t A A' v f :
  graph_ok s A → A ≡ₚ v :: A' →
  without v (p_adj s) (nb s v) (p_adj t) → p_rec t = p_rec s → p_heap t = p_heap s → p_ltf t = p_ltf s →
  total s A f = (total t A' f + 2 * local s f v (f v))%Z.
Proof.
  intros Hgo HA Hadj Hrec Hheap Hltf. assert (v ∈ A) as Hv by (rewrite HA; left).
  destruct (go_simple _ _ Hgo v Hv) as [Hndv Hself].
  pose proof (go_nodup _ _ Hgo) as Hnd.
  assert (∀ n i, cst t n i = cst s n i) as Hc by (intros n i; unfold cst, rcs; by rewrite Hrec).
  assert (∀ n m i j, trn t n m i j = trn s n m i j) as Ht
    by (intros n m i j; unfold trn, mat; by rewrite Hltf, Hheap).
  unfold total, local. transitivity (energy (nb t) (cst s) (trn s) A' f + 2 * local_cost (nb s) (cst s) (trn s) f v (f v))%Z.
  - apply energy_remove; [done|done|done|..].
    + intros m Hm. destruct (go_sym _ _ Hgo v m Hv Hm) as [HmA _]. rewrite HA in HmA.
      apply elem_of_cons in HmA as [->|?]; [done|done].
    + intros n Hn. rewrite (nb_without s t v n (p_adj t)) by done. case_decide as Hd; [|done].
      apply remove1_perm. by apply (go_sym _ _ Hgo v n).
    + intros m Hm. symmetry. by apply (go_trn _ _ Hgo).
  - f_equal. apply zsum_ext. intros n Hn. unfold node_term, links. rewrite Hc. f_equal.
    by apply zsum_ext.
Qed.

Lemma total_nonneg s A f : graph_ok s A → (0 ≤ total s A f)%Z.
Proof.
  intros Hgo. apply energy_nonneg; [intros; by apply (go_cost _ _ Hgo)|].
  intros n m Hn Hm. by apply (go_trn _ _ Hgo).
Qed.

Lemma total_ext s A f g :
  graph_ok s A → (∀ n, n ∈ A → f n = g n) → total s A f = total s A g.
Proof.
  intros Hgo Hfg. apply energy_ext; [done|]. intros n m Hn Hm. by apply (go_sym _ _ Hgo n m).
Qed.

(** The end of every reduction: [_remove_node], [_reorder_adj_nodes] and the
    push on the stack. *)
Definition take_out (v : nat) : ST pbqp unit :=
  let! _ := remove_node v in let! _ := reorder_adj_nodes v in push_stack v.

Lemma take_out_ok s A A' D v :
  graph_ok s A → ids_ok s D → A ⊆ D → buckets_ok s (λ n, n ∈ A) → A ≡ₚ v :: A' →
  p_degree s !! v = Some (length (nb s v)) →
  2 ≤ length (p_buckets s) →
  (∀ n, n ∈ nb s v → length (nb s n) < length (p_buckets s)) →
  (∀ n, n ∈ A → n ∉ nb s v → p_degree s !! n = Some (length (nb s n))) →
  ∃ t, take_out v s = (Ret tt, t) ∧ wf t A' D ∧ without v (p_adj s) (nb s v) (p_adj t) ∧
    p_rec t = p_rec s ∧ p_heap t = p_heap s ∧ p_ltf t = p_ltf s ∧ p_opt t = p_opt s ∧
    p_is_optimal t = p_is_optimal s ∧ p_stack t = p_stack s ++ [v] ∧ p_max_degree t = p_max_degree s.
Proof.
  intros Hgo Hids Hsub Hbo HA Hdeg Hmax Hlen Hdegs. assert (v ∈ A) as Hv by (rewrite HA; left).
  destruct (go_simple _ _ Hgo v Hv) as [Hndv Hself].
  destruct (remove_node_ok s A v Hgo Hbo Hv Hdeg) as (b & r & Hrm & Hr & Hlb & Hbo1).
  set (s1 := with_adj r (with_buckets b s)) in *.
  assert (∀ n, nb s1 n = if decide (n ∈ nb s v) then remove1 v (nb s n) else nb s n) as Hnb
    by (intros n; by eapply nb_without).
  assert (nb s1 v = nb s v) as Hnbv by (by rewrite Hnb, decide_False).
  assert (graph_ok s1 A') as Hgo1 by (by eapply graph_ok_remove).
  pose proof (go_nodup _ _ Hgo) as HndA. rewrite HA in HndA. apply NoDup_cons in HndA as [HvA' _].
  assert (∀ n, n ∈ A ∧ n ≠ v ↔ n ∈ A') as HA'.
  { intros n. rewrite HA, elem_of_cons. split; [tauto|]. intros Hn. split; [by right|]. by intros ->. }
  assert (∀ n, n ∈ nb s v → n ∈ A') as HnbA.
  { intros n Hn. apply HA'. split; [by apply (go_sym _ _ Hgo v n)|]. by intros ->. }
  assert (∀ n, n ∈ nb s v → S (length (nb s1 n)) = length (nb s n)) as Hshort.
  { intros n Hn. rewrite Hnb, decide_True by done. apply length_remove1. by apply (go_sym _ _ Hgo v n). }
  destruct (reorder_adj_nodes_ok s1 (λ n, n ∈ A ∧ n ≠ v) v) as (b2 & d & Hro & Hlb2 & Hbo2 & Hd).
  - rewrite Hnbv. simpl. rewrite Hr, decide_False by done. by apply (go_adj _ _ Hgo).
  - done.
  - intros n. rewrite Hnbv. intros Hn. split; [by apply HA', HnbA|].
    split; [by apply (go_adj _ _ Hgo1), HnbA|]. pose proof (Hlen n Hn). pose proof (Hshort n Hn).
    simpl. rewrite Hlb. lia.
  - set (s2 := with_degree d (with_buckets b2 s1)) in *.
    exists (with_stack (p_stack s ++ [v]) s2). split_and!; try done.
    + unfold take_out, sbind. rewrite Hrm, Hro. done.
    + split.
      * by destruct Hgo1.
      * apply (ids_ok_sub s); [done| |done|done]. intros n Hn. change (nb (with_stack (p_stack s ++ [v]) s2) n) with (nb s1 n).
        rewrite Hnb. case_decide; [apply remove1_subseteq|done].
      * destruct Hbo2 as [H1 H2 H3 H4]. split; simpl in *; [done|..|done].
        -- intros n dn bn Hbn. rewrite (H2 n dn bn Hbn), HA'. done.
        -- intros n Hn. apply H3, HA', Hn.
      * intros n Hn. change (nb (with_stack (p_stack s ++ [v]) s2) n) with (nb s1 n). simpl. rewrite Hd, Hnbv.
        case_decide as Hnv; [done|]. rewrite Hnb, decide_False by done. simpl.
        apply Hdegs; [by apply HA'|done].
      * simpl. rewrite Hlb2. simpl. by rewrite Hlb.
Qed.

(** ** Reductions that keep the least cost *)

(** What a reduction of [v] leaves behind: the other nodes in a well-formed
    state, the removed nodes as they were, and [v] on the stack. *)
Record reduced (s : pbqp) (A D : list nat) (v : nat) (t : pbqp) (A' : list nat) : Prop := {
  red_perm : A ≡ₚ v :: A';
  red_wf : wf t A' D;
  red_length n : length (rcs t n) = length (rcs s n);
  red_frame w : w ∈ D → w ∉ A' →
    p_adj t !! w = p_adj s !! w ∧ p_rec t !! w = p_rec s !! w ∧
    ∀ m, m ∈ nb s w → p_ltf t !! (w, m) = p_ltf s !! (w, m) ∧ mat t w m = mat s w m;
  red_stack : p_stack t = p_stack s ++ [v];
  red_max : p_max_degree t = p_max_degree s
}.

(** The least cost of completing a choice of the neighbours of [v]. *)
Definition completion (s : pbqp) (v : nat) (f : nat → nat) : Z :=
  zmin INV (local s f v <$> seq 0 (length (rcs s v))).

Record exact_reduction (s : pbqp) (A D : list nat) (v : nat) (t : pbqp) (A' : list nat) : Prop := {
  er_reduced : reduced s A D v t A';
  er_opt : p_opt t = p_opt s;
  er_optimal : p_is_optimal t = p_is_optimal s;
  er_total f : valid s A f →
    total t A' f = (total s A f - 2 * local s f v (f v) + 2 * completion s v f)%Z
}.

Lemma rest_nonneg s A v f :
  graph_ok s A → v ∈ A → (0 ≤ total s A f - 2 * local s f v (f v))%Z.
Proof.
  intros Hgo Hv. destruct (list_elem_of_split _ _ Hv) as (l1 & l2 & HA).
  assert (A ≡ₚ v :: (l1 ++ l2)) as HA' by (rewrite HA; by rewrite Permutation_middle).
  set (r := map_imap (λ n l, Some (if decide (n ∈ nb s v) then remove1 v l else l)) (p_adj s)).
  assert (without v (p_adj s) (nb s v) r) as Hr.
  { intros n. unfold r. rewrite map_lookup_imap. case_decide as Hn.
    - destruct (go_sym _ _ Hgo v n Hv Hn) as [HnA _]. by rewrite (go_adj _ _ Hgo n HnA).
    - by destruct (p_adj s !! n). }
  rewrite (total_remove s (with_adj r s) A (l1 ++ l2) v f) by done.
  pose proof (total_nonneg (with_adj r s) (l1 ++ l2) f) as Hpos. rewrite Z.add_simpl_r.
  apply Hpos. by eapply (graph_ok_remove s).
Qed.

Lemma er_lower s A D v t A' f :
  graph_ok s A → exact_reduction s A D v t A' → valid s A f → (total t A' f ≤ total s A f)%Z.
Proof.
  intros Hgo Her Hf. rewrite (er_total _ _ _ _ _ _ Her f Hf).
  assert (v ∈ A) as Hv by (rewrite (red_perm _ _ _ _ _ _ (er_reduced _ _ _ _ _ _ Her)); left).
  apply (reduction_lower _ _ INV (local s f v) (length (rcs s v)) (f v)); [by apply Hf|lia].
Qed.

(** The choice [f] with [k] at [v]. *)
Definition choose (f : nat → nat) (v k : nat) : nat → nat := λ n, if decide (n = v) then k else f n.

Lemma local_choose s A f v k j :
  graph_ok s A → v ∈ A → local s (choose f v k) v j = local s f v j.
Proof.
  intros Hgo Hv. unfold local, local_cost. f_equal. apply zsum_ext. intros m Hm.
  unfold choose. rewrite decide_False; [done|]. intros ->. by apply (go_simple _ _ Hgo v Hv).
Qed.

(** The best record of [v] completes a choice below the bound at its cost. *)
Lemma er_complete s A D v t A' f k :
  graph_ok s A → exact_reduction s A D v t A' → valid t A' f → (total t A' f < 2 * INV)%Z →
  k < length (rcs s v) → (∀ j, j < length (rcs s v) → (local s f v k ≤ local s f v j)%Z) →
  total s A (choose f v k) = total t A' f.
Proof.
  intros Hgo Her Hf Hlt Hk Hmin. pose proof (er_reduced _ _ _ _ _ _ Her) as Hred.
  pose proof (red_perm _ _ _ _ _ _ Hred) as HA. pose proof (wf_graph _ _ _ (red_wf _ _ _ _ _ _ Hred)) as Hgo'.
  assert (v ∈ A) as Hv by (rewrite HA; left).
  pose proof (go_nodup _ _ Hgo) as HndA. rewrite HA in HndA. apply NoDup_cons in HndA as [HvA' _].
  set (g := choose f v k).
  assert (valid s A g) as Hg.
  { intros n Hn. unfold g, choose. case_decide as Hnv; [by subst|].
    rewrite <-(red_length _ _ _ _ _ _ Hred). apply Hf. rewrite HA in Hn. set_solver. }
  assert (total t A' f = total t A' g) as Heq.
  { apply total_ext; [done|]. intros n Hn. unfold g, choose. rewrite decide_False; [done|]. by intros ->. }
  assert (g v = k) as Hgv by (unfold g, choose; by rewrite decide_True).
  pose proof (er_total _ _ _ _ _ _ Her g Hg) as Htot. rewrite Hgv in Htot. unfold completion in Htot.
  pose proof (rest_nonneg s A v g Hgo Hv) as Hrest. rewrite Hgv in Hrest.
  rewrite Heq in Hlt |- *. rewrite Htot in Hlt |- *.
  rewrite <-(reduction_complete _ INV (local s g v) (length (rcs s v)) k); [lia|done|done|done|].
  intros j Hj. unfold g. rewrite !(local_choose s A) by done. by apply Hmin.
Qed.

(** ** Least costs *)

Lemma val_min a b : val (num_min a b) = Z.min (val a) (val b).
Proof. unfold num_min. rewrite val_ltb. case_bool_decide; lia. Qed.

Lemma min_cost_over_val {A} (cost : A → py num) (g : nat → Z) (l : list A) :
  (∀ i x, l !! i = Some x → ∃ c, cost x = Ret c ∧ val c = g i) →
  ∃ c, min_cost_over cost l = Ret c ∧ val c = zmin INV (g <$> seq 0 (length l)).
Proof.
  unfold min_cost_over. rewrite <-foldl_zmin. unfold INV. generalize INVALID_LAYOUT_TIME.
  revert g. induction l as [|x l IH]; intros g b Hg; simpl; [by exists b|].
  destruct (Hg 0 x eq_refl) as (c & -> & Hc). cbn [pbind].
  destruct (IH (λ i, g (S i)) (num_min b c)) as (c' & Hc' & Hv); [intros i y Hy; by apply (Hg (S i))|].
  exists c'. split; [done|]. rewrite Hv, val_min, Hc. f_equal.
  rewrite <-(fmap_S_seq 0), <-list_fmap_compose. done.
Qed.

(** ** Degree 1 *)

(** Costs are added to the records of one node. *)
Lemma bump_ok s A a r l' d :
  graph_ok s A → a ∈ A → (∀ n, n ≠ a → r !! n = p_rec s !! n) → r !! a = Some l' →
  bumped (rcs s a) l' d (length (rcs s a)) → (∀ i, (0 ≤ d i)%Z) →
  let t := with_rec r s in
  graph_ok t A ∧ (∀ n, length (rcs t n) = length (rcs s n)) ∧
  (∀ n i, n ≠ a → cst t n i = cst s n i) ∧
  (∀ i, i < length (rcs s a) → cst t a i = (cst s a i + d i)%Z).
Proof.
  intros Hgo Ha Hr Hra [Hlen Hb] Hd t.
  assert (∀ n, n ≠ a → rcs t n = rcs s n) as Hrcs by (intros n Hn; unfold rcs; simpl; by rewrite Hr).
  assert (rcs t a = l') as Hrcsa by (unfold rcs; simpl; by rewrite Hra).
  assert (∀ n, length (rcs t n) = length (rcs s n)) as Hlens.
  { intros n. destruct (decide (n = a)) as [->|Hn]; [by rewrite Hrcsa|by rewrite Hrcs]. }
  assert (∀ n i, n ≠ a → cst t n i = cst s n i) as Hcst by (intros n i Hn; unfold cst; by rewrite Hrcs).
  assert (∀ i, i < length (rcs s a) → cst t a i = (cst s a i + d i)%Z) as Hcsta.
  { intros i Hi. unfold cst. rewrite Hrcsa. destruct (lookup_lt_is_Some_2 _ _ Hi) as [x Hx].
    destruct (Hb i x Hx) as (x' & -> & ->). rewrite Hx. by rewrite decide_True. }
  split; [|done]. destruct Hgo as [H1 H2 H3 H4 H5 H6 H7 H8].
  split; [done|done|done|done|..].
  - intros n Hn. destruct (H5 n Hn) as [Hrec Hne]. destruct (decide (n = a)) as [->|Hna].
    + simpl. rewrite Hrcsa, Hra. split; [done|]. intros ->. by destruct (rcs s a).
    + rewrite Hrcs by done. simpl. by rewrite Hr.
  - intros n i Hn. destruct (decide (n = a)) as [->|Hna]; [|rewrite Hcst by done; by apply H6].
    destruct (decide (i < length (rcs s a))) as [Hi|Hi].
    + rewrite Hcsta by done. pose proof (H6 a i Ha). pose proof (Hd i). lia.
    + unfold cst. rewrite (lookup_ge_None_2 (rcs t a)); [done|]. rewrite Hlens. lia.
  - intros n m Hn Hm. rewrite !Hlens. by apply H7.
  - done.
Qed.

(** The fields that the change of costs before [_remove_node] leaves alone. *)
Definition same_queue (s t : pbqp) : Prop :=
  p_degree t = p_degree s ∧ p_buckets t = p_buckets s ∧ p_max_degree t = p_max_degree s ∧
  p_stack t = p_stack s.

Definition same_plan (s t : pbqp) : Prop :=
  same_queue s t ∧ p_opt t = p_opt s ∧ p_is_optimal t = p_is_optimal s.

(** The nodes outside of [P] are as they were. *)
Definition same_outside (s t : pbqp) (P : nat → Prop) : Prop :=
  ∀ w, ¬ P w → p_adj t !! w = p_adj s !! w ∧ p_rec t !! w = p_rec s !! w ∧
    ∀ m, m ∈ nb s w → p_ltf t !! (w, m) = p_ltf s !! (w, m) ∧ mat t w m = mat s w m.

(** After a change of the costs of the neighbours the node can be taken out. *)
Lemma finish_reduced s t A D v :
  wf s A D → A ⊆ D → v ∈ A → graph_ok t A → ids_ok t D → same_queue s t →
  nb t v = nb s v → v ∉ nb s v → same_outside s t (λ w, w ∈ nb s v ∨ w ∉ D) →
  (∀ n, length (rcs t n) = length (rcs s n)) →
  (∀ n, length (nb s n) ≤ length (nb t n) ≤ S (length (nb s n))) →
  (∀ n, n ∉ nb s v → nb t n = nb s n) →
  ∃ u A', take_out v t = (Ret tt, u) ∧ reduced s A D v u A' ∧
    p_opt u = p_opt t ∧ p_is_optimal u = p_is_optimal t ∧
    ∀ f, total t A f = (total u A' f + 2 * local t f v (f v))%Z.
Proof.
  intros [Hgo Hids Hbo Hdeg Hmax] Hsub Hv Hgot Hidst (Pdeg & Pbuckets & Pmax & Pstack)
    Hnbv Hself Hout Hlens Hnblen Hnbn.
  destruct (list_elem_of_split _ _ Hv) as (l1 & l2 & HA).
  assert (A ≡ₚ v :: (l1 ++ l2)) as HA' by (rewrite HA; by rewrite Permutation_middle).
  pose proof (go_nodup _ _ Hgo) as HndA. rewrite HA' in HndA. apply NoDup_cons in HndA as [HvA' _].
  destruct (take_out_ok t A (l1 ++ l2) D v) as (u & Hu & Hwf & Hwo & Hur & Huh & Hul & Huo & Hui & Hus & Hum); try done.
  { destruct Hbo as [H1 H2 H3 H4]. split; rewrite ?Pbuckets, ?Pmax, ?Pdeg; done. }
  { rewrite Pdeg, Hnbv. by apply Hdeg. }
  { by rewrite Pbuckets. }
  { intros n. rewrite Hnbv, Pbuckets. intros Hn. destruct (go_sym _ _ Hgo v n Hv Hn) as [HnA _].
    destruct (bo_degree _ _ Hbo n HnA) as (dn & Hdn & Hlt). rewrite (Hdeg n HnA) in Hdn. injection Hdn as <-.
    pose proof (Hnblen n). lia. }
  { intros n HnA. rewrite Hnbv, Pdeg. intros Hn. rewrite Hnbn by done. by apply Hdeg. }
  exists u, (l1 ++ l2). split; [exact Hu|]. split; [split|split_and!]; try congruence; try done.
  - intros n. unfold rcs at 1. rewrite Hur. apply Hlens.
  - rewrite Hnbv in Hwo. intros w HwD HwA'. assert (w ∉ nb s v) as Hwn.
    { intros Hw. destruct (go_sym _ _ Hgo v w Hv Hw) as [HwA _]. rewrite HA' in HwA.
      apply elem_of_cons in HwA as [->|?]; done. }
    destruct (Hout w) as (Hadj & Hrec & Hm); [tauto|]. split_and!.
    + by rewrite Hwo, decide_False.
    + by rewrite Hur.
    + intros m Hmw. unfold mat. rewrite Hul, Huh. by apply Hm.
  - intros f. by apply total_remove.
Qed.

(** When the cost of completing a choice has been moved to the neighbours, taking
    the node out is exact. *)
Lemma finish_reduction s t A D v :
  wf s A D → A ⊆ D → v ∈ A → graph_ok t A → ids_ok t D → same_plan s t →
  nb t v = nb s v → v ∉ nb s v → same_outside s t (λ w, w ∈ nb s v ∨ w ∉ D) →
  (∀ n, length (rcs t n) = length (rcs s n)) →
  (∀ n, length (nb s n) ≤ length (nb t n) ≤ S (length (nb s n))) →
  (∀ n, n ∉ nb s v → nb t n = nb s n) →
  (∀ f, valid s A f → total t A f = total s A f + 2 * completion s v f)%Z →
  (∀ f k, local t f v k = local s f v k) →
  ∃ u A', take_out v t = (Ret tt, u) ∧ exact_reduction s A D v u A'.
Proof.
  intros Hwf Hsub Hv Hgot Hidst (Hq & Popt & Pflag) Hnbv Hself Hout Hlens Hnblen Hnbn Htot Hloc.
  destruct (finish_reduced s t A D v) as (u & A' & Hu & Hred & Huo & Hui & Hrest); try done.
  exists u, A'. split; [done|]. split; [done|congruence|congruence|].
  intros f Hf. specialize (Hrest f). rewrite Htot, Hloc in Hrest by done. lia.
Qed.

Lemma local_one s v a f k :
  nb s v = [a] → local s f v k = (cst s v k + trn s v a k (f a))%Z.
Proof. intros Hv. unfold local, local_cost. rewrite Hv. csimpl. lia. Qed.

(** What a node of degree 1 costs for record [i] of its neighbour. *)
Definition RI_cost (s : pbqp) (v a i : nat) : Z :=
  zmin INV ((λ j, cst s v j + trn s v a j i)%Z <$> seq 0 (length (rcs s v))).

(** The loop of [_RI_reduction] for one record of the neighbour. *)
Lemma RI_row_ok s A v a i cost_vec :
  graph_ok s A → v ∈ A → a ∈ nb s v → mat s a v !! i = Some cost_vec →
  ∃ c, min_cost_over (λ '(j, cost), let? c := lnth (rcs s v) j in Ret (num_add cost c))
         (enumerate cost_vec) = Ret c ∧ val c = RI_cost s v a i.
Proof.
  intros Hgo Hv Hav Hrow. destruct (go_sym _ _ Hgo v a Hv Hav) as [Ha Hva].
  pose proof (go_mat _ _ Hgo a v Ha Hva) as [_ Hcols]. specialize (Hcols _ _ Hrow).
  destruct (min_cost_over_val (λ '(j, cost), let? c := lnth (rcs s v) j in Ret (num_add cost c))
    (λ j, cst s v j + trn s v a j i)%Z (enumerate cost_vec)) as (c & Hc & Hval).
  - intros j jx. rewrite lookup_enumerate. destruct (cost_vec !! j) as [x|] eqn:Hx; [|done].
    intros [= <-]. destruct (lookup_lt_is_Some_2 (rcs s v) j) as [y Hy].
    { rewrite <-Hcols. by eapply lookup_lt_Some. }
    rewrite (lnth_Some _ _ _ Hy). eexists. split; [done|].
    rewrite val_add. unfold cst. rewrite Hy. rewrite (proj2 (go_trn _ _ Hgo v a j i Hv Hav)).
    unfold trn, entry. rewrite Hrow. simpl. rewrite Hx. lia.
  - exists c. split; [done|]. rewrite Hval. unfold RI_cost, enumerate. by rewrite length_imap, Hcols.
Qed.

Lemma RI_cost_nonneg s A v a i : graph_ok s A → v ∈ A → a ∈ nb s v → (0 ≤ RI_cost s v a i)%Z.
Proof.
  intros Hgo Hv Hav. apply zmin_nonneg; [pose proof val_invalid; unfold INV; lia|].
  intros x (j & -> & _)%list_elem_of_fmap. pose proof (go_cost _ _ Hgo v j Hv).
  pose proof (proj1 (go_trn _ _ Hgo v a j i Hv Hav)). lia.
Qed.

Lemma RI_reduction_ok s A D v a :
  wf s A D → A ⊆ D → v ∈ A → nb s v = [a] →
  ∃ t A', RI_reduction v s = (Ret tt, t) ∧ exact_reduction s A D v t A'.
Proof.
  intros Hwf Hsub Hv Hnb. pose proof (wf_graph _ _ _ Hwf) as Hgo. pose proof (wf_ids _ _ _ Hwf) as Hids.
  destruct (go_simple _ _ Hgo v Hv) as [_ Hself].
  assert (a ∈ nb s v) as Hav by (rewrite Hnb; left).
  destruct (go_sym _ _ Hgo v a Hv Hav) as [Ha Hva].
  assert (a ≠ v) as Hne by (intros ->; done).
  destruct (io_has _ _ Hids a v (Hsub a Ha) Hva) as (id & Hid & Hheap).
  destruct (go_rec _ _ Hgo a Ha) as [Hra _]. destruct (go_rec _ _ Hgo v Hv) as [Hrv _].
  unfold RI_reduction, sbind at 1. rewrite (adj_of_Some s v _ (go_adj _ _ Hgo v Hv)), Hnb.
  unfold sbind at 1, slift at 1, lnth at 1. simpl (_ !! 0). cbv iota.
  unfold sbind at 1. rewrite (ltf_of_Some _ _ _ _ Hid Hheap). unfold sbind at 1.
  match goal with |- context [sfor (enumerate _) ?body s] =>
    destruct (rec_add_loop a (mat s a v) body (RI_cost s v a) s (rcs s a)) as (r & l' & Hloop & Hr & Hra' & Hb) end;
    [done|by apply (go_mat _ _ Hgo)| |].
  { intros i cost_vec r Hrow Hr. unfold sbind, slift.
    rewrite (rec_of_Some (with_rec r s) v (rcs s v)) by (simpl; by rewrite Hr).
    destruct (RI_row_ok s A v a i cost_vec) as (c & -> & Hc); [done..|]. by exists c. }
  rewrite Hloop. set (t := with_rec r s).
  destruct (bump_ok s A a r l' (RI_cost s v a) Hgo Ha Hr Hra' Hb) as (Hgot & Hlens & Hcst & Hcsta);
    [intros i; by eapply RI_cost_nonneg|]. fold t in Hgot, Hlens, Hcst, Hcsta.
  apply finish_reduction; try done.
  - by destruct Hids.
  - intros w Hw. split; [done|]. split; [|done]. apply Hr. intros ->. tauto.
  - intros n. change (nb t n) with (nb s n). lia.
  - intros f Hf. unfold total. apply (energy_cost _ _ _ _ _ _ a); [by apply (go_nodup _ _ Hgo)|done| |].
    + intros n Hn Hna. by apply Hcst.
    + rewrite Hcsta by (by apply Hf). f_equal. unfold RI_cost, completion. f_equal.
      apply list_fmap_ext. intros i j _. symmetry. by apply local_one.
  - intros f k. unfold local, local_cost. by rewrite Hcst.
Qed.

(** ** Degree 2 *)

Lemma pymap_inv {A B} (f : A → py B) (P : nat → B → Prop) (l : list A) :
  (∀ i x, l !! i = Some x → ∃ y, f x = Ret y ∧ P i y) →
  ∃ ys, pymap f l = Ret ys ∧ length ys = length l ∧ ∀ i y, ys !! i = Some y → P i y.
Proof.
  revert P. induction l as [|x l IH]; intros P Hf; simpl; [by exists []|].
  destruct (Hf 0 x eq_refl) as (y & -> & Hy). cbn [pbind].
  destruct (IH (λ i, P (S i))) as (ys & -> & Hlen & Hys); [intros i z Hz; by apply (Hf (S i))|].
  exists (y :: ys). split; [done|]. split; [by simpl; rewrite Hlen|].
  intros [|i] z; simpl; [by intros [= <-]|]. apply Hys.
Qed.

(** What a node of degree 2 costs for records [i] and [j] of its neighbours. *)
Definition RII_cost (s : pbqp) (v x y i j : nat) : Z :=
  zmin INV ((λ k, cst s v k + (trn s v x k i + trn s v y k j))%Z <$> seq 0 (length (rcs s v))).

Lemma RII_cost_nonneg s A v x y i j :
  graph_ok s A → v ∈ A → x ∈ nb s v → y ∈ nb s v → (0 ≤ RII_cost s v x y i j)%Z.
Proof.
  intros Hgo Hv Hx Hy. apply zmin_nonneg; [pose proof val_invalid; unfold INV; lia|].
  intros z (k & -> & _)%list_elem_of_fmap. pose proof (go_cost _ _ Hgo v k Hv).
  pose proof (proj1 (go_trn _ _ Hgo v x k i Hv Hx)). pose proof (proj1 (go_trn _ _ Hgo v y k j Hv Hy)). lia.
Qed.

Lemma delta_matrix_ok s A v x y :
  graph_ok s A → v ∈ A → x ∈ nb s v → y ∈ nb s v →
  ∃ delta, delta_matrix (mat s x v) (mat s y v) (rcs s v) = Ret delta ∧
    is_matrix delta (length (rcs s x)) (length (rcs s y)) ∧
    ∀ i j, i < length (rcs s x) → j < length (rcs s y) → entry delta i j = RII_cost s v x y i j.
Proof.
  intros Hgo Hv Hx Hy. destruct (go_sym _ _ Hgo v x Hv Hx) as [HxA Hvx].
  destruct (go_sym _ _ Hgo v y Hv Hy) as [HyA Hvy].
  pose proof (go_mat _ _ Hgo x v HxA Hvx) as Hmx. pose proof (go_mat _ _ Hgo y v HyA Hvy) as Hmy.
  unfold delta_matrix.
  match goal with |- context [pymap ?f (mat s x v)] =>
    destruct (pymap_inv f (λ i row, length row = length (rcs s y) ∧
      ∀ j c, row !! j = Some c → val c = RII_cost s v x y i j) (mat s x v)) as (delta & Hd & Hlen & Hrows) end.
  - intros i cvx Hcvx.
    match goal with |- context [pymap ?g (mat s y v)] =>
      destruct (pymap_inv g (λ j c, val c = RII_cost s v x y i j) (mat s y v)) as (row & Hrow & Hl & Hcs) end.
    + intros j cvy Hcvy.
      match goal with |- context [min_cost_over ?h _] =>
        destruct (min_cost_over_val h (λ k, cst s v k + (trn s v x k i + trn s v y k j))%Z
          (seq 0 (length (rcs s v)))) as (c & Hc & Hval) end.
      * intros k k' Hk. apply lookup_seq in Hk as [-> Hk]. simpl.
        destruct (matrix_lookup _ _ _ i k Hmx) as (rx & ex & Hrx & Hex & Hvx'); [|done|].
        { destruct Hmx as [<- _]. by eapply lookup_lt_Some. }
        destruct (matrix_lookup _ _ _ j k Hmy) as (ry & ey & Hry & Hey & Hvy'); [|done|].
        { destruct Hmy as [<- _]. by eapply lookup_lt_Some. }
        simplify_eq. destruct (lookup_lt_is_Some_2 _ _ Hk) as [z Hz].
        rewrite (lnth_Some _ _ _ Hex), (lnth_Some _ _ _ Hey), (lnth_Some _ _ _ Hz). eexists. split; [done|].
        rewrite !val_add. unfold cst. rewrite Hz.
        rewrite (proj2 (go_trn _ _ Hgo v x k i Hv Hx)), (proj2 (go_trn _ _ Hgo v y k j Hv Hy)).
        unfold trn. lia.
      * exists c. split; [done|]. rewrite Hval, length_seq. done.
    + exists row. split; [done|]. split; [by rewrite Hl; apply Hmy|done].
  - exists delta. split; [done|]. split.
    + split; [by rewrite Hlen; apply Hmx|]. intros i row Hrow. by apply (Hrows i).
    + intros i j Hi Hj. unfold entry. destruct (lookup_lt_is_Some_2 delta i) as [row Hrow].
      { rewrite Hlen. by rewrite (proj1 Hmx). }
      rewrite Hrow. simpl. destruct (Hrows i row Hrow) as [Hl Hv'].
      destruct (lookup_lt_is_Some_2 row j) as [c Hc]; [by rewrite Hl|]. rewrite Hc. by apply Hv'.
Qed.

Lemma local_two s v x y f k :
  nb s v = [x; y] → local s f v k = (cst s v k + (trn s v x k (f x) + trn s v y k (f y)))%Z.
Proof. intros Hv. unfold local, local_cost. rewrite Hv. csimpl. lia. Qed.

(** An edge gets the cost of the node on top of its own. *)
Lemma reinforced_graph s A D x y id1 id2 delta t :
  graph_ok s A → ids_ok s D → A ⊆ D → x ∈ A → y ∈ nb s x → x ≠ y →
  p_ltf s !! (x, y) = Some id1 → p_ltf s !! (y, x) = Some id2 →
  (∀ i j, (0 ≤ entry delta i j)%Z) →
  reinforced s id1 id2 (mat s x y) (mat s y x) delta (length (rcs s x)) (length (rcs s y)) (λ _ _, true) t →
  graph_ok t A ∧ ids_ok t D ∧ same_plan s t ∧ same_outside s t (λ w, w = x ∨ w = y ∨ w ∉ D) ∧
  p_adj t = p_adj s ∧ p_rec t = p_rec s ∧
  (∀ n m, n ∈ D → m ∈ nb s n → (n, m) ≠ (x, y) → (n, m) ≠ (y, x) → mat t n m = mat s n m) ∧
  (∀ i j, trn t x y i j = (trn s x y i j + entry delta i j)%Z ∧
          trn t y x j i = (trn s y x j i + entry delta i j)%Z).
Proof.
  intros Hgo Hids Hsub Hx Hxy Hne Hid1 Hid2 Hpos (h & M1 & M2 & -> & H1 & H2 & Hh & Hm1 & Hm2 & He).
  destruct (go_sym _ _ Hgo x y Hx Hxy) as [Hy Hyx]. set (t := with_heap h s).
  assert (mat t x y = M1) as Htxy by (unfold mat; simpl; rewrite Hid1; simpl; by rewrite H1).
  assert (mat t y x = M2) as Htyx by (unfold mat; simpl; rewrite Hid2; simpl; by rewrite H2).
  assert (∀ n m, n ∈ D → m ∈ nb s n → (n, m) ≠ (x, y) → (n, m) ≠ (y, x) → mat t n m = mat s n m) as Hmat.
  { intros n m Hn Hm H3 H4. destruct (io_has _ _ Hids n m Hn Hm) as (id & Hid & _).
    unfold mat. simpl. rewrite Hid. simpl. rewrite Hh; [done|..].
    - intros ->. apply H3. destruct (io_inj _ _ Hids n m x y id1) as [-> ->]; auto.
    - intros ->. apply H4. destruct (io_inj _ _ Hids n m y x id2) as [-> ->]; auto. }
  assert (∀ i j, trn t x y i j = (trn s x y i j + entry delta i j)%Z ∧
    trn t y x j i = (trn s y x j i + entry delta i j)%Z) as Htrn.
  { intros i j. unfold trn. rewrite Htxy, Htyx. destruct (He i j) as [-> ->]. done. }
  split_and!; try done.
  - destruct Hgo as [G1 G2 G3 G4 G5 G6 G7 G8]. split; try done.
    + intros n m Hn Hm. destruct (decide ((n, m) = (x, y))) as [[= -> ->]|H3]; [by rewrite Htxy|].
      destruct (decide ((n, m) = (y, x))) as [[= -> ->]|H4]; [by rewrite Htyx|].
      rewrite Hmat by (done || by apply Hsub). by apply G7.
    + intros n m i j Hn Hm. change (m ∈ nb s n) in Hm. destruct (G4 n m Hn Hm) as [HmA Hnm].
      destruct (decide ((n, m) = (x, y))) as [[= -> ->]|H3].
      { destruct (Htrn i j) as [-> ->]. destruct (G8 x y i j Hx Hxy). pose proof (Hpos i j). lia. }
      destruct (decide ((n, m) = (y, x))) as [[= -> ->]|H4].
      { destruct (Htrn j i) as [-> ->]. pose proof (Hpos j i).
        destruct (G8 y x i j Hy Hyx). lia. }
      unfold trn. rewrite !Hmat by (auto; congruence). by apply G8.
  - destruct Hids as [I1 I2]. split; [|done]. intros n m Hn Hm. destruct (I1 n m Hn Hm) as (id & Hid & _).
    exists id. split; [done|]. destruct (decide (id = id1)) as [->|Hd1].
    { destruct (I2 n m x y id1) as [-> ->]; auto. by rewrite Htxy. }
    destruct (decide (id = id2)) as [->|Hd2].
    { destruct (I2 n m y x id2) as [-> ->]; auto. by rewrite Htyx. }
    simpl. rewrite Hh by done. destruct (I1 n m Hn Hm) as (id' & Hid' & Hheap). simplify_eq.
    rewrite Hheap. f_equal. symmetry. apply Hmat; [done|done|..]; intros [= -> ->]; congruence.
  - intros w Hw. split; [done|]. split; [done|]. intros m Hm. split; [done|].
    assert (w ∈ D) by (destruct (decide (w ∈ D)); tauto).
    apply Hmat; [done|done|..]; intros [= -> ->]; tauto.
Qed.

Lemma transpose_ok M r c :
  is_matrix M r c → 0 < r →
  ∃ T, transpose M = Ret T ∧ is_matrix T c r ∧ ∀ i j, entry T j i = entry M i j.
Proof.
  intros HM Hr. destruct (lookup_lt_is_Some_2 M 0) as [row0 Hrow0]; [by rewrite (proj1 HM)|].
  unfold transpose. rewrite (lnth_Some _ _ _ Hrow0). cbn [pbind]. rewrite (proj2 HM _ _ Hrow0).
  match goal with |- context [pymap ?f (seq 0 c)] =>
    destruct (pymap_inv f (λ j col, length col = r ∧
      ∀ i x, col !! i = Some x → entry M i j = val x) (seq 0 c)) as (T & HT & Hlen & Hcols) end.
  - intros j j' Hj. apply lookup_seq in Hj as [-> Hj]. simpl.
    match goal with |- context [pymap ?g M] =>
      destruct (pymap_inv g (λ i x, entry M i j = val x) M) as (col & Hcol & Hl & Hx) end.
    + intros i row Hrow. destruct (matrix_lookup M r c i j HM) as (row' & x & Hrow' & Hx & He);
        [rewrite <-(proj1 HM); by eapply lookup_lt_Some|done|].
      simplify_eq. exists x. by rewrite (lnth_Some _ _ _ Hx).
    + exists col. split; [done|]. split; [by rewrite Hl, (proj1 HM)|done].
  - exists T. split; [done|]. rewrite length_seq in Hlen.
    assert (is_matrix T c r) as HmT.
    { split; [done|]. intros j col Hcol. by apply (Hcols j). }
    split; [done|]. intros i j. destruct (decide (i < r ∧ j < c)) as [[Hi Hj]|Hn].
    + destruct (matrix_lookup T c r j i HmT Hj Hi) as (col & x & Hcol & Hx & ->).
      symmetry. by apply (Hcols j col Hcol).
    + rewrite (entry_outside T c r) by (done || tauto). by rewrite (entry_outside M r c).
Qed.

(** The state after [_insert_edge]. *)
Definition edge_inserted (s : pbqp) (x y i1 i2 : nat) (M T : matrix) : pbqp :=
  with_adj (<[y := nb s y ++ [x]]> (<[x := nb s x ++ [y]]> (p_adj s)))
    (with_ltf (<[(y, x) := i2]> (<[(x, y) := i1]> (p_ltf s)))
      (with_heap (<[i2 := T]> (<[i1 := M]> (p_heap s))) s)).

Lemma insert_edge_returns s x y M T :
  p_adj s !! x = Some (nb s x) → p_adj s !! y = Some (nb s y) → x ≠ y → transpose M = Ret T →
  ∃ i1 i2, insert_edge x y M s = (Ret tt, edge_inserted s x y i1 i2 M T) ∧
    p_heap s !! i1 = None ∧ p_heap s !! i2 = None ∧ i1 ≠ i2.
Proof.
  intros Hx Hy Hne HT. set (i1 := fresh (dom (p_heap s))).
  set (i2 := fresh (dom (<[i1 := M]> (p_heap s)))).
  assert (p_heap s !! i1 = None) as H1 by (apply not_elem_of_dom; apply is_fresh).
  assert ((<[i1 := M]> (p_heap s)) !! i2 = None) as H2 by (apply not_elem_of_dom; apply is_fresh).
  apply lookup_insert_None in H2 as [H2 H12].
  exists i1, i2. split; [|done].
  unfold insert_edge, sbind at 1, ltf_new at 1, sbind, sget, set_heap, smod, set_ltf, slift. simpl.
  rewrite HT. unfold ltf_new, sbind, sget, set_heap, smod, set_ltf. simpl. fold i1. fold i2.
  unfold adj_append, sbind, set_adj, smod.
  erewrite adj_of_Some by exact Hx. erewrite adj_of_Some; [done|].
  simpl. by rewrite lookup_insert_ne.
Qed.

(** The new edge has the costs of the matrix, and nothing else changes. *)
Lemma edge_inserted_graph s A D x y i1 i2 M T :
  graph_ok s A → ids_ok s D → A ⊆ D → x ∈ A → y ∈ A → x ≠ y → y ∉ nb s x → x ∉ nb s y →
  is_matrix M (length (rcs s x)) (length (rcs s y)) → is_matrix T (length (rcs s y)) (length (rcs s x)) →
  (∀ i j, entry T j i = entry M i j ∧ (0 ≤ entry M i j)%Z) →
  p_heap s !! i1 = None → p_heap s !! i2 = None → i1 ≠ i2 →
  let t := edge_inserted s x y i1 i2 M T in
  graph_ok t A ∧ ids_ok t D ∧ same_outside s t (λ w, w = x ∨ w = y ∨ w ∉ D) ∧
  (∀ n, nb t n = if decide (n = x) then nb s x ++ [y] else if decide (n = y) then nb s y ++ [x] else nb s n) ∧
  mat t x y = M ∧ mat t y x = T ∧ (∀ n m, n ∈ D → m ∈ nb s n → mat t n m = mat s n m).
Proof.
  intros Hgo Hids Hsub Hx Hy Hne Hxy Hyx HM HT He H1 H2 H12 t.
  assert (∀ n, nb t n = if decide (n = x) then nb s x ++ [y]
    else if decide (n = y) then nb s y ++ [x] else nb s n) as Hnb.
  { intros n. unfold nb at 1, t, edge_inserted. simpl. destruct (decide (n = x)) as [->|Hnx].
    - by rewrite lookup_insert_ne, lookup_insert_eq.
    - destruct (decide (n = y)) as [->|Hny]; [by rewrite lookup_insert_eq|].
      by rewrite !lookup_insert_ne. }
  assert (mat t x y = M) as Hmxy.
  { unfold mat, t, edge_inserted. simpl. rewrite lookup_insert_ne by congruence.
    rewrite lookup_insert_eq. simpl. by rewrite lookup_insert_ne, lookup_insert_eq. }
  assert (mat t y x = T) as Hmyx.
  { unfold mat, t, edge_inserted. simpl. rewrite lookup_insert_eq. simpl. by rewrite lookup_insert_eq. }
  assert (∀ n m, m ∈ nb s n → (n, m) ≠ (x, y) ∧ (n, m) ≠ (y, x)) as Hedge.
  { intros n m Hm. split; intros [= -> ->]; done. }
  assert (∀ n m, m ∈ nb s n → p_ltf t !! (n, m) = p_ltf s !! (n, m)) as Hltf.
  { intros n m Hm. destruct (Hedge n m Hm). simpl. by rewrite !lookup_insert_ne by congruence. }
  assert (∀ id V, p_heap s !! id = Some V → p_heap t !! id = Some V) as Hheap.
  { intros id V HV. simpl. rewrite !lookup_insert_ne by congruence. done. }
  assert (∀ n m, n ∈ D → m ∈ nb s n → mat t n m = mat s n m) as Hmat.
  { intros n m Hn Hm. destruct (io_has _ _ Hids n m Hn Hm) as (id & Hid & HV).
    unfold mat at 1. rewrite Hltf, Hid by done. change (default [] (p_heap t !! id) = mat s n m).
    by rewrite (Hheap _ _ HV). }
  assert (∀ n m, n ∈ D → m ∈ nb t n → m ∈ nb s n ∨ n = x ∧ m = y ∨ n = y ∧ m = x) as Hcases.
  { intros n m _. rewrite Hnb. destruct (decide (n = x)) as [->|]; [|destruct (decide (n = y)) as [->|]];
      rewrite ?elem_of_app, ?list_elem_of_singleton; tauto. }
  assert (∀ n m, m ∈ nb s n → m ∈ nb t n) as Hold.
  { intros n m Hm. rewrite Hnb. destruct (decide (n = x)) as [->|]; [|destruct (decide (n = y)) as [->|]];
      rewrite ?elem_of_app; tauto. }
  split_and!; try done.
  - destruct Hgo as [G1 G2 G3 G4 G5 G6 G7 G8]. split; try done.
    + intros n Hn. unfold nb at 1. unfold t, edge_inserted. simpl.
      destruct (decide (n = y)) as [->|Hny]; [by rewrite lookup_insert_eq|]. rewrite lookup_insert_ne by done.
      destruct (decide (n = x)) as [->|Hnx]; [by rewrite lookup_insert_eq|]. rewrite lookup_insert_ne by done.
      by rewrite G2.
    + intros n Hn. destruct (G3 n Hn) as [Hnd Hself]. rewrite Hnb.
      destruct (decide (n = x)) as [->|]; [|destruct (decide (n = y)) as [->|]; [|done]].
      * split; [apply NoDup_app; split_and!; [done|set_solver|apply NoDup_singleton]|set_solver].
      * split; [apply NoDup_app; split_and!; [done|set_solver|apply NoDup_singleton]|set_solver].
    + intros n m Hn [Hm|[[-> ->]|[-> ->]]]%Hcases; [..|by apply Hsub].
      * destruct (G4 n m Hn Hm). split; [done|by apply Hold].
      * split; [done|]. rewrite Hnb, decide_False, decide_True by done. set_solver.
      * split; [done|]. rewrite Hnb, decide_True by done. set_solver.
    + intros n m Hn [Hm|[[-> ->]|[-> ->]]]%Hcases; [..|by apply Hsub].
      * rewrite Hmat by (auto). by apply G7.
      * by rewrite Hmxy.
      * by rewrite Hmyx.
    + intros n m i j Hn [Hm|[[-> ->]|[-> ->]]]%Hcases; [..|by apply Hsub].
      * destruct (G4 n m Hn Hm). unfold trn. rewrite !Hmat by auto. by apply G8.
      * unfold trn. rewrite Hmxy, Hmyx. destruct (He i j) as [-> ?]. done.
      * unfold trn. rewrite Hmxy, Hmyx. destruct (He j i) as [-> ?]. done.
  - destruct Hids as [I1 I2].
    assert (∀ n m, n ∈ D → m ∈ nb t n → ∃ id, p_ltf t !! (n, m) = Some id ∧ p_heap t !! id = Some (mat t n m) ∧
      (m ∈ nb s n ∧ p_ltf s !! (n, m) = Some id ∧ p_heap s !! id ≠ None ∨
       n = x ∧ m = y ∧ id = i1 ∨ n = y ∧ m = x ∧ id = i2)) as Hids.
    { intros n m Hn [Hm|[[-> ->]|[-> ->]]]%Hcases; [| | |done].
      - destruct (I1 n m Hn Hm) as (id & Hid & HV). exists id. rewrite Hltf, Hmat by done.
        split; [done|]. split; [by apply Hheap|]. left. rewrite HV. done.
      - exists i1. rewrite Hmxy. simpl. rewrite lookup_insert_ne, lookup_insert_eq by congruence.
        split; [done|]. rewrite lookup_insert_ne, lookup_insert_eq by congruence. tauto.
      - exists i2. rewrite Hmyx. simpl. rewrite !lookup_insert_eq. tauto. }
    split.
    + intros n m Hn Hm. destruct (Hids n m Hn Hm) as (id & ? & ? & _). by exists id.
    + intros n m n' m' id Hn Hm Hn' Hm' Hid Hid'.
      destruct (Hids n m Hn Hm) as (j & Hj & _ & Hc). destruct (Hids n' m' Hn' Hm') as (j' & Hj' & _ & Hc').
      simplify_eq. clear -Hc Hc' I2 H1 H2 H12 Hn Hn' Hne. destruct Hc as [(?&?&?)|[(?&?&?)|(?&?&?)]], Hc' as [(?&?&?)|[(?&?&?)|(?&?&?)]];
        subst; try congruence; try done. by eapply I2.
  - intros w Hw. split; [|split; [done|]].
    + simpl. rewrite !lookup_insert_ne; [done|intros ->; tauto..].
    + intros m Hm. split; [by apply Hltf|]. apply Hmat; [|done]. destruct (decide (w ∈ D)); tauto.
Qed.

Lemma links_ext s t f n :
  nb t n = nb s n → (∀ m, m ∈ nb s n → mat t n m = mat s n m) →
  links (nb t) (trn t) f n = links (nb s) (trn s) f n.
Proof.
  intros Hnb Hmat. unfold links. rewrite Hnb. apply zsum_ext. intros m Hm. unfold trn. by rewrite Hmat.
Qed.

Lemma links_reinforced s t f x y d :
  nb t x = nb s x → NoDup (nb s x) → y ∈ nb s x →
  (∀ m, m ∈ nb s x → m ≠ y → mat t x m = mat s x m) →
  trn t x y (f x) (f y) = (trn s x y (f x) (f y) + d)%Z →
  links (nb t) (trn t) f x = (links (nb s) (trn s) f x + d)%Z.
Proof.
  intros Hnb Hnd Hy Hmat Hd. unfold links. rewrite Hnb.
  rewrite (zsum_update (λ m, trn s x m (f x) (f m)) (λ m, trn t x m (f x) (f m)) _ y); [lia|done|done|].
  intros m Hm Hne. unfold trn. by rewrite Hmat.
Qed.

Lemma links_inserted s t f x y d :
  nb t x = nb s x ++ [y] → (∀ m, m ∈ nb s x → mat t x m = mat s x m) → trn t x y (f x) (f y) = d →
  links (nb t) (trn t) f x = (links (nb s) (trn s) f x + d)%Z.
Proof.
  intros Hnb Hmat Hd. unfold links. rewrite Hnb, fmap_app, zsum_app. csimpl. rewrite Hd.
  assert (zsum ((λ m, trn t x m (f x) (f m)) <$> nb s x) = zsum ((λ m, trn s x m (f x) (f m)) <$> nb s x)) as ->.
  { apply zsum_ext. intros m Hm. unfold trn. by rewrite Hmat. }
  lia.
Qed.

(** The cost of a node of degree 2 goes to the edge of its neighbours: a new
    one, or the one they have. *)
Lemma RII_edge_ok s A D v x y delta :
  wf s A D → A ⊆ D → v ∈ A → nb s v = [x; y] →
  is_matrix delta (length (rcs s x)) (length (rcs s y)) →
  (∀ i j, i < length (rcs s x) → j < length (rcs s y) → entry delta i j = RII_cost s v x y i j) →
  ∃ t,
    (let! adj_y := adj_of y in
     if bool_decide (x ∈ adj_y) then
       sfor (enumerate delta) (λ '(i, delta_row), sfor (enumerate delta_row) (λ '(j, d),
         let! _ := ltf_add (x, y) i j d in ltf_add (y, x) j i d))
     else insert_edge x y delta) s = (Ret tt, t) ∧
    graph_ok t A ∧ ids_ok t D ∧ same_plan s t ∧ nb t v = nb s v ∧
    same_outside s t (λ w, w ∈ nb s v ∨ w ∉ D) ∧ p_rec t = p_rec s ∧
    (∀ n, length (nb s n) ≤ length (nb t n) ≤ S (length (nb s n))) ∧
    (∀ n, n ∉ nb s v → nb t n = nb s n) ∧
    (∀ m, m ∈ nb s v → mat t v m = mat s v m) ∧
    ∀ f, valid s A f → total t A f = (total s A f + 2 * RII_cost s v x y (f x) (f y))%Z.
Proof.
  intros Hwf Hsub Hv Hnb Hdelta Hcost. pose proof (wf_graph _ _ _ Hwf) as Hgo.
  pose proof (wf_ids _ _ _ Hwf) as Hids.
  destruct (go_simple _ _ Hgo v Hv) as [Hndv Hself]. rewrite Hnb in Hndv, Hself.
  assert (x ∈ nb s v ∧ y ∈ nb s v) as [Hxv Hyv] by (rewrite Hnb; set_solver).
  destruct (go_sym _ _ Hgo v x Hv Hxv) as [Hx Hvx]. destruct (go_sym _ _ Hgo v y Hv Hyv) as [Hy Hvy].
  assert (x ≠ y) as Hne by (apply NoDup_cons in Hndv as [Hn _]; set_solver).
  assert (v ≠ x ∧ v ≠ y) as [Hvnx Hvny] by set_solver.
  assert (∀ i j, (0 ≤ entry delta i j)%Z) as Hpos.
  { intros i j. destruct (decide (i < length (rcs s x) ∧ j < length (rcs s y))) as [[Hi Hj]|Hn].
    - rewrite Hcost by done. by eapply RII_cost_nonneg.
    - by rewrite (entry_outside _ _ _ _ _ Hdelta Hn). }
  assert (∀ f, valid s A f → entry delta (f x) (f y) = RII_cost s v x y (f x) (f y)) as Hent.
  { intros f Hf. apply Hcost; by apply Hf. }
  unfold sbind at 1. rewrite (adj_of_Some s y _ (go_adj _ _ Hgo y Hy)).
  destruct (go_simple _ _ Hgo x Hx) as [Hndx _]. destruct (go_simple _ _ Hgo y Hy) as [Hndy _].
  case_bool_decide as Hxy.
  - destruct (go_sym _ _ Hgo y x Hy Hxy) as [_ Hyx].
    destruct (io_has _ _ Hids x y (Hsub x Hx) Hyx) as (id1 & Hid1 & HV1).
    destruct (io_has _ _ Hids y x (Hsub y Hy) Hxy) as (id2 & Hid2 & HV2).
    assert (id1 ≠ id2) as H12.
    { intros ->. destruct (io_inj _ _ Hids x y y x id2); auto. }
    destruct (reinforce_loop s x y id1 id2 (mat s x y) (mat s y x) delta (length (rcs s x)) (length (rcs s y)))
      as (t & Ht & Hre); try done; [by apply (go_mat _ _ Hgo)..|].
    destruct (reinforced_graph s A D x y id1 id2 delta t) as (Hgot & Hidst & Hplan & Hout & Hadj & Hrec & Hmat & Htrn);
      try done.
    assert (∀ n, nb t n = nb s n) as Hnbt by (intros n; unfold nb; by rewrite Hadj).
    exists t. split; [exact Ht|]. split_and!; try done.
    + intros w Hw. apply Hout. rewrite Hnb in Hw. set_solver.
    + intros n. rewrite Hnbt. lia.
    + intros m Hm. apply Hmat; [by apply Hsub|done|congruence..].
    + intros f Hf. rewrite <-Hent by done. unfold total.
      assert (cst t = cst s) as -> by (unfold cst, rcs; by rewrite Hrec).
      apply (energy_edge _ _ _ _ _ _ _ x y); [by apply (go_nodup _ _ Hgo)|done..| | |].
      * intros n Hn Hnx Hny. apply links_ext; [done|]. intros m Hm. apply Hmat; [by apply Hsub|done|congruence..].
      * apply (links_reinforced _ _ _ _ y); [done..| |by apply Htrn].
        intros m Hm Hmy. apply Hmat; [by apply Hsub|done|congruence..].
      * apply (links_reinforced _ _ _ _ x); [done..| |by apply Htrn].
        intros m Hm Hmx. apply Hmat; [by apply Hsub|done|congruence..].
  - assert (y ∉ nb s x) as Hyx by (intros Hyx; by destruct (go_sym _ _ Hgo x y Hx Hyx)).
    destruct (go_rec _ _ Hgo x Hx) as [_ Hrx].
    destruct (transpose_ok delta _ _ Hdelta) as (T & HT & HmT & HeT); [by destruct (rcs s x); simpl; [|lia]|].
    destruct (insert_edge_returns s x y delta T) as (i1 & i2 & Hins & H1 & H2 & H12);
      [by apply (go_adj _ _ Hgo)|by apply (go_adj _ _ Hgo)|done|done|].
    set (t := edge_inserted s x y i1 i2 delta T) in *.
    destruct (edge_inserted_graph s A D x y i1 i2 delta T) as (Hgot & Hidst & Hout & Hnbt & Hmxy & Hmyx & Hmat);
      try done. fold t in Hgot, Hidst, Hout, Hnbt, Hmxy, Hmyx, Hmat.
    exists t. split; [exact Hins|]. split_and!; try done.
    + by rewrite Hnbt, !decide_False.
    + intros w Hw. apply Hout. rewrite Hnb in Hw. set_solver.
    + intros n. rewrite Hnbt. destruct (decide (n = x)) as [->|]; [|destruct (decide (n = y)) as [->|]];
        rewrite ?length_app; simpl; lia.
    + intros n Hn. rewrite Hnb in Hn. rewrite Hnbt, !decide_False by set_solver. done.
    + intros m Hm. apply Hmat; [by apply Hsub|done].
    + intros f Hf. rewrite <-Hent by done. unfold total.
      change (cst t) with (cst s).
      apply (energy_edge _ _ _ _ _ _ _ x y); [by apply (go_nodup _ _ Hgo)|done..| | |].
      * intros n Hn Hnx Hny. apply links_ext; [by rewrite Hnbt, !decide_False|]. intros m Hm. apply Hmat; auto.
      * apply (links_inserted _ _ _ _ y); [by rewrite Hnbt, decide_True|intros m Hm; apply Hmat; auto|].
        unfold trn. by rewrite Hmxy.
      * apply (links_inserted _ _ _ _ x); [by rewrite Hnbt, decide_False, decide_True|intros m Hm; apply Hmat; auto|].
        unfold trn. rewrite Hmyx. by apply HeT.
Qed.

Lemma RII_reduction_ok s A D v x y :
  wf s A D → A ⊆ D → v ∈ A → nb s v = [x; y] →
  ∃ t A', RII_reduction v s = (Ret tt, t) ∧ exact_reduction s A D v t A'.
Proof.
  intros Hwf Hsub Hv Hnb. pose proof (wf_graph _ _ _ Hwf) as Hgo. pose proof (wf_ids _ _ _ Hwf) as Hids.
  destruct (go_simple _ _ Hgo v Hv) as [Hndv Hself].
  assert (x ∈ nb s v ∧ y ∈ nb s v) as [Hxv Hyv] by (rewrite Hnb; set_solver).
  destruct (go_sym _ _ Hgo v x Hv Hxv) as [Hx Hvx]. destruct (go_sym _ _ Hgo v y Hv Hyv) as [Hy Hvy].
  assert (x ≠ y) as Hne by (rewrite Hnb in Hndv; apply NoDup_cons in Hndv as [Hn _]; set_solver).
  destruct (io_has _ _ Hids x v (Hsub x Hx) Hvx) as (idx & Hidx & HVx).
  destruct (io_has _ _ Hids y v (Hsub y Hy) Hvy) as (idy & Hidy & HVy).
  destruct (delta_matrix_ok s A v x y Hgo Hv Hxv Hyv) as (delta & Hdelta & Hmat & Hcost).
  destruct (RII_edge_ok s A D v x y delta) as
    (t & Ht & Hgot & Hidst & Hplan & Hnbv & Hout & Hrec & Hlen & Hother & Hmv & Htot); try done.
  destruct (finish_reduction s t A D v) as (u & A' & Hu & Her); try done.
  - intros n. unfold rcs. by rewrite Hrec.
  - intros f Hf. rewrite Htot by done. do 2 f_equal. unfold RII_cost, completion. f_equal.
    apply list_fmap_ext. intros i k _. symmetry. by apply local_two.
  - intros f k. unfold local, local_cost. rewrite Hnbv. unfold cst, rcs. rewrite Hrec. f_equal.
    apply zsum_ext. intros m Hm. unfold trn. by rewrite Hmv.
  - exists u, A'. split; [|done]. unfold RII_reduction, sbind at 1.
    rewrite (adj_of_Some s v _ (go_adj _ _ Hgo v Hv)), Hnb.
    unfold sbind at 1. rewrite (ltf_of_Some _ _ _ _ Hidx HVx).
    unfold sbind at 1. rewrite (ltf_of_Some _ _ _ _ Hidy HVy).
    unfold sbind at 1. destruct (go_rec _ _ Hgo v Hv) as [Hrv _]. rewrite (rec_of_Some _ _ _ Hrv).
    unfold sbind at 1, slift at 1. rewrite Hdelta. unfold sbind at 1.
    destruct (Nat.eqb_spec x y); [done|]. rewrite Ht. exact Hu.
Qed.

(** ** Higher degrees *)

(** Adding a row to the costs of a node. *)
Lemma add_row_ok (l row : list num) :
  length row = length l →
  ∃ l', pfold (λ l '(j, ltf_cost), let? x := lnth l j in lset l j (num_add x ltf_cost)) l (enumerate row) =
    Ret l' ∧ length l' = length l.
Proof.
  intros Hlen.
  match goal with |- context [pfold ?f l _] =>
    destruct (pfold_enumerate_inv f (λ _ l', length l' = length l) row l) as (l' & Hl' & Hlen') end; [done| |].
  - intros j c b Hc Hb. destruct (lookup_lt_is_Some_2 b j) as [x Hx].
    { rewrite Hb, <-Hlen. by eapply lookup_lt_Some. }
    rewrite (lnth_Some _ _ _ Hx). cbn [pbind]. rewrite lset_in by (by eapply lookup_lt_Some).
    eexists. split; [done|]. by rewrite length_insert.
  - by exists l'.
Qed.

Lemma greedy_cost_ok s A D v i c :
  wf s A D → A ⊆ D → v ∈ A → i < length (rcs s v) → ∃ c', greedy_cost v i c s = (Ret c', s).
Proof.
  intros Hwf Hsub Hv Hi. pose proof (wf_graph _ _ _ Hwf) as Hgo. pose proof (wf_ids _ _ _ Hwf) as Hids.
  unfold greedy_cost, sbind at 1. rewrite (adj_of_Some s v _ (go_adj _ _ Hgo v Hv)).
  assert (∀ a, a ∈ nb s v → a ∈ nb s v) as Hin by done. revert Hin. generalize (nb s v) at 1 3.
  intros adj. revert c. induction adj as [|a adj IH]; intros c Hin; [by exists c|].
  assert (a ∈ nb s v) as Hav by (apply Hin; left). destruct (go_sym _ _ Hgo v a Hv Hav) as [Ha _].
  destruct (io_has _ _ Hids v a (Hsub v Hv) Hav) as (id & Hid & HV).
  destruct (go_rec _ _ Hgo a Ha) as [Hra Hne]. destruct (go_mat _ _ Hgo v a Hv Hav) as [Hrows Hcols].
  destruct (lookup_lt_is_Some_2 (mat s v a) i) as [row Hrow]; [by rewrite Hrows|].
  destruct (add_row_ok (rcs s a) row) as (l' & Hl' & Hlen'); [by eapply Hcols|].
  unfold sbind at 1. rewrite (ltf_of_Some _ _ _ _ Hid HV). unfold sbind at 1. rewrite (rec_of_Some _ _ _ Hra).
  unfold sbind at 1, slift at 1. rewrite (lnth_Some _ _ _ Hrow). unfold sbind at 1, slift at 1. rewrite Hl'.
  unfold sbind at 1, slift at 1.
  destruct l' as [|x l']; [by destruct (rcs s a)|]. cbn [list_min].
  apply IH. intros b Hb. apply Hin. by right.
Qed.

Lemma greedy_record_ok s A D v : wf s A D → A ⊆ D → v ∈ A → ∀ records min_cost o,
  (∀ i c, (i, c) ∈ records → i < length (rcs s v)) → (∀ i, o = Some i → i < length (rcs s v)) →
  ∃ o', greedy_record v records min_cost o s = (Ret o', s) ∧ ∀ i, o' = Some i → i < length (rcs s v).
Proof.
  intros Hwf Hsub Hv. induction records as [|[i c] records IH]; intros min_cost o Hrec Ho; [by exists o|].
  assert (i < length (rcs s v)) as Hi by (apply (Hrec i c); left).
  cbn [greedy_record]. destruct (greedy_cost_ok s A D v i c Hwf Hsub Hv Hi) as [c' Hc'].
  unfold sbind at 1. rewrite Hc'. case_match.
  - apply IH; [intros j d Hj; apply (Hrec j d); by right|]. by intros j [= <-].
  - apply IH; [intros j d Hj; apply (Hrec j d); by right|done].
Qed.

(** The chosen row is added to the costs of the neighbours. *)
Lemma RN_costs_ok s A D v i :
  wf s A D → A ⊆ D → v ∈ A → i < length (rcs s v) →
  ∃ r, sfor (nb s v) (λ adj_node,
      let! ltf_matrix := ltf_of (v, adj_node) in
      let! row := slift (lnth ltf_matrix i) in
      sfor (enumerate row) (λ '(i, ltf_cost), rec_add adj_node i ltf_cost)) s = (Ret tt, with_rec r s) ∧
    graph_ok (with_rec r s) A ∧ (∀ n, n ∉ nb s v → r !! n = p_rec s !! n) ∧
    ∀ n, length (rcs (with_rec r s) n) = length (rcs s n).
Proof.
  intros Hwf Hsub Hv Hi. pose proof (wf_graph _ _ _ Hwf) as Hgo. pose proof (wf_ids _ _ _ Hwf) as Hids.
  match goal with |- context [sfor ?l ?body s] =>
    destruct (sfor_inv body (λ done t, ∃ r, t = with_rec r s ∧ graph_ok t A ∧
      (∀ n, n ∉ done → r !! n = p_rec s !! n) ∧ ∀ n, length (rcs t n) = length (rcs s n)) l s)
      as (t & Ht & r & -> & Hr) end.
  - exists (p_rec s). split; [by destruct s|done].
  - intros pre a rest t Hl (r & -> & Hgor & Hr & Hlens). set (t := with_rec r s) in *.
    assert (a ∈ nb s v) as Hav by (rewrite Hl; set_solver). destruct (go_sym _ _ Hgo v a Hv Hav) as [Ha _].
    destruct (io_has _ _ Hids v a (Hsub v Hv) Hav) as (id & Hid & HV).
    destruct (go_rec _ _ Hgor a Ha) as [Hra _]. destruct (go_mat _ _ Hgo v a Hv Hav) as [Hrows Hcols].
    destruct (lookup_lt_is_Some_2 (mat s v a) i) as [row Hrow]; [by rewrite Hrows|].
    unfold sbind at 1. rewrite (ltf_of_Some t v a id Hid HV). unfold sbind at 1, slift at 1.
    change (mat t v a) with (mat s v a). rewrite (lnth_Some _ _ _ Hrow).
    destruct (rec_add_loop a row (λ '(i, c), rec_add a i c) (λ j, trn s v a i j) t (rcs t a))
      as (r' & l' & Hloop & Hr' & Hra' & Hb); [done|by rewrite Hlens; eapply Hcols| |].
    { intros j c r0 Hc _. exists c. split; [|done]. unfold trn, entry. rewrite Hrow. simpl. by rewrite Hc. }
    rewrite Hloop. eexists. split; [done|]. exists r'. split; [done|].
    destruct (bump_ok t A a r' l' (λ j, trn s v a i j) Hgor Ha Hr' Hra' Hb) as (Hgo' & Hlens' & _);
      [intros j; by apply (go_trn _ _ Hgo)|].
    split; [exact Hgo'|]. split.
    + intros n Hn. rewrite Hr' by set_solver. simpl. apply Hr. set_solver.
    + intros n. change (with_rec r' t) with (with_rec r' s) in Hlens'. rewrite <-Hlens. apply Hlens'.
  - exists r. split; [exact Ht|]. tauto.
Qed.

Lemma RN_reduction_ok s A D v :
  wf s A D → A ⊆ D → v ∈ A →
  (∃ t, RN_reduction v s = (Raise RuntimeError, t)) ∨
  ∃ t A' i, RN_reduction v s = (Ret tt, t) ∧ reduced s A D v t A' ∧
    i < length (rcs s v) ∧ p_opt t = <[v := i]> (p_opt s) ∧ p_is_optimal t = false.
Proof.
  intros Hwf Hsub Hv. pose proof (wf_graph _ _ _ Hwf) as Hgo. pose proof (wf_ids _ _ _ Hwf) as Hids.
  destruct (go_rec _ _ Hgo v Hv) as [Hrv _]. destruct (go_simple _ _ Hgo v Hv) as [_ Hself].
  destruct (greedy_record_ok s A D v Hwf Hsub Hv (enumerate (rcs s v)) INVALID_LAYOUT_TIME None)
    as (o & Ho & Hlt); [|done|].
  { intros i c [j Hj]%list_elem_of_lookup_1. rewrite lookup_enumerate in Hj.
    destruct (rcs s v !! j) eqn:E; [|done]. simplify_eq/=. by eapply lookup_lt_Some. }
  assert (∀ k : option nat → ST pbqp unit, (let! costs := rec_of v in let! i := greedy_record v (enumerate costs) INVALID_LAYOUT_TIME None in
    k i) s = k o s) as Hstart.
  { intros k. unfold sbind at 1. rewrite (rec_of_Some _ _ _ Hrv). unfold sbind. by rewrite Ho. }
  unfold RN_reduction. setoid_rewrite Hstart. destruct o as [i|]; [right|left; by eexists].
  specialize (Hlt i eq_refl). set (s1 := with_optimal false (with_opt (<[v := i]> (p_opt s)) s)).
  assert (wf s1 A D) as Hwf1 by (destruct Hwf as [G I B P]; split; [by destruct G|by destruct I|by destruct B|done..]).
  destruct (RN_costs_ok s1 A D v i Hwf1 Hsub Hv Hlt) as (r & Hr & Hgor & Hother & Hlens).
  destruct (finish_reduced s1 (with_rec r s1) A D v) as (u & A' & Hu & Hred & Huo & Hui & _); try done.
  - by destruct Hids.
  - intros w Hw. split; [done|]. split; [|done]. simpl. apply Hother. tauto.
  - intros n. change (nb (with_rec r s1) n) with (nb s n). change (nb s1 n) with (nb s n). lia.
  - exists u, A', i. split; [|split; [by destruct Hred|done]].
    unfold sbind, set_opt, set_suboptimal, smod. fold s1.
    rewrite (adj_of_Some s1 v _ (go_adj _ _ Hgo v Hv)). unfold sbind in Hr.
    change (nb s v) with (nb s1 v). rewrite Hr. exact Hu.
Qed.
End Reduce.
