(* ===== verification/PbqpSpec.v ===== *)
(** * Correctness of the PBQP tuner

    The forward pass ends after at most one round per node; the backward pass
    gives every node one of its records, and a choice of least cost where no
    record had to be fixed greedily. *)

From S2P Require Import Prelude Pbqp PbqpEnergy PbqpState PbqpReduce.

Section Passes.
Context `{CostOps, !CostOk}.

Abbreviation matrix := (list (list num)).

(** ** One round of the forward pass *)

(** A round that fixes the record of a node. *)
Definition fixed_reduction (s : pbqp) (A D : list nat) (v : nat) (t : pbqp) (A' : list nat) : Prop :=
  reduced s A D v t A' ∧ p_is_optimal t = false ∧
  ∃ i, i < length (rcs s v) ∧ p_opt t = <[v := i]> (p_opt s).

Lemma max_degree_node_ok (b : list (list nat)) (m : Z) :
  Z.of_nat (length b) = (m + 2)%Z →
  ∃ o, max_degree_node b m = Ret o ∧
    match o with
    | Some v => ∃ d l, b !! d = Some l ∧ v ∈ l
    | None => ∀ d l, 3 ≤ d → (Z.of_nat d ≤ m)%Z → b !! d = Some l → l = []
    end.
Proof.
  intros Hlen. unfold max_degree_node.
  assert (∀ idx, (∀ i, i ∈ idx → (0 ≤ i < zlen b)%Z) → ∀ o,
    match o with Some v => ∃ d l, b !! d = Some l ∧ v ∈ l | None => True end →
    ∃ o', pfold (λ found i, match found with
        | Some _ => Ret found | None => let? l := pynth b i in Ret (head l) end) o idx = Ret o' ∧
      match o' with
      | Some v => ∃ d l, b !! d = Some l ∧ v ∈ l
      | None => o = None ∧ ∀ i l, i ∈ idx → b !! Z.to_nat i = Some l → l = []
      end) as Hgo.
  { induction idx as [|i idx IH]; intros Hidx o Ho; simpl.
    - exists o. split; [done|]. destruct o; [done|]. split; [done|]. by intros i l ?%elem_of_nil.
    - destruct o as [v|]; cbn [pbind].
      + destruct (IH ltac:(intros; apply Hidx; by right) (Some v) Ho) as (o' & Ho' & Hm).
        exists o'. split; [done|]. destruct o'; [done|]. by destruct Hm.
      + destruct (pynth_in_range b i) as (l & Hl & Hbl); [apply Hidx; left|]. rewrite Hl. cbn [pbind].
        destruct (IH ltac:(intros; apply Hidx; by right) (head l)) as (o' & Ho' & Hm).
        { destruct l as [|v l]; [done|]. exists (Z.to_nat i), (v :: l). split; [done|left]. }
        exists o'. split; [done|]. destruct o' as [v|]; [done|]. destruct Hm as [Hh Hm]. split; [done|].
        intros j l' [->|Hj]%elem_of_cons Hbl'; [|by eapply Hm]. simplify_eq. by destruct l. }
  destruct (Hgo (reverse (range 3 (m + 1)))) with (o := @None nat) as (o & Ho & Hm); [|done|].
  { intros i Hi. rewrite elem_of_reverse, elem_of_range in Hi. unfold zlen. lia. }
  exists o. split; [done|]. destruct o; [done|]. destruct Hm as [_ Hm]. intros d l H3 Hd Hl.
  apply (Hm (Z.of_nat d)); [|by rewrite Nat2Z.id]. rewrite elem_of_reverse, elem_of_range. lia.
Qed.

Lemma bucket_member s A D d l v :
  wf s A D → p_buckets s !! d = Some l → v ∈ l → v ∈ A ∧ length (nb s v) = d.
Proof.
  intros Hwf Hl Hv. apply (bo_in _ _ (wf_buckets _ _ _ Hwf) v d l Hl) in Hv as [HvA Hd].
  split; [done|]. rewrite (wf_degrees _ _ _ Hwf v HvA) in Hd. by injection Hd.
Qed.

Lemma forward_step_ok s A D :
  wf s A D → A ⊆ D →
  (forward_step s = (Ret false, s) ∧ ∀ n, n ∈ A → nb s n = []) ∨
  (∃ v t A', forward_step s = (Ret true, t) ∧ exact_reduction s A D v t A') ∨
  (2 < p_max_degree s)%Z ∧
    ((∃ v t A', forward_step s = (Ret true, t) ∧ fixed_reduction s A D v t A') ∨
     ∃ t, forward_step s = (Raise RuntimeError, t)).
Proof.
  intros Hwf Hsub. pose proof (wf_max _ _ _ Hwf) as Hmax. pose proof (bo_length _ _ (wf_buckets _ _ _ Hwf)) as Hlen.
  unfold forward_step, sbind, sget, slift.
  destruct (lookup_lt_is_Some_2 (p_buckets s) 1) as [b1 Hb1]; [lia|]. rewrite (lnth_Some _ _ _ Hb1).
  destruct b1 as [|v b1].
  2: { destruct (bucket_member s A D 1 (v :: b1) v Hwf Hb1) as [Hv Hd]; [left|].
       destruct (nb s v) as [|a [|]] eqn:Hnb; try done.
       destruct (RI_reduction_ok s A D v a Hwf Hsub Hv Hnb) as (t & A' & Ht & Her).
       right. left. exists v, t, A'. rewrite Ht. done. }
  assert (∃ b2, (if bool_decide (2 ≤ p_max_degree s)%Z then (λ s0, (lnth (p_buckets s) 2, s0)) : ST pbqp (list nat) else sret []) s =
    (Ret b2, s) ∧ (if bool_decide (2 ≤ p_max_degree s)%Z then p_buckets s !! 2 = Some b2 else b2 = []))
    as (b2 & Hb2 & Hb2').
  { case_bool_decide; [|by exists []]. destruct (lookup_lt_is_Some_2 (p_buckets s) 2) as [b2 Hb2]; [lia|].
    exists b2. by rewrite (lnth_Some _ _ _ Hb2). }
  rewrite Hb2. destruct b2 as [|v b2].
  2: { case_bool_decide; [|done]. destruct (bucket_member s A D 2 (v :: b2) v Hwf Hb2') as [Hv Hd]; [left|].
       destruct (nb s v) as [|x [|y [|]]] eqn:Hnb; try done.
       destruct (RII_reduction_ok s A D v x y Hwf Hsub Hv Hnb) as (t & A' & Ht & Her).
       right. left. exists v, t, A'. rewrite Ht. done. }
  destruct (max_degree_node_ok (p_buckets s) (p_max_degree s) Hlen) as (o & Ho & Hm).
  assert (∀ n, n ∈ A → ∃ d l, length (nb s n) = d ∧ p_buckets s !! d = Some l ∧ n ∈ l ∧ S d < length (p_buckets s))
    as Hin.
  { intros n Hn. destruct (bo_degree _ _ (wf_buckets _ _ _ Hwf) n Hn) as (d & Hd & Hlt).
    destruct (lookup_lt_is_Some_2 (p_buckets s) d) as [l Hl]; [lia|]. exists d, l.
    rewrite (wf_degrees _ _ _ Hwf n Hn) in Hd. injection Hd as Hd. split; [done|]. split; [done|]. split; [|done].
    apply (bo_in _ _ (wf_buckets _ _ _ Hwf) n d l Hl). rewrite (wf_degrees _ _ _ Hwf n Hn). by rewrite Hd. }
  assert (o = None ∨ ¬ (3 ≤ p_max_degree s)%Z → ∀ n, n ∈ A → nb s n = []) as Hzero.
  { intros Ho' n Hn. destruct (Hin n Hn) as (d & l & Hd & Hl & Hnl & Hlt).
    destruct d as [|[|[|d]]]; [by destruct (nb s n)|..].
    - simplify_eq. by apply elem_of_nil in Hnl.
    - rewrite bool_decide_true in Hb2' by lia. simplify_eq. by apply elem_of_nil in Hnl.
    - destruct Ho' as [->|Hno]; [|lia]. rewrite (Hm (S (S (S d))) l) in Hnl by (done || lia).
      by apply elem_of_nil in Hnl. }
  destruct (bool_decide_reflect (3 ≤ p_max_degree s)%Z) as [H3|H3].
  - rewrite Ho. destruct o as [v|]; [|left; split; [done|apply Hzero; by left]].
    destruct Hm as (d & l & Hl & Hv). destruct (bucket_member s A D d l v Hwf Hl Hv) as [HvA _].
    right. right. split; [lia|].
    destruct (RN_reduction_ok s A D v Hwf Hsub HvA) as [(t & Ht)|(t & A' & i & Ht & Hred & Hi & Hopt & Hflag)].
    + right. exists t. by rewrite Ht.
    + left. exists v, t, A'. rewrite Ht. split; [done|]. split; [done|]. split; [done|]. by exists i.
  - left. split; [done|]. apply Hzero. by right.
Qed.

(** ** The forward pass *)

(** The rounds of a forward pass, with the nodes they take out. *)
Inductive reductions (D : list nat) : pbqp → list nat → list nat → pbqp → list nat → Prop :=
  | reds_done s A : reductions D s A [] s A
  | reds_exact s A v t B vs u C :
      exact_reduction s A D v t B → reductions D t B vs u C → reductions D s A (v :: vs) u C
  | reds_fixed s A v t B vs u C :
      fixed_reduction s A D v t B → reductions D t B vs u C → reductions D s A (v :: vs) u C.

(** The pass ends within one round per node. *)
Lemma forward_ok D fuel : ∀ s A,
  wf s A D → A ⊆ D → length A < fuel →
  (2 < p_max_degree s)%Z ∧ (∃ t, forward fuel s = (Raise RuntimeError, t)) ∨
  ∃ t C vs, forward fuel s = (Ret tt, t) ∧ reductions D s A vs t C ∧ wf t C D ∧
    (∀ n, n ∈ C → nb t n = []) ∧ ((p_max_degree s ≤ 2)%Z → p_is_optimal t = p_is_optimal s).
Proof.
  induction fuel as [|fuel IH]; intros s A Hwf Hsub Hlt; [lia|].
  cbn [forward]. unfold sbind.
  assert (∀ v t A', reduced s A D v t A' →
    (wf t A' D ∧ A' ⊆ D ∧ length A' < fuel) ∧ p_max_degree t = p_max_degree s) as Hnext.
  { intros v t A' Hred. split; [|apply Hred]. pose proof (red_perm _ _ _ _ _ _ Hred) as HA.
    split; [apply Hred|]. split; [intros n Hn; apply Hsub; rewrite HA; by right|].
    rewrite HA in Hlt. simpl in Hlt. lia. }
  destruct (forward_step_ok s A D Hwf Hsub) as [[Hs Hz]|[(v & t & A' & Hs & Her)|[H3 [(v & t & A' & Hs & Hfix)|(t & Hs)]]]].
  - right. exists s, A, []. rewrite Hs. split; [done|]. split; [constructor|done].
  - destruct (Hnext v t A' (er_reduced _ _ _ _ _ _ Her)) as [(Hwf' & Hsub' & Hlt') Hmax]. rewrite Hs.
    destruct (IH t A' Hwf' Hsub' Hlt') as [[? (u & Hu)]|(u & C & vs & Hu & Hreds & HwfC & Hz & Hflag)].
    + left. split; [lia|]. by exists u.
    + right. exists u, C, (v :: vs). split; [done|]. split; [by eapply reds_exact|]. split; [done|]. split; [done|].
      intros Hle. rewrite Hflag by lia. apply (er_optimal _ _ _ _ _ _ Her).
  - destruct Hfix as [Hred Hfix]. destruct (Hnext v t A' Hred) as [(Hwf' & Hsub' & Hlt') Hmax]. rewrite Hs.
    destruct (IH t A' Hwf' Hsub' Hlt') as [[? (u & Hu)]|(u & C & vs & Hu & Hreds & HwfC & Hz & _)].
    + left. split; [lia|]. by exists u.
    + right. exists u, C, (v :: vs). split; [done|]. split; [by eapply reds_fixed|]. split; [done|]. split; [done|lia].
  - left. split; [done|]. exists t. by rewrite Hs.
Qed.

(** ** Choosing a record *)

Lemma list_min_val l :
  l ≠ [] → ∃ m, list_min l = Ret m ∧ (∃ x, x ∈ l ∧ val x = val m) ∧ ∀ x, x ∈ l → (val m ≤ val x)%Z.
Proof.
  destruct l as [|x l]; [done|]. intros _. simpl. eexists. split; [done|].
  revert x. induction l as [|y l IH]; intros x; simpl.
  - split; [exists x; split; [left|done]|]. intros z ->%list_elem_of_singleton. lia.
  - destruct (IH (num_min x y)) as [(z & Hz & Hv) Hle]. split.
    + apply elem_of_cons in Hz as [->|Hz].
      * unfold num_min in *. destruct (num_ltb y x); [exists y|exists x]; (split; [set_solver|done]).
      * exists z. split; [set_solver|done].
    + pose proof (Hle (num_min x y) ltac:(left)) as Hxy. rewrite val_min in Hxy.
      intros w [->|[->|Hw]%elem_of_cons]%elem_of_cons; [lia|lia|]. apply Hle. by right.
Qed.

(** [best_index] is the index of a least cost. *)
Lemma best_index_ok l :
  l ≠ [] → ∃ k x, best_index l = Ret k ∧ l !! k = Some x ∧ ∀ y, y ∈ l → (val x ≤ val y)%Z.
Proof.
  intros Hne. destruct (list_min_val l Hne) as (m & Hm & (x & Hx & Hvx) & Hle).
  assert (∀ k, ∃ i y, index_of m (k ++ l) = Ret i ∧ (k ++ l) !! i = Some y ∧ val y = val m) as Hidx.
  { induction k as [|y k IH].
    - clear Hne Hm Hle. simpl. induction l as [|y l IH]; [by apply elem_of_nil in Hx|]. simpl.
      rewrite val_eqb. case_bool_decide as Hym; [by exists 0, y|].
      apply elem_of_cons in Hx as [->|Hx]; [done|]. destruct (IH Hx) as (i & z & Hi & Hz & Hv).
      exists (S i), z. rewrite Hi. done.
    - simpl. rewrite val_eqb. case_bool_decide as Hym; [by exists 0, y|].
      destruct IH as (i & z & Hi & Hz & Hv). exists (S i), z. rewrite Hi. done. }
  destruct (Hidx []) as (i & y & Hi & Hy & Hv). exists i, y. unfold best_index. rewrite Hm. cbn [pbind].
  split; [done|]. split; [done|]. intros z Hz. rewrite Hv. by apply Hle.
Qed.

(** ** The backward pass *)

(** The choice that is written down in a dictionary. *)
Definition choice (o : gmap nat nat) : nat → nat := λ n, default 0 (o !! n).

(** A state of the backward pass over the final state [u] of the forward pass:
    the nodes of [A] are back in the graph and have chosen, the others are as in
    [s]. *)
Definition back_state (s u : pbqp) (A D : list nat) (a : gmap nat (list nat)) (o : gmap nat nat) : Prop :=
  (∀ n, n ∈ A → is_Some (a !! n) ∧ ∃ i, o !! n = Some i ∧ i < length (rcs u n)) ∧
  (∀ n, n ∈ D → n ∉ A → a !! n = p_adj s !! n) ∧
  (∀ n, n ∉ A → o !! n = p_opt s !! n).

Definition back (a : gmap nat (list nat)) (o : gmap nat nat) (u : pbqp) : pbqp := with_adj a (with_opt o u).

Lemma reductions_frame D s A vs u C : reductions D s A vs u C →
  (∀ n, length (rcs u n) = length (rcs s n)) ∧ p_stack u = p_stack s ++ vs ∧
  ∀ w, w ∈ D → w ∉ A → p_adj u !! w = p_adj s !! w ∧ p_rec u !! w = p_rec s !! w ∧
    ∀ m, m ∈ nb s w → p_ltf u !! (w, m) = p_ltf s !! (w, m) ∧ mat u w m = mat s w m.
Proof.
  assert (∀ s A v t B vs u, reduced s A D v t B →
    ((∀ n, length (rcs u n) = length (rcs t n)) ∧ p_stack u = p_stack t ++ vs ∧
      ∀ w, w ∈ D → w ∉ B → p_adj u !! w = p_adj t !! w ∧ p_rec u !! w = p_rec t !! w ∧
        ∀ m, m ∈ nb t w → p_ltf u !! (w, m) = p_ltf t !! (w, m) ∧ mat u w m = mat t w m) →
    (∀ n, length (rcs u n) = length (rcs s n)) ∧ p_stack u = p_stack s ++ v :: vs ∧
    ∀ w, w ∈ D → w ∉ A → p_adj u !! w = p_adj s !! w ∧ p_rec u !! w = p_rec s !! w ∧
      ∀ m, m ∈ nb s w → p_ltf u !! (w, m) = p_ltf s !! (w, m) ∧ mat u w m = mat s w m) as Hstep.
  { clear s A vs u C. intros s A v t B vs u Hred (Hlen & Hstack & Hframe). split_and!.
    - intros n. rewrite Hlen. apply (red_length _ _ _ _ _ _ Hred).
    - rewrite Hstack, (red_stack _ _ _ _ _ _ Hred). by rewrite <-app_assoc.
    - intros w HwD HwA. assert (w ∉ B) as HwB.
      { intros HwB. apply HwA. rewrite (red_perm _ _ _ _ _ _ Hred). by right. }
      destruct (red_frame _ _ _ _ _ _ Hred w HwD HwB) as (Ha & Hr & Hm).
      destruct (Hframe w HwD HwB) as (Ha' & Hr' & Hm'). split_and!; [congruence|congruence|].
      intros m Hmw. assert (m ∈ nb t w) as Hmt by (unfold nb; rewrite Ha; exact Hmw).
      destruct (Hm m Hmw), (Hm' m Hmt). split; congruence. }
  induction 1 as [s A|s A v t B vs u C Her _ IH|s A v t B vs u C Hfix _ IH].
  - split; [done|]. split; [by rewrite app_nil_r|done].
  - apply (Hstep s A v t B vs u); [by apply Her|exact IH].
  - apply (Hstep s A v t B vs u); [by apply Hfix|exact IH].
Qed.

(** The node is put back into the lists of its neighbours. *)
Lemma backward_insert_ok a o u v l :
  a !! v = Some l → v ∉ l → (∀ n, n ∈ l → is_Some (a !! n)) →
  ∃ a', backward_insert_node v (back a o u) = (Ret tt, back a' o u) ∧
    (∀ n, n ∉ l → a' !! n = a !! n) ∧ (∀ n, is_Some (a !! n) → is_Some (a' !! n)).
Proof.
  intros Hv Hself Hl. unfold backward_insert_node, sbind at 1.
  rewrite (adj_of_Some (back a o u) v l Hv).
  match goal with |- context [sfor l ?body ?t] =>
    destruct (sfor_inv body (λ done t', ∃ a', t' = back a' o u ∧ (∀ n, n ∉ done → a' !! n = a !! n) ∧
      (∀ n, is_Some (a !! n) → is_Some (a' !! n))) l t) as (t' & Ht & a' & -> & Ha) end.
  - by exists a.
  - intros pre n rest t Hsplit (a' & -> & Hout & Hsome).
    destruct (Hsome n) as [ln Hln]; [apply Hl; rewrite Hsplit; set_solver|].
    unfold adj_append, sbind. rewrite (adj_of_Some (back a' o u) n ln Hln). unfold set_adj, smod.
    eexists. split; [done|]. eexists. split; [done|]. simpl. split.
    + intros m Hm. rewrite lookup_insert_ne by set_solver. apply Hout. set_solver.
    + intros m Hm. destruct (decide (m = n)) as [->|]; [by rewrite lookup_insert_eq|].
      rewrite lookup_insert_ne by done. by apply Hsome.
  - exists a'. split; [exact Ht|done].
Qed.

(** The costs of the records of a node, given the choices of its neighbours. *)
Lemma add_choices_ok s w v f : ∀ adj costs,
  (∀ n, n ∈ adj → p_opt w !! n = Some (f n) ∧ ltf_of (v, n) w = (Ret (mat s v n), w) ∧
     ∃ c, is_matrix (mat s v n) (length costs) c ∧ f n < c) →
  ∃ costs', add_choices v costs adj w = (Ret costs', w) ∧ length costs' = length costs ∧
    ∀ k x, costs !! k = Some x → ∃ x', costs' !! k = Some x' ∧
      val x' = (val x + zsum ((λ m, trn s v m k (f m)) <$> adj))%Z.
Proof.
  unfold add_choices. induction adj as [|n adj IH]; intros costs Hadj.
  { exists costs. split; [done|]. split; [done|]. intros k x Hx. exists x. split; [done|]. csimpl. lia. }
  destruct (Hadj n) as (Ho & Hltf & c & Hm & Hf); [left|].
  unfold sbind at 1, sget at 1. unfold sbind at 1, slift at 1. rewrite (dget_Some _ _ _ Ho).
  unfold sbind at 1. rewrite Hltf. unfold sbind at 1, slift at 1.
  match goal with |- context [pymap ?g (enumerate costs)] =>
    destruct (pymap_inv g (λ k x', ∃ x, costs !! k = Some x ∧ val x' = (val x + trn s v n k (f n))%Z)
      (enumerate costs)) as (costs1 & Hc1 & Hlen1 & Hval1) end.
  { intros k kx Hk. rewrite lookup_enumerate in Hk. destruct (costs !! k) as [x|] eqn:Hx; [|done].
    injection Hk as <-. destruct (matrix_lookup _ _ _ k (f n) Hm) as (row & y & Hrow & Hy & He);
      [by eapply lookup_lt_Some|done|].
    rewrite (lnth_Some _ _ _ Hrow). cbn [pbind]. rewrite (lnth_Some _ _ _ Hy). eexists. split; [done|].
    exists x. split; [done|]. rewrite val_add. unfold trn. by rewrite He. }
  rewrite Hc1. unfold enumerate in Hlen1. rewrite length_imap in Hlen1.
  destruct (IH costs1) as (costs' & Hc' & Hlen' & Hval').
  { intros m Hmm. rewrite Hlen1. apply Hadj. by right. }
  exists costs'. split; [done|]. split; [congruence|]. intros k x Hx.
  destruct (lookup_lt_is_Some_2 costs1 k) as [x1 Hx1]; [rewrite Hlen1; by eapply lookup_lt_Some|].
  destruct (Hval1 k x1 Hx1) as (x0 & Hx0 & Hv1). simplify_eq.
  destruct (Hval' k x1 Hx1) as (x' & Hx' & Hv'). exists x'. split; [done|]. csimpl. lia.
Qed.

Lemma sfor_snoc {S A} (l : list A) x (body : A → ST S unit) s s1 s2 :
  sfor l body s = (Ret tt, s1) → body x s1 = (Ret tt, s2) → sfor (l ++ [x]) body s = (Ret tt, s2).
Proof.
  intros Hl Hx. revert s Hl. induction l as [|y l IH]; intros s; simpl; unfold sbind.
  - intros [= <-]. by rewrite Hx.
  - destruct (body y s) as [[[]|e] s'] eqn:E; [|done]. intros Hl. by rewrite (IH s').
Qed.

Section Node.
Context (s t u : pbqp) (A B D : list nat) (v : nat) (a : gmap nat (list nat)) (o : gmap nat nat).
Hypothesis (Hwf : wf s A D) (Hsub : A ⊆ D) (Hred : reduced s A D v t B).
Hypothesis (Hlen : ∀ n, length (rcs u n) = length (rcs t n)).
Hypothesis (Hframe : ∀ w, w ∈ D → w ∉ B → p_adj u !! w = p_adj t !! w ∧ p_rec u !! w = p_rec t !! w ∧
  ∀ m, m ∈ nb t w → p_ltf u !! (w, m) = p_ltf t !! (w, m) ∧ mat u w m = mat t w m).
Hypothesis (Hback : back_state t u B D a o).

Lemma node_facts :
  v ∈ A ∧ (v ∉ B) ∧ a !! v = Some (nb s v) ∧ (v ∉ nb s v) ∧ (nb s v ⊆ B) ∧ (∀ n, n ∈ A → n = v ∨ n ∈ B) ∧
  p_rec u !! v = Some (rcs s v) ∧ rcs s v ≠ [] ∧
  (∀ m, m ∈ nb s v → ∃ id, p_ltf u !! (v, m) = Some id ∧ p_heap u !! id = Some (mat u v m)) ∧
  (∀ m, m ∈ nb s v → mat u v m = mat s v m).
Proof.
  pose proof (wf_graph _ _ _ Hwf) as Hgo. pose proof (red_perm _ _ _ _ _ _ Hred) as HA.
  assert (v ∈ A) as Hv by (rewrite HA; left).
  pose proof (go_nodup _ _ Hgo) as Hnd. rewrite HA in Hnd. apply NoDup_cons in Hnd as [HvB _].
  destruct (go_simple _ _ Hgo v Hv) as [_ Hself].
  destruct (red_frame _ _ _ _ _ _ Hred v (Hsub v Hv) HvB) as (Ha & Hr & Hm).
  destruct (Hframe v (Hsub v Hv) HvB) as (Ha' & Hr' & Hm').
  destruct Hback as (_ & Hout & _). destruct (go_rec _ _ Hgo v Hv) as [Hrv Hne].
  assert (nb t v = nb s v) as Hnb by (unfold nb; by rewrite Ha).
  split_and!; try done.
  - rewrite Hout by auto. rewrite Ha. by apply (go_adj _ _ Hgo).
  - intros m Hm'v. destruct (go_sym _ _ Hgo v m Hv Hm'v) as [HmA _]. rewrite HA in HmA.
    apply elem_of_cons in HmA as [->|?]; done.
  - intros n Hn. rewrite HA in Hn. by apply elem_of_cons in Hn.
  - congruence.
  - intros m Hmv. destruct (io_has _ _ (wf_ids _ _ _ (red_wf _ _ _ _ _ _ Hred)) v m) as (id & Hid & HV);
      [auto|by rewrite Hnb|].
    destruct (Hm' m) as [Hl _]; [by rewrite Hnb|]. exists id. rewrite Hl. split; [done|].
    destruct (Hm m Hmv) as [Hls Hms]. unfold mat. rewrite Hl, Hid. simpl.
    destruct (p_heap u !! id) eqn:E; [done|].
    destruct (Hm' m) as [_ Hmu]; [by rewrite Hnb|]. unfold mat in Hmu. rewrite Hl, Hid in Hmu. simpl in Hmu.
    rewrite E, HV in Hmu. simpl in Hmu.
    pose proof (go_mat _ _ Hgo v m Hv Hmv) as [Hrows _]. rewrite <-Hms in Hrows. rewrite <-Hmu in Hrows.
    by destruct (rcs s v).
  - intros m Hmv. destruct (Hm m Hmv) as [_ <-]. apply Hm'. by rewrite Hnb.
Qed.

Lemma back_state_extend a' o' :
  (∀ n, n ∉ nb s v → a' !! n = a !! n) → (∀ n, is_Some (a !! n) → is_Some (a' !! n)) →
  (∀ n, n ≠ v → o' !! n = o !! n) → (∃ i, o' !! v = Some i ∧ i < length (rcs s v)) →
  (∀ n, n ∉ A → p_opt t !! n = p_opt s !! n) →
  back_state s u A D a' o'.
Proof.
  intros Ha Hsome Ho (i & Hi & Hlt) Hopt.
  destruct node_facts as (Hv & HvB & Hav & Hself & HnbB & HAB & Hr & Hne & _).
  destruct Hback as (Hin & Hout & Hoo). split_and!.
  - intros n Hn. destruct (decide (n = v)) as [->|Hnv].
    + split; [apply Hsome; by eexists|]. exists i. split; [done|].
      by rewrite Hlen, (red_length _ _ _ _ _ _ Hred).
    + destruct (HAB n Hn) as [->|HnB]; [done|]. destruct (Hin n HnB) as [Hs Hc].
      split; [by apply Hsome|]. by rewrite Ho.
  - intros n HnD HnA. assert (n ∉ B) as HnB.
    { intros HnB. apply HnA. rewrite (red_perm _ _ _ _ _ _ Hred). by right. }
    rewrite Ha by (intros Hn; by apply HnB, HnbB). rewrite Hout by done.
    by apply (red_frame _ _ _ _ _ _ Hred).
  - intros n HnA. assert (n ∉ B) as HnB.
    { intros HnB. apply HnA. rewrite (red_perm _ _ _ _ _ _ Hred). by right. }
    rewrite Ho by (intros ->; done). rewrite Hoo by done. by apply Hopt.
Qed.

Lemma insert_node_ok :
  ∃ a', backward_insert_node v (back a o u) = (Ret tt, back a' o u) ∧
    (∀ n, n ∉ nb s v → a' !! n = a !! n) ∧ (∀ n, is_Some (a !! n) → is_Some (a' !! n)).
Proof.
  destruct node_facts as (Hv & HvB & Hav & Hself & HnbB & HAB & _).
  apply backward_insert_ok; [done|done|]. intros n Hn. destruct Hback as (Hin & _). by apply Hin, HnbB.
Qed.

(** A node whose record was fixed keeps it. *)
Lemma backward_fixed i :
  i < length (rcs s v) → p_opt t = <[v := i]> (p_opt s) →
  ∃ a', backward_node v (back a o u) = (Ret tt, back a' o u) ∧ back_state s u A D a' o.
Proof.
  intros Hi Hopt. destruct insert_node_ok as (a' & Ha & Hout & Hsome).
  destruct node_facts as (Hv & HvB & _). destruct Hback as (_ & _ & Hoo).
  assert (o !! v = Some i) as Hov by (rewrite Hoo by done; rewrite Hopt; by rewrite lookup_insert_eq).
  exists a'. split.
  - unfold backward_node, sbind at 1. rewrite Ha. unfold sbind, sget. simpl. by rewrite Hov.
  - apply back_state_extend; [done|done|done|by exists i|].
    intros n Hn. rewrite Hopt, lookup_insert_ne; [done|]. by intros ->.
Qed.

(** Any other node takes its best record. *)
Lemma backward_exact :
  p_opt t = p_opt s → p_opt s !! v = None →
  ∃ a' k, backward_node v (back a o u) = (Ret tt, back a' (<[v := k]> o) u) ∧
    back_state s u A D a' (<[v := k]> o) ∧ k < length (rcs s v) ∧
    ∀ j, j < length (rcs s v) → (local s (choice o) v k ≤ local s (choice o) v j)%Z.
Proof.
  intros Hopt Hnone. destruct insert_node_ok as (a' & Ha & Hout & Hsome).
  destruct node_facts as (Hv & HvB & Hav & Hself & HnbB & HAB & Hr & Hne & Hltf & Hmat).
  destruct Hback as (Hin & _ & Hoo). pose proof (wf_graph _ _ _ Hwf) as Hgo.
  assert (o !! v = None) as Hov by (rewrite Hoo by done; by rewrite Hopt).
  set (w := back a' o u).
  destruct (add_choices_ok s w v (choice o) (nb s v) (rcs s v)) as (costs & Hcosts & Hclen & Hcval).
  { intros m Hm. destruct (Hin m (HnbB m Hm)) as (_ & i & Hi & Hilt). unfold choice. rewrite Hi.
    split; [done|]. split.
    - destruct (Hltf m Hm) as (id & Hid & HV). rewrite <-(Hmat m Hm).
      change (mat u v m) with (mat w v m). by apply (ltf_of_Some w v m id).
    - exists (length (rcs s m)). split; [by apply (go_mat _ _ Hgo)|]. simpl.
      by rewrite <-(red_length _ _ _ _ _ _ Hred), <-Hlen. }
  destruct (best_index_ok costs) as (k & x & Hk & Hx & Hbest).
  { intros ->. by destruct (rcs s v). }
  exists a', k. split; [|split; [|split]].
  - unfold backward_node, sbind at 1. rewrite Ha. fold w. unfold sbind at 1, sget at 1.
    change (p_opt w) with o. rewrite Hov. unfold sbind at 1. rewrite (rec_of_Some w v _ Hr).
    unfold sbind at 1. rewrite (adj_of_Some w v (nb s v)) by (simpl; by rewrite Hout).
    unfold sbind at 1. rewrite Hcosts. unfold sbind, slift. by rewrite Hk.
  - apply back_state_extend; [done|done| |exists k; rewrite lookup_insert_eq|by rewrite Hopt].
    + intros n Hn. by rewrite lookup_insert_ne.
    + split; [done|]. rewrite <-Hclen. by eapply lookup_lt_Some.
  - rewrite <-Hclen. by eapply lookup_lt_Some.
  - assert (∀ j y, costs !! j = Some y → val y = local s (choice o) v j) as Hlocal.
    { intros j y Hy. destruct (lookup_lt_is_Some_2 (rcs s v) j) as [z Hz].
      { rewrite <-Hclen. by eapply lookup_lt_Some. }
      destruct (Hcval j z Hz) as (y' & Hy' & Hv'). simplify_eq. rewrite Hv'.
      unfold local, local_cost, cst. by rewrite Hz. }
    intros j Hj. destruct (lookup_lt_is_Some_2 costs j) as [y Hy]; [by rewrite Hclen|].
    rewrite <-(Hlocal k x Hx), <-(Hlocal j y Hy). apply Hbest. by eapply list_elem_of_lookup_2.
Qed.
End Node.

Lemma reductions_suboptimal D s A vs u C :
  reductions D s A vs u C → p_is_optimal s = false → p_is_optimal u = false.
Proof.
  induction 1 as [s A|s A v t B vs u C Her _ IH|s A v t B vs u C Hfix _ IH]; [done|..]; intros Hs; apply IH.
  - by rewrite (er_optimal _ _ _ _ _ _ Her).
  - by destruct Hfix as (_ & ? & _).
Qed.

Lemma back_valid s u A D a o : (∀ n, length (rcs u n) = length (rcs s n)) →
  back_state s u A D a o → valid s A (choice o).
Proof.
  intros Hlen (Hin & _) n Hn. destruct (Hin n Hn) as (_ & i & Hi & Hlt). unfold choice. rewrite Hi.
  by rewrite <-Hlen.
Qed.

Lemma total_choice s A v k o :
  graph_ok s A → total s A (choose (choice o) v k) = total s A (choice (<[v := k]> o)).
Proof.
  intros Hgo. apply total_ext; [done|]. intros n _. unfold choose, choice.
  case_decide as Hn; [subst; by rewrite lookup_insert_eq|by rewrite lookup_insert_ne].
Qed.

(** The loop over the stack undoes the rounds of the forward pass. *)
Lemma backward_stack_ok D s A vs u C : reductions D s A vs u C →
  wf s A D → A ⊆ D → (∀ n, n ∈ A → p_opt s !! n = None) → ∀ a0 o0, back_state u u C D a0 o0 →
  ∃ a o, sfor (reverse vs) backward_node (back a0 o0 u) = (Ret tt, back a o u) ∧
    back_state s u A D a o ∧
    (p_is_optimal u = true → (total u C (choice o0) < 2 * INV)%Z →
     total s A (choice o) = total u C (choice o0)).
Proof.
  induction 1 as [s A|s A v t B vs u C Her Hreds IH|s A v t B vs u C Hfix Hreds IH];
    intros Hwf Hsub Hnone a0 o0 Hback.
  { by exists a0, o0. }
  - pose proof (er_reduced _ _ _ _ _ _ Her) as Hred. pose proof (red_perm _ _ _ _ _ _ Hred) as HA.
    assert (B ⊆ D) as HsubB by (intros n Hn; apply Hsub; rewrite HA; by right).
    pose proof (red_wf _ _ _ _ _ _ Hred) as HwfB.
    destruct (reductions_frame _ _ _ _ _ _ Hreds) as (Hlen & _ & Hframe).
    destruct (IH HwfB HsubB) with (a0 := a0) (o0 := o0) as (a & o & Hs & Hb & Htot); [|done|].
    { intros n Hn. rewrite (er_opt _ _ _ _ _ _ Her). apply Hnone. rewrite HA. by right. }
    destruct (backward_exact s t u A B D v a o) as (a' & k & Hv & Hb' & Hk & Hbest); try done.
    { apply (er_opt _ _ _ _ _ _ Her). }
    { apply Hnone. rewrite HA. left. }
    exists a', (<[v := k]> o). split; [rewrite reverse_cons; by eapply sfor_snoc|]. split; [done|].
    intros Hopt Hlt. rewrite <-(Htot Hopt Hlt), <-total_choice by apply (wf_graph _ _ _ Hwf).
    apply (er_complete s A D v t B); try done; [apply (wf_graph _ _ _ Hwf)|by eapply back_valid|].
    by rewrite Htot.
  - pose proof Hfix as (Hred & Hflag & i & Hi & Hopt). pose proof (red_perm _ _ _ _ _ _ Hred) as HA.
    assert (B ⊆ D) as HsubB by (intros n Hn; apply Hsub; rewrite HA; by right).
    pose proof (red_wf _ _ _ _ _ _ Hred) as HwfB.
    destruct (reductions_frame _ _ _ _ _ _ Hreds) as (Hlen & _ & Hframe).
    destruct (IH HwfB HsubB) with (a0 := a0) (o0 := o0) as (a & o & Hs & Hb & _); [|done|].
    { intros n Hn. rewrite Hopt, lookup_insert_ne; [apply Hnone; rewrite HA; by right|]. intros ->.
      pose proof (go_nodup _ _ (wf_graph _ _ _ Hwf)) as Hnd. rewrite HA in Hnd.
      by apply NoDup_cons in Hnd as [? _]. }
    destruct (backward_fixed s t u A B D v a o) with (i := i) as (a' & Hv & Hb'); try done.
    exists a', o. split; [rewrite reverse_cons; by eapply sfor_snoc|]. split; [done|].
    intros Htrue. by rewrite (reductions_suboptimal _ _ _ _ _ _ Hreds) in Htrue.
Qed.

(** The nodes without neighbours take a record of least cost. *)
Lemma backward_roots_ok u C D b0 :
  wf u C D → (∀ n, n ∈ C → nb u n = []) → p_buckets u !! 0 = Some b0 →
  ∃ o, sfor b0 (λ node_idx,
      let! record_costs := rec_of node_idx in
      let! i := slift (best_index record_costs) in
      set_opt node_idx i) u = (Ret tt, back (p_adj u) o u) ∧
    back_state u u C D (p_adj u) o ∧
    ∀ g, valid u C g → (total u C (choice o) ≤ total u C g)%Z.
Proof.
  intros Hwf Hzero Hb0. pose proof (wf_graph _ _ _ Hwf) as Hgo.
  assert (∀ n, n ∈ b0 ↔ n ∈ C) as Hb.
  { intros n. rewrite (bo_in _ _ (wf_buckets _ _ _ Hwf) n 0 b0 Hb0). split; [tauto|]. intros Hn.
    split; [done|]. rewrite (wf_degrees _ _ _ Hwf n Hn). by rewrite Hzero. }
  match goal with |- context [sfor b0 ?body u] =>
    destruct (sfor_inv body (λ done t, ∃ o, t = back (p_adj u) o u ∧
      (∀ n, n ∉ done → o !! n = p_opt u !! n) ∧
      ∀ n, n ∈ done → ∃ k, o !! n = Some k ∧ k < length (rcs u n) ∧
        ∀ j, j < length (rcs u n) → (cst u n k ≤ cst u n j)%Z) b0 u) as (t & Ht & o & -> & Hout & Hin) end.
  - exists (p_opt u). split; [by destruct u|]. split; [done|]. by intros n ?%elem_of_nil.
  - intros pre n rest t Hl (o & -> & Hout & Hin).
    assert (n ∈ C) as Hn by (apply Hb; rewrite Hl; set_solver).
    destruct (go_rec _ _ Hgo n Hn) as [Hr Hne].
    destruct (best_index_ok _ Hne) as (k & x & Hk & Hx & Hbest).
    unfold sbind. rewrite (rec_of_Some (back (p_adj u) o u) n _ Hr). unfold slift. rewrite Hk.
    unfold set_opt, smod. eexists. split; [done|]. exists (<[n := k]> o). split; [done|]. split.
    + intros m Hm. rewrite lookup_insert_ne by set_solver. apply Hout. set_solver.
    + intros m Hm. destruct (decide (m = n)) as [->|Hmn].
      * exists k. rewrite lookup_insert_eq. split; [done|]. split; [by eapply lookup_lt_Some|].
        intros j Hj. unfold cst. rewrite Hx. destruct (lookup_lt_is_Some_2 _ _ Hj) as [y Hy]. rewrite Hy.
        apply Hbest. by eapply list_elem_of_lookup_2.
      * rewrite lookup_insert_ne by done. apply Hin. set_solver.
  - exists o. split; [exact Ht|]. split.
    + split_and!; [|done|].
      * intros n Hn. split; [rewrite (go_adj _ _ Hgo n Hn); by eexists|].
        destruct (Hin n) as (k & Hk & Hlt & _); [by apply Hb|]. by exists k.
      * intros n Hn. apply Hout. by rewrite Hb.
    + intros g Hg. apply zsum_le. intros n Hn. unfold node_term, links. rewrite (Hzero n Hn). csimpl.
      destruct (Hin n) as (k & Hk & _ & Hbest); [by apply Hb|]. unfold choice. rewrite Hk. simpl.
      specialize (Hbest (g n) (Hg n Hn)). lia.
Qed.

Lemma reductions_lower D s A vs u C : reductions D s A vs u C → wf s A D → p_is_optimal u = true →
  ∀ g, valid s A g → (total u C g ≤ total s A g)%Z ∧ valid u C g.
Proof.
  induction 1 as [s A|s A v t B vs u C Her Hreds IH|s A v t B vs u C Hfix Hreds IH]; intros Hwf Hopt g Hg; [done|..].
  - pose proof (er_reduced _ _ _ _ _ _ Her) as Hred.
    destruct (IH (red_wf _ _ _ _ _ _ Hred) Hopt g) as [Hle Hv].
    + intros n Hn. rewrite (red_length _ _ _ _ _ _ Hred). apply Hg.
      rewrite (red_perm _ _ _ _ _ _ Hred). by right.
    + split; [|done]. etrans; [exact Hle|]. eapply er_lower; [apply (wf_graph _ _ _ Hwf)|done..].
  - destruct Hfix as (_ & Hflag & _). by rewrite (reductions_suboptimal _ _ _ _ _ _ Hreds Hflag) in Hopt.
Qed.

(** From a well-formed graph, with as much fuel as it has nodes, the passes end and
    give every node one of its records, except where the greedy choice finds no
    record below [INVALID_LAYOUT_TIME] and raises.  When the result is flagged as
    optimal and some choice is cheaper than the invalid cost, then no choice is
    cheaper than the result.  On a graph of degree at most 2 the flag is kept. *)
Lemma pbqp_solves fuel s A :
  wf s A A → p_stack s = [] → p_opt s = ∅ → length A < fuel →
  (2 < p_max_degree s)%Z ∧ (∃ t, (let! _ := forward fuel in backward) s = (Raise RuntimeError, t)) ∨
  ∃ t, (let! _ := forward fuel in backward) s = (Ret tt, t) ∧
    (∀ n, n ∈ A → ∃ i, p_opt t !! n = Some i ∧ i < length (rcs s n)) ∧
    ((p_max_degree s ≤ 2)%Z → p_is_optimal t = p_is_optimal s) ∧
    (p_is_optimal t = true → (∃ g, valid s A g ∧ (total s A g < 2 * INV)%Z) →
     ∀ g, valid s A g → (total s A (choice (p_opt t)) ≤ total s A g)%Z).
Proof.
  intros Hwf Hstack Hopt Hfuel.
  destruct (forward_ok A fuel s A Hwf ltac:(done) Hfuel) as [[Hmax (t & Ht)]|(u & C & vs & Hu & Hreds & HwfC & Hzero & Hkeep)].
  { left. split; [done|]. exists t. unfold sbind. by rewrite Ht. }
  right. destruct (reductions_frame _ _ _ _ _ _ Hreds) as (Hlen & Hst & _). rewrite Hstack in Hst. simpl in Hst.
  pose proof (wf_max _ _ _ HwfC) as Hmax.
  destruct (lookup_lt_is_Some_2 (p_buckets u) 0) as [b0 Hb0]; [lia|].
  destruct (backward_roots_ok u C A b0 HwfC Hzero Hb0) as (o0 & Ho0 & Hback0 & Hroots).
  destruct (backward_stack_ok _ _ _ _ _ _ Hreds Hwf) with (a0 := p_adj u) (o0 := o0)
    as (a & o & Hs & Hback & Htot); [done| |done|].
  { intros n _. by rewrite Hopt. }
  exists (back a o u). split; [|split; [|split; [done|]]].
  - unfold sbind at 1. rewrite Hu. unfold backward, sbind at 1, sget at 1. unfold sbind at 1, slift at 1.
    rewrite (lnth_Some _ _ _ Hb0). unfold sbind at 1. rewrite Ho0. unfold sbind, sget.
    simpl. rewrite Hst. exact Hs.
  - intros n Hn. destruct Hback as (Hin & _). destruct (Hin n Hn) as (_ & i & Hi & Hlt). exists i.
    split; [done|]. by rewrite <-Hlen.
  - simpl. intros Hflag (g0 & Hg0 & Hlt0) g Hg.
    destruct (reductions_lower _ _ _ _ _ _ Hreds Hwf Hflag g0 Hg0) as [Hle0 Hv0].
    destruct (reductions_lower _ _ _ _ _ _ Hreds Hwf Hflag g Hg) as [Hle Hv].
    pose proof (Hroots g0 Hv0). pose proof (Hroots g Hv). rewrite Htot by (done || lia). lia.
Qed.
End Passes.
