(* ===== verification/PbqpRun.v ===== *)
(** * From a graph to the state of the PBQP tuner

    The constructor of the tuner and the preparation of the matrices in [run]
    give a well-formed state whose cost is twice the estimated time of the graph,
    so that [run] minimises this time. *)

From S2P Require Import Prelude Pbqp PbqpEnergy PbqpState PbqpReduce PbqpSpec.

(** ** Lists and dictionaries *)

Lemma pfold_inv {A B} (f : A → B → py A) (P : list B → A → Prop) (l : list B) a :
  P [] a →
  (∀ pre x rest b, l = pre ++ x :: rest → P pre b → ∃ b', f b x = Ret b' ∧ P (pre ++ [x]) b') →
  ∃ a', pfold f a l = Ret a' ∧ P l a'.
Proof.
  intros H0 Hstep. assert (∀ post pre b, l = pre ++ post → P pre b →
    ∃ a', pfold f b post = Ret a' ∧ P l a') as Hgen.
  { induction post as [|x post IH]; intros pre b Hl HP; simpl.
    - exists b. rewrite app_nil_r in Hl. by subst.
    - destruct (Hstep pre x post b Hl HP) as (b' & -> & HP'). apply (IH (pre ++ [x])); [|done].
      by rewrite <-app_assoc. }
  by apply (Hgen l [] a).
Qed.

Lemma list_to_map_od {V} (d : list (nat * V)) k : (list_to_map d : gmap nat V) !! k = od_get d k.
Proof.
  induction d as [|[k' v] d IH]; csimpl; [done|]. case_decide as Hk.
  - subst. by rewrite lookup_insert_eq.
  - by rewrite lookup_insert_ne.
Qed.

Lemma od_get_map {V W} (f : nat → V → W) (d : list (nat * V)) k :
  od_get ((λ '(n, v), (n, f n v)) <$> d) k = f k <$> od_get d k.
Proof. induction d as [|[k' v] d IH]; csimpl; [done|]. case_decide; [by subst|done]. Qed.

(** Summing over pairs in either order. *)
Lemma zsum_swap {A B} (f : A → B → Z) (l : list A) (k : list B) :
  zsum ((λ x, zsum (f x <$> k)) <$> l) = zsum ((λ y, zsum ((λ x, f x y) <$> l)) <$> k).
Proof.
  induction l as [|x l IH]; csimpl.
  - symmetry. clear. induction k as [|y k IH]; csimpl; [done|]. by rewrite IH.
  - rewrite IH, <-zsum_plus. done.
Qed.

Lemma foldl_max_le (l : list Z) : ∀ a x, x = a ∨ x ∈ l → (x ≤ foldl Z.max a l)%Z.
Proof.
  induction l as [|y l IH]; intros a x [->|Hx]; simpl; try lia.
  - by apply elem_of_nil in Hx.
  - etrans; [|by apply IH; left]. lia.
  - apply elem_of_cons in Hx as [->|Hx]; [|by apply IH; right]. etrans; [|by apply IH; left]. lia.
Qed.

Section Run.
Context `{CostOps, !CostOk}.

Abbreviation matrix := (list (list num)).

(** ** The input of the tuner *)

Definition inputs_of (ins : list (nat * list nat)) (n : nat) : list nat := default [] (od_get ins n).
Definition outputs_of (g : gt_graph) (n : nat) : list nat := default [] (od_get (out_nodes g) n).
Definition costs_of (g : gt_graph) (n : nat) : list num :=
  match candidate_costs g n with Ret c => c | Raise _ => [] end.

(** A graph in topological order whose inputs and outputs agree, with candidates
    for every node.  [ins] are the inputs without the boundary nodes. *)
Record inputs_ok (g : gt_graph) (ins : list (nat * list nat)) : Prop := {
  in_drop : drop_boundary g = Ret ins;
  in_some : ins ≠ [];
  in_keys : NoDup ins.*1;
  in_nodup n : NoDup (inputs_of ins n);
  in_order n m : m ∈ inputs_of ins n → m < n ∧ m ∈ ins.*1 ∧ boundary g m = false;
  in_outs n : n ∈ ins.*1 → is_Some (od_get (out_nodes g) n) ∧ NoDup (outputs_of g n) ∧
    ∀ m, m ∈ outputs_of g n ↔ n ∈ inputs_of ins m;
  in_costs n : n ∈ ins.*1 → candidate_costs g n = Ret (costs_of g n) ∧ costs_of g n ≠ [];
  in_nonneg n x : x ∈ costs_of g n → (0 ≤ val x)%Z
}.

Lemma inputs_key ins n m : m ∈ inputs_of ins n → n ∈ ins.*1.
Proof.
  unfold inputs_of. intros Hm. apply od_key_iff. destruct (od_get ins n); [by eexists|].
  by apply elem_of_nil in Hm.
Qed.

(** ** The constructor *)

Definition degree_of (g : gt_graph) (ins : list (nat * list nat)) (n : nat) : nat :=
  length (inputs_of ins n ++ outputs_of g n).

(** The state that the constructor returns. *)
Record initial (g : gt_graph) (ins : list (nat * list nat)) (s : pbqp) : Prop := {
  ini_adj n : n ∈ ins.*1 → p_adj s !! n = Some (inputs_of ins n ++ outputs_of g n);
  ini_rec n : n ∈ ins.*1 → p_rec s !! n = Some (costs_of g n);
  ini_degree n : n ∈ ins.*1 → p_degree s !! n = Some (degree_of g ins n);
  ini_buckets : buckets_ok s (λ n, n ∈ ins.*1);
  ini_two : 2 ≤ length (p_buckets s);
  ini_stack : p_stack s = [];
  ini_opt : p_opt s = ∅;
  ini_optimal : p_is_optimal s = true
}.

(** The loop that fills the buckets. *)
Lemma fill_buckets (adj : gmap nat (list nat)) (deg : nat → nat) (nodes : list nat) size :
  NoDup nodes →
  (∀ n, n ∈ nodes → ∃ l, adj !! n = Some l ∧ length l = deg n ∧ deg n < size) →
  ∃ b, pfold (λ b node_idx,
      let? l := dget adj node_idx in
      let? old := lnth b (length l) in
      lset b (length l) (old ++ [node_idx])) (replicate size []) nodes = Ret b ∧
    length b = size ∧
    (∀ d q, b !! d = Some q → NoDup q ∧ ∀ n, n ∈ q ↔ n ∈ nodes ∧ deg n = d).
Proof.
  intros Hnd Hadj.
  match goal with |- context [pfold ?f ?a _] =>
    destruct (pfold_inv f (λ done b, length b = size ∧
      ∀ d q, b !! d = Some q → q = filter (λ n, deg n = d) done) nodes a) as (b & Hb & Hlen & Hq) end.
  - split; [by rewrite length_replicate|]. intros d q Hd. by apply lookup_replicate_1 in Hd as [-> _].
  - intros pre n rest b Hl [Hlen Hq].
    destruct (Hadj n) as (l & Hn & Hdeg & Hlt); [rewrite Hl; set_solver|].
    rewrite (dget_Some _ _ _ Hn). cbn [pbind]. rewrite Hdeg.
    destruct (lookup_lt_is_Some_2 b (deg n)) as [old Hold]; [lia|].
    rewrite (lnth_Some _ _ _ Hold). cbn [pbind]. rewrite lset_in by lia. eexists. split; [done|].
    split; [by rewrite length_insert|]. intros d q Hd. rewrite filter_app, filter_cons, filter_nil.
    apply list_lookup_insert_Some in Hd as [(<- & <- & _)|[Hne Hd]].
    + rewrite decide_True by done. by rewrite <-(Hq _ _ Hold).
    + rewrite decide_False by done. rewrite app_nil_r. by apply Hq.
  - exists b. split; [done|]. split; [done|]. intros d q Hd. rewrite (Hq d q Hd).
    split; [by apply NoDup_filter|]. intros n. rewrite list_elem_of_filter. tauto.
Qed.

Lemma pbqp_init_ok g ins : inputs_ok g ins → ∃ s, pbqp_init g = Ret (s, ins) ∧ initial g ins s.
Proof.
  intros Hok. unfold pbqp_init. rewrite (in_drop _ _ Hok). cbn [pbind].
  rewrite (pymap_total _ (λ '(n, l), (n, (λ k l, l ++ outputs_of g k) n l))).
  2: { intros [n l] Hn. destruct (in_outs _ _ Hok n) as [[o Ho] _].
       { by apply (list_elem_of_fmap_2 fst) in Hn. }
       unfold od_at, outputs_of. by rewrite Ho. }
  cbn [pbind]. rewrite (pymap_total _ (λ '(n, l), (n, (λ k (_ : list nat), costs_of g k) n l))).
  2: { intros [n l] Hn. destruct (in_costs _ _ Hok n) as [-> _]; [|done].
       by apply (list_elem_of_fmap_2 fst) in Hn. }
  cbn [pbind]. set (adj := (λ '(n, l), (n, _)) <$> ins).
  assert (∀ n, n ∈ ins.*1 → od_get ins n = Some (inputs_of ins n)) as Hget.
  { intros n Hn. unfold inputs_of. apply od_key_iff in Hn as [l ->]. done. }
  assert (∀ n, n ∈ ins.*1 → od_get adj n = Some (inputs_of ins n ++ outputs_of g n)) as Hadj.
  { intros n Hn. unfold adj. by rewrite od_get_map, Hget. }
  set (degs := prod_map id length <$> adj).
  assert (∀ n, od_get degs n = length <$> od_get adj n) as Hdegs.
  { intros n. clear. unfold degs. induction adj as [|[k l] d IH]; csimpl; [done|]. case_decide; done. }
  set (md := foldl Z.max (-1)%Z (Z.of_nat <$> degs.*2)).
  assert (∀ n, n ∈ ins.*1 → (Z.of_nat (degree_of g ins n) ≤ md)%Z) as Hmax.
  { intros n Hn. apply foldl_max_le. right. apply list_elem_of_fmap_2.
    apply (list_elem_of_fmap_2 snd degs (n, _)), od_get_elem. by rewrite Hdegs, Hadj. }
  assert (0 ≤ md)%Z as Hmd.
  { destruct ins as [|[n l] ins'] eqn:E; [by destruct (in_some _ _ Hok)|].
    specialize (Hmax n). etrans; [|apply Hmax]; [lia|]. csimpl. left. }
  assert (sorted_nodes ins.*1 ≡ₚ ins.*1) as Hperm by apply merge_sort_Permutation.
  destruct (fill_buckets (list_to_map adj) (degree_of g ins) (sorted_nodes ins.*1) (Z.to_nat (md + 2)))
    as (b & Hb & Hlen & Hq).
  { rewrite Hperm. apply (in_keys _ _ Hok). }
  { intros n Hn. rewrite Hperm in Hn. eexists. rewrite list_to_map_od, Hadj by done. split; [done|].
    split; [done|]. specialize (Hmax n Hn). lia. }
  fold degs. fold md. rewrite Hb. cbn [pbind]. eexists. split; [done|]. split; try done; simpl.
  - intros n Hn. by rewrite list_to_map_od, Hadj.
  - intros n Hn. by rewrite list_to_map_od, od_get_map, Hget.
  - intros n Hn. by rewrite list_to_map_od, Hdegs, Hadj.
  - split; simpl.
    + intros d q Hd. by apply (Hq d q).
    + intros n d q Hd. destruct (Hq d q Hd) as [_ Hin]. rewrite Hin, Hperm, list_to_map_od, Hdegs.
      split; [intros [Hn <-]; split; [done|]; by rewrite Hadj|].
      intros [Hn Hs]. split; [done|]. rewrite Hadj in Hs by done. by simplify_eq/=.
    + intros n Hn. exists (degree_of g ins n). rewrite list_to_map_od, Hdegs, Hadj by done.
      split; [done|]. specialize (Hmax n Hn). lia.
    + lia.
  - lia.
Qed.

(** ** Reversed matrices *)

Lemma omap_lookup_total {A B} (f : A → option B) (l : list A) i :
  (∀ x, x ∈ l → is_Some (f x)) → omap f l !! i = l !! i ≫= f.
Proof.
  revert i. induction l as [|x l IH]; intros i Hf; [done|]. csimpl.
  destruct (Hf x) as [y Hy]; [left|]. rewrite Hy. destruct i as [|i]; csimpl; [done|].
  apply IH. intros z Hz. apply Hf. by right.
Qed.

(** One row adds one cost to every row of the reverse. *)
Lemma reverse_row (r : matrix) (row : list num) :
  length r = length row →
  ∃ r', pfold (λ r '(j, ltf), let? l := lnth r j in lset r j (l ++ [ltf])) r (enumerate row) = Ret r' ∧
    length r' = length r ∧
    ∀ j l x, r !! j = Some l → row !! j = Some x → r' !! j = Some (l ++ [x]).
Proof.
  intros Hlen.
  match goal with |- context [pfold ?f r _] =>
    destruct (pfold_enumerate_inv f (λ k r', length r' = length r ∧
      ∀ j l x, r !! j = Some l → row !! j = Some x →
        r' !! j = Some (if decide (j < k) then l ++ [x] else l)) row r) as (r' & Hr & Hl & Hin) end.
  - split; [done|]. intros j l x Hj _. by rewrite decide_False by lia.
  - intros i x b Hx [Hb Hin]. pose proof (lookup_lt_Some _ _ _ Hx).
    destruct (lookup_lt_is_Some_2 r i) as [l Hl]; [lia|].
    specialize (Hin i l x Hl Hx) as Hi. rewrite decide_False in Hi by lia.
    rewrite (lnth_Some _ _ _ Hi). cbn [pbind]. rewrite lset_in by lia. eexists. split; [done|].
    split; [by rewrite length_insert|]. intros j l' x' Hj Hx'. destruct (decide (j = i)) as [->|Hne].
    + rewrite list_lookup_insert_eq by lia. rewrite decide_True by lia. by simplify_eq.
    + rewrite list_lookup_insert_ne by done. rewrite (Hin j l' x' Hj Hx').
      destruct (decide (j < i)), (decide (j < i + 1)); (done || lia).
  - exists r'. split; [done|]. split; [done|]. intros j l x Hj Hx. rewrite (Hin j l x Hj Hx).
    rewrite decide_True; [done|]. by eapply lookup_lt_Some.
Qed.

Lemma reverse_matrix_ok M r c :
  is_matrix M r c → 0 < r →
  ∃ R, reverse_matrix M = Ret R ∧ is_matrix R c r ∧ ∀ i j, entry R j i = entry M i j.
Proof.
  intros HM Hr. destruct (lookup_lt_is_Some_2 M 0) as [row0 Hrow0]; [by rewrite (proj1 HM)|].
  unfold reverse_matrix. rewrite (lnth_Some _ _ _ Hrow0). cbn [pbind]. rewrite (proj2 HM _ _ Hrow0).
  match goal with |- context [pfold ?f ?a M] =>
    destruct (pfold_inv f (λ done R, length R = c ∧ ∀ j, j < c → R !! j = Some (omap (.!! j) done)) M a)
      as (R & HR & Hlen & Hin) end.
  - split; [by rewrite length_replicate|]. intros j Hj. by apply lookup_replicate_2.
  - intros pre row rest R Hl [Hlen Hin].
    assert (length row = c) as Hc.
    { apply (proj2 HM (length pre)). rewrite Hl. by apply list_lookup_middle. }
    destruct (reverse_row R row) as (R' & HR' & Hlen' & Hin'); [lia|]. exists R'. split; [exact HR'|].
    split; [lia|]. intros j Hj. destruct (lookup_lt_is_Some_2 row j) as [x Hx]; [lia|].
    rewrite (Hin' j _ x (Hin j Hj) Hx), omap_app. csimpl. by rewrite Hx.
  - assert (∀ j, j < c → ∀ row, row ∈ M → is_Some (row !! j)) as Hsome.
    { intros j Hj row [i Hi]%list_elem_of_lookup. apply lookup_lt_is_Some_2. by rewrite (proj2 HM _ _ Hi). }
    assert (∀ i j, j < c → R !! j ≫= (.!! i) = M !! i ≫= (.!! j)) as Hent.
    { intros i j Hj. rewrite (Hin j Hj). csimpl. rewrite omap_lookup_total; [done|]. by apply Hsome. }
    exists R. split; [done|]. split; [split; [done|]|].
    + intros j col Hj. pose proof (lookup_lt_Some _ _ _ Hj) as Hjc. rewrite Hlen in Hjc.
      rewrite (Hin j Hjc) in Hj. simplify_eq. rewrite <-(proj1 HM). clear -Hsome Hjc.
      induction M as [|row M IH]; [done|]. csimpl.
      destruct (Hsome j Hjc row) as [x ->]; [left|]. csimpl. f_equal. apply IH. intros j' Hj' row' Hrow'.
      apply Hsome; [done|by right].
    + intros i j. destruct (decide (j < c)) as [Hj|Hj]; [unfold entry; by rewrite Hent|].
      rewrite (entry_outside M r c) by (done || lia). unfold entry.
      by rewrite lookup_ge_None_2 by lia.
Qed.

(** The tables of reversed entries: new objects, one per entry. *)
Record reversed_from (h0 : gmap nat matrix) (done : list ((nat * nat) * nat))
    (temp : gmap (nat * nat) nat) (h : gmap nat matrix) : Prop := {
  rev_heap : h0 ⊆ h;
  rev_keys a b : is_Some (temp !! (b, a)) ↔ (a, b) ∈ done.*1;
  rev_entry a b id : (a, b, id) ∈ done → ∃ i M R, temp !! (b, a) = Some i ∧ h !! i = Some R ∧
    h0 !! id = Some M ∧ reverse_matrix M = Ret R;
  rev_new k i : temp !! k = Some i → h0 !! i = None ∧ is_Some (h !! i);
  rev_inj k k' i : temp !! k = Some i → temp !! k' = Some i → k = k'
}.

Lemma reverse_entries_ok items : ∀ pre temp s h0,
  NoDup (pre ++ items).*1 → reversed_from h0 pre temp (p_heap s) →
  (∀ k id, (k, id) ∈ items → ∃ M R, h0 !! id = Some M ∧ reverse_matrix M = Ret R) →
  ∃ temp' h, reverse_entries items temp s = (Ret temp', with_heap h s) ∧ reversed_from h0 (pre ++ items) temp' h.
Proof.
  induction items as [|[[a b] id] items IH]; intros pre temp s h0 Hnd Hrev Hitems; csimpl.
  { exists temp, (p_heap s). rewrite app_nil_r. split; [by destruct s|done]. }
  destruct (Hitems (a, b) id) as (M & R & HM & HR); [left|].
  destruct Hrev as [Hheap Hkeys Hentry Hnew Hinj].
  unfold matrix_at, sbind at 1, sbind at 1, sget at 1, slift at 1.
  rewrite (dget_Some (p_heap s) id M) by (by eapply lookup_weaken).
  unfold sbind at 1, slift at 1. rewrite HR. unfold sbind at 1, alloc, sbind at 1, sget at 1.
  set (i := fresh (dom (p_heap s))). assert (p_heap s !! i = None) as Hi.
  { apply not_elem_of_dom, is_fresh. }
  unfold set_heap, smod, sbind at 1, sret. set (s' := with_heap (<[i := R]> (p_heap s)) s).
  assert ((a, b) ∉ pre.*1) as Hfresh.
  { rewrite fmap_app in Hnd. csimpl. apply NoDup_app in Hnd as (_ & Hd & _). intros Hp. apply (Hd _ Hp). left. }
  destruct (IH (pre ++ [(a, b, id)]) (<[(b, a) := i]> temp) s' h0) as (temp' & h & Hr & Hrev').
  - by rewrite <-app_assoc.
  - split; simpl.
    + etrans; [done|]. by apply insert_subseteq.
    + intros a' b'. rewrite fmap_app, elem_of_app. csimpl. rewrite list_elem_of_singleton, <-Hkeys.
      destruct (decide ((b, a) = (b', a'))) as [[= -> ->]|Hne].
      * rewrite lookup_insert_eq. split; [by right|by eexists].
      * rewrite lookup_insert_ne by done. split; [by left|]. intros [?|[= -> ->]]; done.
    + intros a' b' id' [Hin|Hin]%elem_of_app.
      * destruct (Hentry a' b' id' Hin) as (i' & M' & R' & Ht & Hh & ? & ?). exists i', M', R'.
        apply (list_elem_of_fmap_2 fst) in Hin. rewrite !lookup_insert_ne; [done|congruence|].
        intros [= <- <-]. done.
      * apply list_elem_of_singleton in Hin as [= -> -> ->]. exists i, M, R.
        by rewrite !lookup_insert_eq.
    + intros k j. rewrite lookup_insert_Some. intros [[_ <-]|[_ Hk]].
      * split; [|rewrite lookup_insert_eq; by eexists]. by eapply lookup_weaken_None.
      * destruct (Hnew k j Hk) as [? [x Hx]]. split; [done|]. rewrite lookup_insert_ne by congruence. by exists x.
    + intros k k' j. rewrite !lookup_insert_Some.
      intros [[<- <-]|[? Hk]] [[<- Hj]|[? Hk']]; try done; [| |by eapply Hinj].
      * destruct (Hnew k' i Hk') as [_ [x Hx]]. congruence.
      * subst j. destruct (Hnew k i Hk) as [_ [x Hx]]. congruence.
  - intros k id' Hin. apply (Hitems k id'). by right.
  - exists temp', h. rewrite Hr. rewrite <-app_assoc in Hrev'. done.
Qed.

(** ** Nodes with several inputs *)

Section Entries.
Context (g : gt_graph) (ins : list (nat * list nat)) (mats : gmap nat matrix) (pairs : gmap (nat * nat) nat).

(** The pair whose matrix stands for the edge from [m] to [n]: the edge itself, or
    for a node with several inputs the pair of the input and the first input.  The
    first input itself gets a new matrix. *)
Definition source (m n : nat) : option (nat * nat) :=
  if multiple_inputs g n then
    match inputs_of ins n with
    | t :: _ => if decide (m = t) then None else Some (m, t)
    | [] => None
    end
  else Some (m, n).

(** The cost of the transformations along an edge. *)
Definition input_matrix (m n : nat) : matrix :=
  match source m n with
  | None => same_choice (length (costs_of g m))
  | Some k => default [] (pairs !! k ≫= (mats !!.))
  end.

(** What the benchmark of the transformations provides: a full matrix for every
    recorded pair, one for every edge, not the same one for two edges, and none
    in the direction against an edge. *)
Record entries_ok : Prop := {
  en_rect k id : pairs !! k = Some id → ∃ M r c, mats !! id = Some M ∧ is_matrix M r c ∧ 0 < r;
  en_has m n k : m ∈ inputs_of ins n → source m n = Some k → is_Some (pairs !! k);
  en_mat m n : m ∈ inputs_of ins n →
    is_matrix (input_matrix m n) (length (costs_of g m)) (length (costs_of g n)) ∧
    ∀ i j, (0 ≤ entry (input_matrix m n) i j)%Z;
  en_distinct m n m' n' k k' : m ∈ inputs_of ins n → m' ∈ inputs_of ins n' →
    source m n = Some k → source m' n' = Some k' → pairs !! k = pairs !! k' → (m, n) = (m', n');
  en_forward m n : m ∈ inputs_of ins n → pairs !! (n, m) = None
}.

(** The estimated time of a choice: the nodes and the transformations between
    them. *)
Definition graph_time (f : nat → nat) : Z :=
  zsum ((λ n, match costs_of g n !! f n with Some x => val x | None => 0%Z end +
    zsum ((λ m, entry (input_matrix m n) (f m) (f n)) <$> inputs_of ins n))%Z <$> ins.*1).

(** The entries for the edges into the nodes [done]. *)
Record virtual_ok (done : list nat) (temp : gmap (nat * nat) nat) (h : gmap nat matrix) : Prop := {
  vi_heap : mats ⊆ h;
  vi_key m n i : temp !! (m, n) = Some i → n ∈ done ∧ m ∈ inputs_of ins n ∧ multiple_inputs g n = true;
  vi_some m n k : n ∈ done → m ∈ inputs_of ins n → source m n = Some k → (temp ∪ pairs) !! (m, n) = pairs !! k;
  vi_none m n : n ∈ done → m ∈ inputs_of ins n → source m n = None →
    ∃ i, temp !! (m, n) = Some i ∧ mats !! i = None ∧ h !! i = Some (same_choice (length (costs_of g m)));
  vi_inj k k' i : temp !! k = Some i → temp !! k' = Some i → mats !! i = None → k = k'
}.

Context (Hin : inputs_ok g ins) (Hen : entries_ok).

Lemma source_multiple m n k : multiple_inputs g n = true → source m n = Some k →
  ∃ t rest, inputs_of ins n = t :: rest ∧ k = (m, t) ∧ m ≠ t.
Proof.
  unfold source. intros ->. destruct (inputs_of ins n) as [|t rest]; [done|]. case_decide; [done|].
  intros [= <-]. by exists t, rest.
Qed.

(** The pairs of the other inputs of a node. *)
Lemma other_inputs_ok (n t : nat) (rest : list nat) (temp0 : gmap (nat * nat) nat) :
  inputs_of ins n = t :: rest → multiple_inputs g n = true →
  ∃ temp, pfold (λ temp input_idx,
      if boundary g input_idx then Ret temp else
      let? id := dget pairs (input_idx, t) in Ret (<[(input_idx, n) := id]> temp)) temp0 rest = Ret temp ∧
    (∀ m, m ∈ rest → temp !! (m, n) = pairs !! (m, t)) ∧
    ∀ m k, ¬ (k = n ∧ m ∈ rest) → temp !! (m, k) = temp0 !! (m, k).
Proof.
  intros Hn Hmul. pose proof (in_nodup _ _ Hin n) as Hnd. rewrite Hn in Hnd.
  match goal with |- context [pfold ?f _ _] =>
    destruct (pfold_inv f (λ pre temp, (∀ m, m ∈ pre → temp !! (m, n) = pairs !! (m, t)) ∧
      ∀ m k, ¬ (k = n ∧ m ∈ pre) → temp !! (m, k) = temp0 !! (m, k)) rest temp0) as (temp & Ht & Hp) end.
  - split; [by intros m ?%elem_of_nil|done].
  - intros pre m post temp Hl [Hpre Hout].
    assert (m ∈ inputs_of ins n) as Hm by (rewrite Hn, Hl; set_solver).
    destruct (in_order _ _ Hin n m Hm) as (_ & _ & ->).
    assert (m ≠ t) as Hmt.
    { intros ->. apply NoDup_cons in Hnd as [Ht _]. apply Ht. rewrite Hl. set_solver. }
    destruct (en_has Hen m n (m, t)) as [id Hid]; [done| |].
    { unfold source. by rewrite Hmul, Hn, decide_False. }
    rewrite (dget_Some _ _ _ Hid). cbn [pbind]. eexists. split; [done|]. split.
    + intros m' Hm'. destruct (decide (m' = m)) as [->|Hne]; [by rewrite lookup_insert_eq|].
      rewrite lookup_insert_ne by congruence. apply Hpre. set_solver.
    + intros m' k Hk. rewrite lookup_insert_ne; [apply Hout; set_solver|].
      intros [= <- <-]. apply Hk. split; [done|set_solver].
  - by exists temp.
Qed.

(** A node that has no entries of its own. *)
Lemma virtual_skip n done temp h :
  virtual_ok done temp h → (∀ m, m ∈ inputs_of ins n → multiple_inputs g n = false) →
  virtual_ok (n :: done) temp h.
Proof.
  intros [Hheap Hkey Hsome Hnone Hinj] Hmul. split; [done| | | |done].
  - intros m k i Ht. destruct (Hkey m k i Ht) as [? ?]. split; [by right|done].
  - intros m k q Hk Hm Hq. destruct (decide (k = n)) as [->|Hkn]; [|apply Hsome; set_solver].
    specialize (Hmul m Hm). unfold source in Hq. rewrite Hmul in Hq. simplify_eq. apply lookup_union_r.
    destruct (temp !! (m, n)) as [i|] eqn:E; [|done]. destruct (Hkey _ _ _ E) as (_ & _ & ?). congruence.
  - intros m k Hk Hm Hq. destruct (decide (k = n)) as [->|Hkn]; [|apply Hnone; set_solver].
    specialize (Hmul m Hm). unfold source in Hq. by rewrite Hmul in Hq.
Qed.

Lemma virtual_entries_ok n done temp s :
  p_ltf s = pairs → n ∈ ins.*1 → n ∉ done → virtual_ok done temp (p_heap s) →
  ∃ temp' h, virtual_entries g n (inputs_of ins n) temp s = (Ret temp', with_heap h s) ∧
    virtual_ok (n :: done) temp' h.
Proof.
  intros HL Hn Hnew Hv. pose proof Hv as [Hheap Hkey Hsome Hnone Hinj]. unfold virtual_entries.
  destruct (multiple_inputs g n) eqn:Hmul; csimpl.
  2: { exists temp, (p_heap s). split; [by destruct s|]. by apply virtual_skip. }
  destruct (inputs_of ins n) as [|t rest] eqn:Hi; csimpl.
  { exists temp, (p_heap s). split; [by destruct s|]. apply virtual_skip; [done|].
    rewrite Hi. by intros m ?%elem_of_nil. }
  assert (t ∈ inputs_of ins n) as Ht by (rewrite Hi; left).
  destruct (in_order _ _ Hin n t Ht) as (_ & Htk & Htb). rewrite decide_True by done.
  destruct (in_costs _ _ Hin t Htk) as [Hct _].
  unfold sbind at 1, slift at 1. rewrite Hct. unfold sbind at 1, alloc, sbind at 1, sget at 1.
  set (i := fresh (dom (p_heap s))). assert (p_heap s !! i = None) as Hi'.
  { apply not_elem_of_dom, is_fresh. }
  unfold set_heap, smod, sbind at 1, sret, sbind, sget, slift. csimpl. rewrite HL, drop_0.
  pose proof (in_nodup _ _ Hin n) as Hnd. rewrite Hi in Hnd. apply NoDup_cons in Hnd as [Htr _].
  destruct (other_inputs_ok n t rest (<[(t, n) := i]> temp)) as (temp' & -> & Hrest & Hout); [done|done|].
  set (h := <[i := same_choice (length (costs_of g t))]> (p_heap s)).
  assert (∀ m k, k ≠ n → temp' !! (m, k) = temp !! (m, k)) as Hother.
  { intros m k Hk. rewrite Hout by (by intros [? _]). apply lookup_insert_ne. congruence. }
  assert (temp' !! (t, n) = Some i) as Htn.
  { rewrite Hout by (by intros [_ ?]). by rewrite lookup_insert_eq. }
  assert (∀ m j, temp' !! (m, n) = Some j → m = t ∧ j = i ∨ m ∈ rest ∧ pairs !! (m, t) = Some j) as Hat.
  { intros m j Hj. destruct (decide (m ∈ rest)) as [Hm|Hm]; [right; by rewrite <-Hrest|left].
    destruct (decide (m = t)) as [->|Hmt]; [by simplify_eq|]. rewrite Hout in Hj by (by intros [_ ?]).
    rewrite lookup_insert_ne in Hj by congruence. by destruct (Hkey _ _ _ Hj). }
  assert (∀ k j, pairs !! k = Some j → is_Some (mats !! j)) as HLH.
  { intros k j Hj. destruct (en_rect Hen k j Hj) as (M & _ & _ & HM & _). by exists M. }
  exists temp', h. split; [by destruct s|]. split.
  - etrans; [done|]. by apply insert_subseteq.
  - intros m k j Hj. destruct (decide (k = n)) as [->|Hkn].
    + split; [left|]. split; [|done]. rewrite Hi. destruct (Hat m j Hj) as [[-> _]|[? _]]; [left|by right].
    + rewrite Hother in Hj by done. destruct (Hkey m k j Hj) as [? ?]. split; [by right|done].
  - intros m k q Hk Hm Hq. destruct (decide (k = n)) as [->|Hkn].
    + destruct (source_multiple m n q Hmul Hq) as (t' & rest' & Hi2 & -> & Hmt).
      rewrite Hi in Hi2. injection Hi2 as <- <-. rewrite Hi in Hm. apply elem_of_cons in Hm as [->|Hm]; [done|].
      destruct (en_has Hen m n (m, t)) as [j Hj]; [rewrite Hi; by right|done|].
      rewrite Hj. apply lookup_union_Some_l. by rewrite Hrest.
    + rewrite <-(Hsome m k q) by (done || set_solver). rewrite !lookup_union. by rewrite Hother.
  - intros m k Hk Hm Hq. destruct (decide (k = n)) as [->|Hkn].
    + unfold source in Hq. rewrite Hmul, Hi in Hq. case_decide as Hmt; [subst m|done].
      exists i. split; [done|]. split; [by eapply lookup_weaken_None|]. by apply lookup_insert_eq.
    + destruct (Hnone m k) as (j & Hj & Hj0 & Hjh); [set_solver|done|done|].
      exists j. rewrite Hother by done. split; [done|]. split; [done|].
      unfold h. rewrite lookup_insert_ne; [done|]. congruence.
  - assert (∀ k j, k ≠ (t, n) → temp' !! k = Some j → mats !! j = None → j ≠ i ∧ temp !! k = Some j) as Hold.
    { intros [m k] j Hk Hj Hj0. destruct (decide (k = n)) as [->|Hkn].
      - destruct (Hat m j Hj) as [[-> _]|[_ Hm]]; [done|]. destruct (HLH _ _ Hm). congruence.
      - rewrite Hother in Hj by done. split; [|done]. intros ->.
        destruct (Hkey m k i Hj) as (Hkd & Hmi & Hmk). destruct (source m k) as [q|] eqn:Hq.
        + assert ((temp ∪ pairs) !! (m, k) = Some i) as Hu by (by apply lookup_union_Some_l).
          rewrite (Hsome m k q Hkd Hmi Hq) in Hu. destruct (HLH _ _ Hu). congruence.
        + destruct (Hnone m k Hkd Hmi Hq) as (j & Hj' & _ & Hjh). congruence. }
    intros k k' j Hk Hk' Hj0. destruct (decide (k = (t, n))) as [->|Hne], (decide (k' = (t, n))) as [->|Hne']; try done.
    + destruct (Hold k' j Hne' Hk' Hj0). congruence.
    + destruct (Hold k j Hne Hk Hj0). congruence.
    + destruct (Hold k j Hne Hk Hj0), (Hold k' j Hne' Hk' Hj0). by eapply Hinj.
Qed.

Lemma all_virtual_entries_ok rest : ∀ pre temp s,
  ins = pre ++ rest → p_ltf s = pairs → virtual_ok (reverse pre.*1) temp (p_heap s) →
  ∃ temp' h, all_virtual_entries g rest temp s = (Ret temp', with_heap h s) ∧
    virtual_ok (reverse ins.*1) temp' h.
Proof.
  induction rest as [|[n l] rest IH]; intros pre temp s Hl HL Hv; csimpl.
  { exists temp, (p_heap s). rewrite app_nil_r in Hl. subst pre. split; [by destruct s|done]. }
  pose proof (in_keys _ _ Hin) as Hnd. rewrite Hl, fmap_app in Hnd. csimpl.
  apply NoDup_app in Hnd as (_ & Hd & _).
  assert (l = inputs_of ins n) as ->.
  { unfold inputs_of. erewrite od_elem_get; [done|apply (in_keys _ _ Hin)|]. rewrite Hl. set_solver. }
  destruct (virtual_entries_ok n (reverse pre.*1) temp s) as (temp' & h & Ht & Hv'); [done| | |done|].
  { rewrite Hl, fmap_app. set_solver. }
  { rewrite elem_of_reverse. intros Hn. apply (Hd n Hn). left. }
  unfold sbind at 1. rewrite Ht.
  destruct (IH (pre ++ [(n, inputs_of ins n)]) temp' (with_heap h s)) as (t2 & h2 & Hr & Hv2).
  - by rewrite <-app_assoc.
  - done.
  - rewrite fmap_app, reverse_app. done.
  - by exists t2, h2.
Qed.

(** [run] up to the passes. *)
Definition prepare : ST pbqp unit :=
  let! temp := all_virtual_entries g ins ∅ in
  let! _ := update_ltf temp in
  let! s := sget in
  let! temp := reverse_entries (map_to_list (p_ltf s)) ∅ in
  update_ltf temp.

Lemma run_prepare fuel s : run g ins fuel s = (let! _ := prepare in let! _ := forward fuel in backward) s.
Proof.
  unfold run, prepare, sbind. destruct (all_virtual_entries g ins ∅ s) as [[temp|] s1]; [|done].
  unfold update_ltf, smod, sget. by destruct (reverse_entries _ ∅ _) as [[temp'|] s2].
Qed.

Definition edge (a b : nat) : Prop := a ∈ inputs_of ins b ∨ b ∈ inputs_of ins a.

(** The tables after the preparation. *)
Record prepared (h : gmap nat matrix) (l : gmap (nat * nat) nat) : Prop := {
  pr_matrix m n : m ∈ inputs_of ins n → ∃ i j R,
    l !! (m, n) = Some i ∧ h !! i = Some (input_matrix m n) ∧
    l !! (n, m) = Some j ∧ h !! j = Some R ∧ reverse_matrix (input_matrix m n) = Ret R;
  pr_inj a b a' b' id : edge a b → edge a' b' → l !! (a, b) = Some id → l !! (a', b') = Some id →
    a = a' ∧ b = b'
}.

(** Every entry before the reversal is a full matrix; the edges have theirs, and
    different ones. *)
Lemma forward_entries temp h :
  virtual_ok (reverse ins.*1) temp h →
  (∀ k id, (temp ∪ pairs) !! k = Some id → ∃ M r c, h !! id = Some M ∧ is_matrix M r c ∧ 0 < r) ∧
  (∀ m n, m ∈ inputs_of ins n → (temp ∪ pairs) !! (n, m) = None) ∧
  (∀ m n, m ∈ inputs_of ins n →
    ∃ id, (temp ∪ pairs) !! (m, n) = Some id ∧ h !! id = Some (input_matrix m n)) ∧
  ∀ m n m' n' id, m ∈ inputs_of ins n → m' ∈ inputs_of ins n' →
    (temp ∪ pairs) !! (m, n) = Some id → (temp ∪ pairs) !! (m', n') = Some id → (m, n) = (m', n').
Proof.
  intros [Hheap Hkey Hsome Hnone Hinj].
  assert (∀ k id, pairs !! k = Some id → ∃ M r c, mats !! id = Some M ∧ h !! id = Some M ∧ is_matrix M r c ∧ 0 < r) as Hpairs.
  { intros k id Hk. destruct (en_rect Hen k id Hk) as (M & r & c & HM & ? & ?).
    exists M, r, c. split; [done|]. split; [by eapply lookup_weaken|done]. }
  assert (∀ m n, m ∈ inputs_of ins n → n ∈ reverse ins.*1) as Hdone.
  { intros m n Hm. rewrite elem_of_reverse. by eapply inputs_key. }
  assert (∀ m n, m ∈ inputs_of ins n → ∃ id, (temp ∪ pairs) !! (m, n) = Some id ∧
    h !! id = Some (input_matrix m n) ∧
    match source m n with
    | Some k => pairs !! k = Some id ∧ is_Some (mats !! id)
    | None => temp !! (m, n) = Some id ∧ mats !! id = None
    end) as Hedge.
  { intros m n Hm. destruct (source m n) as [k|] eqn:Hs.
    - destruct (en_has Hen m n k Hm Hs) as [id Hid]. exists id.
      rewrite (Hsome m n k (Hdone m n Hm) Hm Hs). destruct (Hpairs k id Hid) as (M & _ & _ & HM & HMh & _).
      split; [done|]. unfold input_matrix. rewrite Hs, Hid. csimpl. rewrite HM. csimpl.
      split; [done|]. split; [done|by exists M].
    - destruct (Hnone m n (Hdone m n Hm) Hm Hs) as (id & Ht & Hid & Hh). exists id.
      split; [by apply lookup_union_Some_l|]. unfold input_matrix. by rewrite Hs. }
  split; [|split; [|split]].
  - intros k id Hk. apply lookup_union_Some_raw in Hk as [Ht|[_ Hp]].
    + destruct k as [m n]. destruct (Hkey m n id Ht) as (_ & Hm & _).
      destruct (Hedge m n Hm) as (id' & Hid & Hh & _).
      assert ((temp ∪ pairs) !! (m, n) = Some id) as Hid2 by (by apply lookup_union_Some_l). simplify_eq.
      eexists _, _, _. split; [done|]. split; [by apply (en_mat Hen)|].
      destruct (in_order _ _ Hin n m Hm) as (_ & Hmk & _). destruct (in_costs _ _ Hin m Hmk) as [_ Hne].
      destruct (costs_of g m); [done|simpl; lia].
    + destruct (Hpairs k id Hp) as (M & r & c & _ & ?). by exists M, r, c.
  - intros m n Hm. apply lookup_union_None. split; [|by apply (en_forward Hen)].
    destruct (temp !! (n, m)) as [i|] eqn:E; [|done]. destruct (Hkey n m i E) as (_ & Hn & _).
    destruct (in_order _ _ Hin n m Hm) as [? _], (in_order _ _ Hin m n Hn) as [? _]. lia.
  - intros m n Hm. destruct (Hedge m n Hm) as (id & ? & ? & _). by exists id.
  - intros m n m' n' id Hm Hm' Hid Hid'.
    destruct (Hedge m n Hm) as (i & Hi & _ & Hs), (Hedge m' n' Hm') as (i' & Hi' & _ & Hs'). simplify_eq.
    destruct (source m n) as [k|] eqn:Hk, (source m' n') as [k'|] eqn:Hk'.
    + eapply (en_distinct Hen); try done. destruct Hs, Hs'. congruence.
    + destruct Hs as [_ [x Hx]], Hs' as [_ ?]. congruence.
    + destruct Hs as [_ ?], Hs' as [_ [x Hx]]. congruence.
    + destruct Hs as [Ht Hn], Hs' as [Ht' _]. by eapply Hinj.
Qed.

Lemma prepare_ok s : p_ltf s = pairs → p_heap s = mats →
  ∃ h l, prepare s = (Ret tt, with_ltf l (with_heap h s)) ∧ prepared h l.
Proof.
  intros HL HH. destruct (all_virtual_entries_ok ins [] ∅ s) as (temp & h1 & Ht & Hv); [done|done| |].
  { rewrite HH. split; [done|..]; try done; by intros m n k ?%elem_of_nil || by intros m n ?%elem_of_nil. }
  destruct (forward_entries temp h1 Hv) as (Hrect & Hback & Hfwd & Hinj).
  set (s1 := with_ltf (temp ∪ pairs) (with_heap h1 s)).
  destruct (reverse_entries_ok (map_to_list (temp ∪ pairs)) [] ∅ s1 h1) as (temp2 & h2 & Hr & Hrev).
  { apply NoDup_fst_map_to_list. }
  { split; [done|..].
    - intros a b. split; [|by intros ?%elem_of_nil]. intros [x Hx]. by rewrite lookup_empty in Hx.
    - by intros a b id ?%elem_of_nil.
    - done.
    - done. }
  { intros k id Hk. apply elem_of_map_to_list in Hk. destruct (Hrect k id Hk) as (M & r & c & HM & Hmat & Hr).
    destruct (reverse_matrix_ok M r c Hmat Hr) as (R & HR & _). by exists M, R. }
  destruct Hrev as [Hheap Hkeys Hentry Hnew Hrinj]. simpl in Hkeys, Hentry.
  assert (∀ m n, m ∈ inputs_of ins n → temp2 !! (m, n) = None) as Hmn.
  { intros m n Hm. destruct (temp2 !! (m, n)) as [i|] eqn:E; [|done].
    assert ((n, m) ∈ (map_to_list (temp ∪ pairs)).*1) as Hk by (apply Hkeys; by eexists).
    apply list_elem_of_fmap in Hk as ([k id] & Heq & Hk). apply elem_of_map_to_list in Hk.
    simpl in Heq. subst k. rewrite (Hback m n Hm) in Hk. done. }
  exists h2, (temp2 ∪ (temp ∪ pairs)). split.
  - unfold prepare, sbind at 1. rewrite Ht. unfold update_ltf at 1, smod, sbind at 1, sbind at 1, sget.
    simpl. rewrite HL. fold s1. unfold sbind. rewrite Hr. unfold update_ltf, smod. by destruct s.
  - assert (∀ m n id, m ∈ inputs_of ins n → (temp2 ∪ (temp ∪ pairs)) !! (m, n) = Some id →
      (temp ∪ pairs) !! (m, n) = Some id ∧ is_Some (h1 !! id)) as Hdown.
    { intros m n id Hm Hid. rewrite lookup_union_r in Hid by (by apply Hmn). split; [done|].
      destruct (Hfwd m n Hm) as (id' & ? & Hh). simplify_eq. by eexists. }
    assert (∀ m n id, m ∈ inputs_of ins n → (temp2 ∪ (temp ∪ pairs)) !! (n, m) = Some id →
      temp2 !! (n, m) = Some id) as Hup.
    { intros m n id Hm Hid. destruct (temp2 !! (n, m)) eqn:E.
      - by rewrite (lookup_union_Some_l _ _ _ _ E) in Hid.
      - by rewrite lookup_union_r, Hback in Hid. }
    split.
    + intros m n Hm. destruct (Hfwd m n Hm) as (i & Hi & Hh).
      destruct (Hentry m n i) as (j & M & R & Hj & HR & HM & Hrm); [by apply elem_of_map_to_list|].
      simplify_eq. exists i, j, R. rewrite lookup_union_r by (by apply Hmn). split; [done|].
      split; [by eapply lookup_weaken|]. split; [by apply lookup_union_Some_l|done].
    + intros a b a' b' id [Hab|Hab] [Hab'|Hab'] Hid Hid'.
      * destruct (Hdown _ _ _ Hab Hid) as [H1 _], (Hdown _ _ _ Hab' Hid') as [H2 _].
        by injection (Hinj _ _ _ _ _ Hab Hab' H1 H2).
      * destruct (Hdown _ _ _ Hab Hid) as [_ [x Hx]], (Hnew _ _ (Hup _ _ _ Hab' Hid')). congruence.
      * destruct (Hdown _ _ _ Hab' Hid') as [_ [x Hx]], (Hnew _ _ (Hup _ _ _ Hab Hid)). congruence.
      * by injection (Hrinj _ _ _ (Hup _ _ _ Hab Hid) (Hup _ _ _ Hab' Hid')).
Qed.

(** ** The prepared state *)

Section Ready.
Context (s : pbqp) (Hini : initial g ins s) (h : gmap nat matrix) (l : gmap (nat * nat) nat).
Context (Hpre : prepared h l).

Definition ready : pbqp := with_ltf l (with_heap h s).

Lemma nb_ready n : n ∈ ins.*1 → nb ready n = inputs_of ins n ++ outputs_of g n.
Proof. intros Hn. unfold nb. simpl. by rewrite (ini_adj _ _ _ Hini n Hn). Qed.

Lemma rcs_ready n : n ∈ ins.*1 → rcs ready n = costs_of g n.
Proof. intros Hn. unfold rcs. simpl. by rewrite (ini_rec _ _ _ Hini n Hn). Qed.

Lemma nb_edge n m : n ∈ ins.*1 → m ∈ nb ready n ↔ edge n m.
Proof.
  intros Hn. rewrite nb_ready, elem_of_app by done. destruct (in_outs _ _ Hin n Hn) as (_ & _ & ->).
  unfold edge. tauto.
Qed.

Lemma edge_keys n m : edge n m → n ∈ ins.*1 ∧ m ∈ ins.*1 ∧ n ≠ m.
Proof.
  intros [Hm|Hm]; pose proof (inputs_key _ _ _ Hm); destruct (in_order _ _ Hin _ _ Hm) as (? & ? & _);
    (split; [done|split; [done|lia]]).
Qed.

(** The matrix of an edge and its dimensions. *)
Lemma mat_ready n m : edge n m →
  (∃ id, l !! (n, m) = Some id ∧ h !! id = Some (mat ready n m)) ∧
  is_matrix (mat ready n m) (length (costs_of g n)) (length (costs_of g m)) ∧
  ∀ i j, entry (mat ready n m) i j =
    if decide (n ∈ inputs_of ins m) then entry (input_matrix n m) i j else entry (input_matrix m n) j i.
Proof.
  assert (∀ m n, m ∈ inputs_of ins n → 0 < length (costs_of g m)) as Hpos.
  { intros a b Ha. destruct (in_order _ _ Hin b a Ha) as (_ & Hk & _).
    destruct (in_costs _ _ Hin a Hk) as [_ Hne]. destruct (costs_of g a); [done|simpl; lia]. }
  intros [Hm|Hm].
  - destruct (pr_matrix _ _ Hpre n m Hm) as (i & _ & _ & Hi & Hh & _).
    assert (mat ready n m = input_matrix n m) as Heq by (unfold mat; simpl; by rewrite Hi; simpl; rewrite Hh).
    rewrite Heq. split; [by exists i|]. split; [by apply (en_mat Hen)|]. intros a b. by rewrite decide_True.
  - destruct (pr_matrix _ _ Hpre m n Hm) as (_ & j & R & _ & _ & Hj & Hh & HR).
    assert (mat ready n m = R) as Heq by (unfold mat; simpl; by rewrite Hj; simpl; rewrite Hh).
    rewrite Heq. split; [by exists j|].
    destruct (reverse_matrix_ok _ _ _ (proj1 (en_mat Hen m n Hm)) (Hpos m n Hm)) as (R' & HR' & Hmat & Hent).
    assert (R' = R) as -> by congruence. split; [exact Hmat|]. intros a b. rewrite decide_False; [apply Hent|]. intros Hm'.
    destruct (in_order _ _ Hin _ _ Hm) as [? _], (in_order _ _ Hin _ _ Hm') as [? _]. lia.
Qed.

Lemma ready_graph : graph_ok ready ins.*1.
Proof.
  split.
  - apply (in_keys _ _ Hin).
  - intros n Hn. rewrite nb_ready by done. by apply (ini_adj _ _ _ Hini).
  - intros n Hn. split; [|by intros [_ [_ ?]]%nb_edge%edge_keys].
    rewrite nb_ready by done. destruct (in_outs _ _ Hin n Hn) as (_ & Hnd & Hout). apply NoDup_app.
    split; [apply (in_nodup _ _ Hin)|]. split; [|done]. intros m Hm Hm'%Hout.
    destruct (in_order _ _ Hin _ _ Hm) as [? _], (in_order _ _ Hin _ _ Hm') as [? _]. lia.
  - intros n m Hn Hm%nb_edge; [|done]. destruct (edge_keys _ _ Hm) as (_ & Hk & _). split; [done|].
    apply nb_edge; [done|]. unfold edge in *. tauto.
  - intros n Hn. rewrite rcs_ready by done. split; [by apply (ini_rec _ _ _ Hini)|].
    apply (in_costs _ _ Hin n Hn).
  - intros n i Hn. unfold cst. rewrite rcs_ready by done. destruct (costs_of g n !! i) eqn:E; [|lia].
    apply (in_nonneg _ _ Hin n). by eapply list_elem_of_lookup_2.
  - intros n m Hn Hm%nb_edge; [|done]. destruct (edge_keys _ _ Hm) as (_ & Hk & _).
    rewrite !rcs_ready by done. by apply mat_ready.
  - intros n m i j Hn Hm%nb_edge; [|done]. unfold trn.
    destruct (mat_ready n m Hm) as (_ & _ & He), (mat_ready m n) as (_ & _ & He').
    { unfold edge in *. tauto. }
    rewrite He, He'. destruct (decide (n ∈ inputs_of ins m)) as [Hnm|Hnm], (decide (m ∈ inputs_of ins n)) as [Hmn|Hmn].
    + destruct (in_order _ _ Hin _ _ Hnm) as [? _], (in_order _ _ Hin _ _ Hmn) as [? _]. lia.
    + split; [|done]. by apply (en_mat Hen).
    + split; [|done]. by apply (en_mat Hen).
    + by destruct Hm.
Qed.

Lemma ready_wf : wf ready ins.*1 ins.*1.
Proof.
  split.
  - apply ready_graph.
  - split.
    + intros n m Hn Hm%nb_edge; [|done]. apply (mat_ready n m Hm).
    + intros n m n' m' id Hn Hm%nb_edge Hn' Hm'%nb_edge Hid Hid'; try done. by eapply (pr_inj _ _ Hpre).
  - by destruct (ini_buckets _ _ _ Hini).
  - intros n Hn. rewrite nb_ready by done. by apply (ini_degree _ _ _ Hini).
  - apply (ini_two _ _ _ Hini).
Qed.

(** Every edge is counted at both of its ends. *)
Lemma total_ready f : total ready ins.*1 f = (2 * graph_time f)%Z.
Proof.
  set (e := λ m n, entry (input_matrix m n) (f m) (f n)).
  assert (∀ n, n ∈ ins.*1 → node_term (nb ready) (cst ready) (trn ready) f n =
    (2 * match costs_of g n !! f n with Some x => val x | None => 0 end +
     (zsum ((λ m, e m n) <$> inputs_of ins n) + zsum ((λ m, e n m) <$> outputs_of g n)))%Z) as Hterm.
  { intros n Hn. unfold node_term, links, cst. rewrite rcs_ready, nb_ready, fmap_app, zsum_app by done.
    f_equal. f_equal; apply zsum_ext; intros m Hm; unfold trn, e.
    - destruct (mat_ready n m) as (_ & _ & ->); [by right|]. rewrite decide_False; [done|]. intros Hm'.
      destruct (in_order _ _ Hin _ _ Hm) as [? _], (in_order _ _ Hin _ _ Hm') as [? _]. lia.
    - apply (in_outs _ _ Hin n Hn) in Hm. destruct (mat_ready n m) as (_ & _ & ->); [by left|].
      by rewrite decide_True. }
  change (graph_time f) with (zsum ((λ n, match costs_of g n !! f n with Some x => val x | None => 0 end +
    zsum ((λ m, e m n) <$> inputs_of ins n))%Z <$> ins.*1)).
  unfold total, energy. rewrite (zsum_ext _ _ _ Hterm), !zsum_plus.
  assert (zsum ((λ n, zsum ((λ m, e n m) <$> outputs_of g n)) <$> ins.*1) =
          zsum ((λ n, zsum ((λ m, e m n) <$> inputs_of ins n)) <$> ins.*1)) as Hswap.
  { set (w := λ m n, if decide (m ∈ inputs_of ins n) then e m n else 0%Z).
    transitivity (zsum ((λ m, zsum (w m <$> ins.*1)) <$> ins.*1)).
    - apply zsum_ext. intros n Hn. symmetry. destruct (in_outs _ _ Hin n Hn) as (_ & Hnd & Hout).
      apply (zsum_where (λ m, n ∈ inputs_of ins m)); [apply (in_keys _ _ Hin)|done|].
      intros m. rewrite Hout. split; [intros Hm; split; [by eapply inputs_key|done]|by intros [_ ?]].
    - rewrite zsum_swap. apply zsum_ext. intros n Hn.
      apply (zsum_where (λ m, m ∈ inputs_of ins n) (λ m, e m n));
        [apply (in_keys _ _ Hin)|apply (in_nodup _ _ Hin)|].
      intros m. split; [intros Hm; split; [by apply (in_order _ _ Hin n m)|done]|by intros [_ ?]]. }
  rewrite Hswap.
  assert (∀ F : nat → Z, zsum ((λ n, 2 * F n)%Z <$> ins.*1) = 2 * zsum (F <$> ins.*1))%Z as Hdouble.
  { intros F. generalize ins.*1 as ns. induction ns as [|n ns IH]; csimpl; [done|]. rewrite IH. lia. }
  rewrite (Hdouble (λ n, match costs_of g n !! f n with Some x => val x | None => 0%Z end)). lia.
Qed.
End Ready.

Lemma run_minimises fuel :
  length ins < fuel →
  ∃ s, pbqp_init g = Ret (s, ins) ∧
    ((2 < p_max_degree s)%Z ∧
       (∃ t, run g ins fuel (with_ltf pairs (with_heap mats s)) = (Raise RuntimeError, t)) ∨
     ∃ t, run g ins fuel (with_ltf pairs (with_heap mats s)) = (Ret tt, t) ∧
       (∀ n, n ∈ ins.*1 → ∃ i, p_opt t !! n = Some i ∧ i < length (costs_of g n)) ∧
       ((p_max_degree s ≤ 2)%Z → p_is_optimal t = true) ∧
       (p_is_optimal t = true →
        (∃ f, (∀ n, n ∈ ins.*1 → f n < length (costs_of g n)) ∧ (graph_time f < INV)%Z) →
        ∀ f, (∀ n, n ∈ ins.*1 → f n < length (costs_of g n)) →
          (graph_time (choice (p_opt t)) ≤ graph_time f)%Z)).
Proof.
  intros Hfuel. destruct (pbqp_init_ok g ins Hin) as (s & Hs & Hini). exists s. split; [done|].
  destruct (prepare_ok (with_ltf pairs (with_heap mats s))) as (h & l & Hp & Hpre); [done|done|].
  rewrite run_prepare. unfold sbind at 1 3. rewrite Hp.
  change (with_ltf l _) with (ready s h l).
  assert (∀ f, valid (ready s h l) ins.*1 f ↔ ∀ n, n ∈ ins.*1 → f n < length (costs_of g n)) as Hvalid.
  { intros f. unfold valid. split; intros Hf n Hn; specialize (Hf n Hn); by rewrite rcs_ready in *. }
  destruct (pbqp_solves fuel (ready s h l) ins.*1) as [[Hmax Ht]|(t & Ht & Hall & Hflag2 & Hbest)].
  - by apply ready_wf.
  - apply (ini_stack _ _ _ Hini).
  - apply (ini_opt _ _ _ Hini).
  - by rewrite length_fmap.
  - by left.
  - right. exists t. split; [done|]. split; [|split].
    + intros n Hn. destruct (Hall n Hn) as (i & ? & Hi). exists i. split; [done|]. by rewrite rcs_ready in Hi.
    + intros Hle. rewrite Hflag2 by done. apply (ini_optimal _ _ _ Hini).
    + intros Hflag (f0 & Hf0 & Hlt) f Hf. rewrite <-Hvalid in Hf0, Hf.
      specialize (Hbest Hflag). setoid_rewrite total_ready in Hbest; [|done..].
      enough (2 * graph_time (choice (p_opt t)) ≤ 2 * graph_time f)%Z by lia.
      apply Hbest; [|done]. exists f0. split; [done|lia].
Qed.
End Entries.

(** C9: what the PBQP tuner promises, and when.  The assumptions are: costs are
    added and compared exactly and in order ([CostOk]; the code adds floats) and
    the invalid cost is positive; the graph is given in topological order, its
    inputs and outputs agree, the edges from boundary nodes are dropped, every
    node has a candidate and no candidate has a negative cost ([inputs_ok]);
    every recorded pair of layouts has a full matrix, every edge has one of its
    own of the right size and without negative entries, and no pair is recorded
    against the direction of an edge ([entries_ok]; the benchmark does record such
    a pair for a node with several inputs when one of the later inputs takes the
    first as its own input, and then a result flagged as optimal need not be,
    [shortcut_not_optimal]).
    Then the tuner is built and [run] ends, with as much fuel as there are nodes:
    every node gets one of its records, except where the graph has a degree above
    2 and [run] raises for a node without a record below the invalid cost.  When
    the result is flagged as optimal, as it is on every graph of degree at most
    2, and some choice has an estimated time below the invalid cost, no choice
    has a shorter estimated time than the result. *)
Theorem pbqp_minimises (g : gt_graph) (ins : list (nat * list nat)) (mats : gmap nat matrix)
    (pairs : gmap (nat * nat) nat) :
  inputs_ok g ins → entries_ok g ins mats pairs → ∀ fuel, length ins < fuel →
  ∃ s, pbqp_init g = Ret (s, ins) ∧
    ((2 < p_max_degree s)%Z ∧
       (∃ t, run g ins fuel (with_ltf pairs (with_heap mats s)) = (Raise RuntimeError, t)) ∨
     ∃ t, run g ins fuel (with_ltf pairs (with_heap mats s)) = (Ret tt, t) ∧
       (∀ n, n ∈ ins.*1 → ∃ i, p_opt t !! n = Some i ∧ i < length (costs_of g n)) ∧
       ((p_max_degree s ≤ 2)%Z → p_is_optimal t = true) ∧
       (p_is_optimal t = true →
        (∃ f, (∀ n, n ∈ ins.*1 → f n < length (costs_of g n)) ∧ (graph_time g ins mats pairs f < INV)%Z) →
        ∀ f, (∀ n, n ∈ ins.*1 → f n < length (costs_of g n)) →
          (graph_time g ins mats pairs (choice (p_opt t)) ≤ graph_time g ins mats pairs f)%Z)).
Proof. intros Hin Hen fuel. by apply run_minimises. Qed.
End Run.
