(* ===== verification/GraphTraverse.v ===== *)
(** * The graph of the graph tuners

    The nodes of a relay function as expr2graph lists them, the nearest tuned
    ancestors of a node, and the dictionaries of input and output nodes that the
    tuners work on.
    Sources: src/python/tvm/autotvm/graph_tuner/utils/{utils,traverse_graph}.py. *)

From S2P Require Import Prelude Pbqp.

(** A loop over a list that updates a variable and a state. *)
Fixpoint sfold {S A B} (f : A → B → ST S A) (a : A) (l : list B) : ST S A :=
  match l with [] => sret a | x :: l' => let! a' := f a x in sfold f a' l' end.

(** An entry of the node list: the operator of a call, the name of a variable or a
    constant, the first components of the inputs, and whether the node is a tuple. *)
Record node_entry := mkNode {
  n_op : option string;
  n_name : option string;
  n_inputs : list nat;
  n_tuple : bool
}.

Definition OPT_OUT_OP : list string := ["layout_transform"].

(** Operators dependent on original layouts. *)
Definition LAYOUT_FIXED_OP : list string :=
  ["nn.batch_flatten"; "transpose"; "reshape"; "vision.multibox_prior"; "vision.multibox_transform_loc";
   "where"; "vision.non_max_suppression"; "strided_slice"].

(** [x in l] where [x] may be [None] and [l] has strings only. *)
Definition opt_in (x : option string) (l : list string) : bool :=
  match x with Some s => bool_decide (s ∈ l) | None => false end.

Section Traverse.
Context (target_ops input_names : list string).

Definition is_boundary_node (n : node_entry) : bool :=
  opt_in (n_op n) LAYOUT_FIXED_OP || opt_in (n_name n) input_names.

Definition is_skipped_node (n : node_entry) : bool := n_tuple n.

Definition is_target (n : node_entry) : bool := opt_in (n_op n) target_ops.

(** [has_multiple_inputs]; the recursion goes through operators of [OPT_OUT_OP]. *)
Fixpoint has_multiple_inputs (fuel : nat) (node_list : list node_entry) (node_idx : nat) : py bool :=
  match fuel with
  | 0 => Raise RecursionError
  | S fuel =>
      let? node := lnth node_list node_idx in
      let? num_inputs := pfold (λ num_inputs in_idx,
        let? in_node := lnth node_list in_idx in
        match n_op in_node with
        | Some op =>
            if bool_decide (op ∈ OPT_OUT_OP) then
              let? increase := pfold (λ _ t_idx, has_multiple_inputs fuel node_list t_idx) false (n_inputs in_node) in
              Ret (if increase : bool then S num_inputs else num_inputs)
            else Ret (S num_inputs)
        | None => Ret (if opt_in (n_name in_node) input_names then S num_inputs else num_inputs)
        end) 0 (n_inputs node) in
      Ret (1 <? num_inputs)
  end.

(** The fuel is the length of the node list, whose inputs come first. *)
Definition multi (node_list : list node_entry) (node_idx : nat) : py bool :=
  has_multiple_inputs (S (length node_list)) node_list node_idx.

(** Ancestors not yet in the list are appended. *)
Definition add_new (acc tmp : list nat) : list nat :=
  foldl (λ acc x, if bool_decide (x ∈ acc) then acc else acc ++ [x]) acc tmp.

(** [get_direct_ancestor]; the state is [visited_dict]. *)
Fixpoint get_direct_ancestor (fuel : nat) (node_list : list node_entry) (node_idx : nat) :
    ST (list (nat * list nat)) (list nat) :=
  match fuel with
  | 0 => sraise RecursionError
  | S fuel =>
      let! visited_dict := sget in
      match od_get visited_dict node_idx with
      | Some l => sret l
      | None =>
          let! node := slift (lnth node_list node_idx) in
          if is_boundary_node node then sret [node_idx] else
          let! node_direct_ancestor := sfold (λ acc item_idx,
            let! item := slift (lnth node_list item_idx) in
            let! is_multiple_inputs := slift (multi node_list item_idx) in
            if is_target item || is_multiple_inputs then sret (acc ++ [item_idx])
            else
              let! tmp := get_direct_ancestor fuel node_list item_idx in
              sret (add_new acc tmp)) [] (n_inputs node) in
          let! _ := smod (λ d, od_set d node_idx node_direct_ancestor) in
          sret node_direct_ancestor
      end
  end.

(** [get_out_nodes]. *)
Definition get_out_nodes (in_node_dict : list (nat * list nat)) : list (nat * list nat) :=
  foldl (λ out '(key, val),
    foldl (λ out item,
      match od_get out item with
      | Some l => od_set out item (l ++ [key])
      | None => od_set out item [key]
      end) out val)
    (foldl (λ out '(key, _), od_set out key []) [] in_node_dict) in_node_dict.

(** The ancestors of all nodes that are neither boundary nodes nor tuples. *)
Definition visit_all (node_list : list node_entry) : ST (list (nat * list nat)) unit :=
  sfor (enumerate node_list) (λ '(i, node),
    if is_boundary_node node || is_skipped_node node then sret tt
    else let! _ := get_direct_ancestor (S (length node_list)) node_list i in sret tt).

(** The visited nodes that are tuned or have several inputs. *)
Definition select_nodes (node_list : list node_entry) (visited_dict : list (nat * list nat)) :
    py (list (nat * list nat)) :=
  pfold (λ d '(key, val),
    let? node := lnth node_list key in
    let? is_multiple_inputs := multi node_list key in
    Ret (if is_target node || is_multiple_inputs then od_set d key val else d)) [] visited_dict.

(** The loop over the inputs of a node, which removes from the list it runs over:
    [i] is the position of the iterator.  The iterator ends after [length val] steps. *)
Fixpoint prune_loop (fuel : nat) (node_list : list node_entry) (keys : list nat) (key : nat) (i : nat)
    (val : list nat) (is_boundary : bool) (boundary_nodes : list nat) : py (list nat * list nat) :=
  match fuel with
  | 0 => Ret (val, boundary_nodes)
  | S fuel =>
      match val !! i with
      | None => Ret (val, boundary_nodes)
      | Some input_idx =>
          let? in_node := lnth node_list input_idx in
          let keep := negb (is_boundary_node in_node) && bool_decide (input_idx ∈ keys) in
          let is_boundary := if keep then false else is_boundary in
          let val := if keep then val else remove1 input_idx val in
          let boundary_nodes := if is_boundary then boundary_nodes ++ [key] else boundary_nodes in
          prune_loop fuel node_list keys key (S i) val is_boundary boundary_nodes
      end
  end.

(** A round of the reduction of boundary nodes. *)
Definition prune_round (node_list : list node_entry) (d : list (nat * list nat)) :
    py (list (nat * list nat) * list nat) :=
  pfold (λ '(d', boundary_nodes) '(key, val),
    let? node := lnth node_list key in
    if is_target node then Ret (d', boundary_nodes) else
    let? (val, boundary_nodes) := prune_loop (length val) node_list (od_keys d) key 0 val true boundary_nodes in
    Ret (od_set d' key val, boundary_nodes)) (d, []) d.

(** The loop over [has_reduced_node]. *)
Fixpoint reduce_boundary (fuel : nat) (node_list : list node_entry) (d : list (nat * list nat)) :
    py (list (nat * list nat)) :=
  match fuel with
  | 0 => Raise RecursionError
  | S fuel =>
      let? (d, boundary_nodes) := prune_round node_list d in
      match boundary_nodes with
      | [] => Ret d
      | _ => reduce_boundary fuel node_list (foldl od_del d boundary_nodes)
      end
  end.

(** A round of the removal of nodes without inputs. *)
Definition remove_empty (out_node_dict : list (nat * list nat)) (empty_nodes : list nat)
    (d : list (nat * list nat)) : py (list (nat * list nat)) :=
  pfold (λ d node,
    let? _ := od_at d node in
    let d := od_del d node in
    match od_get out_node_dict node with
    | None => Ret d
    | Some outs =>
        pfold (λ d out_node,
          let? l := od_at d out_node in
          let? l' := pyremove node l in
          Ret (od_set d out_node l')) d outs
    end) d empty_nodes.

Definition empty_keys (d : list (nat * list nat)) : list nat :=
  od_keys (filter (λ x, x.2 = []) d).

(** The loop over [has_empty_node]. *)
Fixpoint drop_empty (fuel : nat) (out_node_dict d : list (nat * list nat)) : py (list (nat * list nat)) :=
  match fuel with
  | 0 => Raise RecursionError
  | S fuel =>
      match empty_keys d with
      | [] => Ret d
      | empty_nodes => let? d := remove_empty out_node_dict empty_nodes d in drop_empty fuel out_node_dict d
      end
  end.

(** [get_in_nodes]. *)
Definition get_in_nodes (node_list : list node_entry) : py (list (nat * list nat)) :=
  match visit_all node_list [] with
  | (Raise e, _) => Raise e
  | (Ret _, visited_dict) =>
      let? d := select_nodes node_list visited_dict in
      let out_node_dict := get_out_nodes d in
      let? d := reduce_boundary (S (length d)) node_list d in
      drop_empty (S (length d)) out_node_dict d
  end.
End Traverse.
