(* ===== verification/GraphTraverseSpec.v ===== *)
(** * The graph of the graph tuners: ancestors and dictionaries

    The memoised search computes the nearest tuned ancestors, and the dictionary of
    input nodes is built from them by reductions that end. *)

From S2P Require Import Prelude Pbqp PbqpRun GraphTraverse.

(** ** Loops *)

Lemma pfold_total {A B} (f : A → B → py A) (g : A → B → A) l : ∀ a,
  (∀ a x, x ∈ l → f a x = Ret (g a x)) → pfold f a l = Ret (foldl g a l).
Proof.
  induction l as [|x l IH]; intros a Hf; [done|]. simpl. rewrite Hf by left. simpl. apply IH.
  intros b y Hy. apply Hf. by right.
Qed.

Lemma sfold_inv {S A B} (f : A → B → ST S A) (g : A → B → A) (P : S → Prop) l : ∀ a s,
  P s → (∀ a x s, x ∈ l → P s → ∃ s', f a x s = (Ret (g a x), s') ∧ P s') →
  ∃ s', sfold f a l s = (Ret (foldl g a l), s') ∧ P s'.
Proof.
  induction l as [|x l IH]; intros a s Hs Hf; [by exists s|]. simpl. unfold sbind.
  destruct (Hf a x s) as (s1 & -> & Hs1); [left|done|]. apply IH; [done|]. intros b y t Hy. apply Hf. by right.
Qed.

Lemma foldl_ext_in {A B} (f g : A → B → A) l : ∀ a, (∀ a x, x ∈ l → f a x = g a x) → foldl f a l = foldl g a l.
Proof.
  induction l as [|x l IH]; intros a Hfg; [done|]. simpl. rewrite Hfg by left. apply IH.
  intros b y Hy. apply Hfg. by right.
Qed.

Lemma elem_add_new tmp : ∀ acc x, x ∈ add_new acc tmp ↔ x ∈ acc ∨ x ∈ tmp.
Proof.
  unfold add_new. induction tmp as [|y tmp IH]; intros acc x; simpl; [set_solver|].
  rewrite IH. case_bool_decide; set_solver.
Qed.

Lemma keys_set {V} (d : list (nat * V)) i v k : k ∈ od_keys (od_set d i v) ↔ k = i ∨ k ∈ od_keys d.
Proof.
  rewrite od_keys_set. destruct (od_mem d i) eqn:Em.
  - apply od_mem_true in Em. split; [by right|]. by intros [->|?].
  - rewrite elem_of_app, list_elem_of_singleton. tauto.
Qed.

Lemma remove1_sublist (x : nat) l : remove1 x l `sublist_of` l.
Proof.
  induction l as [|y l IH]; [done|]. simpl. case_decide; [by apply sublist_cons|by apply sublist_skip].
Qed.

Lemma pyremove_Ret (x : nat) l l' : pyremove x l = Ret l' → l' = remove1 x l.
Proof. unfold pyremove. by case_decide; [intros [= <-]|]. Qed.

Lemma elem_remove1 (x y : nat) l : y ∈ l → y ∈ remove1 x l ∨ y = x.
Proof.
  induction l as [|z l IH]; simpl; [by intros ?%elem_of_nil|]. case_decide as Hz.
  - subst. intros [->|?]%elem_of_cons; [by right|by left].
  - intros [->|Hy]%elem_of_cons; [left; left|]. destruct (IH Hy); [left; by right|by right].
Qed.

Lemma length_keys_le {V} (d d' : list (nat * V)) g : NoDup (od_keys d') → g ∈ od_keys d → g ∉ od_keys d' →
  od_keys d' ⊆ od_keys d → length d' < length d.
Proof.
  intros Hnd Hg Hg' Hsub. rewrite <-(length_fmap fst d), <-(length_fmap fst d').
  assert (g :: od_keys d' ⊆+ od_keys d) as Hs.
  { apply NoDup_submseteq; [by constructor|]. intros k [->|?]%elem_of_cons; auto. }
  apply submseteq_length in Hs. simpl in Hs. unfold od_keys in Hs. lia.
Qed.

Section Spec.
Context (target_ops input_names : list string) (node_list : list node_entry).
Abbreviation boundary := (is_boundary_node input_names).
Abbreviation target := (is_target target_ops).
Hypothesis topological : ∀ i n j, node_list !! i = Some n → j ∈ n_inputs n → j < i.

Lemma node_at i : i < length node_list → ∃ n, node_list !! i = Some n ∧ lnth node_list i = Ret n.
Proof. intros [n Hn]%lookup_lt_is_Some_2. exists n. unfold lnth. by rewrite Hn. Qed.

Lemma node_inputs i n j : node_list !! i = Some n → j ∈ n_inputs n → j < i ∧ j < length node_list.
Proof. intros Hn Hj. pose proof (topological _ _ _ Hn Hj). apply lookup_lt_Some in Hn. lia. Qed.

(** ** Several inputs *)

Lemma has_multiple_inputs_total fuel : ∀ i, i < fuel → i < length node_list →
  ∃ b, has_multiple_inputs input_names fuel node_list i = Ret b.
Proof.
  induction fuel as [|fuel IH]; intros i Hf Hi; [lia|]. simpl.
  destruct (node_at i Hi) as (n & Hn & ->). simpl.
  destruct (pfold_inv (λ num_inputs in_idx,
    let? in_node := lnth node_list in_idx in
    match n_op in_node with
    | Some op =>
        if bool_decide (op ∈ OPT_OUT_OP) then
          let? increase := pfold (λ _ t_idx, has_multiple_inputs input_names fuel node_list t_idx) false (n_inputs in_node) in
          Ret (if increase : bool then S num_inputs else num_inputs)
        else Ret (S num_inputs)
    | None => Ret (if opt_in (n_name in_node) input_names then S num_inputs else num_inputs)
    end) (λ _ _, True) (n_inputs n) 0) as (k & -> & _); [done| |by eexists].
  intros pre j rest b Hl _. destruct (node_inputs i n j Hn) as [Hji Hj]; [rewrite Hl; set_solver|].
  destruct (node_at j Hj) as (m & Hm & ->). simpl. destruct (n_op m) as [op|]; [|by eexists].
  case_bool_decide; [|by eexists].
  destruct (pfold_inv (λ _ t_idx, has_multiple_inputs input_names fuel node_list t_idx) (λ _ _, True) (n_inputs m) false)
    as (inc & -> & _); [done| |by eexists].
  intros pre' t rest' b' Hl' _. destruct (node_inputs j m t Hm) as [Htj Ht]; [rewrite Hl'; set_solver|].
  destruct (IH t) as [c ->]; [lia|done|]. by eexists.
Qed.

(** Whether a node has several inputs. *)
Definition multi_b (i : nat) : bool :=
  match multi input_names node_list i with Ret b => b | Raise _ => false end.

Lemma multi_ok i : i < length node_list → multi input_names node_list i = Ret (multi_b i).
Proof.
  intros Hi. unfold multi_b, multi. by destruct (has_multiple_inputs_total (S (length node_list)) i) as [b ->]; [lia|done|].
Qed.

(** ** The nearest ancestors *)

(** A node at which the search stops. *)
Definition stops (i : nat) : bool :=
  match node_list !! i with Some n => target n || multi_b i | None => false end.

(** The search without the memory. *)
Fixpoint ancestors (fuel i : nat) : list nat :=
  match fuel, node_list !! i with
  | S fuel, Some n =>
      if boundary n then [i] else
      foldl (λ acc j, if stops j then acc ++ [j] else add_new acc (ancestors fuel j)) [] (n_inputs n)
  | _, _ => []
  end.

Definition anc (i : nat) : list nat := ancestors (S i) i.

Lemma ancestors_fuel fuel : ∀ i, i < fuel → ancestors fuel i = anc i.
Proof.
  induction fuel as [fuel IH] using lt_wf_ind. intros i Hi. unfold anc. destruct fuel as [|fuel]; [lia|]. simpl.
  destruct (node_list !! i) as [n|] eqn:Hn; [|done]. destruct (boundary n); [done|].
  apply foldl_ext_in. intros acc j Hj. destruct (stops j); [done|]. pose proof (topological _ _ _ Hn Hj).
  rewrite IH by lia. destruct (decide (i = fuel)) as [->|]; [|by rewrite (IH i) by lia].
  by rewrite (IH fuel) by lia.
Qed.

Lemma anc_unfold i n : node_list !! i = Some n →
  anc i = if boundary n then [i] else
    foldl (λ acc j, if stops j then acc ++ [j] else add_new acc (anc j)) [] (n_inputs n).
Proof.
  intros Hn. unfold anc at 1. simpl. rewrite Hn. destruct (boundary n); [done|]. apply foldl_ext_in.
  intros acc j Hj. destruct (stops j); [done|]. rewrite ancestors_fuel; [done|]. by eapply topological.
Qed.

(** The nearest ancestors: the first nodes that are tuned, have several inputs or are
    boundary nodes on the paths to the inputs. *)
Inductive nearest : nat → nat → Prop :=
  | nearest_boundary i n : node_list !! i = Some n → boundary n = true → nearest i i
  | nearest_stop i n j : node_list !! i = Some n → boundary n = false → j ∈ n_inputs n → stops j = true → nearest i j
  | nearest_through i n j a : node_list !! i = Some n → boundary n = false → j ∈ n_inputs n → stops j = false →
      nearest j a → nearest i a.

Lemma elem_foldl_anc (js : list nat) (a : nat) : ∀ acc,
  a ∈ foldl (λ acc j, if stops j then acc ++ [j] else add_new acc (anc j)) acc js ↔
    a ∈ acc ∨ ∃ j, j ∈ js ∧ if stops j then a = j else a ∈ anc j.
Proof.
  induction js as [|j js IH]; intros acc; simpl; [set_solver|]. rewrite IH. clear IH.
  assert (a ∈ (if stops j then acc ++ [j] else add_new acc (anc j)) ↔ a ∈ acc ∨ if stops j then a = j else a ∈ anc j) as ->.
  { destruct (stops j); [set_solver|apply elem_add_new]. }
  split.
  - intros [[?|?]|(k & ? & ?)]; [by left|right; exists j; split; [left|done]|right; exists k; split; [by right|done]].
  - intros [?|(k & Hk & ?)]; [by do 2 left|]. apply elem_of_cons in Hk as [->|?]; [left; by right|right; by exists k].
Qed.

Lemma anc_nearest i a : a ∈ anc i ↔ nearest i a.
Proof.
  revert a. induction i as [i IH] using lt_wf_ind. intros a.
  destruct (node_list !! i) as [n|] eqn:Hn.
  2: { unfold anc. simpl. rewrite Hn. split; [by intros ?%elem_of_nil|]. intros H. inversion H; congruence. }
  rewrite (anc_unfold i n Hn). destruct (boundary n) eqn:Hb.
  - rewrite list_elem_of_singleton. split; [intros ->; by eapply nearest_boundary|]. intros H. inversion H; congruence.
  - rewrite elem_foldl_anc. split.
    + intros [?%elem_of_nil|(j & Hj & Ha)]; [done|]. destruct (stops j) eqn:Es.
      * subst. by eapply nearest_stop.
      * eapply nearest_through; [done..|]. apply IH; [by eapply topological|done].
    + intros H. right. inversion H as [? ? ? ?|? m j ? ? Hj Es|? m j ? ? ? Hj Es Ha]; simplify_eq;
        [congruence|exists a|exists j]; (split; [exact Hj|]); rewrite Es; [done|].
      apply IH; [by eapply topological|done].
Qed.

(** ** The memory *)

Definition visited_ok (d : list (nat * list nat)) : Prop :=
  NoDup (od_keys d) ∧ ∀ k l, od_get d k = Some l →
    l = anc k ∧ ∃ n, node_list !! k = Some n ∧ boundary n = false.

Lemma direct_ancestor_ok fuel : ∀ i d, i < fuel → i < length node_list → visited_ok d →
  ∃ d', get_direct_ancestor target_ops input_names fuel node_list i d = (Ret (anc i), d') ∧ visited_ok d' ∧
    od_keys d ⊆ od_keys d' ∧ (∀ n, node_list !! i = Some n → boundary n = false → i ∈ od_keys d').
Proof.
  induction fuel as [|fuel IH]; intros i d Hf Hi Hd; [lia|]. simpl. unfold sbind at 1. simpl.
  destruct (od_get d i) as [l|] eqn:Ed.
  { destruct Hd as [Hnd Hd]. destruct (Hd i l Ed) as [-> _]. exists d. split; [done|]. split; [done|]. split; [done|].
    intros _ _ _. by eapply od_get_Some_key. }
  destruct (node_at i Hi) as (n & Hn & Hln). unfold sbind at 1, slift at 1. rewrite Hln.
  pose proof (anc_unfold i n Hn) as Hanc. destruct (boundary n) eqn:Hb.
  { rewrite Hanc. exists d. split; [done|]. split; [done|]. split; [done|]. intros n' Hn' Hb'. congruence. }
  unfold sbind at 1.
  destruct (sfold_inv (λ acc item_idx,
    let! item := slift (lnth node_list item_idx) in
    let! is_multiple_inputs := slift (multi input_names node_list item_idx) in
    if target item || is_multiple_inputs then sret (acc ++ [item_idx])
    else
      let! tmp := get_direct_ancestor target_ops input_names fuel node_list item_idx in
      sret (add_new acc tmp)) (λ acc j, if stops j then acc ++ [j] else add_new acc (anc j))
    (λ d', visited_ok d' ∧ od_keys d ⊆ od_keys d') (n_inputs n) [] d) as (d' & -> & Hd' & Hsub); [done| |].
  - intros acc j d1 Hj [Hd1 Hs1]. destruct (node_inputs i n j Hn Hj) as [Hji Hjl].
    destruct (node_at j Hjl) as (m & Hm & Hlm). unfold stops. rewrite Hm. unfold sbind, slift. rewrite Hlm, multi_ok by done.
    destruct (target m || multi_b j); [by exists d1|].
    destruct (IH j d1) as (d2 & -> & Hd2 & Hs2 & _); [lia|done|done|]. exists d2. split; [done|]. split; [done|].
    by transitivity (od_keys d1).
  - rewrite <-Hanc. unfold sbind, smod, sret. exists (od_set d' i (anc i)). split; [done|].
    pose proof (λ k, keys_set d' i (anc i) k) as Hkeys.
    split; [split|].
    + apply od_set_NoDup, Hd'.
    + intros k l. rewrite od_get_set. case_decide as Hk; [|apply Hd'].
      intros [= <-]. subst k. split; [done|]. by exists n.
    + split; [|intros _ _ _; apply Hkeys; by left]. intros k Hk. apply Hkeys. right. by apply Hsub.
Qed.

(** What the tuner can see of a node. *)
Definition plain (i : nat) : Prop :=
  ∃ n, node_list !! i = Some n ∧ boundary n = false ∧ n_tuple n = false.

Lemma visit_all_ok : ∃ d, visit_all target_ops input_names node_list [] = (Ret tt, d) ∧ visited_ok d ∧
  ∀ i, plain i → i ∈ od_keys d.
Proof.
  unfold visit_all.
  match goal with |- context [sfor ?l ?body] =>
    destruct (sfor_inv body (λ done d, visited_ok d ∧ ∀ i n, (i, n) ∈ done →
      boundary n = false → n_tuple n = false → i ∈ od_keys d) l []) as (d & Hd & Hok & Hall) end.
  - split; [|by intros ? ? ?%elem_of_nil]. split; [constructor|done].
  - intros pre [i n] rest d Hl [Hd Hall].
    assert (node_list !! i = Some n) as Hn.
    { assert ((i, n) ∈ enumerate node_list) as Hin by (rewrite Hl; set_solver).
      apply elem_of_lookup_imap in Hin as (j & m & [= -> ->] & Hm). done. }
    destruct (boundary n || is_skipped_node n) eqn:Eb.
    + exists d. split; [done|]. split; [done|]. intros j m [Hj|[= -> ->]%list_elem_of_singleton]%elem_of_app Hbm Htm; [by eapply Hall|].
      rewrite Hbm in Eb. unfold is_skipped_node in Eb. by rewrite Htm in Eb.
    + pose proof (lookup_lt_Some _ _ _ Hn) as Hi.
      destruct (direct_ancestor_ok (S (length node_list)) i d) as (d' & Hd' & Hok & Hsub & Hin); [lia|done|done|].
      exists d'. unfold sbind. rewrite Hd'. split; [done|]. split; [done|].
      intros j m [Hj|[= -> ->]%list_elem_of_singleton]%elem_of_app Hbm Htm; [by eapply Hsub, Hall|by eapply Hin].
  - exists d. split; [exact Hd|]. split; [done|]. intros i (n & Hn & Hbn & Htn). eapply Hall; [|done..].
    apply elem_of_lookup_imap. by exists i, n.
Qed.

(** The dictionary that [get_in_nodes] starts from. *)
Record selected (d : list (nat * list nat)) : Prop := {
  sel_nodup : NoDup (od_keys d);
  sel_get k l : od_get d k = Some l → l = anc k ∧ stops k = true ∧
    ∃ n, node_list !! k = Some n ∧ boundary n = false;
  sel_all k : plain k → stops k = true → k ∈ od_keys d
}.

Lemma select_nodes_ok d : visited_ok d → (∀ i, plain i → i ∈ od_keys d) →
  ∃ d', select_nodes target_ops input_names node_list d = Ret d' ∧ selected d'.
Proof.
  intros [Hnd Hd] Hall. unfold select_nodes.
  rewrite (pfold_total _ (λ d '(key, val), if stops key then od_set d key val else d)).
  2: { intros a [k l] Hk. assert (od_get d k = Some l) as Hg by (by apply od_elem_get).
       destruct (Hd k l Hg) as (_ & n & Hn & _). unfold stops, lnth. rewrite Hn. simpl.
       rewrite multi_ok by (by eapply lookup_lt_Some). done. }
  assert (∀ e a, NoDup (od_keys a) → (∀ x, x ∈ e → x ∈ d) →
    let r := foldl (λ d '(key, val), if stops key then od_set d key val else d) a e in
    NoDup (od_keys r) ∧
    (∀ k l, od_get r k = Some l → od_get a k = Some l ∨ (k, l) ∈ d ∧ stops k = true) ∧
    (∀ k, k ∈ od_keys r ↔ k ∈ od_keys a ∨ k ∈ od_keys e ∧ stops k = true)) as Hgen.
  { clear Hall. induction e as [|[k l] e IH]; intros a Ha He; simpl.
    - split; [done|]. split; [by left|]. set_solver.
    - destruct (stops k) eqn:Es.
      + destruct (IH (od_set a k l)) as (H1 & H2 & H3); [by apply od_set_NoDup|intros x Hx; apply He; by right|].
        split; [done|]. split.
        * intros k' l' Hk'. destruct (H2 k' l' Hk') as [Hs|?]; [|by right]. rewrite od_get_set in Hs. case_decide; [|by left].
          injection Hs as <-. subst k'. right. split; [apply He; left|done].
        * intros k'. rewrite H3, keys_set. change (od_keys ((k, l) :: e)) with (k :: od_keys e). rewrite elem_of_cons.
          split; [intros [[->|?]|[? ?]]; auto|]. intros [?|[[->|?] ?]]; auto.
      + destruct (IH a) as (H1 & H2 & H3); [done|intros x Hx; apply He; by right|]. split; [done|]. split; [done|].
        intros k'. rewrite H3. change (od_keys ((k, l) :: e)) with (k :: od_keys e). rewrite elem_of_cons.
        split; [intros [?|[? ?]]; auto|]. intros [?|[[->|?] ?]]; auto; congruence. }
  destruct (Hgen d []) as (H1 & H2 & H3); [constructor|done|]. eexists. split; [done|]. split; [exact H1| |].
  - intros k l Hk. destruct (H2 k l Hk) as [?|[Hin Hs]]; [done|]. apply od_elem_get in Hin; [|done].
    destruct (Hd k l Hin) as [-> Hn]. done.
  - intros k Hp Hs. apply H3. right. split; [by apply Hall|done].
Qed.

Lemma nearest_le i a : nearest i a → a ≤ i.
Proof.
  induction 1 as [|i n j Hn Hb Hj|i n j a Hn Hb Hj Hs Ha IH]; [done|pose proof (topological _ _ _ Hn Hj); lia..].
Qed.

Lemma nearest_lt i n a : node_list !! i = Some n → boundary n = false → nearest i a → a < i.
Proof.
  intros Hn Hb H. inversion H as [|? m j ? ? Hj Es|? m j ? ? ? Hj Es Ha]; simplify_eq; [congruence|by eapply topological|].
  pose proof (topological _ _ _ Hn Hj). apply nearest_le in Ha. lia.
Qed.

(** ** The reduction of boundary nodes *)

(** The indices of a dictionary are nodes. *)
Definition indices_ok (d : list (nat * list nat)) : Prop :=
  NoDup (od_keys d) ∧ ∀ k l, od_get d k = Some l → k < length node_list ∧ ∀ a, a ∈ l → a < length node_list.

Definition target_at (k : nat) : Prop := ∃ n, node_list !! k = Some n ∧ target n = true.

(** What the reduction keeps. *)
Definition reduced_from (d d' : list (nat * list nat)) : Prop :=
  NoDup (od_keys d') ∧
  (∀ k l', od_get d' k = Some l' → ∃ l, od_get d k = Some l ∧ l' `sublist_of` l ∧ (target_at k → l' = l)) ∧
  (∀ k, target_at k → k ∈ od_keys d → k ∈ od_keys d').

Lemma reduced_from_trans d d1 d2 : reduced_from d d1 → reduced_from d1 d2 → reduced_from d d2.
Proof.
  intros (_ & H1 & H1') (Hnd & H2 & H2'). split; [done|]. split; [|by intros; apply H2', H1'].
  intros k l2 Hk. destruct (H2 _ _ Hk) as (l1 & Hk1 & Hs2 & Ht2). destruct (H1 _ _ Hk1) as (l & Hk0 & Hs1 & Ht1).
  exists l. split; [done|]. split; [by etrans|]. intros Ht. by rewrite Ht2, Ht1.
Qed.

Lemma reduced_indices d d' : reduced_from d d' → indices_ok d → indices_ok d'.
Proof.
  intros (Hnd & H & _) [_ Hd]. split; [done|]. intros k l' Hk. destruct (H _ _ Hk) as (l & Hl & Hsub & _).
  destruct (Hd _ _ Hl) as [? Hi]. split; [done|]. intros a Ha. apply Hi. eapply elem_of_sublist; eauto.
Qed.

Lemma prune_loop_ok keys key fuel : ∀ i val b bn, (∀ a, a ∈ val → a < length node_list) →
  ∃ val' m, prune_loop input_names fuel node_list keys key i val b bn = Ret (val', bn ++ replicate m key) ∧
    val' `sublist_of` val.
Proof.
  induction fuel as [|fuel IH]; intros i val b bn Hval; simpl.
  { exists val, 0. by rewrite app_nil_r. }
  destruct (val !! i) as [j|] eqn:Ej; [|exists val, 0; by rewrite app_nil_r].
  destruct (node_at j) as (n & _ & ->); [apply Hval; by eapply list_elem_of_lookup_2|]. simpl.
  set (keep := negb (boundary n) && bool_decide (j ∈ keys)).
  set (val1 := if keep then val else remove1 j val).
  assert (val1 `sublist_of` val) as Hsub by (unfold val1; destruct keep; [done|apply remove1_sublist]).
  destruct (IH (S i) val1 (if keep then false else b) (if if keep then false else b then bn ++ [key] else bn))
    as (val' & m & -> & Hs').
  { intros a Ha. apply Hval. eapply elem_of_sublist; eauto. }
  destruct (if keep then false else b).
  - exists val', (S m). rewrite <-app_assoc. split; [done|by etrans].
  - exists val', m. split; [done|by etrans].
Qed.

Lemma prune_round_ok d : indices_ok d → ∃ d' bn, prune_round target_ops input_names node_list d = Ret (d', bn) ∧
  od_keys d' = od_keys d ∧ reduced_from d d' ∧ ∀ k, k ∈ bn → k ∈ od_keys d ∧ ¬ target_at k.
Proof.
  intros [Hnd Hd]. unfold prune_round.
  match goal with |- context [pfold ?f ?a ?l] =>
    destruct (pfold_inv f (λ done '(d', bn), od_keys d' = od_keys d ∧ reduced_from d d' ∧
      (∀ k l, od_get d k = Some l → (k, l) ∉ done → od_get d' k = Some l) ∧
      ∀ k, k ∈ bn → k ∈ od_keys d ∧ ¬ target_at k) l a) as ([d' bn] & -> & Hk & Hr & _ & Hbn) end.
  - split; [done|]. split; [split; [done|]; split; [intros k l Hk; by exists l|done]|]. split; [done|].
    by intros ? ?%elem_of_nil.
  - intros pre [k l] rest [d1 bn] Hl (Hk1 & (Hnd1 & Hr1 & Hr1') & Hrest & Hbn).
    assert (od_get d k = Some l) as Hkl by (apply od_elem_get; [done|rewrite Hl; set_solver]).
    destruct (Hd _ _ Hkl) as [Hki Hli]. destruct (node_at k Hki) as (n & Hn & ->). simpl.
    assert ((k, l) ∉ pre) as Hnew.
    { intros Hin. unfold od_keys in Hnd. rewrite Hl, fmap_app, fmap_cons, NoDup_app in Hnd. destruct Hnd as (_ & Hdis & _).
      apply (Hdis k); [by apply (list_elem_of_fmap_2 fst) in Hin|left]. }
    destruct (target n) eqn:Et.
    + exists (d1, bn). split; [done|]. split; [done|]. split; [done|]. split; [|done].
      intros k' l' H' Hn'. apply Hrest; [done|]. set_solver.
    + destruct (prune_loop_ok (od_keys d) k (length l) 0 l true bn Hli) as (l' & m & -> & Hsub). simpl.
      eexists. split; [done|]. assert (k ∈ od_keys d) as Hkd by (by eapply od_get_Some_key).
      assert (¬ target_at k) as Hnt by (intros (n' & ? & ?); congruence).
      split; [|split; [|split]].
      * rewrite od_keys_set. assert (od_mem d1 k = true) as -> by (apply od_mem_true; by rewrite Hk1). done.
      * split; [by apply od_set_NoDup|]. split.
        -- intros k' l1. rewrite od_get_set. case_decide as Hkk; [|apply Hr1]. intros [= <-]. subst k'.
           exists l. split; [done|]. split; [done|]. by intros ?.
        -- intros k' Ht Hk'. apply keys_set. right. by apply Hr1'.
      * intros k' l1 H' Hn'. rewrite not_elem_of_app in Hn'. destruct Hn' as [Hn1 Hn2].
        rewrite od_get_set_ne; [by apply Hrest|]. intros <-. apply Hn2. rewrite Hkl in H'. injection H' as <-. left.
      * intros k' [?|Hk']%elem_of_app; [by apply Hbn|]. apply elem_of_replicate in Hk' as [-> _]. done.
  - by exists d', bn.
Qed.

Lemma dels_reduced d bn : NoDup (od_keys d) → (∀ k, k ∈ bn → ¬ target_at k) → reduced_from d (foldl od_del d bn).
Proof.
  revert d. induction bn as [|k bn IH]; intros d Hnd Hbn; simpl.
  - split; [done|]. split; [intros k l Hk; by exists l|done].
  - eapply reduced_from_trans; [|apply IH; [by apply od_del_NoDup|intros k' Hk'; apply Hbn; by right]].
    split; [by apply od_del_NoDup|]. split.
    + intros k' l Hk'. exists l. split; [|done]. apply od_get_elem in Hk'. apply od_del_subseteq in Hk'. by apply od_elem_get.
    + intros k' Ht Hk'. apply od_key_iff. rewrite od_get_del_ne; [by apply od_key_iff|]. intros <-. by apply (Hbn k); [left|].
Qed.

Lemma dels_length (bn : list nat) : ∀ d : list (nat * list nat), length (foldl od_del d bn) ≤ length d.
Proof.
  induction bn as [|k bn IH]; intros d; simpl; [done|]. etrans; [apply IH|]. apply sublist_length, od_del_sublist.
Qed.

Lemma reduce_boundary_ok fuel : ∀ d, length d < fuel → indices_ok d →
  ∃ d', reduce_boundary target_ops input_names fuel node_list d = Ret d' ∧ reduced_from d d'.
Proof.
  induction fuel as [|fuel IH]; intros d Hf Hd; [lia|]. simpl.
  destruct (prune_round_ok d Hd) as (d1 & bn & -> & Hk & Hr & Hbn). simpl. destruct bn as [|k bn]; [by exists d1|].
  assert (reduced_from d1 (foldl od_del d1 (k :: bn))) as Hr1.
  { apply dels_reduced; [apply Hr|]. intros k' Hk'. by apply Hbn. }
  pose proof (reduced_from_trans _ _ _ Hr Hr1) as Hr2.
  destruct (IH (foldl od_del d1 (k :: bn))) as (d2 & Hd2 & Hr3).
  - destruct (Hbn k) as [Hkd _]; [left|]. rewrite <-Hk in Hkd. apply od_key_iff in Hkd as [l Hl].
    pose proof (Permutation_length (od_del_perm _ _ _ Hl)) as Hlen. simpl in Hlen.
    pose proof (dels_length bn (od_del d1 k)). simpl.
    assert (length d1 = length d) by (rewrite <-(length_fmap fst d1), <-(length_fmap fst d); unfold od_keys in Hk; by rewrite Hk). lia.
  - by eapply reduced_indices.
  - exists d2. split; [exact Hd2|]. by eapply reduced_from_trans.
Qed.

(** ** The removal of nodes without inputs *)

(** The nodes [g] are gone from the keys, and only they from the inputs; the inputs of a
    node that is gone are gone. *)
Record gone_from (g : list nat) (d d' : list (nat * list nat)) : Prop := {
  gone_nodup : NoDup (od_keys d');
  gone_sub : g ⊆ od_keys d;
  gone_keys k : k ∈ od_keys d' ↔ k ∈ od_keys d ∧ k ∉ g;
  gone_get k l' : od_get d' k = Some l' → ∃ l, od_get d k = Some l ∧ l' `sublist_of` l ∧ ∀ a, a ∈ l → a ∈ l' ∨ a ∈ g;
  gone_empty k l : k ∈ g → od_get d k = Some l → ∀ a, a ∈ l → a ∈ g
}.

Lemma gone_refl d : NoDup (od_keys d) → gone_from [] d d.
Proof.
  intros Hnd. split; [done|by intros ? ?%elem_of_nil| | |by intros ? ? ?%elem_of_nil].
  - intros k. split; [|by intros [? _]]. split; [done|by apply not_elem_of_nil].
  - intros k l Hk. exists l. split; [done|]. split; [done|]. by left.
Qed.

Lemma gone_trans g1 g2 d d1 d2 : gone_from g1 d d1 → gone_from g2 d1 d2 → gone_from (g1 ++ g2) d d2.
Proof.
  intros H1 H2. split.
  - apply (gone_nodup _ _ _ H2).
  - intros k [Hk|Hk]%elem_of_app; [by apply (gone_sub _ _ _ H1)|].
    by apply (gone_sub _ _ _ H2), (gone_keys _ _ _ H1) in Hk as [? _].
  - intros k. rewrite (gone_keys _ _ _ H2), (gone_keys _ _ _ H1), not_elem_of_app. tauto.
  - intros k l2 Hk. destruct (gone_get _ _ _ H2 _ _ Hk) as (l1 & Hk1 & Hs2 & He2).
    destruct (gone_get _ _ _ H1 _ _ Hk1) as (l & Hk0 & Hs1 & He1). exists l. split; [done|]. split; [by etrans|].
    intros a Ha. rewrite elem_of_app. destruct (He1 a Ha) as [Ha1|?]; [|tauto]. destruct (He2 a Ha1); tauto.
  - intros k l Hk Hl a Ha. rewrite elem_of_app. destruct (decide (k ∈ g1)) as [Hk1|Hk1].
    { left. by eapply (gone_empty _ _ _ H1). }
    apply elem_of_app in Hk as [Hk|Hk]; [done|].
    assert (k ∈ od_keys d1) as [l1 Hl1]%od_key_iff by (by apply (gone_sub _ _ _ H2)).
    destruct (gone_get _ _ _ H1 _ _ Hl1) as (l0 & Hl0 & _ & He). assert (l0 = l) as -> by congruence.
    destruct (He a Ha) as [Ha1|?]; [|by left]. right. by eapply (gone_empty _ _ _ H2).
Qed.

Definition removal_error (e : exn) : Prop := e = KeyError ∨ e = ValueError.

(** One node without inputs. *)
Lemma remove_one_ok out_node_dict d node : NoDup (od_keys d) → od_get d node = Some [] →
  match remove_empty out_node_dict [node] d with
  | Ret d' => gone_from [node] d d'
  | Raise e => removal_error e
  end.
Proof.
  intros Hnd Hnode. unfold remove_empty. simpl. unfold od_at at 1. rewrite Hnode. simpl.
  assert (gone_from [node] d (od_del d node)) as Hdel.
  { split.
    - by apply od_del_NoDup.
    - intros k ->%list_elem_of_singleton. by eapply od_get_Some_key.
    - intros k. rewrite list_elem_of_singleton, !od_key_iff. rewrite od_get_del by done. case_decide as Hk.
      + subst. split; [by intros [? ?]|]. by intros [_ []].
      + split; [by intros ?|by intros [? _]].
    - intros k l. rewrite od_get_del by done. case_decide; [done|]. intros Hk. exists l. split; [done|]. split; [done|]. by left.
    - intros k l ->%list_elem_of_singleton. rewrite Hnode. intros [= <-] a ?%elem_of_nil. done. }
  destruct (od_get out_node_dict node) as [outs|]; [|done].
  revert Hdel. generalize (od_del d node) as d1. induction outs as [|o outs IH]; intros d1 Hd1; simpl; [done|].
  unfold od_at. destruct (od_get d1 o) as [l|] eqn:El; simpl; [|by left].
  destruct (pyremove node l) as [l'|e] eqn:Er; simpl.
  2: { unfold pyremove in Er. case_decide; [done|]. injection Er as <-. by right. }
  apply pyremove_Ret in Er as ->. apply IH. split.
  - apply od_set_NoDup, Hd1.
  - apply Hd1.
  - intros k. rewrite keys_set, (gone_keys _ _ _ Hd1). split; [|tauto]. intros [->|?]; [|done].
    apply (gone_keys _ _ _ Hd1). by eapply od_get_Some_key.
  - intros k l2. rewrite od_get_set. case_decide as Hk; [|apply Hd1]. intros [= <-]. subst k.
    destruct (gone_get _ _ _ Hd1 _ _ El) as (l0 & Hl0 & Hs & He). exists l0. split; [done|].
    split; [etrans; [apply remove1_sublist|done]|]. intros a Ha. destruct (He a Ha) as [Ha1|?]; [|by right].
    destruct (elem_remove1 node a l Ha1) as [?| ->]; [by left|right; left].
  - apply Hd1.
Qed.

Lemma remove_empty_ok out_node_dict empties : ∀ d, NoDup (od_keys d) → NoDup empties →
  (∀ k, k ∈ empties → od_get d k = Some []) →
  match remove_empty out_node_dict empties d with
  | Ret d' => gone_from empties d d'
  | Raise e => removal_error e
  end.
Proof.
  induction empties as [|k ks IH]; intros d Hnd Hks He; [by apply gone_refl|].
  apply NoDup_cons in Hks as [Hk Hks].
  pose proof (remove_one_ok out_node_dict d k Hnd (He k (list_elem_of_here _ _))) as H1.
  assert (remove_empty out_node_dict (k :: ks) d = let? d1 := remove_empty out_node_dict [k] d in remove_empty out_node_dict ks d1) as ->.
  { unfold remove_empty. simpl. destruct (od_at d k); simpl; [|done].
    destruct (od_get out_node_dict k); simpl; [|done]. by destruct (pfold _ _ _). }
  destruct (remove_empty out_node_dict [k] d) as [d1|e]; simpl; [|done].
  specialize (IH d1 (gone_nodup _ _ _ H1) Hks). destruct (remove_empty out_node_dict ks d1) as [d2|e].
  - change (k :: ks) with ([k] ++ ks). eapply gone_trans; [done|]. apply IH. intros j Hj.
    assert (j ∈ od_keys d1) as [l Hl]%od_key_iff.
    { apply (gone_keys _ _ _ H1). split; [|by intros ->%list_elem_of_singleton].
      eapply od_get_Some_key, He. by right. }
    destruct (gone_get _ _ _ H1 _ _ Hl) as (l0 & Hl0 & Hs & _). rewrite He in Hl0 by (by right). injection Hl0 as <-.
    apply sublist_nil_r in Hs as ->. done.
  - apply IH. intros j Hj. assert (j ∈ od_keys d1) as [l Hl]%od_key_iff.
    { apply (gone_keys _ _ _ H1). split; [|by intros ->%list_elem_of_singleton].
      eapply od_get_Some_key, He. by right. }
    destruct (gone_get _ _ _ H1 _ _ Hl) as (l0 & Hl0 & Hs & _). rewrite He in Hl0 by (by right). injection Hl0 as <-.
    apply sublist_nil_r in Hs as ->. done.
Qed.

Lemma empty_keys_spec d : NoDup (od_keys d) → NoDup (empty_keys d) ∧ ∀ k, k ∈ empty_keys d ↔ od_get d k = Some [].
Proof.
  intros Hnd. split.
  - unfold empty_keys, od_keys. eapply sublist_NoDup; [exact Hnd|]. apply fmap_sublist, sublist_filter.
  - intros k. unfold empty_keys, od_keys. rewrite list_elem_of_fmap. split.
    + intros ([k' l] & -> & [Hl Hin]%list_elem_of_filter). simpl in Hl. subst l. by apply od_elem_get.
    + intros Hk. exists (k, []). split; [done|]. apply list_elem_of_filter. split; [done|by apply od_get_elem].
Qed.

Lemma drop_empty_ok out_node_dict fuel : ∀ d, length d < fuel → NoDup (od_keys d) →
  match drop_empty fuel out_node_dict d with
  | Ret d' => (∀ k, od_get d' k ≠ Some []) ∧ ∃ g, gone_from g d d'
  | Raise e => removal_error e
  end.
Proof.
  induction fuel as [|fuel IH]; intros d Hf Hnd; [lia|]. simpl.
  destruct (empty_keys_spec d Hnd) as [Hend Hespec]. destruct (empty_keys d) as [|k ks] eqn:Ee.
  - split; [|exists []; by apply gone_refl]. intros k Hk. apply Hespec in Hk. by apply elem_of_nil in Hk.
  - pose proof (remove_empty_ok out_node_dict (k :: ks) d Hnd Hend (λ j Hj, proj1 (Hespec j) Hj)) as H1.
    destruct (remove_empty out_node_dict (k :: ks) d) as [d1|e]; simpl; [|done].
    assert (length d1 < length d) as Hlt.
    { apply (length_keys_le d d1 k); [apply H1|apply (gone_sub _ _ _ H1); left| |].
      - intros Hk. apply (gone_keys _ _ _ H1) in Hk as [_ Hk]. apply Hk. left.
      - intros j Hj. by apply (gone_keys _ _ _ H1) in Hj as [? _]. }
    specialize (IH d1 ltac:(lia) (gone_nodup _ _ _ H1)).
    destruct (drop_empty fuel out_node_dict d1) as [d2|e]; [|done]. destruct IH as [He (g & Hg)]. split; [done|].
    exists ((k :: ks) ++ g). by eapply gone_trans.
Qed.

(** ** The dictionary of input nodes *)

(** C11: On a node list whose inputs come first, the construction of the dictionary of input
    nodes ends.  Its keys are tuned operators and nodes with several inputs; the inputs
    of a key are some of its nearest such ancestors, in the order of the search,
    at least one, and they come before it.  A tuned operator is kept together with every nearest
    ancestor that is a graph input or is kept itself: only what depends on
    constants alone is dropped.  The only exceptions are those of the removal of
    nodes without inputs from lists that do not have them. *)
Theorem get_in_nodes_spec :
  match get_in_nodes target_ops input_names node_list with
  | Raise e => removal_error e
  | Ret d => NoDup (od_keys d) ∧
      (∀ k l, (k, l) ∈ d → stops k = true ∧ l ≠ [] ∧ l `sublist_of` anc k ∧
         ∀ a, a ∈ l → nearest k a ∧ a < k) ∧
      (∀ k a, plain k → target_at k → nearest k a →
         (∃ n, node_list !! a = Some n ∧ boundary n = true) ∨ a ∈ od_keys d → ∃ l, (k, l) ∈ d ∧ a ∈ l)
  end.
Proof.
  unfold get_in_nodes. destruct visit_all_ok as (v & -> & Hv & Hall).
  destruct (select_nodes_ok v Hv Hall) as (d0 & -> & Hsel). cbn [pbind].
  assert (indices_ok d0) as Hind.
  { split; [apply Hsel|]. intros k l Hk. destruct (sel_get _ Hsel _ _ Hk) as (-> & _ & n & Hn & Hb).
    pose proof (lookup_lt_Some _ _ _ Hn). split; [done|]. intros a Ha%anc_nearest.
    pose proof (nearest_lt _ _ _ Hn Hb Ha). lia. }
  destruct (reduce_boundary_ok (S (length d0)) d0) as (d1 & -> & Hr); [lia|done|]. cbn [pbind].
  pose proof (drop_empty_ok (get_out_nodes d0) (S (length d1)) d1 ltac:(lia) (proj1 Hr)) as Hd.
  destruct (drop_empty _ _ d1) as [d|e]; [|done]. destruct Hd as [Hne (g & Hg)]. destruct Hr as (Hnd1 & Hr & Hrt).
  assert (∀ k l, od_get d k = Some l → ∃ l1, od_get d1 k = Some l1 ∧ l `sublist_of` l1 ∧ l1 `sublist_of` anc k ∧
    stops k = true ∧ ∃ n, node_list !! k = Some n ∧ boundary n = false) as Hget.
  { intros k l Hk. destruct (gone_get _ _ _ Hg _ _ Hk) as (l1 & Hk1 & Hs1 & _).
    destruct (Hr _ _ Hk1) as (l0 & Hk0 & Hs0 & _). destruct (sel_get _ Hsel _ _ Hk0) as (-> & Hst & Hn). by exists l1. }
  split; [apply Hg|]. split.
  - intros k l Hkl. apply od_elem_get in Hkl; [|apply Hg].
    destruct (Hget _ _ Hkl) as (l1 & _ & Hs1 & Hs & Hst & n & Hn & Hb). assert (l `sublist_of` anc k) as Hsub by (by etrans).
    split; [done|]. split; [intros ->; by eapply Hne|]. split; [done|]. intros a Ha.
    assert (nearest k a) as Hnear by (apply anc_nearest; by eapply elem_of_sublist). split; [done|]. by eapply nearest_lt.
  - intros k a Hp Ht Hnear Ha. pose proof Hp as (n & Hn & Hb & _).
    assert (stops k = true) as Hst.
    { destruct Ht as (n' & Hn' & Ht). unfold stops. by rewrite Hn', Ht. }
    assert (k ∈ od_keys d0) as Hk0 by (by apply (sel_all _ Hsel)).
    pose proof (Hrt k Ht Hk0) as Hk1. apply od_key_iff in Hk1 as [l1 Hl1].
    destruct (Hr _ _ Hl1) as (l0 & Hl0 & _ & Heq). rewrite (Heq Ht) in Hl1.
    destruct (sel_get _ Hsel _ _ Hl0) as (-> & _). apply anc_nearest in Hnear.
    assert (a ∉ g) as Hag.
    { intros Hag. destruct Ha as [(m & Hm & Hbm)|Hak]; [|by apply (gone_keys _ _ _ Hg) in Hak as [_ ?]].
      apply (gone_sub _ _ _ Hg), od_key_iff in Hag as [la Hla]. destruct (Hr _ _ Hla) as (la0 & Hla0 & _).
      destruct (sel_get _ Hsel _ _ Hla0) as (_ & _ & m' & ? & ?). congruence. }
    assert (k ∈ od_keys d) as [l Hl]%od_key_iff.
    { apply (gone_keys _ _ _ Hg). split; [by eapply od_get_Some_key|]. intros Hkg. by eapply Hag, (gone_empty _ _ _ Hg). }
    exists l. split; [by apply od_get_elem|]. destruct (gone_get _ _ _ Hg _ _ Hl) as (l2 & Hl2 & _ & He).
    assert (l2 = anc k) as -> by congruence. by destruct (He a Hnear).
Qed.
End Spec.
