(* ===== verification/GraphBase.v ===== *)
(** * The base of the graph tuners

    The candidates of the nodes, the layout transformations between the candidates
    of neighbours, their benchmark, and the matrices that the tuners search.
    Source: src/python/tvm/autotvm/graph_tuner/base_graph_tuner.py. *)

From S2P Require Import Prelude Pbqp GraphTraverse.

(** An argument of a workload: a tensor by shape and type, or another value. *)
Inductive arg :=
  | Tensor (shape : list Z) (dtype : string)
  | Other (text : string).

(** A workload: the name of the task and its arguments. *)
Definition workload : Type := string * list arg.

#[global] Instance arg_eq_dec : EqDecision arg.
Proof. solve_decision. Defined.

(** What a template says of its inputs or outputs: shape and layout of each. *)
Definition layout_info : Type := list (list Z * string).

(** The arguments of a layout transformation: the shape of its data, and two layouts. *)
Record ltf_args := mkArgs { a_shape : list Z; a_in_layout : string; a_out_layout : string }.

Section Base.
Context `{CostOps, Numpy}.

(** Configurations of templates, and what the functions of TOPI infer from them. *)
Context {cfg : Type}.
Context (conv2d_infer_layout depthwise_conv2d_infer_layout : workload → cfg → py (layout_info * layout_info)).

(** A measurement: workload, configuration and [costs[0]]. *)
Record mrec := mkRec { r_workload : workload; r_config : cfg; r_cost : num }.

(** Arithmetic of times with integers: [time / flops] and [flops * time]. *)
Context (num_div : num → Z → num) (num_scale : Z → num → num).

(** The shape of a transformed tensor, and the time measured on the device, [None] for a failure. *)
Context (transformed_shape : list Z → string → string → list Z) (device_time : workload → option num).

Context (target_ops input_names : list string) (dtype : string).

(** [get_infer_layout] of a task name, which may be [None]. *)
Definition get_infer_layout (task_name : option string) : py (workload → cfg → py (layout_info * layout_info)) :=
  match task_name with
  | None => Raise AttributeError
  | Some task_name =>
      if startswith task_name "conv2d" then Ret conv2d_infer_layout
      else if startswith task_name "depthwise_conv2d" then Ret depthwise_conv2d_infer_layout
      else Raise ValueError
  end.

(** The entries of a node that the tuner adds: operators and workloads ([None] for an input
    that is a boundary node), and the candidates once they are known. *)
Record attr := mkAttr {
  topi_op : list (option string);
  workloads : list (option workload);
  record_candidates : option (list mrec)
}.

Abbreviation attrs := (gmap nat attr).

(** [node["record_candidates"]]. *)
Definition candidates (at_ : attrs) (i : nat) : py (list mrec) :=
  let? a := dget at_ i in
  match record_candidates a with Some l => Ret l | None => Raise KeyError end.

(** ** [_fetch_cfg] *)

(** The records of each workload, in order. *)
Definition group_records (records : list mrec) : list (workload * list mrec) :=
  foldl (λ d r, od_set d (r_workload r) (default [] (od_get d (r_workload r)) ++ [r])) [] records.

(** The best record of each pair of layouts. *)
Definition track_layouts (infer : workload → cfg → py (layout_info * layout_info)) (records : list mrec) :
    py (list ((layout_info * layout_info) * mrec)) :=
  pfold (λ d r,
    let? layouts := infer (r_workload r) (r_config r) in
    Ret (match od_get d layouts with
         | Some best => if num_ltb (r_cost r) (r_cost best) then od_set d layouts r else d
         | None => od_set d layouts r
         end)) [] records.

(** [sorted(..., key=cost)]: stable. *)
Fixpoint insert_record (r : mrec) (l : list mrec) : list mrec :=
  match l with
  | [] => [r]
  | x :: l' => if num_ltb (r_cost x) (r_cost r) then x :: insert_record r l' else r :: l
  end.
Definition sort_records (l : list mrec) : list mrec := foldr insert_record [] l.

(** The candidates of a workload. *)
Definition node_candidates (max_sch_num : Z) (infer : workload → cfg → py (layout_info * layout_info))
    (records : list mrec) : py (list mrec) :=
  let? tracked := track_layouts infer records in
  Ret (take (Z.to_nat max_sch_num) (sort_records (od_vals tracked))).

(** The body of the loop over the nodes. *)
Definition fetch_node (max_sch_num : Z) (node_list : list node_entry) (cfg_dict : list (workload * list mrec))
    (st : attrs * list (option workload * list mrec)) (key : nat) :
    py (attrs * list (option workload * list mrec)) :=
  let '(at_, cache_dict) := st in
  let? node := lnth node_list key in
  if negb (is_target target_ops node) then Ret (at_, cache_dict) else
  let? a := dget at_ key in
  let? w := lnth (workloads a) 0 in
  match od_get cache_dict w with
  | Some l => Ret (<[key := mkAttr (topi_op a) (workloads a) (Some l)]> at_, cache_dict)
  | None =>
      let? op := lnth (topi_op a) 0 in
      let? infer := get_infer_layout op in
      match w ≫= od_get cfg_dict with
      | Some records =>
          let? l := node_candidates max_sch_num infer records in
          Ret (<[key := mkAttr (topi_op a) (workloads a) (Some l)]> at_, od_set cache_dict w l)
      | None => Raise KeyError
      end
  end.

Definition fetch_cfg (max_sch_num : Z) (records : list mrec) (node_list : list node_entry) (nodes : list nat)
    (at_ : attrs) : py attrs :=
  let? (at_, _) := pfold (fetch_node max_sch_num node_list (group_records records)) (at_, []) nodes in
  Ret at_.

(** ** Nodes with several inputs *)

(** [types[0].shape] of the nodes. *)
Context (out_shape : nat → list Z).

(** The workload of an input with the shape of the node as its first tensor. *)
Definition actual_workload (idx : nat) (w : option workload) : py workload :=
  match w with
  | None => Raise TypeError
  | Some (name, args) =>
      match args with
      | [] => Raise IndexError
      | Tensor _ ty :: args' => Ret (name, Tensor (out_shape idx) ty :: args')
      | Other _ :: _ => Raise TypeError
      end
  end.

(** An input of a node with several inputs. *)
Definition add_input (node_list : list node_entry) (idx : nat) (at_ : attrs) (a : attr) (input_idx : nat) : py attr :=
  let? input_node := lnth node_list input_idx in
  if is_boundary_node input_names input_node then
    Ret (mkAttr (topi_op a ++ [None]) (workloads a ++ [None]) (record_candidates a))
  else
    let? b := dget at_ input_idx in
    let? input_topi_op := lnth (topi_op b) 0 in
    let? input_workload := lnth (workloads b) 0 in
    let? w := actual_workload idx input_workload in
    let? cands := match record_candidates a with
                  | Some l => Ret l
                  | None => candidates at_ input_idx
                  end in
    Ret (mkAttr (topi_op a ++ [input_topi_op]) (workloads a ++ [Some w]) (Some cands)).

(** The end of the constructor. *)
Definition setup_multi (node_list : list node_entry) (in_nodes_dict : list (nat * list nat)) (at_ : attrs) : py attrs :=
  pfold (λ at_ idx,
    let? is_multi := multi input_names node_list idx in
    if negb is_multi then Ret at_ else
    let? inputs := od_at in_nodes_dict idx in
    let? a := pfold (add_input node_list idx at_) (mkAttr [] [] (at_ !! idx ≫= record_candidates)) inputs in
    Ret (<[idx := a]> at_)) at_ (sorted_nodes (od_keys in_nodes_dict)).

(** ** [_iterate_layout_transform] *)

(** The first workload that is not [None], with its operator. *)
Fixpoint pivot (ops : list (option string)) (ws : list (option workload)) : py (option string * workload) :=
  match ops, ws with
  | op :: ops', w :: ws' => match w with Some w => Ret (op, w) | None => pivot ops' ws' end
  | _, _ => Raise IndexError
  end.

Definition infer_at (infer : workload → cfg → py (layout_info * layout_info)) (w : option workload) (r : mrec) :
    py (layout_info * layout_info) :=
  match w with Some w => infer w (r_config r) | None => Raise TypeError end.

(** What the two ends of a pair are inferred from. *)
Record pair_info := mkPair {
  p_to : nat;
  p_i_infer : mrec → py (layout_info * layout_info);
  p_o_infer : mrec → py (layout_info * layout_info)
}.

(** The pair of node [key] and its input number [i]; [None] for [continue]. *)
Definition layout_pair (node_list : list node_entry) (at_ : attrs) (key : nat) (target_input : option (nat * nat))
    (i i_idx : nat) : py (option pair_info) :=
  let? in_node := lnth node_list i_idx in
  if is_boundary_node input_names in_node then Ret None else
  let? node := lnth node_list key in
  if is_target target_ops node then
    let? o := dget at_ key in
    let? o_op := lnth (topi_op o) 0 in
    let? o_infer := get_infer_layout o_op in
    let? o_wkl := lnth (workloads o) 0 in
    let? b := dget at_ i_idx in
    let? (i_op, i_wkl) := pivot (topi_op b) (workloads b) in
    let? i_infer := get_infer_layout i_op in
    Ret (Some (mkPair key (infer_at i_infer (Some i_wkl)) (infer_at o_infer o_wkl)))
  else
    match target_input with
    | None => Raise IndexError
    | Some (pos, o_idx) =>
        if i <=? pos then Ret None else
        let? o := dget at_ key in
        let? o_op := lnth (topi_op o) 0 in
        let? o_infer := get_infer_layout o_op in
        let? o_wkl := lnth (workloads o) pos in
        let? i_op := lnth (topi_op o) i in
        let? i_infer := get_infer_layout i_op in
        let? i_wkl := lnth (workloads o) i in
        Ret (Some (mkPair o_idx (infer_at i_infer i_wkl) (infer_at o_infer o_wkl)))
    end.

(** The arguments of the transformation between two candidates. *)
Definition pair_args (tuned : bool) (p : pair_info) (i_record o_record : mrec) : py ltf_args :=
  let? (i_input_info, i_output_info) := p_i_infer p i_record in
  let? (o_input_info, o_output_info) := p_o_infer p o_record in
  if (1 <? length i_input_info) || (1 <? length i_output_info) || (1 <? length o_input_info) ||
     (1 <? length o_output_info) then Raise RuntimeError else
  let? (in_shape, in_layout) := lnth i_output_info 0 in
  let? (_, out_layout) := lnth (if tuned then o_input_info else o_output_info) 0 in
  Ret (mkArgs in_shape in_layout out_layout).

(** The first input of a node with several inputs that is not a boundary node. *)
Definition target_input (node_list : list node_entry) (key : nat) (val : list nat) : py (option (nat * nat)) :=
  let? is_multi := multi input_names node_list key in
  if negb is_multi then Ret None else
  let? nodes := pymap (lnth node_list) val in
  Ret (match list_find (λ n, is_boundary_node input_names n = false) nodes with
       | Some (pos, _) => (λ idx, (pos, idx)) <$> val !! pos
       | None => None
       end).

Definition iterate_layout_transform {S} (node_list : list node_entry) (in_nodes_dict : list (nat * list nat))
    (at_ : attrs) (callback : nat → nat → nat → nat → ltf_args → ST S unit) : ST S unit :=
  let! _ := sfold (λ pair_tracker '(key, val),
    let! node := slift (lnth node_list key) in
    let! t := slift (target_input node_list key val) in
    sfold (λ pair_tracker '(i, i_idx),
      let! found := slift (layout_pair node_list at_ key t i i_idx) in
      match found with
      | None => sret pair_tracker
      | Some p =>
          if bool_decide ((i_idx, p_to p) ∈ pair_tracker) then sret pair_tracker else
          let! i_records := slift (candidates at_ i_idx) in
          let! _ := sfor (enumerate i_records) (λ '(m, i_record),
            let! o_records := slift (candidates at_ key) in
            sfor (enumerate o_records) (λ '(n, o_record),
              let! args := slift (pair_args (is_target target_ops node) p i_record o_record) in
              callback i_idx (p_to p) m n args)) in
          sret (pair_tracker ++ [(i_idx, p_to p)])
      end) pair_tracker (enumerate val)) [] in_nodes_dict in
  sret tt.

(** ** The benchmark *)

(** [args_to_workload(args, "layout_transform")]. *)
Definition ltf_workload (args : ltf_args) : workload :=
  ("layout_transform", [Tensor (a_shape args) dtype; Other (a_in_layout args); Other (a_out_layout args)]).

(** The times of layout transformations and the matrices. *)
Record ltf_state := mkLtf {
  perf_records : list (workload * num);
  interlayer_cost : gmap (nat * nat) (list (list num))
}.

Definition create_matrix_callback (from_node_idx to_node_idx from_sch_idx to_sch_idx : nat) (args : ltf_args) :
    ST ltf_state unit :=
  let! s := sget in
  let! layout_transform_time :=
    if bool_decide (a_in_layout args = a_out_layout args) then sret num_zero
    else match od_get (perf_records s) (ltf_workload args) with
         | Some t => sret t
         | None => sraise KeyError
         end in
  let rows := default [] (interlayer_cost s !! (from_node_idx, to_node_idx)) in
  let rows := if length rows <=? from_sch_idx then rows ++ [[]] else rows in
  let! row := slift (lnth rows from_sch_idx) in
  let! rows := slift (lset rows from_sch_idx (row ++ [layout_transform_time])) in
  sput (mkLtf (perf_records s) (<[(from_node_idx, to_node_idx) := rows]> (interlayer_cost s))).

(** The records given: times, their sum and the elements transformed. *)
Definition load_layout_records (layout_records : list (workload * num)) (perf : list (workload * num)) :
    py (list (workload * num) * Z * num) :=
  pfold (λ '(perf, num_flops, total_time) '(ltf_wkl, time),
    match ltf_wkl.2 with
    | [] => Raise IndexError
    | Other _ :: _ => Raise TypeError
    | Tensor input_shape _ :: _ =>
        Ret (od_set perf ltf_wkl time, (num_flops + np_prod input_shape)%Z, num_add total_time time)
    end) (perf, 0%Z, num_zero) layout_records.

(** The time of a transformation that is not in the records. *)
Definition transform_time (infer_layout : bool) (avg_time : num) (args : ltf_args) : num :=
  if infer_layout then
    let flops := zprod (a_shape args) in
    let out_flops := zprod (transformed_shape (a_shape args) (a_in_layout args) (a_out_layout args)) in
    if bool_decide (flops = out_flops) then num_scale flops avg_time else INVALID_LAYOUT_TIME
  else default INVALID_LAYOUT_TIME (device_time (ltf_workload args)).

(** [benchmark_layout_transform] with [layout_records] given as a list or [None]. *)
Definition benchmark_layout_transform (node_list : list node_entry) (in_nodes_dict : list (nat * list nat))
    (at_ : attrs) (layout_records : option (list (workload * num))) (infer_layout : bool) : ST ltf_state unit :=
  if bool_decide (layout_records = None) && infer_layout then sraise RuntimeError else
  let! s := sget in
  let! (perf, num_flops, total_time) := slift (load_layout_records (default [] layout_records) (perf_records s)) in
  let! _ := sput (mkLtf perf (interlayer_cost s)) in
  let avg_time := if (0 <? num_flops)%Z then num_div total_time num_flops else num_zero in
  match iterate_layout_transform node_list in_nodes_dict at_ (λ _ _ _ _ args,
          if bool_decide (a_in_layout args = a_out_layout args) then sret tt else smod (λ l, l ++ [args])) [] with
  | (Raise e, _) => sraise e
  | (Ret _, args_list) =>
      let! _ := sfor args_list (λ args, smod (λ s,
        if od_mem (perf_records s) (ltf_workload args) then s
        else mkLtf (od_set (perf_records s) (ltf_workload args) (transform_time infer_layout avg_time args))
               (interlayer_cost s))) in
      iterate_layout_transform node_list in_nodes_dict at_ create_matrix_callback
  end.

(** ** [get_optimal_records] *)

Definition get_optimal_records (node_list : list node_entry) (at_ : attrs) (optimal_record_dict : list (nat * nat)) :
    py (list mrec) :=
  let? ls := pymap (λ index,
    let? node := lnth node_list index in
    if negb (is_target target_ops node) then Ret [] else
    let? cands := candidates at_ index in
    let? i := od_at optimal_record_dict index in
    let? r := lnth cands i in
    Ret [r]) (sorted_nodes (od_keys optimal_record_dict)) in
  Ret (concat ls).
End Base.
