(* ===== verification/GraphBaseSpec.v ===== *)
(** * The base of the graph tuners: candidates and matrices

    The candidates that [fetch_cfg] chooses, and the matrices that
    [benchmark_layout_transform] leaves, with the lemmas on loops that return. *)

From S2P Require Import Prelude Pbqp PbqpState PbqpRun GraphTraverse GraphTraverseSpec GraphBase.

(** ** Loops that return *)

Lemma pfold_Ret_inv {A B} (f : A → B → py A) (P : list B → A → Prop) l a a' :
  pfold f a l = Ret a' → P [] a →
  (∀ pre x post b b', l = pre ++ x :: post → P pre b → f b x = Ret b' → P (pre ++ [x]) b') → P l a'.
Proof.
  intros Hf H0 Hstep. assert (∀ post pre b, l = pre ++ post → P pre b → pfold f b post = Ret a' → P l a') as Hgen.
  { induction post as [|x post IH]; intros pre b Hl HP Hb; simpl in Hb.
    - injection Hb as <-. rewrite app_nil_r in Hl. by subst pre.
    - destruct (f b x) as [b'|] eqn:Ex; [|done]. simpl in Hb. apply (IH (pre ++ [x]) b'); [by rewrite <-app_assoc| |done].
      by eapply Hstep. }
  by apply (Hgen l [] a).
Qed.

Lemma sfold_Ret_inv {S A B} (f : A → B → ST S A) (P : list B → A → S → Prop) l a s a' s' :
  sfold f a l s = (Ret a', s') → P [] a s →
  (∀ pre x post b t b' t', l = pre ++ x :: post → P pre b t → f b x t = (Ret b', t') → P (pre ++ [x]) b' t') → P l a' s'.
Proof.
  intros Hf H0 Hstep. assert (∀ post pre b t, l = pre ++ post → P pre b t → sfold f b post t = (Ret a', s') → P l a' s') as Hgen.
  { induction post as [|x post IH]; intros pre b t Hl HP Hb; simpl in Hb.
    - injection Hb as <- <-. rewrite app_nil_r in Hl. by subst pre.
    - unfold sbind in Hb. destruct (f b x t) as [[b'|] t'] eqn:Ex; [|done]. apply (IH (pre ++ [x]) b' t'); [by rewrite <-app_assoc| |done].
      by eapply Hstep. }
  by apply (Hgen l [] a s).
Qed.

Lemma sfor_Ret_inv {S B} (f : B → ST S unit) (P : list B → S → Prop) l s u s' :
  sfor l f s = (Ret u, s') → P [] s →
  (∀ pre x post t t', l = pre ++ x :: post → P pre t → f x t = (Ret tt, t') → P (pre ++ [x]) t') → P l s'.
Proof.
  intros Hf H0 Hstep. assert (∀ post pre t, l = pre ++ post → P pre t → sfor post f t = (Ret u, s') → P l s') as Hgen.
  { induction post as [|x post IH]; intros pre t Hl HP Hb; simpl in Hb.
    - injection Hb as <- <-. rewrite app_nil_r in Hl. by subst pre.
    - unfold sbind in Hb. destruct (f x t) as [[[]|] t'] eqn:Ex; [|done]. apply (IH (pre ++ [x]) t'); [by rewrite <-app_assoc| |done].
      by eapply Hstep. }
  by apply (Hgen l [] s).
Qed.

Lemma dget_Ret {V} (d : gmap nat V) k v : dget d k = Ret v → d !! k = Some v.
Proof. unfold dget. destruct (d !! k); congruence. Qed.

Section Spec.
Context `{CostOps, !CostOk, Numpy} {cfg : Type}.
Context (conv2d_infer_layout depthwise_conv2d_infer_layout : workload → cfg → py (layout_info * layout_info)).
Context (target_ops input_names : list string) (dtype : string).
Abbreviation rec_t := (@mrec _ cfg).
Abbreviation attr_t := (@attr _ cfg).
Abbreviation attrs_t := (gmap nat attr_t).
Abbreviation infer_of := (get_infer_layout conv2d_infer_layout depthwise_conv2d_infer_layout).

(** ** Candidates *)

Definition cost (r : rec_t) : Z := val (r_cost r).

Lemma group_records_get (rs : list rec_t) w :
  od_get (group_records rs) w = match filter (λ r, r_workload r = w) rs with [] => None | l => Some l end.
Proof.
  unfold group_records. induction rs as [|r rs IH] using rev_ind; [done|].
  rewrite foldl_app, filter_app. simpl. rewrite od_get_set, filter_cons, filter_nil.
  case_decide as Hw.
  - subst w. rewrite IH. by destruct (filter _ rs).
  - rewrite app_nil_r. exact IH.
Qed.

Section Node.
Context (infer : workload → cfg → py (layout_info * layout_info)).
Abbreviation layouts_of r := (infer (r_workload r) (r_config r)).

Lemma track_layouts_ok rs d : track_layouts infer rs = Ret d →
  NoDup (od_keys d) ∧
  (∀ y r, od_get d y = Some r → r ∈ rs ∧ layouts_of r = Ret y) ∧
  (∀ r, r ∈ rs → ∃ y x, layouts_of r = Ret y ∧ od_get d y = Some x ∧ (cost x ≤ cost r)%Z).
Proof.
  intros Hd. unfold track_layouts in Hd.
  apply (pfold_Ret_inv _ (λ pre d, NoDup (od_keys d) ∧
    (∀ y r, od_get d y = Some r → r ∈ pre ∧ layouts_of r = Ret y) ∧
    (∀ r, r ∈ pre → ∃ y x, layouts_of r = Ret y ∧ od_get d y = Some x ∧ (cost x ≤ cost r)%Z))) in Hd; [done| |].
  { split; [constructor|]. split; [done|]. by intros ? ?%elem_of_nil. }
  clear d Hd. intros pre r post d d' _ (Hnd & Hg & Ha) Hstep. simpl in Hstep.
  destruct (layouts_of r) as [y|] eqn:Ey; [|done]. simpl in Hstep. injection Hstep as Hstep.
  assert (∀ x, od_get d y = Some x → (cost r < cost x)%Z ↔ num_ltb (r_cost r) (r_cost x) = true) as Hlt.
  { intros x _. rewrite val_ltb, bool_decide_eq_true. done. }
  assert (∀ x, d' = od_set d y r → (match od_get d y with Some x => (cost r ≤ cost x)%Z | None => True end) → x = d' →
    NoDup (od_keys d') ∧ (∀ z q, od_get d' z = Some q → q ∈ pre ++ [r] ∧ layouts_of q = Ret z) ∧
    (∀ q, q ∈ pre ++ [r] → ∃ z x, layouts_of q = Ret z ∧ od_get d' z = Some x ∧ (cost x ≤ cost q)%Z)) as Hset.
  { intros _ -> Hle _. split; [by apply od_set_NoDup|]. split.
    - intros z q. rewrite od_get_set. case_decide as Hz.
      + intros [= <-]. subst z. split; [set_solver|done].
      + intros Hq. destruct (Hg z q Hq). split; [set_solver|done].
    - intros q [Hq| ->%list_elem_of_singleton]%elem_of_app.
      + destruct (Ha q Hq) as (z & x & Hz & Hx & Hle'). exists z. rewrite od_get_set. case_decide as Hyz.
        * subst z. exists r. split; [done|]. split; [done|]. rewrite Hx in Hle. lia.
        * by exists x.
      + exists y, r. rewrite od_get_set_eq. split; [done|]. split; [done|]. lia. }
  destruct (od_get d y) as [x|] eqn:Ex; [|by eapply Hset].
  destruct (num_ltb (r_cost r) (r_cost x)) eqn:El.
  - eapply Hset; [done| |done]. apply Hlt in El; [|done]. lia.
  - subst d'. split; [done|]. split.
    + intros z q Hq. destruct (Hg z q Hq). split; [set_solver|done].
    + intros q [Hq| ->%list_elem_of_singleton]%elem_of_app; [by apply Ha|]. exists y, x. split; [done|]. split; [done|].
      destruct (decide (cost r < cost x)%Z) as [Hc|Hc]; [|lia]. apply Hlt in Hc; [congruence|done].
Qed.

Lemma insert_record_perm (r : rec_t) l : insert_record r l ≡ₚ r :: l.
Proof.
  induction l as [|x l IH]; [done|]. simpl. destruct (num_ltb _ _); [|done]. rewrite IH. constructor.
Qed.

Lemma sort_records_perm (l : list rec_t) : sort_records l ≡ₚ l.
Proof. induction l as [|r l IH]; [done|]. simpl. by rewrite insert_record_perm, IH. Qed.

Definition by_cost (x y : rec_t) : Prop := (cost x ≤ cost y)%Z.

Lemma insert_record_sorted r l : StronglySorted by_cost l → StronglySorted by_cost (insert_record r l).
Proof.
  induction 1 as [|x l Hl IH Hx]; simpl; [by repeat constructor|].
  rewrite val_ltb. case_bool_decide as Hc.
  - constructor; [done|]. rewrite insert_record_perm. constructor; [|done]. unfold by_cost, cost. lia.
  - constructor; [by constructor|]. constructor; [unfold by_cost, cost; lia|].
    eapply Forall_impl; [exact Hx|]. unfold by_cost, cost. simpl. intros y. lia.
Qed.

Lemma sort_records_sorted l : StronglySorted by_cost (sort_records l).
Proof. induction l as [|r l IH]; [constructor|]. by apply insert_record_sorted. Qed.

(** The candidates of a workload with the records [rs]: in order of their costs, of each
    pair of layouts at most one, and no record is better than what was chosen in its place. *)
Record best_candidates (max_sch_num : Z) (rs l : list rec_t) : Prop := {
  best_sorted : StronglySorted by_cost l;
  best_length : length l ≤ Z.to_nat max_sch_num;
  best_sub : l ⊆ rs;
  best_layouts i j x y : l !! i = Some x → l !! j = Some y → layouts_of x = layouts_of y → i = j;
  best_all r : r ∈ rs →
    (∃ x, x ∈ l ∧ layouts_of x = layouts_of r ∧ (cost x ≤ cost r)%Z) ∨
    length l = Z.to_nat max_sch_num ∧ ∀ x, x ∈ l → (cost x ≤ cost r)%Z
}.

Lemma take_sorted_le (l : list rec_t) n : StronglySorted by_cost l →
  ∀ x y, x ∈ take n l → y ∈ drop n l → (cost x ≤ cost y)%Z.
Proof.
  intros Hs. revert n. induction Hs as [|z l _ IH Hz]; intros n x y.
  - rewrite take_nil. by intros ?%elem_of_nil.
  - destruct n as [|n]; simpl; [by intros ?%elem_of_nil|]. intros [->|Hx]%elem_of_cons Hy; [|by eapply IH].
    rewrite Forall_forall in Hz. apply Hz. eapply sublist_subseteq; [apply sublist_drop|exact Hy].
Qed.

Lemma node_candidates_ok max_sch_num rs l : node_candidates max_sch_num infer rs = Ret l →
  best_candidates max_sch_num rs l.
Proof.
  unfold node_candidates. destruct (track_layouts infer rs) as [d|] eqn:Ed; [|done]. simpl. intros [= <-].
  destruct (track_layouts_ok rs d Ed) as (Hnd & Hg & Ha). set (n := Z.to_nat max_sch_num).
  set (all := sort_records (od_vals d)). assert (all ≡ₚ od_vals d) as Hperm by apply sort_records_perm.
  assert (StronglySorted by_cost all) as Hs by apply sort_records_sorted.
  assert (∀ x, x ∈ all ↔ ∃ y, od_get d y = Some x) as Hall.
  { intros x. rewrite Hperm. unfold od_vals. rewrite list_elem_of_fmap. split.
    - intros ([y r] & -> & Hin). exists y. by apply od_elem_get.
    - intros (y & Hy). exists (y, x). split; [done|by apply od_get_elem]. }
  split.
  - rewrite <-(take_drop n all) in Hs. clear -Hs. induction (take n all) as [|x t IH]; [constructor|].
    inversion Hs as [|? ? Hs' Hf]; subst. constructor; [by apply IH|]. rewrite Forall_app in Hf. tauto.
  - rewrite length_take. lia.
  - intros x Hx. assert (x ∈ all) as [y Hy]%Hall by (eapply sublist_subseteq; [apply sublist_take|exact Hx]).
    by destruct (Hg _ _ Hy).
  - assert (∀ i j x y, all !! i = Some x → all !! j = Some y → layouts_of x = layouts_of y → i = j) as Hinj.
    { assert (NoDup ((λ x, layouts_of x) <$> all)) as Hnd'.
      { rewrite Hperm. assert ((λ x, layouts_of x) <$> od_vals d = Ret <$> od_keys d) as ->.
        { unfold od_vals, od_keys. rewrite <-!list_fmap_compose. apply list_fmap_ext. intros i [y r] Hi. simpl.
          apply list_elem_of_lookup_2 in Hi. apply od_elem_get in Hi; [|done]. by apply Hg in Hi as [_ ?]. }
        by apply NoDup_fmap_2; [intros ? ? [= ->]|]. }
      intros i j x y Hi Hj Hxy. eapply NoDup_lookup; [exact Hnd'|by rewrite list_lookup_fmap, Hi|].
      rewrite list_lookup_fmap, Hj. simpl. by rewrite Hxy. }
    intros i j x y [Hi _]%lookup_take_Some [Hj _]%lookup_take_Some. by apply Hinj.
  - intros r Hr. destruct (Ha r Hr) as (y & x & Hy & Hx & Hle).
    assert (x ∈ all) as Hin by (apply Hall; by exists y). rewrite <-(take_drop n all) in Hin.
    apply elem_of_app in Hin as [Hin|Hin].
    + left. exists x. split; [done|]. split; [|done]. rewrite Hy. by destruct (Hg _ _ Hx).
    + right. split.
      * rewrite length_take. apply Nat.min_l. destruct (decide (n ≤ length all)); [done|].
        rewrite drop_ge in Hin by lia. by apply elem_of_nil in Hin.
      * intros z Hz. pose proof (take_sorted_le all n Hs z x Hz Hin). lia.
Qed.
End Node.

Section Fetch.
Context (max_sch_num : Z) (records : list rec_t) (node_list : list node_entry).
Abbreviation fetch_node' :=
  (fetch_node conv2d_infer_layout depthwise_conv2d_infer_layout target_ops max_sch_num node_list (group_records records)).

(** The candidates of a workload that has records. *)
Definition good_candidates (w : workload) (l : list rec_t) : Prop :=
  filter (λ r, r_workload r = w) records ≠ [] ∧ ∃ infer, infer_of (Some w.1) = Ret infer ∧
    best_candidates infer max_sch_num (filter (λ r, r_workload r = w) records) l.

Definition with_candidates (a : attr_t) (l : list rec_t) : attr_t := mkAttr (topi_op a) (workloads a) (Some l).

(** What the loop has done to a node. *)
Definition fetched (at_ at1 : attrs_t) (k : nat) : Prop :=
  ∃ a w l, at_ !! k = Some a ∧ lnth (workloads a) 0 = Ret (Some w) ∧ good_candidates w l ∧
    at1 !! k = Some (with_candidates a l).

(** A task is named by its workload. *)
Definition tasks_named (at_ : attrs_t) : Prop :=
  ∀ k a, at_ !! k = Some a → ∃ w, lnth (workloads a) 0 = Ret (Some w) ∧ lnth (topi_op a) 0 = Ret (Some w.1).

Definition target_key (k : nat) : Prop := ∃ n, node_list !! k = Some n ∧ is_target target_ops n = true.

(** The invariant of the loop. *)
Definition fetch_inv (at_ : attrs_t) (pre : list nat)
    (st : attrs_t * list (option workload * list rec_t)) : Prop :=
  (∀ k a1, st.1 !! k = Some a1 → ∃ a, at_ !! k = Some a ∧ topi_op a1 = topi_op a ∧ workloads a1 = workloads a) ∧
  (∀ k, k ∈ pre → target_key k → fetched at_ st.1 k) ∧
  (∀ k, k ∉ pre ∨ ¬ target_key k → st.1 !! k = at_ !! k) ∧
  (∀ ow l, od_get st.2 ow = Some l → ∃ w, ow = Some w ∧ good_candidates w l).

Lemma fetch_node_ok at_ pre st k st' : tasks_named at_ → fetch_inv at_ pre st → fetch_node' st k = Ret st' →
  fetch_inv at_ (pre ++ [k]) st'.
Proof.
  intros Hnamed (Hsame & Hdone & Hrest & Hcache) Hf. destruct st as [at1 cache]. cbn [fst snd] in *.
  unfold fetch_node in Hf. destruct (lnth node_list k) as [n|] eqn:Hn; [|done]. simpl in Hf.
  assert (node_list !! k = Some n) as Hnk by (unfold lnth in Hn; destruct (node_list !! k); congruence).
  destruct (is_target target_ops n) eqn:Et; simpl in Hf.
  2: { injection Hf as <-. assert (¬ target_key k) as Hnt by (intros (n' & ? & ?); congruence).
       split; [done|]. split; [|split; [|done]].
       - intros q [Hq| ->%list_elem_of_singleton]%elem_of_app Ht; [by apply Hdone|done].
       - intros q Hq. apply Hrest. destruct (decide (q = k)) as [->|]; [by right|]. set_solver. }
  destruct (dget at1 k) as [a1|] eqn:Ha1; [|done]. cbn [pbind] in Hf. apply dget_Ret in Ha1.
  destruct (Hsame _ _ Ha1) as (a & Ha & Htopi & Hwl). destruct (Hnamed _ _ Ha) as (w & Hw & Hop).
  rewrite Htopi, Hwl, Hw in Hf. cbn [pbind] in Hf.
  assert (∀ l cache', good_candidates w l → (∀ ow l, od_get cache' ow = Some l → ∃ w, ow = Some w ∧ good_candidates w l) →
    fetch_inv at_ (pre ++ [k]) (<[k := with_candidates a l]> at1, cache')) as Hset.
  { intros l cache' Hl Hc. split; [|split; [|split; [|done]]]; simpl.
    - intros q b Hq. destruct (decide (q = k)) as [->|Hne].
      + rewrite lookup_insert_eq in Hq. injection Hq as <-. by exists a.
      + rewrite lookup_insert_ne in Hq by done. by apply Hsame.
    - intros q Hq Ht. destruct (decide (q = k)) as [->|Hne].
      + exists a, w, l. by rewrite lookup_insert_eq.
      + apply elem_of_app in Hq as [Hq|?%list_elem_of_singleton]; [|done].
        destruct (Hdone q Hq Ht) as (b & w' & l' & ? & ? & ? & ?). exists b, w', l'. by rewrite lookup_insert_ne.
    - intros q Hq. rewrite lookup_insert_ne.
      + apply Hrest. set_solver.
      + intros <-. destruct Hq as [Hq|Hq]; [set_solver|]. apply Hq. by exists n. }
  destruct (od_get cache (Some w)) as [l|] eqn:Ec.
  - injection Hf as <-. destruct (Hcache _ _ Ec) as (w' & [= <-] & Hl). by apply Hset.
  - rewrite Hop in Hf. cbn [pbind] in Hf.
    destruct (infer_of (Some w.1)) as [infer|] eqn:Ei; [|done]. simpl in Hf.
    rewrite group_records_get in Hf.
    destruct (filter (λ r, r_workload r = w) records) as [|r rs] eqn:Er; [done|].
    destruct (node_candidates max_sch_num infer (r :: rs)) as [l|] eqn:El; [|done]. injection Hf as <-.
    assert (good_candidates w l) as Hl.
    { split; [by rewrite Er|]. exists infer. split; [done|]. rewrite Er. by apply node_candidates_ok. }
    apply Hset; [done|]. intros ow l'. rewrite od_get_set. case_decide; [|apply Hcache].
    intros [= <-]. by exists w.
Qed.

(** C12: Where the candidates of the nodes are fetched, every tuned operator has records of
    its workload, and its candidates are chosen from these: in ascending
    order of their costs, at most [max_sch_num], of each pair of layouts at most one, so that
    for every record there is a candidate of its layouts that is as fast, or there
    are [max_sch_num] candidates and all are as fast.  No other node changes. *)
Theorem fetch_cfg_spec nodes (at_ at' : attrs_t) : tasks_named at_ →
  fetch_cfg conv2d_infer_layout depthwise_conv2d_infer_layout target_ops max_sch_num records node_list nodes at_ = Ret at' →
  (∀ k, k ∈ nodes → target_key k → fetched at_ at' k) ∧
  ∀ k, k ∉ nodes ∨ ¬ target_key k → at' !! k = at_ !! k.
Proof.
  intros Hnamed Hf. unfold fetch_cfg in Hf.
  destruct (pfold fetch_node' (at_, []) nodes) as [[at1 cache]|] eqn:Ep; cbn in Hf; [|done]. injection Hf as <-.
  destruct (pfold_Ret_inv _ (fetch_inv at_) _ _ _ Ep) as (_ & Hdone & Hrest & _); [| |by split].
  - split; [intros k a Ha; by exists a|]. split; [by intros ? ?%elem_of_nil|]. by split.
  - intros pre k post st st' _ Hinv Hst. by eapply fetch_node_ok.
Qed.
End Fetch.

(** ** Matrices *)

Section Matrix.
Context (node_list : list node_entry) (in_nodes_dict : list (nat * list nat)) (at_ : attrs_t).
Abbreviation pair_t := (@pair_info _ cfg).
Abbreviation callback := (create_matrix_callback dtype).

(** The time of a transformation, by the records. *)
Definition time_of (perf : list (workload * num)) (args : ltf_args) (t : num) : Prop :=
  if decide (a_in_layout args = a_out_layout args) then t = num_zero
  else od_get perf (ltf_workload dtype args) = Some t.

Definition entry_ok perf (tuned : bool) (p : pair_t) (i_record o_record : rec_t) (t : num) : Prop :=
  ∃ args, pair_args tuned p i_record o_record = Ret args ∧ time_of perf args t.

(** The matrix of a pair: a row per candidate of the first node, an entry per candidate
    of the second one. *)
Definition matrix_ok perf tuned p (ci co : list rec_t) (m : list (list num)) : Prop :=
  Forall2 (λ i_record row, Forall2 (entry_ok perf tuned p i_record) co row) ci m.

(** The rows under a key while row [m] is being built. *)
Lemma callback_ok i o m n args s u s' rows row : callback i o m n args s = (Ret u, s') →
  length rows = m → (interlayer_cost s !! (i, o) = Some (rows ++ [row]) ∨
    row = [] ∧ default [] (interlayer_cost s !! (i, o)) = rows) →
  perf_records s' = perf_records s ∧ ∃ t, time_of (perf_records s) args t ∧
    interlayer_cost s' = <[(i, o) := rows ++ [row ++ [t]]]> (interlayer_cost s).
Proof.
  intros Hc Hm Hrow. unfold create_matrix_callback in Hc. unfold sbind at 1 in Hc. simpl in Hc.
  assert (∃ t, time_of (perf_records s) args t ∧
    (let rows := default [] (interlayer_cost s !! (i, o)) in
     let rows := if length rows <=? m then rows ++ [[]] else rows in
     let! row := slift (lnth rows m) in
     let! rows := slift (lset rows m (row ++ [t])) in
     sput (mkLtf (perf_records s) (<[(i, o) := rows]> (interlayer_cost s)))) s = (Ret u, s')) as (t & Ht & Hk).
  { unfold time_of. unfold sbind at 1 in Hc. case_bool_decide as Hl.
    - exists num_zero. rewrite decide_True by done. by split.
    - destruct (od_get (perf_records s) (ltf_workload dtype args)) as [t|] eqn:Et; [|done].
      exists t. rewrite decide_False by done. by split. }
  clear Hc. simpl in Hk.
  assert ((if length (default [] (interlayer_cost s !! (i, o))) <=? m
           then default [] (interlayer_cost s !! (i, o)) ++ [[]]
           else default [] (interlayer_cost s !! (i, o))) = rows ++ [row]) as Hrows.
  { destruct Hrow as [-> | [-> <-]]; simpl.
    - rewrite length_app. simpl. destruct (Nat.leb_spec (length rows + 1) m); [lia|done].
    - by rewrite (proj2 (Nat.leb_le _ m)) by lia. }
  rewrite Hrows in Hk. unfold sbind, slift in Hk.
  rewrite (lnth_Some _ m row) in Hk by (by apply list_lookup_middle).
  rewrite lset_in in Hk by (rewrite length_app; simpl; lia). unfold sput in Hk. injection Hk as _ <-.
  split; [done|]. exists t. split; [done|]. simpl. f_equal.
  rewrite <-(Nat.add_0_r m), <-Hm, insert_app_r. done.
Qed.

Lemma enumerate_snd {A} (l : list A) : (enumerate l).*2 = l.
Proof.
  apply list_eq. intros i. unfold enumerate. rewrite list_lookup_fmap, list_lookup_imap. by destruct (l !! i).
Qed.

Lemma enumerate_at {A} (l : list A) pre m x post : enumerate l = pre ++ (m, x) :: post → m = length pre ∧ l !! m = Some x.
Proof.
  intros Hl. assert (enumerate l !! length pre = Some (m, x)) as Hm by (rewrite Hl; by apply list_lookup_middle).
  unfold enumerate in Hm. rewrite list_lookup_imap in Hm. destruct (l !! length pre) as [y|] eqn:Ey; [|done].
  simpl in Hm. injection Hm as <- <-. done.
Qed.

(** The loop over the candidates of the second node. *)
Lemma row_loop_ok tuned p (i_record : rec_t) (co : list rec_t) i o m s u s' rows :
  sfor (enumerate co) (λ '(n, o_record),
    let! args := slift (pair_args tuned p i_record o_record) in callback i o m n args) s = (Ret u, s') →
  length rows = m → default [] (interlayer_cost s !! (i, o)) = rows → co ≠ [] →
  perf_records s' = perf_records s ∧ ∃ row, Forall2 (entry_ok (perf_records s) tuned p i_record) co row ∧
    interlayer_cost s' = <[(i, o) := rows ++ [row]]> (interlayer_cost s).
Proof.
  intros Hs Hm Hrows Hco.
  pose proof (sfor_Ret_inv _ (λ pre t, perf_records t = perf_records s ∧ ∃ row,
    Forall2 (entry_ok (perf_records s) tuned p i_record) pre.*2 row ∧
    (pre = [] ∧ row = [] ∧ t = s ∨ interlayer_cost t = <[(i, o) := rows ++ [row]]> (interlayer_cost s))) _ _ _ _ Hs) as Hinv.
  destruct Hinv as [Hperf (row & Hrow & Hc)].
  - split; [done|]. exists []. split; [constructor|]. by left.
  - intros pre [n o_record] post t t' _ [Hperf (row & Hrow & Hc)] Hstep. unfold sbind, slift in Hstep.
    destruct (pair_args tuned p i_record o_record) as [args|] eqn:Ea; [|done].
    destruct (callback_ok i o m n args t tt t' rows row Hstep Hm) as [Hp' (x & Hx & Hc')].
    { destruct Hc as [(_ & -> & ->)| ->]; [by right|left; by rewrite lookup_insert_eq]. }
    split; [congruence|]. exists (row ++ [x]). split.
    + rewrite fmap_app. apply Forall2_app; [done|]. constructor; [|constructor]. exists args.
      split; [done|]. by rewrite <-Hperf.
    + right. rewrite Hc'. destruct Hc as [(_ & -> & ->)| ->]; [done|]. by rewrite insert_insert_eq.
  - split; [done|]. exists row. rewrite enumerate_snd in Hrow. split; [done|].
    destruct Hc as [(He & _ & _)|Hc]; [|done]. destruct co; [done|]. by unfold enumerate in He.
Qed.

(** The loops over the candidates of both nodes. *)
Lemma matrix_loop_ok tuned p (ci co : list rec_t) i o s u s' :
  sfor (enumerate ci) (λ '(m, i_record),
    let! o_records := slift (Ret co) in
    sfor (enumerate o_records) (λ '(n, o_record),
      let! args := slift (pair_args tuned p i_record o_record) in callback i o m n args)) s = (Ret u, s') →
  interlayer_cost s !! (i, o) = None → ci ≠ [] → co ≠ [] →
  perf_records s' = perf_records s ∧ ∃ rows, matrix_ok (perf_records s) tuned p ci co rows ∧
    interlayer_cost s' = <[(i, o) := rows]> (interlayer_cost s).
Proof.
  intros Hs Hnone Hci Hco.
  pose proof (sfor_Ret_inv _ (λ pre t, perf_records t = perf_records s ∧ ∃ rows,
    matrix_ok (perf_records s) tuned p pre.*2 co rows ∧
    (pre = [] ∧ rows = [] ∧ t = s ∨ interlayer_cost t = <[(i, o) := rows]> (interlayer_cost s))) _ _ _ _ Hs) as Hinv.
  destruct Hinv as [Hperf (rows & Hrows & Hc)].
  - split; [done|]. exists []. split; [constructor|]. by left.
  - intros pre [m i_record] post t t' Hl [Hperf (rows & Hrows & Hc)] Hstep. apply enumerate_at in Hl as [Hm _].
    unfold sbind at 1 in Hstep. simpl in Hstep.
    assert (length rows = m) as Hlen by (apply Forall2_length in Hrows; rewrite length_fmap in Hrows; lia).
    destruct (row_loop_ok tuned p i_record co i o m t tt t' rows Hstep Hlen) as [Hp' (row & Hrow & Hc')]; [|done|].
    { destruct Hc as [(_ & -> & ->)| ->]; [by rewrite Hnone|by rewrite lookup_insert_eq]. }
    split; [congruence|]. exists (rows ++ [row]). split.
    + rewrite fmap_app. apply Forall2_app; [done|]. constructor; [|constructor]. by rewrite <-Hperf.
    + right. rewrite Hc'. destruct Hc as [(_ & -> & ->)| ->]; [done|]. by rewrite insert_insert_eq.
  - split; [done|]. exists rows. rewrite enumerate_snd in Hrows. split; [done|].
    destruct Hc as [(He & _ & _)|Hc]; [|done]. destruct ci; [done|]. by unfold enumerate in He.
Qed.

(** A pair of a node and one of its inputs. *)
Abbreviation pair_at := (layout_pair conv2d_infer_layout depthwise_conv2d_infer_layout target_ops input_names node_list at_).

Definition pair_of (key i o : nat) (tuned : bool) (p : pair_t) : Prop :=
  ∃ val pos t node, (key, val) ∈ in_nodes_dict ∧ val !! pos = Some i ∧ node_list !! key = Some node ∧
    tuned = is_target target_ops node ∧ target_input input_names node_list key val = Ret t ∧
    pair_at key t pos i = Ret (Some p) ∧ p_to p = o.

(** What is known of the matrices when the pairs [pairs] have been handled. *)
Definition matrices_inv perf (tracker : list (nat * nat)) (s : ltf_state) : Prop :=
  perf_records s = perf ∧
  (∀ i o, is_Some (interlayer_cost s !! (i, o)) ↔ (i, o) ∈ tracker) ∧
  ∀ i o m, interlayer_cost s !! (i, o) = Some m → ∃ key tuned p ci co, pair_of key i o tuned p ∧
    candidates at_ i = Ret ci ∧ candidates at_ key = Ret co ∧ matrix_ok perf tuned p ci co m.

Abbreviation iterate := (iterate_layout_transform conv2d_infer_layout depthwise_conv2d_infer_layout target_ops
  input_names node_list in_nodes_dict at_).

Section Nonempty.
Hypothesis has_candidates : ∀ k l, candidates at_ k = Ret l → l ≠ [].

(** The body of the loop over the inputs of a node. *)
Abbreviation input_step key t node := (λ (pair_tracker : list (nat * nat)) '(i, i_idx),
  let! found := slift (pair_at key t i i_idx) in
  match found with
  | None => sret pair_tracker
  | Some p =>
      if bool_decide ((i_idx, p_to p) ∈ pair_tracker) then sret pair_tracker else
      let! i_records := slift (candidates at_ i_idx) in
      let! _ := sfor (enumerate i_records) (λ '(m, i_record),
        let! o_records := slift (candidates at_ key) in
        sfor (enumerate o_records) (λ '(n, o_record),
          let! args := slift (pair_args (is_target target_ops node) p i_record o_record) in
          callback i_idx (p_to p) m n args)) in
      sret (pair_tracker ++ [(i_idx, p_to p)])
  end).

Lemma input_step_ok perf key val t node tracker i i_idx s tracker' s' :
  (key, val) ∈ in_nodes_dict → val !! i = Some i_idx → node_list !! key = Some node →
  target_input input_names node_list key val = Ret t →
  input_step key t node tracker (i, i_idx) s = (Ret tracker', s') → matrices_inv perf tracker s →
  matrices_inv perf tracker' s' ∧ tracker ⊆ tracker' ∧
  ∀ p, pair_at key t i i_idx = Ret (Some p) → (i_idx, p_to p) ∈ tracker'.
Proof.
  intros Hkey Hi Hn Ht Hstep Hinv. unfold sbind at 1, slift at 1 in Hstep.
  destruct (pair_at key t i i_idx) as [[p|]|e] eqn:Ep; [| |done].
  2: { unfold sret in Hstep. injection Hstep as <- <-. split; [done|]. split; [done|]. by intros p [=]. }
  case_bool_decide as Hin.
  { unfold sret in Hstep. injection Hstep as <- <-. split; [done|]. split; [done|]. by intros q [= <-]. }
  unfold sbind at 1, slift at 1 in Hstep. destruct (candidates at_ i_idx) as [ci|] eqn:Eci; [|done].
  unfold sbind at 1 in Hstep.
  match type of Hstep with context [sfor ?l ?f s] => destruct (sfor l f s) as [[u|e] s1] eqn:Es end; [|done].
  unfold sret in Hstep. injection Hstep as <- <-.
  destruct Hinv as (Hperf & Hdom & Hmat).
  assert (interlayer_cost s !! (i_idx, p_to p) = None) as Hnone.
  { apply eq_None_not_Some. intros Hs. by apply Hin, Hdom. }
  pose proof (has_candidates _ _ Eci) as Hci.
  destruct (candidates at_ key) as [co|] eqn:Eco.
  2: { destruct ci as [|r ci]; [done|]. unfold enumerate in Es. simpl in Es. done. }
  destruct (matrix_loop_ok _ p ci co i_idx (p_to p) s u s1 Es Hnone Hci (has_candidates _ _ Eco))
    as [Hp1 (rows & Hrows & Hc1)].
  split; [|split; [set_solver|intros q [= <-]; set_solver]]. split; [congruence|]. split.
  - intros i' o'. rewrite Hc1. rewrite elem_of_app, list_elem_of_singleton, <-Hdom.
    destruct (decide ((i', o') = (i_idx, p_to p))) as [->|Hne].
    + rewrite lookup_insert_eq. split; [by right|by eexists].
    + rewrite lookup_insert_ne by done. tauto.
  - intros i' o' m. rewrite Hc1. destruct (decide ((i', o') = (i_idx, p_to p))) as [Heq|Hne].
    + rewrite Heq, lookup_insert_eq. intros [= <-]. injection Heq as -> ->.
      exists key, (is_target target_ops node), p, ci, co. split; [|by rewrite <-Hperf].
      exists val, i, t, node. done.
    + rewrite lookup_insert_ne by done. apply Hmat.
Qed.

Lemma iterate_ok perf s u s' : iterate callback s = (Ret u, s') → matrices_inv perf [] s →
  ∃ tracker, matrices_inv perf tracker s' ∧ ∀ key i o tuned p, pair_of key i o tuned p → (i, o) ∈ tracker.
Proof.
  intros Hs Hinv. unfold iterate_layout_transform in Hs. unfold sbind at 1 in Hs.
  match type of Hs with context [sfold ?f ?a ?l s] => destruct (sfold f a l s) as [[tracker|e] s1] eqn:Ef end; [|done].
  unfold sret in Hs. injection Hs as _ <-. exists tracker.
  pose proof (sfold_Ret_inv _ (λ pre tr t, matrices_inv perf tr t ∧ ∀ key val pos i tg node p, (key, val) ∈ pre →
    val !! pos = Some i → node_list !! key = Some node → target_input input_names node_list key val = Ret tg →
    pair_at key tg pos i = Ret (Some p) → (i, p_to p) ∈ tr) _ _ _ _ _ Ef) as Hall.
  destruct Hall as [Hinv1 Hall].
  - split; [done|]. by intros ? ? ? ? ? ? ? ?%elem_of_nil.
  - clear Ef. intros pre [key val] post tr t tr' t' Hl [Htr Hpre] Hstep.
    unfold sbind at 1, slift at 1 in Hstep. destruct (lnth node_list key) as [node|] eqn:En; [|done].
    unfold sbind at 1, slift at 1 in Hstep.
    destruct (target_input input_names node_list key val) as [tg|] eqn:Et; [|done].
    assert (node_list !! key = Some node) as Hnode by (unfold lnth in En; destruct (node_list !! key); congruence).
    assert ((key, val) ∈ in_nodes_dict) as Hkey by (rewrite Hl; set_solver).
    pose proof (sfold_Ret_inv _ (λ pre2 tr2 t2, matrices_inv perf tr2 t2 ∧ tr ⊆ tr2 ∧ ∀ pos i p, (pos, i) ∈ pre2 →
      pair_at key tg pos i = Ret (Some p) → (i, p_to p) ∈ tr2) _ _ _ _ _ Hstep) as Hin.
    destruct Hin as (Htr' & Hsub & Hnew).
    + split; [done|]. split; [done|]. by intros ? ? ? ?%elem_of_nil.
    + intros pre2 [pos i] post2 tr2 t2 tr3 t3 Hl2 (Htr2 & Hsub2 & Hpre2) Hstep2.
      apply enumerate_at in Hl2 as [_ Hi].
      destruct (input_step_ok perf key val tg node tr2 pos i t2 tr3 t3 Hkey Hi Hnode Et Hstep2 Htr2) as (Htr3 & Hsub3 & Hp).
      split; [done|]. split; [by etrans|]. intros pos' i' p [Hin|[= -> ->]%list_elem_of_singleton]%elem_of_app Hpair.
      * apply Hsub3. by eapply Hpre2.
      * by apply Hp.
    + split; [done|]. intros key' val' pos i tg' node' p [Hin|[= -> ->]%list_elem_of_singleton]%elem_of_app Hi Hn' Ht' Hp.
      * apply Hsub. by eapply Hpre.
      * assert (tg' = tg) as -> by congruence. eapply Hnew; [|exact Hp]. apply elem_of_lookup_imap. by exists pos, i.
  - split; [done|]. intros key i o tuned p (val & pos & tg & node & Hin & Hi & Hn & _ & Ht & Hp & <-). by eapply Hall.
Qed.
End Nonempty.

Context (num_div : num → Z → num) (num_scale : Z → num → num).
Context (transformed_shape : list Z → string → string → list Z) (device_time : workload → option num).
Abbreviation time_for := (transform_time num_scale transformed_shape device_time dtype).

(** The loop over the transformations without a record. *)
Lemma times_ok infer_layout avg args_list s u s' :
  sfor args_list (λ args, smod (λ s,
    if od_mem (perf_records s) (ltf_workload dtype args) then s
    else mkLtf (od_set (perf_records s) (ltf_workload dtype args) (time_for infer_layout avg args))
           (interlayer_cost s))) s = (Ret u, s') →
  interlayer_cost s' = interlayer_cost s ∧
  (∀ w x, od_get (perf_records s) w = Some x → od_get (perf_records s') w = Some x) ∧
  (∀ w x, od_get (perf_records s') w = Some x → od_get (perf_records s) w = Some x ∨
     od_get (perf_records s) w = None ∧ ∃ args, w = ltf_workload dtype args ∧ x = time_for infer_layout avg args).
Proof.
  intros Hs.
  apply (sfor_Ret_inv _ (λ _ t, interlayer_cost t = interlayer_cost s ∧
    (∀ w x, od_get (perf_records s) w = Some x → od_get (perf_records t) w = Some x) ∧
    (∀ w x, od_get (perf_records t) w = Some x → od_get (perf_records s) w = Some x ∨
       od_get (perf_records s) w = None ∧ ∃ args, w = ltf_workload dtype args ∧ x = time_for infer_layout avg args)) _ _ _ _ Hs).
  { split; [done|]. split; [done|]. by left. }
  intros _ args _ t t' _ (Hc & Hold & Hnew) Hstep. unfold smod in Hstep. injection Hstep as <-.
  destruct (od_mem (perf_records t) (ltf_workload dtype args)) eqn:Em; [done|]. simpl. split; [done|]. split.
  - intros w x Hw. rewrite od_get_set_ne; [by apply Hold|]. intros <-. apply Hold in Hw.
    apply not_true_iff_false in Em. apply Em, od_mem_get. by exists x.
  - intros w x. rewrite od_get_set. case_decide as Hw; [|apply Hnew]. intros [= <-]. subst w. right. split; [|by exists args].
    apply eq_None_not_Some. intros [y Hy]. apply Hold in Hy. apply not_true_iff_false in Em. apply Em, od_mem_get. by exists y.
Qed.

(** C13: the first benchmark of a tuner, when every node that has candidates has at
    least one and the benchmark returns: it keeps the times it is given, adds to them
    only the measured or inferred times of transformations that had none, and has made
    a matrix for exactly the pairs of a node and an input whose layouts must agree: a
    row for every candidate of the input and an entry for every candidate of the node,
    which is zero where the layouts are equal and the time of the transformation
    otherwise.  It must be the first, on a tuner without matrices: another benchmark
    appends to the rows of the one before ([second_benchmark_doubles]). *)
Theorem benchmark_spec layout_records infer_layout s s' :
  (∀ k l, candidates at_ k = Ret l → l ≠ []) → interlayer_cost s = ∅ →
  benchmark_layout_transform conv2d_infer_layout depthwise_conv2d_infer_layout num_div num_scale transformed_shape
    device_time target_ops input_names dtype node_list in_nodes_dict at_ layout_records infer_layout s = (Ret tt, s') →
  ∃ perf num_flops total_time,
    load_layout_records (default [] layout_records) (perf_records s) = Ret (perf, num_flops, total_time) ∧
    (∀ w x, od_get perf w = Some x → od_get (perf_records s') w = Some x) ∧
    (∀ w x, od_get (perf_records s') w = Some x → od_get perf w = Some x ∨
       od_get perf w = None ∧ ∃ args, w = ltf_workload dtype args ∧
         x = time_for infer_layout (if (0 <? num_flops)%Z then num_div total_time num_flops else num_zero) args) ∧
    (∀ i o, is_Some (interlayer_cost s' !! (i, o)) ↔ ∃ key tuned p, pair_of key i o tuned p) ∧
    (∀ i o m, interlayer_cost s' !! (i, o) = Some m → ∃ key tuned p ci co, pair_of key i o tuned p ∧
       candidates at_ i = Ret ci ∧ candidates at_ key = Ret co ∧ matrix_ok (perf_records s') tuned p ci co m).
Proof.
  intros Hcand Hempty Hb. unfold benchmark_layout_transform in Hb. destruct (_ && _); [done|].
  unfold sbind at 1 in Hb. unfold sget at 1 in Hb. unfold sbind at 1, slift at 1 in Hb.
  destruct (load_layout_records _ _) as [[[perf num_flops] total_time]|] eqn:El; [|done].
  unfold sbind at 1, sput at 1 in Hb. exists perf, num_flops, total_time. split; [done|].
  destruct (iterate _ []) as [[[]|e] args_list] eqn:Ei; [|done].
  unfold sbind at 1 in Hb.
  match type of Hb with context [sfor ?l ?f ?a] => destruct (sfor l f a) as [[u|e] s1] eqn:Ef end; [|done].
  apply times_ok in Ef as (Hc & Hold & Hnew). simpl in Hc, Hold, Hnew.
  destruct (iterate_ok Hcand (perf_records s1) s1 tt s' Hb) as (tracker & (Hperf & Hdom & Hmat) & Hall).
  { split; [done|]. rewrite Hc, Hempty. split; [|done]. intros i o. rewrite lookup_empty. split; [by intros [? ?]|by intros ?%elem_of_nil]. }
  rewrite Hperf. split; [done|]. split; [done|]. split; [|done].
  intros i o. rewrite Hdom. split; [|intros (key & tuned & p & Hp); by eapply Hall].
  intros Hin. apply Hdom in Hin as [m Hm]. destruct (Hmat _ _ _ Hm) as (key & tuned & p & ci & co & Hp & _). by exists key, tuned, p.
Qed.
End Matrix.
End Spec.
