(* ===== verification/Dp.v ===== *)
(** * The dynamic programming graph tuner

    A stage per node holds the least time of the graph up to the node for every choice of the
    node and of the earlier nodes that are still needed; the choices are read off backwards.
    Sources: src/python/tvm/autotvm/graph_tuner/dynamic_programming_{stage,tuner}.py. *)

From S2P Require Import Prelude Pbqp GraphTraverse GraphBase.

(** ** Arrays *)

(** The arrays of numpy and the functions of them that the tuner calls. *)
Class NdOps `{CostOps} := {
  nd : Type;
  nd_shape : nd → list nat;
  nd_flatten : nd → list num;                    (** [a.flatten()], in C order *)
  np_reshape : list num → list nat → py nd;      (** [l.reshape(shape)] of a flat array *)
  np_transpose : nd → list nat → py nd;          (** [np.transpose(a, axes)] *)
  np_broadcast_to : nd → list nat → py nd;       (** [np.broadcast_to(a, shape)] *)
  np_amin : nd → nat → py nd;                    (** [np.amin(a, axis=i)] *)
  np_amax : nd → py num;                         (** [np.amax(a)] *)
  np_argmin : nd → nat → list nat → py nat;      (** [np.argmin(a, axis=i)[idx]] *)
  np_argmin_flat : nd → py nat;                  (** [np.argmin(a)] *)
  np_take : nd → list nat → py nd                (** [a[idx]], an array *)
}.

(** The product of the sizes of some axes. *)
Definition size_of_axes (shape : list nat) : nat := foldr Nat.mul 1 shape.

(** [full[i] = x] for the positions of a list, in an array of zeros. *)
Definition fill `{CostOps} (size : nat) (l : list num) : py (list num) :=
  if length l <=? size then Ret (l ++ replicate (size - length l) num_zero) else Raise IndexError.

(** [l.index(x)]. *)
Fixpoint pos_of (x : nat) (l : list nat) : py nat :=
  match l with
  | [] => Raise ValueError
  | y :: l' => if y =? x then Ret 0 else let? i := pos_of x l' in Ret (S i)
  end.

Definition MAX_OUTPUT_NODES : nat := 16.

Section Dp.
Context `{NdOps}.
Context {cfg : Type}.

(** [astype("float32")]. *)
Context (to_f32 : num → num).

(** What the tuner has from its base class. *)
Context (target_ops input_names : list string) (node_list : list node_entry) (at_ : gmap nat (@attr _ cfg)).
Context (in_nodes_dict out_nodes_dict : list (nat * list nat)) (ltf : gmap (nat * nat) (list (list num))).
Context (max_num_states : option nat).

(** The fields of a [DPStage] that are read from outside. *)
Record stage := mkStage {
  st_dep : list nat;
  st_states : nd;
  st_full_states : nd;
  st_full_states_idx : option (list nat)
}.

(** A tuner: [_counted_nodes_set], [_stage_dict], [_dep_dict], [_num_states] and [_optimal_record_dict]. *)
Record dp := mkDp {
  d_counted : gset nat;
  d_stages : gmap nat stage;
  d_deps : gmap nat (gset nat);
  d_num_states : nat;
  d_opt : gmap nat nat
}.

Definition dp_init : dp := mkDp ∅ ∅ ∅ 0 ∅.

Definition count_node (idx : nat) : ST dp unit :=
  smod (λ s, mkDp ({[idx]} ∪ d_counted s) (d_stages s) (d_deps s) (d_num_states s) (d_opt s)).
Definition set_stage (idx : nat) (st : stage) : ST dp unit :=
  smod (λ s, mkDp (d_counted s) (<[idx := st]> (d_stages s)) (d_deps s) (d_num_states s) (d_opt s)).
Definition set_deps (d : gmap nat (gset nat)) : ST dp unit :=
  smod (λ s, mkDp (d_counted s) (d_stages s) d (d_num_states s) (d_opt s)).
Definition set_opts (o : gmap nat nat) : ST dp unit :=
  smod (λ s, mkDp (d_counted s) (d_stages s) (d_deps s) (d_num_states s) o).

Definition boundary_at (idx : nat) : py bool :=
  let? n := lnth node_list idx in Ret (is_boundary_node input_names n).

(** The times of the candidates of a node, and their number. *)
Definition times (idx : nat) : py (list num) := let? l := candidates at_ idx in Ret (r_cost <$> l).
Definition num_candidates (idx : nat) : py nat := let? l := candidates at_ idx in Ret (length l).

(** [_layout_transform_interlayer_cost[a, b][i][j]]. *)
Definition ltf_at (a b i j : nat) : py num :=
  let? m := dget ltf (a, b) in
  let? row := lnth m i in
  lnth row j.

(** ** [DPStage.align_states] *)

(** The last position of a node; the nodes to be found are in the list. *)
Definition major_axis_of (input_idx : nat) (aligned : list nat) : nat :=
  foldl (λ m '(i, idx), if input_idx =? idx then i else m) 0 (enumerate aligned).

Definition align_one (stages : gmap nat stage) (aligned shape : list nat) (input_idx : nat) :
    py (nat * nat * nat * nd) :=
  let? st := dget stages input_idx in
  let shape_idx := input_idx :: st_dep st in
  let major_axis := major_axis_of input_idx aligned in
  let transpose_idx := filter (λ idx, idx ∈ shape_idx) aligned in
  let? transpose_list := pymap (λ idx, pos_of idx shape_idx) transpose_idx in
  let reshape_list := zip_with (λ idx n, if bool_decide (idx ∈ shape_idx) then n else 1) aligned shape in
  let? a := np_transpose (st_states st) transpose_list in
  let? a := np_reshape (nd_flatten a) reshape_list in
  let? a := np_broadcast_to a shape in
  Ret (input_idx, major_axis, size_of_axes (drop (S major_axis) shape), a).

Definition align_states (stages : gmap nat stage) (inputs : list nat) : py (list (nat * nat * nat * nd) * list nat) :=
  let? aligned := pfold (λ aligned input_idx,
    let? st := dget stages input_idx in Ret (add_new aligned (st_dep st))) inputs inputs in
  let? shape := pymap num_candidates aligned in
  let? states := pymap (align_one stages aligned shape) inputs in
  Ret (states, aligned).

(** ** The states of a node *)

(** [set.remove(x)]. *)
Definition set_remove (x : nat) (s : gset nat) : py (gset nat) :=
  if bool_decide (x ∈ s) then Ret (s ∖ {[x]}) else Raise KeyError.

(** The update of the dependencies at the end of both routines. *)
Definition update_deps (idx : nat) (dep : list nat) : ST dp unit :=
  let! s := sget in
  let! outs := slift (od_at out_nodes_dict idx) in
  let! deps := slift (pfold (λ deps d,
    let? x := dget deps d in
    let? x := set_remove idx x in
    Ret (<[d := list_to_set outs ∪ x]> deps)) (d_deps s) dep) in
  set_deps (if 1 <? length outs then <[idx := list_to_set outs]> deps else deps).

(** [_create_op_states]. *)
Definition create_op_states (idx : nat) : ST dp stage :=
  let! ins := slift (od_at in_nodes_dict idx) in
  let! input_idx := slift (lnth ins 0) in
  let! is_boundary := slift (boundary_at input_idx) in
  let! costs := slift (times idx) in
  if is_boundary then
    let! full := slift (np_reshape costs [length costs]) in
    let! _ := update_deps idx [] in
    sret (mkStage [] full full None)
  else
    let! s := sget in
    let! input_stage := slift (dget (d_stages s) input_idx) in
    let input_dep := st_dep input_stage in
    let input_flatten := nd_flatten (st_states input_stage) in
    let! num_input_schedules := slift (num_candidates input_idx) in
    let! dep_sizes := slift (pymap num_candidates input_dep) in
    let shape := length costs :: num_input_schedules :: dep_sizes in
    let dep_multiplier := size_of_axes dep_sizes in
    let counted := bool_decide (input_idx ∈ d_counted s) in
    let! totals := slift (pymap (λ '(i, current),
      pymap (λ '(j, state),
        let? t := ltf_at input_idx idx (j `div` dep_multiplier) i in
        let total := num_add current t in
        Ret (to_f32 (if counted then total else num_add total state))) (enumerate input_flatten)) (enumerate costs)) in
    let! l := slift (fill (size_of_axes shape) (concat totals)) in
    let! _ := if counted then sret tt else count_node input_idx in
    let! full := slift (np_reshape l shape) in
    let! input_outs := slift (od_at out_nodes_dict input_idx) in
    let! (dep, states) :=
      if length input_outs =? 1 then let! a := slift (np_amin full 1) in sret (input_dep, a)
      else sret (input_idx :: input_dep, full) in
    let! _ := update_deps idx dep in
    sret (mkStage dep states full (Some (idx :: input_idx :: input_dep))).

(** The choice of a node at a flat position. *)
Definition choice_at (i multiplier n : nat) : nat := (i `mod` (multiplier * n)) `div` multiplier.

(** The sum for one state of a node with several inputs; with a single input nothing is stored. *)
Definition multi_state (shape : list nat) (counted : list bool) (states : list (nat * nat * nat * nd)) (i : nat) : py num :=
  match states, counted with
  | (target, target_axis, target_multiplier, target_states) :: srcs, target_counted :: counted' =>
      let? n := lnth shape target_axis in
      let target_sch := choice_at i target_multiplier n in
      let? x := lnth (nd_flatten target_states) i in
      let first := if target_counted : bool then num_zero else x in
      let? (stored, _) := pfold (λ '(_, new_state) '((src, src_axis, src_multiplier, src_states), src_counted),
        let? n := lnth shape src_axis in
        let? t := ltf_at src target (choice_at i src_multiplier n) target_sch in
        let? x := lnth (nd_flatten src_states) i in
        let new_state := num_add new_state (if src_counted : bool then t else num_add t x) in
        Ret (to_f32 new_state, new_state)) (num_zero, first) (zip srcs counted') in
      Ret stored
  | _, _ => Raise IndexError
  end.

(** The dependencies that are needed no longer are minimised away: array, number of axes removed,
    dependencies kept, and dictionary. *)
Definition reduce_deps (deps : gmap nat (gset nat)) (l : list nat) (a : nd) : py (nd * nat * list nat * gmap nat (gset nat)) :=
  pfold (λ '(a, shift, kept, deps) '(i, dep),
    let needed := match deps !! dep with Some x => negb (size x =? 1) | None => false end in
    if needed : bool then Ret (a, shift, kept ++ [dep], deps)
    else
      let? a := np_amin a (i + 1 - shift) in
      Ret (a, S shift, kept, delete dep deps)) (a, 0, [], deps) (enumerate l).

(** [_create_multi_inputs_states]. *)
Definition create_multi_inputs_states (idx : nat) : ST dp stage :=
  let! full_inputs := slift (od_at in_nodes_dict idx) in
  let! marks := slift (pymap (λ i, let? b := boundary_at i in Ret (i, b)) full_inputs) in
  let inputs := fst <$> filter (λ m, m.2 = false) marks in
  let! s := sget in
  let! (states, aligned) := slift (align_states (d_stages s) inputs) in
  match states with
  | [] => sraise IndexError
  | (target, target_axis, _, target_states) :: _ =>
      let shape := nd_shape target_states in
      let counted := (λ x : nat * nat * nat * nd, bool_decide (x.1.1.1 ∈ d_counted s)) <$> states in
      let! l := slift (pymap (multi_state shape counted states) (seq 0 (size_of_axes shape))) in
      let! _ := sfor states (λ x, count_node x.1.1.1) in
      let! full := slift (np_reshape l shape) in
      let others := filter (λ i, i ≠ target_axis) (seq 0 (length shape)) in
      let! dep_list := slift (pymap (lnth aligned) others) in
      let! a := slift (np_transpose full (target_axis :: others)) in
      let! (a, _, kept, deps) := slift (reduce_deps (d_deps s) dep_list a) in
      let! _ := set_deps deps in
      let! _ := update_deps idx kept in
      sret (mkStage kept a full (Some aligned))
  end.

(** [DPStage.__init__]. *)
Definition dp_stage (idx : nat) : ST dp stage :=
  let! node := slift (lnth node_list idx) in
  let! a := slift (dget at_ idx) in
  let! _ := slift (lnth (workloads a) 0) in
  let! _ := slift (candidates at_ idx) in
  if is_target target_ops node then create_op_states idx else create_multi_inputs_states idx.

(** ** The tuner *)

(** [_check_num_states]. *)
Definition check_num_states (n : nat) : ST dp unit :=
  let! _ := smod (λ s, mkDp (d_counted s) (d_stages s) (d_deps s) (d_num_states s + n) (d_opt s)) in
  let! s := sget in
  match max_num_states with
  | Some m => if m <? d_num_states s then sraise RuntimeError else sret tt
  | None => sret tt
  end.

(** [_forward]. *)
Definition forward : ST dp unit :=
  sfor (sorted_nodes (od_keys in_nodes_dict)) (λ node_idx,
    let! st := dp_stage node_idx in
    let! _ := check_num_states (length (nd_flatten (st_full_states st))) in
    set_stage node_idx st).

(** The position with the least sum, [-1] when none is below the first bound. *)
Definition best_pos (flats : list (list num)) (num_states : nat) (min_time : num) : py Z :=
  let? (_, min_pos) := pfold (λ '(min_time, min_pos) i,
    let? current := pfold (λ t l, let? x := lnth l i in Ret (num_add t x)) num_zero flats in
    Ret (if num_ltb current min_time then (current, Z.of_nat i) else (min_time, min_pos)))
    (min_time, (-1)%Z) (seq 0 num_states) in
  Ret min_pos.

(** The choices of the output nodes, then those of the nodes they depend on. *)
Definition output_choices (states : list (nat * nat * nat * nd)) (aligned shape : list nat) (min_pos : Z) :
    py (gmap nat nat) :=
  let? opt := pfold (λ opt '(i, (_, axis, multiplier, _)),
    let? n := lnth shape axis in
    let? node := lnth aligned i in
    Ret (<[node := Z.to_nat ((min_pos mod Z.of_nat (multiplier * n)) / Z.of_nat multiplier)]> opt)) ∅ (enumerate states) in
  pfold (λ opt '(i, node),
    if i <? length states then Ret opt else
    let? n := lnth shape i in
    Ret (<[node := Z.to_nat ((min_pos / Z.of_nat (size_of_axes (drop (S i) shape))) mod Z.of_nat n)]> opt))
    opt (enumerate aligned).

(** The choices for a node with several inputs: that of its first input is its own, the others are read off
    the array of all states. *)
Definition back_multi (stages : gmap nat stage) (node_idx : nat) (opt : gmap nat nat) : py (gmap nat nat) :=
  let? sch := dget opt node_idx in
  let? st := dget stages node_idx in
  let? ins := od_at in_nodes_dict node_idx in
  let? first := lnth ins 0 in
  let opt := <[first := sch]> opt in
  match st_full_states_idx st with
  | None => Raise TypeError
  | Some full_idx =>
      let? tmp := np_take (st_full_states st) [sch] in
      let rest := enumerate (drop 1 full_idx) in
      let visited := filter (λ x, is_Some (opt !! x.2)) rest in
      let new := filter (λ x, opt !! x.2 = None) rest in
      let? tmp :=
        match visited with
        | [] => Ret tmp
        | _ =>
            let? tmp := np_transpose tmp (visited.*1 ++ new.*1) in
            let? idx := pymap (dget opt) visited.*2 in
            np_take tmp idx
        end in
      let? min_pos := np_argmin_flat tmp in
      let? sizes := pymap (λ x, lnth (nd_shape (st_full_states st)) (x.1 + 1)) new in
      let? (opt, _, _) := pfold (λ '(opt, multiplier, min_pos) '((_, idx), n),
        let multiplier := multiplier `div` n in
        Ret (<[idx := min_pos `div` multiplier]> opt, multiplier, min_pos `mod` multiplier))
        (opt, size_of_axes sizes, min_pos) (zip new sizes) in
      Ret opt
  end.

(** The choice of the input of a node with one input; what is put on the queue. *)
Definition back_single (stages : gmap nat stage) (visited : gset nat) (node_idx : nat) (opt : gmap nat nat) :
    py (gmap nat nat * list nat) :=
  let? sch := dget opt node_idx in
  let? st := dget stages node_idx in
  let? ins := od_at in_nodes_dict node_idx in
  let? input_idx := lnth ins 0 in
  let? is_boundary := boundary_at input_idx in
  if is_boundary || bool_decide (input_idx ∈ visited) then Ret (opt, []) else
  match opt !! input_idx with
  | Some _ => Ret (opt, [input_idx])
  | None =>
      let? dep_idx := pymap (dget opt) (st_dep st) in
      let? j := np_argmin (st_full_states st) 1 (sch :: dep_idx) in
      Ret (<[input_idx := j]> opt, [input_idx])
  end.

(** The loop over the queue. *)
Fixpoint back_loop (fuel : nat) (stages : gmap nat stage) (queue : list nat) (visited : gset nat) (opt : gmap nat nat) :
    py (gmap nat nat) :=
  match fuel, queue with
  | _, [] => Ret opt
  | 0, _ => Raise RecursionError
  | S fuel, node_idx :: queue =>
      let visited := {[node_idx]} ∪ visited in
      let? is_boundary := boundary_at node_idx in
      if is_boundary then back_loop fuel stages queue visited opt else
      let? is_multi := multi input_names node_list node_idx in
      if is_multi then
        let? opt := back_multi stages node_idx opt in
        let? ins := od_at in_nodes_dict node_idx in
        back_loop fuel stages (queue ++ filter (λ i, i ∉ visited) ins) visited opt
      else
        let? (opt, next) := back_single stages visited node_idx opt in
        back_loop fuel stages (queue ++ next) visited opt
  end.

(** [_backward]. *)
Definition backward (fuel : nat) : ST dp unit :=
  let! s := sget in
  let outputs := fst <$> filter (λ x, x.2 = []) out_nodes_dict in
  if MAX_OUTPUT_NODES <? length outputs then
    set_opts (list_to_map ((λ k, (k, 0)) <$> od_keys in_nodes_dict))
  else
    let! (states, aligned) := slift (align_states (d_stages s) outputs) in
    match states with
    | [] => sraise IndexError
    | (_, _, _, first) :: _ =>
        let num_states := length (nd_flatten first) in
        let! _ := check_num_states (num_states * length outputs) in
        let! min_time := slift (pfold (λ t x, let? m := np_amax x.2 in Ret (num_add t m)) num_zero states) in
        let! min_pos := slift (best_pos ((λ x : nat * nat * nat * nd, nd_flatten x.2) <$> states) num_states min_time) in
        let! opt := slift (output_choices states aligned (nd_shape first) min_pos) in
        let! opt := slift (back_loop fuel (d_stages s) outputs ∅ opt) in
        set_opts opt
    end.

(** [DPTuner.run]. *)
Definition dp_run (fuel : nat) : ST dp unit :=
  let! _ := smod (λ s, mkDp (d_counted s) (d_stages s) (d_deps s) 0 (d_opt s)) in
  let! _ := forward in
  backward fuel.
End Dp.
