(* ===== verification/DpSpec.v ===== *)
(** * The dynamic programming tuner on a chain of operators *)

From S2P Require Import Prelude Pbqp PbqpState PbqpReduce GraphTraverse GraphBase Dp.

(** ** What the tuner relies on *)

(** A value of the list with none below it. *)
Definition least `{CostOps} (x : num) (l : list num) : Prop := x ∈ l ∧ ∀ y, y ∈ l → num_ltb y x = false.

(** Row [i] of an array with rows of [m] values. *)
Definition row_at `{NdOps} (a : nd) (m i : nat) : list num := take m (drop (i * m) (nd_flatten a)).

(** The documented behaviour of numpy, as far as a chain needs it. *)
Class NdOk `{NdOps} : Prop := {
  nd_length a : length (nd_flatten a) = size_of_axes (nd_shape a);
  reshape_ok l sh : length l = size_of_axes sh → ∃ a, np_reshape l sh = Ret a ∧ nd_shape a = sh ∧ nd_flatten a = l;
  (** the axes in their order *)
  transpose_same a : ∃ b, np_transpose a (seq 0 (length (nd_shape a))) = Ret b ∧
    nd_shape b = nd_shape a ∧ nd_flatten b = nd_flatten a;
  broadcast_same a : ∃ b, np_broadcast_to a (nd_shape a) = Ret b ∧ nd_shape b = nd_shape a ∧ nd_flatten b = nd_flatten a;
  (** the least of each row, and its position *)
  amin_rows a n m : nd_shape a = [n; m] → 0 < m → ∃ b, np_amin a 1 = Ret b ∧ nd_shape b = [n] ∧
    ∀ i, i < n → ∃ x, nd_flatten b !! i = Some x ∧ least x (row_at a m i);
  argmin_rows a n m i : nd_shape a = [n; m] → 0 < m → i < n → ∃ j x, np_argmin a 1 [i] = Ret j ∧ j < m ∧
    row_at a m i !! j = Some x ∧ least x (row_at a m i);
  amax_ok a : nd_flatten a ≠ [] → ∃ x, np_amax a = Ret x ∧ x ∈ nd_flatten a ∧ ∀ y, y ∈ nd_flatten a → num_ltb x y = false
}.

(** ** Lists *)

Lemma length_concat_rows {A} (rows : list (list A)) m :
  (∀ r, r ∈ rows → length r = m) → length (concat rows) = length rows * m.
Proof.
  induction rows as [|r rows IH]; intros Hm; [done|]. simpl. rewrite length_app, (Hm r), IH; [done|set_solver..].
Qed.

Lemma row_concat {A} (rows : list (list A)) m i r : (∀ r, r ∈ rows → length r = m) → rows !! i = Some r →
  take m (drop (i * m) (concat rows)) = r.
Proof.
  revert i. induction rows as [|r' rows IH]; intros i Hm Hi; [done|]. cbn [concat].
  assert (length r' = m) as Hr by (apply Hm; left). destruct i as [|i]; simpl in Hi.
  - injection Hi as ->. by rewrite Nat.mul_0_l, drop_0, take_app_le, take_ge by lia.
  - replace (S i * m) with (length r' + i * m) by lia. rewrite drop_app_add. apply IH; [set_solver|done].
Qed.

Lemma pfold_app {A B} (f : A → B → py A) l k : ∀ a, pfold f a (l ++ k) = (let? x := pfold f a l in pfold f x k).
Proof. induction l as [|x l IH]; intros a; [done|]. cbn [app pfold]. destruct (f a x); [apply IH|done]. Qed.

(** ** A chain *)

Section Chain.
Context `{CostOk, !NdOps, !NdOk}.
Context {cfg : Type} (to_f32 : num → num) (to_f32_exact : ∀ x, val (to_f32 x) = val x).
Context (target_ops input_names : list string) (node_list : list node_entry) (at_ : gmap nat (@attr _ cfg)).
Context (in_nodes_dict out_nodes_dict : list (nat * list nat)) (ltf : gmap (nat * nat) (list (list num))).

(** The nodes [ns], each with the one before it as its only input and all of them tuned, after the
    boundary node [b]; [ts] are the times of their candidates. *)
Record is_chain (b : nat) (ns : list nat) (ts : list (list num)) : Prop := {
  ch_some : ns ≠ [];
  ch_sorted : StronglySorted lt ns;
  ch_keys : od_keys in_nodes_dict ≡ₚ ns;
  ch_times : length ts = length ns;
  ch_in i n : ns !! i = Some n → od_get in_nodes_dict n = Some [default b (match i with 0 => None | S j => ns !! j end)];
  ch_out i n : ns !! i = Some n → od_get out_nodes_dict n = Some (match ns !! S i with Some n' => [n'] | None => [] end);
  ch_outputs : NoDup (od_keys out_nodes_dict) ∧ ∀ k, (k, []) ∈ out_nodes_dict → last ns = Some k;
  ch_boundary : boundary_at input_names node_list b = Ret true;
  ch_node i n : ns !! i = Some n → ∃ e a l, node_list !! n = Some e ∧ is_target target_ops e = true ∧
    is_boundary_node input_names e = false ∧ multi input_names node_list n = Ret false ∧
    at_ !! n = Some a ∧ workloads a ≠ [] ∧ record_candidates a = Some l ∧ l ≠ [] ∧ ts !! i = Some (r_cost <$> l);
  ch_ltf i n n' : ns !! i = Some n → ns !! S i = Some n' → ∃ m, ltf !! (n, n') = Some m ∧
    length m = length (default [] (ts !! i)) ∧ ∀ row, row ∈ m → length row = length (default [] (ts !! S i))
}.

Context (b : nat) (ns : list nat) (ts : list (list num)) (Hch : is_chain b ns ts).

Definition sz (i : nat) : nat := length (default [] (ts !! i)).
Definition node_time (i x : nat) : Z := val (default num_zero (default [] (ts !! i) !! x)).
Definition move_time (i x y : nat) : Z :=
  match ns !! i, ns !! S i with
  | Some n, Some n' => val (match ltf_at ltf n n' x y with Ret t => t | Raise _ => num_zero end)
  | _, _ => 0%Z
  end.

(** The time of the first [S i] nodes for the choices [c] by position. *)
Fixpoint chain_time (i : nat) (c : nat → nat) : Z :=
  match i with
  | 0 => node_time 0 (c 0)
  | S i => (chain_time i c + node_time (S i) (c (S i)) + move_time i (c i) (c (S i)))%Z
  end.

(** What the stage of a position holds: the least time up to the choices of the node. *)
Definition state_at (st : stage) (x : nat) : Z := val (default num_zero (nd_flatten (st_states st) !! x)).

Definition first_stage (st : stage) : Prop :=
  st_dep st = [] ∧ nd_shape (st_states st) = [sz 0] ∧ ∀ x, x < sz 0 → state_at st x = node_time 0 x.

Definition next_stage (i : nat) (prev st : stage) : Prop :=
  st_dep st = [] ∧ nd_shape (st_states st) = [sz (S i)] ∧ nd_shape (st_full_states st) = [sz (S i); sz i] ∧
  (∀ y x v, y < sz (S i) → row_at (st_full_states st) (sz i) y !! x = Some v →
    val v = (node_time (S i) y + move_time i x y + state_at prev x)%Z) ∧
  ∀ y, y < sz (S i) → least (default num_zero (nd_flatten (st_states st) !! y)) (row_at (st_full_states st) (sz i) y).

Lemma chain_node i n : ns !! i = Some n → ∃ e a l, node_list !! n = Some e ∧ is_target target_ops e = true ∧
  boundary_at input_names node_list n = Ret false ∧ multi input_names node_list n = Ret false ∧
  dget at_ n = Ret a ∧ (∃ w, lnth (workloads a) 0 = Ret w) ∧ candidates at_ n = Ret l ∧ times at_ n = Ret (r_cost <$> l) ∧
  ts !! i = Some (r_cost <$> l) ∧ sz i = length l ∧ 0 < length l.
Proof.
  intros Hn. destruct (ch_node _ _ _ Hch i n Hn) as (e & a & l & He & Ht & Hb & Hm & Ha & Hw & Hr & Hl & Hts).
  exists e, a, l. assert (candidates at_ n = Ret l) as Hc by (unfold candidates, dget; rewrite Ha; cbn [pbind]; by rewrite Hr).
  split; [done|]. split; [done|]. split; [unfold boundary_at, lnth; rewrite He; cbn [pbind]; by rewrite Hb|].
  split; [done|]. split; [unfold dget; by rewrite Ha|]. split; [destruct (workloads a) as [|w ws]; [done|by exists w]|].
  split; [done|]. split; [unfold times; by rewrite Hc|]. split; [done|].
  split; [unfold sz; rewrite Hts; simpl; by rewrite length_fmap|]. destruct l; [done|simpl; lia].
Qed.

Lemma sz_pos i : i < length ns → 0 < sz i.
Proof.
  intros Hi. destruct (lookup_lt_is_Some_2 ns i Hi) as [n Hn].
  destruct (chain_node i n Hn) as (e & a & l & _ & _ & _ & _ & _ & _ & _ & _ & _ & -> & ?). done.
Qed.

Lemma ltf_ok i n n' x y : ns !! i = Some n → ns !! S i = Some n' → x < sz i → y < sz (S i) →
  ∃ t, ltf_at ltf n n' x y = Ret t ∧ val t = move_time i x y.
Proof.
  intros Hn Hn' Hx Hy. destruct (ch_ltf _ _ _ Hch i n n' Hn Hn') as (m & Hm & Hlen & Hrow).
  destruct (lookup_lt_is_Some_2 m x) as [row Hr]; [by rewrite Hlen|].
  destruct (lookup_lt_is_Some_2 row y) as [t Ht]; [by rewrite (Hrow row) by (by eapply list_elem_of_lookup_2)|].
  assert (ltf_at ltf n n' x y = Ret t) as Hl.
  { unfold ltf_at, dget, lnth. rewrite Hm. cbn [pbind]. rewrite Hr. cbn [pbind]. by rewrite Ht. }
  exists t. split; [done|]. unfold move_time. by rewrite Hn, Hn', Hl.
Qed.

(** ** One stage *)

Abbreviation op_states := (create_op_states to_f32 input_names node_list at_ in_nodes_dict out_nodes_dict ltf).

Lemma outs_short i n : ns !! i = Some n → ∃ outs, od_at out_nodes_dict n = Ret outs ∧ length outs ≤ 1 ∧
  (is_Some (ns !! S i) → length outs = 1).
Proof.
  intros Hn. exists (match ns !! S i with Some n' => [n'] | None => [] end).
  unfold od_at. rewrite (ch_out _ _ _ Hch i n Hn). split; [done|]. destruct (ns !! S i); simpl; split; try lia. by intros [? ?].
Qed.

Lemma update_none i n s : ns !! i = Some n → update_deps out_nodes_dict n [] s = (Ret tt, s).
Proof.
  intros Hn. destruct (outs_short i n Hn) as (outs & Ho & Hl & _). unfold update_deps, sbind, sget, slift. rewrite Ho. simpl.
  destruct (1 <? length outs) eqn:E; [apply Nat.ltb_lt in E; lia|]. by destruct s.
Qed.

Lemma ins_of i n : ns !! i = Some n →
  od_at in_nodes_dict n = Ret [default b (match i with 0 => None | S j => ns !! j end)].
Proof. intros Hn. unfold od_at. by rewrite (ch_in _ _ _ Hch i n Hn). Qed.

Lemma op_states_first n s : ns !! 0 = Some n → ∃ st, op_states n s = (Ret st, s) ∧ first_stage st.
Proof.
  intros Hn. destruct (chain_node 0 n Hn) as (e & a & l & _ & _ & _ & _ & _ & _ & _ & Ht & Hts & Hsz & _).
  destruct (reshape_ok (r_cost <$> l) [length (r_cost <$> l)]) as (full & Hf & Hsh & Hfl); [simpl; lia|].
  exists (mkStage [] full full None). split.
  - unfold create_op_states, sbind at 1, slift. rewrite (ins_of 0 n Hn). unfold sbind at 1.
    change (lnth [default b None] 0) with (@Ret nat b). unfold sbind at 1.
    rewrite (ch_boundary _ _ _ Hch). unfold sbind at 1. rewrite Ht. unfold sbind at 1. rewrite Hf. unfold sbind.
    by rewrite (update_none 0 n s Hn).
  - split; [done|]. simpl. rewrite Hsh, length_fmap, Hsz. split; [done|]. intros x Hx. unfold state_at, node_time. simpl.
    by rewrite Hfl, Hts.
Qed.

(** The entries for one candidate of the node. *)
Lemma op_row i n n' y current input : ns !! i = Some n → ns !! S i = Some n' → y < sz (S i) → length input = sz i →
  ∃ row, pymap (λ '(j, state),
      let? t := ltf_at ltf n n' (j `div` 1) y in
      Ret (to_f32 (num_add (num_add current t) state))) (enumerate input) = Ret row ∧
    length row = sz i ∧
    ∀ x v, row !! x = Some v → val v = (val current + move_time i x y + val (default num_zero (input !! x)))%Z.
Proof.
  intros Hn Hn' Hy Hlen. edestruct (pymap_inv (λ '(j, state),
      let? t := ltf_at ltf n n' (j `div` 1) y in
      Ret (to_f32 (num_add (num_add current t) state)))
    (λ x v, val v = (val current + move_time i x y + val (default num_zero (input !! x)))%Z) (enumerate input))
    as (row & Hrow & Hl & Hval).
  - intros x [x' state] Hx. rewrite lookup_enumerate in Hx. destruct (input !! x) as [st|] eqn:Hst; [|done].
    injection Hx as <- <-. destruct (ltf_ok i n n' x y Hn Hn') as (t & Ht & Hvt); [|done|].
    { rewrite <-Hlen. by eapply lookup_lt_Some. }
    rewrite Nat.div_1_r, Ht. cbn [pbind]. eexists. split; [done|]. by rewrite to_f32_exact, !val_add, Hvt.
  - exists row. split; [done|]. unfold enumerate in Hl. rewrite length_imap in Hl. split; [lia|exact Hval].
Qed.

(** What is known of the tuner when the stages of the first [k] nodes have been made. *)
Record stages_ok (k : nat) (s : dp) : Prop := {
  so_stage i n : i < k → ns !! i = Some n → ∃ st, d_stages s !! n = Some st ∧
    match i with
    | 0 => first_stage st
    | S j => ∃ p prev, ns !! j = Some p ∧ d_stages s !! p = Some prev ∧ next_stage j prev st
    end;
  so_counted i n : k ≤ S i → ns !! i = Some n → n ∉ d_counted s
}.

Lemma stage_shape st i : match i with 0 => first_stage st | S j => ∃ prev, next_stage j prev st end →
  st_dep st = [] ∧ nd_shape (st_states st) = [sz i].
Proof. destruct i; [by intros (? & ? & _)|by intros (prev & ? & ? & _)]. Qed.

Lemma op_states_next i n n' s prev : ns !! i = Some n → ns !! S i = Some n' → d_stages s !! n = Some prev →
  st_dep prev = [] → nd_shape (st_states prev) = [sz i] → n ∉ d_counted s →
  ∃ st, op_states n' s = (Ret st, mkDp ({[n]} ∪ d_counted s) (d_stages s) (d_deps s) (d_num_states s) (d_opt s)) ∧
    next_stage i prev st.
Proof.
  intros Hn Hn' Hprev Hdep Hshape Hcnt.
  destruct (chain_node i n Hn) as (e & a & l & He & _ & Hb & _ & _ & _ & Hc & _ & Hts & Hsz & Hpos).
  destruct (chain_node (S i) n' Hn') as (e' & a' & l' & _ & _ & _ & _ & _ & _ & _ & Ht' & Hts' & Hsz' & Hpos').
  set (input := nd_flatten (st_states prev)).
  assert (length input = sz i) as Hin by (unfold input; rewrite nd_length, Hshape; simpl; lia).
  destruct (pymap_inv (λ '(y, current), pymap (λ '(j, state),
      let? t := ltf_at ltf n n' (j `div` 1) y in
      Ret (to_f32 (num_add (num_add current t) state))) (enumerate input))
    (λ y row, length row = sz i ∧ ∀ x v, row !! x = Some v →
      val v = (node_time (S i) y + move_time i x y + val (default num_zero (input !! x)))%Z) (enumerate (r_cost <$> l')))
    as (rows & Hrows & Hlr & Hval).
  { intros y [y' current] Hy. rewrite lookup_enumerate in Hy. destruct ((r_cost <$> l') !! y) as [c|] eqn:Hcur; [|done].
    injection Hy as <- <-. destruct (op_row i n n' y c input Hn Hn') as (row & Hrow & Hlen & Hv); [|done|].
    { unfold sz. rewrite Hts'. simpl. by eapply lookup_lt_Some. }
    exists row. split; [done|]. split; [done|]. intros x v Hx. rewrite (Hv x v Hx). unfold node_time. rewrite Hts'. simpl. by rewrite Hcur. }
  unfold enumerate in Hlr. rewrite length_imap, length_fmap in Hlr.
  assert (∀ r, r ∈ rows → length r = sz i) as Hlen.
  { intros r [y Hy]%list_elem_of_lookup. by destruct (Hval y r Hy). }
  assert (length (concat rows) = length l' * sz i) as Hcl by (rewrite (length_concat_rows _ (sz i)) by done; by rewrite Hlr).
  destruct (reshape_ok (concat rows) [length l'; length l]) as (full & Hfull & Hfsh & Hffl); [simpl; rewrite Hcl, Hsz; lia|].
  destruct (amin_rows full (length l') (length l) Hfsh Hpos) as (mins & Hmin & Hmsh & Hleast).
  destruct (outs_short i n Hn) as (outs & Hout & _ & Hone).
  assert (length outs = 1) as Ho1 by (apply Hone; by rewrite Hn').
  exists (mkStage [] mins full (Some [n'; n])). split.
  - unfold create_op_states, sbind at 1, slift. rewrite (ins_of (S i) n' Hn'). unfold sbind at 1. rewrite Hn.
    change (lnth [default b (Some n)] 0) with (@Ret nat n). unfold sbind at 1.
    rewrite Hb. unfold sbind at 1. rewrite Ht'. unfold sbind at 1. unfold sget at 1. unfold sbind at 1. unfold dget at 1. rewrite Hprev.
    rewrite Hdep. unfold sbind at 1. unfold num_candidates at 1. rewrite Hc. cbn [pbind]. unfold sbind at 1. cbn [pymap].
    rewrite bool_decide_false by done. unfold sbind at 1. cbn [size_of_axes foldr]. fold input. rewrite Hrows. unfold sbind at 1.
    unfold fill. rewrite Hcl. cbn [size_of_axes foldr]. rewrite (proj2 (Nat.leb_le _ _)) by (rewrite length_fmap, Hsz; lia).
    rewrite length_fmap. replace (length l' * (length l * 1) - length l' * sz i) with 0 by (rewrite Hsz; lia).
    rewrite app_nil_r. unfold sbind at 1. unfold count_node at 1, smod. unfold sbind at 1. rewrite Hfull. unfold sbind at 1. rewrite Hout.
    unfold sbind at 1. rewrite Ho1. cbn [Nat.eqb]. unfold sbind at 1. rewrite Hmin. unfold sret at 1. unfold sbind.
    by rewrite (update_none (S i) n' _ Hn').
  - split; [done|]. simpl. split; [by rewrite Hmsh, Hsz'|]. split; [by rewrite Hfsh, Hsz', Hsz|].
    assert (∀ y, y < sz (S i) → ∃ r, rows !! y = Some r ∧ row_at full (sz i) y = r) as Hrow.
    { intros y Hy. destruct (lookup_lt_is_Some_2 rows y) as [r Hr]; [by rewrite Hlr, <-Hsz'|]. exists r. split; [done|].
      unfold row_at. rewrite Hffl. by apply row_concat. }
    split.
    + intros y x v Hy Hx. destruct (Hrow y Hy) as (r & Hr & Heq). rewrite Heq in Hx. destruct (Hval y r Hr) as [_ Hv]. by apply Hv.
    + intros y Hy. destruct (Hleast y) as (x & Hx & Hl); [by rewrite <-Hsz'|]. rewrite Hx. simpl. by rewrite Hsz.
Qed.

(** ** All stages *)

Lemma ns_inj i j n : ns !! i = Some n → ns !! j = Some n → i = j.
Proof.
  intros Hi Hj. assert (NoDup ns) as Hnd.
  { pose proof (ch_sorted _ _ _ Hch) as Hs. clear - Hs. induction Hs as [|x l _ IH Hx]; constructor; [|done].
    intros Hin. rewrite Forall_forall in Hx. specialize (Hx x Hin). lia. }
  by eapply NoDup_lookup.
Qed.

Lemma sorted_keys : sorted_nodes (od_keys in_nodes_dict) = ns.
Proof.
  unfold sorted_nodes. apply (StronglySorted_unique le).
  - apply StronglySorted_merge_sort; [intros x y z; lia|intros x y; lia].
  - pose proof (ch_sorted _ _ _ Hch) as Hs. clear - Hs. induction Hs as [|x l _ IH Hx]; constructor; [done|].
    rewrite Forall_forall in Hx |- *. intros y Hy. apply Nat.lt_le_incl. by apply Hx.
  - rewrite merge_sort_Permutation. apply (ch_keys _ _ _ Hch).
Qed.

Abbreviation tuner_stage := (dp_stage to_f32 target_ops input_names node_list at_ in_nodes_dict out_nodes_dict ltf).

Lemma tuner_stage_op i n s : ns !! i = Some n → tuner_stage n s = op_states n s.
Proof.
  intros Hn. destruct (chain_node i n Hn) as (e & a & l & He & Ht & _ & _ & Ha & (w & Hw) & Hc & _).
  unfold dp_stage, sbind at 1, slift. unfold lnth at 1. rewrite He. unfold sbind at 1. rewrite Ha. unfold sbind at 1. rewrite Hw.
  unfold sbind. by rewrite Hc, Ht.
Qed.

Lemma stages_step k n s : stages_ok k s → ns !! k = Some n →
  ∃ s', (let! st := tuner_stage n in
         let! _ := check_num_states None (length (nd_flatten (st_full_states st))) in
         set_stage n st) s = (Ret tt, s') ∧ stages_ok (S k) s'.
Proof.
  intros [Hstage Hcnt] Hn. unfold sbind at 1. rewrite (tuner_stage_op k n s Hn). destruct k as [|k].
  - destruct (op_states_first n s Hn) as (st & -> & Hst). eexists. split; [done|]. split; simpl.
    + intros i n' Hi Hn'. assert (i = 0) as -> by lia. assert (n' = n) as -> by congruence. exists st. by rewrite lookup_insert_eq.
    + intros i n' _. apply Hcnt. lia.
  - destruct (lookup_lt_is_Some_2 ns k) as [p Hp]; [apply lookup_lt_Some in Hn; lia|].
    destruct (Hstage k p) as (prev & Hprev & Hpst); [lia|done|].
    destruct (stage_shape prev k) as [Hd Hsh]; [by destruct k as [|j]; [|destruct Hpst as (q & pp & _ & _ & ?); exists pp]|].
    destruct (op_states_next k p n s prev Hp Hn Hprev Hd Hsh) as (st & -> & Hst); [by apply (Hcnt k)|].
    assert (∀ i n', ns !! i = Some n' → i ≠ S k → n ≠ n') as Hne by (intros i n' Hi Hik ->; apply Hik; by eapply ns_inj).
    eexists. split; [done|]. split; simpl.
    + intros i n' Hi Hn'. destruct (decide (i = S k)) as [->|Hik].
      { assert (n' = n) as -> by congruence. exists st. rewrite lookup_insert_eq. split; [done|].
        exists p, prev. rewrite lookup_insert_ne by (apply (Hne k); [done|lia]). done. }
      rewrite lookup_insert_ne by (by apply (Hne i)). destruct (Hstage i n') as (st' & Hst' & Hrel); [lia|done|]. exists st'.
      split; [done|]. destruct i as [|j]; [done|]. destruct Hrel as (q & pp & Hq & Hpp & Hrel). exists q, pp.
      rewrite lookup_insert_ne; [done|]. apply (Hne j); [done|lia].
    + intros i n' Hi Hn'. apply not_elem_of_union. split; [|apply (Hcnt i); [lia|done]].
      rewrite not_elem_of_singleton. intros ->. pose proof (ns_inj i k p Hn' Hp). lia.
Qed.

Lemma dp_forward_ok s : d_counted s = ∅ →
  ∃ s', forward to_f32 target_ops input_names node_list at_ in_nodes_dict out_nodes_dict ltf None s = (Ret tt, s') ∧
    stages_ok (length ns) s'.
Proof.
  intros Hs. unfold forward. rewrite sorted_keys. apply (sfor_inv _ (λ l s, stages_ok (length l) s)).
  - split; [simpl; lia|]. intros i n _ _. rewrite Hs. set_solver.
  - intros pre n rest t Hl Ht. rewrite length_app, Nat.add_1_r. apply stages_step; [done|]. rewrite Hl. by apply list_lookup_middle.
Qed.

(** ** The last node *)

Lemma outputs_one nl : last ns = Some nl → fst <$> filter (λ x, x.2 = []) out_nodes_dict = [nl].
Proof.
  intros Hl. destruct (ch_outputs _ _ _ Hch) as [Hnd Hout]. set (L := fst <$> _).
  assert (∀ k, k ∈ L → k = nl) as Hall.
  { intros k ([k' v] & -> & [Hv Hin]%list_elem_of_filter)%list_elem_of_fmap. simpl in *. subst v. apply Hout in Hin. congruence. }
  assert (nl ∈ L) as Hin.
  { rewrite last_lookup in Hl. pose proof (ch_out _ _ _ Hch _ _ Hl) as Ho.
    rewrite (lookup_ge_None_2 ns) in Ho by lia. apply list_elem_of_fmap. exists (nl, []). split; [done|].
    apply list_elem_of_filter. split; [done|]. by apply od_get_elem. }
  assert (NoDup L) as HndL.
  { unfold L. eapply (sublist_NoDup _ (od_keys out_nodes_dict)); [exact Hnd|]. apply fmap_sublist, sublist_filter. }
  destruct L as [|x [|y L]]; [by apply elem_of_nil in Hin| |].
  - f_equal. apply Hall. left.
  - exfalso. apply NoDup_cons in HndL as [Hx _]. apply Hx. rewrite (Hall x), (Hall y) by set_solver. left.
Qed.

Lemma align_last stages i n st : ns !! i = Some n → stages !! n = Some st → st_dep st = [] → nd_shape (st_states st) = [sz i] →
  ∃ a, align_states at_ stages [n] = Ret ([(n, 0, 1, a)], [n]) ∧ nd_shape a = [sz i] ∧ nd_flatten a = nd_flatten (st_states st).
Proof.
  intros Hn Hst Hdep Hsh. destruct (chain_node i n Hn) as (e & a & l & _ & _ & _ & _ & _ & _ & Hc & _ & _ & Hsz & _).
  destruct (transpose_same (st_states st)) as (t & Ht & Htsh & Htf). rewrite Hsh in Ht, Htsh. change (seq 0 (length [sz i])) with [0] in Ht.
  destruct (reshape_ok (nd_flatten t) [sz i]) as (r & Hr & Hrsh & Hrf).
  { rewrite Htf, nd_length, Hsh. done. }
  destruct (broadcast_same r) as (c & Hbc & Hcsh & Hcf). rewrite Hrsh in Hbc, Hcsh.
  assert (align_one stages [n] [sz i] n = Ret (n, 0, 1, c)) as Hone.
  { unfold align_one, dget. rewrite Hst. cbn [pbind]. rewrite Hdep.
    assert (filter (λ idx, idx ∈ [n]) [n] = [n]) as -> by (rewrite filter_cons_True by set_solver; done).
    cbn [pymap pos_of pbind]. rewrite Nat.eqb_refl. cbn [pbind]. rewrite Ht. cbn [pbind zip_with].
    rewrite bool_decide_true by set_solver. rewrite Hr. cbn [pbind]. rewrite Hbc. cbn [pbind].
    unfold major_axis_of. simpl. by rewrite Nat.eqb_refl. }
  exists c. split; [|split; [done|congruence]].
  unfold align_states. cbn [pfold]. unfold dget at 1. rewrite Hst. cbn [pbind]. rewrite Hdep. cbn [add_new foldl].
  cbn [pymap]. unfold num_candidates at 1. rewrite Hc. cbn [pbind]. rewrite <-Hsz, Hone. done.
Qed.

(** The choice for the least time. *)
Lemma best_pos_ok l m : l ≠ [] → m ∈ l → (∀ y, y ∈ l → num_ltb m y = false) →
  ∃ p, best_pos [l] (length l) (num_add num_zero m) = Ret p ∧
    ∃ x, l !! Z.to_nat (p mod Z.of_nat (length l)) = Some x ∧ ∀ y, y ∈ l → (val x ≤ val y)%Z.
Proof.
  intros Hne Hm Hmax.
  assert (∀ y, y ∈ l → (val y ≤ val m)%Z) as Hle.
  { intros y Hy. specialize (Hmax y Hy). rewrite val_ltb in Hmax. apply bool_decide_eq_false in Hmax. lia. }
  set (f := λ '(min_time, min_pos) i, let? current := pfold (λ t l, let? x := lnth l i in Ret (num_add t x)) num_zero [l] in
    Ret (if num_ltb current min_time then (current, Z.of_nat i) else (min_time, min_pos))).
  assert (∀ k, k ≤ length l → ∃ t p, pfold f (num_add num_zero m, (-1)%Z) (seq 0 k) = Ret (t, p) ∧
    (p = (-1)%Z ∧ val t = val m ∧ (∀ i x, i < k → l !! i = Some x → (val m ≤ val x)%Z) ∨
     ∃ i x, p = Z.of_nat i ∧ l !! i = Some x ∧ val t = val x ∧ ∀ j y, j < k → l !! j = Some y → (val x ≤ val y)%Z)) as Hgo.
  { induction k as [|k IH]; intros Hk.
    - exists (num_add num_zero m), (-1)%Z. split; [done|]. left. split; [done|]. split; [|lia]. rewrite val_add, val_zero. lia.
    - destruct IH as (t & p & Hrun & Hor); [lia|]. destruct (lookup_lt_is_Some_2 l k) as [x Hx]; [lia|].
      assert (f (t, p) k = Ret (if num_ltb (num_add num_zero x) t then (num_add num_zero x, Z.of_nat k) else (t, p))) as Hf.
      { unfold f. cbn [pfold]. by rewrite (lnth_Some l k x Hx). }
      assert (val (num_add num_zero x) = val x) as Hv by (rewrite val_add, val_zero; lia).
      eexists _, _. split.
      { rewrite seq_S, pfold_app, Hrun. cbn [pbind pfold]. simpl plus. rewrite Hf. cbn [pbind].
        instantiate (1 := (if num_ltb (num_add num_zero x) t then (num_add num_zero x, Z.of_nat k) else (t, p)).2).
        instantiate (1 := (if num_ltb (num_add num_zero x) t then (num_add num_zero x, Z.of_nat k) else (t, p)).1).
        by rewrite <-surjective_pairing. }
      rewrite val_ltb, Hv. case_bool_decide as Hlt; simpl.
      + right. exists k, x. split; [done|]. split; [done|]. split; [done|]. intros j y Hj Hy.
        destruct (decide (j = k)) as [->|]; [assert (y = x) as -> by congruence; lia|].
        destruct Hor as [(_ & Ht & Hall)|(i & z & _ & _ & Ht & Hall)]; specialize (Hall j y ltac:(lia) Hy); lia.
      + destruct Hor as [(-> & Ht & Hall)|(i & z & -> & Hz & Ht & Hall)].
        * left. split; [done|]. split; [done|]. intros j y Hj Hy. destruct (decide (j = k)) as [->|]; [|apply (Hall j); [lia|done]].
          assert (y = x) as -> by congruence. lia.
        * right. exists i, z. split; [done|]. split; [done|]. split; [done|]. intros j y Hj Hy.
          destruct (decide (j = k)) as [->|]; [assert (y = x) as -> by congruence; lia|]. apply (Hall j); [lia|done]. }
  destruct (Hgo (length l)) as (t & p & Hrun & Hor); [done|]. exists p. split.
  { unfold best_pos. fold f. by rewrite Hrun. }
  assert (0 < length l) as Hpos by (destruct l; [done|simpl; lia]).
  destruct Hor as [(-> & _ & Hall)|(i & x & -> & Hx & _ & Hall)].
  - destruct (lookup_lt_is_Some_2 l (Z.to_nat (-1 mod Z.of_nat (length l)))) as [x Hx].
    { pose proof (Z.mod_pos_bound (-1) (Z.of_nat (length l))). lia. }
    exists x. split; [done|]. intros y [j Hy]%list_elem_of_lookup. pose proof (Hle x ltac:(by eapply list_elem_of_lookup_2)).
    pose proof (Hall j y ltac:(by eapply lookup_lt_Some) Hy). lia.
  - assert (i < length l) as Hi by (by eapply lookup_lt_Some). rewrite Z.mod_small by lia. rewrite Nat2Z.id. exists x. split; [done|].
    intros y [j Hy]%list_elem_of_lookup. by apply (Hall j y ltac:(by eapply lookup_lt_Some)).
Qed.

(** ** Reading the choices off *)

(** The choices by position. *)
Definition chosen (opt : gmap nat nat) (i : nat) : nat := match ns !! i with Some n => default 0 (opt !! n) | None => 0 end.

Lemma least_unique x y (l : list num) : least x l → least y l → val x = val y.
Proof.
  intros [Hx Hx'] [Hy Hy']. specialize (Hx' y Hy). specialize (Hy' x Hx).
  rewrite val_ltb in Hx', Hy'. apply bool_decide_eq_false in Hx', Hy'. lia.
Qed.

Lemma chain_time_ext i c c' : (∀ j, j ≤ i → c j = c' j) → chain_time i c = chain_time i c'.
Proof. induction i as [|i IH]; intros Hc; simpl; rewrite !Hc by lia; [done|]. rewrite IH; [done|]. intros j Hj. apply Hc. lia. Qed.

Abbreviation loop := (back_loop input_names node_list in_nodes_dict).

Lemma loop_single fuel stages i n visited opt : ns !! i = Some n →
  loop (S fuel) stages [n] visited opt =
  (let? (opt, next) := back_single input_names node_list in_nodes_dict stages ({[n]} ∪ visited) n opt in
   loop fuel stages next ({[n]} ∪ visited) opt).
Proof.
  intros Hn. destruct (chain_node i n Hn) as (e & a & l & _ & _ & Hb & Hm & _). cbn [back_loop]. rewrite Hb. cbn [pbind].
  rewrite Hm. cbn [pbind]. done.
Qed.

Lemma loop_ok s : stages_ok (length ns) s → ∀ i n st fuel visited opt x,
  ns !! i = Some n → d_stages s !! n = Some st → i < fuel → opt !! n = Some x → x < sz i →
  (∀ j m, ns !! j = Some m → j < i → opt !! m = None ∧ m ∉ visited) →
  ∃ opt', loop fuel (d_stages s) [n] visited opt = Ret opt' ∧
    (∀ j m, ns !! j = Some m → i ≤ j → opt' !! m = opt !! m) ∧
    (∀ j m, ns !! j = Some m → j ≤ i → ∃ y, opt' !! m = Some y ∧ y < sz j) ∧
    chain_time i (chosen opt') = state_at st x.
Proof.
  intros Hok. induction i as [|i IH]; intros n st fuel visited opt x Hn Hst Hfuel Hx Hxs Hfresh;
    (destruct fuel as [|fuel]; [lia|]); rewrite (loop_single _ _ _ _ _ _ Hn); unfold back_single, dget at 1;
    rewrite Hx; cbn [pbind]; unfold dget at 1; rewrite Hst; cbn [pbind]; rewrite (ins_of _ n Hn); cbn [pbind].
  - change (lnth [default b None] 0) with (@Ret nat b). cbn [pbind]. rewrite (ch_boundary _ _ _ Hch). cbn [pbind orb].
    exists opt. split; [by destruct fuel|]. split; [done|]. split.
    + intros j m Hj Hji. assert (j = 0) as -> by lia. assert (m = n) as -> by congruence. by exists x.
    + destruct (so_stage _ _ Hok 0 n) as (st' & Hst' & _ & _ & Hval); [by eapply lookup_lt_Some|done|].
      assert (st' = st) as -> by congruence. rewrite Hval by done. unfold chain_time, chosen. by rewrite Hn, Hx.
  - destruct (lookup_lt_is_Some_2 ns i) as [p Hp]; [apply lookup_lt_Some in Hn; lia|]. rewrite Hp.
    change (lnth [default b (Some p)] 0) with (@Ret nat p). cbn [pbind].
    destruct (chain_node i p Hp) as (_ & _ & _ & _ & _ & Hb & _). rewrite Hb. cbn [pbind orb].
    assert (p ≠ n) as Hpn by (intros ->; pose proof (ns_inj i (S i) n Hp Hn); lia).
    destruct (Hfresh i p Hp) as [Hpo Hpv]; [lia|]. rewrite bool_decide_false by set_solver. rewrite Hpo.
    destruct (so_stage _ _ Hok (S i) n) as (st' & Hst' & q & prev & Hq & Hprev & Hd & Hsh & Hfsh & Hfull & Hleast); [by eapply lookup_lt_Some|done|].
    assert (st' = st) as -> by congruence. assert (q = p) as -> by congruence. rewrite Hd. cbn [pymap pbind].
    assert (0 < sz i) as Hpos by (apply sz_pos; by eapply lookup_lt_Some).
    destruct (argmin_rows (st_full_states st) (sz (S i)) (sz i) x Hfsh Hpos Hxs) as (j & v & -> & Hj & Hv & Hvl). cbn [pbind].
    destruct (IH p prev fuel ({[n]} ∪ visited) (<[p := j]> opt) j) as (opt' & Hrun & Hkeep & Hall & Htime); [done|done|lia| |done| |].
    { by rewrite lookup_insert_eq. }
    { intros k m Hk Hki. assert (m ≠ p) by (intros ->; pose proof (ns_inj k i p Hk Hp); lia).
      assert (m ≠ n) by (intros ->; pose proof (ns_inj k (S i) n Hk Hn); lia). destruct (Hfresh k m Hk) as [? ?]; [lia|].
      rewrite lookup_insert_ne by done. split; [done|set_solver]. }
    exists opt'. split; [done|].
    assert (∀ k m, ns !! k = Some m → S i ≤ k → opt' !! m = opt !! m) as Hkeep'.
    { intros k m Hk Hik. rewrite (Hkeep k m Hk) by lia. rewrite lookup_insert_ne; [done|]. intros <-. pose proof (ns_inj k i p Hk Hp). lia. }
    split; [done|]. split.
    + intros k m Hk Hki. destruct (decide (k = S i)) as [->|]; [|apply Hall; [done|lia]]. assert (m = n) as -> by congruence.
      exists x. by rewrite (Hkeep' (S i) n Hn).
    + cbn [chain_time]. rewrite Htime.
      assert (chosen opt' (S i) = x) as ->. { unfold chosen. by rewrite Hn, (Hkeep' (S i) n Hn), Hx. }
      assert (chosen opt' i = j) as ->. { unfold chosen. by rewrite Hp, (Hkeep i p Hp), lookup_insert_eq. }
      pose proof (Hfull x j v Hxs Hv) as Hval. unfold state_at at 2. rewrite (least_unique _ _ _ (Hleast x Hxs) Hvl). lia.
Qed.

(** No choice takes less than what the stages say. *)
Lemma states_lower s i n st c : stages_ok (length ns) s → ns !! i = Some n → d_stages s !! n = Some st →
  (∀ j, j ≤ i → c j < sz j) → (state_at st (c i) ≤ chain_time i c)%Z.
Proof.
  intros Hok. revert n st. induction i as [|i IH]; intros n st Hn Hst Hc;
    (destruct (so_stage _ _ Hok _ n ltac:(by eapply lookup_lt_Some) Hn) as (st' & Hst' & Hrel);
     assert (st' = st) as -> by congruence).
  - destruct Hrel as (_ & _ & Hval). rewrite Hval; [done|]. by apply Hc.
  - destruct Hrel as (p & prev & Hp & Hprev & _ & _ & Hfsh & Hfull & Hleast). cbn [chain_time].
    pose proof (IH p prev Hp Hprev ltac:(intros; apply Hc; lia)) as Hle.
    destruct (Hleast (c (S i)) (Hc (S i) (le_n _))) as [_ Hmin].
    destruct (lookup_lt_is_Some_2 (row_at (st_full_states st) (sz i) (c (S i))) (c i)) as [v Hv].
    { unfold row_at. rewrite length_take, length_drop, nd_length, Hfsh. simpl. pose proof (Hc i ltac:(lia)).
      pose proof (Hc (S i) ltac:(lia)). nia. }
    specialize (Hmin v ltac:(by eapply list_elem_of_lookup_2)). rewrite val_ltb in Hmin. apply bool_decide_eq_false in Hmin.
    pose proof (Hfull (c (S i)) (c i) v (Hc (S i) (le_n _)) Hv). unfold state_at at 1. lia.
Qed.

(** C10: On a chain of tuned operators, with exact arithmetic, the dynamic programming tuner ends with as much
    fuel as there are nodes: every node gets one of its records, and no choice of
    records has a shorter time of all nodes and of the layout transformations between
    neighbours than the result. *)
Theorem dp_chain_optimal fuel : length ns ≤ fuel →
  ∃ s, dp_run to_f32 target_ops input_names node_list at_ in_nodes_dict out_nodes_dict ltf None fuel dp_init = (Ret tt, s) ∧
    (∀ i n, ns !! i = Some n → ∃ x, d_opt s !! n = Some x ∧ x < sz i) ∧
    ∀ c, (∀ i, i < length ns → c i < sz i) →
      (chain_time (length ns - 1) (chosen (d_opt s)) ≤ chain_time (length ns - 1) c)%Z.
Proof.
  intros Hfuel. assert (0 < length ns) as Hlen by (pose proof (ch_some _ _ _ Hch); destruct ns; [done|simpl; lia]).
  set (last_i := length ns - 1). destruct (lookup_lt_is_Some_2 ns last_i) as [nl Hnl]; [unfold last_i; lia|].
  assert (last ns = Some nl) as Hlast by (rewrite last_lookup, <-Hnl; f_equal; unfold last_i; lia).
  destruct (dp_forward_ok (mkDp ∅ ∅ ∅ 0 ∅)) as (s & Hfw & Hok); [done|].
  destruct (so_stage _ _ Hok last_i nl) as (st & Hst & Hrel); [unfold last_i; lia|done|].
  destruct (stage_shape st last_i) as [Hdep Hsh].
  { destruct last_i as [|j]; [done|]. destruct Hrel as (q & prev & _ & _ & ?). by exists prev. }
  destruct (align_last (d_stages s) last_i nl st Hnl Hst Hdep Hsh) as (a & Hal & Hash & Haf).
  assert (length (nd_flatten a) = sz last_i) as Hal_len by (rewrite nd_length, Hash; simpl; lia).
  assert (0 < sz last_i) as Hpos by (apply sz_pos; unfold last_i; lia).
  assert (nd_flatten a ≠ []) as Hane by (intros E; rewrite E in Hal_len; simpl in Hal_len; lia).
  destruct (amax_ok a Hane) as (m & Hmax & Hm & Hmle).
  destruct (best_pos_ok (nd_flatten a) m Hane Hm Hmle) as (p & Hbest & x & Hx & Hmin). rewrite Hal_len in Hbest, Hx.
  set (xi := Z.to_nat (p mod Z.of_nat (sz last_i))) in *.
  assert (xi < sz last_i) as Hxi by (pose proof (Z.mod_pos_bound p (Z.of_nat (sz last_i))); unfold xi; lia).
  destruct (loop_ok s Hok last_i nl st fuel ∅ {[nl := xi]} xi Hnl Hst) as (opt & Hloop & _ & Hall & Htime);
    [unfold last_i; lia|by rewrite lookup_singleton_eq|done| |].
  { intros j m' Hj Hji. split; [|set_solver]. apply lookup_singleton_ne. intros ->.
    pose proof (ns_inj j last_i m' Hj Hnl). lia. }
  eexists. split; [|split].
  - unfold dp_run, sbind at 1. unfold smod at 1. unfold sbind at 1. change (mkDp _ _ _ 0 _) with (mkDp ∅ ∅ ∅ 0 ∅ : dp). rewrite Hfw.
    unfold backward, sbind at 1. unfold sget at 1. rewrite (outputs_one nl Hlast). cbn [length Nat.ltb Nat.leb MAX_OUTPUT_NODES].
    unfold sbind at 1, slift. rewrite Hal. unfold sbind at 1. unfold check_num_states at 1. unfold sbind at 1. unfold smod at 1.
    unfold sbind at 1. unfold sget at 1. unfold sret at 1. unfold sbind at 1. cbn [pfold snd]. rewrite Hmax. cbn [pbind].
    unfold sbind at 1. cbn [fmap list_fmap snd]. rewrite Hal_len, Hbest.
    assert (output_choices [(nl, 0, 1, a)] [nl] [sz last_i] p = Ret {[nl := xi]}) as Hout.
    { unfold output_choices, enumerate. cbn [imap pfold lnth lookup list_lookup pbind length Nat.ltb Nat.leb].
      rewrite Nat.mul_1_l, Z.div_1_r. done. }
    unfold sbind at 1. rewrite Hash, Hout. unfold sbind at 1. rewrite Hloop. reflexivity.
  - intros i n Hn. simpl. apply Hall; [done|]. apply lookup_lt_Some in Hn. unfold last_i. lia.
  - intros c Hc. simpl. rewrite Htime.
    pose proof (states_lower s last_i nl st c Hok Hnl Hst ltac:(intros; apply Hc; unfold last_i in *; lia)) as Hlow.
    etrans; [|exact Hlow]. destruct (lookup_lt_is_Some_2 (nd_flatten (st_states st)) (c last_i)) as [y Hy].
    { rewrite <-Haf, Hal_len. apply Hc. unfold last_i. lia. }
    unfold state_at. rewrite Haf in Hx. rewrite Hx, Hy. simpl. apply Hmin. rewrite Haf. by eapply list_elem_of_lookup_2.
Qed.
End Chain.
