(* ===== verification/Campaign.v ===== *)
(** * The tuning campaign

    The list of tuning files (utils.json), the choice of the tasks worth more
    measurements, and the driver that moves measured files through training,
    generation and measurement.
    Sources: src/gen/{utils,task_sheduler,run}.py. *)

From S2P Require Import Prelude PyFloat PyText Corpus Measure.

(** ** The file lists (utils.py) *)

Section Utils.
(** [json.load] and [json.dump] of the file, and the hardware platform. *)
Context (loads : string → py json) (dumps : json → string) (hardware : option string).

(** The file, read under a bare [except: pass]. *)
Definition load_utils (file : option string) : json :=
  match file with
  | None => JObj []
  | Some content => match loads content with Ret j => j | Raise _ => JObj [] end
  end.

(** [if k not in d: d[k] = v]. *)
Definition setdefault (k : string) (v : json) (d : json) : py json :=
  match d with
  | JObj l => Ret (if od_mem l k then d else JObj (od_set l k v))
  | _ => Raise TypeError
  end.

(** [get_utils_json]: the global [utils_json] it leaves, and the list. *)
Definition get_utils_json (key : string) (file : option string) : py (json * json) :=
  match hardware with
  | None => Raise AssertionError
  | Some hw =>
      let? utils_json := setdefault hw (JObj []) (load_utils file) in
      let? utils_json :=
        if decide (key = "") then Ret utils_json else jupd_key hw (setdefault key (JArr [])) utils_json in
      let? platform := jkey hw utils_json in
      let? l := jkey key platform in
      Ret (utils_json, l)
  end.

(** [tmp_list.append(file)] unless it is there; the list is part of
    [utils_json]. *)
Definition append_new (name : string) (tmp_list : json) : py json :=
  let? l := as_arr tmp_list in
  Ret (JArr (if bool_decide (JStr name ∈ l) then l else l ++ [JStr name])).

(** [add_finetuning_files], [add_test_files] and [add_testtuning_files]; the
    state is the content of the file, written by [save_utils_json]. *)
Definition add_files (key name : string) : ST (option string) unit :=
  let! file := sget in
  let! (utils_json, _) := slift (get_utils_json key file) in
  let! hw := slift (match hardware with Some hw => Ret hw | None => Raise AssertionError end) in
  let! utils_json := slift (jupd_key hw (jupd_key key (append_new name)) utils_json) in
  sput (Some (dumps utils_json)).

Definition add_finetuning_files : string → ST (option string) unit := add_files "finetuning_files".
Definition add_test_files : string → ST (option string) unit := add_files "test_files".
Definition add_testtuning_files : string → ST (option string) unit := add_files "testtuning_files".

Definition get_files (key : string) (file : option string) : py json :=
  let? (_, l) := get_utils_json key file in Ret l.

Definition get_finetuning_files : option string → py json := get_files "finetuning_files".
Definition get_test_files : option string → py json := get_files "test_files".
Definition get_testtuning_files : option string → py json := get_files "testtuning_files".
End Utils.

(** ** The choice of tasks (task_sheduler.py) *)

Section Read.
Context (loads : string → py json).

(** The workload key and the mean latency of a line. *)
Definition tuning_line (line : string) : py (string * flt) :=
  let? json_line := loads line in
  let? r := jkey "r" json_line in
  let? costs := jidx 0 r in
  let? l := as_arr costs in
  let? latencies := pymap as_float l in
  let? latency := py_mean latencies in
  let? i := jkey "i" json_line in
  let? i0 := jidx 0 i in
  let? w := jidx 0 i0 in
  let? workload_key := as_string w in
  Ret (workload_key, latency).

(** The minimum and the number of the latencies of a workload. *)
Definition min_latency_add (d : list (string * (flt * Z))) (e : string * flt) : list (string * (flt * Z)) :=
  let '(lat, times) := default (lat_max, 0%Z) (od_get d e.1) in
  od_set d e.1 (fmin lat e.2, (times + 1)%Z).

Definition read_fine_tuning_json (content : string) : py (list (string * (flt * Z))) :=
  let? es := pymap tuning_line (read_lines content) in
  Ret (foldl min_latency_add [] es).

(** The first part of [main]: the history of the minima, round by round, and
    the number of measurements of every workload. *)
Abbreviation history := (list (string * list flt)).

Definition add_round (acc : history * list (string * Z)) (d : list (string * (flt * Z))) :
    history * list (string * Z) :=
  foldl (λ '(best_history, times_dic) '(key, (val, times)),
    (od_set best_history key (default [] (od_get best_history key) ++ [val]),
     od_set times_dic key (default 0 (od_get times_dic key) + times)%Z)) acc d.

Definition read_rounds (files : list string) : py (history * list (string * Z)) :=
  let? ds := pymap read_fine_tuning_json files in
  Ret (foldl add_round ([], []) ds).
End Read.

Abbreviation history := (list (string * list flt)).

(** The in-place running minimum: [best_list[i] = min(best_list[i], best_list[i-1])]. *)
Fixpoint running_min (prev : flt) (l : list flt) : list flt :=
  match l with
  | [] => []
  | x :: l' => let m := fmin x prev in m :: running_min m l'
  end.

Definition prefix_minima (l : list flt) : list flt :=
  match l with [] => [] | x :: l' => x :: running_min x l' end.

(** [for _ in range(len(best_list), w): best_list.append(0)]. *)
Definition pad (w : Z) (l : list flt) : list flt := l ++ replicate (Z.to_nat (w - zlen l)) f0.

(** What an iteration leaves in the shared list of a task, and its score. *)
Definition update_history (w : Z) (best_list : list flt) : list flt := pad w (prefix_minima best_list).

Definition window_score (w : Z) (best_list : list flt) : py flt :=
  let window := last_k w best_list in
  let? first := pynth window 0 in
  Ret (fsub first (foldl fmin first (tail window))).

(** The tasks of a model with their weights; the histories are shared between
    the models. *)
Fixpoint score_tasks (w : Z) (tasks : list (string * Z)) : ST history (list (flt * string)) :=
  match tasks with
  | [] => sret []
  | (key, weight) :: tasks' =>
      let! best_history := sget in
      match od_get best_history key with
      | None => sraise KeyError
      | Some best_list =>
          let best_list := update_history w best_list in
          let! _ := sput (od_set best_history key best_list) in
          let! score := slift (window_score w best_list) in
          let! rest := score_tasks w tasks' in
          sret ((fmul score (f_of_Z weight), key) :: rest)
      end
  end.

(** [want_cnt] for a model with [n] tasks measured [times] times. *)
Definition want_count (n times : Z) : Z :=
  let want_cnt := (- ((- n) `div` 4))%Z in
  Z.min want_cnt ((20000 - times - want_cnt * 2 * 64) `div` 64)%Z.

Section Schedule.
(** The name of a task in [key_str_set]: [clean_name((key, target.kind))]. *)
Context (name : string → string).

(** The inner loop over [want_list]. *)
Fixpoint take_wanted (want_cnt : Z) (want_list : list (flt * string)) (key_str_set : list string) :
    list string :=
  match want_list with
  | [] => key_str_set
  | (_, key) :: want_list' =>
      let n := name key in
      let key_str_set := if bool_decide (n ∈ key_str_set) then key_str_set else key_str_set ++ [n] in
      if bool_decide (zlen key_str_set = want_cnt) then key_str_set
      else take_wanted want_cnt want_list' key_str_set
  end.

(** The loop over [back_window_size] for a model. *)
Fixpoint window_loop (windows : list Z) (tasks : list (string * Z)) (times : Z)
    (key_str_set : list string) : ST history (list string) :=
  match windows with
  | [] => sret key_str_set
  | w :: windows' =>
      let! scores := score_tasks w tasks in
      let want_cnt := want_count (zlen scores) times in
      if bool_decide (want_cnt ≤ 0)%Z then sret key_str_set else
      let want_list := filter (λ it, fltb f0 it.1 = true) (sort_desc scores) in
      let key_str_set := take_wanted want_cnt want_list key_str_set in
      if bool_decide (zlen key_str_set = want_cnt) then sret key_str_set
      else window_loop windows' tasks times key_str_set
  end.

(** The loop over the models: tasks with weights, and times measured. *)
Fixpoint schedule_models (models : list (list (string * Z) * Z)) (total : list string) :
    ST history (list string) :=
  match models with
  | [] => sret total
  | (tasks, times) :: models' =>
      if bool_decide (tasks = []) then sraise AssertionError else
      let! key_str_set := window_loop (range 3 100) tasks times [] in
      schedule_models models' (total ++ filter (λ k, k ∉ total) key_str_set)
  end.

(** The second part of [main]: the dictionary of the tasks of a model, and the
    number of its measurements. *)
Definition model_tasks (best_history : history) (times_dic : list (string * Z))
    (tasks : list (string * Z)) : py (list (string * Z) * Z) :=
  let? ts := pymap (λ '(key, weight),
    if od_mem best_history key then Ret (key, weight, default 0%Z (od_get times_dic key))
    else Raise AssertionError) tasks in
  Ret (foldl (λ d '(key, weight, _), od_set d key weight) [] ts,
       foldl (λ n '(_, _, times), n + times)%Z 0%Z ts).
End Schedule.

(** [task_sheduler.main] on the contents of the tuning files and the tasks of
    the models: the saved set of names. *)
Definition task_sheduler (loads : string → py json) (kind_repr : string) (files : list string)
    (networks : list (list (string * Z))) : py (list string) :=
  let? (best_history, times_dic) := read_rounds loads files in
  let? models := pymap (model_tasks best_history times_dic) networks in
  (schedule_models (λ key, clean_name ("(" +:+ repr_str key +:+ ", " +:+ kind_repr +:+ ")"))
     models [] best_history).1.

(** [find_potential_files], which removes the saved set it reads, and
    [find_potential_files_len], which does not; the state is the saved file. *)
Definition find_potential_files (files : list string) : ST (option (list string)) (list string) :=
  let! saved := sget in
  match saved with
  | None => sraise IOError
  | Some key_str_set =>
      let! _ := sput None in
      sret (filter (λ file, splitext0 (basename file) ∈ key_str_set) files)
  end.

Definition find_potential_files_len : ST (option (list string)) Z :=
  let! saved := sget in
  match saved with
  | None => sraise IOError
  | Some key_str_set => sret (zlen key_str_set)
  end.
