(* ===== verification/CampaignSpec.v ===== *)
(** * The tuning campaign: properties *)

From S2P Require Import Prelude PyFloat PyText Corpus CorpusSpec Measure Campaign.

(** ** The file lists *)

Section Utils.
Context (loads : string → py json) (dumps : json → string).

(** The list of a platform, read off the parsed file. *)
Definition lookup_files (u : list (string * json)) (hw key : string) : py json :=
  match od_get u hw with
  | None => Ret (JArr [])
  | Some (JObj p) => Ret (default (JArr []) (od_get p key))
  | Some _ => Raise TypeError
  end.

Lemma get_utils_eq hw key file u :
  key ≠ "" → load_utils loads file = JObj u →
  match lookup_files u hw key with
  | Raise e => get_utils_json loads (Some hw) key file = Raise e
  | Ret l => ∃ p, get_utils_json loads (Some hw) key file = Ret (JObj (od_set u hw (JObj p)), l) ∧
                  od_get p key = Some l ∧
                  ∀ key', key' ≠ key →
                    od_get p key' = match od_get u hw with Some (JObj p0) => od_get p0 key' | _ => None end
  end.
Proof.
  intros Hkey Hu. unfold get_utils_json, lookup_files. rewrite Hu.
  assert (setdefault hw (JObj []) (JObj u) =
    Ret (JObj (match od_get u hw with Some _ => u | None => od_set u hw (JObj []) end))) as ->.
  { unfold setdefault, od_mem. by destruct (od_get u hw). }
  cbn [pbind].
  assert (∀ u1 p0, od_get u1 hw = Some (JObj p0) →
    ∃ p, (let? utils_json := (if decide (key = "") then Ret (JObj u1)
            else jupd_key hw (setdefault key (JArr [])) (JObj u1)) in
          let? platform := (jkey hw utils_json) in
          let? l := (jkey key platform) in Ret (utils_json, l)) =
         Ret (JObj (od_set u1 hw (JObj p)), default (JArr []) (od_get p0 key)) ∧
      od_get p key = Some (default (JArr []) (od_get p0 key)) ∧
      ∀ key', key' ≠ key → od_get p key' = od_get p0 key') as Hcore.
  { intros u1 p0 H1. rewrite decide_False by done. unfold jupd_key, jkey. rewrite H1. simpl.
    unfold od_mem. destruct (od_get p0 key) as [l|] eqn:Ek; simpl.
    - exists p0. rewrite od_get_set_eq. simpl. by rewrite Ek.
    - exists (od_set p0 key (JArr [])). rewrite od_get_set_eq. simpl. rewrite od_get_set_eq. simpl.
      split_and!; try done. intros key' Hne. by apply od_get_set_ne. }
  destruct (od_get u hw) as [v|] eqn:Ehw.
  - destruct v as [| | | | | |p0].
    1-6: by rewrite decide_False by done; unfold jupd_key, jkey; rewrite Ehw.
    destruct (Hcore u p0 Ehw) as (p & Hp & Hk & Ho). by exists p.
  - destruct (Hcore (od_set u hw (JObj [])) []) as (p & Hp & Hk & Ho); [apply od_get_set_eq|].
    exists p. rewrite od_set_set in Hp. done.
Qed.

Lemma get_files_eq hw key file u :
  key ≠ "" → load_utils loads file = JObj u →
  get_files loads (Some hw) key file = lookup_files u hw key.
Proof.
  intros Hkey Hu. pose proof (get_utils_eq hw key file u Hkey Hu) as H. unfold get_files.
  destruct (lookup_files u hw key) as [l|e]; [|by rewrite H].
  destruct H as (p & -> & _). done.
Qed.

(** Adding a file to a list of utils.json adds it once and at the end,
    and changes no other list of this platform and no list of another one. *)
Theorem add_files_spec hw key name file l :
  (∀ j, loads (dumps j) = Ret j) → key ≠ "" →
  get_files loads (Some hw) key file = Ret (JArr l) →
  ∃ content, add_files loads dumps (Some hw) key name file = (Ret tt, Some content) ∧
    get_files loads (Some hw) key (Some content) =
      Ret (JArr (if bool_decide (JStr name ∈ l) then l else l ++ [JStr name])) ∧
    ∀ hw' key', key' ≠ "" → (hw', key') ≠ (hw, key) →
      get_files loads (Some hw') key' (Some content) = get_files loads (Some hw') key' file.
Proof.
  intros Hload Hkey Hl.
  destruct (load_utils loads file) as [| | | | | |u] eqn:Hu;
    try (unfold get_files, get_utils_json in Hl; rewrite Hu in Hl; done).
  rewrite (get_files_eq _ _ _ _ Hkey Hu) in Hl.
  pose proof (get_utils_eq hw key file u Hkey Hu) as H. rewrite Hl in H.
  destruct H as (p & Hg & Hk & Ho).
  set (l' := if bool_decide (JStr name ∈ l) then l else l ++ [JStr name]).
  set (u' := od_set u hw (JObj (od_set p key (JArr l')))).
  exists (dumps (JObj u')).
  assert (load_utils loads (Some (dumps (JObj u'))) = JObj u') as Hu' by (simpl; by rewrite Hload).
  split; [|split].
  - unfold add_files, sbind, sget, slift. rewrite Hg. unfold jupd_key at 1. unfold jkey at 1.
    rewrite od_get_set_eq. cbn [pbind]. unfold jupd_key, jkey. rewrite Hk. cbn [pbind append_new as_arr].
    rewrite od_set_set. done.
  - rewrite (get_files_eq _ _ _ _ Hkey Hu'). unfold lookup_files, u'. rewrite od_get_set_eq.
    by rewrite od_get_set_eq.
  - intros hw' key' Hkey' Hne. rewrite (get_files_eq _ _ _ _ Hkey' Hu'), (get_files_eq _ _ _ _ Hkey' Hu).
    unfold lookup_files, u'. destruct (decide (hw = hw')) as [<-|Hhw]; [|by rewrite od_get_set_ne].
    assert (key' ≠ key) as Hnk by congruence.
    rewrite od_get_set_eq, od_get_set_ne, Ho by done. unfold lookup_files in Hl.
    by destruct (od_get u hw) as [[| | | | | |]|].
Qed.

(** An unreadable file is taken for an empty one, and the next addition
    overwrites every list of every platform. *)
Lemma add_files_unreadable hw key name content e :
  key ≠ "" → loads content = Raise e →
  add_files loads dumps (Some hw) key name (Some content) =
  (Ret tt, Some (dumps (JObj [(hw, JObj [(key, JArr [JStr name])])]))).
Proof.
  intros Hkey He. unfold add_files, sbind, sget, slift, get_utils_json. simpl. rewrite He.
  cbn [setdefault od_mem od_get pbind od_set]. rewrite (decide_False (P := key = "")) by done.
  unfold jupd_key, jkey, append_new. repeat (simpl; case_decide; [|done]). done.
Qed.
End Utils.

(** ** Names and files *)

Fixpoint str_filter (keep : Ascii.ascii → bool) (s : string) : string :=
  match s with
  | EmptyString => EmptyString
  | String c s' => if keep c then String c (str_filter keep s') else str_filter keep s'
  end.

Lemma str_replace_filter c s :
  str_replace (String c "") "" s = str_filter (λ a, negb (bool_decide (c = a))) s.
Proof.
  unfold str_replace. assert (String.length s < S (String.length s)) as Hf by lia.
  revert Hf. generalize (S (String.length s)) as fuel. intros fuel. revert s.
  induction fuel as [|fuel IH]; intros s Hf; [lia|]. destruct s as [|a s]; [done|].
  cbn [str_replace_go strip_prefix]. simpl in Hf. case_decide as Hc.
  - subst a. cbn [str_filter]. rewrite bool_decide_true by done. apply IH. lia.
  - cbn [str_filter]. rewrite bool_decide_false by done. simpl. f_equal. apply IH. lia.
Qed.

Lemma str_filter_app keep s t : str_filter keep (s +:+ t) = str_filter keep s +:+ str_filter keep t.
Proof.
  induction s as [|a s IH]; [done|]. change (String a s +:+ t) with (String a (s +:+ t)). simpl.
  destruct (keep a); [|done]. by rewrite IH.
Qed.

Lemma str_filter_mem keep c s : str_mem c s = false → str_mem c (str_filter keep s) = false.
Proof.
  induction s as [|a s IH]; [done|]. simpl. rewrite orb_false_iff. intros [Ha Hs].
  destruct (keep a); simpl; [rewrite Ha|]; auto.
Qed.

Lemma clean_name_app s t : clean_name (s +:+ t) = clean_name s +:+ clean_name t.
Proof. unfold clean_name. by rewrite !str_replace_filter, !str_filter_app. Qed.

Lemma clean_name_mem c s : str_mem c s = false → str_mem c (clean_name s) = false.
Proof. intros H. unfold clean_name. rewrite !str_replace_filter. by repeat apply str_filter_mem. Qed.

Lemma basename_app p f : str_mem "/" f = false → basename (p +:+ String "/" f) = f.
Proof. intros Hf. unfold basename. by rewrite rsplit1_app. Qed.

(** The scheduler and the data set agree on file names: among the files of
    the data set folders, [find_potential_files] keeps exactly those of the
    tasks whose name the scheduler put into the set, as long as keys have no
    slash and the two string forms of the target kind differ in quotes and
    blanks only.  It uses the set up: a second call fails. *)
Theorem find_potential_files_spec key_str_set model kind kind_repr (keys : list string) file_of :
  (∀ k, get_to_measure_filename (Some model) k kind = Ret (file_of k)) ∨
  (∀ k, get_measure_record_filename (Some model) k kind = Ret (file_of k)) →
  clean_name kind_repr = clean_name (repr_str kind) →
  (∀ k, k ∈ keys → str_mem "/" (task_key k kind) = false) →
  find_potential_files (file_of <$> keys) (Some key_str_set) =
    (Ret (file_of <$>
       filter (λ k, clean_name ("(" +:+ repr_str k +:+ ", " +:+ kind_repr +:+ ")") ∈ key_str_set) keys), None) ∧
  ∀ files, find_potential_files files None = (Raise IOError, None).
Proof.
  intros Hfile Hkind Hslash. split; [|done]. unfold find_potential_files, sbind, sget, sput, sret.
  do 2 f_equal.
  assert (∀ k, k ∈ keys → splitext0 (basename (file_of k)) =
    clean_name ("(" +:+ repr_str k +:+ ", " +:+ kind_repr +:+ ")")) as Hname.
  { intros k Hk. set (c := clean_name (task_key k kind)).
    assert (clean_name ("(" +:+ repr_str k +:+ ", " +:+ kind_repr +:+ ")") = c) as ->.
    { subst c. unfold task_key. by rewrite !clean_name_app, Hkind. }
    assert (str_mem "/" (c +:+ ".json") = false) as Hc.
    { rewrite str_mem_app. subst c. by rewrite clean_name_mem by auto. }
    assert (basename (file_of k) = c +:+ ".json") as ->.
    { destruct Hfile as [H|H]; specialize (H k); injection H as <-; fold c.
      - rewrite <-(basename_app ("dataset/to_measure_programs/" +:+ model) (c +:+ ".json")) at 2 by done.
        done.
      - rewrite <-(basename_app ("dataset/measure_records/" +:+ model) (c +:+ ".json")) at 2 by done.
        done. }
    unfold splitext0. rewrite (rsplit1_app "." c "json") by done.
    assert (all_dots c = false) as ->; [|done].
    subst c. unfold task_key. rewrite !clean_name_app. done. }
  clear Hfile Hslash. induction keys as [|k keys IH]; [done|]. csimpl.
  rewrite !filter_cons. rewrite Hname by left.
  destruct (decide _); csimpl; [f_equal|]; apply IH; intros; apply Hname; by right.
Qed.

(** ** The choice of tasks *)

Section Schedule.
Context (name : string → string).

Lemma length_prefix_minima l : length (prefix_minima l) = length l.
Proof.
  destruct l as [|x l]; [done|]. simpl. f_equal. revert x.
  induction l as [|y l IH]; intros x; simpl; [done|]. by rewrite IH.
Qed.

Lemma zlen_update_history w l : (0 ≤ w)%Z → zlen (update_history w l) = Z.max (zlen l) w.
Proof.
  intros Hw. unfold update_history, pad. rewrite zlen_app. unfold zlen.
  rewrite length_replicate, length_prefix_minima. lia.
Qed.

Lemma window_score_total w l : (0 < w)%Z → ∃ x, window_score w (update_history w l) = Ret x.
Proof.
  intros Hw. unfold window_score, last_k. rewrite bool_decide_false by lia.
  pose proof (zlen_update_history w l ltac:(lia)) as Hlen.
  destruct (pynth_in_range (drop (Z.to_nat (zlen (update_history w l) - w)) (update_history w l)) 0) as (x & -> & _);
    [|by eexists].
  unfold zlen in *. rewrite length_drop. lia.
Qed.

Lemma score_tasks_total w tasks : (0 < w)%Z → ∀ hist : history,
  (∀ key, key ∈ tasks.*1 → key ∈ od_keys hist) →
  ∃ scores hist', score_tasks w tasks hist = (Ret scores, hist') ∧ scores.*2 = tasks.*1 ∧
    ∀ key, key ∈ od_keys hist' ↔ key ∈ od_keys hist.
Proof.
  intros Hw. induction tasks as [|[key weight] tasks IH]; intros hist Hin; simpl.
  { by exists [], hist. }
  unfold sbind, sget, sput, slift.
  destruct (od_get hist key) as [l|] eqn:El; [|apply od_get_None_key in El; destruct El; apply Hin; csimpl; left].
  destruct (window_score_total w l Hw) as [x ->].
  assert (∀ k, k ∈ od_keys (od_set hist key (update_history w l)) ↔ k ∈ od_keys hist) as Hk.
  { intros k. rewrite od_keys_set. assert (od_mem hist key = true) as ->; [|done].
    apply od_mem_true. by eapply od_get_Some_key. }
  destruct (IH (od_set hist key (update_history w l))) as (scores & hist' & -> & Hs & Hk').
  { intros k Hkin. apply Hk, Hin. csimpl. by right. }
  eexists _, hist'. split; [done|]. split; [csimpl; by rewrite Hs|]. intros k. by rewrite Hk', Hk.
Qed.

Definition named (keys : list string) (k : string) : Prop := ∃ key, key ∈ keys ∧ k = name key.

Lemma take_wanted_spec want l keys : (0 < want)%Z → (∀ it, it ∈ l → it.2 ∈ keys) → ∀ set,
  NoDup set → (zlen set < want)%Z → (∀ k, k ∈ set → named keys k) →
  let r := take_wanted name want l set in
  NoDup r ∧ (zlen r ≤ want)%Z ∧ ∀ k, k ∈ r → named keys k.
Proof.
  intros Hwant Hl. induction l as [|[s key] l IH]; intros set Hnd Hlen Hset; simpl; [split_and!; auto with lia|].
  set (set' := if bool_decide (name key ∈ set) then set else set ++ [name key]).
  assert (NoDup set' ∧ (zlen set' ≤ zlen set + 1)%Z ∧ ∀ k, k ∈ set' → named keys k) as (Hnd' & Hlen' & Hset').
  { subst set'. case_bool_decide; [split_and!; auto with lia|]. split_and!.
    - apply NoDup_app. split; [done|]. split; [set_solver|apply NoDup_singleton].
    - by rewrite zlen_app.
    - intros k [Hk|Hk]%elem_of_app; [by apply Hset|]. apply list_elem_of_singleton in Hk as ->.
      exists key. split; [apply (Hl (s, key)); left|done]. }
  case_bool_decide; [split_and!; auto with lia|]. apply IH; [|done|lia|done].
  intros it Hit. apply Hl. by right.
Qed.

Lemma window_loop_spec tasks times : ∀ windows set (hist : history),
  (∀ w, w ∈ windows → (0 < w)%Z) → (∀ key, key ∈ tasks.*1 → key ∈ od_keys hist) →
  let want := want_count (zlen tasks) times in
  NoDup set → (zlen set < Z.max 1 want)%Z → (∀ k, k ∈ set → named tasks.*1 k) →
  ∃ r hist', window_loop name windows tasks times set hist = (Ret r, hist') ∧
    NoDup r ∧ (zlen r ≤ Z.max 0 want)%Z ∧ (∀ k, k ∈ r → named tasks.*1 k) ∧
    ∀ key, key ∈ od_keys hist' ↔ key ∈ od_keys hist.
Proof.
  induction windows as [|w windows IH]; intros set hist Hw Hin want Hnd Hlen Hset; cbn [window_loop].
  { exists set, hist. split_and!; auto with lia. }
  destruct (score_tasks_total w tasks ltac:(apply Hw; left) hist Hin) as (scores & hist1 & Hs & Hkeys & Hk1).
  unfold sbind at 1. rewrite Hs.
  assert (zlen scores = zlen tasks) as ->.
  { unfold zlen. by rewrite <-(length_fmap snd scores), Hkeys, length_fmap. }
  fold want. case_bool_decide as Hwant; [exists set, hist1; split_and!; auto with lia|].
  destruct (take_wanted_spec want (filter (λ it, fltb f0 it.1 = true) (sort_desc scores)) tasks.*1
    ltac:(lia)) with (set := set) as (Hnd' & Hlen' & Hset'); [|done|lia|done|].
  { intros it [_ Hit]%list_elem_of_filter. rewrite <-Hkeys. apply list_elem_of_fmap_2.
    by rewrite sort_desc_perm in Hit. }
  set (r := take_wanted _ _ _ _) in *. case_bool_decide; [exists r, hist1; split_and!; auto with lia|].
  destruct (IH r hist1) as (r' & hist2 & Hr & ? & ? & ? & Hk2); [|naive_solver|done|lia|done|].
  { intros w' Hw'. apply Hw. by right. }
  exists r', hist2. split_and!; try done. intros key. by rewrite Hk2, Hk1.
Qed.

(** The number of tasks wanted from all models. *)
Definition wanted (models : list (list (string * Z) * Z)) : Z :=
  foldr (λ m n, Z.max 0 (want_count (zlen m.1) m.2) + n)%Z 0%Z models.

(** A quarter of the tasks of a model, rounded up. *)
Definition quarter (m : list (string * Z) * Z) : Z := (- ((- zlen m.1) `div` 4))%Z.

(** A choice for the model [m]: names of its tasks, at most a quarter of them, and
    when there are any, 64 measurements for each fit into what is left of 20000
    after those done and a reserve of 128 for every task of the quarter. *)
Record choice_for (m : list (string * Z) * Z) (choice : list string) : Prop := {
  cf_NoDup : NoDup choice;
  cf_named k : k ∈ choice → named m.1.*1 k;
  cf_quarter : (zlen choice ≤ quarter m)%Z;
  cf_budget : choice ≠ [] → (m.2 + 128 * quarter m + 64 * zlen choice ≤ 20000)%Z
}.

Lemma choice_for_wanted m r :
  NoDup r → (zlen r ≤ Z.max 0 (want_count (zlen m.1) m.2))%Z → (∀ k, k ∈ r → named m.1.*1 k) → choice_for m r.
Proof.
  intros Hnd Hlen Hn. assert (0 ≤ quarter m)%Z as Hq.
  { unfold quarter. pose proof (Z.div_le_upper_bound (- zlen m.1) 4 0 ltac:(lia)).
    unfold zlen in *. lia. }
  unfold want_count in Hlen. fold (quarter m) in Hlen.
  split; [done|done|lia|]. intros Hne.
  assert (0 < zlen r)%Z by (unfold zlen; destruct r; [done|simpl; lia]).
  pose proof (Z.mul_div_le (20000 - m.2 - quarter m * 2 * 64) 64). lia.
Qed.

(** The names in [choices] that are not in [total], in order and once. *)
Definition merge (total : list string) (choices : list (list string)) : list string :=
  foldl (λ total p, total ++ filter (λ k, k ∉ total) p) total choices.

Lemma elem_of_merge choices : ∀ total k, k ∈ merge total choices ↔ k ∈ total ∨ ∃ p, p ∈ choices ∧ k ∈ p.
Proof.
  unfold merge. induction choices as [|p choices IH]; intros total k; simpl.
  { split; [by left|]. by intros [?|(p & ?%elem_of_nil & _)]. }
  rewrite IH, elem_of_app, list_elem_of_filter. setoid_rewrite elem_of_cons.
  destruct (decide (k ∈ total)); [naive_solver|]. split; [naive_solver|].
  intros [?|(q & [->|?] & ?)]; [done|left; by right|right; eauto].
Qed.

Lemma merge_NoDup choices : ∀ total, NoDup total → Forall (λ p, NoDup p) choices → NoDup (merge total choices).
Proof.
  unfold merge. induction choices as [|p choices IH]; intros total Ht Hp; simpl; [done|].
  apply Forall_cons in Hp as [Hp Hps]. apply IH; [|done]. apply NoDup_app. split; [done|].
  split; [|by apply NoDup_filter]. intros k Hk1 Hk2. by apply list_elem_of_filter in Hk2 as [? _].
Qed.

Lemma merge_length choices models :
  Forall2 (λ m p, (zlen p ≤ Z.max 0 (want_count (zlen m.1) m.2))%Z) models choices →
  ∀ total, (zlen (merge total choices) ≤ zlen total + wanted models)%Z.
Proof.
  induction 1 as [|m p models choices Hp _ IH]; intros total; [unfold wanted; simpl; lia|].
  change (merge total (p :: choices)) with (merge (total ++ filter (λ k, k ∉ total) p) choices).
  specialize (IH (total ++ filter (λ k, k ∉ total) p)). rewrite zlen_app in IH.
  assert (zlen (filter (λ k, k ∉ total) p) ≤ zlen p)%Z by (unfold zlen; apply inj_le, length_filter).
  cbn [wanted foldr] in *. unfold wanted in IH. lia.
Qed.

Lemma schedule_models_go models : ∀ total (hist : history),
  (∀ m, m ∈ models → m.1 ≠ [] ∧ ∀ key, key ∈ m.1.*1 → key ∈ od_keys hist) →
  ∃ choices hist', schedule_models name models total hist = (Ret (merge total choices), hist') ∧
    Forall2 (λ m p, choice_for m p ∧ (zlen p ≤ Z.max 0 (want_count (zlen m.1) m.2))%Z) models choices.
Proof.
  induction models as [|[tasks times] models IH]; intros total hist Hm; cbn [schedule_models].
  { exists [], hist. by split. }
  destruct (Hm (tasks, times)) as [Hne Hin]; [left|]. rewrite bool_decide_false by done.
  destruct (window_loop_spec tasks times (range 3 100) [] hist) as (r & hist1 & Hr & Hndr & Hlen & Hset & Hk);
    [|done|constructor|unfold zlen; simpl; lia|set_solver|].
  { intros w Hw%elem_of_range. lia. }
  unfold sbind. rewrite Hr.
  destruct (IH (total ++ filter (λ k, k ∉ total) r) hist1) as (choices & hist2 & Hr' & Hc).
  { intros m Hin'. destruct (Hm m) as [? Hkeys]; [by right|]. split; [done|].
    intros key Hkey. apply Hk, Hkeys, Hkey. }
  exists (r :: choices), hist2. split; [exact Hr'|]. constructor; [|done]. split; [|done].
  by apply choice_for_wanted.
Qed.

(** C35: the choice of the tasks worth more measurements always ends, and stays
    within the budget of every model: when every model has tasks and every task
    has been measured, the scheduler makes a choice for each model in its turn,
    names of tasks of that model, without duplicates, at most a quarter of its
    tasks (rounded up), and such that 64 measurements for each, those done and the
    reserve for the tail stay within 20000; the result is made of these
    choices, each name once.  (Where models share tasks, one of them can find more
    of its tasks in the result than it has chosen itself.) *)
Theorem schedule_models_spec models (hist : history) :
  (∀ m, m ∈ models → m.1 ≠ [] ∧ ∀ key, key ∈ m.1.*1 → key ∈ od_keys hist) →
  ∃ set hist' choices, schedule_models name models [] hist = (Ret set, hist') ∧
    Forall2 choice_for models choices ∧
    NoDup set ∧ (∀ k, k ∈ set ↔ ∃ p, p ∈ choices ∧ k ∈ p) ∧ (zlen set ≤ wanted models)%Z.
Proof.
  intros Hm. destruct (schedule_models_go models [] hist Hm) as (choices & hist' & Hr & Hc).
  exists (merge [] choices), hist', choices. split; [done|].
  assert (Forall2 choice_for models choices) as Hcf by (eapply Forall2_impl; [exact Hc|]; by intros m p [? _]).
  split; [done|]. split; [|split].
  - apply merge_NoDup; [constructor|]. eapply Forall2_Forall_r; [exact Hcf|].
    apply Forall_true. by intros m p [].
  - intros k. rewrite elem_of_merge. split; [|by right]. by intros [?%elem_of_nil|?].
  - apply (merge_length choices models). eapply Forall2_impl; [exact Hc|]. by intros m p [_ ?].
Qed.
End Schedule.

(** ** Shared histories *)

Abbreviation pos x := (fltb f0 x = true).

Lemma pos_not_lt x : pos x → fltb x f0 = false.
Proof.
  intros Hx. apply not_true_iff_false. intros Hl. pose proof (flt_le_trans _ _ _ Hx (flt_fle _ _ Hl)).
  rewrite flt_irrefl in H. done.
Qed.

Lemma fsub_f0 x : pos x → fsub x f0 = x.
Proof. intros Hx. by destruct x as [| | |[] m e]. Qed.

Lemma running_min_idem l : ∀ prev, running_min prev (running_min prev l) = running_min prev l.
Proof.
  induction l as [|x l IH]; intros prev; simpl; [done|].
  assert (fmin (fmin x prev) prev = fmin x prev) as Hm.
  { unfold fmin. destruct (fltb prev x) eqn:E; [by rewrite flt_irrefl|by rewrite E]. }
  by rewrite Hm, IH.
Qed.

Lemma running_min_zeros k l : ∀ prev,
  pos prev → Forall (λ x, pos x) l →
  running_min prev (l ++ replicate k f0) = running_min prev l ++ replicate k f0.
Proof.
  assert (∀ prev, fltb prev f0 = false → running_min prev (replicate k f0) = replicate k f0) as Hz.
  { induction k as [|k IH]; intros prev Hp; simpl; [done|]. unfold fmin at 1 2. rewrite Hp. f_equal. by apply IH. }
  induction l as [|x l IH]; intros prev Hp Hl; simpl; [by apply Hz, pos_not_lt|].
  apply Forall_cons in Hl as [Hx Hl]. f_equal. apply IH; [|done].
  destruct (fmin_either x prev) as [-> | ->]; done.
Qed.

Lemma prefix_minima_pos l : Forall (λ x, pos x) l → Forall (λ x, pos x) (prefix_minima l).
Proof.
  intros [|x l' Hx Hl]; [constructor|]. simpl. constructor; [done|]. revert x Hx.
  induction Hl as [|y l' Hy _ IH]; intros x Hx; simpl; constructor;
    [|apply IH]; by destruct (fmin_either y x) as [-> | ->].
Qed.

Lemma foldl_fmin_zero l : ∀ a,
  (pos a ∨ a = f0) → (∀ x, x ∈ l → pos x ∨ x = f0) → f0 ∈ a :: l → foldl fmin a l = f0.
Proof.
  induction l as [|x l IH]; intros a Ha Hl Hin; simpl; [by apply list_elem_of_singleton in Hin|].
  assert (pos x ∨ x = f0) as Hx by (apply Hl; left).
  apply IH.
  - destruct (fmin_either a x) as [-> | ->]; done.
  - intros y Hy. apply Hl. by right.
  - rewrite !elem_of_cons in *. destruct Hin as [<-|[<-|Hin]]; [left|left|by right].
    + unfold fmin. destruct Hx as [Hx| ->]; [by rewrite (pos_not_lt _ Hx)|by rewrite flt_irrefl].
    + unfold fmin. destruct Ha as [Ha| ->]; [by rewrite Ha|by rewrite flt_irrefl].
Qed.

Lemma update_history_twice l w1 :
  l ≠ [] → Forall (λ x, pos x) l → (3 ≤ w1)%Z → (zlen l < w1)%Z →
  update_history 3 (update_history w1 l) = prefix_minima l ++ replicate (Z.to_nat (w1 - zlen l)) f0.
Proof.
  intros Hne Hpos Hw Hlt. assert (zlen (prefix_minima l) = zlen l) as Hlen by (unfold zlen; by rewrite length_prefix_minima).
  unfold update_history at 2, pad. rewrite Hlen. set (k := Z.to_nat (w1 - zlen l)).
  assert (prefix_minima (prefix_minima l ++ replicate k f0) = prefix_minima l ++ replicate k f0) as Hpm.
  { pose proof (prefix_minima_pos l Hpos) as Hp. destruct l as [|x l]; [done|]. simpl in *.
    apply Forall_cons in Hp as [Hx Hp]. f_equal. by rewrite running_min_zeros, running_min_idem. }
  unfold update_history, pad. rewrite Hpm, zlen_app, Hlen.
  assert (Z.to_nat (3 - (zlen l + zlen (replicate k f0))) = 0) as ->.
  { unfold zlen at 2. rewrite length_replicate. subst k. lia. }
  apply app_nil_r.
Qed.

(** The lists of latencies are shared between the models, and the zeros
    one model appends to the list of a task are still there when the next model
    scores the same task.  When the earlier model stopped one or two rounds
    beyond the history, the task of the later model scores its whole latency,
    as if it had dropped to 0, even when its latency has long been constant;
    beyond that it scores 0. *)
Theorem shared_history_changes_score l w1 :
  l ≠ [] → Forall (λ x, pos x) l → (3 ≤ w1)%Z →
  let later := window_score 3 (update_history 3 (update_history w1 l)) in
  ((zlen l < w1 < zlen l + 3)%Z →
     ∃ m, prefix_minima l !! Z.to_nat (w1 - 3) = Some m ∧ pos m ∧ later = Ret m) ∧
  ((zlen l + 3 ≤ w1)%Z → later = Ret f0).
Proof.
  intros Hne Hpos Hw later. pose proof (prefix_minima_pos l Hpos) as Hp.
  assert (length (prefix_minima l) = length l) as Hlen by apply length_prefix_minima.
  assert (zlen l < w1 → window_score 3 (update_history 3 (update_history w1 l)) =
    let window := drop (Z.to_nat (w1 - 3)) (prefix_minima l ++ replicate (Z.to_nat (w1 - zlen l)) f0) in
    let? first := pynth window 0 in Ret (fsub first (foldl fmin first (tail window))))%Z as Hws.
  { intros Hlt. rewrite update_history_twice by done. unfold window_score, last_k.
    rewrite bool_decide_false by done. set (full := prefix_minima l ++ _).
    assert (zlen full = w1) as ->; [|done]. subst full. unfold zlen in *.
    rewrite length_app, length_replicate. lia. }
  split; intros Hlt; subst later; rewrite Hws by lia; unfold zlen in *; cbv zeta.
  - rewrite drop_app_le by lia.
    destruct (prefix_minima l !! Z.to_nat (w1 - 3)) as [m|] eqn:Em.
    2: { apply lookup_ge_None in Em. lia. }
    exists m. rewrite Forall_lookup in Hp. pose proof (Hp _ _ Em) as Hm. split; [done|]. split; [done|].
    rewrite (drop_S _ _ _ Em). set (rest := drop _ _). set (zeros := replicate _ _).
    change (Ret (fsub m (foldl fmin m (rest ++ zeros))) = Ret m). subst rest zeros.
    rewrite foldl_fmin_zero; [by rewrite fsub_f0|by left| |].
    + intros x [Hx|Hx]%elem_of_app.
      * left. apply subseteq_drop, list_elem_of_lookup in Hx as [i Hi]. by eapply Hp.
      * right. by apply elem_of_replicate_inv in Hx.
    + right. apply elem_of_app. right. apply elem_of_replicate. split; [done|lia].
  - rewrite drop_app_ge by lia. rewrite drop_replicate, Hlen.
    replace (Z.to_nat (w1 - Z.of_nat (length l)) - (Z.to_nat (w1 - 3) - length l))%nat with 3%nat by lia. done.
Qed.
