(* ===== verification/MetaCorpus.v ===== *)
(** * The training corpus of the MetaSchedule pipeline

    The texts made of MetaSchedule tuning records, the prompts and the choice of
    the databases they are taken from.
    Sources: src/meta/meta_make_dataset.py, src/meta/meta_common.py. *)

From S2P Require Import Prelude PyFloat PyText Corpus.

(** ** Names *)

(** [s.split('__')]. *)
Fixpoint split_dunder (s : string) : list string :=
  match s with
  | EmptyString => [EmptyString]
  | String c s' =>
      match s' with
      | String d s'' =>
          if bool_decide (c = "_"%char ∧ d = "_"%char) then EmptyString :: split_dunder s''
          else match split_dunder s' with
               | [] => []
               | w :: ws => String c w :: ws
               end
      | EmptyString => [s]
      end
  end.

Definition is_digit (c : Ascii.ascii) : bool :=
  let n := Ascii.nat_of_ascii c in (48 <=? n) && (n <=? 57).

Fixpoint all_digits (s : string) : bool :=
  match s with EmptyString => true | String c s' => is_digit c && all_digits s' end.

(** [s.isdigit()] of an ASCII string. *)
Definition isdigit (s : string) : bool := bool_decide (s ≠ EmptyString) && all_digits s.

(** [remove_trailing_numbers]. *)
Definition remove_trailing_numbers (s : string) : string :=
  match rsplit1 "_" s with
  | Some (p, r) => if isdigit r then p else s
  | None => s
  end.

(** The name of the database of a task. *)
Definition database_name (hash task_name : string) : string :=
  hash +:+ "__" +:+ remove_trailing_numbers task_name.

(** [get_hold_out_five_files], from the hashes and names of the held-out tasks. *)
Definition get_hold_out_five_files (tasks : list (string * string)) : list string :=
  sorted_set ((λ '(hash, task_name), database_name hash task_name) <$> tasks).

(** ** Records *)

(** [recursion_reset_json] inside a list: every number becomes 1. *)
Fixpoint reset_json (j : json) : py json :=
  match j with
  | JArr l => let? l' := pymap reset_json l in Ret (JArr l')
  | JInt _ | JBool _ => Ret (JInt 1)
  | _ => Raise AssertionError
  end.

Definition recursion_reset_json (j : json) : py json :=
  match j with JArr _ => reset_json j | _ => Raise AssertionError end.

(** [a, b = j]. *)
Definition as_pair (j : json) : py (json * json) :=
  match j with JArr [a; b] => Ret (a, b) | JArr _ => Raise ValueError | _ => Raise TypeError end.

(** The value of [inst_i] after the loop that looks for [EnterPostproc]; it has
    none where the loop has never run. *)
Fixpoint enter_postproc (i : nat) (insts_part : list json) (inst_i : option nat) : py (option nat) :=
  match insts_part with
  | [] => Ret inst_i
  | inst :: insts_part' =>
      let? tag := jidx 0 inst in
      if decide (tag = JStr "EnterPostproc") then Ret (Some i)
      else enter_postproc (S i) insts_part' (Some i)
  end.

(** [inst[0] == 'Annotate' and inst[2] == ['meta_schedule.parallel']]. *)
Definition is_parallel (inst : json) : py bool :=
  let? tag := jidx 0 inst in
  if decide (tag = JStr "Annotate") then
    let? ann := jidx 2 inst in
    Ret (bool_decide (ann = JArr [JStr "meta_schedule.parallel"]))
  else Ret false.

(** [inst[1][1] = 1] for a parallel annotation, with what it was. *)
Definition mask_inst (inst : json) : py (json * list json) :=
  let? parallel := is_parallel inst in
  if parallel then
    let? masked := jupd_idx 1 (jupd_idx 1 (λ _, Ret (JInt 1))) inst in
    Ret (masked, [inst])
  else Ret (inst, []).

(** [dec[0] = dec_label[0]]. *)
Definition keep_head (dec dec_label : json) : py json :=
  let? head := jidx 0 dec_label in
  jupd_idx 0 (λ _, Ret head) dec.

(** The decisions with the sizes hidden, from the decisions. *)
Definition hide_decisions (decisions_label : json) : py (list json) :=
  let? decisions_part := recursion_reset_json decisions_label in
  let? parts := as_arr decisions_part in
  let? labels := as_arr decisions_label in
  pymap (λ '(dec, dec_label), keep_head dec dec_label) (zip parts labels).

(** What [for_init_lines] yields. *)
Record entry := mkEntry {
  e_line : string;
  insts_part : list json;
  decisions_part : list json;
  decisions_label : json;
  parallel_label : list json;
  e_latency : flt
}.

Section Records.
(** [json.loads], [numpy.mean] and [repr] of a float. *)
Context (loads : string → py json) (np_mean : list flt → flt) (repr_float : flt → string).

(** The instructions, the decisions and the run times of a record. *)
Definition record_parts (line : string) : py (list json * json * list flt) :=
  let? json_line := loads line in
  let? record := jidx 1 json_line in
  let? trace := jidx 0 record in
  let? (insts, decisions) := as_pair trace in
  let? run_secs := jidx 1 record in
  let? secs := as_arr run_secs in
  let? secs := pymap as_float secs in
  let? insts := as_arr insts in
  Ret (insts, decisions, secs).

(** The body of the loop of [for_init_lines]. *)
Definition init_line (inst_i : option nat) (line : string) : py (entry * option nat) :=
  let? (insts, decisions_label, secs) := record_parts line in
  let? inst_i := enter_postproc 0 insts inst_i in
  match inst_i with
  | None => Raise NameError
  | Some i =>
      let? masked := pymap mask_inst (take (i + 1) insts) in
      let? decisions_part := hide_decisions decisions_label in
      Ret (mkEntry line masked.*1 decisions_part decisions_label (concat masked.*2) (np_mean secs),
           inst_i)
  end.

Fixpoint init_lines (inst_i : option nat) (lines : list string) : py (list entry) :=
  match lines with
  | [] => Ret []
  | line :: lines' =>
      let? (e, inst_i) := init_line inst_i line in
      let? es := init_lines inst_i lines' in
      Ret (e :: es)
  end.

(** [for_init_lines]. *)
Definition for_init_lines (lines : list string) : py (list entry) :=
  init_lines None (filter (λ x, x ≠ EmptyString) lines).

(** What [for_init_workload] reads of a database: the parts of the task's name,
    the types and shapes of the arguments and the target of its records. *)
Record workload := mkWorkload {
  w_hash : string;
  w_task_name : string;
  w_shapes : list json;
  w_target : json
}.

(** [for_init_workload] from the path of the database, and from the argument
    types, the shapes and the targets of its records.  A shape is a tuple, printed
    here like a list. *)
Definition for_init_workload (work_dir : string) (all_records : list (list (string * list Z) * string)) :
    py workload :=
  let hash_task_name := basename work_dir in
  let? _ := pyassert (str_contains "__" hash_task_name) in
  match split_dunder hash_task_name with
  | [hash; task_name] =>
      Ret (mkWorkload hash task_name
             ((λ '(dtype, shape), JArr [JStr dtype; JArr (JInt <$> shape)]) <$> concat all_records.*1)
             (match last all_records.*2 with Some t => JStr t | None => JNull end))
  | _ => Raise ValueError
  end.

(** The text of a prompt and of a training entry. *)
Definition prompt_text (w : workload) (e : entry) : list json :=
  [JArr (JStr <$> str_split "_" (w_task_name w)); JArr (w_shapes w); w_target w; JArr (insts_part e);
   JArr (decisions_part e); JStr "PPT"].

Definition train_text (w : workload) (e : entry) : list json :=
  prompt_text w e ++ [decisions_label e; JArr (parallel_label e)].

(** [ppt_line], and [str] of it. *)
Definition ppt_line (w : workload) (e : entry) : data :=
  [("text", JArr (prompt_text w e)); ("hash", JStr (w_hash w)); ("task_name", JStr (w_task_name w))].

Definition ppt_line_str (w : workload) (e : entry) : string := py_repr repr_float (JObj (ppt_line w e)).

(** [for_gen_tokenizer]. *)
Definition for_gen_tokenizer (w : workload) (lines : list string) : py (list data) :=
  let? entries := for_init_lines lines in
  Ret ((λ e, [("text", JArr (train_text w e))]) <$> entries).

(** The prompts without repetitions; [prompt_set] holds their texts. *)
Fixpoint distinct_prompts (w : workload) (prompt_set : list string) (entries : list entry) : list data :=
  match entries with
  | [] => []
  | e :: entries' =>
      let s := ppt_line_str w e in
      if bool_decide (s ∈ prompt_set) then distinct_prompts w prompt_set entries'
      else (ppt_line w e ++ [("line", JStr (e_line e))]) :: distinct_prompts w (s :: prompt_set) entries'
  end.

(** [for_gen_train_sketch]; [choice n size] are the indexes below [n] that numpy
    draws. *)
Definition for_gen_train_sketch (choice : nat → Z → py (list nat)) (w : workload) (lines : list string)
    (keep_cnt : Z) : py (list data) :=
  let? entries := for_init_lines lines in
  let prompt_lines := distinct_prompts w [] entries in
  let? indices := choice (length prompt_lines) keep_cnt in
  pymap (λ i, match prompt_lines !! i with Some l => Ret l | None => Raise IndexError end) indices.

(** One record in the loop of [for_gen_best]. *)
Definition meta_best_step (w : workload) (acc : best_map * flt) (e : entry) : best_map * flt :=
  let '(prompt_dic, min_latency) := acc in
  let latency := e_latency e in
  let s := ppt_line_str w e in
  let better := match od_get prompt_dic s with
                | None => true
                | Some (old, _) => fltb latency old
                end in
  (if better then
     od_set prompt_dic s (latency, [("text", JArr (train_text w e)); ("latency", JFloat latency)])
   else prompt_dic, fmin min_latency latency).

(** [for_gen_best]; [shuffle] is [random.shuffle].  The latencies are numpy floats,
    whose division does not raise. *)
Definition meta_for_gen_best (hardware : string) (shuffle : list string → list string) (w : workload)
    (lines : list string) : py (list data) :=
  let? entries := for_init_lines (shuffle lines) in
  let '(prompt_dic, min_latency) := foldl (meta_best_step w) ([], f_1e10) entries in
  let labelled := (λ '(latency, d),
    let label := fdiv_raw min_latency latency in (label, od_set d "label" (JFloat label))) <$>
    od_vals prompt_dic in
  let sorted := (sort_desc labelled).*2 in
  if decide (hardware = "i7" ∨ hardware = "v100") then Ret (take 1 sorted) else Raise AssertionError.
End Records.

(** ** The choice of the databases *)

(** The [for_type] argument. *)
Inductive meta_for_type :=
  | META_FOR_GEN_TOKENIZER
  | META_FOR_GEN
  | META_FOR_GEN_BEST
  | META_FOR_GEN_BEST_ALL
  | META_FOR_GEN_TRAIN_SKETCH
  | META_FOR_GEN_EVAL_SKETCH
  | META_FOR_GEN_EVALTUNING_SKETCH.

(** [process_file]: the data of a database, written as lines. *)
Definition meta_process_file (t : meta_for_type) (loads : string → py json) (np_mean : list flt → flt)
    (repr_float : flt → string) (dumps : data → string) (hardware : string)
    (shuffle : list string → list string) (choice : nat → Z → py (list nat)) (w : workload)
    (lines : list string) (keep_cnt : Z) : py string :=
  let? data_list :=
    match t with
    | META_FOR_GEN_TOKENIZER | META_FOR_GEN => for_gen_tokenizer loads np_mean w lines
    | META_FOR_GEN_TRAIN_SKETCH | META_FOR_GEN_EVAL_SKETCH | META_FOR_GEN_EVALTUNING_SKETCH =>
        for_gen_train_sketch loads np_mean repr_float choice w lines keep_cnt
    | META_FOR_GEN_BEST | META_FOR_GEN_BEST_ALL =>
        meta_for_gen_best loads np_mean repr_float hardware shuffle w lines
    end in
  let? data_list := json_to_token repr_float data_list in
  Ret (write_lines (dumps <$> data_list)).

(** The directories whose names are held out, and the other ones. *)
Definition dirs_held_out (hold_out dirs : list string) : list string :=
  filter (λ dir, basename dir ∈ hold_out) dirs.
Definition dirs_not_held_out (hold_out dirs : list string) : list string :=
  filter (λ dir, basename dir ∉ hold_out) dirs.

(** The directories [main] hands to [token_files_and_merge], from the listing of
    the data set and the names of the held-out databases; [sample] is
    [random.sample] after [set_seed(0)], [potential] is [find_potential_dirs]. *)
Definition main_dirs (sample : list string → Z → py (list string)) (potential : list string → list string)
    (t : meta_for_type) (all_dirs hold_out : list string) (file_cnt test_file_idx : option Z)
    (scheduled : bool) : py (list string) :=
  match t with
  | META_FOR_GEN_TOKENIZER | META_FOR_GEN_BEST_ALL => Ret all_dirs
  | META_FOR_GEN => sampled sample file_cnt (dirs_not_held_out hold_out all_dirs)
  | META_FOR_GEN_BEST => Ret (dirs_not_held_out hold_out all_dirs)
  | META_FOR_GEN_TRAIN_SKETCH =>
      let dirs := dirs_not_held_out hold_out all_dirs in
      Ret (match test_file_idx with Some idx => rotation idx dirs | None => dirs end)
  | META_FOR_GEN_EVAL_SKETCH | META_FOR_GEN_EVALTUNING_SKETCH =>
      let dirs := dirs_held_out hold_out all_dirs in
      Ret (if scheduled then potential dirs else dirs)
  end.
