(* ===== verification/MetaCorpusSpec.v ===== *)
(** * Properties of the MetaSchedule corpus

    A prompt is the sketch of a record, its label is what the prompt hides; the
    databases are divided between training and test. *)

From S2P Require Import Prelude PyFloat PyText Corpus CorpusSpec MetaCorpus.

(** ** What a prompt hides *)

Definition is_num (j : json) : Prop := match j with JInt _ | JBool _ => True | _ => False end.

(** Nested lists of numbers with the same lengths. *)
Inductive same_shape : json → json → Prop :=
  | shape_num a b : is_num a → is_num b → same_shape a b
  | shape_arr l k : Forall2 same_shape l k → same_shape (JArr l) (JArr k).

(** The same instruction index, and values of the same shape. *)
Definition same_decision (d d' : json) : Prop :=
  ∃ h t t', d = JArr (h :: t) ∧ d' = JArr (h :: t') ∧ Forall2 same_shape t t'.

Definition same_decisions (d d' : json) : Prop :=
  ∃ l l', d = JArr l ∧ d' = JArr l' ∧ Forall2 same_decision l l'.

(** An instruction with another second argument of its second field. *)
Definition with_factor (inst v : json) : py json := jupd_idx 1 (jupd_idx 1 (λ _, Ret v)) inst.

(** Equal instructions, or parallel annotations that differ in their factor. *)
Definition same_inst (a b : json) : Prop :=
  a = b ∨ is_parallel a = Ret true ∧ ∃ v, with_factor a v = Ret b.

Definition is_postproc (inst : json) : Prop := jidx 0 inst = Ret (JStr "EnterPostproc").

#[global] Instance is_postproc_dec inst : Decision (is_postproc inst).
Proof.
  unfold is_postproc. destruct (jidx 0 inst) as [tag|e]; [|right; congruence].
  destruct (decide (tag = JStr "EnterPostproc")); [left|right]; congruence.
Defined.

(** The instructions up to the postprocessing. *)
Fixpoint up_to_postproc (insts : list json) : list json :=
  match insts with
  | [] => []
  | inst :: insts' => inst :: (if decide (is_postproc inst) then [] else up_to_postproc insts')
  end.

(** The instructions with the labels back in their places. *)
Fixpoint unmask (insts labels : list json) : list json :=
  match insts with
  | [] => []
  | inst :: insts' =>
      match is_parallel inst, labels with
      | Ret true, l :: labels' => l :: unmask insts' labels'
      | _, _ => inst :: unmask insts' labels
      end
  end.

(** ** Decisions *)

Lemma reset_json_arr l r : reset_json (JArr l) = Ret r ↔ ∃ l', pymap reset_json l = Ret l' ∧ r = JArr l'.
Proof. cbn [reset_json]. rewrite pbind_Ret. naive_solver. Qed.

Lemma reset_json_num j : is_num j → reset_json j = Ret (JInt 1).
Proof. by destruct j. Qed.

Lemma reset_json_cases j r : reset_json j = Ret r → is_num j ∨ ∃ l, j = JArr l.
Proof. destruct j as [| | | | |l|]; try done; [by left|by left|right; by exists l]. Qed.

Lemma reset_num_eq a b r r' :
  is_num a → reset_json a = Ret r → reset_json b = Ret r' → r = r' ↔ same_shape a b.
Proof.
  intros Hn Ha Hb. rewrite reset_json_num in Ha by done. injection Ha as <-.
  destruct (reset_json_cases b r' Hb) as [Hm|[k ->]].
  - rewrite reset_json_num in Hb by done. injection Hb as <-. split; [intros _; by apply shape_num|done].
  - apply reset_json_arr in Hb as (k' & _ & ->). split; [done|]. intros Hs. inversion Hs; subst; done.
Qed.

Lemma same_shape_sym a : ∀ b, same_shape a b → same_shape b a.
Proof.
  induction a as [| | | | |l IH|] using json_ind'; intros j Hs; inversion Hs as [? ? Ha Hb|? k HF]; subst;
    try (by apply shape_num).
  apply shape_arr. clear Hs. revert k HF. induction IH as [|x l Hx _ IHl]; intros k HF; inversion HF; subst.
  - constructor.
  - constructor; [by apply Hx|by apply IHl].
Qed.

Lemma reset_json_eq a : ∀ b r r', reset_json a = Ret r → reset_json b = Ret r' → r = r' ↔ same_shape a b.
Proof.
  induction a as [| | | | |l IH|l IH] using json_ind'; intros j r r' Ha Hb; try done; try (by apply reset_num_eq).
  destruct (reset_json_cases j r' Hb) as [Hm|[k ->]].
  { transitivity (r' = r); [naive_solver|]. rewrite (reset_num_eq j (JArr l)) by done.
    split; apply same_shape_sym. }
  apply reset_json_arr in Hb as (k' & Hk & ->). rewrite pymap_Ret in Hk.
  apply reset_json_arr in Ha as (l' & Hl & ->). rewrite pymap_Ret in Hl. 
  transitivity (l' = k'); [naive_solver|].
  transitivity (Forall2 same_shape l k).
  2: { split; [by apply shape_arr|]. intros Hs. by inversion Hs. }
  revert k k' Hk. induction Hl as [|x y l l' Hx Hl IHl]; intros k k' Hk; destruct Hk as [|u v k k' Hu Hk].
  - split; [constructor|done].
  - split; [done|by inversion 1].
  - split; [done|by inversion 1].
  - apply Forall_cons in IH as [IHx IH]. specialize (IHx u y v Hx Hu). specialize (IHl IH k k' Hk).
    split.
    + intros [= -> ->]. constructor; [by apply IHx|by apply IHl].
    + inversion 1; subst. f_equal; [by apply IHx|by apply IHl].
Qed.

Lemma jupd_idx_head f x l : jupd_idx 0 f (JArr (x :: l)) = (let? v := f x in Ret (JArr (v :: l))).
Proof. apply jupd_idx_0. Qed.

(** A decision keeps its head. *)
Lemma hide_one d p q : reset_json d = Ret p → keep_head p d = Ret q →
  ∃ h t t', d = JArr (h :: t) ∧ pymap reset_json t = Ret t' ∧ q = JArr (h :: t').
Proof.
  intros Hp Hq. unfold keep_head in Hq. apply pbind_Ret in Hq as (h & Hh & Hq).
  destruct (reset_json_cases d p Hp) as [Hn|[[|a t] ->]]; [by destruct d| |]; [done|].
  apply reset_json_arr in Hp as (l' & Hl & ->). cbn [pymap] in Hl.
  apply pbind_Ret in Hl as (a' & _ & Hl). apply pbind_Ret in Hl as (t' & Ht & Hl). injection Hl as <-.
  rewrite jidx_0 in Hh. injection Hh as <-. rewrite jupd_idx_head in Hq. simpl in Hq. injection Hq as <-.
  by exists a, t, t'.
Qed.

Lemma pymap_zip_Ret {A B C} (f : A → py B) (h : B → A → py C) l p q :
  pymap f l = Ret p → pymap (λ '(y, x), h y x) (zip p l) = Ret q →
  Forall2 (λ x z, ∃ y, f x = Ret y ∧ h y x = Ret z) l q.
Proof.
  rewrite !pymap_Ret. intros Hf. revert q. induction Hf as [|x y l p Hx Hf IH]; intros q; csimpl.
  - inversion 1. constructor.
  - inversion 1; subst. constructor; [by exists y|by apply IH].
Qed.

Lemma hide_decisions_eq d d' r r' :
  hide_decisions d = Ret r → hide_decisions d' = Ret r' → r = r' ↔ same_decisions d d'.
Proof.
  assert (∀ d r, hide_decisions d = Ret r → ∃ l, d = JArr l ∧
    Forall2 (λ x q, ∃ h t t', x = JArr (h :: t) ∧ pymap reset_json t = Ret t' ∧ q = JArr (h :: t')) l r) as Hinv.
  { clear. intros d r Hr. unfold hide_decisions in Hr. py_inv. destruct d; try done.
    simpl in H1. injection H1 as <-. apply reset_json_arr in H as (l' & Hl & ->). simpl in H0. injection H0 as <-.
    exists l. split; [done|]. eapply Forall2_impl; [by eapply pymap_zip_Ret|].
    intros x q (y & Hy & Hk). by eapply hide_one. }
  intros Hr Hr'. destruct (Hinv _ _ Hr) as (l & -> & HF), (Hinv _ _ Hr') as (l' & -> & HF'). clear -HF HF'.
  transitivity (Forall2 same_decision l l').
  2: { split; [intros; by exists l, l'|]. intros (? & ? & [= <-] & [= <-] & ?). done. }
  revert l' r' HF'. induction HF as [|x q l r Hx HF IH]; intros l' r' HF'; destruct HF' as [|x' q' l' r' Hx' HF'].
  - split; [constructor|done].
  - split; [done|by inversion 1].
  - split; [done|by inversion 1].
  - specialize (IH l' r' HF'). destruct Hx as (h & t & u & -> & Ht & ->), Hx' as (h' & t' & u' & -> & Ht' & ->).
    assert (u = u' ↔ Forall2 same_shape t t') as Heq.
    { transitivity (same_shape (JArr t) (JArr t')).
      - rewrite <-(reset_json_eq (JArr t) (JArr t') (JArr u) (JArr u')) by (apply reset_json_arr; by eexists).
        naive_solver.
      - split; [|by apply shape_arr]. intros Hs. by inversion Hs. }
    split.
    + intros [= -> Hu ->]. constructor; [|by apply IH]. exists h', t, t'. split; [done|]. split; [done|].
      by apply Heq.
    + inversion 1 as [|? ? ? ? Hd Hrest]; subst. destruct Hd as (h2 & t2 & t2' & E1 & E2 & Hs). simplify_eq.
      apply Heq in Hs as ->. f_equal. by apply IH.
Qed.

(** ** Instructions *)

Lemma jidx_1_inv j x : jidx 1 (JArr j) = Ret x → ∃ a l, j = a :: x :: l.
Proof.
  destruct j as [|a [|b l]]; [done|done|]. rewrite jidx_1. intros [= ->]. by exists a, l.
Qed.

Lemma jupd_idx_1_inv f j r : jupd_idx 1 f j = Ret r →
  ∃ a x l v, j = JArr (a :: x :: l) ∧ f x = Ret v ∧ r = JArr (a :: v :: l).
Proof.
  intros Hr. pose proof Hr as Hx. unfold jupd_idx in Hx. apply pbind_Ret in Hx as (x & Hx & Hv).
  apply pbind_Ret in Hv as (v & Hv & Hs). destruct j; try done.
  apply jidx_1_inv in Hx as (a & l' & ->). rewrite jupd_idx_1, Hv in Hr. simpl in Hr. injection Hr as <-.
  by exists a, x, l', v.
Qed.

Lemma with_factor_inv inst v r : with_factor inst v = Ret r →
  ∃ a b x l k, inst = JArr (a :: JArr (b :: x :: k) :: l) ∧ r = JArr (a :: JArr (b :: v :: k) :: l).
Proof.
  intros (a & x & l & y & -> & Hy & ->)%jupd_idx_1_inv.
  apply jupd_idx_1_inv in Hy as (b & z & k & w & -> & [= <-] & ->). by exists a, b, z, l, k.
Qed.

Lemma with_factor_ok a b x v l k :
  with_factor (JArr (a :: JArr (b :: x :: k) :: l)) v = Ret (JArr (a :: JArr (b :: v :: k) :: l)).
Proof. unfold with_factor. by rewrite !jupd_idx_1. Qed.

(** The factor does not matter to what an instruction is. *)
Lemma is_parallel_factor a b x v l k :
  is_parallel (JArr (a :: JArr (b :: x :: k) :: l)) = is_parallel (JArr (a :: JArr (b :: v :: k) :: l)).
Proof. unfold is_parallel. rewrite !jidx_0. cbn [pbind]. by destruct l. Qed.

Lemma mask_inst_Ret inst m ls : mask_inst inst = Ret (m, ls) →
  is_parallel inst = Ret false ∧ m = inst ∧ ls = [] ∨
  is_parallel inst = Ret true ∧ with_factor inst (JInt 1) = Ret m ∧ ls = [inst].
Proof.
  unfold mask_inst. intros ([|] & Hp & Hm)%pbind_Ret; [right|left].
  - apply pbind_Ret in Hm as (m' & Hm & [= <- <-]). done.
  - by injection Hm as <- <-.
Qed.

Lemma masked_parallel inst m ls : mask_inst inst = Ret (m, ls) → is_parallel m = is_parallel inst.
Proof.
  intros [(_ & -> & _)|(_ & Hf & _)]%mask_inst_Ret; [done|].
  apply with_factor_inv in Hf as (a & b & x & l & k & -> & ->). apply is_parallel_factor.
Qed.

Lemma mask_inst_eq a b m ls m' ls' : mask_inst a = Ret (m, ls) → mask_inst b = Ret (m', ls') →
  m = m' ↔ same_inst a b.
Proof.
  intros Ha Hb. pose proof (masked_parallel _ _ _ Ha) as Hpa. pose proof (masked_parallel _ _ _ Hb) as Hpb.
  destruct (mask_inst_Ret _ _ _ Ha) as [(Hp & -> & _)|(Hp & Hf & _)],
    (mask_inst_Ret _ _ _ Hb) as [(Hp' & -> & _)|(Hp' & Hf' & _)].
  - split; [by left|]. intros [?|[? _]]; [done|congruence].
  - split; [intros ->; congruence|]. intros [->|[? _]]; congruence.
  - split; [intros <-; congruence|]. intros [->|[_ (v & Hv)]]; [congruence|].
    apply with_factor_inv in Hv as (a1 & b1 & x & l & k & -> & ->).
    rewrite (is_parallel_factor _ _ _ x) in Hp'. congruence.
  - apply with_factor_inv in Hf as (a1 & b1 & x & l & k & -> & ->).
    apply with_factor_inv in Hf' as (a2 & b2 & y & l2 & k2 & -> & ->). split.
    + intros [= -> -> -> ->]. right. split; [done|]. exists y. apply with_factor_ok.
    + intros [[= -> -> -> -> ->]|[_ (v & Hv)]]; [done|]. rewrite with_factor_ok in Hv.
      by injection Hv as -> -> -> -> ->.
Qed.

Lemma masks_eq l l' ms ms' : pymap mask_inst l = Ret ms → pymap mask_inst l' = Ret ms' →
  ms.*1 = ms'.*1 ↔ Forall2 same_inst l l'.
Proof.
  rewrite !pymap_Ret. intros Hl. revert l' ms'. induction Hl as [|a [m ls] l ms Ha Hl IH]; intros l' ms' Hl'.
  - destruct Hl'; (split; [try constructor; done|]); [done|by inversion 1].
  - destruct Hl' as [|b [m' ls'] l' ms' Hb Hl']; csimpl; [split; [done|by inversion 1]|].
    specialize (IH l' ms' Hl'). pose proof (mask_inst_eq _ _ _ _ _ _ Ha Hb) as Heq. split.
    + intros [= -> Hms]. constructor; [by apply Heq|by apply IH].
    + inversion 1; subst. f_equal; [by apply Heq|by apply IH].
Qed.

(** The labels go back where they come from. *)
Lemma unmask_masked l ms : pymap mask_inst l = Ret ms → unmask ms.*1 (concat ms.*2) = l.
Proof.
  rewrite pymap_Ret. induction 1 as [|a [m ls] l ms Ha _ IH]; csimpl; [done|].
  rewrite (masked_parallel _ _ _ Ha).
  destruct (mask_inst_Ret _ _ _ Ha) as [(Hp & -> & ->)|(Hp & Hf & ->)]; rewrite Hp; csimpl; by rewrite IH.
Qed.

(** Cutting at the position the loop leaves. *)
Lemma enter_postproc_cut insts : ∀ i o j, enter_postproc i insts o = Ret (Some j) → insts ≠ [] →
  ∃ k, j = i + k ∧ take (k + 1) insts = up_to_postproc insts.
Proof.
  induction insts as [|inst insts IH]; intros i o j Hj Hne; [done|]. simpl in Hj.
  apply pbind_Ret in Hj as (tag & Htag & Hj). simpl up_to_postproc.
  case_decide as Ht.
  - injection Hj as <-. exists 0. split; [lia|]. rewrite decide_True by (unfold is_postproc; congruence). done.
  - rewrite decide_False by (unfold is_postproc; congruence). destruct insts as [|inst2 insts].
    + injection Hj as <-. exists 0. split; [lia|done].
    + destruct (IH (S i) (Some i) j Hj) as (k & -> & Hk); [done|]. exists (S k). split; [lia|].
      cbn [Nat.add take]. by rewrite Hk.
Qed.

(** ** Records *)

Section Records.
Context (loads : string → py json) (np_mean : list flt → flt) (repr_float : flt → string).

Lemma init_line_Ret o line e o' : init_line loads np_mean o line = Ret (e, o') →
  ∃ insts secs ms, record_parts loads line = Ret (insts, decisions_label e, secs) ∧
    pymap mask_inst (up_to_postproc insts) = Ret ms ∧ insts_part e = ms.*1 ∧
    parallel_label e = concat ms.*2 ∧ hide_decisions (decisions_label e) = Ret (decisions_part e) ∧
    e_line e = line ∧ e_latency e = np_mean secs.
Proof.
  unfold init_line. intros ([[insts dec] secs] & Hp & He)%pbind_Ret.
  apply pbind_Ret in He as ([i|] & Hi & He); [|done].
  apply pbind_Ret in He as (ms & Hms & He). apply pbind_Ret in He as (ds & Hds & [= <- <-]). simpl.
  exists insts, secs, ms. split; [done|]. split; [|done]. destruct insts as [|inst insts].
  - by rewrite take_nil in Hms.
  - destruct (enter_postproc_cut _ _ _ _ Hi) as (k & -> & Hk); [done|]. by rewrite <-Hk.
Qed.

(** C36: what a training entry and its prompt say of a record.  Two prompts of a
    task are the same exactly when the records agree up to the numbers of their
    decisions and the factors of their parallel annotations, and from the
    entry the instructions up to the postprocessing and the decisions can be
    read back. *)
Theorem meta_prompt_spec w o o' line line' e e' p p' :
  init_line loads np_mean o line = Ret (e, p) →
  init_line loads np_mean o' line' = Ret (e', p') →
  ∃ insts insts' secs secs',
    record_parts loads line = Ret (insts, decisions_label e, secs) ∧
    record_parts loads line' = Ret (insts', decisions_label e', secs') ∧
    (prompt_text w e = prompt_text w e' ↔
       Forall2 same_inst (up_to_postproc insts) (up_to_postproc insts') ∧
       same_decisions (decisions_label e) (decisions_label e')) ∧
    (train_text w e = prompt_text w e ++ [decisions_label e; JArr (parallel_label e)] ∧
     unmask (insts_part e) (parallel_label e) = up_to_postproc insts).
Proof.
  intros (insts & secs & ms & Hp & Hms & Hi & Hl & Hd & _)%init_line_Ret
    (insts' & secs' & ms' & Hp' & Hms' & Hi' & Hl' & Hd' & _)%init_line_Ret.
  exists insts, insts', secs, secs'. split; [done|]. split; [done|].
  pose proof (masks_eq _ _ _ _ Hms Hms') as Hm. pose proof (hide_decisions_eq _ _ _ _ Hd Hd') as Hh.
  split; [|split; [done|]].
  - rewrite <-Hm, <-Hh. unfold prompt_text. rewrite Hi, Hi'. split; [by intros [= -> ->]|by intros [-> ->]].
  - rewrite Hi, Hl. by apply unmask_masked.
Qed.
End Records.

(** ** The best record of a database *)

Section Best.
Context (loads : string → py json) (np_mean : list flt → flt) (repr_float : flt → string) (w : workload).

Abbreviation key_of := (ppt_line_str repr_float w).

(** The data kept of a record, the label apart. *)
Definition best_data (e : entry) : data :=
  [("text", JArr (train_text w e)); ("latency", JFloat (e_latency e))].

(** [e] is as fast as every record of [es] with the same prompt. *)
Definition fastest (es : list entry) (e : entry) : Prop :=
  e ∈ es ∧ ∀ e', e' ∈ es → key_of e' = key_of e → fle (e_latency e) (e_latency e').

Record meta_best_inv (seen : list entry) (acc : best_map * flt) : Prop := {
  mb_nodup : NoDup (od_keys acc.1);
  mb_keys p : p ∈ od_keys acc.1 ↔ p ∈ key_of <$> seen;
  mb_kept p latency d : od_get acc.1 p = Some (latency, d) →
    ∃ e, fastest seen e ∧ key_of e = p ∧ latency = e_latency e ∧ d = best_data e;
  mb_min : acc.2 = foldl fmin f_1e10 (e_latency <$> seen)
}.

Lemma fastest_snoc es e x :
  fastest es e → (key_of x = key_of e → fle (e_latency e) (e_latency x)) → fastest (es ++ [x]) e.
Proof. intros [Hin Hle] Hx. split; [set_solver|]. intros e' [He'|He'%list_elem_of_singleton]%elem_of_app; subst; auto. Qed.

Lemma meta_best_step_inv seen acc e :
  (∀ e', e' ∈ seen ++ [e] → is_nan (e_latency e') = false) →
  meta_best_inv seen acc → meta_best_inv (seen ++ [e]) (meta_best_step repr_float w acc e).
Proof.
  intros Hnan [Hnd Hkeys Hkept Hmin]. destruct acc as [m lmin]. simpl in *. unfold meta_best_step.
  assert (fmin lmin (e_latency e) = foldl fmin f_1e10 (e_latency <$> seen ++ [e])) as Hmin'.
  { by rewrite fmap_app, foldl_app, <-Hmin. }
  assert (∀ e', e' ∈ seen → is_nan (e_latency e') = false) as Hold by (intros; apply Hnan; set_solver).
  assert (is_nan (e_latency e) = false) as He by (apply Hnan; set_solver).
  (* the record replaces the kept one *)
  assert ((∀ e', e' ∈ seen → key_of e' = key_of e → fle (e_latency e) (e_latency e')) →
    meta_best_inv (seen ++ [e]) (od_set m (key_of e) (e_latency e, best_data e), fmin lmin (e_latency e))) as Hset.
  { intros Hle. split; simpl; [by apply od_set_NoDup| | |done].
    - intros p. rewrite od_keys_set, fmap_app, elem_of_app, <-Hkeys.
      destruct (od_mem m (key_of e)) eqn:Em; [apply od_mem_true in Em|]; set_solver.
    - intros p l d. rewrite od_get_set. case_decide as Hp.
      + intros [= <- <-]. exists e. split; [|done]. split; [set_solver|].
        intros e' [He'|He'%list_elem_of_singleton]%elem_of_app Hk; [by apply Hle|subst e'; by apply fle_refl].
      + intros Hg. destruct (Hkept p l d Hg) as (e0 & Hf & <- & -> & ->). exists e0. split; [|done].
        apply fastest_snoc; [done|]. congruence. }
  destruct (od_get m (key_of e)) as [[old d]|] eqn:Eg.
  - destruct (Hkept _ _ _ Eg) as (e0 & [Hin Hle] & Hk & -> & ->).
    destruct (fltb (e_latency e) (e_latency e0)) eqn:Elt.
    + apply Hset. intros e' He' Hk'. eapply fle_trans; [by apply flt_fle|]. apply Hle; congruence.
    + split; simpl; [done| | |done].
      * intros p. rewrite fmap_app, elem_of_app, <-Hkeys. apply od_get_Some_key in Eg. set_solver.
      * intros p l d Hg. destruct (Hkept p l d Hg) as (e1 & Hf & <- & -> & ->). exists e1. split; [|done].
        apply fastest_snoc; [done|]. intros Hk1. rewrite <-Hk1, Eg in Hg. injection Hg as Hl _.
        rewrite <-Hl. by apply fltb_false_fle; auto.
  - apply Hset. intros e' He' Hk. apply od_get_None_key in Eg. exfalso. apply Eg, Hkeys. rewrite <-Hk.
    by apply list_elem_of_fmap_2.
Qed.

Lemma meta_best_fold es : ∀ seen acc,
  (∀ e, e ∈ seen ++ es → is_nan (e_latency e) = false) → meta_best_inv seen acc →
  meta_best_inv (seen ++ es) (foldl (meta_best_step repr_float w) acc es).
Proof.
  induction es as [|e es IH]; intros seen acc Hnan Hinv; simpl; [by rewrite app_nil_r|].
  change (e :: es) with ([e] ++ es). rewrite app_assoc. apply IH; [by rewrite <-app_assoc|].
  apply meta_best_step_inv; [|done]. intros e' He'. apply Hnan. set_solver.
Qed.

(** Of every database one record is kept, one that is as fast as the records
    with the same prompt, labelled with the share of its latency that the best
    latency of the database is; among the best records of the prompts it has the
    greatest label. *)
Theorem meta_for_gen_best_spec hardware shuffle lines ds es :
  hardware = "i7" ∨ hardware = "v100" →
  for_init_lines loads np_mean (shuffle lines) = Ret es →
  (∀ e, e ∈ es → is_nan (e_latency e) = false) →
  meta_for_gen_best loads np_mean repr_float hardware shuffle w lines = Ret ds →
  let lmin := foldl fmin f_1e10 (e_latency <$> es) in
  let label e := fdiv_raw lmin (e_latency e) in
  (es = [] ∧ ds = []) ∨
  ∃ e, ds = [od_set (best_data e) "label" (JFloat (label e))] ∧ fastest es e ∧
    ((∀ e', e' ∈ es → is_nan (label e') = false) →
     ∀ e', e' ∈ es → ∃ e2, fastest es e2 ∧ key_of e2 = key_of e' ∧ fle (label e2) (label e)).
Proof.
  intros Hhw Hes Hnan Hds lmin label. unfold meta_for_gen_best in Hds. rewrite Hes in Hds. cbn [pbind] in Hds.
  pose proof (meta_best_fold es [] ([], f_1e10) Hnan) as Hinv.
  destruct (foldl _ _ es) as [m lm] eqn:Em. destruct Hinv as [Hnd Hkeys Hkept Hmin].
  { split; simpl; [constructor|set_solver|done|done]. }
  simpl in *. subst lm. fold lmin in Hds. rewrite decide_True in Hds by done. injection Hds as <-.
  set (rows := (λ '(latency, d), (fdiv_raw lmin latency, od_set d "label" (JFloat (fdiv_raw lmin latency)))) <$> od_vals m).
  assert (∀ r, r ∈ rows → ∃ e, fastest es e ∧ r = (label e, od_set (best_data e) "label" (JFloat (label e)))) as Hrows.
  { intros r ([l d] & -> & Hv)%list_elem_of_fmap. apply list_elem_of_fmap in Hv as ([p ld] & Heq & Hm).
    simpl in Heq. subst ld. apply od_elem_get in Hm; [|done].
    destruct (Hkept _ _ _ Hm) as (e & Hf & _ & -> & ->). by exists e. }
  pose proof (sort_desc_perm rows) as Hperm. destruct (sort_desc rows) as [|r rest] eqn:Es.
  - left. split; [|done]. apply Permutation_nil_l in Hperm. destruct es as [|e es]; [done|]. exfalso.
    assert (key_of e ∈ od_keys m) as Hk by (apply Hkeys; left).
    unfold rows, od_vals in Hperm. destruct m; [by apply elem_of_nil in Hk|done].
  - right. destruct (Hrows r) as (e & Hf & ->); [rewrite <-Hperm; left|]. exists e. split; [done|]. split; [done|].
    intros Hlab e' He'. assert (key_of e' ∈ od_keys m) as Hk by (apply Hkeys; by apply list_elem_of_fmap_2).
    apply od_key_iff in Hk as [[l d] Hg]. destruct (Hkept _ _ _ Hg) as (e2 & Hf2 & Hk2 & -> & ->).
    exists e2. split; [done|]. split; [done|].
    assert ((label e2, od_set (best_data e2) "label" (JFloat (label e2))) ∈ rows) as Hin.
    { unfold rows. apply (list_elem_of_fmap_2 (λ '(latency, d), (fdiv_raw lmin latency, od_set d "label" (JFloat (fdiv_raw lmin latency))))
        _ (e_latency e2, best_data e2)). apply od_get_elem in Hg. by apply (list_elem_of_fmap_2 snd) in Hg. }
    assert (StronglySorted desc (sort_desc rows)) as Hsort.
    { apply sort_desc_sorted. apply Forall_forall. intros r Hr. destruct (Hrows r Hr) as (e3 & [He3 _] & ->).
      by apply Hlab. }
    rewrite Es in Hsort. apply StronglySorted_inv in Hsort as [_ Hall]. rewrite <-Hperm in Hin.
    apply elem_of_cons in Hin as [Heq|Hin].
    + injection Heq as Heq _. rewrite Heq. apply fle_refl, Hlab. apply Hf.
    + by apply (proj1 (Forall_forall _ _) Hall _ Hin).
Qed.
End Best.

(** ** Prompts *)

Section Prompts.
Context (loads : string → py json) (np_mean : list flt → flt) (repr_float : flt → string) (w : workload).

Lemma distinct_prompts_spec es : ∀ set,
  ∃ keep, distinct_prompts repr_float w set es = (λ e, ppt_line w e ++ [("line", JStr (e_line e))]) <$> keep ∧
    keep `sublist_of` es ∧ NoDup (ppt_line_str repr_float w <$> keep) ∧
    ∀ s, s ∈ ppt_line_str repr_float w <$> keep ↔ s ∈ ppt_line_str repr_float w <$> es ∧ s ∉ set.
Proof.
  induction es as [|e es IH]; intros set; csimpl.
  { exists []. split; [done|]. split; [done|]. split; [constructor|set_solver]. }
  case_bool_decide as He.
  - destruct (IH set) as (keep & -> & Hsub & Hnd & Hin). exists keep. split; [done|].
    split; [by apply sublist_cons|]. split; [done|]. intros s. rewrite Hin. set_solver.
  - destruct (IH (ppt_line_str repr_float w e :: set)) as (keep & -> & Hsub & Hnd & Hin).
    exists (e :: keep). split; [done|]. split; [by apply sublist_skip|]. csimpl. split.
    + constructor; [|done]. rewrite Hin. set_solver.
    + intros s. rewrite !elem_of_cons, Hin, elem_of_cons. destruct (decide (s = ppt_line_str repr_float w e)); set_solver.
Qed.

(** [for_gen_train_sketch] draws the wanted number of prompts from one prompt of
    every sketch of the database. *)
Theorem train_sketch_spec choice lines keep_cnt ds es :
  (∀ n, is_Some (head (seq 0 n)) → ∃ l, choice n keep_cnt = Ret l ∧ zlen l = keep_cnt ∧ ∀ i, i ∈ l → i < n) →
  (∀ e, choice 0 keep_cnt ≠ Ret e) →
  for_init_lines loads np_mean lines = Ret es →
  for_gen_train_sketch loads np_mean repr_float choice w lines keep_cnt = Ret ds →
  es ≠ [] ∧ zlen ds = keep_cnt ∧
  ∃ keep, keep `sublist_of` es ∧ NoDup (ppt_line_str repr_float w <$> keep) ∧
    (∀ e, e ∈ es → ∃ k, k ∈ keep ∧ ppt_line_str repr_float w k = ppt_line_str repr_float w e) ∧
    ∀ d, d ∈ ds → ∃ k, k ∈ keep ∧ d = ppt_line w k ++ [("line", JStr (e_line k))].
Proof.
  intros Hchoice Hempty Hes Hds. unfold for_gen_train_sketch in Hds. rewrite Hes in Hds. cbn [pbind] in Hds.
  destruct (distinct_prompts_spec es []) as (keep & Hkeep & Hsub & Hnd & Hin). rewrite Hkeep, length_fmap in Hds.
  apply pbind_Ret in Hds as (idx & Hidx & Hds). destruct keep as [|k keep]; [by destruct (Hempty idx)|].
  destruct (Hchoice (length (k :: keep))) as (l & Hl & Hlen & Hlt); [by eexists|].
  rewrite Hl in Hidx. injection Hidx as <-.
  split; [intros ->; apply sublist_nil_r in Hsub; done|]. split.
  { apply pymap_Ret, Forall2_length in Hds. unfold zlen in *. congruence. }
  exists (k :: keep). split; [done|]. split; [done|]. split.
  - intros e He. assert (ppt_line_str repr_float w e ∈ ppt_line_str repr_float w <$> k :: keep) as Hk.
    { apply Hin. split; [by apply list_elem_of_fmap_2|by intros ?%elem_of_nil]. }
    apply list_elem_of_fmap in Hk as (k0 & ? & ?). by exists k0.
  - intros d Hd. destruct (pymap_elem _ _ _ _ Hds Hd) as (i & _ & Hi). rewrite list_lookup_fmap in Hi.
    destruct ((k :: keep) !! i) as [k0|] eqn:Ek; [|done]. simpl in Hi. injection Hi as <-.
    exists k0. split; [by eapply list_elem_of_lookup_2|done].
Qed.
End Prompts.

(** ** Training and test databases *)

(** No leakage from the test networks.  The databases of [for_gen] and
    [for_gen_best] and those of the evaluation divide the data set, by the held-out
    names; a round of [for_gen_train_sketch] takes its databases from the first,
    and four consecutive rounds take each of them once. *)
Theorem meta_hold_out_partition sample potential ttrain ttest all_dirs hold_out idx train test (k : Z) r0 r1 r2 r3 :
  NoDup all_dirs →
  ttrain ∈ [META_FOR_GEN; META_FOR_GEN_BEST] →
  ttest ∈ [META_FOR_GEN_EVAL_SKETCH; META_FOR_GEN_EVALTUNING_SKETCH] →
  main_dirs sample potential ttrain all_dirs hold_out None idx false = Ret train →
  main_dirs sample potential ttest all_dirs hold_out None idx false = Ret test →
  main_dirs sample potential META_FOR_GEN_TRAIN_SKETCH all_dirs hold_out None (Some k) false = Ret r0 →
  main_dirs sample potential META_FOR_GEN_TRAIN_SKETCH all_dirs hold_out None (Some (k + 1)%Z) false = Ret r1 →
  main_dirs sample potential META_FOR_GEN_TRAIN_SKETCH all_dirs hold_out None (Some (k + 2)%Z) false = Ret r2 →
  main_dirs sample potential META_FOR_GEN_TRAIN_SKETCH all_dirs hold_out None (Some (k + 3)%Z) false = Ret r3 →
  all_dirs ≡ₚ train ++ test ∧
  (∀ d, d ∈ test ↔ d ∈ all_dirs ∧ basename d ∈ hold_out) ∧
  train ≡ₚ r0 ++ r1 ++ r2 ++ r3.
Proof.
  intros Hnd Htr Hte Htrain Htest [= <-] [= <-] [= <-] [= <-].
  assert (train = dirs_not_held_out hold_out all_dirs) as ->.
  { repeat (apply elem_of_cons in Htr as [->|Htr]; [by injection Htrain|]). by apply not_elem_of_nil in Htr. }
  assert (test = dirs_held_out hold_out all_dirs) as ->.
  { repeat (apply elem_of_cons in Hte as [->|Hte]; [by injection Htest|]). by apply not_elem_of_nil in Hte. }
  split; [unfold dirs_not_held_out, dirs_held_out; apply (filter_split (λ d, basename d ∈ hold_out))|].
  split; [intros d; unfold dirs_held_out; rewrite list_elem_of_filter; tauto|].
  apply rotations_partition. unfold dirs_not_held_out. by apply NoDup_filter.
Qed.
