(* ===== verification/MetaMeasure.v ===== *)
(** * Generation, measurement and collection in the MetaSchedule pipeline

    The records the model generates for a task, their measurement, the collection
    of the measured databases and the choice of the tasks of the next round.
    Sources: src/meta/meta_gen_state.py, src/meta/measure_programs.py,
    src/meta/meta_postprocess.py, src/meta/meta_common.py,
    src/meta/meta_task_sheduler.py. *)

From S2P Require Import Prelude PyFloat PyText Corpus Measure Campaign MetaCorpus.

(** [[x for x in f.read().strip().split('\n') if x]]. *)
Definition nonempty_lines (content : string) : list string := filter (λ x, x ≠ EmptyString) (read_lines content).

(** ** Records from the model (meta_gen_state.py) *)

(** [j == 0]. *)
Definition is_zero (j : json) : bool :=
  match j with
  | JInt z => bool_decide (z = 0)%Z
  | JBool b => negb b
  | JFloat x => feqb x f0
  | _ => false
  end.

Section Generate.
(** [json.loads], [json.dumps] and [random.sample]; the content of the commit file
    after each round of the engine. *)
Context (loads : string → py json) (dumps : json → string) (sample : list string → Z → py (list string))
  (commit : nat → string).

(** [get_measured_str_from_line]: the record without its run times. *)
Definition get_measured_str_from_line (line : string) : py string :=
  let? json_line := loads line in
  let? workload := jidx 0 json_line in
  let? _ := pyassert (is_zero workload) in
  let? record := jidx 1 json_line in
  let? want_part := as_arr record in
  match want_part with
  | trace :: _ :: rest => Ret (dumps (JArr (trace :: rest)))
  | _ => Raise IndexError
  end.

(** [get_measured_set] from the collected records of the task. *)
Definition get_measured_set (allow_repeat : bool) (records : option string) : py (gset string) :=
  if allow_repeat then Ret ∅ else
  match records with
  | None => Ret ∅
  | Some content =>
      let? strs := pymap get_measured_str_from_line (nonempty_lines content) in
      Ret (list_to_set strs)
  end.

(** The loop of [update_measured_set] over the new lines. *)
Fixpoint update_measured_set (lines : list string) (measured_set : gset string) (commit_records : list string) :
    py (gset string * list string) :=
  match lines with
  | [] => Ret (measured_set, commit_records)
  | line :: lines' =>
      let? measured_str := get_measured_str_from_line line in
      if bool_decide (measured_str ∈ measured_set) then update_measured_set lines' measured_set commit_records
      else update_measured_set lines' ({[measured_str]} ∪ measured_set) (commit_records ++ [line])
  end.

(** The [while retry_i < 5] loop; [retries] rounds are left and [n] are done. *)
Fixpoint gen_rounds (retries n : nat) (keep_cnt : Z) (measured_set : gset string)
    (commit_records : list string) (commit_idx : nat) : py (list string) :=
  match retries with
  | O => Ret commit_records
  | S retries' =>
      let lines := drop commit_idx (nonempty_lines (commit n)) in
      let? (measured_set, commit_records) := update_measured_set lines measured_set commit_records in
      if bool_decide (keep_cnt ≤ zlen commit_records)%Z then Ret commit_records
      else gen_rounds retries' (S n) keep_cnt measured_set commit_records (commit_idx + length lines)
  end.

(** The records [worker] saves for a task. *)
Definition gen_task (allow_repeat : bool) (records : option string) (keep_cnt : Z) : py (list string) :=
  let? measured_set := get_measured_set allow_repeat records in
  let? commit_records := gen_rounds 5 0 keep_cnt measured_set [] 0 in
  if bool_decide (keep_cnt < zlen commit_records)%Z then sample commit_records keep_cnt
  else Ret commit_records.
End Generate.

(** The prompts of every process of [main]: three processes for each GPU share the
    tasks. *)
Definition gen_shares {A} (hash : A → string) (num_gpus : Z) (lines : list A) :
    py (list (list (string * list A))) := parts (num_gpus * 3) (group_by hash lines).

(** ** Measurement (measure_programs.py) *)

Section Measure.
(** The candidates, their results and the error of a result; what a batch given to
    builder and runner returns. *)
Context {Record_ Result : Type} (error_msg : Result → option string) (measure : list Record_ → list Result).

(** [measure_candidates]: the records committed with their results, and the indexes
    of the failures. *)
Definition measure_candidates (batch_size : Z) (tuning_records : list Record_) :
    py (list (Record_ * Result) * list nat) :=
  if decide (tuning_records = []) then Ret ([], []) else
  let? bs := batches batch_size tuning_records in
  let runner_results := concat (measure <$> bs) in
  let measured := imap (λ i rr, (i, rr)) (zip tuning_records runner_results) in
  Ret ((filter (λ m, error_msg m.2.2 = None) measured).*2,
       (filter (λ m, error_msg m.2.2 ≠ None) measured).*1).
End Measure.

(** [main] measures a database unless its results hold a record already; the
    argument is the content of the file of results, if there is one. *)
Definition to_be_measured (records : option string) : bool :=
  match records with
  | None => true
  | Some content => bool_decide (nonempty_lines content = [])
  end.

(** ** Collection (meta_postprocess.py) *)

(** A database: its path and the contents of its two files. *)
Record database := mkDb { db_dir : string; db_workload : option string; db_records : option string }.

(** The loop of [main] over the databases, in [database_dic]. *)
Definition collect_database (database_dic : list (string * (string * string))) (d : database) :
    list (string * (string * string)) :=
  match db_workload d, db_records d with
  | Some workload_str, Some records_str =>
      let task_name := basename (db_dir d) in
      match od_get database_dic task_name with
      | None => od_set database_dic task_name (workload_str, records_str)
      | Some (w, r) => od_set database_dic task_name (w, r +:+ records_str)
      end
  | _, _ => database_dic
  end.

(** [main]: the records folder, emptied before, by task; a database for each. *)
Definition meta_postprocess (dirs : list (list database)) : list (string * (string * string)) :=
  foldl collect_database [] (concat dirs).

(** ** The choice of tasks (meta_common.py, meta_task_sheduler.py) *)

Section Scheduler.
Context (loads : string → py json).

(** The mean run time of a record. *)
Definition record_latency (line : string) : py flt :=
  let? json_line := loads line in
  let? record := jidx 1 json_line in
  let? run_secs := jidx 1 record in
  let? l := as_arr run_secs in
  let? secs := pymap as_float l in
  py_mean secs.

(** [get_jsondatabase_top1]. *)
Definition get_jsondatabase_top1 (records : option string) : py (flt * Z) :=
  match records with
  | None => Ret (f_1e10, 0%Z)
  | Some content =>
      let lines := nonempty_lines content in
      let? latencies := pymap record_latency lines in
      Ret (foldl fmin f_1e10 latencies, zlen lines)
  end.

(** One database in the loop of [read_fine_tuning_dir]. *)
Definition dir_latency_add (d : list (string * (flt * Z))) (work_dir : string) (top : flt * Z) :
    list (string * (flt * Z)) :=
  let '(min_latency, times) := top in
  let hash_taskname := basename work_dir in
  let d := if od_mem d hash_taskname then d else od_set d hash_taskname (f_1e10, 0%Z) in
  if bool_decide (times = 0)%Z then d else
  let '(lat, n) := default (f_1e10, 0%Z) (od_get d hash_taskname) in
  od_set d hash_taskname (fmin lat min_latency, (n + times)%Z).

Definition read_fine_tuning_dir (database_dirs : list (string * option string)) : py (list (string * (flt * Z))) :=
  let? tops := pymap (λ '(work_dir, records),
    let? top := get_jsondatabase_top1 records in Ret (work_dir, top)) database_dirs in
  Ret (foldl (λ d '(work_dir, top), dir_latency_add d work_dir top) [] tops).

(** [meta_task_sheduler.main] from the databases of every round and the names and
    weights of the tasks of the networks: the history of a task is divided into
    windows and scored as in src/gen, and a task is saved by its own name. *)
Definition meta_task_sheduler (rounds : list (list (string * option string)))
    (networks : list (list (string * Z))) : py (list string) :=
  let? ds := pymap read_fine_tuning_dir rounds in
  let '(best_history, times_dic) := foldl add_round ([], []) ds in
  let? models := pymap (model_tasks best_history times_dic) networks in
  (schedule_models (λ key, key) models [] best_history).1.
End Scheduler.

(** [find_potential_dirs], which removes the saved set it reads, and
    [find_potential_dirs_len], which does not; the state is the saved file. *)
Definition find_potential_dirs (files : list string) : ST (option (list string)) (list string) :=
  let! saved := sget in
  match saved with
  | None => sraise IOError
  | Some key_str_set =>
      let! _ := sput None in
      sret (filter (λ file, basename file ∈ key_str_set) files)
  end.

Definition find_potential_dirs_len : ST (option (list string)) Z :=
  let! saved := sget in
  match saved with
  | None => sraise IOError
  | Some key_str_set => sret (zlen key_str_set)
  end.
