(* ===== verification/MetaMeasureSpec.v ===== *)
(** * Properties of generation, measurement and collection

    What is saved of the records the model generates, what a measurement commits,
    and what the collected databases hold. *)

From S2P Require Import Prelude PyFloat PyText Corpus Measure MeasureSpec Campaign MetaCorpus MetaMeasure.

(** ** Records from the model *)

Section Generate.
Context (loads : string → py json) (dumps : json → string) (sample : list string → Z → py (list string))
  (commit : nat → string).

(** The measured part of a record line. *)
Definition measured_str (line : string) : option string :=
  match get_measured_str_from_line loads dumps line with Ret s => Some s | Raise _ => None end.

Abbreviation strs := (omap measured_str).

Lemma update_measured_set_spec lines : ∀ set recs set' recs',
  update_measured_set loads dumps lines set recs = Ret (set', recs') →
  ∃ new, recs' = recs ++ new ∧ new `sublist_of` lines ∧ NoDup (strs new) ∧
    (∀ s, s ∈ set' ↔ s ∈ set ∨ s ∈ strs new) ∧
    (∀ line, line ∈ new → ∃ s, measured_str line = Some s ∧ s ∉ set) ∧
    (∀ line, line ∈ lines → ∃ s, measured_str line = Some s ∧ s ∈ set').
Proof.
  induction lines as [|line lines IH]; intros set recs set' recs' Hu; simpl in Hu.
  { injection Hu as <- <-. exists []. rewrite app_nil_r. set_solver by constructor. }
  apply pbind_Ret in Hu as (s & Hs & Hu). assert (measured_str line = Some s) as Hm by (unfold measured_str; by rewrite Hs).
  case_bool_decide as Hin.
  - destruct (IH _ _ _ _ Hu) as (new & -> & Hsub & Hnd & Hset & Hnew & Hall). exists new.
    split; [done|]. split; [by apply sublist_cons|]. split; [done|]. split; [done|]. split; [done|].
    intros l [->|Hl]%elem_of_cons; [|by apply Hall]. exists s. split; [done|]. apply Hset. by left.
  - destruct (IH _ _ _ _ Hu) as (new & -> & Hsub & Hnd & Hset & Hnew & Hall). exists (line :: new).
    split; [by rewrite <-app_assoc|]. split; [by apply sublist_skip|]. csimpl. rewrite Hm. split.
    { constructor; [|done]. intros (l & Hl & Hls)%list_elem_of_omap.
      destruct (Hnew l Hl) as (s' & Hs' & Hn). set_solver. }
    split; [intros x; rewrite Hset; set_solver|]. split.
    + intros l [->|Hl]%elem_of_cons; [by exists s|]. destruct (Hnew l Hl) as (s' & ? & ?). exists s'. set_solver.
    + intros l [->|Hl]%elem_of_cons; [|by apply Hall]. exists s. split; [done|]. apply Hset. set_solver.
Qed.

(** The records of the rounds before [n] have been looked at; those that were new
    are kept. *)
Record gen_inv (M set : gset string) (recs : list string) (idx n : nat) : Prop := {
  gi_set s : s ∈ set ↔ s ∈ M ∨ s ∈ strs recs;
  gi_nodup : NoDup (strs recs);
  gi_new line : line ∈ recs → ∃ s, measured_str line = Some s ∧ s ∉ M;
  gi_from line : line ∈ recs → ∃ j, j < n ∧ line ∈ nonempty_lines (commit j);
  gi_idx : idx ≤ length (nonempty_lines (commit n));
  gi_seen line : line ∈ take idx (nonempty_lines (commit n)) → ∃ s, measured_str line = Some s ∧ s ∈ set
}.

Hypothesis (Hgrow : ∀ n, nonempty_lines (commit n) `prefix_of` nonempty_lines (commit (S n))).

Lemma commit_grows i j : i ≤ j → nonempty_lines (commit i) `prefix_of` nonempty_lines (commit j).
Proof. induction 1; [done|]. etrans; [done|apply Hgrow]. Qed.

(** A round takes up the lines that are new in the commit file. *)
Lemma gen_round_inv M set recs idx n set1 recs1 :
  gen_inv M set recs idx n →
  update_measured_set loads dumps (drop idx (nonempty_lines (commit n))) set recs = Ret (set1, recs1) →
  gen_inv M set1 recs1 (length (nonempty_lines (commit n))) (S n).
Proof.
  intros [Iset Ind Inew Ifrom Iidx Iseen] Hu.
  destruct (update_measured_set_spec _ _ _ _ _ Hu) as (new & -> & Hsub & Hnd & Hset & Hnew & Hall).
  assert (∀ line, line ∈ new → line ∈ nonempty_lines (commit n)) as Hnewin.
  { intros l Hl. eapply sublist_subseteq in Hl; [|exact Hsub]. eapply sublist_subseteq; [apply sublist_drop|done]. }
  split.
  - intros s. rewrite Hset, Iset, omap_app, elem_of_app. tauto.
  - rewrite omap_app. apply NoDup_app. split; [done|]. split; [|done].
    intros s Hs (l & Hl & Hls)%list_elem_of_omap. destruct (Hnew l Hl) as (s' & Hs' & Hn).
    simplify_eq. apply Hn, Iset. by right.
  - intros l [Hl|Hl]%elem_of_app; [by apply Inew|]. destruct (Hnew l Hl) as (s & ? & Hn). exists s.
    split; [done|]. intros Hs. apply Hn, Iset. by left.
  - intros l [Hl|Hl]%elem_of_app; [destruct (Ifrom l Hl) as (j & ? & ?); exists j; auto with lia|].
    exists n. split; [lia|by apply Hnewin].
  - by apply prefix_length.
  - intros l Hl. destruct (Hgrow n) as [k Hk]. rewrite Hk, take_app_length in Hl.
    rewrite <-(take_drop idx (nonempty_lines (commit n))), elem_of_app in Hl. destruct Hl as [Hl|Hl].
    + destruct (Iseen l Hl) as (s & ? & ?). exists s. split; [done|]. apply Hset. by left.
    + by apply Hall.
Qed.

Lemma gen_rounds_spec M retries keep_cnt : ∀ n set recs idx r,
  gen_inv M set recs idx n →
  gen_rounds loads dumps commit retries n keep_cnt set recs idx = Ret r →
  ∃ set' n' idx', gen_inv M set' r idx' n' ∧ n ≤ n' ≤ n + retries ∧
    (n' = n + retries ∨ (keep_cnt ≤ zlen r)%Z) ∧
    (n' = n → idx' = idx) ∧ (n < n' → idx' = length (nonempty_lines (commit (n' - 1)))).
Proof.
  induction retries as [|retries IH]; intros n set recs idx r Hinv Hr; simpl in Hr.
  { injection Hr as <-. exists set, n, idx. split; [done|]. split; [lia|]. split; [left; lia|]. split; [done|lia]. }
  apply pbind_Ret in Hr as ([set1 recs1] & Hu & Hr).
  pose proof (gen_round_inv _ _ _ _ _ _ _ Hinv Hu) as Hinv'. case_bool_decide as Hk.
  { injection Hr as <-. exists set1, (S n), (length (nonempty_lines (commit n))).
    split; [done|]. split; [lia|]. split; [by right|]. split; [lia|]. intros _. do 3 f_equal. lia. }
  assert (idx + length (drop idx (nonempty_lines (commit n))) = length (nonempty_lines (commit n))) as Hidx.
  { pose proof (gi_idx _ _ _ _ _ Hinv). rewrite length_drop. lia. }
  rewrite Hidx in Hr. destruct (IH _ _ _ _ _ Hinv' Hr) as (set' & n' & idx' & Hfin & Hn & Hor & Hfirst & Hlast).
  exists set', n', idx'. split; [done|]. split; [lia|]. split; [destruct Hor; [left; lia|by right]|].
  split; [lia|]. intros _. destruct (decide (n' = S n)) as [->|Hne]; [|apply Hlast; lia].
  rewrite Hfirst by done. do 3 f_equal. lia.
Qed.

(** The records collected before, without their run times. *)
Definition collected (records : option string) : list string :=
  from_option (λ content, strs (nonempty_lines content)) [] records.

Lemma get_measured_set_spec allow_repeat records M :
  get_measured_set loads dumps allow_repeat records = Ret M →
  ∀ s, s ∈ M ↔ allow_repeat = false ∧ s ∈ collected records.
Proof.
  unfold get_measured_set, collected. destruct allow_repeat; [intros [= <-] s; set_solver|].
  destruct records as [content|]; [|intros [= <-] s; set_solver]. simpl.
  intros (ms & Hms & [= <-])%pbind_Ret s. rewrite elem_of_list_to_set.
  assert (strs (nonempty_lines content) = ms) as ->; [|naive_solver].
  apply pymap_Ret in Hms. induction Hms as [|line m lines ms Hm _ IH]; [done|]. csimpl.
  unfold measured_str at 1. by rewrite Hm, IH.
Qed.

(** C37: the records saved for a task are at most [keep_cnt] of the records that
    the engine commits in at most five rounds, all different apart from their run
    times (the engine only appends to its records, and [random.sample] returns as many
    of them as asked for, each at most once); unless repeats are allowed, none of them
    is among the records collected before.  When fewer are saved, every committed record is saved or, where
    repeats are not allowed, collected already. *)
Theorem gen_task_spec allow_repeat records keep_cnt l :
  (0 ≤ keep_cnt)%Z →
  (∀ k, (0 ≤ k)%Z → ∀ p s, sample p k = Ret s → zlen s = k ∧ s ⊆+ p) →
  gen_task loads dumps sample commit allow_repeat records keep_cnt = Ret l →
  NoDup (strs l) ∧ (zlen l ≤ keep_cnt)%Z ∧
  (∀ line, line ∈ l → line ∈ nonempty_lines (commit 4) ∧
     ∃ s, measured_str line = Some s ∧ (allow_repeat = false → s ∉ collected records)) ∧
  ((zlen l < keep_cnt)%Z → ∀ line, line ∈ nonempty_lines (commit 4) →
     ∃ s, measured_str line = Some s ∧ (allow_repeat = false ∧ s ∈ collected records ∨ s ∈ strs l)).
Proof.
  intros Hkeep Hsample Hl. unfold gen_task in Hl. apply pbind_Ret in Hl as (M & HM & Hl).
  pose proof (get_measured_set_spec _ _ _ HM) as Hmem.
  apply pbind_Ret in Hl as (r & Hr & Hl).
  destruct (gen_rounds_spec M 5 keep_cnt 0 M [] 0 r) as (set' & n' & idx' & Hinv & Hn & Hor & _ & Hlast); [|done|].
  { split; try done; [set_solver|constructor|by intros ? ?%elem_of_nil|by intros ? ?%elem_of_nil|lia|].
    intros line. rewrite take_0. by intros ?%elem_of_nil. }
  destruct Hinv as [Iset Ind Inew Ifrom Iidx Iseen].
  assert (l ⊆+ r ∧ (zlen l ≤ keep_cnt)%Z ∧ ((zlen l < keep_cnt)%Z → l = r)) as (Hsub & Hlen & Hall).
  { case_bool_decide as Hc.
    - destruct (Hsample keep_cnt Hkeep r l Hl) as [Hs ?]. split; [done|]. split; lia.
    - injection Hl as <-. split; [done|]. split; [lia|done]. }
  split; [|split; [done|split]].
  - destruct (submseteq_Permutation _ _ Hsub) as [k Hk].
    assert (strs r ≡ₚ strs (l ++ k)) as Hp by (by rewrite Hk).
    rewrite Hp, omap_app in Ind. by apply NoDup_app in Ind as [? _].
  - intros line Hline. assert (line ∈ r) as Hr' by (by eapply elem_of_submseteq).
    split; [|destruct (Inew line Hr') as (s & ? & Hnot); exists s; split; [done|]; intros ? ?; apply Hnot; by apply Hmem].
    destruct (Ifrom line Hr') as (j & Hj & Hin).
    destruct (commit_grows j 4) as [k Hk]; [lia|]. rewrite Hk. set_solver.
  - intros Hlt line Hline. pose proof (Hall Hlt) as ->. destruct Hor as [->|Hge]; [|lia].
    destruct (Iseen line) as (s & Hs & Hin).
    { rewrite (Hlast ltac:(lia)). destruct (commit_grows 4 5) as [k Hk]; [lia|]. simpl.
      by rewrite Hk, take_app_length. }
    exists s. split; [done|]. apply Iset in Hin as [?%Hmem|?]; [by left|by right].
Qed.
End Generate.

(** ** Measurement *)

Section Measure.
Context {Record_ Result : Type} (error_msg : Result → option string) (measure : list Record_ → list Result).

Lemma concat_same_length (bs : list (list Record_)) :
  (∀ b, length (measure b) = length b) → length (concat (measure <$> bs)) = length (concat bs).
Proof. intros Hm. induction bs as [|b bs IH]; [done|]. csimpl. by rewrite !length_app, Hm, IH. Qed.

Lemma numbered_filter {A} (P : A → Prop) `{∀ x, Decision (P x)} (l : list A) : ∀ k,
  (filter (λ m : nat * A, P m.2) (imap (λ i x, (k + i, x)) l)).*2 = filter P l.
Proof.
  induction l as [|x l IH]; intros k; [done|].
  assert (imap (λ i x, (k + i, x)) (x :: l) = (k, x) :: imap (λ i x, (S k + i, x)) l) as ->.
  { simpl. f_equal; [f_equal; lia|]. apply imap_ext. intros i y _. simpl. f_equal. lia. }
  specialize (IH (S k)). rewrite !filter_cons. csimpl. csimpl in IH. case_decide; csimpl; by rewrite IH.
Qed.

(** When the runner returns a result for every candidate of a batch, every record
    of the database has a result; the records that ran are committed in their
    order with their results, and the saved indexes are those of the others. *)
Theorem measure_candidates_spec batch_size tuning_records :
  (0 < batch_size)%Z → (∀ b, length (measure b) = length b) →
  ∃ results committed fails,
    measure_candidates error_msg measure batch_size tuning_records = Ret (committed, fails) ∧
    length results = length tuning_records ∧
    committed = filter (λ rr, error_msg rr.2 = None) (zip tuning_records results) ∧
    ∀ i, i ∈ fails ↔ ∃ r e, results !! i = Some r ∧ error_msg r = Some e.
Proof.
  intros Hb Hm. unfold measure_candidates. case_decide as Hnil.
  { subst. exists [], [], []. split; [done|]. split; [done|]. split; [done|].
    intros i. split; [by intros ?%elem_of_nil|]. intros (r & e & Hr & _). done. }
  destruct (batches_spec batch_size tuning_records Hb) as (bs & -> & Hbs & _). cbn [pbind].
  set (results := concat (measure <$> bs)).
  assert (length results = length tuning_records) as Hlen by (unfold results; by rewrite concat_same_length, Hbs).
  eexists results, _, _. split; [done|]. split; [done|]. split.
  - pose proof (numbered_filter (λ rr : Record_ * Result, error_msg rr.2 = None) (zip tuning_records results) 0) as E.
    cbn [Nat.add] in E. exact E.
  - intros i. rewrite list_elem_of_fmap. split.
    + intros ([j [r x]] & -> & [Hx Hin]%list_elem_of_filter). simpl in *.
      apply elem_of_lookup_imap_1 in Hin as (j' & [r' x'] & Heq & Hj). simplify_eq.
      apply lookup_zip_with_Some in Hj as (? & x1 & Heq & _ & Hj). simplify_eq.
      destruct (error_msg x1) as [e|] eqn:He; [|done]. exists x1, e. done.
    + intros (x & e & Hx & He). destruct (lookup_lt_is_Some_2 tuning_records i) as [r Hr].
      { rewrite <-Hlen. by eapply lookup_lt_Some. }
      exists (i, (r, x)). split; [done|]. apply list_elem_of_filter. simpl. split; [congruence|].
      apply elem_of_lookup_imap. exists i, (r, x). split; [done|].
      apply lookup_zip_with_Some. by exists r, x.
Qed.
End Measure.

(** ** Collection *)

(** The contents of the complete databases of a task, in the order of the rounds. *)
Definition contents_of (task : string) (dbs : list database) : list (string * string) :=
  omap (λ d, match db_workload d, db_records d with
             | Some w, Some r => if decide (basename (db_dir d) = task) then Some (w, r) else None
             | _, _ => None
             end) dbs.

Definition texts (l : list string) : string := foldr String.append EmptyString l.

Lemma texts_app l k : texts (l ++ k) = texts l +:+ texts k.
Proof. induction l as [|x l IH]; [done|]. simpl. rewrite IH. apply append_assoc. Qed.

Lemma texts_one r : texts [r] = r.
Proof. unfold texts. cbn [foldr]. induction r as [|c r IH]; [done|]. change (String c (r +:+ "") = String c r). by f_equal. Qed.

(** The collected records folder has one database for every task with a complete
    database in some round: the workload of the first one, and the records of all of
    them, one after the other. *)
Theorem meta_postprocess_spec dirs :
  NoDup (od_keys (meta_postprocess dirs)) ∧
  ∀ task, od_get (meta_postprocess dirs) task =
    match contents_of task (concat dirs) with
    | [] => None
    | (w, r) :: rest => Some (w, texts (r :: rest.*2))
    end.
Proof.
  unfold meta_postprocess. generalize (concat dirs) as dbs. intros dbs.
  assert (∀ pre dic, NoDup (od_keys dic) →
    (∀ task, od_get dic task = match contents_of task pre with
      | [] => None | (w, r) :: rest => Some (w, texts (r :: rest.*2)) end) →
    NoDup (od_keys (foldl collect_database dic dbs)) ∧
    ∀ task, od_get (foldl collect_database dic dbs) task = match contents_of task (pre ++ dbs) with
      | [] => None | (w, r) :: rest => Some (w, texts (r :: rest.*2)) end) as Hgen.
  { induction dbs as [|d dbs IH]; intros pre dic Hnd Hdic; [by rewrite app_nil_r|]. simpl.
    change (d :: dbs) with ([d] ++ dbs). rewrite app_assoc. apply IH.
    - unfold collect_database. destruct (db_workload d), (db_records d); try done.
      destruct (od_get dic _) as [[w r]|]; by apply od_set_NoDup.
    - intros task. unfold contents_of at 1. rewrite omap_app. fold (contents_of task pre). csimpl.
      unfold collect_database. destruct (db_workload d) as [w|]; [|by rewrite app_nil_r].
      destruct (db_records d) as [r|]; [|by rewrite app_nil_r].
      set (name := basename (db_dir d)). case_decide as Ht.
      + subst task. specialize (Hdic name). destruct (contents_of name pre) as [|[w0 r0] rest]; rewrite Hdic.
        * rewrite od_get_set_eq. change (Some (w, r) = Some (w, texts [r])). by rewrite texts_one.
        * rewrite od_get_set_eq. cbn [app]. rewrite fmap_app.
          change (Some (w0, texts (r0 :: rest.*2) +:+ r) = Some (w0, texts ((r0 :: rest.*2) ++ [r]))).
          by rewrite texts_app, texts_one.
      + rewrite app_nil_r, <-Hdic. destruct (od_get dic name) as [[w0 r0]|]; by apply od_get_set_ne. }
  apply (Hgen [] []); [constructor|done].
Qed.
