(* ===== verification/MetaFarm.v ===== *)
(** * The measurement farm of the MetaSchedule pipeline

    The processes of run_measure.py as a transition system on the directories they
    share.  A lock orders the divider, the choice of a part by a worker and the
    merge, so each of these is one action; the other steps of the workers are
    actions of their own.  The script is not killed within one of these three:
    a restart in the middle of the loops of [divide_worker] or of a merge is
    not modelled.
    Sources: src/meta/run_measure.py, with the loop over the databases of
    src/meta/measure_programs.py. *)

From S2P Require Import Prelude PyFloat PyText Corpus Measure MetaCorpus MetaMeasure.

Definition meta_n_part : Z := 12.

(** The pattern [*_part_*], and the directories [divide_worker] divides. *)
Definition is_part (name : string) : bool := str_contains "_part_" name.
Definition to_divide (name : string) : bool := negb (is_part name) && negb (str_contains "zip" name).

Section Farm.
(** What a measurement of a database yields, and whether it holds records. *)
Context {C R : Type} (measure : C → R) (has_records : R → bool).

(** A directory of databases, by their names. *)
Abbreviation cdir := (list (string * C)).
Abbreviation rdir := (list (string * R)).

(** Where a worker is: waiting; with a part moved to its directory; in the process that
    measures it, with the databases left; after it; after the [rm] of the part. *)
Inductive worker_pc :=
  | Idle
  | Taken (part : string)
  | Measuring (part : string) (rest : cdir)
  | Finished (part : string)
  | Removed (part : string).

(** The directories below measure_data; [to_measure_gpu] holds the directories
    [to_measure_{gpu_id}], [merger] the listing of the merger's round and the names left. *)
Record farm := mkFarm {
  to_measure : list (string * cdir);
  to_measure_bak : list (string * cdir);
  to_measure_gpu : list ((nat * string) * cdir);
  measured_tmp : list (string * rdir);
  measured_part : list (string * rdir);
  measured : list (string * rdir);
  workers : list worker_pc;
  merger : list string * list string
}.

Definition farm_init (dirs : list (string * cdir)) (n : nat) : farm :=
  mkFarm dirs [] [] [] [] [] (replicate n Idle) ([], []).

(** ** The divider *)

(** The names of the parts of a directory. *)
Definition part_names (dir : string) : list string := part_name dir <$> range 0 meta_n_part.

Definition divide_dir (dir : string) (tasks : cdir) : py (list (string * cdir)) :=
  let? ps := parts meta_n_part tasks in
  Ret (zip (part_names dir) ps).

(** The body of the lock in [divide_worker]; [os.makedirs] raises for a part that
    exists, which ends the process. *)
Definition divide (w : farm) : option farm :=
  let '(mkFarm dirs bak gpu tmp part done ws mg) := w in
  match head (sort_strings (filter (λ x, to_divide x = true) (od_keys dirs))) with
  | None => None
  | Some dir =>
      match od_get dirs dir, divide_dir dir (default [] (od_get dirs dir)) with
      | Some tasks, Ret ps =>
          if bool_decide (Forall (λ p, p ∉ od_keys dirs) ps.*1) then
            Some (mkFarm (od_del dirs dir ++ ps) (od_set bak dir tasks) gpu tmp part done ws mg)
          else None
      | _, _ => None
      end
  end.

(** ** The merger *)

Definition merge_dir_list (part_0 : string) : list string :=
  part_0 :: ((λ i, drop_last 1 part_0 +:+ pretty i) <$> range 1 meta_n_part).

(** An iteration of [merge_worker] for a part of the listing. *)
Definition merge_visit (listing : list string) (part_0 : string) (w : farm) : option farm :=
  let '(mkFarm dirs bak gpu tmp part done ws mg) := w in
  if str_contains "_part_0" part_0 then
    let merged := merge_dir_list part_0 in
    if forallb (λ p, bool_decide (p ∈ listing)) (tail merged) then
      let tasks := concat ((λ p, default [] (od_get part p)) <$> merged) in
      let dir := drop_last 7 part_0 in
      if bool_decide (tasks = []) then None
      else Some (mkFarm dirs bak gpu tmp (foldl od_del part merged) (od_set done dir tasks) ws mg)
    else Some w
  else Some w.

(** ** Actions *)

Inductive action :=
  | Divide
  | Take (g : nat) | Start (g : nat) | Step (g : nat) | End (g : nat) | Crash (g : nat)
  | Remove (g : nat) | Deliver (g : nat)
  | Glob | Visit
  | Restart.

Definition set_worker (g : nat) (pc : worker_pc) (w : farm) : farm :=
  mkFarm (to_measure w) (to_measure_bak w) (to_measure_gpu w) (measured_tmp w) (measured_part w) (measured w)
    (<[g := pc]> (workers w)) (merger w).

(** The result of a database after the process has come to it: it is measured unless its
    results hold records. *)
Definition measure_db (db : string * C) (results : rdir) : rdir :=
  match od_get results db.1 with
  | Some r => if has_records r then results else od_set results db.1 (measure db.2)
  | None => od_set results db.1 (measure db.2)
  end.

(** An action of worker [g]; [None] where it is not at that point. *)
Definition worker_act (a : action) (g : nat) (pc : worker_pc) (w : farm) : option farm :=
  let '(mkFarm dirs bak gpu tmp part done ws mg) := w in
  match a, pc with
  | Take _, Idle =>
      match head (sort_strings (filter (λ x, is_part x = true) (od_keys dirs))) with
      | Some p =>
          match od_get dirs p with
          | Some tasks =>
              Some (set_worker g (Taken p) (mkFarm (od_del dirs p) bak (od_set gpu (g, p) tasks) tmp part done ws mg))
          | None => None
          end
      | None => None
      end
  | Start _, Taken p =>
      let tasks := default [] (od_get gpu (g, p)) in
      Some (set_worker g (Measuring p tasks)
        (mkFarm dirs bak gpu (if od_mem tmp p then tmp else od_set tmp p []) part done ws mg))
  | Step _, Measuring p (db :: rest) =>
      Some (set_worker g (Measuring p rest)
        (mkFarm dirs bak gpu (od_set tmp p (measure_db db (default [] (od_get tmp p)))) part done ws mg))
  | End _, Measuring p [] => Some (set_worker g (Finished p) w)
  | Crash _, Taken p | Crash _, Measuring p _ => Some (set_worker g (Finished p) w)
  | Remove _, Finished p =>
      Some (set_worker g (Removed p) (mkFarm dirs bak (od_del gpu (g, p)) tmp part done ws mg))
  | Deliver _, Removed p =>
      match od_get tmp p with
      | Some r => Some (set_worker g Idle (mkFarm dirs bak gpu (od_del tmp p) (od_set part p r) done ws mg))
      | None => Some (set_worker g Idle w)
      end
  | _, _ => None
  end.

(** An action of any process; [None] where it is not enabled. *)
Definition perform (a : action) (w : farm) : option farm :=
  match a with
  | Divide => divide w
  | Take g | Start g | Step g | End g | Crash g | Remove g | Deliver g =>
      match workers w !! g with Some pc => worker_act a g pc w | None => None end
  | Glob =>
      match merger w with
      | (_, []) =>
          let l := od_keys (measured_part w) in
          Some (mkFarm (to_measure w) (to_measure_bak w) (to_measure_gpu w) (measured_tmp w) (measured_part w)
                  (measured w) (workers w) (l, l))
      | _ => None
      end
  | Visit =>
      match merger w with
      | (listing, part_0 :: rest) =>
          merge_visit listing part_0
            (mkFarm (to_measure w) (to_measure_bak w) (to_measure_gpu w) (measured_tmp w) (measured_part w)
               (measured w) (workers w) (listing, rest))
      | _ => None
      end
  | Restart =>
      Some (mkFarm (foldl (λ d '((_, p), tasks), od_set d p tasks) (to_measure w) (to_measure_gpu w))
              (to_measure_bak w) [] (measured_tmp w) (measured_part w) (measured w)
              (replicate (length (workers w)) Idle) ([], []))
  end.

(** A step of the farm, and the run of a schedule; [None] at an action that is not
    enabled. *)
Definition farm_step (w w' : farm) : Prop := ∃ a, perform a w = Some w'.

Fixpoint run_actions (acts : list action) (w : farm) : option farm :=
  match acts with
  | [] => Some w
  | a :: acts' => match perform a w with Some w' => run_actions acts' w' | None => None end
  end.

(** The steps at which the script loses nothing: no measuring process ends before it has
    made the directory of its results, and the script is not restarted while a worker is
    between its [rm] and its last [mv]. *)
Definition careful (a : action) (w : farm) : bool :=
  match a with
  | Crash g => match workers w !! g with Some (Taken _) => false | _ => true end
  | Restart => forallb (λ pc, match pc with Removed _ => false | _ => true end) (workers w)
  | _ => true
  end.

(** A schedule of such steps. *)
Fixpoint careful_run (acts : list action) (w : farm) : bool :=
  match acts with
  | [] => true
  | a :: acts' => careful a w && match perform a w with Some w' => careful_run acts' w' | None => true end
  end.
End Farm.
Arguments Idle {C}.
Arguments Taken {C} part.
Arguments Measuring {C} part rest.
Arguments Finished {C} part.
Arguments Removed {C} part.
Arguments farm_init {C R} dirs n.
Arguments mkFarm {C R}.
#[global] Arguments part_names dir : simpl never.
#[global] Arguments merge_dir_list part_0 : simpl never.
#[global] Arguments part_name file i : simpl never.
#[global] Arguments merge_visit {C R} listing part_0 w : simpl never.
#[global] Arguments divide {C R} w : simpl never.
#[global] Arguments divide_dir {C} dir tasks : simpl never.
