(* ===== verification/MetaFarmSpec.v ===== *)
(** * The measurement farm of the MetaSchedule pipeline: nothing is lost *)

From S2P Require Import Prelude PyFloat PyText Corpus Measure MeasureSpec Farm FarmSpec MetaCorpus MetaMeasure.
From S2P Require Import MetaFarm.

(** ** Names *)

Lemma append_inj_l s t u : s +:+ u = t +:+ u → s = t.
Proof. intros H. rewrite <-(drop_last_app s u), H. apply drop_last_app. Qed.

Lemma pretty_part_clean i : (0 ≤ i < meta_n_part)%Z → str_mem "_" (pretty i) = false.
Proof.
  unfold meta_n_part. intros Hi. assert (i ∈ range 0 12) as Hin by (apply elem_of_range; lia).
  revert Hin. change (range 0 12) with [0; 1; 2; 3; 4; 5; 6; 7; 8; 9; 10; 11]%Z. intros Hin.
  repeat (apply elem_of_cons in Hin as [->|Hin]; [reflexivity|]). by apply elem_of_nil in Hin.
Qed.

Lemma meta_part_name_inj f g i j :
  (0 ≤ i < meta_n_part)%Z → (0 ≤ j < meta_n_part)%Z → part_name f i = part_name g j → f = g ∧ i = j.
Proof.
  intros Hi Hj H. assert (∀ f i, (0 ≤ i < meta_n_part)%Z → rsplit1 "_" (part_name f i) = Some (f +:+ "_part", pretty i)) as Hsp.
  { clear. intros f i Hi. unfold part_name.
    assert (f +:+ ("_part_" +:+ pretty i) = (f +:+ "_part") +:+ String "_" (pretty i)) as -> by (by rewrite <-append_assoc).
    by rewrite rsplit1_app by (by apply pretty_part_clean). }
  pose proof (Hsp f i Hi) as H1. rewrite H, (Hsp g j Hj) in H1. apply (inj Some), pair_eq in H1 as [H1 H2].
  split; [by apply append_inj_l in H1|by apply (inj pretty) in H2].
Qed.

Lemma is_part_part_name f i : MetaFarm.is_part (part_name f i) = true.
Proof. apply str_contains_spec. by exists f, (pretty i). Qed.

Lemma drop_last_part_0 f : drop_last 7 (part_name f 0) = f.
Proof. apply (drop_last_app f "_part_0"). Qed.

Lemma merge_dir_list_part_0 f : merge_dir_list (part_name f 0) = part_names f.
Proof.
  unfold merge_dir_list, part_names.
  assert (drop_last 1 (part_name f 0) = f +:+ "_part_") as ->.
  { unfold part_name. change (pretty 0%Z) with "0". rewrite append_assoc. apply (drop_last_app _ "0"). }
  change (range 0 meta_n_part) with (0%Z :: range 1 meta_n_part). rewrite fmap_cons. f_equal.
  apply list_fmap_ext. intros i x _. symmetry. apply append_assoc.
Qed.

(** Only the part 0 of a directory is taken for one. *)
Lemma meta_contains_part_i f i :
  MetaFarm.is_part f = false → (1 ≤ i < meta_n_part)%Z → str_contains "_part_0" (part_name f i) = false.
Proof.
  intros Hf Hi. assert (str_contains "_part_0" f = false) as H0.
  { apply not_true_iff_false. intros (a & b & ->)%str_contains_spec. apply not_true_iff_false in Hf. apply Hf.
    apply str_contains_spec. by exists a, ("0" +:+ b). }
  destruct (decide (i = 10)%Z) as [->|Hne].
  - apply not_true_iff_false. intros (a & b & H)%str_contains_spec.
    assert (part_name f 10 = (f +:+ "_part_1") +:+ "0") as E by (unfold part_name; by rewrite <-append_assoc).
    rewrite E in H. clear E. destruct (decide (b = "")) as [->|Hb].
    + assert (f +:+ "_part_1" = a +:+ "_part_") as H1.
      { apply (append_inj_l _ _ "0"). rewrite H. by rewrite <-append_assoc. }
      pose proof (last_char (f +:+ "_part_") (a +:+ "_part") "1" "_") as Hl. rewrite <-!append_assoc in Hl.
      by specialize (Hl H1).
    + assert (∃ b' c, b = b' +:+ String c "") as (b' & c & ->).
      { clear -Hb. induction b as [|x b IH]; [done|]. destruct b as [|y b]; [by exists "", x|].
        destruct IH as (b' & c & ->); [done|]. by exists (String x b'), c. }
      assert ((f +:+ "_part_1") +:+ "0" = (a +:+ ("_part_0" +:+ b')) +:+ String c "") as H'.
      { rewrite H. by rewrite <-!append_assoc. }
      pose proof (last_char _ _ _ _ H') as <-. apply append_inj_l in H'.
      assert (str_contains "_part_0" (f +:+ "_part_1") = false) as Hc by (apply (str_contains_app "_part_" "0"); done).
      apply not_true_iff_false in Hc. apply Hc, str_contains_spec. by exists a, b'.
  - apply (str_contains_app "_part_" "0"); [|done]. unfold meta_n_part in Hi.
    assert (i ∈ [1; 2; 3; 4; 5; 6; 7; 8; 9; 11]%Z) as Hin by (rewrite !elem_of_cons; lia).
    repeat (apply elem_of_cons in Hin as [->|Hin]; [reflexivity|]). by apply elem_of_nil in Hin.
Qed.

(** ** The account of the parts *)

Section Spec.
Context {C R : Type} (measure : C → R) (has_records : R → bool).
Abbreviation cdir := (list (string * C)).
Abbreviation rdir := (list (string * R)).
Abbreviation farm := (@farm C R).
Abbreviation pc_t := (@worker_pc C).

(** The directories submitted; [full] says that no measuring process crashes, [lossy]
    that steps that are not [careful] are allowed. *)
Context (dirs0 : list (string * cdir)) (full lossy : bool).
Hypothesis (dirs_nodup : NoDup dirs0.*1).
Hypothesis (dirs_names : ∀ f, f ∈ dirs0.*1 → MetaFarm.is_part f = false).
Hypothesis (dbs_nodup : ∀ f tasks, (f, tasks) ∈ dirs0 → NoDup tasks.*1).

Definition file_parts (d : string * cdir) : list (string * cdir) :=
  match divide_dir d.1 d.2 with Ret l => l | Raise _ => [] end.
Definition all_parts : list (string * cdir) := concat (file_parts <$> dirs0).
Definition all_names : list string := concat (part_names <$> dirs0.*1).

Lemma meta_file_parts_spec d : ∃ ps, file_parts d = zip (part_names d.1) ps ∧ divide_dir d.1 d.2 = Ret (file_parts d) ∧
  length ps = length (part_names d.1) ∧ concat ps = d.2.
Proof.
  unfold file_parts, divide_dir. destruct (parts_concat meta_n_part d.2) as (ps & -> & Hc & Hl & _); [done|].
  exists ps. split; [done|]. split; [done|]. split; [|done]. unfold part_names. rewrite length_fmap.
  unfold zlen in Hl. change (length (range 0 meta_n_part)) with 12. unfold meta_n_part in Hl. lia.
Qed.

Lemma meta_file_parts_names d : (file_parts d).*1 = part_names d.1.
Proof. destruct (meta_file_parts_spec d) as (ps & -> & _ & Hl & _). apply fst_zip. lia. Qed.

Lemma file_parts_tasks d : concat (file_parts d).*2 = d.2.
Proof. destruct (meta_file_parts_spec d) as (ps & -> & _ & Hl & <-). f_equal. apply snd_zip. lia. Qed.

Lemma parts_names (l : list (string * cdir)) : (concat (file_parts <$> l)).*1 = concat (part_names <$> l.*1).
Proof.
  induction l as [|d l IH]; [done|]. rewrite !fmap_cons. cbn [concat].
  rewrite fmap_app, meta_file_parts_names. by f_equal.
Qed.

Lemma all_parts_names : all_parts.*1 = all_names.
Proof. apply parts_names. Qed.

Lemma elem_part_names f p : p ∈ part_names f ↔ ∃ i, (0 ≤ i < meta_n_part)%Z ∧ p = part_name f i.
Proof.
  unfold part_names. rewrite list_elem_of_fmap. split; intros (i & H1 & H2); exists i; split; try done.
  - by apply elem_of_range.
  - by apply elem_of_range.
Qed.

Lemma part_names_nodup f : NoDup (part_names f).
Proof.
  apply NoDup_fmap_2_strong; [|apply NoDup_seqZ].
  intros i j Hi Hj H. apply elem_of_range in Hi, Hj. by apply meta_part_name_inj in H as [_ ?].
Qed.

Lemma part_names_disjoint f g p : p ∈ part_names f → p ∈ part_names g → f = g.
Proof.
  intros (i & Hi & ->)%elem_part_names (j & Hj & H)%elem_part_names. by apply meta_part_name_inj in H as [? _].
Qed.

Lemma names_nodup (l : list string) : NoDup l → NoDup (concat (part_names <$> l)).
Proof.
  induction 1 as [|f l Hf _ IH]; [constructor|]. rewrite fmap_cons. cbn [concat]. rewrite NoDup_app. split; [apply part_names_nodup|]. split; [|done].
  intros p Hp (ps & Hps & (g & -> & Hg)%list_elem_of_fmap)%list_elem_of_concat.
  pose proof (part_names_disjoint _ _ _ Hp Hps) as ->. done.
Qed.

Lemma all_names_nodup : NoDup all_names.
Proof. by apply names_nodup. Qed.

(** The parts that an entry of measure_data/to_measure stands for. *)
Definition token_of (k : string) : list string := if MetaFarm.is_part k then [k] else part_names k.

(** The part a worker has, and the part in its directory. *)
Definition pc_part (pc : pc_t) : option string :=
  match pc with
  | Idle => None
  | Taken p | Measuring p _ | Finished p | Removed p => Some p
  end.
Definition pc_holds (pc : pc_t) : option string :=
  match pc with Removed _ => None | _ => pc_part pc end.

(** Where the parts are. *)
Definition tokens (w : farm) : list string :=
  concat (token_of <$> od_keys (to_measure w)) ++ omap pc_part (workers w) ++ od_keys (measured_part w) ++
  concat (part_names <$> od_keys (measured w)).

Definition holders (ws : list pc_t) : list (nat * string) :=
  omap id (imap (λ g pc, (λ p, (g, p)) <$> pc_holds pc) ws).

Lemma worker_tokens (ws : list pc_t) g pc : ws !! g = Some pc → ∃ A,
  omap pc_part ws ≡ₚ option_list (pc_part pc) ++ A ∧
  ∀ pc', omap pc_part (<[g:=pc']> ws) ≡ₚ option_list (pc_part pc') ++ A.
Proof.
  intros Hg. exists (omap pc_part (take g ws) ++ omap pc_part (drop (S g) ws)).
  assert (∀ pc', omap pc_part (take g ws ++ pc' :: drop (S g) ws) ≡ₚ
    option_list (pc_part pc') ++ omap pc_part (take g ws) ++ omap pc_part (drop (S g) ws)) as Hgen.
  { intros pc'. rewrite omap_app. csimpl. destruct (pc_part pc'); csimpl; [|done].
    by rewrite Permutation_middle. }
  split.
  - rewrite <-Hgen. by rewrite take_drop_middle.
  - intros pc'. rewrite <-Hgen. rewrite insert_take_drop by (by eapply lookup_lt_Some). done.
Qed.

Lemma holders_app ws ws' : ∃ B, holders (ws ++ ws') = holders ws ++ B ∧
  B = omap id (imap (λ g pc, (λ p, (length ws + g, p)) <$> pc_holds pc) ws').
Proof. eexists. split; [|done]. unfold holders. by rewrite imap_app, omap_app. Qed.

Lemma worker_holders (ws : list pc_t) g pc : ws !! g = Some pc → ∃ A,
  holders ws ≡ₚ option_list (pair g <$> pc_holds pc) ++ A ∧
  ∀ pc', holders (<[g:=pc']> ws) ≡ₚ option_list (pair g <$> pc_holds pc') ++ A.
Proof.
  intros Hg. assert (g < length ws) as Hlt by (by eapply lookup_lt_Some).
  set (B := omap id (imap (λ i pc, (λ p, (S g + i, p)) <$> pc_holds pc) (drop (S g) ws))).
  assert (∀ pc', holders (take g ws ++ pc' :: drop (S g) ws) ≡ₚ
    option_list (pair g <$> pc_holds pc') ++ holders (take g ws) ++ B) as Hgen.
  { intros pc'. destruct (holders_app (take g ws) (pc' :: drop (S g) ws)) as (D & -> & ->).
    rewrite length_take, Nat.min_l by lia. csimpl. rewrite Nat.add_0_r.
    assert (omap id (imap (λ i pc, (λ p, (g + S i, p)) <$> pc_holds pc) (drop (S g) ws)) = B) as HB.
    { unfold B. f_equal. apply imap_ext. intros i x _. by replace (S g + i) with (g + S i) by lia. }
    change ((λ (g0 : nat) (pc0 : pc_t), (λ p, (g + g0, p)) <$> pc_holds pc0) ∘ S) with
      (λ i (pc : pc_t), (λ p, (g + S i, p)) <$> pc_holds pc).
    rewrite HB. destruct (pc_holds pc'); csimpl; [|done]. by rewrite Permutation_middle. }
  exists (holders (take g ws) ++ B). split.
  - rewrite <-Hgen. by rewrite take_drop_middle.
  - intros pc'. rewrite <-Hgen. by rewrite insert_take_drop.
Qed.

(** The results of a part: of each database at most one, and of every database. *)
Definition partial (r : rdir) (d : cdir) : Prop :=
  NoDup r.*1 ∧ ∀ n x, (n, x) ∈ r → ∃ c, (n, c) ∈ d ∧ x = measure c.
Definition complete (r : rdir) (d : cdir) : Prop := ∀ n, n ∈ d.*1 → n ∈ r.*1.

(** Every part is in one place or lost. *)
Definition account (w : farm) : Prop :=
  ∃ lost, tokens w ++ lost ≡ₚ all_names ∧ (lossy = false → lost = []).

Lemma account_perm w w' : account w → tokens w' ≡ₚ tokens w → account w'.
Proof. intros (lost & Ha & Hl) Hp. exists lost. by rewrite Hp. Qed.

(** The invariant. *)
Record farm_ok (w : farm) : Prop := {
  ok_tokens : account w;
  ok_dirs k d : (k, d) ∈ to_measure w → (MetaFarm.is_part k = false ∧ (k, d) ∈ dirs0) ∨ (k, d) ∈ all_parts;
  ok_gpu : (to_measure_gpu w).*1 ≡ₚ holders (workers w);
  ok_gpu_tasks g p d : ((g, p), d) ∈ to_measure_gpu w → (p, d) ∈ all_parts;
  ok_tmp_nodup : NoDup (od_keys (measured_tmp w));
  ok_tmp p r : (p, r) ∈ measured_tmp w → ∃ d, (p, d) ∈ all_parts ∧ partial r d;
  ok_progress g p rest : workers w !! g = Some (Measuring p rest) →
    ∃ d pre r, (p, d) ∈ all_parts ∧ d = pre ++ rest ∧ od_get (measured_tmp w) p = Some r ∧ complete r pre;
  ok_finished g p : workers w !! g = Some (Finished p) ∨ workers w !! g = Some (Removed p) →
    lossy = true ∧ od_get (measured_tmp w) p = None ∨
    ∃ d r, (p, d) ∈ all_parts ∧ od_get (measured_tmp w) p = Some r ∧ (full = true → complete r d);
  ok_part p r : (p, r) ∈ measured_part w → ∃ d, (p, d) ∈ all_parts ∧ partial r d ∧ (full = true → complete r d);
  ok_done f r : (f, r) ∈ measured w →
    ∃ tasks, (f, tasks) ∈ dirs0 ∧ partial r tasks ∧ (full = true → complete r tasks);
  ok_merger listing rest : merger w = (listing, rest) →
    NoDup rest ∧ rest ⊆ listing ∧ (∀ p, p ∈ listing → p ∈ all_names) ∧
    ∀ p, p ∈ listing → p ∈ od_keys (measured_part w) ∨ ∃ f, p ∈ part_names f ∧ part_name f 0 ∉ rest
}.

(** ** Lemmas on the account *)

Lemma concat_perm {A B} (f : A → list B) l k : l ≡ₚ k → concat (f <$> l) ≡ₚ concat (f <$> k).
Proof.
  induction 1 as [|x l k _ IH|x y l|l k m _ IH1 _ IH2]; [done| | |by etrans].
  - rewrite !fmap_cons. cbn [concat]. by rewrite IH.
  - rewrite !fmap_cons. cbn [concat]. by rewrite !app_assoc, (Permutation_app_comm (f y)).
Qed.

Lemma move_perm {A} (x : A) l1 l2 l3 l4 : l1 ++ l2 ++ (l3 ++ [x]) ++ l4 ≡ₚ l1 ++ (x :: l2) ++ l3 ++ l4.
Proof.
  apply Permutation_app_head. rewrite <-app_assoc. simpl. rewrite !app_assoc. symmetry. apply Permutation_middle.
Qed.

Lemma od_keys_del_perm {K V} `{EqDecision K} (d : list (K * V)) k v :
  od_get d k = Some v → od_keys d ≡ₚ k :: od_keys (od_del d k).
Proof. intros Hg. apply (Permutation_map fst (od_del_perm d k v Hg)). Qed.

Lemma omap_unique {A B} (f : A → option B) l : NoDup (omap f l) → ∀ i j x y b,
  l !! i = Some x → l !! j = Some y → f x = Some b → f y = Some b → i = j.
Proof.
  induction l as [|z l IH]; intros Hnd i j x y b Hi Hj Hx Hy; [done|].
  assert (∀ k u, l !! k = Some u → f u = Some b → b ∈ omap f l) as Hin.
  { intros k u Hk Hu. apply list_elem_of_omap. exists u. split; [by eapply list_elem_of_lookup_2|done]. }
  csimpl in Hnd. destruct i as [|i], j as [|j]; simpl in *; simplify_eq; [done| | |].
  - rewrite Hx in Hnd. apply NoDup_cons in Hnd as [Hn _]. exfalso. eauto.
  - rewrite Hy in Hnd. apply NoDup_cons in Hnd as [Hn _]. exfalso. eauto.
  - f_equal. eapply IH; [|done..]. destruct (f z); [by apply NoDup_cons in Hnd as [_ ?]|done].
Qed.

Lemma elem_holders (ws : list pc_t) g p : (g, p) ∈ holders ws ↔ ∃ pc, ws !! g = Some pc ∧ pc_holds pc = Some p.
Proof.
  unfold holders. rewrite list_elem_of_omap. split.
  - intros (o & Ho & E). simpl in E. subst o. apply elem_of_lookup_imap_1 in Ho as (i & pc & E & Hi).
    destruct (pc_holds pc) eqn:Eh; simpl in E; [|done]. injection E as -> ->. by exists pc.
  - intros (pc & Hg & Hp). exists (Some (g, p)). split; [|done]. apply elem_of_lookup_imap.
    exists g, pc. by rewrite Hp.
Qed.

Section Ok.
Context (w : farm) (Hok : farm_ok w).

Lemma tokens_nodup : NoDup (tokens w).
Proof.
  destruct (ok_tokens _ Hok) as (lost & Hl & _). pose proof all_names_nodup as Hnd.
  rewrite <-Hl in Hnd. by apply NoDup_app in Hnd as [? _].
Qed.

Lemma tokens_names p : p ∈ tokens w → p ∈ all_names.
Proof. destruct (ok_tokens _ Hok) as (lost & <- & _). set_solver. Qed.

Lemma tokens_parts : NoDup (concat (token_of <$> od_keys (to_measure w))) ∧ NoDup (omap pc_part (workers w)) ∧
  NoDup (od_keys (measured_part w)).
Proof.
  pose proof tokens_nodup as Hnd. unfold tokens in Hnd. rewrite !NoDup_app in Hnd. tauto.
Qed.

Lemma worker_unique g h pc pc' p :
  workers w !! g = Some pc → workers w !! h = Some pc' → pc_part pc = Some p → pc_part pc' = Some p → g = h.
Proof. intros. eapply (omap_unique pc_part (workers w)); [apply tokens_parts|done..]. Qed.

(** A part that a worker has is nowhere else. *)
Lemma worker_part_elsewhere g pc p : workers w !! g = Some pc → pc_part pc = Some p →
  p ∈ all_names ∧ (p ∉ od_keys (measured_part w)) ∧ (∀ k, k ∈ od_keys (to_measure w) → p ∉ token_of k) ∧
  ∀ f, f ∈ od_keys (measured w) → p ∉ part_names f.
Proof.
  intros Hg Hp. assert (p ∈ omap pc_part (workers w)) as Hin.
  { apply list_elem_of_omap. exists pc. split; [by eapply list_elem_of_lookup_2|done]. }
  pose proof tokens_nodup as Hnd. unfold tokens in Hnd. apply NoDup_app in Hnd as (_ & Hd1 & Hnd).
  apply NoDup_app in Hnd as (_ & Hd2 & _).
  split; [apply tokens_names; unfold tokens; set_solver|].
  specialize (Hd2 p Hin). rewrite not_elem_of_app in Hd2. split; [tauto|]. split.
  - intros k Hk Hpk. apply (Hd1 p); [|set_solver]. apply list_elem_of_concat. exists (token_of k).
    split; [done|by apply list_elem_of_fmap_2].
  - intros f Hf Hpf. apply (proj2 Hd2), list_elem_of_concat. exists (part_names f).
    split; [done|by apply list_elem_of_fmap_2].
Qed.

Lemma dirs_keys_nodup : NoDup (od_keys (to_measure w)).
Proof.
  pose proof (proj1 tokens_parts) as Hnd. revert Hnd. generalize (od_keys (to_measure w)) as l. clear.
  induction l as [|k l IH]; [constructor|]. rewrite fmap_cons. cbn [concat]. rewrite NoDup_app.
  intros (_ & Hd & Hnd). constructor; [|by apply IH]. intros Hk.
  assert (∃ p, p ∈ token_of k) as [p Hp].
  { unfold token_of. destruct (MetaFarm.is_part k); [exists k; left|]. exists (part_name k 0).
    apply elem_part_names. by exists 0%Z. }
  apply (Hd p Hp), list_elem_of_concat. exists (token_of k). split; [done|by apply list_elem_of_fmap_2].
Qed.
End Ok.

Lemma all_parts_is_part p d : (p, d) ∈ all_parts → MetaFarm.is_part p = true ∧ p ∈ all_names.
Proof.
  intros Hp. apply (list_elem_of_fmap_2 fst) in Hp. rewrite all_parts_names in Hp. split; [|done].
  apply list_elem_of_concat in Hp as (l & Hp & (f & -> & _)%list_elem_of_fmap).
  apply elem_part_names in Hp as (i & _ & Hi). simpl in Hi. rewrite Hi. apply is_part_part_name.
Qed.

Lemma all_parts_fun p d d' : (p, d) ∈ all_parts → (p, d') ∈ all_parts → d = d'.
Proof.
  intros H H'. assert (NoDup (od_keys all_parts)) as Hnd by (unfold od_keys; rewrite all_parts_names; apply all_names_nodup).
  apply od_elem_get in H, H'; [congruence|done..].
Qed.

(** ** The steps of a worker *)

Lemma insert_cases {A} (l : list A) g h x y :
  <[g := x]> l !! h = Some y → h = g ∧ y = x ∨ h ≠ g ∧ l !! h = Some y.
Proof.
  intros H. destruct (decide (h = g)) as [->|Hne].
  - left. apply list_lookup_insert_Some in H as [(_ & ? & _)|(? & _)]; by split.
  - right. by rewrite list_lookup_insert_ne in H.
Qed.

(** What a worker that is not [g] is doing does not change. *)
Ltac other_worker H :=
  let Hne' := fresh "Hne" in
  apply insert_cases in H as [[Heq H]|[Hne' H]];
  [match type of Heq with ?x = ?y => tryif constr_eq x y then clear Heq else subst x end|].

Lemma meta_take_ok dirs bak gpu tmp part done ws mg g p tasks :
  farm_ok (mkFarm dirs bak gpu tmp part done ws mg) → ws !! g = Some Idle →
  MetaFarm.is_part p = true → od_get dirs p = Some tasks →
  farm_ok (mkFarm (od_del dirs p) bak (od_set gpu (g, p) tasks) tmp part done (<[g := Taken p]> ws) mg).
Proof.
  intros Hok Hg Hp Hget. destruct (worker_tokens _ _ _ Hg) as (A & HA & HA').
  destruct (worker_holders _ _ _ Hg) as (B & HB & HB'). pose proof (od_keys_del_perm _ _ _ Hget) as Hperm.
  assert (od_get gpu (g, p) = None) as Hfresh.
  { apply od_get_None_key. intros Hin. unfold od_keys in Hin. rewrite (ok_gpu _ Hok) in Hin.
    apply elem_holders in Hin as (pc & Hpc & Hh). simpl in Hpc. rewrite Hg in Hpc. by injection Hpc as <-. }
  assert ((p, tasks) ∈ all_parts) as Hpt.
  { apply od_get_elem in Hget. destruct (ok_dirs _ Hok _ _ Hget) as [[? _]|?]; [congruence|done]. }
  destruct Hok as [Htok Hdirs Hgpu Hgt Htn Htmp Hprog Hfin Hpart Hdone Hmg]. simpl in *.
  split; simpl; try done.
  - apply (account_perm _ _ Htok). unfold tokens. simpl. rewrite HA, HA'. simpl.
    rewrite (concat_perm token_of _ _ Hperm).
    rewrite fmap_cons. cbn [concat].
    assert (token_of p = [p]) as -> by (unfold token_of; by rewrite Hp). simpl. by rewrite <-Permutation_middle.
  - intros k d Hk. apply Hdirs. by apply od_del_subseteq in Hk.
  - rewrite od_set_fresh, fmap_app by done. simpl. rewrite HB', Hgpu, HB. simpl. by rewrite Permutation_app_comm.
  - intros h q d. rewrite od_set_fresh by done. rewrite elem_of_app, list_elem_of_singleton.
    intros [H|[= -> -> ->]]; [by eapply Hgt|done].
  - intros h q rest H. other_worker H; [done|by eapply Hprog].
  - intros h q H. apply (Hfin h). destruct H as [H|H]; other_worker H; auto; done.
Qed.

Lemma meta_start_ok dirs bak gpu tmp part done ws mg g p :
  farm_ok (mkFarm dirs bak gpu tmp part done ws mg) → ws !! g = Some (Taken p) →
  farm_ok (mkFarm dirs bak gpu (if od_mem tmp p then tmp else od_set tmp p []) part done
             (<[g := Measuring p (default [] (od_get gpu (g, p)))]> ws) mg).
Proof.
  intros Hok Hg. destruct (worker_tokens _ _ _ Hg) as (A & HA & HA').
  destruct (worker_holders _ _ _ Hg) as (B & HB & HB').
  assert (∀ h pc, ws !! h = Some pc → pc_part pc = Some p → h = g) as Huniq.
  { intros h pc Hh Hpc. eapply (worker_unique _ Hok h g); [exact Hh|exact Hg|done|done]. }
  destruct Hok as [Htok Hdirs Hgpu Hgt Htn Htmp Hprog Hfin Hpart Hdone Hmg]. simpl in *.
  assert (∃ d, od_get gpu (g, p) = Some d ∧ (p, d) ∈ all_parts) as (d & Hd & Hpd).
  { assert ((g, p) ∈ od_keys gpu) as Hin.
    { unfold od_keys. rewrite Hgpu. apply elem_holders. by exists (Taken p). }
    apply od_key_iff in Hin as [d Hd]. exists d. split; [done|]. apply od_get_elem in Hd. by eapply Hgt. }
  rewrite Hd. simpl. set (tmp' := if od_mem tmp p then tmp else od_set tmp p []).
  assert (∀ q, q ≠ p → od_get tmp' q = od_get tmp q) as Hother.
  { intros q Hq. unfold tmp'. destruct (od_mem tmp p); [done|]. by rewrite od_get_set_ne. }
  split; simpl; try done.
  - apply (account_perm _ _ Htok). unfold tokens. simpl. by rewrite HA, HA'.
  - by rewrite HB', Hgpu, HB.
  - unfold tmp'. destruct (od_mem tmp p); [done|by apply od_set_NoDup].
  - intros q r. unfold tmp'. destruct (od_mem tmp p) eqn:Em; [by apply Htmp|]. unfold od_mem in Em.
    rewrite od_set_fresh by (by destruct (od_get tmp p)). rewrite elem_of_app, list_elem_of_singleton.
    intros [H|[= -> ->]]; [by apply Htmp|]. exists d. split; [done|]. split; [constructor|]. by intros ? ? ?%elem_of_nil.
  - intros h q rest H. other_worker H.
    + injection H as -> ->. unfold tmp', od_mem. destruct (od_get tmp p) as [r|] eqn:Er.
      * exists d, [], r. split; [done|]. split; [done|]. split; [done|]. by intros n ?%elem_of_nil.
      * exists d, [], []. rewrite od_get_set_eq. split; [done|]. split; [done|]. split; [done|]. by intros n ?%elem_of_nil.
    + rewrite Hother; [by eapply Hprog|]. intros ->. by eapply Hne, Huniq.
  - intros h q H. rewrite Hother.
    + apply (Hfin h). destruct H as [H|H]; other_worker H; auto; done.
    + intros ->. destruct H as [H|H]; other_worker H; try done; by eapply Hne, Huniq.
Qed.

Lemma measure_db_partial (db : string * C) r d : db ∈ d → partial r d → partial (measure_db measure has_records db r) d.
Proof.
  intros Hdb [Hnd Hr]. assert (partial (od_set r db.1 (measure db.2)) d) as Hset.
  { split; [by apply (od_set_NoDup r)|]. intros n x Hx.
    apply od_elem_get in Hx; [|by apply (od_set_NoDup r)]. rewrite od_get_set in Hx. case_decide as Hn.
    - injection Hx as <-. subst n. exists db.2. by destruct db.
    - apply od_get_elem in Hx. by apply Hr. }
  unfold measure_db. destruct (od_get r db.1) as [x|]; [|done]. by destruct (has_records x).
Qed.

Lemma measure_db_keys (db : string * C) r n :
  n ∈ (measure_db measure has_records db r).*1 ↔ n ∈ r.*1 ∨ n = db.1.
Proof.
  assert (n ∈ (od_set r db.1 (measure db.2)).*1 ↔ n ∈ r.*1 ∨ n = db.1) as Hset.
  { change (n ∈ od_keys (od_set r db.1 (measure db.2)) ↔ n ∈ od_keys r ∨ n = db.1). rewrite od_keys_set.
    destruct (od_mem r db.1) eqn:Em; [|by rewrite elem_of_app, list_elem_of_singleton].
    apply od_mem_true in Em. split; [by left|]. by intros [?| ->]. }
  unfold measure_db. destruct (od_get r db.1) as [x|] eqn:E; [|done]. destruct (has_records x); [|done].
  apply od_get_Some_key in E. split; [by left|]. by intros [?| ->].
Qed.

Lemma step_ok dirs bak gpu tmp part done ws mg g p db rest :
  farm_ok (mkFarm dirs bak gpu tmp part done ws mg) → ws !! g = Some (Measuring p (db :: rest)) →
  farm_ok (mkFarm dirs bak gpu (od_set tmp p (measure_db measure has_records db (default [] (od_get tmp p)))) part done
             (<[g := Measuring p rest]> ws) mg).
Proof.
  intros Hok Hg. destruct (worker_tokens _ _ _ Hg) as (A & HA & HA').
  destruct (worker_holders _ _ _ Hg) as (B & HB & HB').
  assert (∀ h pc, ws !! h = Some pc → pc_part pc = Some p → h = g) as Huniq.
  { intros h pc Hh Hpc. eapply (worker_unique _ Hok h g); [exact Hh|exact Hg|done|done]. }
  destruct Hok as [Htok Hdirs Hgpu Hgt Htn Htmp Hprog Hfin Hpart Hdone Hmg]. simpl in *.
  destruct (Hprog _ _ _ Hg) as (d & pre & r & Hpd & Hd & Hr & Hpre). rewrite Hr. simpl.
  assert (partial r d) as Hrd.
  { apply od_get_elem in Hr. destruct (Htmp _ _ Hr) as (d' & Hpd' & Hrd). by rewrite (all_parts_fun _ _ _ Hpd Hpd'). }
  assert (db ∈ d) as Hdb by (subst d; set_solver).
  split; simpl; try done.
  - apply (account_perm _ _ Htok). unfold tokens. simpl. by rewrite HA, HA'.
  - by rewrite HB', Hgpu, HB.
  - by apply od_set_NoDup.
  - intros q x Hx. apply od_elem_get in Hx; [|by apply od_set_NoDup]. rewrite od_get_set in Hx. case_decide as Hq.
    + injection Hx as <-. subst q. exists d. split; [done|]. by apply measure_db_partial.
    + apply od_get_elem in Hx. by apply Htmp.
  - intros h q rest' H. other_worker H.
    + injection H as -> ->. exists d, (pre ++ [db]), (measure_db measure has_records db r).
      rewrite od_get_set_eq. split; [done|]. split; [by rewrite <-app_assoc|]. split; [done|].
      intros n Hn. apply measure_db_keys. rewrite fmap_app, elem_of_app in Hn.
      destruct Hn as [Hn|Hn%list_elem_of_singleton]; [left; by apply Hpre|by right].
    + rewrite od_get_set_ne; [by eapply Hprog|]. intros <-. by eapply Hne, Huniq.
  - intros h q H. rewrite od_get_set_ne.
    + apply (Hfin h). destruct H as [H|H]; other_worker H; auto; done.
    + intros <-. destruct H as [H|H]; other_worker H; try done; by eapply Hne, Huniq.
Qed.

Lemma finish_ok dirs bak gpu tmp part done ws mg g p rest :
  farm_ok (mkFarm dirs bak gpu tmp part done ws mg) → ws !! g = Some (Measuring p rest) →
  (full = true → rest = []) →
  farm_ok (mkFarm dirs bak gpu tmp part done (<[g := Finished p]> ws) mg).
Proof.
  intros Hok Hg Hfull. destruct (worker_tokens _ _ _ Hg) as (A & HA & HA').
  destruct (worker_holders _ _ _ Hg) as (B & HB & HB').
  destruct Hok as [Htok Hdirs Hgpu Hgt Htn Htmp Hprog Hfin Hpart Hdone Hmg]. simpl in *.
  split; simpl; try done.
  - apply (account_perm _ _ Htok). unfold tokens. simpl. by rewrite HA, HA'.
  - by rewrite HB', Hgpu, HB.
  - intros h q rest' H. other_worker H; [done|by eapply Hprog].
  - intros h q H. destruct (decide (h = g)) as [->|Hne].
    + assert (q = p) as ->.
      { destruct H as [H|H]; other_worker H; try done; by injection H as ->. }
      destruct (Hprog _ _ _ Hg) as (d & pre & r & Hpd & Hd & Hr & Hpre). right. exists d, r. split; [done|]. split; [done|].
      intros Hf. rewrite (Hfull Hf), app_nil_r in Hd. by subst pre.
    + apply (Hfin h). destruct H as [H|H]; other_worker H; auto; done.
Qed.

Lemma meta_remove_ok dirs bak gpu tmp part done ws mg g p :
  farm_ok (mkFarm dirs bak gpu tmp part done ws mg) → ws !! g = Some (Finished p) →
  farm_ok (mkFarm dirs bak (od_del gpu (g, p)) tmp part done (<[g := Removed p]> ws) mg).
Proof.
  intros Hok Hg. destruct (worker_tokens _ _ _ Hg) as (A & HA & HA').
  destruct (worker_holders _ _ _ Hg) as (B & HB & HB').
  destruct Hok as [Htok Hdirs Hgpu Hgt Htn Htmp Hprog Hfin Hpart Hdone Hmg]. simpl in *.
  assert (∃ d, od_get gpu (g, p) = Some d) as [d Hd].
  { apply od_key_iff. unfold od_keys. rewrite Hgpu. apply elem_holders. by exists (Finished p). }
  split; simpl; try done.
  - apply (account_perm _ _ Htok). unfold tokens. simpl. by rewrite HA, HA'.
  - rewrite HB'. simpl. apply (Permutation_cons_inv (a := (g, p))). rewrite HB in Hgpu. simpl in Hgpu.
    rewrite <-Hgpu. symmetry. apply (od_keys_del_perm _ _ _ Hd).
  - intros h q d' H. apply od_del_subseteq in H. by eapply Hgt.
  - intros h q rest H. other_worker H; [done|by eapply Hprog].
  - intros h q H. destruct (decide (h = g)) as [->|Hne].
    + apply (Hfin g). left. rewrite Hg. destruct H as [H|H]; other_worker H; try done; by injection H as ->.
    + apply (Hfin h). destruct H as [H|H]; other_worker H; auto; done.
Qed.

Lemma meta_deliver_ok dirs bak gpu tmp part done ws mg g p :
  farm_ok (mkFarm dirs bak gpu tmp part done ws mg) → ws !! g = Some (Removed p) → ∀ r, od_get tmp p = Some r →
  farm_ok (mkFarm dirs bak gpu (od_del tmp p) (od_set part p r) done (<[g := Idle]> ws) mg).
Proof.
  intros Hok Hg r Hr. destruct (worker_tokens _ _ _ Hg) as (A & HA & HA').
  destruct (worker_holders _ _ _ Hg) as (B & HB & HB').
  assert (∀ h pc, ws !! h = Some pc → pc_part pc = Some p → h = g) as Huniq.
  { intros h pc Hh Hpc. eapply (worker_unique _ Hok h g); [exact Hh|exact Hg|done|done]. }
  destruct (worker_part_elsewhere _ Hok g _ p Hg eq_refl) as (_ & Hnp & _ & _). simpl in Hnp.
  destruct Hok as [Htok Hdirs Hgpu Hgt Htn Htmp Hprog Hfin Hpart Hdone Hmg]. simpl in *.
  destruct (Hfin g p (or_intror Hg)) as [[_ Hno]|(d & r' & Hpd & Hr' & Hfull)]; [congruence|].
  assert (r' = r) as -> by congruence.
  apply od_get_None_key in Hnp.
  split; simpl; try done.
  - apply (account_perm _ _ Htok). unfold tokens. simpl. rewrite HA, HA'. simpl. unfold od_keys.
    rewrite od_set_fresh, fmap_app by done. apply move_perm.
  - by rewrite HB', Hgpu, HB.
  - by apply od_del_NoDup.
  - intros q x Hx%od_del_subseteq. by apply Htmp.
  - intros h q rest H. other_worker H; [done|]. rewrite od_get_del_ne; [by eapply Hprog|]. intros <-. by eapply Hne, Huniq.
  - intros h q H. rewrite od_get_del_ne.
    + apply (Hfin h). destruct H as [H|H]; other_worker H; auto; done.
    + intros <-. destruct H as [H|H]; other_worker H; try done; by eapply Hne, Huniq.
  - intros q x. rewrite od_set_fresh by done. rewrite elem_of_app, list_elem_of_singleton.
    intros [H|[= -> ->]]; [by apply Hpart|]. apply od_get_elem in Hr. destruct (Htmp _ _ Hr) as (d' & Hpd' & Hrd).
    exists d. split; [done|]. split; [|done]. by rewrite (all_parts_fun _ _ _ Hpd Hpd').
  - intros listing rest H. destruct (Hmg listing rest H) as (Hnd & Hsub & Hin & Hl).
    split; [exact Hnd|]. split; [exact Hsub|]. split; [exact Hin|]. intros q Hq. destruct (Hl q Hq) as [?|?]; [left|by right]. rewrite od_set_fresh by done. unfold od_keys.
    rewrite fmap_app. set_solver.
Qed.

(** A part whose process has left no results is lost. *)
Lemma deliver_lost dirs bak gpu tmp part done ws mg g p :
  farm_ok (mkFarm dirs bak gpu tmp part done ws mg) → ws !! g = Some (Removed p) → od_get tmp p = None →
  farm_ok (mkFarm dirs bak gpu tmp part done (<[g := Idle]> ws) mg).
Proof.
  intros Hok Hg Hr. destruct (worker_tokens _ _ _ Hg) as (A & HA & HA').
  destruct (worker_holders _ _ _ Hg) as (B & HB & HB').
  destruct Hok as [Htok Hdirs Hgpu Hgt Htn Htmp Hprog Hfin Hpart Hdone Hmg]. simpl in *.
  destruct (Hfin g p (or_intror Hg)) as [[Hlossy _]|(d & r' & _ & Hr' & _)]; [|congruence].
  split; simpl; try done.
  - destruct Htok as (lost & Hl & _). exists (p :: lost). split; [|congruence]. rewrite <-Hl.
    unfold tokens. simpl. rewrite HA, HA'. simpl. rewrite <-!app_assoc. apply Permutation_app_head. simpl.
    rewrite !app_assoc. symmetry. apply Permutation_middle.
  - by rewrite HB', Hgpu, HB.
  - intros h q rest H. other_worker H; [done|by eapply Hprog].
  - intros h q H. apply (Hfin h). destruct H as [H|H]; other_worker H; auto; done.
Qed.

(** A process that ends before it has made the directory of its results. *)
Lemma crash_early_ok dirs bak gpu tmp part done ws mg g p :
  farm_ok (mkFarm dirs bak gpu tmp part done ws mg) → ws !! g = Some (Taken p) → lossy = true → full = false →
  farm_ok (mkFarm dirs bak gpu tmp part done (<[g := Finished p]> ws) mg).
Proof.
  intros Hok Hg Hlossy Hfull. destruct (worker_tokens _ _ _ Hg) as (A & HA & HA').
  destruct (worker_holders _ _ _ Hg) as (B & HB & HB').
  destruct Hok as [Htok Hdirs Hgpu Hgt Htn Htmp Hprog Hfin Hpart Hdone Hmg]. simpl in *.
  split; simpl; try done.
  - apply (account_perm _ _ Htok). unfold tokens. simpl. by rewrite HA, HA'.
  - by rewrite HB', Hgpu, HB.
  - intros h q rest' H. other_worker H; [done|by eapply Hprog].
  - intros h q H. destruct (decide (h = g)) as [->|Hne].
    + assert (q = p) as -> by (destruct H as [H|H]; other_worker H; try done; by injection H as ->).
      destruct (od_get tmp p) as [r|] eqn:Er; [right|by left].
      destruct (Htmp p r) as (d & Hd & _); [by apply od_get_elem|]. exists d, r. split; [done|].
      split; [done|]. by rewrite Hfull.
    + apply (Hfin h). destruct H as [H|H]; other_worker H; auto; done.
Qed.

Lemma meta_glob_ok dirs bak gpu tmp part done ws mg :
  farm_ok (mkFarm dirs bak gpu tmp part done ws mg) →
  farm_ok (mkFarm dirs bak gpu tmp part done ws (od_keys part, od_keys part)).
Proof.
  intros Hok. destruct (tokens_parts _ Hok) as (_ & _ & Hnd). simpl in Hnd.
  pose proof Hok as Hok'. destruct Hok' as [Htok Hdirs Hgpu Hgt Htn Htmp Hprog Hfin Hpart Hdone Hmg]. simpl in *.
  split; simpl; try done. intros listing rest [= <- <-]. split; [done|]. split; [done|]. split; [|by left].
  intros p Hp. apply (tokens_names _ Hok). unfold tokens. simpl. set_solver.
Qed.

Lemma idle_lookup n g pc : replicate n (@Idle C) !! g = Some pc → pc = Idle.
Proof. intros H. by apply lookup_replicate in H as [-> _]. Qed.

Lemma idle_parts n : omap pc_part (replicate n (@Idle C)) = [].
Proof. by induction n. Qed.

Lemma idle_holders n : holders (replicate n (@Idle C)) = [].
Proof.
  unfold holders.
  assert (∀ h : nat → pc_t → option (nat * string), (∀ g, h g Idle = None) → omap id (imap h (replicate n Idle)) = []) as Hgen.
  { induction n as [|n IH]; intros h Hh; [done|]. simpl. rewrite Hh. apply IH. intros g. apply Hh. }
  by apply Hgen.
Qed.

Lemma token_of_dirs (l : list string) :
  (∀ k, k ∈ l → MetaFarm.is_part k = false) → concat (token_of <$> l) = concat (part_names <$> l).
Proof. intros Hl. f_equal. apply list_fmap_ext. intros i k Hk%list_elem_of_lookup_2. unfold token_of. by rewrite Hl. Qed.

Lemma token_of_parts (l : list string) : (∀ k, k ∈ l → MetaFarm.is_part k = true) → concat (token_of <$> l) = l.
Proof.
  induction l as [|p l IH]; intros Hl; [done|]. rewrite fmap_cons. cbn [concat]. unfold token_of at 1.
  rewrite (Hl p) by left. simpl. f_equal. apply IH. intros k Hk. apply Hl. by right.
Qed.

Lemma meta_init_ok n : farm_ok (farm_init dirs0 n).
Proof.
  split; simpl; try done.
  - exists []. split; [|done]. rewrite app_nil_r. unfold tokens. simpl. rewrite idle_parts. simpl.
    rewrite app_nil_r. unfold all_names.
    unfold od_keys. by rewrite token_of_dirs.
  - intros k d H. left. split; [|done]. apply dirs_names. exact (list_elem_of_fmap_2 fst _ _ H).
  - by rewrite idle_holders.
  - by intros ? ? ? ?%elem_of_nil.
  - constructor.
  - by intros ? ? ?%elem_of_nil.
  - intros g p rest H%idle_lookup. done.
  - intros g p [H%idle_lookup|H%idle_lookup]; done.
  - by intros ? ? ?%elem_of_nil.
  - by intros ? ? ?%elem_of_nil.
  - intros listing rest [= <- <-]. split; [constructor|]. split; [done|]. by split; intros ? ?%elem_of_nil.
Qed.

(** ** The merger *)

Lemma od_dels_perm {V} (ks : list string) : ∀ d : list (string * V), NoDup ks → ks ⊆ od_keys d →
  od_keys d ≡ₚ ks ++ od_keys (foldl od_del d ks).
Proof.
  induction ks as [|k ks IH]; intros d Hnd Hsub; [done|]. apply NoDup_cons in Hnd as [Hk Hnd].
  assert (k ∈ od_keys d) as [v Hv]%od_key_iff by (apply Hsub; left).
  pose proof (od_keys_del_perm _ _ _ Hv) as Hp. simpl. rewrite Hp at 1. constructor. apply IH; [done|].
  intros q Hq. assert (q ∈ od_keys d) as Hqd by (apply Hsub; by right). rewrite Hp in Hqd.
  apply elem_of_cons in Hqd as [->|?]; [done|done].
Qed.

Lemma od_dels_subseteq {V} (ks : list string) : ∀ d : list (string * V), foldl od_del d ks ⊆ d.
Proof. induction ks as [|k ks IH]; intros d; [done|]. simpl. etrans; [apply IH|apply od_del_subseteq]. Qed.

(** The results of the parts of a directory together are results of the directory. *)
Lemma concat_results (part : list (string * rdir)) (fp : list (string * cdir)) :
  (∀ p d, (p, d) ∈ fp → ∃ r, od_get part p = Some r ∧ partial r d ∧ (full = true → complete r d)) →
  NoDup (concat fp.*2).*1 →
  partial (concat ((λ p, default [] (od_get part p)) <$> fp.*1)) (concat fp.*2) ∧
  (full = true → complete (concat ((λ p, default [] (od_get part p)) <$> fp.*1)) (concat fp.*2)).
Proof.
  induction fp as [|[p d] fp IH]; intros Hfp Hnd.
  { split; [split; [constructor|by intros ? ? ?%elem_of_nil]|]. by intros _ n ?%elem_of_nil. }
  rewrite !fmap_cons in *. cbn [concat fst snd] in *. rewrite fmap_app in Hnd.
  apply NoDup_app in Hnd as (Hndd & Hdis & Hnd).
  destruct (Hfp p d) as (r & Hr & [Hrn Hrd] & Hrc); [left|]. rewrite Hr. simpl.
  destruct (IH (λ q e Hq, Hfp q e (list_elem_of_further _ _ _ Hq)) Hnd) as [[Hn Hc] Hcc].
  set (rs := concat _) in *. split; [split|].
  - rewrite fmap_app. apply NoDup_app. split; [done|]. split; [|done].
    intros n ([n1 x] & -> & Hx)%list_elem_of_fmap ([n2 y] & Hy & Hin)%list_elem_of_fmap. simpl in Hy. subst n2.
    destruct (Hrd _ _ Hx) as (c & Hc1 & _), (Hc _ _ Hin) as (c' & Hc2 & _).
    apply (Hdis n1); [by apply (list_elem_of_fmap_2 fst) in Hc1|by apply (list_elem_of_fmap_2 fst) in Hc2].
  - intros n x [Hx|Hx]%elem_of_app; [destruct (Hrd _ _ Hx) as (c & ? & ?)|destruct (Hc _ _ Hx) as (c & ? & ?)];
      exists c; (split; [|done]); apply elem_of_app; auto.
  - intros Hf n. rewrite !fmap_app, !elem_of_app. intros [Hin|Hin]; [left; by apply Hrc|right; by apply Hcc].
Qed.

Lemma dirs_fun f d d' : (f, d) ∈ dirs0 → (f, d') ∈ dirs0 → d = d'.
Proof. intros H H'. apply od_elem_get in H, H'; [congruence|done..]. Qed.

Lemma keys_set_fresh {V} (d : list (string * V)) k v : od_get d k = None → od_keys (od_set d k v) = od_keys d ++ [k].
Proof. intros H. unfold od_keys. by rewrite od_set_fresh, fmap_app. Qed.

Lemma meta_visit_ok dirs bak gpu tmp part done ws listing p rest w' :
  farm_ok (mkFarm dirs bak gpu tmp part done ws (listing, p :: rest)) →
  merge_visit listing p (mkFarm dirs bak gpu tmp part done ws (listing, rest)) = Some w' → farm_ok w'.
Proof.
  intros Hok. pose proof (tokens_nodup _ Hok) as Htn.
  destruct Hok as [Htok Hdirs Hgpu Hgt Htmpn Htmp Hprog Hfin Hpart Hdone Hmg]. simpl in *. intros Hv.
  destruct (Hmg _ _ eq_refl) as (Hnd & Hsub & Hnames & Hl). apply NoDup_cons in Hnd as [Hp Hnd].
  assert (farm_ok (mkFarm dirs bak gpu tmp part done ws (listing, rest))) as Hskip.
  { split; simpl; try done. intros l r [= <- <-]. split; [done|]. split; [set_solver|]. split; [done|].
    intros q Hq. destruct (Hl q Hq) as [?|(f & ? & ?)]; [by left|right]. exists f. split; [done|set_solver]. }
  unfold merge_visit in Hv. destruct (str_contains "_part_0" p) eqn:E0; [|by injection Hv as <-].
  assert (p ∈ all_names) as Hpn by (apply Hnames; set_solver).
  unfold all_names in Hpn. apply list_elem_of_concat in Hpn as (ns & Hpf & (f & -> & Hf)%list_elem_of_fmap).
  apply elem_part_names in Hpf as (i & Hi & ->).
  assert (i = 0)%Z as ->.
  { destruct (decide (i = 0)%Z); [done|]. rewrite meta_contains_part_i in E0; [done|by apply dirs_names|lia]. }
  rewrite merge_dir_list_part_0, drop_last_part_0 in Hv.
  destruct (forallb _ _) eqn:Eall; [|by injection Hv as <-]. case_bool_decide as Hne; [done|]. apply (inj Some) in Hv as <-.
  assert (part_names f = part_name f 0 :: tail (part_names f)) as Hpn0 by done.
  assert (∀ q, q ∈ part_names f → q ∈ od_keys part) as Hin.
  { intros q Hq. assert (q ∈ listing) as Hql.
    { rewrite Hpn0 in Hq. apply elem_of_cons in Hq as [->|Hq]; [set_solver|].
      rewrite forallb_forall in Eall. apply list_elem_of_In in Hq. by apply Eall, bool_decide_eq_true in Hq. }
    destruct (Hl q Hql) as [?|(f' & Hq' & Hn)]; [done|]. pose proof (part_names_disjoint _ _ _ Hq Hq') as <-. set_solver. }
  pose proof (od_dels_perm (part_names f) part (part_names_nodup f) Hin) as Hperm.
  apply list_elem_of_fmap in Hf as ([f1 tf] & Hf1 & Hft). simpl in Hf1. subst f1.
  assert (od_get done f = None) as Hfresh.
  { apply od_get_None_key. intros Hfd. unfold tokens in Htn. simpl in Htn.
    apply NoDup_app in Htn as (_ & _ & Htn). apply NoDup_app in Htn as (_ & _ & Htn). apply NoDup_app in Htn as (_ & Hd & _).
    apply (Hd (part_name f 0)); [apply Hin; rewrite Hpn0; left|]. apply list_elem_of_concat. exists (part_names f).
    split; [rewrite Hpn0; left|by apply list_elem_of_fmap_2]. }
  remember (foldl od_del part (part_names f)) as part' eqn:Epart.
  remember (concat ((λ p, default [] (od_get part p)) <$> part_names f)) as tasks eqn:Etasks.
  split; simpl; try done.
  - apply (account_perm _ _ Htok). unfold tokens. simpl. do 2 apply Permutation_app_head. rewrite Hperm.
    rewrite keys_set_fresh, fmap_app, concat_app, fmap_cons, fmap_nil by done. cbn [concat]. rewrite app_nil_r.
    rewrite (Permutation_app_comm (part_names f)), <-app_assoc. apply Permutation_app_head, Permutation_app_comm.
  - intros q r Hr. apply Hpart. subst part'. exact (od_dels_subseteq _ _ _ Hr).
  - subst tasks. intros g r. rewrite od_set_fresh by done. rewrite elem_of_app, list_elem_of_singleton. intros [H|[= -> ->]]; [by apply Hdone|].
    exists tf. split; [done|]. destruct (meta_file_parts_spec (f, tf)) as (ps & Hfp & _ & Hlen & Hcat).
    pose proof (concat_results part (file_parts (f, tf))) as Hc.
    rewrite meta_file_parts_names, file_parts_tasks in Hc. apply Hc; [|by eapply dbs_nodup].
    intros q d Hqd. assert (q ∈ od_keys part) as [r Hr]%od_key_iff.
    { apply Hin. apply (list_elem_of_fmap_2 fst) in Hqd. by rewrite meta_file_parts_names in Hqd. }
    exists r. split; [done|]. apply od_get_elem in Hr. destruct (Hpart _ _ Hr) as (d' & Hd' & Hrest).
    assert (d = d') as ->; [|done]. eapply all_parts_fun; [|exact Hd']. apply list_elem_of_concat.
    exists (file_parts (f, tf)). split; [done|by apply list_elem_of_fmap_2].
  - intros l r [= <- <-]. split; [done|]. split; [set_solver|]. split; [done|]. intros q Hq.
    destruct (Hl q Hq) as [Hqp|(f' & ? & ?)].
    + rewrite Hperm in Hqp. apply elem_of_app in Hqp as [?|?]; [right; by exists f|by left].
    + right. exists f'. split; [done|set_solver].
Qed.

(** ** The divider *)

Lemma divide_ok dirs bak gpu tmp part done ws mg w' :
  farm_ok (mkFarm dirs bak gpu tmp part done ws mg) →
  divide (mkFarm dirs bak gpu tmp part done ws mg) = Some w' → farm_ok w'.
Proof.
  intros Hok Hv. unfold divide in Hv. destruct (head _) as [f|] eqn:Eh; [|done].
  apply head_sorted, list_elem_of_filter in Eh as [Ef Hfk].
  destruct (od_get dirs f) as [tasks|] eqn:Eg; [|done].
  destruct (meta_file_parts_spec (f, tasks)) as (_ & _ & Hdiv & _). cbn [fst snd] in Hdiv.
  change (default [] (Some tasks)) with tasks in Hv. rewrite Hdiv in Hv.
  case_bool_decide as Hfresh; [|done]. apply (inj Some) in Hv as <-. clear Hfresh Hdiv.
  assert (od_keys (file_parts (f, tasks)) = part_names f) as Hkeys by apply meta_file_parts_names.
  assert (∀ x, x ∈ file_parts (f, tasks) → x ∈ all_parts) as Hall.
  { intros x Hx. apply list_elem_of_concat. exists (file_parts (f, tasks)). split; [done|].
    apply list_elem_of_fmap_2. apply od_get_elem in Eg. unfold to_divide in Ef. destruct (MetaFarm.is_part f) eqn:Ep; [done|].
    destruct (ok_dirs _ Hok _ _ Eg) as [[_ Hft]|Hft]; [done|]. by destruct (all_parts_is_part _ _ Hft); congruence. }
  remember (file_parts (f, tasks)) as ps eqn:Eps. clear Eps.
  pose proof (od_keys_del_perm _ _ _ Eg) as Hperm.
  destruct Hok as [Htok Hdirs Hgpu Hgt Htn Htmp Hprog Hfin Hpart Hdone Hmg]. simpl in *.
  unfold to_divide in Ef. destruct (MetaFarm.is_part f) eqn:Ep; [done|]. clear Eg Ef.
  assert (od_keys (od_del dirs f ++ ps) = od_keys (od_del dirs f) ++ part_names f) as Hnew.
  { rewrite <-Hkeys. apply fmap_app. }
  split; simpl; try done.
  - apply (account_perm _ _ Htok). unfold tokens. simpl. apply Permutation_app_tail. rewrite (concat_perm token_of _ _ Hperm).
    rewrite Hnew, fmap_app, concat_app, fmap_cons. cbn [concat]. rewrite (token_of_parts (part_names f)).
    + unfold token_of at 2. rewrite Ep. apply Permutation_app_comm.
    + intros k (i & _ & ->)%elem_part_names. apply is_part_part_name.
  - intros k d [Hk|Hk]%elem_of_app; [apply Hdirs; by apply od_del_subseteq in Hk|right; by apply Hall].
Qed.

(** ** A restart of the script *)

Lemma restart_dirs (gpu : list ((nat * string) * cdir)) : ∀ dirs : list (string * cdir),
  NoDup gpu.*1.*2 → (∀ p, p ∈ gpu.*1.*2 → p ∉ od_keys dirs) →
  foldl (λ d '((_, p), tasks), od_set d p tasks) dirs gpu = dirs ++ ((λ x, (x.1.2, x.2)) <$> gpu).
Proof.
  induction gpu as [|[[g p] tasks] gpu IH]; intros dirs Hnd Hdis; [by rewrite app_nil_r|].
  rewrite !fmap_cons in *. simpl in *. apply NoDup_cons in Hnd as [Hp Hnd].
  assert (od_get dirs p = None) as Hget by (apply od_get_None_key, Hdis; left).
  rewrite IH; [|done|].
  - rewrite od_set_fresh by done. by rewrite <-app_assoc.
  - intros q Hq. rewrite keys_set_fresh by done. rewrite elem_of_app, list_elem_of_singleton.
    intros [Hq'| ->]; [|done]. apply (Hdis q); [by right|done].
Qed.

Lemma holders_parts (ws : list pc_t) : (holders ws).*2 = omap pc_holds ws.
Proof.
  unfold holders. assert (∀ h : nat → nat, (omap id (imap (λ g pc, (λ p, (h g, p)) <$> pc_holds pc) ws)).*2 = omap pc_holds ws) as Hgen; [|apply (Hgen id)].
  induction ws as [|pc ws IH]; intros h; [done|]. csimpl. specialize (IH (h ∘ S)).
  destruct (pc_holds pc); csimpl; [f_equal|]; exact IH.
Qed.

(** The parts that a restart loses: those with their directory removed and their results
    not yet moved. *)
Definition pc_between (pc : pc_t) : option string := match pc with Removed p => Some p | _ => None end.

Lemma holds_between (ws : list pc_t) : omap pc_part ws ≡ₚ omap pc_holds ws ++ omap pc_between ws.
Proof.
  induction ws as [|pc ws IH]; [done|]. destruct pc; csimpl; try done; try (by rewrite IH).
  rewrite IH. apply Permutation_middle.
Qed.

Lemma between_careful (w : farm) : careful Restart w = true → omap pc_between (workers w) = [].
Proof.
  simpl. rewrite forallb_forall. induction (workers w) as [|pc ws IH]; intros Hcare; [done|].
  csimpl. rewrite IH by (intros x Hx; apply Hcare; by right). pose proof (Hcare pc (or_introl eq_refl)). by destruct pc.
Qed.

Lemma restart_ok w w' : farm_ok w → (lossy = false → careful Restart w = true) →
  perform measure has_records Restart w = Some w' → farm_ok w'.
Proof.
  intros Hok Hcare Hv. apply (inj Some) in Hv as <-. pose proof (tokens_nodup _ Hok) as Hnd.
  pose proof (holds_between (workers w)) as Hall. assert (lossy = false → omap pc_between (workers w) = []) as Hbw.
  { intros Hl. by apply between_careful, Hcare. }
  assert ((to_measure_gpu w).*1.*2 ≡ₚ omap pc_holds (workers w)) as Hgp by (by rewrite (ok_gpu _ Hok), holders_parts).
  unfold tokens in Hnd. apply NoDup_app in Hnd as (_ & Hdis & Hnd). apply NoDup_app in Hnd as (Hndw & _ & _).
  rewrite Hall in Hndw. apply NoDup_app in Hndw as (Hndw & _ & _).
  destruct w as [dirs bak gpu tmp part done ws mg]. clear Hcare.
  destruct Hok as [Htok Hdirs _ Hgt Htn Htmp _ _ Hpart Hdone _]. simpl in *.
  assert (∀ x, x ∈ (λ x, (x.1.2, x.2)) <$> gpu → x ∈ all_parts) as Hback.
  { intros x ([[g p] d] & -> & Hin)%list_elem_of_fmap. by eapply Hgt. }
  assert (gpu.*1.*2 = ((λ x : (nat * string) * cdir, (x.1.2, x.2)) <$> gpu).*1) as Hkeys.
  { by rewrite <-!list_fmap_compose. }
  assert (∀ p, p ∈ gpu.*1.*2 → MetaFarm.is_part p = true) as Hip.
  { intros p Hp. rewrite Hkeys in Hp. apply list_elem_of_fmap in Hp as ([q d] & -> & Hin).
    by destruct (all_parts_is_part _ _ (Hback _ Hin)). }
  rewrite restart_dirs; [|by rewrite Hgp|].
  2:{ intros p Hp Hin. apply (Hdis p); [|rewrite Hgp in Hp; rewrite Hall; set_solver]. apply list_elem_of_concat.
      exists (token_of p). split; [unfold token_of; rewrite (Hip p Hp); left|by apply list_elem_of_fmap_2]. }
  split; simpl; try done.
  - destruct Htok as (lost & Hl & Hlost). exists (omap pc_between ws ++ lost).
    split; [|intros Hf; by rewrite (Hbw Hf), (Hlost Hf)]. rewrite <-Hl.
    unfold tokens. simpl. rewrite idle_parts, Hall. simpl. unfold od_keys at 1.
    rewrite fmap_app, fmap_app, concat_app, <-Hkeys, (token_of_parts gpu.*1.*2), Hgp by done.
    rewrite <-!app_assoc. do 2 apply Permutation_app_head. rewrite !app_assoc. apply Permutation_app_tail.
    rewrite (Permutation_app_comm _ (omap pc_between ws)). by rewrite !app_assoc.
  - intros k d [Hk|Hk]%elem_of_app; [by apply Hdirs|right; by apply Hback].
  - by rewrite idle_holders.
  - by intros ? ? ? ?%elem_of_nil.
  - intros g p rest H%idle_lookup. done.
  - intros g p [H%idle_lookup|H%idle_lookup]; done.
  - intros listing rest [= <- <-]. split; [constructor|]. split; [done|]. by split; intros ? ?%elem_of_nil.
Qed.
(** ** Runs *)

Lemma worker_ok a g pc w w' : farm_ok w → workers w !! g = Some pc →
  (lossy = false → ∀ h p, a = Crash h → pc ≠ Taken p) → (full = true → ∀ h, a ≠ Crash h) →
  worker_act measure has_records a g pc w = Some w' → farm_ok w'.
Proof.
  destruct w as [dirs bak gpu tmp part done ws mg]. intros Hok Hg Htaken Hcrash Hv. simpl in Hg.
  destruct a as [|h|h|h|h|h|h|h| | |]; try done; destruct pc as [|p|p rest|p|p]; try done; cbn in Hv.
  - destruct (head _) as [p|] eqn:Eh; [|done]. apply head_sorted, list_elem_of_filter in Eh as [Ep _].
    destruct (od_get dirs p) as [tasks|] eqn:Eg; [|done]. injection Hv as <-. by apply meta_take_ok.
  - injection Hv as <-. by apply meta_start_ok.
  - destruct rest as [|db rest]; [done|]. injection Hv as <-. by apply step_ok.
  - destruct rest; [|done]. injection Hv as <-. by eapply finish_ok.
  - injection Hv as <-. apply crash_early_ok; [done|done|..].
    + destruct lossy; [done|]. by destruct (Htaken eq_refl h p).
    + destruct full; [|done]. by destruct (Hcrash eq_refl h).
  - injection Hv as <-. eapply finish_ok; [done..|]. intros Hf. by destruct (Hcrash Hf h).
  - injection Hv as <-. by apply meta_remove_ok.
  - destruct (od_get tmp p) as [r|] eqn:Er; injection Hv as <-; [by eapply meta_deliver_ok|by eapply deliver_lost].
Qed.

Lemma meta_perform_ok a w w' : farm_ok w → (lossy = false → careful a w = true) → (full = true → ∀ g, a ≠ Crash g) →
  perform measure has_records a w = Some w' → farm_ok w'.
Proof.
  intros Hok Hcare Hcrash Hv.
  destruct a as [|g|g|g|g|g|g|g| | |] eqn:Ea; [| | | | | | | | | |by eapply restart_ok].
  1: { destruct w. by eapply divide_ok. }
  1-7: cbn [perform] in Hv; destruct (workers w !! g) as [pc|] eqn:Eg; [|done];
    (eapply worker_ok; [exact Hok|exact Eg| |exact Hcrash|exact Hv]); intros Hl h p [= ->] ->; specialize (Hcare Hl);
    simpl in Hcare; by rewrite Eg in Hcare.
  - destruct w as [dirs bak gpu tmp part done ws [l rest]]. cbn in Hv. destruct rest; [|done]. injection Hv as <-.
    by eapply meta_glob_ok.
  - destruct w as [dirs bak gpu tmp part done ws [l rest]]. cbn [perform merger] in Hv. destruct rest; [done|].
    by eapply meta_visit_ok.
Qed.

Lemma run_ok acts : ∀ w w', farm_ok w →
  (lossy = false → careful_run measure has_records acts w = true) → (full = true → ∀ g, Crash g ∉ acts) →
  run_actions measure has_records acts w = Some w' → farm_ok w'.
Proof.
  induction acts as [|a acts IH]; intros w w' Hok Hcare Hcrash Hr; simpl in *; [by injection Hr as <-|].
  destruct (perform measure has_records a w) as [w1|] eqn:Ep; [|done]. eapply IH; [|..|exact Hr].
  - eapply meta_perform_ok; [exact Hok| | |exact Ep].
    + intros Hl. by apply Hcare, andb_true_iff in Hl as [? _].
    + intros Hf g ->. apply (Hcrash Hf g). left.
  - intros Hl. by apply Hcare, andb_true_iff in Hl as [_ ?].
  - intros Hf g Hg. apply (Hcrash Hf g). by right.
Qed.

Lemma meta_names_nodup (l : list string) : NoDup (concat (part_names <$> l)) → NoDup l.
Proof.
  induction l as [|f l IH]; [constructor|]. rewrite fmap_cons. cbn [concat]. rewrite NoDup_app.
  intros (_ & Hd' & Hl). constructor; [|by apply IH]. intros Hf. apply (Hd' (part_name f 0)).
  - apply elem_part_names. by exists 0%Z.
  - apply list_elem_of_concat. exists (part_names f). split; [apply elem_part_names; by exists 0%Z|by apply list_elem_of_fmap_2].
Qed.

Lemma measured_nodup w : farm_ok w → NoDup (od_keys (measured w)).
Proof.
  intros Hok%tokens_nodup. apply meta_names_nodup. unfold tokens in Hok.
  do 3 apply NoDup_app in Hok as (_ & _ & Hok). done.
Qed.

(** Nothing left but merged results: of every directory. *)
Lemma tokens_done w : farm_ok w → lossy = false → to_measure w = [] →
  Forall (λ pc, pc = Idle) (workers w) → measured_part w = [] → od_keys (measured w) ≡ₚ dirs0.*1.
Proof.
  intros Hok Hl Hd Hw Hp. destruct (ok_tokens _ Hok) as (lost & Ht & Hlost). rewrite (Hlost Hl), app_nil_r in Ht.
  unfold tokens in Ht. rewrite Hd, Hp in Ht. simpl in Ht.
  assert (omap pc_part (workers w) = []) as Hw' by (clear -Hw; by induction Hw as [|pc ws -> _ IH]).
  rewrite Hw' in Ht. simpl in Ht. unfold all_names in Ht.
  assert (∀ (l : list string) f, f ∈ l ↔ part_name f 0 ∈ concat (part_names <$> l)) as Hin.
  { intros l f. rewrite list_elem_of_concat. split.
    - intros Hf. exists (part_names f). split; [apply elem_part_names; by exists 0%Z|by apply list_elem_of_fmap_2].
    - intros (ps & Hps & (g & -> & Hg)%list_elem_of_fmap). assert (f = g) as ->; [|done].
      eapply part_names_disjoint; [|exact Hps]. apply elem_part_names. by exists 0%Z. }
  apply NoDup_Permutation; [by apply measured_nodup|done|].
  intros f. rewrite (Hin (od_keys (measured w))), (Hin dirs0.*1). by rewrite Ht.
Qed.
End Spec.

(** C38: what the farm loses and what it does not.  The directories submitted have
    different names without [_part_], and the databases of each have different names.  For every schedule of
    the divider, the workers, the merger, crashes of measuring processes and restarts of the
    script: no part of a directory is in two places (undivided, to measure, with a worker,
    measured, merged), and every part is in one of them or lost; each directory in measured/ is
    there once and is one that was submitted, with the results of its own databases, each once,
    and of all of them where no process crashed.  Nothing is lost by a schedule that is
    [careful_run]: no process ends before it has made the directory of its results and no restart
    comes between the [rm] and the [mv] of a worker; when such a schedule leaves nothing to do,
    every directory is in measured/.  (The two careless steps do lose parts: [meta_farm_crash_loses],
    [meta_farm_restart_loses].  Dividing and merging are one action each: a kill within their
    loops is not covered.) *)
Theorem meta_farm_conserves {C R} (measure : C → R) (has_records : R → bool) (dirs0 : list (string * list (string * C)))
    acts n w :
  NoDup dirs0.*1 → (∀ f, f ∈ dirs0.*1 → MetaFarm.is_part f = false) →
  (∀ f tasks, (f, tasks) ∈ dirs0 → NoDup tasks.*1) →
  run_actions measure has_records acts (farm_init dirs0 n) = Some w →
  let safe := careful_run measure has_records acts (farm_init dirs0 n) in
  (∃ lost, tokens w ++ lost ≡ₚ all_names dirs0 ∧ (safe = true → lost = [])) ∧
  NoDup (tokens w) ∧ NoDup (od_keys (measured w)) ∧
  (∀ f r, (f, r) ∈ measured w → ∃ tasks, (f, tasks) ∈ dirs0 ∧ partial measure r tasks ∧
     ((∀ g, Crash g ∉ acts) → complete r tasks)) ∧
  (safe = true → to_measure w = [] → Forall (λ pc, pc = Idle) (workers w) → measured_part w = [] →
    od_keys (measured w) ≡ₚ dirs0.*1).
Proof.
  intros Hnd Hnames Hdbs Hr safe.
  assert (∀ full, (full = true → ∀ g, Crash g ∉ acts) → farm_ok measure dirs0 full (negb safe) w) as Hok.
  { intros full Hfull. eapply run_ok; [done..| | |exact Hfull|exact Hr]; [by apply meta_init_ok|].
    intros Hs. by apply negb_false_iff in Hs. }
  pose proof (Hok false ltac:(done)) as Hok'. split; [|split; [|split; [|split]]].
  - destruct (ok_tokens _ _ _ _ _ Hok') as (lost & Hl & Hs). exists lost. split; [done|].
    intros Hsafe. apply Hs. by rewrite Hsafe.
  - by eapply tokens_nodup.
  - by eapply measured_nodup.
  - intros f r Hfr. destruct (ok_done _ _ _ _ _ Hok' f r Hfr) as (tasks & Ht & Hp & _). exists tasks.
    split; [done|]. split; [done|]. intros Hno.
    destruct (ok_done _ _ _ _ _ (Hok true (λ _, Hno)) f r Hfr) as (tasks' & Ht' & _ & Hc).
    assert (tasks' = tasks) as <- by (by eapply dirs_fun). by apply Hc.
  - intros Hsafe. eapply tokens_done; [done..|]. by rewrite Hsafe.
Qed.

(** The runs of the transition system are those of the schedules. *)
Lemma farm_runs {C R} (measure : C → R) has_records w w' :
  rtc (farm_step measure has_records) w w' ↔ ∃ acts, run_actions measure has_records acts w = Some w'.
Proof.
  split.
  - induction 1 as [w|w w1 w2 [a Ha] _ [acts IH]]; [by exists []|]. exists (a :: acts). simpl. by rewrite Ha.
  - intros [acts Hr]. revert w Hr. induction acts as [|a acts IH]; intros w Hr; simpl in Hr; [by injection Hr as <-|].
    destruct (perform measure has_records a w) as [w1|] eqn:Ep; [|done]. eapply rtc_l; [by exists a|by apply IH].
Qed.

(** Two workers measure a directory of two databases; the script is restarted once. *)
Definition farm_dirs : list (string * list (string * nat)) := [("net", [("d0", 5); ("d1", 7)])].
Definition one_part (g : nat) (dbs : nat) : list action :=
  [Take g; Start g] ++ replicate dbs (Step g) ++ [End g; Remove g; Deliver g].
Definition farm_schedule : list action :=
  [Divide; Take 0; Start 0; Take 1; Restart] ++ one_part 0 1 ++ one_part 1 1 ++
  concat (replicate 10 (one_part 0 0)) ++ [Glob] ++ replicate 12 Visit.
Definition farm_end : option farm := run_actions S (λ r, 0 <? r) farm_schedule (farm_init farm_dirs 2).

Lemma meta_farm_conserves_witness : ∃ w, farm_end = Some w ∧
  measured w = [("net", [("d0", 6); ("d1", 8)])] ∧ od_keys (measured w) ≡ₚ farm_dirs.*1.
Proof.
  destruct farm_end as [w|] eqn:E; [|by vm_compute in E].
  assert (measured w = [("net", [("d0", 6); ("d1", 8)])]) as Hm by (vm_compute in E; by injection E as <-).
  exists w. split; [done|]. split; [done|].
  apply (meta_farm_conserves S (λ r, 0 <? r) farm_dirs farm_schedule 2 w).
  - by apply (bool_decide_unpack _).
  - by intros f [->|[]%elem_of_nil]%elem_of_cons.
  - intros f tasks [[= -> ->]|[]%elem_of_nil]%elem_of_cons. by apply (bool_decide_unpack _).
  - exact E.
  - by vm_compute.
  - vm_compute in E. by injection E as <-.
  - vm_compute in E. injection E as <-. by repeat constructor.
  - vm_compute in E. by injection E as <-.
Defined.

(** ** Where the restrictions matter *)

Definition any_actions (acts : list action) (dirs : list (string * list (string * nat))) : option farm :=
  run_actions S (λ r, 0 <? r) acts (farm_init dirs 1).

(** A process that fails before it has made the directory of its results: the worker removes the part. *)
Example meta_farm_crash_loses :
  (λ w, (bool_decide ("net_part_0" ∈ tokens w), od_keys (measured_part w))) <$>
    any_actions [Divide; Take 0; Crash 0; Remove 0; Deliver 0] farm_dirs = Some (false, []).
Proof. by vm_compute. Qed.

(** A restart between the [rm] and the [mv] of a worker: the results stay in measured_tmp. *)
Example meta_farm_restart_loses :
  (λ w, (bool_decide ("net_part_0" ∈ tokens w), od_keys (measured_tmp w))) <$>
    any_actions [Divide; Take 0; Start 0; Step 0; End 0; Remove 0; Restart] farm_dirs = Some (false, ["net_part_0"]).
Proof. by vm_compute. Qed.

(** A directory without databases: [shutil.move] of results that are not there ends the merger. *)
Example meta_farm_empty_dir :
  any_actions ([Divide] ++ concat (replicate 12 (one_part 0 0)) ++ [Glob]) [("net", [])] ≠ None ∧
  any_actions ([Divide] ++ concat (replicate 12 (one_part 0 0)) ++ [Glob; Visit]) [("net", [])] = None.
Proof. split; [by vm_compute|by vm_compute]. Qed.
