(* ===== verification/Driver.v ===== *)
(** * The driver of the fine-tuning and test-tuning loops

    The commands that [run_tuning] issues, as data, and its polling loop as a
    transition function.
    Source: src/gen/run.py. *)

From S2P Require Import Prelude PyFloat PyText Corpus.

(** ** Commands *)

(** What [make_dataset.py] reads: [dataset/to_measure_programs/<model>] or
    [dataset/measure_records/<model>]. *)
Inductive dataset := ToMeasurePrograms | MeasureRecords.

(** The model file and the sketches given to [gen_state.py], and where the
    programs are saved. *)
Inductive gen_job := GenTrain0 | GenTrain | GenEval | GenEvalTuning.

(** The commands, in the order of the source; [RsyncIn] copies a measured file
    from the remote machine, [Push] a file of programs to it. *)
Inductive command :=
  | MakeDataset (t : for_type) (d : dataset) (keep_cnt test_file_idx : option Z) (scheduled : bool)
  | GenState (job : gen_job) (allow_repeat : bool) (keep_cnt : Z)
  | Push (job : gen_job) (file : string)
  | RsyncIn (file : string)
  | MoveIn (file : string)
  | AddFile (key file : string)
  | Postprocess
  | TrainBest
  | WaitTraining
  | TaskScheduler
  | SpeedupEval (for_testtuning : bool)
  | Notify
  | MoveToMoved (file : string)
  | PrintInvalid (file : string)
  | Sleep.

#[global] Instance for_type_eq_dec : EqDecision for_type.
Proof. solve_decision. Defined.
#[global] Instance dataset_eq_dec : EqDecision dataset.
Proof. solve_decision. Defined.
#[global] Instance gen_job_eq_dec : EqDecision gen_job.
Proof. solve_decision. Defined.
#[global] Instance command_eq_dec : EqDecision command.
Proof. solve_decision. Defined.

(** The arguments of [run_tuning] that matter. *)
Record tuning_cfg := mkCfg {
  init_times : Z;
  finetuning_schedule_times : Z;
  testtuning_schedule_times : Z
}.

(** [f'finetuning_{i}.json'] and the like. *)
Definition indexed (prefix : string) (i : Z) : string := prefix +:+ pretty i +:+ ".json".

(** ** The initial programs *)

Definition init_finetuning (cfg : tuning_cfg) : list command :=
  concat ((λ i,
    [MakeDataset FOR_GEN_TRAIN_SKETCH ToMeasurePrograms (Some 48%Z) (Some i) false;
     GenState GenTrain0 true 16; Push GenTrain0 (indexed "finetuning_" i)]) <$> range 0 (init_times cfg)).

Definition init_testtuning (cfg : tuning_cfg) : list command :=
  concat ((λ i,
    [MakeDataset FOR_GEN_EVALTUNING_SKETCH ToMeasurePrograms (Some 64%Z) None false;
     GenState GenEvalTuning true 32; Push GenEvalTuning (indexed "testtuning_" i)]) <$> range 0 (init_times cfg)).

(** ** The index of a file *)

Definition digit (c : Ascii.ascii) : option Z :=
  let n := Ascii.nat_of_ascii c in
  if (48 <=? n) && (n <=? 57) then Some (Z.of_nat n - 48)%Z else None.

(** The value of digits, after those with value [acc]; an underscore may stand
    between two digits. *)
Fixpoint digits_value (acc : Z) (s : string) : py Z :=
  match s with
  | EmptyString => Ret acc
  | String c s' =>
      match digit c, s' with
      | Some d, _ => digits_value (10 * acc + d)%Z s'
      | None, String c' s'' =>
          match digit c' with
          | Some d => if decide (c = "_"%char) then digits_value (10 * acc + d)%Z s'' else Raise ValueError
          | None => Raise ValueError
          end
      | None, EmptyString => Raise ValueError
      end
  end.

Definition unsigned_value (s : string) : py Z :=
  match s with
  | String c s' => match digit c with Some d => digits_value d s' | None => Raise ValueError end
  | EmptyString => Raise ValueError
  end.

(** [int(s)]: blanks around the number and a sign are allowed. *)
Definition py_int (s : string) : py Z :=
  match strip s with
  | EmptyString => Raise ValueError
  | String c s' =>
      if decide (c = "-"%char) then let? z := unsigned_value s' in Ret (- z)%Z
      else if decide (c = "+"%char) then unsigned_value s'
      else unsigned_value (String c s')
  end.

(** [s[n:]]. *)
Fixpoint str_drop (n : nat) (s : string) : string :=
  match n, s with
  | S n', String _ s' => str_drop n' s'
  | _, _ => s
  end.

(** [int(os.path.splitext(file_path)[0][len(prefix):])]. *)
Definition file_idx (prefix file_path : string) : py Z :=
  py_int (str_drop (String.length prefix) (splitext0 file_path)).

(** ** One poll *)

(** The outcome of an iteration: the wanted index, the commands, and whether
    the loop goes on. *)
Abbreviation outcome := (option Z * list command * bool)%type.

Definition poll_finetuning (cfg : tuning_cfg) (want_idx : option Z) (file_path : string) : py outcome :=
  let? test_file_idx := file_idx "finetuning_" file_path in
  let want := default test_file_idx want_idx in
  if decide (test_file_idx ≠ want) then Ret (Some want, [RsyncIn file_path; Sleep], true) else
  let d := if bool_decide (test_file_idx + init_times cfg < finetuning_schedule_times cfg)%Z
           then ToMeasurePrograms else MeasureRecords in
  Ret (Some (want + 1)%Z,
    [RsyncIn file_path; MoveIn file_path; AddFile "finetuning_files" file_path; Postprocess;
     MakeDataset FOR_GEN_BEST MeasureRecords None None false; TrainBest;
     MakeDataset FOR_GEN_TRAIN_SKETCH d (Some 48%Z) (Some (test_file_idx + init_times cfg)%Z) false;
     WaitTraining] ++
    (if bool_decide (test_file_idx `mod` 4 = 3)%Z
     then [GenState GenEval true 32; Push GenEval (indexed "0_test_" test_file_idx)] else []) ++
    [GenState GenTrain false 16; Push GenTrain (indexed "finetuning_" (test_file_idx + init_times cfg));
     MoveToMoved file_path; Sleep], true).

Definition poll_test (want_idx : option Z) (file_path : string) : py outcome :=
  let? _ := file_idx "0_test_" file_path in
  Ret (want_idx, [RsyncIn file_path; MoveIn file_path; AddFile "test_files" file_path;
                  SpeedupEval false; Notify; MoveToMoved file_path; Sleep], true).

(** [len_tasks] is [find_potential_files_len()] after the scheduler has run. *)
Definition keep_cnt_factor (len_tasks : Z) : Z :=
  if bool_decide (len_tasks < 20)%Z then 4 else if bool_decide (len_tasks ≤ 2)%Z then 4 else 1.

Definition poll_testtuning (cfg : tuning_cfg) (want_idx : option Z) (len_tasks : Z) (file_path : string) :
    py outcome :=
  let? test_file_idx := file_idx "testtuning_" file_path in
  let want := default test_file_idx want_idx in
  if decide (test_file_idx ≠ want) then Ret (Some want, [RsyncIn file_path; Sleep], true) else
  let start :=
    [RsyncIn file_path; MoveIn file_path; AddFile "testtuning_files" file_path; Postprocess;
     MakeDataset FOR_GEN_BEST_ALL MeasureRecords None None false; TrainBest; TaskScheduler] in
  if bool_decide (len_tasks = 0)%Z then Ret (Some (want + 1)%Z, start, false) else
  let k := keep_cnt_factor len_tasks in
  let d := if bool_decide (test_file_idx + init_times cfg < testtuning_schedule_times cfg)%Z
           then ToMeasurePrograms else MeasureRecords in
  Ret (Some (want + 1)%Z, start ++
    [MakeDataset FOR_GEN_EVALTUNING_SKETCH d (Some (128 * k)%Z) None true; WaitTraining;
     GenState GenEvalTuning false (64 * k);
     Push GenEvalTuning (indexed "testtuning_" (test_file_idx + init_times cfg));
     SpeedupEval true; MoveToMoved file_path; Sleep], true).

(** An iteration of the loop on the listing of the measured files. *)
Definition poll (cfg : tuning_cfg) (want_idx : option Z) (measured_files : list string) (len_tasks : Z) :
    py outcome :=
  match measured_files with
  | [] => Ret (want_idx, [Sleep], true)
  | file_path :: _ =>
      if str_contains "finetuning_" file_path then poll_finetuning cfg want_idx file_path
      else if str_contains "0_test_" file_path then poll_test want_idx file_path
      else if str_contains "testtuning_" file_path then poll_testtuning cfg want_idx len_tasks file_path
      else Ret (want_idx, [PrintInvalid file_path; Sleep], true)
  end.

(** A run of the loop: the listings it sees and the lengths the scheduler
    leaves. *)
Section Loop.
Context {Cmd : Type} (poll : option Z → list string → Z → py (option Z * list Cmd * bool)).

Fixpoint run_polls (want_idx : option Z) (polls : list (list string * Z)) : py (option Z * list Cmd * bool) :=
  match polls with
  | [] => Ret (want_idx, [], true)
  | (files, len_tasks) :: polls' =>
      let? (want_idx, commands, go) := poll want_idx files len_tasks in
      if (go : bool) then
        let? (want_idx, commands', go) := run_polls want_idx polls' in
        Ret (want_idx, commands ++ commands', go)
      else Ret (want_idx, commands, false)
  end.
End Loop.

(** [run_tuning]. *)
Definition run_tuning (cfg : tuning_cfg) (finetuning finetuning_init testtuning testtuning_init : bool)
    (polls : list (list string * Z)) : py outcome :=
  let? (want_idx, commands, go) := run_polls (poll cfg) None polls in
  Ret (want_idx,
    (if finetuning && finetuning_init then init_finetuning cfg else []) ++
    (if testtuning && testtuning_init then init_testtuning cfg else []) ++ commands, go).
