(* ===== verification/DriverSpec.v ===== *)
(** * The driver: properties *)

From S2P Require Import Prelude PyFloat PyText Corpus Driver.

(** ** Indexes in file names *)

Lemma digits_value_char d s acc :
  (0 ≤ d < 10)%N → digits_value acc (String (pretty_N_char d) s) = digits_value (10 * acc + Z.of_N d) s.
Proof.
  intros Hd. simpl.
  assert (digit (pretty_N_char d) = Some (Z.of_N d)) as ->; [|done].
  assert (d ∈ [0; 1; 2; 3; 4; 5; 6; 7; 8; 9]%N) as Hin.
  { destruct d as [|d]; [left|]. do 9 (destruct d as [d|d|]; try (exfalso; lia); try set_solver). }
  repeat (apply elem_of_cons in Hin as [->|Hin]; [done|]). by apply not_elem_of_nil in Hin.
Qed.

Lemma digits_value_pretty_go x : ∀ s, digits_value 0 (pretty_N_go x s) = digits_value (Z.of_N x) s.
Proof.
  induction (N.lt_wf_0 x) as [x _ IH]. intros s.
  destruct (decide (x = 0)%N) as [->|Hx]; [done|].
  rewrite pretty_N_go_step by lia. rewrite IH by (apply N.div_lt; lia).
  rewrite digits_value_char; cycle 1.
  { split; [apply N.le_0_l|by apply N.mod_lt]. }
  f_equal.
  pose proof (N.div_mod x 10 ltac:(done)). lia.
Qed.

Fixpoint all_digits (s : string) : Prop :=
  match s with EmptyString => True | String c s' => is_Some (digit c) ∧ all_digits s' end.

Lemma all_digits_pretty x : ∀ s, all_digits s → all_digits (pretty_N_go x s).
Proof.
  induction (N.lt_wf_0 x) as [x _ IH]. intros s Hs.
  destruct (decide (x = 0)%N) as [->|Hx]; [done|].
  rewrite pretty_N_go_step by lia. apply IH; [apply N.div_lt; lia|]. split; [|done].
  assert (∀ d, (0 ≤ d < 10)%N → is_Some (digit (pretty_N_char d))) as Hd.
  { intros d Hd. assert (d ∈ [0; 1; 2; 3; 4; 5; 6; 7; 8; 9]%N) as Hin.
    { destruct d as [|d]; [left|]. do 9 (destruct d as [d|d|]; try (exfalso; lia); try set_solver). }
    repeat (apply elem_of_cons in Hin as [->|Hin]; [by eexists|]). by apply not_elem_of_nil in Hin. }
  apply Hd. split; [apply N.le_0_l|by apply N.mod_lt].
Qed.

(** A digit is no blank and no sign. *)
Lemma digit_plain c : is_Some (digit c) → is_space c = false ∧ c ≠ "-"%char ∧ c ≠ "+"%char.
Proof.
  intros [d Hd]. split; [|split; by intros ->]. unfold digit in Hd. unfold is_space.
  destruct (Nat.leb_spec 48 (Ascii.nat_of_ascii c)); [|done].
  destruct (Nat.leb_spec (Ascii.nat_of_ascii c) 13), (Nat.leb_spec (Ascii.nat_of_ascii c) 32); try lia.
Qed.

Lemma strip_digits s : all_digits s → strip s = s.
Proof.
  intros Hs. unfold strip. assert (lstrip s = s) as ->.
  { destruct s as [|c s]; [done|]. destruct Hs as [Hc _]. simpl. by destruct (digit_plain c Hc) as [-> _]. }
  induction s as [|c s IH]; [done|]. destruct Hs as [Hc Hs]. simpl. rewrite IH by done.
  destruct s; [by destruct (digit_plain c Hc) as [-> _]|done].
Qed.

Lemma py_int_digits c s : all_digits (String c s) → py_int (String c s) = digits_value 0 (String c s).
Proof.
  intros Hs. unfold py_int. rewrite strip_digits by done. destruct Hs as [Hc _].
  destruct (digit_plain c Hc) as (_ & Hm & Hp). rewrite !decide_False by done. destruct Hc as [d Hd].
  simpl. by rewrite Hd.
Qed.

Lemma py_int_pretty i : (0 ≤ i)%Z → py_int (pretty i) = Ret i.
Proof.
  intros Hi. destruct i as [|p|p]; [done| |lia].
  change (pretty (Z.pos p)) with (pretty (N.pos p)).
  pose proof (digits_value_pretty_go (N.pos p) "") as H.
  assert (pretty (N.pos p) = pretty_N_go (N.pos p) "") as E by done. rewrite E. clear E.
  pose proof (all_digits_pretty (N.pos p) "" I) as Hd.
  destruct (pretty_N_go (N.pos p) "") as [|c s]; [done|]. by rewrite py_int_digits.
Qed.

(** The forms of a number that [int] reads besides plain digits. *)
Example py_int_forms :
  py_int "+3" = Ret 3%Z ∧ py_int "1_0" = Ret 10%Z ∧ py_int " -7 " = Ret (-7)%Z ∧
  py_int "_1" = Raise ValueError ∧ py_int "1__0" = Raise ValueError ∧ py_int "1_" = Raise ValueError.
Proof. by vm_compute. Qed.

Lemma str_drop_app p s : str_drop (String.length p) (p +:+ s) = s.
Proof. induction p as [|a p IH]; [by destruct s|]. apply IH. Qed.

(** The prefixes of the files the driver exchanges. *)
Abbreviation prefixes := ["finetuning_"; "0_test_"; "testtuning_"].

(** The index written into the name of a file is the index read back when
    the measured file returns. *)
Theorem file_idx_roundtrip prefix i :
  prefix ∈ prefixes → (0 ≤ i)%Z → file_idx prefix (indexed prefix i) = Ret i.
Proof.
  intros Hp Hi. unfold file_idx, indexed, splitext0.
  assert (prefix +:+ pretty i +:+ ".json" = (prefix +:+ pretty i) +:+ String "." "json") as ->.
  { change (".json") with (String "." "json"). apply append_assoc. }
  rewrite rsplit1_app by done.
  assert (all_dots (prefix +:+ pretty i) = false) as ->.
  { repeat (apply elem_of_cons in Hp as [->|Hp]; [done|]). by apply not_elem_of_nil in Hp. }
  by rewrite str_drop_app, py_int_pretty.
Qed.

(** ** Order of the rounds *)

(** All but the last one, when the loop has stopped in the middle of it. *)
Definition completed {A} (go : bool) (l : list A) : list A := if go then l else take (length l - 1) l.

Lemma completed_app {A} go (l k : list A) :
  (go = false → k ≠ []) → completed go (l ++ k) = l ++ completed go k.
Proof.
  destruct go; [done|]. intros Hk. specialize (Hk eq_refl). simpl. rewrite length_app.
  destruct k as [|x k]; [done|]. simpl.
  rewrite take_app_ge by lia. by replace (length l + S (length k) - 1 - length l) with (length k - 0) by lia.
Qed.

(** Everything that the commands give up, by [b], they have taken in before, by
    [a], and in the same order; [pending] is what has been taken in already. *)
Fixpoint in_turn {C X} (a b : C → option X) (pending : list X) (cmds : list C) : Prop :=
  match cmds with
  | [] => True
  | c :: cmds' =>
      match b c with
      | None => in_turn a b (pending ++ omap a [c]) cmds'
      | Some x =>
          match pending with
          | y :: pending' => y = x ∧ in_turn a b (pending' ++ omap a [c]) cmds'
          | [] => False
          end
      end
  end.

Lemma omap_head {C X} (a : C → option X) c cmds : omap a (c :: cmds) = omap a [c] ++ omap a cmds.
Proof. csimpl. by destruct (a c). Qed.

Lemma omap_here {C X} (b : C → option X) c cmds :
  omap b (c :: cmds) = match b c with Some x => x :: omap b cmds | None => omap b cmds end.
Proof. done. Qed.

Lemma in_turn_prefix {C X} (a b : C → option X) cmds n : ∀ pending,
  in_turn a b pending cmds → omap b (take n cmds) `prefix_of` pending ++ omap a (take n cmds).
Proof.
  revert n. induction cmds as [|c cmds IH]; intros n pending Ht; [rewrite take_nil; apply prefix_nil|].
  destruct n as [|n]; [apply prefix_nil|]. cbn [take]. rewrite (omap_head a), (omap_here b). cbn [in_turn] in Ht.
  destruct (b c) as [x|]; [|rewrite (assoc_L (++)); by apply IH].
  destruct pending as [|y pending]; [done|]. destruct Ht as [-> Ht].
  change ((x :: pending) ++ ?l) with (x :: (pending ++ l)). apply prefix_cons. rewrite (assoc_L (++)). by apply IH.
Qed.

Lemma in_turn_app {C X} (a b : C → option X) c1 c2 rest : ∀ pending,
  in_turn a b pending c1 → pending ++ omap a c1 = omap b c1 ++ rest → in_turn a b rest c2 →
  in_turn a b pending (c1 ++ c2).
Proof.
  induction c1 as [|c c1 IH]; intros pending H1 Heq H2; [simpl in *; rewrite app_nil_r in Heq; by subst|].
  rewrite (omap_head a), (omap_here b) in Heq. cbn [in_turn app] in *. destruct (b c) as [x|].
  - destruct pending as [|y pending]; [done|]. destruct H1 as [-> H1]. apply (f_equal tail) in Heq.
    change (pending ++ omap a [c] ++ omap a c1 = omap b c1 ++ rest) in Heq. split; [done|].
    apply IH; [done| |done]. by rewrite <-(assoc_L (++)).
  - apply IH; [done| |done]. by rewrite <-(assoc_L (++)).
Qed.

Lemma in_turn_none {C X} (a b : C → option X) cmds : ∀ pending, omap b cmds = [] → in_turn a b pending cmds.
Proof.
  induction cmds as [|c cmds IH]; intros pending Hb; [done|]. rewrite omap_here in Hb. cbn [in_turn]. destruct (b c); [done|]. by apply IH.
Qed.

(** A driver whose iterations either do not touch the rounds or take in one
    round: what its commands do to the rounds, the files of new programs, the
    measured files taken in and those put away. *)
Section Rounds.
Context {Cmd : Type} (poll : option Z → list string → Z → py (option Z * list Cmd * bool))
  (tuned_by : Cmd → option (string * Z)) (pushed_by accepted_by moved_by : Cmd → option string)
  (next_file : string * Z → string).

(** The file of new programs that answers the round of a command. *)
Definition answer_to (c : Cmd) : option string := next_file <$> tuned_by c.

Lemma omap_answer (cmds : list Cmd) : omap answer_to cmds = next_file <$> omap tuned_by cmds.
Proof.
  unfold answer_to. induction cmds as [|c cmds IH]; [done|]. csimpl. rewrite IH. by destruct (tuned_by c).
Qed.

(** The two kinds of iterations. *)
Inductive poll_kind (want : option Z) : option Z * list Cmd * bool → Prop :=
  | poll_other want' cmds :
      want' = want →
      omap tuned_by cmds = [] → omap pushed_by cmds = [] → omap accepted_by cmds = omap moved_by cmds →
      in_turn accepted_by moved_by [] cmds →
      poll_kind want (want', cmds, true)
  | poll_round round cmds go f :
      (want = None ∨ want = Some round.2) →
      omap tuned_by cmds = [round] → omap pushed_by cmds = completed go [next_file round] →
      omap accepted_by cmds = [f] → omap moved_by cmds = completed go [f] →
      in_turn accepted_by moved_by [] cmds → in_turn answer_to pushed_by [] cmds →
      poll_kind want (Some (round.2 + 1)%Z, cmds, go).

Hypothesis poll_kinds : ∀ want files n r, poll want files n = Ret r → poll_kind want r.

(** What holds of the commands of every iteration holds of those of a run. *)
Lemma run_polls_forall (P : Cmd → Prop) polls :
  (∀ want files n want' cmds go, poll want files n = Ret (want', cmds, go) → Forall P cmds) →
  ∀ want want' cmds go, run_polls poll want polls = Ret (want', cmds, go) → Forall P cmds.
Proof.
  intros HP. induction polls as [|[files n] polls IH]; intros want want' cmds go Hr; simpl in Hr.
  { injection Hr as _ <- _. constructor. }
  apply pbind_Ret in Hr as ([[w c] g] & Hp & Hr). pose proof (HP _ _ _ _ _ _ Hp) as Hc. destruct g.
  - apply pbind_Ret in Hr as ([[w2 c2] g2] & Hr & [= <- <- <-]). apply Forall_app. split; [done|by eapply IH].
  - by injection Hr as _ <- _.
Qed.

Record run_ok (want want' : option Z) (cmds : list Cmd) (go : bool) : Prop := {
  ro_order :
    want' = want ∧ omap tuned_by cmds = [] ∨
    ∃ s, (want = None ∨ want = Some s) ∧ want' = Some (s + zlen (omap tuned_by cmds))%Z ∧
         (omap tuned_by cmds).*2 = seqZ s (zlen (omap tuned_by cmds));
  ro_pushed : omap pushed_by cmds = completed go (next_file <$> omap tuned_by cmds);
  ro_moved : omap moved_by cmds = completed go (omap accepted_by cmds);
  ro_moved_turn : in_turn accepted_by moved_by [] cmds;
  ro_pushed_turn : in_turn answer_to pushed_by [] cmds;
  ro_last : go = false → omap tuned_by cmds ≠ [] ∧ omap accepted_by cmds ≠ []
}.

Lemma run_polls_ok polls : ∀ want want' cmds go,
  run_polls poll want polls = Ret (want', cmds, go) → run_ok want want' cmds go.
Proof.
  induction polls as [|[files len] polls IH]; intros want want' cmds go Hr; simpl in Hr.
  { injection Hr as <- <- <-. split; simpl; auto. }
  destruct (poll want files len) as [r|] eqn:Ep; simpl in Hr; [|done].
  apply poll_kinds in Ep. destruct Ep as [w1 c1 -> Ht Hp Ha Hmt|[p i] c1 g f Hw Ht Hp Ha Hm Hmt Hpt]; simpl in Hr.
  - destruct (run_polls poll want polls) as [[[w2 c2] g2]|] eqn:E2; simpl in Hr; [|done].
    injection Hr as <- <- <-. destruct (IH _ _ _ _ E2) as [Ho Hpu Hmo Hmt2 Hpt2 Hla].
    split; rewrite ?omap_app, ?Ht, ?Hp; simpl; try done.
    + rewrite completed_app by (intros; by apply Hla). by rewrite <-Hmo, Ha.
    + eapply (in_turn_app _ _ _ _ []); [done|by rewrite Ha, app_nil_r|done].
    + eapply (in_turn_app _ _ _ _ []); [by apply in_turn_none|by rewrite omap_answer, Ht, Hp|done].
    + intros Hg. destruct (Hla Hg). split; [done|]. by intros [_ ?]%app_eq_nil.
  - destruct g; simpl in Hr.
    + destruct (run_polls poll _ polls) as [[[w2 c2] g2]|] eqn:E2; simpl in Hr; [|done].
      injection Hr as <- <- <-. destruct (IH _ _ _ _ E2) as [Ho Hpu Hmo Hmt2 Hpt2 Hla]. simpl in *.
      split; rewrite ?omap_app, ?Ht, ?Hp, ?Ha, ?Hm; simpl.
      * right. exists i. split; [done|]. destruct Ho as [[-> ->]|(s & [?|Hs] & -> & Hseq)]; [done|done|].
        injection Hs as <-. split; [f_equal; unfold zlen; simpl; lia|].
        change (zlen ((p, i) :: omap tuned_by c2)) with (Z.of_nat (S (length (omap tuned_by c2)))).
        rewrite seqZ_cons by lia. f_equal.
        etrans; [exact Hseq|]. f_equal; unfold zlen; lia.
      * rewrite Hpu. symmetry.
        apply (completed_app g2 [next_file (p, i)]). intros Hg Hn. destruct (Hla Hg) as [Hne _].
        by destruct (omap tuned_by c2).
      * rewrite Hmo. symmetry. apply (completed_app g2 [f]). intros Hg. by apply Hla.
      * eapply (in_turn_app _ _ _ _ []); [done|by rewrite Ha, Hm|done].
      * eapply (in_turn_app _ _ _ _ []); [done|by rewrite omap_answer, Ht, Hp|done].
      * intros Hg. by split.
    + injection Hr as <- <- <-. simpl in *. split; rewrite ?Ht, ?Hp, ?Ha, ?Hm; simpl; try done.
      right. by exists i.
Qed.
End Rounds.

(** The round a command adds to a list of tuning files. *)
Definition tuned_by (c : command) : option (string * Z) :=
  match c with
  | AddFile key f =>
      if decide (key = "finetuning_files") then
        match file_idx "finetuning_" f with Ret i => Some ("finetuning_", i) | Raise _ => None end
      else if decide (key = "testtuning_files") then
        match file_idx "testtuning_" f with Ret i => Some ("testtuning_", i) | Raise _ => None end
      else None
  | _ => None
  end.

(** The files of new programs for tuning, the measured files taken in, and the
    measured files put away. *)
Definition pushed_by (c : command) : option string :=
  match c with Push GenEval _ => None | Push _ f => Some f | _ => None end.
Definition accepted_by (c : command) : option string :=
  match c with AddFile _ f => Some f | _ => None end.
Definition moved_by (c : command) : option string :=
  match c with MoveToMoved f => Some f | _ => None end.

Definition next_file (cfg : tuning_cfg) (round : string * Z) : string :=
  indexed round.1 (round.2 + init_times cfg).

(** A clause of [poll_kind] on the commands of an iteration. *)
Ltac poll_case Ei :=
  unfold answer_to; csimpl; rewrite ?Ei; csimpl; repeat split; done.

Lemma poll_cases cfg want files len_tasks r :
  poll cfg want files len_tasks = Ret r → poll_kind tuned_by pushed_by accepted_by moved_by (next_file cfg) want r.
Proof.
  destruct files as [|f files]; simpl; [intros [= <-]; by constructor|].
  destruct (str_contains "finetuning_" f).
  { unfold poll_finetuning. destruct (file_idx "finetuning_" f) as [i|] eqn:Ei; simpl; [|done].
    case_decide as Hne.
    - intros [= <-]. apply poll_other; try done. by destruct want.
    - intros [= <-].
      assert (default i want + 1 = i + 1)%Z as -> by lia.
      apply (poll_round _ _ _ _ (next_file cfg) want ("finetuning_", i) _ true f); [destruct want; simpl in *; subst; auto|..];
        destruct (bool_decide (i `mod` 4 = 3)%Z); poll_case Ei. }
  destruct (str_contains "0_test_" f).
  { unfold poll_test. destruct (file_idx "0_test_" f); simpl; [|done]. intros [= <-]. by apply poll_other. }
  destruct (str_contains "testtuning_" f); [|intros [= <-]; by apply poll_other].
  unfold poll_testtuning. destruct (file_idx "testtuning_" f) as [i|] eqn:Ei; simpl; [|done].
  case_decide as Hne.
  - intros [= <-]. apply poll_other; try done. by destruct want.
  - assert (default i want + 1 = i + 1)%Z as -> by lia.
    case_bool_decide; intros [= <-].
    + apply (poll_round _ _ _ _ (next_file cfg) want ("testtuning_", i) _ false f); [destruct want; simpl in *; subst; auto|..];
        poll_case Ei.
    + apply (poll_round _ _ _ _ (next_file cfg) want ("testtuning_", i) _ true f); [destruct want; simpl in *; subst; auto|..];
        poll_case Ei.
Qed.

(** C33: whatever listings the loop sees, the rounds it takes in have
    consecutive indexes from the first one seen: no round is skipped, repeated
    or reordered.  Each completed round [i] is answered by exactly one file of
    new programs, with index [i + init_times], and the measured files put away
    are those added to a list of results, in the same order.  At every point of
    the run, a file is put away only after it has been added, and programs are
    sent only after the round that they answer has been taken in. *)
Theorem rounds_in_order cfg polls want cmds go :
  run_polls (poll cfg) None polls = Ret (want, cmds, go) →
  let rounds := omap tuned_by cmds in
  (want = None ∧ rounds = [] ∨
   ∃ start, want = Some (start + zlen rounds)%Z ∧ rounds.*2 = seqZ start (zlen rounds)) ∧
  omap pushed_by cmds = completed go (next_file cfg <$> rounds) ∧
  omap moved_by cmds = completed go (omap accepted_by cmds) ∧
  ∀ n, omap moved_by (take n cmds) `prefix_of` omap accepted_by (take n cmds) ∧
       omap pushed_by (take n cmds) `prefix_of` (next_file cfg <$> omap tuned_by (take n cmds)).
Proof.
  intros Hr. destruct (run_polls_ok _ _ _ _ _ _ (poll_cases cfg) _ _ _ _ _ Hr) as [Ho Hp Hm Hmt Hpt _]. simpl.
  split; [|split; [done|split; [done|]]]; last first.
  { intros n. split; [by apply (in_turn_prefix _ _ _ n) in Hmt|].
    apply (in_turn_prefix _ _ _ n) in Hpt. by rewrite omap_answer in Hpt. }
  destruct Ho as [[-> ?]|(s & _ & ? & ?)]; [by left|right; by exists s].
Qed.

(** C40: the loop looks at the first listed file only.  While that is a tuning
    file with another index than the wanted one, every iteration copies it and
    sleeps: the wanted file is never taken, even when it is listed behind. *)
Theorem stalled_on_other_index cfg w prefix i f files lens :
  prefix = "finetuning_" ∨ prefix = "testtuning_" ∧ str_contains "finetuning_" f = false ∧
    str_contains "0_test_" f = false →
  str_contains prefix f = true → file_idx prefix f = Ret i → i ≠ w →
  run_polls (poll cfg) (Some w) ((λ n, (f :: files, n)) <$> lens) =
  Ret (Some w, concat ((λ _, [RsyncIn f; Sleep]) <$> lens), true).
Proof.
  intros Hpre Hc Hi Hne.
  assert (∀ n, poll cfg (Some w) (f :: files) n = Ret (Some w, [RsyncIn f; Sleep], true)) as Hpoll.
  { intros n. simpl. destruct Hpre as [->|(-> & -> & ->)]; rewrite Hc;
      unfold poll_finetuning, poll_testtuning; rewrite Hi; simpl; by rewrite decide_True. }
  induction lens as [|n lens IH]; [done|]. csimpl in *. rewrite Hpoll. simpl.
  rewrite IH. done.
Qed.
