(* ===== verification/MetaDriver.v ===== *)
(** * The driver of the MetaSchedule pipeline

    The commands that [run_tuning] issues, as data, its polling loop as a
    transition function, and the lists of tuned directories it keeps.
    Sources: src/meta/run.py, src/meta/meta_utils.py. *)

From S2P Require Import Prelude PyFloat PyText Corpus Measure Campaign Driver MetaCorpus.

(** ** The lists of directories (meta_utils.py) *)

Section Utils.
Context (loads : string → py json) (dumps : json → string) (hardware : option string).

(** The functions of meta_utils.py are those of src/gen/utils.py with other keys. *)
Definition add_finetuning_dirs : string → ST (option string) unit := add_files loads dumps hardware "finetuning_dirs".
Definition add_test_dirs : string → ST (option string) unit := add_files loads dumps hardware "test_dirs".
Definition add_testtuning_dirs : string → ST (option string) unit := add_files loads dumps hardware "testtuning_dirs".

Definition get_finetuning_dirs : option string → py json := get_files loads hardware "finetuning_dirs".
Definition get_test_dirs : option string → py json := get_files loads hardware "test_dirs".
Definition get_testtuning_dirs : option string → py json := get_files loads hardware "testtuning_dirs".
End Utils.

(** ** Commands *)

(** The commands in the order of the source.  [MFetch] zips a measured directory on
    the remote machine, copies it and unpacks it under [measured]; [MPush] does
    that with a directory of programs in the other direction; [MMoveIn] replaces the
    directory under [meta_data/measure_data_{model}], whose path [MAddDir] adds to a
    list of meta_utils.json. *)
Inductive meta_command :=
  | MMakeDataset (t : meta_for_type) (d : dataset) (keep_cnt test_file_idx : option Z) (scheduled : bool)
  | MGenState (job : gen_job) (save_name : string) (allow_repeat : bool) (keep_cnt : Z)
  | MPush (job : gen_job) (name : string)
  | MFetch (name : string)
  | MMoveIn (name : string)
  | MAddDir (key name : string)
  | MPostprocess
  | MTrainBest
  | MWaitTraining
  | MTaskScheduler
  | MSpeedupEval (for_testtuning : bool)
  | MNotify
  | MMoveToMoved (name : string)
  | MPrintInvalid (name : string)
  | MPrintDone
  | MSleep.

(** [f'finetuning_{i}'] and the like. *)
Definition dir_name (prefix : string) (i : Z) : string := prefix +:+ pretty i.

(** ** The initial programs *)

Definition meta_init_finetuning (cfg : tuning_cfg) : list meta_command :=
  concat ((λ i,
    [MMakeDataset META_FOR_GEN_TRAIN_SKETCH ToMeasurePrograms (Some 48%Z) (Some i) false;
     MGenState GenTrain0 (dir_name "finetuning_" i) true 16;
     MPush GenTrain0 (dir_name "finetuning_" i)]) <$> range 0 (init_times cfg)).

Definition meta_init_testtuning (cfg : tuning_cfg) : list meta_command :=
  concat ((λ i,
    [MMakeDataset META_FOR_GEN_EVALTUNING_SKETCH ToMeasurePrograms (Some 64%Z) None false;
     MGenState GenEvalTuning (dir_name "testtuning_" i) true 32;
     MPush GenEvalTuning (dir_name "testtuning_" i)]) <$> range 0 (init_times cfg)).

(** ** One poll *)

(** [f"meta_data/measure_data_{model}/{file_path}"]. *)
Definition measure_data_dir (model file_path : string) : string :=
  "meta_data/measure_data_" +:+ model +:+ "/" +:+ file_path.

Section Poll.
(** The numbers of [main]. *)
Context (cfg : tuning_cfg).

Abbreviation moutcome := (option Z * list meta_command * bool)%type.

(** [assert(False)] ends the process in the branches for later rounds. *)
Definition meta_poll_finetuning (want_idx : option Z) (file_path : string) : py moutcome :=
  let? test_file_idx := file_idx "finetuning_" file_path in
  let want := default test_file_idx want_idx in
  if decide (test_file_idx ≠ want) then Ret (Some want, [MFetch file_path; MSleep], true) else
  let next := (test_file_idx + init_times cfg)%Z in
  let? _ := pyassert (bool_decide (next < finetuning_schedule_times cfg)%Z) in
  Ret (Some (want + 1)%Z,
    [MFetch file_path; MMoveIn file_path; MAddDir "finetuning_dirs" file_path; MPostprocess;
     MMakeDataset META_FOR_GEN_BEST MeasureRecords None None false; MTrainBest;
     MMakeDataset META_FOR_GEN_TRAIN_SKETCH ToMeasurePrograms (Some 48%Z) (Some next) false;
     MWaitTraining] ++
    (if bool_decide (test_file_idx `mod` 4 = 3)%Z
     then [MGenState GenEval (dir_name "0_test_" test_file_idx) true 32;
           MPush GenEval (dir_name "0_test_" test_file_idx)] else []) ++
    [MGenState GenTrain (dir_name "finetuning_" next) false 16; MPush GenTrain (dir_name "finetuning_" next);
     MMoveToMoved file_path; MSleep], true).

Definition meta_poll_test (want_idx : option Z) (file_path : string) : py moutcome :=
  let? _ := file_idx "0_test_" file_path in
  Ret (want_idx, [MFetch file_path; MMoveIn file_path; MAddDir "test_dirs" file_path;
                  MSpeedupEval false; MNotify; MMoveToMoved file_path; MSleep], true).

(** [len_tasks] is [find_potential_dirs_len()] after the scheduler has run. *)
Definition meta_keep_cnt_factor (len_tasks : Z) : Z :=
  if bool_decide (len_tasks ≤ 30)%Z then 4
  else if bool_decide (len_tasks ≤ 40)%Z then 3
  else if bool_decide (len_tasks ≤ 60)%Z then 2
  else 1.

Definition meta_poll_testtuning (want_idx : option Z) (len_tasks : Z) (file_path : string) : py moutcome :=
  let? test_file_idx := file_idx "testtuning_" file_path in
  let want := default test_file_idx want_idx in
  if decide (test_file_idx ≠ want) then Ret (Some want, [MFetch file_path; MSleep], true) else
  let next := (test_file_idx + init_times cfg)%Z in
  let start :=
    [MFetch file_path; MMoveIn file_path; MAddDir "testtuning_dirs" file_path; MPostprocess;
     MMakeDataset META_FOR_GEN_BEST_ALL MeasureRecords None None false; MTrainBest; MTaskScheduler] in
  if bool_decide (len_tasks = 0)%Z then Ret (Some (want + 1)%Z, start ++ [MPrintDone], false) else
  let k := meta_keep_cnt_factor len_tasks in
  let? _ := pyassert (bool_decide (next < testtuning_schedule_times cfg)%Z) in
  Ret (Some (want + 1)%Z, start ++
    [MMakeDataset META_FOR_GEN_EVALTUNING_SKETCH ToMeasurePrograms (Some (128 * k)%Z) None true; MWaitTraining;
     MGenState GenEvalTuning (dir_name "testtuning_" next) false (64 * k);
     MPush GenEvalTuning (dir_name "testtuning_" next);
     MSpeedupEval true; MMoveToMoved file_path; MSleep], true).

(** An iteration of the loop on the listing of the measured directories. *)
Definition meta_poll (want_idx : option Z) (measured_files : list string) (len_tasks : Z) : py moutcome :=
  match measured_files with
  | [] => Ret (want_idx, [MSleep], true)
  | file_path :: _ =>
      if str_contains "finetuning_" file_path then meta_poll_finetuning want_idx file_path
      else if str_contains "0_test_" file_path then meta_poll_test want_idx file_path
      else if str_contains "testtuning_" file_path then meta_poll_testtuning want_idx len_tasks file_path
      else Ret (want_idx, [MPrintInvalid file_path; MSleep], true)
  end.

(** [run_tuning]. *)
Definition meta_run_tuning (for_finetuning finetuning_init testtuning_init : bool)
    (polls : list (list string * Z)) : py moutcome :=
  let? (want_idx, commands, go) := run_polls meta_poll None polls in
  Ret (want_idx,
    (if for_finetuning && finetuning_init then meta_init_finetuning cfg else []) ++
    (if negb for_finetuning && testtuning_init then meta_init_testtuning cfg else []) ++ commands, go).
End Poll.

(** [main] from the target: the remote machine and the numbers of the platform;
    the schedule times are [1e10]. *)
Definition meta_main (target : string) : py (string * string * tuning_cfg) :=
  let? model := register_data_path target in
  let cfg := mkCfg 2 (10 ^ 10) (10 ^ 10) in
  if decide (model = "i7") then Ret (model, "hw", cfg)
  else if decide (model = "v100") then Ret (model, "zy27", cfg)
  else if decide (model = "2080") then Ret (model, "zy36", cfg)
  else Raise AssertionError.

(** The effect of the commands on meta_utils.json: the driver itself adds the
    directories, the processes it starts only read the file. *)
Section Exec.
Context (loads : string → py json) (dumps : json → string) (model : string).

Definition exec_dir (c : meta_command) : ST (option string) unit :=
  match c with
  | MAddDir key name => add_files loads dumps (Some model) key (measure_data_dir model name)
  | _ => sret tt
  end.

Fixpoint exec_dirs (cmds : list meta_command) : ST (option string) unit :=
  match cmds with
  | [] => sret tt
  | c :: cmds' => let! _ := exec_dir c in exec_dirs cmds'
  end.
End Exec.
