(* ===== verification/MetaDriverSpec.v ===== *)
(** * The driver of the MetaSchedule pipeline: properties *)

From S2P Require Import Prelude PyFloat PyText Corpus Measure Campaign CampaignSpec Driver DriverSpec.
From S2P Require Import MetaCorpus MetaDriver.

(** ** Rounds *)

(** The lists of tuned directories with the prefixes of their names. *)
Abbreviation tuning_dirs := [("finetuning_dirs", "finetuning_"); ("testtuning_dirs", "testtuning_")].

Definition mtuned_by (c : meta_command) : option (string * Z) :=
  match c with
  | MAddDir key f =>
      match od_get tuning_dirs key with
      | Some p => match file_idx p f with Ret i => Some (p, i) | Raise _ => None end
      | None => None
      end
  | _ => None
  end.

Definition mpushed_by (c : meta_command) : option string :=
  match c with MPush GenEval _ => None | MPush _ f => Some f | _ => None end.
Definition maccepted_by (c : meta_command) : option string :=
  match c with MAddDir _ f => Some f | _ => None end.
Definition mmoved_by (c : meta_command) : option string :=
  match c with MMoveToMoved f => Some f | _ => None end.
Definition mnext_dir (cfg : tuning_cfg) (round : string * Z) : string :=
  dir_name round.1 (round.2 + init_times cfg).

Lemma meta_poll_cases cfg want files len_tasks r :
  meta_poll cfg want files len_tasks = Ret r →
  poll_kind mtuned_by mpushed_by maccepted_by mmoved_by (mnext_dir cfg) want r.
Proof.
  destruct files as [|f files]; simpl; [intros [= <-]; by constructor|].
  destruct (str_contains "finetuning_" f).
  { unfold meta_poll_finetuning. destruct (file_idx "finetuning_" f) as [i|] eqn:Ei; simpl; [|done].
    case_decide as Hne.
    - intros [= <-]. apply poll_other; try done. by destruct want.
    - intros (_ & _ & [= <-])%pbind_Ret.
      assert (default i want + 1 = i + 1)%Z as -> by lia.
      apply (poll_round _ _ _ _ (mnext_dir cfg) want ("finetuning_", i) _ true f);
        [destruct want; simpl in *; subst; auto|..];
        destruct (bool_decide (i `mod` 4 = 3)%Z); poll_case Ei. }
  destruct (str_contains "0_test_" f).
  { unfold meta_poll_test. destruct (file_idx "0_test_" f); simpl; [|done]. intros [= <-]. by apply poll_other. }
  destruct (str_contains "testtuning_" f); [|intros [= <-]; by apply poll_other].
  unfold meta_poll_testtuning. destruct (file_idx "testtuning_" f) as [i|] eqn:Ei; simpl; [|done].
  case_decide as Hne.
  - intros [= <-]. apply poll_other; try done. by destruct want.
  - assert (default i want + 1 = i + 1)%Z as -> by lia. case_bool_decide.
    + intros [= <-]. apply (poll_round _ _ _ _ (mnext_dir cfg) want ("testtuning_", i) _ false f);
        [destruct want; simpl in *; subst; auto|..]; poll_case Ei.
    + intros (_ & _ & [= <-])%pbind_Ret.
      apply (poll_round _ _ _ _ (mnext_dir cfg) want ("testtuning_", i) _ true f);
        [destruct want; simpl in *; subst; auto|..]; poll_case Ei.
Qed.

(** ** The lists of directories *)

(** The directories the commands add to a list. *)
Definition added_to (key : string) (c : meta_command) : option string :=
  match c with MAddDir k f => if decide (k = key) then Some f else None | _ => None end.

(** The keys the driver adds to; a tuned directory has the index of its round. *)
Definition good_add (c : meta_command) : Prop :=
  match c with
  | MAddDir key f => key = "test_dirs" ∨ ∃ p i, od_get tuning_dirs key = Some p ∧ file_idx p f = Ret i
  | _ => True
  end.

Ltac good_adds := repeat first [apply Forall_nil_2 | exact I | apply Forall_cons; split].

Lemma meta_poll_good cfg want files n want' cmds go :
  meta_poll cfg want files n = Ret (want', cmds, go) → Forall good_add cmds.
Proof.
  destruct files as [|f files]; simpl; [intros [= _ <- _]; by good_adds|].
  destruct (str_contains "finetuning_" f).
  { unfold meta_poll_finetuning. destruct (file_idx "finetuning_" f) as [i|] eqn:Ei; simpl; [|done].
    case_decide; [intros [= _ <- _]; by good_adds|]. intros (_ & _ & [= _ <- _])%pbind_Ret.
    case_bool_decide; good_adds; right; eauto. }
  destruct (str_contains "0_test_" f).
  { unfold meta_poll_test. destruct (file_idx "0_test_" f); simpl; [|done]. intros [= _ <- _].
    good_adds. by left. }
  destruct (str_contains "testtuning_" f); [|intros [= _ <- _]; by good_adds].
  unfold meta_poll_testtuning. destruct (file_idx "testtuning_" f) as [i|] eqn:Ei; simpl; [|done].
  case_decide; [intros [= _ <- _]; by good_adds|]. case_bool_decide.
  - intros [= _ <- _]. good_adds; right; eauto.
  - intros (_ & _ & [= _ <- _])%pbind_Ret. good_adds; right; eauto.
Qed.

(** Rounds with different indexes add different directories. *)
Lemma added_nodup key p cmds :
  od_get tuning_dirs key = Some p → Forall good_add cmds → NoDup (omap mtuned_by cmds).*2 →
  NoDup (omap (added_to key) cmds).
Proof.
  intros Hp. induction 1 as [|c cmds Hc Hcs IH]; [constructor|]. csimpl. intros Hnd.
  destruct (added_to key c) as [f|] eqn:Ea.
  - destruct c; simplify_eq/=. case_decide; simplify_eq/=. rewrite Hp in Hnd.
    destruct Hc as [->|(p' & i & Hp' & Hi)]; [done|]. simplify_eq. rewrite Hi in Hnd. csimpl in *.
    apply NoDup_cons in Hnd as [Hni Hnd]. constructor; [|by apply IH].
    intros (c & Hin & Hc')%list_elem_of_omap. destruct c; simplify_eq/=. case_decide; simplify_eq/=.
    apply Hni, list_elem_of_fmap. exists (p, i). split; [done|]. apply list_elem_of_omap.
    exists (MAddDir key f). split; [done|]. simpl. by rewrite Hp, Hi.
  - apply IH. destruct (mtuned_by c); csimpl in *; [by apply NoDup_cons in Hnd as [_ ?]|done].
Qed.

Lemma filter_ext_in {A} (P Q : A → Prop) `{∀ x, Decision (P x)} `{∀ x, Decision (Q x)} (l : list A) :
  (∀ x, x ∈ l → P x ↔ Q x) → filter P l = filter Q l.
Proof.
  induction l as [|x l IH]; intros Hpq; [done|]. rewrite !filter_cons, IH by (intros; apply Hpq; by right).
  destruct (decide (P x)) as [Hx|Hx].
  - by rewrite decide_True by (apply Hpq; [left|done]).
  - rewrite decide_False; [done|]. intros Hq. apply Hx, Hpq; [left|done].
Qed.

(** [append_new], on the items. *)
Definition add_once (l : list json) (name : string) : list json :=
  if bool_decide (JStr name ∈ l) then l else l ++ [JStr name].

Lemma add_once_all names : NoDup names → ∀ l,
  foldl add_once l names = l ++ filter (λ x, x ∉ l) (JStr <$> names).
Proof.
  induction names as [|x names IH]; intros Hnd l; simpl; [by rewrite app_nil_r|].
  apply NoDup_cons in Hnd as [Hx Hnd]. rewrite IH by done. unfold add_once. rewrite filter_cons.
  case_bool_decide as Hin.
  - by rewrite decide_False by tauto.
  - rewrite decide_True by done. rewrite <-app_assoc. simpl. do 2 f_equal. apply filter_ext_in.
    intros y (z & -> & Hz)%list_elem_of_fmap. rewrite elem_of_app, list_elem_of_singleton.
    split; [tauto|]. intros Hn [?|[= ->]]; done.
Qed.

Section Exec.
Context (loads : string → py json) (dumps : json → string) (model : string).
Hypothesis (Hload : ∀ j, loads (dumps j) = Ret j).

Abbreviation dirs_keys := ["finetuning_dirs"; "test_dirs"; "testtuning_dirs"].

(** Running the commands adds the directories to their lists, in order. *)
Lemma exec_dirs_spec cmds : Forall good_add cmds → ∀ file (ls : string → list json),
  (∀ key, key ∈ dirs_keys → get_files loads (Some model) key file = Ret (JArr (ls key))) →
  ∃ file', exec_dirs loads dumps model cmds file = (Ret tt, file') ∧
    ∀ key, key ∈ dirs_keys → get_files loads (Some model) key file' =
      Ret (JArr (foldl add_once (ls key) (measure_data_dir model <$> omap (added_to key) cmds))).
Proof.
  induction 1 as [|c cmds Hc Hcs IH]; intros file ls Hls; [by exists file|].
  assert ((∀ key, added_to key c = None) ∧ exec_dir loads dumps model c = sret tt ∨ ∃ k f, c = MAddDir k f) as Hcase.
  { destruct c; try (by left); right; eauto. }
  destruct Hcase as [[Hnone Hsk]|(k & f & ->)].
  - destruct (IH file ls Hls) as (file' & He & Hg). exists file'. simpl. rewrite Hsk. split; [exact He|].
    intros key Hkey. csimpl. rewrite Hnone. by apply Hg.
  - assert (k ∈ dirs_keys) as Hk.
    { destruct Hc as [->|(p & i & Hp & _)]; [set_solver|]. simpl in Hp. repeat case_decide; subst; set_solver. }
    assert (∀ key, key ∈ dirs_keys → key ≠ "") as Hne by (intros key Hkey ->; set_solver).
    destruct (add_files_spec loads dumps model k (measure_data_dir model f) file (ls k) Hload (Hne k Hk) (Hls k Hk))
      as (content & Ha & Hk1 & Hother).
    set (ls' := λ key, if decide (k = key) then add_once (ls k) (measure_data_dir model f) else ls key).
    destruct (IH (Some content) ls') as (file' & He & Hg).
    { intros key Hkey. unfold ls'. destruct (decide (k = key)) as [<-|Hd]; [exact Hk1|].
      rewrite Hother; [by apply Hls|by apply Hne|congruence]. }
    exists file'. split.
    + simpl. unfold sbind at 1. rewrite Ha. exact He.
    + intros key Hkey. rewrite (Hg key Hkey). unfold ls'. csimpl. by destruct (decide (k = key)) as [<-|].
Qed.

(** C34: the rounds of the driver and the lists it keeps.  Whatever listings the loop
    sees, the rounds it takes in have consecutive indexes, each completed round [i] is
    answered by the programs of round [i + init_times], and measured directories
    are put away in the order they are taken in; at every point of the run a
    directory is put away only after it has been added, and programs are sent only
    after the round that they answer has been taken in.  The list of tuned directories
    in meta_utils.json gains exactly those of its rounds, at the end and once. *)
Theorem meta_rounds_in_order cfg polls want cmds go file (ls : string → list json) :
  run_polls (meta_poll cfg) None polls = Ret (want, cmds, go) →
  (∀ key, key ∈ dirs_keys → get_files loads (Some model) key file = Ret (JArr (ls key))) →
  let rounds := omap mtuned_by cmds in
  (want = None ∧ rounds = [] ∨
   ∃ start, want = Some (start + zlen rounds)%Z ∧ rounds.*2 = seqZ start (zlen rounds)) ∧
  omap mpushed_by cmds = completed go (mnext_dir cfg <$> rounds) ∧
  omap mmoved_by cmds = completed go (omap maccepted_by cmds) ∧
  (∀ n, omap mmoved_by (take n cmds) `prefix_of` omap maccepted_by (take n cmds) ∧
     omap mpushed_by (take n cmds) `prefix_of` (mnext_dir cfg <$> omap mtuned_by (take n cmds))) ∧
  ∃ file', exec_dirs loads dumps model cmds file = (Ret tt, file') ∧
    ∀ key, key ∈ ["finetuning_dirs"; "testtuning_dirs"] → get_files loads (Some model) key file' =
      Ret (JArr (ls key ++ filter (λ x, x ∉ ls key)
                   (JStr <$> (measure_data_dir model <$> omap (added_to key) cmds)))).
Proof.
  intros Hr Hls. destruct (run_polls_ok _ _ _ _ _ _ (meta_poll_cases cfg) _ _ _ _ _ Hr) as [Ho Hp Hm Hmt Hpt _]. simpl.
  assert (NoDup (omap mtuned_by cmds).*2) as Hnd.
  { destruct Ho as [[_ ->]|(s & _ & _ & ->)]; [constructor|apply NoDup_seqZ]. }
  split; [destruct Ho as [[-> ?]|(s & _ & ? & ?)]; [by left|right; by exists s]|]. split; [done|]. split; [done|]. split.
  { intros n. split; [by apply (in_turn_prefix _ _ _ n) in Hmt|].
    apply (in_turn_prefix _ _ _ n) in Hpt. by rewrite omap_answer in Hpt. }
  pose proof (run_polls_forall _ good_add polls (meta_poll_good cfg) _ _ _ _ Hr) as Hgood.
  destruct (exec_dirs_spec cmds Hgood file ls Hls) as (file' & He & Hg). exists file'. split; [done|].
  intros key Hkey. rewrite Hg by set_solver. do 2 f_equal.
  assert (∃ p, od_get tuning_dirs key = Some p) as [p Htd].
  { repeat (apply elem_of_cons in Hkey as [->|Hkey]; [by eexists|]). by apply not_elem_of_nil in Hkey. }
  rewrite add_once_all; [done|]. apply NoDup_fmap_2; [|by eapply added_nodup].
  intros x y Heq. unfold measure_data_dir in Heq. by do 3 apply (inj (String.append _)) in Heq.
Qed.
End Exec.

(** The loop looks at the first listed directory only: while its index is not the
    wanted one, every iteration fetches it again and sleeps. *)
Lemma meta_stalled cfg w i f files lens :
  str_contains "finetuning_" f = true → file_idx "finetuning_" f = Ret i → i ≠ w →
  run_polls (meta_poll cfg) (Some w) ((λ n, (f :: files, n)) <$> lens) =
  Ret (Some w, concat ((λ _, [MFetch f; MSleep]) <$> lens), true).
Proof.
  intros Hc Hi Hne. induction lens as [|n lens IH]; [done|]. csimpl in *. rewrite Hc.
  unfold meta_poll_finetuning. rewrite Hi. simpl. rewrite decide_True by done. cbn [pbind].
  by rewrite IH.
Qed.
