(* ===== verification/Codes.v ===== *)
(** * Codes of values as texts

    A value of a countable type as the binary digits of its code, which can be
    read back: concrete printers and parsers for the instances of the theorems. *)

From stdpp Require Import countable.
From S2P Require Import Prelude PyText.

#[global] Instance spec_float_countable : Countable spec_float.
Proof.
  apply (inj_countable'
    (λ x, match x with
          | S754_zero b => inl (inl b) | S754_infinity b => inl (inr b) | S754_nan => inr (inl ())
          | S754_finite b m e => inr (inr (b, m, e)) end)
    (λ y, match y with
          | inl (inl b) => S754_zero b | inl (inr b) => S754_infinity b | inr (inl _) => S754_nan
          | inr (inr (b, m, e)) => S754_finite b m e end)).
  by intros [].
Defined.

Definition leaf : Type := bool + Z + spec_float + string.

Fixpoint json_tree (j : json) : gen_tree leaf :=
  match j with
  | JNull => GenNode 0 []
  | JBool b => GenLeaf (inl (inl (inl b)))
  | JInt z => GenLeaf (inl (inl (inr z)))
  | JFloat x => GenLeaf (inl (inr x))
  | JStr s => GenLeaf (inr s)
  | JArr l => GenNode 1 (json_tree <$> l)
  | JObj l => GenNode 2 ((λ kv, GenNode 3 [GenLeaf (inr kv.1); json_tree kv.2]) <$> l)
  end.

Fixpoint tree_json (t : gen_tree leaf) : json :=
  match t with
  | GenLeaf (inl (inl (inl b))) => JBool b
  | GenLeaf (inl (inl (inr z))) => JInt z
  | GenLeaf (inl (inr x)) => JFloat x
  | GenLeaf (inr s) => JStr s
  | GenNode 1 l => JArr (tree_json <$> l)
  | GenNode 2 l =>
      JObj ((λ t, match t with GenNode _ [GenLeaf (inr k); v] => (k, tree_json v) | _ => ("", JNull) end) <$> l)
  | GenNode _ _ => JNull
  end.

Lemma tree_json_tree j : tree_json (json_tree j) = j.
Proof.
  induction j as [| | | | |l IH|l IH] using json_ind'; try done; simpl; f_equal.
  - rewrite <-list_fmap_compose. rewrite <-(list_fmap_id l) at 2. apply list_fmap_ext.
    intros i x Hx. by apply (Forall_lookup_1 _ _ _ _ IH Hx).
  - rewrite <-list_fmap_compose. rewrite <-(list_fmap_id l) at 2. apply list_fmap_ext.
    intros i [k x] Hx. cbn. f_equal. by apply (Forall_lookup_1 _ _ _ _ IH Hx).
Qed.

#[global] Instance json_countable : Countable json := inj_countable' json_tree tree_json tree_json_tree.


Fixpoint digits (p : positive) : string :=
  match p with
  | xH => EmptyString
  | xO p => String "0" (digits p)
  | xI p => String "1" (digits p)
  end.

Fixpoint undigits (s : string) : positive :=
  match s with
  | EmptyString => xH
  | String c s => if bool_decide (c = "0"%char) then xO (undigits s) else xI (undigits s)
  end.

Lemma undigits_digits p : undigits (digits p) = p.
Proof. induction p as [p IH|p IH|]; simpl; rewrite ?IH; done. Qed.

Lemma digits_clean c p : c ≠ "0"%char → c ≠ "1"%char → str_mem c (digits p) = false.
Proof.
  intros H0 H1. induction p as [p IH|p IH|]; simpl; rewrite ?IH, ?orb_false_r; try done;
    by rewrite bool_decide_false by congruence.
Qed.

Section Digits.
Context {A : Type} `{Countable A}.

Definition to_text (x : A) : string := digits (countable.encode x).
Definition of_text (s : string) : py A :=
  match countable.decode (undigits s) with Some x => Ret x | None => Raise JSONDecodeError end.

Lemma of_to_text x : of_text (to_text x) = Ret x.
Proof. unfold of_text, to_text. by rewrite undigits_digits, countable.decode_encode. Qed.
End Digits.
