(* ===== verification/SpaceWitnesses.v ===== *)
(** * Concrete instances of the theorems on configuration spaces

    For every theorem with hypotheses, an input on which they all hold.  The
    numpy parameters are instantiated by [numpy_model]. *)

From S2P Require Import Prelude PyFloat Transforms TransformsSpec ConfigSpace ConfigSpaceSpec KnobSpec.

#[local] Existing Instance numpy_model.
#[local] Existing Instance numpy_model_ok.

(** ** Transform spaces *)

Lemma get_factors_witness : (1 ≤ 12)%Z ∧ ∃ l, get_factors 12 = Ret l ∧ StronglySorted Z.lt l.
Proof.
  split; [lia|]. destruct (get_factors_spec 12 ltac:(lia)) as (l & Hl & Hs & _). exists l. done.
Defined.

Definition split_kw (m : Z) : split_kwargs := mkSplitKwargs None None (Some m) None None.

Lemma set_order_id (l : list Z) x : x ∈ id l ↔ x ∈ l.
Proof. done. Qed.

Lemma SplitSpace_witness :
  ∃ sp, SplitSpace_init id 8 "factors" (split_kw 3) = Ret sp ∧ sp_num_output sp = 3%Z.
Proof.
  destruct (SplitSpace_spec id set_order_id 8 "factors" (split_kw 3) 3) as (sp & Hsp & Hn & _);
    [lia|set_solver|lia|done|]. exists sp. done.
Defined.

Lemma SplitSpace_single_witness : SplitSpace_init id 8 "factors" (split_kw 1) = Raise TypeError.
Proof. apply (SplitSpace_single_output id set_order_id 8 "factors" (split_kw 1)); [lia|set_solver|done]. Defined.

(** A schedule primitive on axes given by their extents. *)
Definition demo_split (_ : unit) (a f : Z) : Z * Z * unit := (cdiv a f, f, tt).

Lemma SplitEntity_apply_witness :
  (SplitEntity_apply demo_split tt [-1; 4; 2]%Z 32%Z).1 = [4; 4; 2]%Z.
Proof.
  destruct (SplitEntity_apply_extents demo_split id) with (sch := tt) (s0 := (-1)%Z) (t := 4%Z)
    (ts := [2%Z]) (a := 32%Z) as [Hout _]; [done|done|by repeat constructor|vm_compute; done|].
  rewrite list_fmap_id in Hout. exact Hout.
Defined.

Lemma merge_chain_witness : ∃ m, merge_chain [[0; 1]; [2]]%Z = Ret [m] ∧ m ≡ₚ [0; 1; 2]%Z.
Proof. destruct (merge_chain_single [[0; 1]; [2]]%Z) as (m & Hm & Hp & _). exists m. done. Defined.

Definition no_reorder : reorder_kwargs Z := mkReorderKwargs None None None None.

Lemma ReorderSpace_permutes_witness :
  ∃ sp, ReorderSpace_init [10; 20; 30]%Z "all" no_reorder = Ret sp ∧ space_len sp = 6%Z.
Proof.
  destruct (ReorderSpace_permutes [10; 20; 30]%Z "all" no_reorder) as (sp & Hsp & _ & Hall);
    [set_solver|done|]. exists sp. split; [done|]. by destruct (Hall eq_refl) as [? _].
Defined.

Lemma ReorderSpace_interleave_witness :
  ∃ p, ReorderSpace_init [10; 20; 30]%Z "interleave"
         (mkReorderKwargs None None (Some [[10; 20]%Z]) (Some [[30%Z]])) =
       Ret (mkSpace KReorder 3 [ReorderEntity p]) ∧ p ≡ₚ range 0 3.
Proof.
  apply (ReorderSpace_interleave [10; 20; 30]%Z
    (mkReorderKwargs None None (Some [[10; 20]%Z]) (Some [[30%Z]])) [[10; 20]%Z] [[30%Z]]);
    [by repeat constructor; set_solver|done|done|done].
Defined.

Lemma AnnotateSpace_witness : ∃ sp, AnnotateSpace_init 2 "try_unroll_vec" None = Ret sp.
Proof.
  destruct (AnnotateSpace_spec 2 "try_unroll_vec" None) as (sp & Hsp & _);
    [lia|set_solver|by repeat constructor; set_solver|]. exists sp. exact Hsp.
Defined.

Lemma bind_gpu_witness :
  ∃ anns, bind_gpu 3 = Ret anns ∧ zlen anns = 3%Z.
Proof.
  destruct (bind_gpu_applies (T := unit) (λ a b : Z, (a + b)%Z) 3 None
    (mkApply [] [1; 2; 3]%Z [])) as [_ Hge]; [done|].
  destruct (Hge ltac:(lia)) as (anns & st & Hb & Hz & _). exists anns. done.
Defined.

(** ** Configuration spaces *)

Definition opt_space (n : Z) : space := OtherOptionSpace_init (VInt <$> range 0 n).

(** Two knobs of two and three options; the filter rejects the first option of
    the first knob. *)
Definition demo_filter (es : entities) : bool :=
  match od_get es "a" with Some (OtherOptionEntity (VInt 0)) => false | _ => true end.

Definition demo_cs : ConfigSpace :=
  set_filter (Some demo_filter)
    (set_spaces [("a", opt_space 2); ("b", opt_space 3)]
       [("a", FromSpace "a" 0); ("b", FromSpace "b" 0)] ConfigSpace_init).

Lemma demo_ok : cs_ok demo_cs.
Proof.
  split; try done. split; [by repeat constructor; set_solver|].
  split; [by repeat constructor|done].
Qed.

Lemma is_index_valid_witness :
  ∃ cs', is_index_valid 3 demo_cs = (Ret true, cs') ∧ cs_ok cs'.
Proof.
  destruct (is_index_valid_spec demo_cs 3) as (cs' & Hr & Hok & _); [exact demo_ok|by vm_compute|].
  exists cs'. split; [exact Hr|exact Hok].
Defined.

Lemma lengths_witness : ∃ cs', cs_len demo_cs = (Ret 3%Z, cs') ∧ cs_ok cs'.
Proof.
  destruct (lengths_count_valid demo_cs 0 6) as [(cs' & Hr & Hok) _]; [exact demo_ok|by vm_compute|].
  exists cs'. split; [exact Hr|exact Hok].
Defined.

Lemma cs_get_witness : ∃ cs', cs_get 0 demo_cs = (Raise IndexError, cs').
Proof.
  destruct (cs_get_spec demo_cs 0 demo_ok) as (cs' & _ & Hr). exists cs'. exact Hr.
Defined.

Lemma get_next_index_witness : ∃ cs', get_next_index 1 1 None None demo_cs = (Ret (Some 3%Z), cs').
Proof.
  destruct (get_next_index_spec demo_cs 1 1 None None) as (cs' & Hr & _);
    [exact demo_ok|lia|by vm_compute|by vm_compute|]. exists cs'. exact Hr.
Defined.

Lemma get_rand_index_witness :
  ∃ cs', get_rand_index None None [1%Z] [0; 1; 9]%Z demo_cs = (Ret (Some 3%Z), cs').
Proof.
  destruct (get_rand_index_spec demo_cs None None [1%Z] [0; 1; 9]%Z) as [(cs' & Hr) _];
    [exact demo_ok|by vm_compute|by vm_compute|]. exists cs'. exact Hr.
Defined.

Lemma point_knob_witness :
  ∃ k cs1 cs2, point2knob 5 demo_cs = (Ret k, cs1) ∧ knob2point k cs1 = (Ret 5%Z, cs2).
Proof.
  destruct (point_knob_roundtrip demo_cs 5 [1; 2]%Z) as [(k & cs1 & cs2 & H1 & _ & H2) _];
    [exact demo_ok|by vm_compute|by repeat constructor|]. exists k, cs1, cs2. split; [exact H1|exact H2].
Defined.

Lemma sample_ints_witness : ∃ o cs', sample_ints 2 [1; 3; 5]%Z demo_cs = (Ret o, cs').
Proof.
  destruct (sample_ints_spec demo_cs 2 [1; 3; 5]%Z) as (o & cs' & Hr & _); [exact demo_ok|by vm_compute|].
  exists o, cs'. exact Hr.
Defined.

Lemma random_walk_witness : ∃ o cs', random_walk 1 [(1, 2); (0, 1)]%Z demo_cs = (Ret o, cs').
Proof.
  destruct (random_walk_spec demo_cs 1 [(1, 2); (0, 1)]%Z) as (o & cs' & Hr & _);
    [exact demo_ok|done|by vm_compute|]. exists o, cs'. exact Hr.
Defined.

Lemma add_new_transform_witness :
  ∃ cs', add_new_transform true "c" (Ret (opt_space 4)) (Ret 0%Z) demo_cs = (Ret [], cs') ∧ cs_ok cs'.
Proof.
  destruct (add_new_transform_ok true "c" (opt_space 4) (Ret 0%Z) demo_cs) as (cs' & Hr & Hok & _);
    [exact demo_ok|done|done|by left|by vm_compute|by vm_compute|].
  exists cs'. split; [exact Hr|exact Hok].
Defined.

Definition demo_config : ConfigEntity :=
  mkCE 7 (Some "h") [("tile", SplitEntity [-1; 4]%Z); ("ann", AnnotateEntity [AnnStr "vec"])].

Lemma config_json_witness : from_json_dict (to_json_dict demo_config) = Ret demo_config.
Proof. apply (config_json_roundtrip demo_config). by repeat constructor; set_solver. Defined.

Lemma fallback_split_witness :
  ∃ size', fallback_split "tile_0" [-1; 8; 4]%Z (doc_space 128) =
    (Ret tt, put_size "tile_0" (mkSpace (KSplit 128) 3 [SplitEntity [-1; 1; 1]%Z]) size' (doc_space 128)) ∧
    zprod size' = 128%Z.
Proof.
  destruct (fallback_split_spec "tile_0" (mkSpace (KSplit 128) 3 [SplitEntity [-1; 1; 1]%Z]) 128
    [-1; 1; 1]%Z [8; 4]%Z (doc_space 128)) as (size' & Hr & _ & Hp & _);
    [done|done|lia|done|done|done|done|repeat constructor; lia|].
  exists size'. split; [exact Hr|exact Hp].
Defined.

Lemma stale_range_witness :
  ∃ cs1 cs2 cs3 cs4, define_knob "a" [VInt 1; VInt 2] ConfigSpace_init = (Ret [], cs1) ∧
    range_length cs1 = (Ret 2%Z, cs2) ∧ define_knob "b" [VInt 1; VInt 2; VInt 3] cs2 = (Ret [], cs3) ∧
    range_length cs3 = (Ret 2%Z, cs4) ∧ size_of (space_map cs3) = 6%Z.
Proof. apply (stale_range_length "a" "b" [VInt 1; VInt 2] [VInt 1; VInt 2; VInt 3]); by vm_compute. Defined.

Lemma reference_log_witness :
  fallback_with_reference_log [[("tile_0", SplitEntity [-1; 8; 4]%Z)]] (doc_space 128)
  = (Raise ValueError, doc_space 128).
Proof.
  apply (reference_log_negative (doc_space 128) [("tile_0", SplitEntity [-1; 8; 4]%Z)] [] "tile_0" 128
    (mkSpace (KSplit 128) 3 [SplitEntity [-1; 1; 1]%Z]) [8; 4]%Z [1; 2; 4; 8; 16; 32; 64; 128]%Z);
    [done|done|by vm_compute|done|by repeat constructor|by vm_compute].
Defined.
