(* ===== verification/TunerWitnesses.v ===== *)
(** * Concrete instances of the theorems on tuners *)

From S2P Require Import Prelude PyFloat Transforms ConfigSpace ConfigSpaceSpec Tuner TunerSpec.
From S2P Require Import Heapq ModelTuner AnnealSpec ModelTunerSpec SpaceWitnesses.

#[local] Existing Instance numpy_model.
#[local] Existing Instance numpy_model_ok.

Lemma demo_range : index_range demo_cs 0 6.
Proof. by vm_compute. Qed.

Lemma grid_enumerates_witness :
  ∃ t t', GridSearchTuner_init None demo_cs = Ret t ∧
    grid_batches [2; 2] t = (Ret (config_at demo_cs <$> [1; 3; 5]%Z), t') ∧ it_has_next t' = false.
Proof.
  destruct (grid_enumerates demo_cs None 0 5 [2; 2]) as (t & t' & H1 & H2 & H3);
    [exact demo_ok|by vm_compute|exact demo_range|].
  exists t, t'. split; [exact H1|]. split; [exact H2|exact H3].
Defined.

(** A random tuner on the whole space, before its first batch. *)
Definition demo_random : IndexTuner :=
  match IndexBaseTuner_init None demo_cs with
  | (Ret t, _) => t
  | (Raise _, cs) => mkIT cs [] 0 0 0 None
  end.

Lemma demo_random_inv : random_inv demo_cs 0 6 [] demo_random.
Proof.
  unfold demo_random.
  destruct (IndexBaseTuner_init_returns demo_cs None 0 5 demo_ok) as (cs' & -> & Hok & Hc);
    [by vm_compute|exact demo_range|].
  split; try done; [constructor|simpl; set_solver].
Qed.

Lemma demo_draws i : i ∈ valid_in demo_cs 0 6 → i ∈ draw_index 0 6 <$> [0; 1; 2; 3; 4; 5]%Z.
Proof.
  replace (valid_in demo_cs 0 6) with [1; 3; 5]%Z by (vm_compute; done).
  replace (draw_index 0 6 <$> [0; 1; 2; 3; 4; 5]%Z) with [0; 1; 2; 3; 4; 5]%Z by (vm_compute; done).
  set_solver.
Qed.

Lemma random_next_batch_witness :
  ∃ cfgs t', random_next_batch 2 [[0; 1; 2; 3; 4; 5]; [0; 1; 2; 3; 4; 5]]%Z demo_random = (Ret (Some cfgs), t').
Proof.
  destruct (random_next_batch_distinct demo_cs 0 6 2 [[0; 1; 2; 3; 4; 5]; [0; 1; 2; 3; 4; 5]]%Z [] demo_random)
    as (o & t' & Hr & _ & Hlive); [exact demo_range|exact demo_random_inv|].
  assert (o ≠ None) as Ho.
  { apply Hlive; [done|]. apply Forall_cons_2; [exact demo_draws|].
    apply Forall_cons_2; [exact demo_draws|apply Forall_nil_2]. }
  destruct o as [cfgs|]; [|by destruct Ho]. exists cfgs, t'. exact Hr.
Defined.

(** Hardware that measures a configuration with index [i] in [1/(i+1)] seconds. *)
Definition demo_measure (_ : Z) (cfgs : list ConfigEntity) : list mresult :=
  (λ c, mkResult 0 (CostTimes [fdiv_raw f1 (f_of_Z (ce_index c + 1))]) f0) <$> cfgs.

Lemma demo_measure_length i cfgs : length (demo_measure i cfgs) = length cfgs.
Proof. apply length_fmap. Qed.

Lemma demo_measure_wf i cfgs : Forall wf_result (demo_measure i cfgs).
Proof. apply Forall_fmap, Forall_forall. done. Qed.

Lemma demo_grid : ∃ t, GridSearchTuner_init None demo_cs = Ret t ∧ grid_inv demo_cs 0 6 0 t.
Proof. apply (grid_init_inv demo_cs None 0 5 demo_ok); [by vm_compute|exact demo_range]. Qed.

Definition demo_grid_tuner : IndexTuner :=
  match GridSearchTuner_init None demo_cs with Ret t => t | Raise _ => demo_random end.

Lemma tune_witness :
  ∃ calls report t', tune f1 demo_measure 2 2 None (Tuner_init demo_grid_tuner) = (Ret (calls, report), t') ∧
    in_tuning t' = false.
Proof.
  destruct (tune_spec (pending := grid_pending demo_cs 0 6) f1 demo_measure 2 demo_measure_length
    demo_measure_wf eq_refl 2 None demo_grid_tuner (config_at demo_cs <$> valid_in demo_cs 0 6))
    as (hist & calls & report & t' & Hr & _ & _ & _ & _ & _ & _ & Hf).
  - split; [exact demo_range|]. exists 0. split; [|done]. unfold demo_grid_tuner.
    destruct demo_grid as (t & -> & Hinv). exact Hinv.
  - lia.
  - exists calls, report, t'. split; [exact Hr|exact Hf].
Defined.

Lemma grid_tune_witness :
  ∃ t calls report t', GridSearchTuner_init None demo_cs = Ret t ∧
    tune f1 demo_measure 2 10 None (Tuner_init t) = (Ret (calls, report), t').
Proof.
  destruct (grid_tune_exhaustive f1 demo_measure 2 demo_cs 10) as (t & hist & calls & report & t' & Ht & Hr & _);
    [exact demo_ok|exact demo_measure_length|exact demo_measure_wf|lia|by vm_compute|].
  exists t, calls, report, t'. split; [exact Ht|exact Hr].
Defined.

(** A genetic tuner with a population of two. *)
Definition demo_ga : GATuner :=
  mkGA demo_cs 2 1 f0 [1; 3]%Z [[1; 0]; [1; 1]]%Z [] [] [] 0.

Lemma demo_ga_inv : ga_inv demo_cs demo_ga.
Proof.
  split; simpl; try done.
  - exact demo_ok.
  - by repeat constructor; set_solver.
  - intros i Hi. replace (valid_in _ _ _) with [1; 3; 5]%Z by (vm_compute; done). set_solver.
  - constructor; [exists 1%Z; split; [set_solver|done]|].
    constructor; [exists 3%Z; split; [set_solver|done]|done].
  - by split; [|left].
Qed.

Lemma ga_next_batch_witness : ∃ idxs t', ga_next_batch 3 demo_ga = (Ret (config_at demo_cs <$> idxs), t').
Proof.
  destruct (ga_next_batch_valid demo_cs 3 demo_ga demo_ga_inv) as (idxs & t' & Hr & _).
  exists idxs, t'. exact Hr.
Defined.

(** A partial order on positions: all of them. *)
Definition demo_argpartition (l : list flt) (_ : Z) : list Z := range 0 (zlen l).

Lemma demo_argpartition_range l k i : i ∈ demo_argpartition l k → (0 ≤ i < zlen l)%Z.
Proof. apply elem_of_range. Qed.

Lemma ga_update_witness :
  ∃ go t', ga_update demo_argpartition f1 [] (zip (config_at demo_cs <$> [1; 3]%Z)
    (demo_measure 0 (config_at demo_cs <$> [1; 3]%Z))) demo_ga = (Ret go, t').
Proof.
  destruct (ga_update_keeps demo_cs demo_argpartition f1 demo_argpartition_range [] (zip (config_at demo_cs <$> [1; 3]%Z)
    (demo_measure 0 (config_at demo_cs <$> [1; 3]%Z))) demo_ga) as (go & t' & Hr & _);
    [exact demo_ga_inv|done|by repeat constructor|constructor|by vm_compute|].
  exists go, t'. exact Hr.
Defined.

(** ** Model based tuning *)

(** A cost model that scores an index by itself. *)
#[local] Instance demo_model : CostModel unit unit := {|
  cm_predict := λ _ xs, f_of_Z <$> xs;
  cm_fit := λ _ _ _, sret tt;
  cm_fit_log := λ _ _ _, sret true;
  cm_load_basemodel := λ _, sret tt;
  cm_spawn_base_model := λ m, m
|}.

#[local] Instance demo_model_ok : CostModelOk unit unit (λ _, f_of_Z).
Proof. by intros m xs. Qed.

Definition demo_walk : list (Z * Z) := [(1, 2); (1, 0)]%Z.

(** Two chains, two iterations. *)
Definition demo_sa_draws : sa_draws :=
  mkSADraws [0; 1; 2; 3; 4; 5]%Z (replicate 2 (replicate 2 demo_walk, [f0; f0])).

Definition demo_sa : SimulatedAnnealingOptimizer :=
  mkSA 2 (inr [f1; f0]) true 2 50 50 None (replicate 3 demo_sa_draws).

Lemma demo_good p : good_pt demo_cs p → p = 1%Z ∨ p = 3%Z ∨ p = 5%Z.
Proof.
  intros Hp. assert (p ∈ valid_in demo_cs 0 6) as Hin by (by apply elem_of_valid_in).
  replace (valid_in demo_cs 0 6) with [1; 3; 5]%Z in Hin by (vm_compute; done). set_solver.
Qed.

Lemma demo_covers : covers demo_cs [0; 1; 2; 3; 4; 5]%Z.
Proof. intros i Hi. apply demo_draws. by apply elem_of_valid_in. Qed.

Lemma demo_sa_inv : sa_inv demo_cs demo_sa.
Proof.
  split; [done| |].
  - by vm_compute.
  - eexists. by vm_compute.
Qed.

Lemma demo_sa_draws_ok : draws_ok demo_cs demo_sa demo_sa_draws.
Proof.
  split; [exact demo_covers|]. split; [by vm_compute|].
  apply Forall_replicate. split; [done|]. split; [done|]. apply Forall_replicate.
  intros p [->|[->| ->]]%demo_good; eexists; by vm_compute.
Qed.

Lemma sa_find_maximums_witness :
  ∃ cs2 o2, sa_find_maximums (R := unit) (λ _, f1) tt (NInt 2) [3]%Z (demo_cs, demo_sa) = (Ret (Some [5; 1]%Z), (cs2, o2)) ∧
    sa_inv demo_cs o2.
Proof.
  destruct (sa_find_maximums_spec (R := unit) (λ _, f_of_Z) (λ _, f1) demo_cs ltac:(done) tt 2 [3]%Z demo_cs demo_sa)
    as (r & cs2 & o2 & Hr & _ & _ & Hi & _);
    [exact demo_ok|done|exact demo_sa_inv|by repeat constructor|done|].
  assert (r = Some [5; 1]%Z) as ->.
  { assert (fst (sa_find_maximums (R := unit) (λ _, f1) tt (NInt 2) [3]%Z (demo_cs, demo_sa)) = Ret (Some [5; 1]%Z))
      as Hc by (vm_compute; done). rewrite Hr in Hc. by injection Hc. }
  exists cs2, o2. split; [exact Hr|exact Hi].
Defined.

(** Three points with two knobs each; the second pick shares no knob with the first. *)
Lemma submodular_pick_witness :
  ∃ picks, submodular_pick [f0; f0; f0] [[1; 1]; [1; 2]; [2; 2]]%Z 2 f1 = Ret picks ∧
    greedy [f0; f0; f0] [[1; 1]; [1; 2]; [2; 2]]%Z 2 picks.
Proof.
  pose proof (submodular_pick_spec [f0; f0; f0] [[1; 1]; [1; 2]; [2; 2]]%Z 2 2) as Hs.
  destruct Hs as (picks & Hp & _ & _ & _ & Hg);
    [by repeat constructor; eexists|done|by repeat constructor|lia|].
  exists picks. split; [exact Hp|exact Hg].
Defined.

Definition demo_mt : ModelBasedTuner unit SimulatedAnnealingOptimizer :=
  mkMT demo_cs 2 tt demo_sa None (TList []) 0 [] [] [] f0 0 false.

Lemma demo_mt_inv : mt_inv demo_cs [] demo_mt.
Proof.
  split; simpl; try done; [exact demo_ok|constructor|]. by apply plan_ok_small.
Qed.

Lemma tune_rounds_witness :
  ∃ cfgs t', tune_rounds (R := unit) (ModelOptimizer0 := sa_optimizer (R := unit) (λ _, f1)) f1
      (λ c, mkResult 0 (CostTimes [fdiv_raw f1 (f_of_Z (ce_index c + 1))]) f0)
      (replicate 2 (2, replicate 2 [0; 1; 2; 3; 4; 5]%Z)) demo_mt = (Ret (Some cfgs), t') ∧
    length cfgs = 3.
Proof.
  assert (space_map demo_cs ≠ []) as Hne by done.
  destruct (tune_rounds_spec (R := unit) f1 demo_cs
    (λ c, mkResult 0 (CostTimes [fdiv_raw f1 (f_of_Z (ce_index c + 1))]) f0) [] demo_mt (sa_inv demo_cs)
    (sa_enough demo_cs) (replicate 2 (2, replicate 2 [0; 1; 2; 3; 4; 5]%Z))
    (ModelOptimizerOk0 := sa_optimizer_ok unit unit (λ _, f_of_Z) (λ _, f1) demo_cs Hne))
    as (o & t' & Hr & Hs & Hlive); [by intros xs ys p []; exists tt|done|exact demo_mt_inv|exact demo_sa_inv|done|].
  destruct Hlive as [cfgs ->].
  { split; [simpl; lia|]. apply (Forall_replicate _ 3 demo_sa_draws). exact demo_sa_draws_ok. }
  { apply Forall_replicate. split; [done|]. apply Forall_replicate. exact demo_covers. }
  exists cfgs, t'. split; [exact Hr|]. destruct (Hs cfgs eq_refl) as (new & -> & _ & _ & Hlen & _).
  rewrite length_fmap, Hlen. by vm_compute.
Defined.
