(* ===== verification/ServiceWitnesses.v ===== *)
(** * Concrete instances of the theorems on the tracker, dispatcher and task scheduler *)

From S2P Require Import Prelude PyFloat Transforms ConfigSpace Tuner.
From S2P Require Import Tracker TrackerSpec Dispatcher DispatcherSpec TaskScheduler TaskSchedulerSpec.

#[local] Existing Instance numpy_model.
#[local] Existing Instance numpy_model_ok.

(** ** Tracker *)

(** Messages that are their own encoding. *)
Lemma json_wire_witness :
  ∃ s', recvjson Some [[3; 0]; [0; 0; 7]; [8; 9; 1]; [2]]%Z = (Ret [7; 8; 9]%Z, s') ∧
        concat s' = [1; 2]%Z.
Proof.
  destruct (json_wire_roundtrip id Some [7; 8; 9]%Z [3; 0; 0; 0; 7; 8; 9]%Z [1; 2]%Z
    [[3; 0]; [0; 0; 7]; [8; 9; 1]; [2]]%Z) as (s' & Hr & Hc);
    [done|by vm_compute|by repeat constructor|done|].
  exists s'. split; [exact Hr|exact Hc].
Defined.

(** A handler that keeps the messages it is given. *)
Definition demo_loads (b : bytes) : py json := Ret (JArr (JInt <$> b)).
Definition demo_handler (j : json) : ST (list json) unit := smod (λ l, l ++ [j]).

Lemma framing_witness :
  feed_all demo_loads demo_handler [[1; 0]; [0; 0; 5; 2]; [0; 0; 0; 6; 7]]%Z ([], 0%Z, []) =
    (Ret tt, ([], 0%Z, [JArr [JInt 5]; JArr [JInt 6; JInt 7]])).
Proof.
  apply (framing_chunk_invariant demo_loads demo_handler _ [[5]; [6; 7]]%Z
    [[1; 0; 0; 0; 5]; [2; 0; 0; 0; 6; 7]]%Z); [|done|done].
  constructor; [split; [done|by exists [1; 0; 0; 0]%Z]|].
  constructor; [split; [done|by exists [2; 0; 0; 0]%Z]|constructor].
Defined.

(** A device registers itself: the handshake, then one frame. *)
Definition demo_put (b : bytes) : py json :=
  Ret (JArr [JInt PUT; JStr "dev"; JArr [JInt 9000; JStr "dev:0.5"]]).

Definition demo_tracker1 : tracker := accept 0 false (JStr "host") (tracker_init JNull).
Definition demo_tracker2 : tracker := (on_message demo_put 0 [113; 242; 2; 0]%Z demo_tracker1).2.
Definition demo_tracker3 : tracker := (on_message demo_put 0 [1; 0; 0; 0; 5]%Z demo_tracker2).2.

Lemma tracker_quiescent_witness :
  ∃ s, od_get (t_scheds demo_tracker3) "dev" = Some s ∧ zlen (s_values s) = 1%Z ∧
       (s_values s = [] ∨ s_requests s = []).
Proof.
  destruct (od_get (t_scheds demo_tracker3) "dev") as [s|] eqn:Hs; [|vm_compute in Hs; discriminate].
  exists s. split; [reflexivity|]. split.
  - vm_compute in Hs. injection Hs as <-. reflexivity.
  - apply (tracker_quiescent demo_put JNull demo_tracker3 "dev" s); [|exact Hs].
    eapply rtc_l; [exact (step_accept demo_put 0 false (JStr "host") (tracker_init JNull))|].
    eapply rtc_l; [apply (step_message demo_put 0 [113; 242; 2; 0]%Z _ demo_tracker2); vm_compute; reflexivity|].
    eapply rtc_l; [apply (step_message demo_put 0 [1; 0; 0; 0; 5]%Z _ demo_tracker3); vm_compute; reflexivity|].
    apply rtc_refl.
Defined.

(** Two clients ask for "dev", the second with the higher priority. *)
Definition demo_value : value := mkValue 0 (JStr "host") (JInt 9000) "dev:0.5".
Definition demo_sched : sched := mkSched 2 [] [mkReq (-1) 0 1; mkReq (-5) 1 2].
Definition demo_conn (pending : list string) : conn :=
  c_set_reg pending [] (TCPEventHandler_init false (JStr "host")).
Definition demo_waiting : tracker :=
  mkTracker {[0 := demo_conn ["dev:0.5"]; 1 := demo_conn []; 2 := demo_conn []]} [0; 1; 2]
    [("dev", demo_sched)] JNull true.

Lemma put_serves_best_witness :
  req_before (mkReq (-5) 1 2) (mkReq (-1) 0 1) ∧
  (tracker_put "dev" demo_value demo_waiting).1 = Ret tt.
Proof.
  destruct (put_serves_best "dev" demo_value demo_sched (mkReq (-1) 0 1) [mkReq (-5) 1 2] demo_waiting
    (demo_conn []) (demo_conn ["dev:0.5"])) as [Hall Hput];
    [done|done|done|done|done|done|done|done|set_solver|].
  split.
  - apply (Hall (mkReq (-1) 0 1)). left.
  - rewrite Hput. done.
Defined.

(** ** Dispatcher *)

Definition demo_target : target := mkTarget "llvm" "unknown" ["cpu"].
Definition demo_wl : workload := mkWorkload "conv" [].
Definition demo_record (c : cfg) (cost : Z) : mrecord :=
  (mkInput demo_target demo_wl c, mkResult 0 (CostTimes [f_of_Z cost]) f0).

Lemma history_load_witness :
  ∃ bk bm, load_records [demo_record 1 3; demo_record 2 1] [] [] = Ret (bk, bm) ∧
    best_in (by_key ("cpu", demo_wl) [demo_record 1 3; demo_record 2 1]) (od_get bk ("cpu", demo_wl)).
Proof.
  destruct (history_load_best [demo_record 1 3; demo_record 2 1]) as (bk & bm & Hr & Hk & _).
  - constructor; [intros _; split; [by eexists|by vm_compute]|].
    constructor; [intros _; split; [by eexists|by vm_compute]|constructor].
  - exists bk, bm. split; [exact Hr|apply Hk].
Defined.

Definition demo_world : world :=
  mkWorld {[0 := mkCtx None (FallbackContext []); 1 := mkCtx (Some 0) (ApplyHistoryBest [] [] [])]}
    (Some 1) ∅ ∅ [] 10.

Lemma update_then_query_witness :
  ∃ w', Dispatcher.update 1 demo_target demo_wl 7 demo_world = (Ret tt, w') ∧
    query_inside true 1 (Some demo_target) demo_wl w' = (Ret (Some 7), w').
Proof.
  destruct (update_then_query true 1 demo_target demo_wl 7 [] [] [] demo_world (Some 0))
    as (w' & Hr & _ & Hq & _); [done|]. exists w'. split; [exact Hr|exact Hq].
Defined.

Lemma query_stack_witness :
  ∃ c w', query true 2 1 (Some demo_target) demo_wl demo_world = (Ret c, w').
Proof.
  destruct (query_stack_total true demo_world 1 [1] 0 demo_target demo_wl) as (c & w' & Hr & _).
  - eapply stack_history; [done|]. eapply stack_root. done.
  - exists c, w'. exact Hr.
Defined.

Lemma reentered_context_witness :
  ∃ w1 w2, enter 1 demo_world = (Ret tt, w1) ∧ enter 1 w1 = (Ret tt, w2) ∧
    (query true 100 1 (Some demo_target) demo_wl w2).1 = Raise RecursionError.
Proof.
  destruct (reentered_context_stuck 1 (Some 0) demo_world (ApplyHistoryBest [] [] []))
    as (w1 & w2 & w3 & w4 & H1 & H2 & _ & _ & _ & Hq); [done|].
  exists w1, w2. split; [exact H1|]. split; [exact H2|]. apply (Hq eq_refl).
Defined.

(** ** Task scheduler *)

Definition demo_tasks : list task := [mkTask [Some "conv"] f1 "k0" "llvm"; mkTask [None] f1 "k1" "llvm"].
Definition demo_options : options := mkOptions demo_tasks RoundRobin f1 f1 3.

(** Searches that explore ten programs per round and are exhausted after that. *)
Definition demo_search (r : nat) (i num : Z) : Z * list (list flt) :=
  if bool_decide (r < 5) then (10%Z, [[f1]; [f_of_Z 3]]) else (0%Z, []).

Lemma demo_search_inputs r i num : (0 ≤ (demo_search r i num).1)%Z.
Proof. unfold demo_search. by case_bool_decide. Qed.

Lemma demo_search_costs r i num : Forall (λ res, is_ret (array_mean res)) (demo_search r i num).2.
Proof. unfold demo_search. case_bool_decide; repeat constructor; by eexists. Qed.

Definition demo_scheduler : scheduler :=
  match TaskScheduler_init (λ _, 0%Z) fsum demo_options with
  | Ret s => s
  | Raise _ => mkS [] [] [] [] f0 0 0 f0 0 [] [] [] [] [] 0 0 0 []
  end.

Lemma demo_scheduler_init : TaskScheduler_init (λ _, 0%Z) fsum demo_options = Ret demo_scheduler.
Proof. by vm_compute. Qed.

Lemma demo_scheduler_wf : wf demo_options demo_scheduler.
Proof.
  destruct (init_wf (λ _, 0%Z) fsum demo_options) as (s & Hs & Hwf & _); [done|].
  rewrite demo_scheduler_init in Hs. by injection Hs as <-.
Qed.

Lemma tune_task_witness : ∃ s', tune_task demo_search fsum 1 demo_scheduler = (Ret tt, s') ∧
  round_result demo_search fsum demo_options 1 demo_scheduler s'.
Proof.
  apply (tune_task_spec demo_search fsum demo_options demo_search_inputs demo_search_costs 1 demo_scheduler);
    [exact demo_scheduler_wf|by vm_compute].
Defined.

Lemma round_robin_tune_witness :
  ∃ s', TaskScheduler.tune demo_search fsum (λ _, 0) demo_options (100 + 2)
          (mkTuneOption 100 10 (-1) None) None (λ _, 0%Z) demo_scheduler = (Ret tt, s').
Proof.
  destruct (round_robin_tune_terminates (λ _, 0%Z) demo_search fsum (λ _, 0) demo_options
    demo_search_inputs demo_search_costs eq_refl (mkTuneOption 100 10 (-1) None) (λ _, 0%Z) demo_scheduler)
    as (s' & Hr & _); [done|exact demo_scheduler_init|done|done|].
  exists s'. exact Hr.
Defined.
