(* ===== verification/PipelineWitnesses.v ===== *)
(** * Concrete instances of the theorems on the data pipeline and the driver *)

From S2P Require Import Prelude PyFloat PyText Corpus CorpusSpec Measure MeasureSpec.
From S2P Require Import Campaign CampaignSpec Driver DriverSpec Farm FarmSpec Codes.

(** ** A small data set *)

Definition demo_repr (x : flt) : string := "0.5".

(** A record: the workload key, the steps, and the costs. *)
Definition demo_record (sizes : list json) (costs : list json) : json :=
  JObj [("i", JArr [JArr [JStr "w"; JStr "llvm"];
                    JArr [JArr []; JArr [JArr [JStr "SP"; JInt 0; JInt 0; JInt 64; JArr sizes; JInt 1];
                                         JArr [JStr "PPT"]; JArr [JStr "FU"; JInt 2]]]]);
        ("r", JArr [JArr costs; JInt 0; JInt 1])].

(** The lines "a" and "b" hold one sketch with two latencies, "c" an invalid
    program, and "d" is "a" with other split sizes; "w" is a workload key. *)
Definition demo_loads (line : string) : py json :=
  if decide (line = "a") then Ret (demo_record [JInt 4; JInt 2] [JInt 3])
  else if decide (line = "b") then Ret (demo_record [JInt 8; JInt 1] [JInt 2])
  else if decide (line = "c") then Ret (demo_record [JInt 1; JInt 1] [JInt 0])
  else if decide (line = "d") then Ret (demo_record [JInt 16; JInt 1] [JInt 3])
  else if decide (line = "w") then Ret (JArr [JStr "key"])
  else Raise JSONDecodeError.

Definition demo_dag (line : string) : py string := Ret "dag".

(** ** The corpus *)

Lemma json_dfs_brackets_witness :
  json_dfs_without_bracket demo_repr (demo_record [JInt 4] [JInt 3]) =
  let? toks := json_dfs_with_bracket demo_repr (demo_record [JInt 4] [JInt 3]) in Ret (unbracket toks).
Proof.
  apply json_dfs_brackets. cbn -[brackets]. unfold brackets.
  repeat split; intros H; rewrite ?elem_of_cons, ?elem_of_nil in H;
    repeat destruct H as [H|H]; discriminate H || exact H.
Defined.

Lemma json_dfs_key_order_witness :
  json_dfs_without_bracket demo_repr (JObj [("b", JInt 1); ("a", JArr [JInt 2])]) =
  json_dfs_without_bracket demo_repr (JObj [("a", JArr [JInt 2]); ("b", JInt 1)]).
Proof.
  apply json_dfs_key_order.
  apply same_obj with (k := [("b", JInt 1); ("a", JArr [JInt 2])]).
  - cbn. constructor; [|constructor; [|constructor]]; rewrite ?elem_of_cons, ?elem_of_nil;
      intros H; repeat destruct H as [H|H]; discriminate H || exact H.
  - repeat constructor.
  - constructor.
Defined.

Definition demo_steps (sizes : list json) : list json :=
  [JArr [JStr "SP"; JInt 0; JInt 0; JInt 64; JArr sizes; JInt 1];
   JArr [JStr "PPT"]; JArr [JStr "FU"; JInt 2]].

Lemma split_sizes_hidden_witness :
  demo_loads "a" ≠ demo_loads "d" ∧
  is_ret (gen_entry demo_loads "dag" "a") ∧
  gen_entry demo_loads "dag" "a" = gen_entry demo_loads "dag" "d" ∧
  sketch_entry demo_repr demo_loads "a" = sketch_entry demo_repr demo_loads "d".
Proof.
  split; [vm_compute; discriminate|]. split; [vm_compute; by eexists|].
  destruct (split_sizes_hidden demo_repr demo_loads "a" "d"
    (demo_record [JInt 4; JInt 2] [JInt 3]) (demo_record [JInt 16; JInt 1] [JInt 3])
    (demo_steps [JInt 4; JInt 2]) (demo_steps [JInt 16; JInt 1]) "dag") as (Hg & _ & Hs);
    [reflexivity..| |split; [exact Hg|exact Hs]].
  constructor; [by apply resized_split|]. constructor; [apply resized_same|].
  constructor; [apply resized_same|constructor].
Defined.

Definition demo_lines : list string := ["a"; "b"; "c"].

Lemma for_gen_best_witness :
  ∃ ds, for_gen_best demo_repr demo_loads demo_dag "v100" id demo_lines = Ret ds ∧ length ds = 1 ∧
        for_gen_best demo_repr demo_loads demo_dag "i7" id demo_lines = Ret ds.
Proof.
  destruct (for_gen_best demo_repr demo_loads demo_dag "v100" id demo_lines) as [ds|e] eqn:Hds;
    [|vm_compute in Hds; discriminate].
  assert (take 1 ds = ds ∧ length ds = 1) as [Ht Hl].
  { vm_compute in Hds. injection Hds as <-. split; reflexivity. }
  exists ds. split; [reflexivity|]. split; [exact Hl|].
  apply (eq_trans (y := Ret (take 1 ds))); [|f_equal; exact Ht].
  apply (for_gen_best_spec demo_repr demo_loads demo_dag id demo_lines ds); [reflexivity| |exact Hds].
  intros line Hin p latency i. unfold demo_lines in Hin. rewrite !elem_of_cons, elem_of_nil in Hin.
  destruct Hin as [->|[->|[->|[]]]]; vm_compute; intros H; injection H as _ <- _; reflexivity.
Defined.

(** ** Training and test files *)

Definition demo_listing : list string := ["d/x.json"; "d/y.json"; "d/z.json"; "d/t.json"].
Definition demo_hold_out : list string := ["h/y.json"; "h/x.json"].
Definition demo_sample (l : list string) (n : Z) : py (list string) := Ret (take (Z.to_nat n) l).

Definition demo_files (t : for_type) (idx : option Z) : py (list string) :=
  main_files demo_sample id t demo_listing demo_hold_out [] None false idx.

Lemma demo_listing_nodup : NoDup (basename <$> demo_listing).
Proof. apply (bool_decide_unpack _). vm_compute. exact I. Qed.

Lemma hold_out_partition_witness :
  demo_files FOR_GEN_BEST None = Ret ["d/t.json"; "d/z.json"] ∧
  demo_listing ≡ₚ ["d/t.json"; "d/z.json"] ++ ["d/x.json"; "d/y.json"].
Proof.
  split; [vm_compute; reflexivity|].
  apply (hold_out_partition demo_sample id FOR_GEN_BEST FOR_GEN_EVAL_SKETCH demo_listing
    demo_hold_out [] None ["d/t.json"; "d/z.json"] ["d/x.json"; "d/y.json"]); [exact demo_listing_nodup|..];
    [by right; right; left|left|vm_compute; reflexivity|vm_compute; reflexivity].
Defined.

Lemma rotation_partition_witness :
  demo_files FOR_GEN_TRAIN_SKETCH (Some 5%Z) = Ret ["d/z.json"] ∧
  [] ++ ["d/t.json"] ++ ["d/z.json"] ++ [] ≡ₚ not_held_out demo_hold_out demo_listing.
Proof.
  split; [vm_compute; reflexivity|].
  apply (rotation_partition demo_sample id demo_listing demo_hold_out [] None false 3 [] ["d/t.json"]
    ["d/z.json"] []); [exact demo_listing_nodup|vm_compute; reflexivity..].
Defined.

(** ** Generation and measurement *)

Lemma gpu_shares_witness :
  ∃ shares, gpu_shares id 2 demo_lines = Ret shares ∧ concat shares = group_by id demo_lines.
Proof.
  destruct (proj2 (gpu_shares_partition id 2 demo_lines) ltac:(lia)) as (shares & Hs & Hc & _).
  exists shares. split; assumption.
Defined.

Definition demo_dirs : measured_dirs :=
  mkDirs [("f.json_part_0", ["a!"]); ("f.json_part_1", ["b!"]); ("f.json_part_2", ["c!"]);
          ("f.json_part_3", []); ("f.json_part_4", []); ("f.json_part_5", [])] [].

Lemma divide_merge_witness :
  ∃ d', merge_worker demo_dirs = (Ret tt, d') ∧ measured d' = [("f.json", ["a!"; "b!"; "c!"])].
Proof.
  destruct (divide_merge_roundtrip "f.json" eq_refl (fmap (λ l, l +:+ "!")) demo_lines
    [("f.json_part_0", ["a"]); ("f.json_part_1", ["b"]); ("f.json_part_2", ["c"]);
     ("f.json_part_3", []); ("f.json_part_4", []); ("f.json_part_5", [])] demo_dirs) as [Hm _].
  - intros a b. apply fmap_app.
  - vm_compute. reflexivity.
  - apply (bool_decide_unpack _). vm_compute. exact I.
  - intros f Hf Hn. exfalso. apply Hn. exact Hf.
  - destruct Hm as (d' & Hd & Hr & _); [|exists d'; split; [exact Hd|rewrite Hr; vm_compute; reflexivity]].
    intros f part Hin. rewrite !elem_of_cons, elem_of_nil in Hin.
    repeat destruct Hin as [Hin|Hin]; try (injection Hin as -> ->; reflexivity). destruct Hin.
Defined.

(** A policy that finds two states and then nothing new. *)
Definition demo_population (n : nat) : list string := if decide (n = 0) then ["a"; "b"; "a"] else ["b"].

Lemma dump_program_witness :
  ∃ l n, dump_program demo_population id 11 false 3 2 = Ret (Some l) ∧ NoDup (id <$> l) ∧
         ((3 ≤ zlen l)%Z ∨ stale demo_population id l 2 n ∧ (2 ≤ Z.of_nat n)%Z).
Proof.
  destruct (dump_program_spec demo_population id 11 3 2 ltac:(lia) ltac:(vm_compute; discriminate))
    as (l & n & Hr & Hnd & _ & Hs).
  exists l, n. split; [exact Hr|]. split; [exact Hnd|exact Hs].
Defined.

Lemma worker_witness :
  ∃ l, worker demo_population id (λ _, false) (fmap (λ _, 0%Z)) (λ l k, take (Z.to_nat k) l) false true 1 = Ret l ∧
       (zlen l ≤ 1)%Z.
Proof.
  destruct (worker_spec demo_population id (λ _, false) (fmap (λ _, 0%Z))
    (λ l k, take (Z.to_nat k) l) false true 1 ltac:(lia)) as (l & Hl & _ & Hle & _).
  - intros l k Hk. split; [|apply submseteq_take]. unfold zlen in *. rewrite length_take. lia.
  - exists l. split; [exact Hl|exact Hle].
Defined.

(** The line and the program of a record are its name. *)
Definition demo_record_loads (line : string) : py json :=
  if decide (line = "") then Raise JSONDecodeError
  else Ret (JObj [("i", JArr [JArr [JStr line]])]).
Definition demo_dumps (j : json) : string := py_repr demo_repr j.
Definition demo_content : string := write_lines demo_lines.

Lemma measure_main_witness :
  measure_main demo_record_loads demo_dumps Ret id (fmap (λ s, s +:+ "!")) 2 demo_content
    (Some (write_lines ["b"])) = (Ret tt, Some (write_lines ["a!"; "c!"])).
Proof.
  destruct (measure_main_spec demo_record_loads demo_dumps Ret id (fmap (λ s, s +:+ "!")) 2 demo_content
    (Some (write_lines ["b"])) ["[['b']]"] ["a"; "c"] ["a"; "c"]) as [Hm _];
    [lia|intros a b; apply fmap_app|vm_compute; reflexivity..|exact Hm].
Defined.

Lemma postprocess_witness :
  ∃ folder set, postprocess demo_record_loads demo_dumps "i7" "llvm" [demo_content; write_lines ["b"]] =
                  Ret (folder, set) ∧ length folder = 3 ∧
    check_measured (Some set) "[['b']]" None = (Ret true, Some set).
Proof.
  destruct (postprocess demo_record_loads demo_dumps "i7" "llvm" [demo_content; write_lines ["b"]])
    as [[folder set]|e] eqn:Hp; [|vm_compute in Hp; discriminate].
  exists folder, set. split; [reflexivity|]. split; [vm_compute in Hp; injection Hp as <- _; reflexivity|].
  destruct (postprocess_spec demo_record_loads demo_dumps "i7" "llvm" _ folder set Hp)
    as (_ & _ & _ & _ & _ & _ & Hc & _).
  rewrite Hc. vm_compute. reflexivity.
Defined.

(** ** The campaign *)

(** Documents as texts that [demo_parse] reads back. *)
Definition demo_dump (j : json) : string := to_text j.
Definition demo_parse (s : string) : py json := of_text s.

Lemma demo_parse_dump j : demo_parse (demo_dump j) = Ret j.
Proof. apply of_to_text. Qed.

Lemma add_files_witness :
  ∃ content, add_files demo_parse demo_dump (Some "v100") "test_files" "0_test_3.json" None = (Ret tt, Some content) ∧
    get_files demo_parse (Some "v100") "test_files" (Some content) = Ret (JArr [JStr "0_test_3.json"]) ∧
    get_files demo_parse (Some "i7") "test_files" (Some content) = Ret (JArr []).
Proof.
  destruct (add_files_spec demo_parse demo_dump "v100" "test_files" "0_test_3.json" None [])
    as (content & Ha & Hg & Ho); [exact demo_parse_dump|discriminate|reflexivity|].
  exists content. split; [exact Ha|]. split; [exact Hg|].
  rewrite (Ho "i7" "test_files"); [reflexivity|discriminate|discriminate].
Defined.

Lemma find_potential_files_witness :
  let file_of k := "dataset/measure_records/i7/" +:+ clean_name (task_key k "llvm") +:+ ".json" in
  find_potential_files (file_of <$> ["a"; "b"]) (Some ["(a,llvm)"]) = (Ret [file_of "a"], None).
Proof.
  intros file_of.
  destruct (find_potential_files_spec ["(a,llvm)"] "i7" "llvm" "llvm" ["a"; "b"] file_of) as [Hf _];
    [right; reflexivity|vm_compute; reflexivity| |].
  - intros k Hk. rewrite !elem_of_cons, elem_of_nil in Hk. destruct Hk as [->|[->|[]]]; vm_compute; reflexivity.
  - rewrite Hf. vm_compute. reflexivity.
Defined.

Definition demo_history : list (string * list flt) :=
  [("a", f_of_Z <$> [5; 4; 4]%Z); ("b", f_of_Z <$> [7; 7; 6]%Z); ("c", f_of_Z <$> [3; 3; 3]%Z)].

(** Two models that share the task b: each chooses one of its tasks. *)
Definition demo_models : list (list (string * Z) * Z) :=
  [([("a", 2); ("b", 1)], 600); ([("b", 3); ("c", 1)], 600)]%Z.

Lemma schedule_models_witness :
  ∃ hist' choices, schedule_models id demo_models [] demo_history = (Ret ["a"; "b"], hist') ∧
    Forall2 (choice_for id) demo_models choices ∧ ∀ k, k ∈ ["a"; "b"] ↔ ∃ p, p ∈ choices ∧ k ∈ p.
Proof.
  destruct (schedule_models_spec id demo_models demo_history)
    as (set & hist' & choices & Hs & Hc & _ & Hset & _).
  { intros m Hm. unfold demo_models in Hm. rewrite !elem_of_cons, elem_of_nil in Hm.
    destruct Hm as [->|[->|[]]]; (split; [discriminate|]); intros key Hk; vm_compute in Hk |- *; set_solver. }
  assert (set = ["a"; "b"]) as ->.
  { assert ((schedule_models id demo_models [] demo_history).1 = Ret ["a"; "b"]) as He by (vm_compute; reflexivity).
    rewrite Hs in He. by injection He. }
  exists hist', choices. split; [exact Hs|]. split; [exact Hc|exact Hset].
Defined.

(** The history 5, 4, 4 scores 1; after a model that stopped at window 4 it
    scores 4. *)
Lemma shared_history_witness :
  window_score 3 (update_history 3 (f_of_Z <$> [5; 4; 4]%Z)) = Ret f1 ∧
  window_score 3 (update_history 3 (update_history 4 (f_of_Z <$> [5; 4; 4]%Z))) = Ret (f_of_Z 4).
Proof.
  split; [vm_compute; reflexivity|].
  destruct (shared_history_changes_score (f_of_Z <$> [5; 4; 4]%Z) 4) as [Hs _];
    [discriminate|repeat constructor|lia|].
  destruct Hs as (m & Hm & _ & Hr); [vm_compute; split; reflexivity|].
  rewrite Hr. f_equal. vm_compute in Hm. injection Hm as <-. vm_compute. reflexivity.
Defined.

(** ** The driver *)

Lemma file_idx_witness : file_idx "testtuning_" "testtuning_12.json" = Ret 12%Z.
Proof.
  exact (file_idx_roundtrip "testtuning_" 12 ltac:(right; right; left) ltac:(lia)).
Defined.

Definition demo_cfg : tuning_cfg := mkCfg 2 4 4.
Definition demo_polls : list (list string * Z) :=
  [([], 0); (["finetuning_0.json"; "finetuning_1.json"], 0); (["finetuning_1.json"], 0)]%Z.

Lemma rounds_in_order_witness :
  ∃ cmds, run_polls (poll demo_cfg) None demo_polls = Ret (Some 2%Z, cmds, true) ∧
    omap pushed_by cmds = ["finetuning_2.json"; "finetuning_3.json"] ∧
    omap moved_by cmds = ["finetuning_0.json"; "finetuning_1.json"].
Proof.
  destruct (run_polls (poll demo_cfg) None demo_polls) as [[[want cmds] go]|e] eqn:Hr;
    [|vm_compute in Hr; discriminate].
  destruct (rounds_in_order demo_cfg demo_polls want cmds go Hr) as (_ & Hp & Hm & _).
  exists cmds. rewrite Hp, Hm. vm_compute in Hr. injection Hr as <- <- <-.
  split; [reflexivity|]. split; vm_compute; reflexivity.
Defined.

Lemma stalled_witness :
  run_polls (poll demo_cfg) (Some 0%Z) [(["finetuning_1.json"; "finetuning_0.json"], 0%Z)] =
  Ret (Some 0%Z, [RsyncIn "finetuning_1.json"; Sleep], true).
Proof.
  exact (stalled_on_other_index demo_cfg 0 "finetuning_" 1 "finetuning_1.json" ["finetuning_0.json"] [0%Z]
    (or_introl eq_refl) eq_refl eq_refl ltac:(discriminate)).
Defined.

(** ** The measurement farm *)

Definition farm_files : list (string * list string) := [("f.json", sample_lines)].
Definition farm_perform : action → farm → option farm :=
  perform sample_loads sample_dumps Ret (λ _, "w") sample_measure.

Fixpoint run_clean (l : list action) (w : farm) : option farm :=
  match l with
  | [] => Some w
  | a :: l' => if clean a w then match farm_perform a w with Some w' => run_clean l' w' | None => None end else None
  end.

Lemma run_clean_rtc l : ∀ w w', run_clean l w = Some w' →
  rtc (clean_step sample_loads sample_dumps Ret (λ _, "w") sample_measure) w w'.
Proof.
  induction l as [|a l IH]; intros w w'; simpl; [intros [= ->]; apply rtc_refl|].
  destruct (clean a w) eqn:Hc; [|discriminate]. destruct (farm_perform a w) as [u|] eqn:Hp; [|discriminate].
  intros Hr. eapply rtc_l; [exists a; split; [exact Hc|exact Hp]|]. by apply IH.
Qed.

Lemma farm_files_good fl : fl ∈ farm_files → good_name fl.1.
Proof. intros ->%list_elem_of_singleton. vm_compute. by split_and!. Qed.

Lemma farm_files_nodup : NoDup farm_files.*1.
Proof. apply (bool_decide_unpack _). vm_compute. exact I. Qed.

Lemma farm_files_selected p lines :
  (p, lines) ∈ all_parts farm_files → is_ret (selected sample_loads sample_dumps Ret (λ _, "w") [] lines).
Proof.
  intros Hin. change (all_parts farm_files) with
    [("f.json_part_0", ["a"; "b"]); ("f.json_part_1", ["c"; "d"]); ("f.json_part_2", ["e"; "f"]);
     ("f.json_part_3", ["g"; "h"]); ("f.json_part_4", ["i"; "j"]); ("f.json_part_5", ["k"; "l"])] in Hin.
  rewrite !elem_of_cons, elem_of_nil in Hin.
  destruct Hin as [Hin|[Hin|[Hin|[Hin|[Hin|[Hin|[]]]]]]]; injection Hin as -> ->; vm_compute; by eexists.
Qed.

Lemma sample_measure_app a b : sample_measure (a ++ b) = sample_measure a ++ sample_measure b.
Proof. apply fmap_app. Qed.

(** Two workers measure the parts in turn. *)
Definition turns : list action := concat (repeat (one_part 0 ++ one_part 1) 3).

Lemma farm_conserves_witness :
  ∃ w, run_clean (divide_all ++ turns ++ merge_all) (farm_init farm_files 2) = Some w ∧
    "f.json" ∈ od_keys (measured (dirs w)).
Proof.
  destruct (run_clean (divide_all ++ turns ++ merge_all) (farm_init farm_files 2)) as [w|] eqn:Hr;
    [|vm_compute in Hr; discriminate].
  exists w. split; [reflexivity|].
  destruct (farm_conserves sample_loads sample_dumps Ret (λ _, "w") sample_measure farm_files
    farm_files_good farm_files_nodup farm_files_selected sample_measure_app 2 w (run_clean_rtc _ _ _ Hr))
    as (_ & _ & Hall & _).
  apply Hall; [|left]. vm_compute in Hr. injection Hr as <-. vm_compute. reflexivity.
Defined.

Lemma single_worker_witness :
  ∃ w, farm_perform DivideStart (farm_init farm_files 1) = Some w ∧
    rtc (clean_step sample_loads sample_dumps Ret (λ _, "w") sample_measure) (farm_init farm_files 1) w.
Proof.
  destruct (farm_perform DivideStart (farm_init farm_files 1)) as [w|] eqn:Hr; [|vm_compute in Hr; discriminate].
  exists w. split; [reflexivity|].
  apply (single_worker_clean sample_loads sample_dumps Ret (λ _, "w") sample_measure farm_files
    farm_files_good farm_files_nodup farm_files_selected sample_measure_app).
  eapply rtc_l; [exists DivideStart; split; [discriminate|exact Hr]|apply rtc_refl].
Defined.
