(* ===== verification/RecordWitnesses.v ===== *)
(** * Concrete instances of the theorems on tuning records

    With a codec that keeps its promises, built from the codes of [Codes]. *)

From stdpp Require Import countable.
From S2P Require Import Prelude PyFloat PyText Transforms ConfigSpace Tuner Dispatcher Measure.
From S2P Require Import Records RecordsSpec Codes.

(** ** The codec *)

#[global] Instance optval_eq_dec : EqDecision optval.
Proof. solve_decision. Defined.

#[global] Instance annval_countable : Countable annval.
Proof.
  apply (inj_countable' (λ a, match a with AnnStr s => inl s | AnnInt z => inr z end)
    (λ y, match y with inl s => AnnStr s | inr z => AnnInt z end)). by intros [].
Defined.

#[global] Instance optval_countable : Countable optval.
Proof.
  apply (inj_countable' (λ v, match v with
      VNone => inl (inl ()) | VBool b => inl (inr b) | VInt z => inr (inl z) | VStr s => inr (inr s) end)
    (λ y, match y with
      inl (inl _) => VNone | inl (inr b) => VBool b | inr (inl z) => VInt z | inr (inr s) => VStr s end)).
  by intros [].
Defined.

#[global] Instance entity_countable : Countable entity.
Proof.
  apply (inj_countable' (λ e, match e with
      SplitEntity l => inl (inl l) | ReorderEntity l => inl (inr l)
    | AnnotateEntity l => inr (inl l) | OtherOptionEntity v => inr (inr v) end)
    (λ y, match y with
      inl (inl l) => SplitEntity l | inl (inr l) => ReorderEntity l
    | inr (inl l) => AnnotateEntity l | inr (inr v) => OtherOptionEntity v end)).
  by intros [].
Defined.

#[global] Instance costs_eq_dec : EqDecision costs_t.
Proof. solve_decision. Defined.

#[global] Instance costs_countable : Countable costs_t.
Proof.
  apply (inj_countable' (λ c, match c with CostTimes l => inl l | CostError a b => inr (a, b) end)
    (λ y, match y with inl l => CostTimes l | inr (a, b) => CostError a b end)). by intros [].
Defined.

#[global] Instance rtask_eq_dec : EqDecision rtask.
Proof. solve_decision. Defined.

#[global] Instance rtask_countable : Countable rtask.
Proof.
  apply (inj_countable' (λ t, (rt_name t, rt_args t, rt_kwargs t)) (λ '(n, a, k), mkRTask n a k)).
  by intros [].
Defined.

#[global] Instance config_eq_dec : EqDecision ConfigEntity.
Proof. solve_decision. Defined.

#[global] Instance config_countable : Countable ConfigEntity.
Proof.
  apply (inj_countable' (λ c, (ce_index c, ce_code_hash c, ce_entities c)) (λ '(i, h, e), mkCE i h e)).
  by intros [].
Defined.

#[global] Instance result_eq_dec : EqDecision MeasureResult.
Proof. solve_decision. Defined.

#[global] Instance result_countable : Countable MeasureResult.
Proof.
  apply (inj_countable' (λ r, (mr_costs r, mr_error_no r, mr_all_cost r, mr_timestamp r))
    (λ '(c, e, a, t), mkMR c e a t)). by intros [].
Defined.

#[global] Instance demo_codec : Codec := {|
  json_loads := of_text;
  json_dumps := to_text;
  float_repr _ := "0.2";
  Target s := Ret (mkTarget s "unknown" ["llvm"; "cpu"]);
  tvm_version := "0.9";
  pickle_task := to_text; unpickle_task := of_text;
  pickle_config := to_text; unpickle_config := of_text;
  pickle_result := to_text; unpickle_result := of_text
|}.

#[global] Instance demo_codec_ok : CodecOk.
Proof. split; intros; apply of_to_text. Qed.

(** ** Records *)

#[local] Existing Instance numpy_model.

Definition log_target : target := mkTarget "llvm" "unknown" ["llvm"; "cpu"].

Definition log_input (i : Z) (arg : json) : MeasureInput :=
  mkMI log_target (mkRTask "conv" [JInt 8; arg; JArr [JInt 3; JInt 3]] (JObj []))
    (mkCE i None [("tile", SplitEntity [i; 4%Z]); ("vec", AnnotateEntity [AnnStr "unroll"])]).

Definition log_result (c : Z) : MeasureResult := mkMR (CostTimes [f_of_Z c]) 0 (f_of_Z 5) (f_of_Z 7).
Definition log_failure : MeasureResult := mkMR (CostError "" "timeout") 4 (f_of_Z 5) (f_of_Z 9).

Definition row_of (inp : MeasureInput) (r : MeasureResult) : string :=
  match encode inp r "json" with Ret s => s | Raise _ => "" end.

Lemma log_storable c : storable (log_result c).
Proof. intros _. by eexists. Qed.

Lemma log_failure_storable : storable log_failure.
Proof. intros H. discriminate H. Qed.

Lemma log_readable i arg : readable (mi_target (log_input i arg)).
Proof. by vm_compute. Qed.

Lemma log_keys i arg : NoDup (od_keys (ce_entities (mi_config (log_input i arg)))).
Proof. apply (bool_decide_unpack _). by vm_compute. Qed.

Lemma record_roundtrip_witness :
  ∃ row, encode (log_input 2 (JBool true)) log_failure "json" = Ret row ∧
    decode row "json" true = (Ret (Some (stored (log_input 2 (JBool true)) log_failure)), true).
Proof.
  destruct (record_roundtrip (log_input 2 (JBool true)) log_failure true) as (row & Hrow & Hdec & _);
    [apply log_failure_storable|apply log_readable|apply log_keys|].
  exists row. split; [exact Hrow|exact Hdec].
Defined.

(** A failure is written by the pickle protocol and cannot be read. *)
Lemma pickle_protocol_witness :
  ∃ row, encode (log_input 2 (JBool true)) log_failure "pickle" = Ret row ∧
    decode row "pickle" true = (Raise TypeError, true).
Proof.
  apply (pickle_protocol (log_input 2 (JBool true)) log_failure true); [reflexivity|].
  repeat constructor; apply digits_clean; discriminate.
Defined.

(** Three configurations: the first is measured twice, better the second time,
    and the other task has other arguments. *)
Definition log_rows : list string :=
  ["# a comment"; row_of (log_input 2 (JInt 1)) (log_result 3); row_of (log_input 3 (JInt 1)) (log_result 2);
   row_of (log_input 2 (JInt 1)) (log_result 1); row_of (log_input 2 (JInt 2)) (log_result 9)].

Lemma split_workload_witness :
  ∃ files, split_workload (Some "log") (tail log_rows) true = Ret files ∧ fst <$> files =
    ["log.000.wkl"; "log.001.wkl"].
Proof.
  destruct (pymap (λ row, fst (decode row "json" true)) (tail log_rows)) as [decs|e] eqn:Hd;
    [|vm_compute in Hd; discriminate Hd].
  destruct (split_workload_spec (tail log_rows) decs true "log" Hd) as [(files & Hf & _) _].
  exists files. split; [exact Hf|]. vm_compute in Hf. injection Hf as <-. reflexivity.
Defined.

Lemma pick_best_witness :
  ∃ rows, pick_best log_rows None true = (Ret rows, true) ∧ length rows = 2.
Proof.
  destruct (load_from_lines log_rows true) as [[ds|e] w'] eqn:Hl; [|vm_compute in Hl; discriminate Hl].
  destruct (pick_best_spec log_rows None true ds w') as (kept & rows & Hp & _);
    [exact Hl| |].
  { vm_compute in Hl. injection Hl as <- _. repeat constructor. }
  exists rows. vm_compute in Hl. injection Hl as _ <-. split; [exact Hp|].
  vm_compute in Hp. injection Hp as <-. reflexivity.
Defined.

(** Of a configuration that was measured twice the first measurement is kept,
    not the better one that made it the best. *)
Example pick_best_keeps_first :
  pick_best log_rows None true =
  (Ret [row_of (log_input 2 (JInt 1)) (log_result 3); row_of (log_input 2 (JInt 2)) (log_result 9)], true) ∧
  In (row_of (log_input 2 (JInt 1)) (log_result 1)) log_rows ∧
  fltb (f_of_Z 1) (f_of_Z 3) = true.
Proof. split; [by vm_compute|]. split; [by right; right; right; left|done]. Qed.

Lemma db_save_load_witness :
  ∃ db', db_save (log_input 2 (JInt 1)) log_failure true
           [(measure_str_key float_repr (log_input 2 (JInt 1)) true, row_of (log_input 2 (JInt 1)) (log_result 3))]
         = (Ret tt, db') ∧
    db_load_all (log_input 2 (JInt 1)) db' =
      Ret (Some [stored_result (log_result 3); stored_result log_failure]).
Proof.
  destruct (db_save_load (log_input 2 (JInt 1)) log_failure true
    (row_of (log_input 2 (JInt 1)) log_failure)
    [(measure_str_key float_repr (log_input 2 (JInt 1)) true, row_of (log_input 2 (JInt 1)) (log_result 3))]
    (Some [stored_result (log_result 3)])) as (db' & Hs & Hl & _).
  - apply log_failure_storable.
  - apply log_readable.
  - apply log_keys.
  - vm_compute. reflexivity.
  - apply digits_clean; discriminate.
  - vm_compute. reflexivity.
  - exists db'. split; [exact Hs|exact Hl].
Defined.

Lemma filter_inputs_witness :
  let db := [(measure_str_key float_repr (log_input 2 (JInt 1)) true, row_of (log_input 2 (JInt 1)) log_failure)] in
  filter_inputs db [log_input 2 (JInt 1); log_input 3 (JInt 1)] true =
    Ret ([None; None], [log_input 2 (JInt 1); log_input 3 (JInt 1)]) ∧
  filter_inputs db [log_input 2 (JInt 1); log_input 3 (JInt 1)] false =
    Ret ([Some (stored_result log_failure); None], [log_input 3 (JInt 1)]).
Proof.
  intros db. split.
  - rewrite (filter_inputs_spec db [log_input 2 (JInt 1); log_input 3 (JInt 1)] true);
      [vm_compute; reflexivity|]. repeat constructor; vm_compute; by eexists.
  - rewrite (filter_inputs_spec db [log_input 2 (JInt 1); log_input 3 (JInt 1)] false);
      [vm_compute; reflexivity|]. repeat constructor; vm_compute; by eexists.
Defined.
