(* ===== verification/GraphWitnesses.v ===== *)
(** * Concrete instances of the theorems on the graph tuner *)

From S2P Require Import Prelude Pbqp PbqpEnergy PbqpState PbqpReduce PbqpSpec PbqpRun.

(** Costs as whole numbers of nanoseconds: [10e9] seconds is the invalid cost. *)
#[local] Instance Z_costs : CostOps := {|
  num := Z; num_zero := 0%Z; num_add := Z.add; num_ltb := Z.ltb; num_eqb := Z.eqb;
  INVALID_LAYOUT_TIME := (10 ^ 10)%Z
|}.

#[local] Instance Z_costs_ok : CostOk.
Proof.
  refine {| val := λ x : num, (x : Z) |}; simpl; try done.
  - intros a b. symmetry. destruct (Z.ltb_spec a b); [by apply bool_decide_true|apply bool_decide_false; lia].
  - intros a b. symmetry. destruct (Z.eqb_spec a b); [by apply bool_decide_true|by apply bool_decide_false].
Defined.

(** Two convolutions of the input 0, their sum, and a convolution of the sum. *)
Definition branches : gt_graph := {|
  in_nodes := [(1, [0]); (2, [0]); (3, [1; 2]); (4, [3])];
  out_nodes := [(1, [3]); (2, [3]); (3, [4]); (4, []); (0, [1; 2])];
  boundary := λ n, n =? 0;
  multiple_inputs := λ n, n =? 3;
  candidate_costs := λ n, match n with
    | 1 | 3 => Ret [5; 4]%Z | 2 => Ret [3; 9; 6]%Z | 4 => Ret [7; 2]%Z | _ => Raise KeyError end
|}.

Definition branches_ins : list (nat * list nat) := [(1, []); (2, []); (3, [1; 2]); (4, [3])].

(** From the second to the first convolution, and from the sum to the last. *)
Definition branches_mats : gmap nat (list (list Z)) :=
  list_to_map [(0%nat, [[0; 3]; [1; 0]; [5; 0]]); (1%nat, [[0; 8]; [8; 0]])]%Z.

Definition branches_pairs : gmap (nat * nat) nat := list_to_map [((2, 1), 0); ((3, 4), 1)].

(** Case analysis on the nodes of a small graph, on the members of a list, and
    evaluation of a decidable statement. *)
Ltac each_node n := destruct n as [|[|[|[|[|n]]]]].

Ltac each_member H :=
  repeat (apply elem_of_cons in H as [H|H]; [first [injection H as H; subst|subst]|]);
  try by apply elem_of_nil in H.

Ltac evaluate := by apply (bool_decide_unpack _); vm_compute.

Lemma full_matrix (M : list (list num)) r c :
  bool_decide (length M = r ∧ Forall (λ row, length row = c) M) = true → is_matrix M r c.
Proof.
  intros [Hr Hc]%bool_decide_eq_true. split; [done|]. intros i row Hi. by apply (Forall_lookup_1 _ _ _ _ Hc Hi).
Qed.

Lemma matrix_nonneg (M : list (list num)) :
  bool_decide (Forall (Forall (λ x, 0 ≤ val x)%Z) M) = true → ∀ i j, (0 ≤ entry M i j)%Z.
Proof.
  intros HM%bool_decide_eq_true i j. unfold entry.
  destruct (M !! i ≫= (.!! j)) as [x|] eqn:E; [|lia].
  apply bind_Some in E as (row & Hi & Hj).
  apply (Forall_lookup_1 _ _ _ _ (Forall_lookup_1 _ _ _ _ HM Hi) Hj).
Qed.

Lemma branches_inputs_ok : inputs_ok branches branches_ins.
Proof.
  split; [by vm_compute|done|evaluate|..].
  - intros n. each_node n; evaluate.
  - intros n m Hm. each_node n; unfold inputs_of in Hm; csimpl in Hm; each_member Hm; (split; [lia|split; [evaluate|done]]).
  - intros n Hn. csimpl in Hn. each_member Hn.
    all: (split; [by eexists|split; [evaluate|intros m; each_node m; evaluate]]).
  - intros n Hn. csimpl in Hn. each_member Hn. all: done.
  - intros n x Hx. each_node n; unfold costs_of in Hx; csimpl in Hx; each_member Hx; simpl; lia.
Qed.

Lemma branches_edge m n : m ∈ inputs_of branches_ins n → (m, n) ∈ [(1, 3); (2, 3); (3, 4)].
Proof. intros Hm. each_node n; unfold inputs_of in Hm; csimpl in Hm; each_member Hm; evaluate. Qed.

Lemma branches_entries_ok : entries_ok branches branches_ins branches_mats branches_pairs.
Proof.
  split.
  - intros k id Hk. apply elem_of_list_to_map_2 in Hk. each_member Hk.
    + exists [[0; 3]; [1; 0]; [5; 0]]%Z, 3, 2. split; [by vm_compute|]. split; [by apply full_matrix|lia].
    + exists [[0; 8]; [8; 0]]%Z, 2, 2. split; [by vm_compute|]. split; [by apply full_matrix|lia].
  - intros m n k Hm%branches_edge Hk. each_member Hm; vm_compute in Hk; simplify_eq; by eexists.
  - intros m n Hm%branches_edge. each_member Hm.
    all: (split; [by apply full_matrix; vm_compute|by apply matrix_nonneg; vm_compute]).
  - intros m n m' n' k k' Hm%branches_edge Hm'%branches_edge Hk Hk'.
    each_member Hm; each_member Hm'; vm_compute in Hk, Hk'; simplify_eq; done.
  - intros m n Hm%branches_edge. each_member Hm; by vm_compute.
Qed.

Lemma pbqp_minimises_witness :
  ∃ s t, pbqp_init branches = Ret (s, branches_ins) ∧
    run branches branches_ins 5 (with_ltf branches_pairs (with_heap branches_mats s)) = (Ret tt, t) ∧
    map_to_list (p_opt t) = [(4, 1); (2, 0); (3, 1); (1, 1)] ∧
    ∀ f, (∀ n, n ∈ branches_ins.*1 → f n < length (costs_of branches n)) →
      (graph_time branches branches_ins branches_mats branches_pairs (choice (p_opt t)) ≤
       graph_time branches branches_ins branches_mats branches_pairs f)%Z.
Proof.
  destruct (pbqp_minimises branches branches_ins branches_mats branches_pairs
    branches_inputs_ok branches_entries_ok 5) as (s & Hs & [[_ (t & Ht)]|(t & Ht & _ & _ & Hbest)]).
  - vm_compute. lia.
  - exfalso. vm_compute in Hs. injection Hs as <-. vm_compute in Ht. discriminate Ht.
  - exists s, t. split; [exact Hs|]. split; [exact Ht|].
    vm_compute in Hs. injection Hs as <-. vm_compute in Ht. injection Ht as <-. split; [by vm_compute|].
    apply Hbest; [done|]. exists (λ _, 0). split; [|by vm_compute].
    intros n Hn. csimpl in Hn. each_member Hn; vm_compute; lia.
Defined.

(** ** A shortcut around a convolution

    The sum of a convolution 1 and of a convolution 2 of its result.  The pair (1, 2)
    is recorded for the edge and the pair (2, 1) for the sum; [run] replaces each
    by the reverse of the other. *)
Definition shortcut : gt_graph := {|
  in_nodes := [(1, [0]); (2, [1]); (3, [1; 2]); (4, [3])];
  out_nodes := [(1, [2; 3]); (2, [3]); (3, [4]); (4, []); (0, [1])];
  boundary := λ n, n =? 0;
  multiple_inputs := λ n, n =? 3;
  candidate_costs := λ n, match n with
    | 1 | 3 => Ret [1; 1]%Z | 2 | 4 => Ret [1]%Z | _ => Raise KeyError end
|}.

Definition shortcut_ins : list (nat * list nat) := [(1, []); (2, [1]); (3, [1; 2]); (4, [3])].

Definition shortcut_mats : gmap nat (list (list Z)) :=
  list_to_map [(0%nat, [[0]; [9]]); (1%nat, [[5; 0]]); (2%nat, [[0]; [0]])]%Z.

Definition shortcut_pairs : gmap (nat * nat) nat := list_to_map [((1, 2), 0); ((2, 1), 1); ((3, 4), 2)].

(** The result is flagged as optimal and takes 13 where 9 are possible. *)
Lemma shortcut_not_optimal :
  ∃ s t, pbqp_init shortcut = Ret (s, shortcut_ins) ∧
    run shortcut shortcut_ins 5 (with_ltf shortcut_pairs (with_heap shortcut_mats s)) = (Ret tt, t) ∧
    p_is_optimal t = true ∧
    graph_time shortcut shortcut_ins shortcut_mats shortcut_pairs (choice (p_opt t)) = 13%Z ∧
    graph_time shortcut shortcut_ins shortcut_mats shortcut_pairs (λ _, 0) = 9%Z.
Proof. eexists _, _. split; [by vm_compute|]. split; [by vm_compute|]. split_and!; by vm_compute. Qed.

(** The records of a sum are those of its first input, and their costs are
    charged again: here the convolution 1 with 5 and a free transformation is
    better than the one with 3 and a transformation for 3. *)
Definition charged : gt_graph := {|
  in_nodes := [(1, [0]); (2, [0]); (3, [1; 2]); (4, [3])];
  out_nodes := [(1, [3]); (2, [3]); (3, [4]); (4, []); (0, [1; 2])];
  boundary := λ n, n =? 0;
  multiple_inputs := λ n, n =? 3;
  candidate_costs := λ n, match n with
    | 1 | 3 => Ret [5; 3]%Z | 2 | 4 => Ret [1]%Z | _ => Raise KeyError end
|}.

Definition charged_mats : gmap nat (list (list Z)) :=
  list_to_map [(0%nat, [[0; 0]]); (1%nat, [[0]; [3]])]%Z.

Lemma sum_charged_twice :
  ∃ s t, pbqp_init charged = Ret (s, branches_ins) ∧
    run charged branches_ins 5 (with_ltf branches_pairs (with_heap charged_mats s)) = (Ret tt, t) ∧
    p_opt t !! 1 = Some 1 ∧ p_is_optimal t = true ∧
    (** without the costs of the sum *)
    let time f := (graph_time charged branches_ins charged_mats branches_pairs f - cst s 3%nat (f 3%nat))%Z in
    (time (choice (p_opt t)) = 8 ∧ time (λ _, 0%nat) = 7)%Z.
Proof. eexists _, _. split; [by vm_compute|]. split; [by vm_compute|]. split_and!; by vm_compute. Qed.
