(* ===== verification/GraphBaseWitnesses.v ===== *)
(** * Concrete instances of the theorems on the base of the graph tuners *)

From S2P Require Import Prelude Pbqp PbqpState PbqpRun GraphTraverse GraphTraverseSpec GraphBase GraphBaseSpec.
From S2P Require Import GraphWitnesses.

#[local] Existing Instance Z_costs.
#[local] Existing Instance Z_costs_ok.
#[local] Existing Instance numpy_model.

Definition variable (x : string) : node_entry := mkNode None (Some x) [] false.
Definition call (op : string) (inputs : list nat) : node_entry := mkNode (Some op) None inputs false.
Definition conv (data weight : nat) : node_entry := call "nn.conv2d" [data; weight].

Abbreviation in_nodes_of := (get_in_nodes ["nn.conv2d"] ["data"; "data2"]).

(** A convolution, one of its result, the sum of both, and a convolution of the sum. *)
Definition residual : list node_entry :=
  [variable "data"; variable "w1"; conv 0 1; call "nn.relu" [2]; variable "w2"; conv 3 4; call "add" [5; 3];
   variable "w3"; conv 6 7].
Definition residual_in : list (nat * list nat) := [(2, [0]); (5, [2]); (6, [5; 2]); (8, [6])].

Lemma topological_check g :
  bool_decide (Forall (λ x, Forall (λ j, j < x.1) (n_inputs x.2)) (enumerate g)) = true →
  ∀ i n j, g !! i = Some n → j ∈ n_inputs n → j < i.
Proof.
  intros Hall%bool_decide_eq_true i n j Hi Hj. rewrite Forall_forall in Hall.
  assert ((i, n) ∈ enumerate g) as Hin by (apply elem_of_lookup_imap; by exists i, n).
  specialize (Hall _ Hin). simpl in Hall. rewrite Forall_forall in Hall. by apply Hall.
Qed.

Lemma get_in_nodes_witness : in_nodes_of residual = Ret residual_in ∧
  ∃ l, (8, l) ∈ residual_in ∧ 6 ∈ l.
Proof.
  assert (∀ i n j, residual !! i = Some n → j ∈ n_inputs n → j < i) as Htopo by (by apply topological_check).
  pose proof (get_in_nodes_spec ["nn.conv2d"] ["data"; "data2"] residual Htopo) as Hspec.
  assert (in_nodes_of residual = Ret residual_in) as He by (by vm_compute).
  rewrite He in Hspec. split; [done|]. destruct Hspec as (_ & _ & Hall). apply (Hall 8 6).
  - eexists. by vm_compute.
  - eexists. by vm_compute.
  - apply (nearest_stop _ _ _ _ (conv 6 7)); [done|done|left|by vm_compute].
  - right. by apply (bool_decide_unpack _).
Defined.

(** ** What the reduction of boundary nodes leaves behind *)

(** A sum whose first input is a graph input is dropped, although its second one is tuned,
    and stays an input of the convolution that reads it. *)
Definition input_first : list node_entry :=
  [variable "data"; variable "w1"; conv 0 1; call "add" [0; 2]; variable "w2"; conv 3 4].
Definition input_second : list node_entry :=
  [variable "data"; variable "w1"; conv 0 1; call "add" [2; 0]; variable "w2"; conv 3 4].

Example sum_of_input_dropped : in_nodes_of input_first = Ret [(2, [0]); (5, [3])] ∧
  in_nodes_of input_second = Ret [(2, [0]); (3, [2]); (5, [3])].
Proof. split; by vm_compute. Qed.

(** Of two sums of graph inputs that a concatenation reads one stays among its inputs:
    the loop removes from the list it runs over. *)
Example sum_skipped : in_nodes_of
    [variable "data"; variable "data2"; variable "w"; conv 0 2; call "add" [0; 1]; call "add" [1; 0];
     mkNode None None [3; 4; 5] true; call "concatenate" [3; 4; 5]] = Ret [(3, [0]); (7, [3; 5])].
Proof. by vm_compute. Qed.

(** A convolution of constants whose reader has been dropped. *)
Example constant_conv_raises : in_nodes_of
    [variable "data"; variable "c"; variable "w"; conv 1 2; call "add" [0; 3]; variable "w2"; conv 4 5] = Raise KeyError.
Proof. by vm_compute. Qed.

(** ** Candidates and matrices *)

(** Configurations are the layouts of input and output. *)
Definition infer (w : workload) (c : string * string) : py (layout_info * layout_info) :=
  Ret ([([8%Z], c.1)], [([8%Z], c.2)]).

Definition task (k : Z) : workload := ("conv2d_NCHWc.x86", [Tensor [8%Z] "float32"; Tensor [k] "float32"]).
Definition residual_attrs : gmap nat (@attr _ (string * string)) :=
  list_to_map ((λ '(i, k), (i, mkAttr [Some "conv2d_NCHWc.x86"] [Some (task k)] None)) <$>
    [(2%nat, 1%Z); (5%nat, 2%Z); (8%nat, 1%Z)]).

Definition residual_records : list (@mrec _ (string * string)) :=
  [mkRec (task 1) ("a", "a") 5%Z; mkRec (task 1) ("a", "b") 9%Z; mkRec (task 2) ("b", "b") 4%Z;
   mkRec (task 1) ("a", "b") 3%Z; mkRec (task 1) ("b", "b") 8%Z].

Definition residual_fetched := fetch_cfg infer infer ["nn.conv2d"] 2 residual_records residual (od_keys residual_in)
  residual_attrs.

Lemma fetch_cfg_witness : ∃ at', residual_fetched = Ret at' ∧
  candidates at' 8 = Ret [mkRec (task 1) ("a", "b") 3%Z; mkRec (task 1) ("a", "a") 5%Z] ∧
  fetched infer infer 2 residual_records residual_attrs at' 5.
Proof.
  destruct residual_fetched as [at'|] eqn:E; [|by vm_compute in E]. exists at'. split; [done|]. split.
  - vm_compute in E. injection E as <-. by vm_compute.
  - refine (proj1 (fetch_cfg_spec infer infer ["nn.conv2d"] 2 residual_records residual (od_keys residual_in)
      residual_attrs at' _ E) 5 _ _).
    + intros k a Ha. apply elem_of_list_to_map_2 in Ha.
      repeat (apply elem_of_cons in Ha as [[= -> ->]|Ha]; [by eexists|]). by apply elem_of_nil in Ha.
    + by apply (bool_decide_unpack _).
    + eexists. by vm_compute.
Defined.

Definition residual_setup :=
  match residual_fetched with
  | Ret at' => setup_multi ["data"; "data2"] (λ _, [8%Z]) residual residual_in at'
  | Raise e => Raise e
  end.

(** One transformation is in the records, the others are measured. *)
Definition layout_times : list (workload * Z) :=
  [(("layout_transform", [Tensor [8%Z] "float32"; Other "b"; Other "a"]), 2%Z)].

Definition residual_benchmark at' := benchmark_layout_transform infer infer Z.div Z.mul (λ s _ _, s) (λ _, Some 7%Z)
  ["nn.conv2d"] ["data"; "data2"] "float32" residual residual_in at' (Some layout_times) false (mkLtf [] ∅).

Lemma benchmark_witness : ∃ at' s, residual_setup = Ret at' ∧ residual_benchmark at' = (Ret tt, s) ∧
  interlayer_cost s !! (2, 5) = Some [[0]; [7]]%Z ∧ is_Some (interlayer_cost s !! (2, 5)).
Proof.
  destruct residual_setup as [at'|] eqn:Es; [|by vm_compute in Es].
  destruct (residual_benchmark at') as [[[]|e] s] eqn:Eb.
  2: { exfalso. vm_compute in Es. injection Es as <-. by vm_compute in Eb. }
  exists at', s. split; [done|]. split; [done|]. split.
  - vm_compute in Es. injection Es as <-. vm_compute in Eb. injection Eb as <-. by vm_compute.
  - destruct (benchmark_spec infer infer ["nn.conv2d"] ["data"; "data2"] "float32" residual residual_in at')
      with (3 := Eb) as (perf & nf & tt' & _ & _ & _ & Hdom & _); [|done|].
    + intros k l Hl. unfold candidates, dget in Hl. destruct (at' !! k) as [a|] eqn:Ea; [|done]. simpl in Hl.
      destruct (record_candidates a) as [l'|] eqn:El; [|done]. injection Hl as <-. intros ->.
      assert (bool_decide (map_Forall (λ _ a, match record_candidates a with Some [] => false | _ => true end = true) at') = true) as Hall.
      { vm_compute in Es. injection Es as <-. by vm_compute. }
      apply bool_decide_eq_true in Hall. specialize (Hall k a Ea). simpl in Hall. by rewrite El in Hall.
    + vm_compute in Es. injection Es as <-. vm_compute in Eb. injection Eb as <-. by eexists.
Defined.

(** A second benchmark appends to the matrices of the first: with one candidate for
    node 5 its rows now have two entries. *)
Example second_benchmark_doubles :
  (let? at' := residual_setup in
   let s := (residual_benchmark at').2 in
   let s' := (benchmark_layout_transform infer infer Z.div Z.mul (λ s _ _, s) (λ _, Some 7%Z) ["nn.conv2d"]
     ["data"; "data2"] "float32" residual residual_in at' None false s).2 in
   Ret (interlayer_cost s !! (2, 5), interlayer_cost s' !! (2, 5))) =
  Ret (Some [[0]; [7]], Some [[0; 0]; [7; 7]])%Z.
Proof. by vm_compute. Qed.

(** The input that is no key any more has no entries: the tuner raises. *)
Example dropped_sum_raises :
  (benchmark_layout_transform infer infer Z.div Z.mul (λ s _ _, s) (λ _, Some 7%Z) ["nn.conv2d"] ["data"; "data2"]
     "float32" input_first [(2, [0]); (5, [3])] residual_attrs None false (mkLtf [] ∅)).1 = Raise KeyError.
Proof. by vm_compute. Qed.
