(* ===== verification/DpWitnesses.v ===== *)
(** * Arrays as lists, and the dynamic programming tuner at concrete inputs *)

From S2P Require Import Prelude Pbqp PbqpState GraphTraverse GraphBase Dp DpSpec.

(** ** An instance of the interface of arrays *)

Section Arrays.
Context `{CostOps}.

Record arr := mkArr { a_sh : list nat; a_data : list num; a_ok : length a_data = size_of_axes a_sh }.

(** The indexes of an array, in C order, and their positions. *)
Fixpoint indices (sh : list nat) : list (list nat) :=
  match sh with [] => [[]] | n :: sh' => concat ((λ i, cons i <$> indices sh') <$> seq 0 n) end.

Fixpoint ravel (sh idx : list nat) : nat :=
  match sh, idx with _ :: sh', i :: idx' => i * size_of_axes sh' + ravel sh' idx' | _, _ => 0 end.

Lemma length_indices sh : length (indices sh) = size_of_axes sh.
Proof.
  induction sh as [|n sh IH]; [done|]. cbn [indices size_of_axes foldr].
  rewrite (length_concat_rows _ (size_of_axes sh)); [by rewrite length_fmap, length_seq|].
  intros r (i & -> & _)%list_elem_of_fmap. by rewrite length_fmap.
Qed.

Lemma tab_ok sh (f : list nat → num) : length (f <$> indices sh) = size_of_axes sh.
Proof. by rewrite length_fmap, length_indices. Qed.

Definition arr_at (a : arr) (idx : list nat) : num := default num_zero (a_data a !! ravel (a_sh a) idx).

Definition arr_tab (sh : list nat) (f : list nat → num) : arr := mkArr sh (f <$> indices sh) (tab_ok sh f).

(** First position of the least of [n] values, at least one. *)
Fixpoint first_min (n : nat) (f : nat → num) : nat :=
  match n with
  | 0 => 0
  | S n => let i := first_min n f in if n =? 0 then 0 else if num_ltb (f n) (f i) then n else i
  end.

Definition insert_at (k j : nat) (idx : list nat) : list nat := take k idx ++ j :: drop k idx.

Definition arr_axis (a : arr) (k : nat) : py nat :=
  match a_sh a !! k with Some 0 | None => Raise ValueError | Some n => Ret n end.

#[global] Instance list_arrays : NdOps := {|
  nd := arr;
  nd_shape := a_sh;
  nd_flatten := a_data;
  np_reshape l sh := match decide (length l = size_of_axes sh) with left Hl => Ret (mkArr sh l Hl) | right _ => Raise ValueError end;
  np_transpose a axes :=
    if bool_decide (axes ≡ₚ seq 0 (length (a_sh a))) then
      Ret (arr_tab ((λ k, nth k (a_sh a) 0) <$> axes)
        (λ idx, arr_at a ((λ d, match pos_of d axes with Ret p => nth p idx 0 | Raise _ => 0 end) <$> seq 0 (length (a_sh a)))))
    else Raise ValueError;
  np_broadcast_to a sh :=
    if (length sh =? length (a_sh a)) && forallb (λ x, (x.1 =? x.2) || (x.1 =? 1)) (zip (a_sh a) sh) then
      Ret (arr_tab sh (λ idx, arr_at a (zip_with (λ i n, if n =? 1 then 0 else i) idx (a_sh a))))
    else Raise ValueError;
  np_amin a k := let? n := arr_axis a k in
    Ret (arr_tab (take k (a_sh a) ++ drop (S k) (a_sh a))
      (λ idx, let f j := arr_at a (insert_at k j idx) in f (first_min n f)));
  np_amax a := match a_data a with [] => Raise ValueError | x :: l => Ret (foldl (λ m y, if num_ltb m y then y else m) x l) end;
  np_argmin a k idx := let? n := arr_axis a k in Ret (first_min n (λ j, arr_at a (insert_at k j idx)));
  np_argmin_flat a := match a_data a with [] => Raise ValueError | l => Ret (first_min (length l) (λ j, nth j l num_zero)) end;
  np_take a idx :=
    if (length idx <=? length (a_sh a)) && forallb (λ x, x.1 <? x.2) (zip idx (a_sh a)) then
      Ret (arr_tab (drop (length idx) (a_sh a)) (λ rest, arr_at a (idx ++ rest)))
    else Raise IndexError
|}.

(** ** The laws *)

Lemma indices_in sh idx : idx ∈ indices sh → Forall2 lt idx sh.
Proof.
  revert idx. induction sh as [|n sh IH]; intros idx; cbn [indices]; [by intros ->%list_elem_of_singleton|].
  intros (r & Hidx & (i & -> & Hi)%list_elem_of_fmap)%list_elem_of_concat.
  apply list_elem_of_fmap in Hidx as (idx' & -> & Hidx'). apply elem_of_seq in Hi. constructor; [lia|]. by apply IH.
Qed.

Lemma ravel_indices sh : ravel sh <$> indices sh = seq 0 (size_of_axes sh).
Proof.
  induction sh as [|n sh IH]; [done|]. cbn [indices size_of_axes foldr]. fold (size_of_axes sh).
  enough (∀ k, ravel (n :: sh) <$> concat ((λ i, cons i <$> indices sh) <$> seq k n) = seq (k * size_of_axes sh) (n * size_of_axes sh))
    as Hgo by apply (Hgo 0).
  induction n as [|m IHm]; intros k; [done|]. cbn [seq fmap list_fmap concat]. rewrite fmap_app.
  change (ravel (S m :: sh) <$> concat ((λ i, cons i <$> indices sh) <$> seq (S k) m)) with
    (ravel (m :: sh) <$> concat ((λ i, cons i <$> indices sh) <$> seq (S k) m)). rewrite IHm.
  cbn [Nat.mul]. rewrite seq_app. f_equal; [|f_equal; lia].
  rewrite <-list_fmap_compose. transitivity (Nat.add (k * size_of_axes sh) <$> seq 0 (size_of_axes sh)).
  - rewrite <-IH, <-list_fmap_compose. by apply list_fmap_ext.
  - rewrite fmap_add_seq. f_equal. lia.
Qed.

Lemma tab_same a f : (∀ idx, idx ∈ indices (a_sh a) → f idx = arr_at a idx) → f <$> indices (a_sh a) = a_data a.
Proof.
  intros Hf. transitivity ((λ i, default num_zero (a_data a !! i)) <$> (ravel (a_sh a) <$> indices (a_sh a))).
  - rewrite <-list_fmap_compose. apply list_fmap_ext. intros i idx Hi. apply Hf. by eapply list_elem_of_lookup_2.
  - rewrite ravel_indices, <-(a_ok a). apply list_eq. intros i. rewrite list_lookup_fmap.
    destruct (decide (i < length (a_data a))) as [Hi|Hi].
    + rewrite lookup_seq_lt by done. simpl. destruct (lookup_lt_is_Some_2 _ _ Hi) as [x ->]. done.
    + rewrite !lookup_ge_None_2; [done|lia|rewrite length_seq; lia].
Qed.
End Arrays.

Section Laws.
Context `{CostOk}.

Lemma first_min_spec n f : 0 < n → first_min n f < n ∧ ∀ j, j < n → (val (f (first_min n f)) ≤ val (f j))%Z.
Proof.
  induction n as [|n IH]; intros Hn; [lia|]. cbn [first_min]. destruct (n =? 0) eqn:E.
  - apply Nat.eqb_eq in E. subst n. split; [lia|]. intros j Hj. by assert (j = 0) as -> by lia.
  - apply Nat.eqb_neq in E. destruct IH as [Hlt Hmin]; [lia|]. rewrite val_ltb.
    case_bool_decide as Hc; (split; [lia|]); intros j Hj; destruct (decide (j = n)) as [->|]; try lia.
    + pose proof (Hmin j ltac:(lia)). lia.
    + apply Hmin. lia.
Qed.

(** A row of a table with two axes. *)
Lemma row_arr (a : arr) n m i : a_sh a = [n; m] → i < n →
  row_at (a : nd) m i = (λ j, arr_at a [i; j]) <$> seq 0 m.
Proof.
  intros Hsh Hi. unfold row_at. simpl nd_flatten. pose proof (a_ok a) as Hok. rewrite Hsh in Hok. simpl in Hok.
  assert (i * m + m ≤ n * (m * 1)) by nia.
  apply list_eq. intros j. rewrite list_lookup_fmap. destruct (decide (j < m)) as [Hj|Hj].
  - rewrite lookup_take_lt, lookup_drop, lookup_seq_lt by done. simpl. unfold arr_at. rewrite Hsh. simpl.
    replace (i * (m * 1) + (j * 1 + 0)) with (i * m + j) by lia.
    destruct (lookup_lt_is_Some_2 (a_data a) (i * m + j)) as [x ->]; [lia|done].
  - rewrite !lookup_ge_None_2; [done|rewrite length_seq; lia|rewrite length_take; lia].
Qed.

Lemma least_row (a : arr) n m i : a_sh a = [n; m] → i < n → 0 < m →
  let f j := arr_at a [i; j] in first_min m f < m ∧ row_at (a : nd) m i !! first_min m f = Some (f (first_min m f)) ∧
    least (f (first_min m f)) (row_at (a : nd) m i).
Proof.
  intros Hsh Hi Hm f. rewrite (row_arr a n m i) by done. destruct (first_min_spec m f Hm) as [Hlt Hmin].
  assert (((λ j, arr_at a [i; j]) <$> seq 0 m) !! first_min m f = Some (f (first_min m f))) as Hl
    by (rewrite list_lookup_fmap, lookup_seq_lt by done; done).
  split; [done|]. split; [done|]. split; [by eapply list_elem_of_lookup_2|].
  intros y (j & -> & Hj)%list_elem_of_fmap. apply elem_of_seq in Hj. rewrite val_ltb. apply bool_decide_eq_false.
  pose proof (Hmin j ltac:(lia)). unfold f in *. lia.
Qed.

Lemma max_spec l : ∀ x, let m := foldl (λ m y, if num_ltb m y then y else m) x l in
  (m = x ∨ m ∈ l) ∧ (val x ≤ val m)%Z ∧ ∀ y, y ∈ l → (val y ≤ val m)%Z.
Proof.
  induction l as [|z l IH]; intros x; simpl; [split; [by left|]; split; [done|]; by intros y Hy%elem_of_nil|].
  destruct (IH (if num_ltb x z then z else x)) as (Hin & Hx & Hall). rewrite val_ltb in *. split; [|split].
  - case_bool_decide; destruct Hin as [->|?]; [right; left|by right; right|by left|by right; right].
  - case_bool_decide; lia.
  - intros y [->|Hy]%elem_of_cons; [case_bool_decide; lia|by apply Hall].
Qed.

Lemma indices_one n : indices [n] = (λ i, [i]) <$> seq 0 n.
Proof. cbn [indices]. generalize 0 as k. induction n as [|n IH]; intros k; [done|]. cbn. by rewrite <-IH. Qed.

Lemma nth_seq_same (l : list nat) : (λ k, nth k l 0) <$> seq 0 (length l) = l.
Proof.
  apply list_eq. intros i. rewrite list_lookup_fmap. destruct (decide (i < length l)) as [Hi|Hi].
  - rewrite lookup_seq_lt by done. simpl. destruct (lookup_lt_is_Some_2 _ _ Hi) as [x Hx]. rewrite Hx.
    by rewrite (nth_lookup_Some _ _ _ _ Hx).
  - rewrite !lookup_ge_None_2; [done|lia|rewrite length_seq; lia].
Qed.

Lemma pos_of_seq d n : ∀ k, k ≤ d < k + n → pos_of d (seq k n) = Ret (d - k).
Proof.
  induction n as [|n IHn]; intros k Hk; [lia|]. cbn [seq pos_of]. destruct (k =? d) eqn:E.
  - apply Nat.eqb_eq in E. by replace (d - k) with 0 by lia.
  - apply Nat.eqb_neq in E. rewrite IHn by lia. cbn [pbind]. f_equal. lia.
Qed.

Lemma transpose_idx (idx : list nat) :
  (λ d, match pos_of d (seq 0 (length idx)) with Ret p => nth p idx 0 | Raise _ => 0 end) <$> seq 0 (length idx) = idx.
Proof.
  etransitivity; [|apply nth_seq_same]. apply list_fmap_ext. intros i d Hd.
  apply lookup_seq in Hd as [-> Hi]. rewrite pos_of_seq by lia. do 2 f_equal. lia.
Qed.

Lemma broadcast_idx (sh idx : list nat) : idx ∈ indices sh → zip_with (λ i n, if n =? 1 then 0 else i) idx sh = idx.
Proof.
  intros Hidx%indices_in. induction Hidx as [|i n idx sh Hin _ IH]; [done|]. simpl. rewrite IH.
  destruct (n =? 1) eqn:E; [|done]. apply Nat.eqb_eq in E. f_equal. lia.
Qed.

Lemma broadcast_fits (sh : list nat) : forallb (λ x, (x.1 =? x.2) || (x.1 =? 1)) (zip sh sh) = true.
Proof. induction sh as [|n sh IH]; [done|]. simpl. by rewrite Nat.eqb_refl, IH. Qed.

#[global] Instance list_arrays_ok : NdOk.
Proof.
  split.
  - intros a. apply (a_ok a).
  - intros l sh Hl. simpl. destruct (decide _) as [Hd|]; [|done]. by eexists.
  - intros a. simpl. rewrite bool_decide_true by done. eexists. split; [done|]. unfold arr_tab. cbn [a_sh a_data].
    rewrite nth_seq_same. split; [done|]. apply tab_same. intros idx Hidx. f_equal.
    apply indices_in, Forall2_length in Hidx. rewrite <-Hidx. apply transpose_idx.
  - intros a. simpl. rewrite Nat.eqb_refl, broadcast_fits. eexists. split; [done|]. split; [done|]. cbn [arr_tab a_data].
    apply tab_same. intros idx Hidx. f_equal. by apply broadcast_idx.
  - intros a n m Hsh Hm. simpl in Hsh. simpl. unfold arr_axis. rewrite Hsh. simpl. destruct m as [|m]; [lia|]. cbn [pbind].
    eexists. split; [done|]. split; [done|]. intros i Hi. cbn [arr_tab a_data]. rewrite indices_one, <-list_fmap_compose, list_lookup_fmap.
    rewrite lookup_seq_lt by done. simpl fmap. eexists. split; [done|].
    destruct (least_row a n (S m) i Hsh Hi Hm) as (_ & _ & Hl). exact Hl.
  - intros a n m i Hsh Hm Hi. simpl in Hsh. simpl. unfold arr_axis. rewrite Hsh. simpl. destruct m as [|m]; [lia|]. cbn [pbind].
    destruct (least_row a n (S m) i Hsh Hi Hm) as (H1 & H2 & H3). by eexists _, _.
  - intros a Ha. simpl in *. destruct (a_data a) as [|x l] eqn:E; [done|]. destruct (max_spec l x) as (Hin & Hx & Hall).
    eexists. split; [done|]. split; [destruct Hin as [->|?]; [left|by right]|]. intros y [->|Hy]%elem_of_cons; rewrite val_ltb;
      apply bool_decide_eq_false; [lia|]. pose proof (Hall y Hy). lia.
Qed.
End Laws.

(** ** Whole numbers as costs *)

#[local] Instance Z_times : CostOps := {|
  num := Z; num_zero := 0%Z; num_add := Z.add; num_ltb := Z.ltb; num_eqb := Z.eqb; INVALID_LAYOUT_TIME := 10000%Z
|}.

Definition test_attr (l : list Z) : @attr Z_times unit :=
  mkAttr [] [Some ("w", [])] (Some (map (λ c : Z, mkRec ("w", []) tt (c : num)) l)).

(** A chain of three convolutions. *)
Definition chain_nodes : list node_entry :=
  [mkNode None (Some "data") [] false; mkNode (Some "conv") None [0] false;
   mkNode (Some "conv") None [1] false; mkNode (Some "conv") None [2] false].

Definition chain_attrs : gmap nat (@attr Z_times unit) :=
  <[1 := test_attr [1; 5]%Z]> (<[2 := test_attr [4; 2; 9]%Z]> {[3 := test_attr [3; 3]%Z]}).

Definition chain_ltf : gmap (nat * nat) (list (list num)) :=
  <[(1, 2) := [[0; 9; 9]; [9; 1; 9]]%Z]> {[(2, 3) := [[5; 5]; [7; 1]; [0; 0]]%Z]}.

Definition chain_run := dp_run (H0 := list_arrays) id ["conv"] ["data"] chain_nodes chain_attrs
  [(1, [0]); (2, [1]); (3, [2])] [(1, [2]); (2, [3]); (3, [])] chain_ltf None 10 dp_init.

#[local] Instance Z_times_ok : CostOk.
Proof.
  refine {| val := λ x : num, (x : Z) |}; simpl; try done.
  - intros a b. symmetry. destruct (Z.ltb_spec a b); [by apply bool_decide_true|apply bool_decide_false; lia].
  - intros a b. symmetry. destruct (Z.eqb_spec a b); [by apply bool_decide_true|by apply bool_decide_false].
Defined.

Lemma chain_is_chain : is_chain ["conv"] ["data"] chain_nodes chain_attrs
  [(1, [0]); (2, [1]); (3, [2])] [(1, [2]); (2, [3]); (3, [])] chain_ltf 0 [1; 2; 3] ([[1; 5]; [4; 2; 9]; [3; 3]]%Z : list (list num)).
Proof.
  split; try done.
  - repeat constructor.
  - intros [|[|[|i]]] n; simpl; intros [= <-]; reflexivity.
  - intros [|[|[|i]]] n; simpl; intros [= <-]; reflexivity.
  - split; [by apply NoDup_ListNoDup; repeat (constructor; [simpl; lia|]); constructor|]. intros k Hk. simpl. set_solver.
  - intros [|[|[|i]]] n; simpl; intros [= <-]; (eexists _, _, _; split_and!; [reflexivity..|done|reflexivity|done|reflexivity]).
  - intros [|[|[|i]]] n n'; simpl; intros [= <-]; try done; intros [= <-]; (eexists; split_and!; [reflexivity|reflexivity|]);
      intros row Hrow; set_solver.
Qed.

Lemma dp_chain_witness :
  (chain_run.1, map_to_list (d_opt chain_run.2)) = (Ret tt, [(2, 1); (3, 1); (1, 1)]) ∧
  ∃ s, chain_run = (Ret tt, s) ∧ ∀ c, (∀ i, i < 3 → c i < sz ([[1; 5]; [4; 2; 9]; [3; 3]]%Z : list (list num)) i) →
    (12 ≤ chain_time chain_ltf ([1; 2; 3] : list nat)%nat ([[1; 5]; [4; 2; 9]; [3; 3]]%Z : list (list num)) 2 c)%Z.
Proof.
  split; [vm_compute; reflexivity|].
  destruct (dp_chain_optimal id (λ x, eq_refl) _ _ _ _ _ _ _ _ _ _ chain_is_chain 10) as (s & Hrun & _ & Hmin); [simpl; lia|].
  exists s. split; [exact Hrun|]. intros c Hc. specialize (Hmin c Hc).
  assert (d_opt s = d_opt chain_run.2) as Hs by (unfold chain_run; by rewrite Hrun).
  rewrite Hs in Hmin. simpl length in Hmin. simpl Nat.sub in Hmin.
  replace 12%Z with (chain_time chain_ltf ([1; 2; 3] : list nat)%nat ([[1; 5]; [4; 2; 9]; [3; 3]]%Z : list (list num)) 2 (chosen [1; 2; 3] (d_opt chain_run.2)))
    by (vm_compute; reflexivity). exact Hmin.
Defined.

(** ** Where the result is not the best *)

(** A sum with one tuned input: nothing is stored for it, and the time of the input is lost. *)
Definition sum_nodes : list node_entry :=
  [mkNode None (Some "data") [] false; mkNode (Some "conv") None [0] false;
   mkNode (Some "add") None [1; 0] false; mkNode (Some "conv") None [2] false].

Definition sum_run := dp_run (H0 := list_arrays) id ["conv"] ["data"] sum_nodes
  (<[1 := test_attr [9; 1]%Z]> (<[2 := test_attr [9; 1]%Z]> {[3 := test_attr [1]%Z]}))
  [(1, [0]); (2, [1]); (3, [2])] [(1, [2]); (2, [3]); (3, [])] {[(2, 3) := [[0]; [0]]%Z]} None 10 dp_init.

(** The record that takes 9 is chosen for the first node; the one that takes 1 fits as well. *)
Lemma sum_not_best : sum_run.1 = Ret tt ∧ d_opt sum_run.2 !! 1 = Some 0.
Proof. split; vm_compute; reflexivity. Qed.

(** The first input of a sum is read by another node too: the two take different records of it into account. *)
Definition shared_nodes : list node_entry :=
  [mkNode None (Some "data") [] false; mkNode (Some "conv") None [0] false; mkNode (Some "conv") None [0] false;
   mkNode (Some "add") None [1; 2] false; mkNode (Some "conv") None [1] false; mkNode (Some "conv") None [3] false].

Definition shared_run := dp_run (H0 := list_arrays) id ["conv"] ["data"] shared_nodes
  (<[1 := test_attr [0; 0]%Z]> (<[2 := test_attr [0]%Z]> (<[3 := test_attr [0; 0]%Z]> (<[4 := test_attr [0]%Z]> {[5 := test_attr [0]%Z]}))))
  [(1, [0]); (2, [0]); (3, [1; 2]); (4, [1]); (5, [3])]
  [(0, [1; 2]); (1, [3; 4]); (2, [3]); (3, [5]); (4, []); (5, [])]
  (<[(1, 4) := [[0]; [20]]%Z]> (<[(3, 5) := [[5]; [0]]%Z]> {[(2, 1) := [[0; 0]]%Z]})) None 20 dp_init.

(** The first node gets the record 1 and the last transformation takes 20; with the record 0 all take 5. *)
Lemma shared_not_best : shared_run.1 = Ret tt ∧ d_opt shared_run.2 !! 1 = Some 1 ∧ d_opt shared_run.2 !! 4 = Some 0 ∧
  d_opt shared_run.2 !! 5 = Some 0.
Proof. split_and!; vm_compute; reflexivity. Qed.
