(* ===== verification/MetaWitnesses.v ===== *)
(** * Concrete instances of the theorems on the MetaSchedule pipeline *)

From S2P Require Import Prelude PyFloat PyText Corpus Measure MetaCorpus MetaCorpusSpec.
From S2P Require Import MetaMeasure MetaMeasureSpec Campaign CampaignSpec Driver DriverSpec.
From S2P Require Import MetaDriver MetaDriverSpec Codes.

(** ** A small database *)

(** A record with a parallel annotation of factor [n] and a tile of sizes [l], that
    ran for [sec]. *)
Definition demo_insts (n : Z) : list json :=
  [JArr [JStr "SamplePerfectTile"; JArr [JStr "l1"]];
   JArr [JStr "Annotate"; JArr [JStr "b0"; JInt n]; JArr [JStr "meta_schedule.parallel"]; JArr []];
   JArr [JStr "EnterPostproc"; JArr []; JArr []; JArr []]].

Definition demo_trace (n : Z) (l : list Z) (sec : Z) : json :=
  JArr [JInt 0; JArr [JArr [JArr (demo_insts n ++ [JArr [JStr "Unroll"]]); JArr [JArr [JInt 0; JArr (JInt <$> l)]]];
                      JArr [JInt sec]; JStr "llvm"]].

(** The lines "a" and "b" hold one sketch, "c" another one with fewer sizes. *)
Definition demo_loads (line : string) : py json :=
  if decide (line = "a") then Ret (demo_trace 64 [8; 4]%Z 3)
  else if decide (line = "b") then Ret (demo_trace 16 [2; 16]%Z 2)
  else if decide (line = "c") then Ret (demo_trace 64 [32]%Z 5)
  else Raise JSONDecodeError.

Definition demo_mean (l : list flt) : flt := match l with x :: _ => x | [] => S754_nan end.
Definition demo_repr (x : flt) : string := "0.5".
Definition demo_workload : workload := mkWorkload "h" "fused_dense" [] (JStr "llvm").

Definition demo_entry (line : string) (n : Z) (l : list Z) (sec : Z) : entry :=
  mkEntry line (demo_insts 1) [JArr [JInt 0; JArr ((λ _, JInt 1) <$> l)]] (JArr [JArr [JInt 0; JArr (JInt <$> l)]])
    [JArr [JStr "Annotate"; JArr [JStr "b0"; JInt n]; JArr [JStr "meta_schedule.parallel"]; JArr []]]
    (f_of_Z sec).

Lemma meta_prompt_witness :
  init_line demo_loads demo_mean None "a" = Ret (demo_entry "a" 64 [8; 4]%Z 3, Some 2) ∧
  prompt_text demo_workload (demo_entry "a" 64 [8; 4]%Z 3) = prompt_text demo_workload (demo_entry "b" 16 [2; 16]%Z 2) ∧
  unmask (demo_insts 1) (parallel_label (demo_entry "a" 64 [8; 4]%Z 3)) = demo_insts 64.
Proof.
  assert (init_line demo_loads demo_mean None "a" = Ret (demo_entry "a" 64 [8; 4]%Z 3, Some 2)) as Ha by (vm_compute; reflexivity).
  assert (init_line demo_loads demo_mean None "b" = Ret (demo_entry "b" 16 [2; 16]%Z 2, Some 2)) as Hb by (vm_compute; reflexivity).
  split; [exact Ha|].
  destruct (meta_prompt_spec demo_loads demo_mean demo_workload None None "a" "b" _ _ _ _ Ha Hb)
    as (insts & insts' & secs & secs' & Hp & _ & _ & [_ Hu]).
  split; [vm_compute; reflexivity|]. transitivity (up_to_postproc insts); [exact Hu|].
  vm_compute in Hp. injection Hp as <- _. vm_compute. reflexivity.
Defined.

Lemma meta_for_gen_best_witness :
  ∃ e, meta_for_gen_best demo_loads demo_mean demo_repr "i7" id demo_workload ["a"; "b"; "c"] =
    Ret [od_set (best_data demo_workload e) "label" (JFloat (fdiv_raw (f_of_Z 2) (e_latency e)))].
Proof.
  set (es := [demo_entry "a" 64 [8; 4]%Z 3; demo_entry "b" 16 [2; 16]%Z 2; demo_entry "c" 64 [32]%Z 5]).
  destruct (meta_for_gen_best demo_loads demo_mean demo_repr "i7" id demo_workload ["a"; "b"; "c"]) as [ds|] eqn:Hds;
    [|vm_compute in Hds; discriminate].
  destruct (meta_for_gen_best_spec demo_loads demo_mean demo_repr demo_workload "i7" id ["a"; "b"; "c"] ds es)
    as [[He _]|(e & He & _)]; [left; reflexivity|vm_compute; reflexivity| |exact Hds|discriminate He|].
  - intros e He. unfold es in He. rewrite !elem_of_cons, elem_of_nil in He.
    destruct He as [->|[->|[->|[]]]]; reflexivity.
  - exists e. rewrite He. reflexivity.
Defined.

(** ** Training and test databases *)

Definition demo_dirs : list string := ["d/a"; "d/b"; "d/c"; "d/d"; "d/e"; "d/f"].
Definition demo_sample (l : list string) (n : Z) : py (list string) :=
  if bool_decide (0 ≤ n ≤ zlen l)%Z then Ret (take (Z.to_nat n) l) else Raise ValueError.

Definition demo_main (t : meta_for_type) (idx : option Z) : py (list string) :=
  main_dirs demo_sample id t demo_dirs ["b"; "x"] None idx false.

Lemma meta_hold_out_witness :
  demo_main META_FOR_GEN_EVAL_SKETCH None = Ret ["d/b"] ∧
  demo_dirs ≡ₚ ["d/a"; "d/c"; "d/d"; "d/e"; "d/f"] ++ ["d/b"] ∧
  ["d/a"; "d/c"; "d/d"; "d/e"; "d/f"] ≡ₚ ["d/c"] ++ ["d/d"] ++ ["d/e"] ++ ["d/a"; "d/f"].
Proof.
  split; [vm_compute; reflexivity|].
  destruct (meta_hold_out_partition demo_sample id META_FOR_GEN META_FOR_GEN_EVAL_SKETCH demo_dirs ["b"; "x"] None
    ["d/a"; "d/c"; "d/d"; "d/e"; "d/f"] ["d/b"] 5 ["d/c"] ["d/d"] ["d/e"] ["d/a"; "d/f"]) as (H & _ & H');
    [|left|left|vm_compute; reflexivity..|split; assumption].
  apply (bool_decide_unpack _). vm_compute. exact I.
Defined.

(** ** Generation *)

(** The engine commits "a" in the first round, and then also "b". *)
Definition demo_commit (n : nat) : string :=
  match n with O => "a" | S _ => "a" +:+ String newline "b" end.

Definition demo_dumps (j : json) : string := py_repr demo_repr j.

Lemma gen_task_witness :
  ∃ l, gen_task demo_loads demo_dumps demo_sample demo_commit false (Some "a") 2 = Ret l ∧
    l = ["b"] ∧ (zlen l ≤ 2)%Z.
Proof.
  exists ["b"]. assert (gen_task demo_loads demo_dumps demo_sample demo_commit false (Some "a") 2 = Ret ["b"]) as Hl
    by (vm_compute; reflexivity).
  split; [exact Hl|]. split; [reflexivity|].
  refine (proj1 (proj2 (gen_task_spec demo_loads demo_dumps demo_sample demo_commit _ false (Some "a") 2 ["b"] _ _ Hl))).
  - intros [|n]; [|reflexivity]. exists ["b"]. vm_compute. reflexivity.
  - lia.
  - intros k Hk p s Hs. unfold demo_sample in Hs. case_bool_decide as Hn; [|discriminate]. injection Hs as <-.
    split; [unfold zlen in *; rewrite length_take; lia|]. apply sublist_submseteq, sublist_take.
Defined.

(** ** Measurement *)

(** The second candidate does not finish in time. *)
Definition demo_measure (batch : list nat) : list (option string) :=
  (λ r, if decide (r = 2) then Some "timeout" else None) <$> batch.

Lemma measure_candidates_witness :
  ∃ (results : list (option string)) committed fails,
    measure_candidates id demo_measure 2 [1; 2; 3] =
      Ret (committed, fails) ∧ length results = 3 ∧ committed.*1 = [1; 3] ∧ fails = [1].
Proof.
  destruct (measure_candidates_spec id demo_measure 2 [1; 2; 3])
    as (results & committed & fails & H & Hlen & _ & _); [lia|intros b; apply length_fmap|].
  exists results, committed, fails. split; [exact H|]. split; [exact Hlen|].
  vm_compute in H. injection H as <- <-. split; reflexivity.
Defined.

(** ** The driver *)

Definition demo_polls : list (list string * Z) :=
  [([], 0); (["finetuning_0"; "finetuning_1"], 0); (["finetuning_1"], 0)]%Z.

Lemma meta_rounds_witness :
  ∃ cmds file', run_polls (meta_poll (mkCfg 2 100 100)) None demo_polls = Ret (Some 2%Z, cmds, true) ∧
    omap mpushed_by cmds = ["finetuning_2"; "finetuning_3"] ∧
    exec_dirs of_text to_text "v100" cmds None = (Ret tt, file') ∧
    get_finetuning_dirs of_text (Some "v100") file' =
      Ret (JArr [JStr "meta_data/measure_data_v100/finetuning_0"; JStr "meta_data/measure_data_v100/finetuning_1"]).
Proof.
  destruct (run_polls (meta_poll (mkCfg 2 100 100)) None demo_polls) as [[[want cmds] go]|e] eqn:Hr;
    [|vm_compute in Hr; discriminate].
  destruct (meta_rounds_in_order of_text to_text "v100" of_to_text (mkCfg 2 100 100) demo_polls want cmds go None
    (λ _, []) Hr) as (_ & Hp & _ & _ & file' & He & Hg).
  - intros key Hkey. repeat (apply elem_of_cons in Hkey as [->|Hkey]; [vm_compute; reflexivity|]).
    exfalso. revert Hkey. apply not_elem_of_nil.
  - exists cmds, file'. split; [vm_compute in Hr; injection Hr as <- <- <-; reflexivity|].
    split; [rewrite Hp; vm_compute in Hr; injection Hr as <- <- <-; vm_compute; reflexivity|].
    split; [exact He|]. unfold get_finetuning_dirs. rewrite (Hg "finetuning_dirs"); [|left].
    vm_compute in Hr. injection Hr as <- <- <-. vm_compute. reflexivity.
Defined.
