(* ===== verification/AsWitnesses.v ===== *)
(** * Concrete instances of the theorems on the auto-scheduler's dispatch contexts *)

From S2P Require Import Prelude PyFloat Dispatcher AsDispatcher AsDispatcherSpec.

(** The workloads "w4" and "w2" are one function with different shapes, "none" has
    [None] for the shape. *)
Definition demo_loads (workload_key : string) : py json :=
  if decide (workload_key = "w4") then Ret (JArr [JStr "hash"; JArr [JInt 4; JInt 8]])
  else if decide (workload_key = "w2") then Ret (JArr [JStr "hash"; JArr [JInt 2; JInt 8]])
  else if decide (workload_key = "none") then Ret (JArr [JStr "hash"; JArr [JNull; JInt 8]])
  else Raise JSONDecodeError.

#[local] Instance demo_numpy : Numpy :=
  {| np_prod := zprod; np_argmax := λ _, 0; np_mean := λ l, match l with x :: _ => x | [] => S754_nan end |}.

Definition demo_target : target := mkTarget "llvm -model=i7" "i7" ["cpu"; "x86"].
Definition demo_record (wk : string) (st : nat) (cost : Z) : @as_input nat * as_result :=
  (mkAsInput demo_target wk st, mkAsResult [Some (f_of_Z cost)] 0).

Definition demo_records : list (@as_records nat) :=
  [AsFile [demo_record "w4" 1 5; demo_record "w4" 2 3; demo_record "w2" 3 4]; AsNone; AsRecord (demo_record "w4" 4 3)].

Definition demo_args (n : Z) : option (list json) := Some [JInt n; JInt 8].
Definition demo_key (n : Z) : json * option (list json) := (JStr "hash", demo_args n).

Ltac in_cases H :=
  repeat (apply elem_of_cons in H as [->|H]; [|]); try (exfalso; revert H; apply not_elem_of_nil).

Lemma as_load_witness :
  ∃ h, ApplyHistoryBest_init demo_loads demo_records None false = Ret h ∧
    held (best_by_model h) "i7" (demo_key 4) = Some (2, f_of_Z 3) ∧
    first_best (for_model demo_loads "i7" (demo_key 4) (loaded demo_records None)) (Some (2, f_of_Z 3)).
Proof.
  destruct (as_load_spec demo_loads demo_records None false) as (h & Hh & _ & _ & _ & Hm).
  - intros r Hr _.
    change (r ∈ [demo_record "w4" 1 5; demo_record "w4" 2 3; demo_record "w2" 3 4; demo_record "w4" 4 3]) in Hr.
    in_cases Hr; (split; [eexists|]; vm_compute; reflexivity).
  - exists h. split; [exact Hh|].
    assert (held (best_by_model h) "i7" (demo_key 4) = Some (2, f_of_Z 3)) as He.
    { vm_compute in Hh. injection Hh as <-. vm_compute. reflexivity. }
    split; [exact He|]. specialize (Hm "i7" (demo_key 4)). rewrite He in Hm. exact Hm.
Defined.

(** A history with compatible records and one for "w2" only. *)
Definition demo_history (maps : list (string * list (json * list (option (list json) * @slot nat)))) : history :=
  mkHistory true [] maps [].

Definition demo_w2 (n : Z) (st : nat) : list (json * list (option (list json) * @slot nat)) :=
  [(JStr "hash", [(demo_args n, mkSlot (demo_args n) st (f_of_Z 3))])].

Lemma as_history_query_witness :
  ∃ hist', history_query_inside demo_loads (Some demo_target) "w4" (demo_history [("i7", demo_w2 2 7)]) =
    (Ret (Some 7), hist') ∧
    first_answer (query_answers (demo_history [("i7", demo_w2 2 7)]) demo_target (JStr "hash") (demo_args 4) (demo_key 4))
      (Some 7).
Proof.
  destruct (as_history_query_spec demo_loads demo_target "w4" (JStr "hash") (demo_args 4) (demo_key 4)
    (demo_history [("i7", demo_w2 2 7)])) as (o & hist' & Hq & _ & Ha); [reflexivity|reflexivity| |].
  - intros _ best k Hb s. unfold history_maps in Hb. simpl in Hb.
    in_cases Hb; try (intros H; exfalso; revert H; apply not_elem_of_nil).
    unfold entry_of. cbn [od_get]. case_decide; [|intros H0; exfalso; revert H0; apply not_elem_of_nil].
    intros Hs. change (s ∈ [mkSlot (demo_args 2) 7 (f_of_Z 3)]) in Hs. in_cases Hs.
    eexists. vm_compute. reflexivity.
  - exists hist'. vm_compute in Hq. injection Hq as <- <-. split; [vm_compute; reflexivity|exact Ha].
Defined.

(** The search writes nothing useful in the first round, and a record in the second. *)
Definition demo_sampled (workload_key : string) (round : nat) : list (@as_input nat * as_result) :=
  match round with O => [] | S _ => [demo_record "w4" 9 2] end.

Lemma as_sample_witness :
  ∃ st hist', sample_query_inside demo_loads demo_sampled 2 (Some demo_target) "w4" (demo_history []) = (Ret st, hist') ∧
    st = 9.
Proof.
  destruct (as_sample_returns demo_loads demo_sampled demo_target "w4" (JStr "hash") (demo_args 4) (demo_key 4)
    (demo_history []) 1 2) as (st & hist' & Hq); [reflexivity|reflexivity| | | |lia|].
  - split; [|reflexivity]. intros best Hb k s. unfold history_maps in Hb. simpl in Hb.
    in_cases Hb; intros H; exfalso; revert H; apply not_elem_of_nil.
  - intros j r _ Hr. destruct j; simpl in Hr; in_cases Hr. split; [intros _; eexists; vm_compute; reflexivity|].
    intros key h' args' _ _ Hd. vm_compute in Hd. injection Hd as <- <-. eexists. vm_compute. reflexivity.
  - exists (demo_record "w4" 9 2). split; [left|]. split; [reflexivity|]. split; [reflexivity|].
    left. split; [discriminate|reflexivity].
  - exists st, hist'. split; [exact Hq|]. vm_compute in Hq. injection Hq as <- _. reflexivity.
Defined.

(** ** What the code does otherwise *)

(** A state given by [update] for a compatible workload hides an exact record. *)
Lemma compatible_shadows_exact :
  let hist := mkHistory true [] [("i7", demo_w2 4 1)] [("i7", demo_w2 2 7)] in
  slot_at (best_by_model hist) "i7" (demo_key 4) = Some (mkSlot (demo_args 4) 1 (f_of_Z 3)) ∧
  (history_query_inside demo_loads (Some demo_target) "w4" hist).1 = Ret (Some 7).
Proof. split; vm_compute; reflexivity. Qed.

(** An integer argument compared with one that is not a number raises, where a factor
    of [inf] is documented. *)
Lemma dis_factor_raises :
  calc_workload_dis_factor (JStr "hash", demo_args 4) (JStr "hash", Some [JNull; JInt 8]) = Raise TypeError.
Proof. vm_compute. reflexivity. Qed.

(** A record without costs has a NaN for its mean, and no later record replaces it. *)
Lemma nan_cost_stays :
  ∃ h, ApplyHistoryBest_init demo_loads
    [AsFile [(mkAsInput demo_target "w4" 1, mkAsResult [None] 0); demo_record "w4" 2 3]] None false = Ret h ∧
    option_map fst (held (best_by_model h) "i7" (demo_key 4)) = Some 1.
Proof. eexists. split; [vm_compute; reflexivity|]. vm_compute. reflexivity. Qed.
